(* ===== verification/_CoqProject ===== *)
-Q . S2P
Prelude.v
Sha1.v
Utf8.v
Format.v
Errors.v
State.v
Sqlite.v
Bindings.v
Database.v
WorkParts.v
Statements.v
Bulk.v
Effects.v
Results.v
Protocol.v
Requests.v
TestRequest.v
Hash.v
Mbedtls.v
System.v
Startup.v
Shlib.v
Constants.v
Runtime.v
Ownership.v
FsPort.v
StreamPort.v
FsRequests.v
Handles.v
Tcp.v
Process.v
EventLoop.v
Program.v
Service.v
Bits.v
Varint.v
RecordFormat.v
Doubles.v
Compare.v
RecordCompare.v
Allocation.v
StrAccum.v
GroupConcat.v
Aggregates.v
Bitvec.v
RowEntries.v
RowSet.v
HashOps.v
HashTable.v
IntText.v
Arithmetic.v
