(* ===== verification/Prelude.v ===== *)
(** * Swish C runtime: verification library

    Swish is a concurrent application framework in Scheme; its C code, in src/src/swish, is the
    operating system interface under it: an event loop on libuv (osi.c), an interface to SQLite
    with a worker thread for each database (sqlite.c), SHA-1 (sha1.c), and the start of the
    program (run.c, main.c).  The repository includes the amalgamation of SQLite, sqlite3.c, on which
    sqlite.c relies for every value it stores; the parts of it that represent, compare and compute
    values are modelled too.  Scheme calls an operation with a callback; the operation returns
    at once, and later [osi_get_callbacks] gives Scheme the list of callbacks to apply.  What
    the C code must get right is this protocol: callbacks delivered exactly once, Scheme objects
    locked against the collector as long as C refers to them, structures freed once and never
    used again, threads that exclude each other and do not wait for ever.

    ** Reading the model

    A Scheme or C integer is a [Z], its wrap-around written out ([u32], [i32], ...) where the
    code computes in a width.  A function with an effect is a computation in a state monad with
    failure: [M] over the [world] of osi.c (Runtime.v), [D] over the state of sqlite.c
    (Sqlite.v), both with [None] for a run C gives no meaning to, or that blocks for ever: a use
    after free, a double free, a failed [assert], a lock released that is not held, a read of
    memory never written.  The answers of [malloc], libuv and the system are a stream in the
    state or arguments, so a theorem about all states is a theorem about all behaviours of
    these.  For sqlite.c the SQLite library is the class [Sqlite], whose answers are functions of the
    whole history of calls; the Scheme functions the code relies on are the class [Scheme].  The
    functions of sqlite3.c are pure, or computations in the monad of State.v on a heap of linked
    structures; there [None] is a read or write outside the memory given, or arithmetic C leaves
    undefined.

    ** The files and the code they model

    - Prelude.v: machine integers and lists.  State.v: the monad of the components that do not
      share the state of osi.c, with the triples [ok] (runs, and ends as stated) and [par] (ends
      as stated when it runs), and the fields of linked structures in a heap.  Doubles.v: the
      floating-point numbers of C, from their bits to their values.  Allocation.v: memory that
      the allocator may refuse.
    - Sha1.v: sha1.c, with sha.h and sha-private.h; [Impl] is the code, [Fips] the standard on
      bit strings.  Hash.v: the contexts behind osi_open_SHA1 and its companions (osi.c).
      Mbedtls.v: the digest provider of examples/mbedtls, which can take their place.
    - Utf8.v: osi_string_to_utf8.  Format.v: the formats of snprintf in use.  Errors.v: error
      numbers (osi.h) and osi_get_error_text.
    - Runtime.v: the structures of osi.c, the heap, the locks, the callback list and the monad
      [M].  Ownership.v: the invariant that says which block owns which locks and what libuv
      holds, and the program logic.  FsPort.v, StreamPort.v, Handles.v, Tcp.v, Process.v: one
      group of operations and callbacks of osi.c each, in the order of the file, each followed
      by the lemmas that it keeps the invariant.  FsRequests.v: what the operations of FsPort.v and
      StreamPort.v on paths and files have in common, from the call to the callback.  EventLoop.v: the events of libuv and
      osi_get_callbacks.  Program.v: any interleaving of calls, turns of the event loop and
      garbage collections.
    - Requests.v: osi_send_request and send_request_async_cb, as a step relation of threads.
      TestRequest.v: the library of the tests that uses them (test-request.c).
    - Sqlite.v: the state and primitives of sqlite.c; Bindings.v and Database.v: all its
      functions, and the parts into which the work functions divide; WorkParts.v: the parts in
      sequence are the function; Statements.v: the list of statements and the bound parameters;
      Bulk.v: the execution of a bulk request; Effects.v: what
      each function does to the state the threads share; Results.v: the types of results;
      Protocol.v: the main thread, the workers, the thread pool and libuv as a step relation,
      in which the main thread may run between the parts of a work function.
    - System.v: arguments, memory, names, clocks and the quantum (osi.c).  Startup.v: run.c,
      main.c, osi_init and osi_exit.  Service.v: the services of run.c, on Linux with the messages of
      the system bus and on Windows.  Shlib.v: shlibtest.c.  Constants.v: io-constants.c.
    - From sqlite3.c: Bits.v (bytes as bits) and Varint.v (util.c: variable-length integers);
      RecordFormat.v (vdbe.c, vdbeaux.c: rows as bytes); Compare.v and RecordCompare.v (vdbeaux.c: the
      order of values, and a record compared with a key); Bitvec.v (bitvec.c); RowEntries.v and
      RowSet.v (rowset.c: linked entries, and the sets made of them); HashOps.v and HashTable.v
      (hash.c: the operations, and what they mean); IntText.v (util.c: integers as text);
      Arithmetic.v (util.c, vdbe.c, func.c: checked operations, opcodes on numbers, SUM, TOTAL and
      AVG); StrAccum.v (printf.c: strings that grow); GroupConcat.v and Aggregates.v (func.c:
      group_concat; count, min and max).

    The names of the code are kept; a definition that models a part of a function (the loop of
    [bind_bindings] is [bind_loop]) is next to the one for the function.

    ** What is proved

    - The event loop (Program.v, FsRequests.v, StreamPort.v, Process.v): every call Scheme may make and every turn of the
      loop runs, whatever libuv reports; accepted callbacks are delivered exactly once; objects
      are locked as often as blocks refer to them; a file-system request, on a path or the port of a
      file, is submitted once, completes once, delivers its value and leaves nothing else behind; a
      child is started with its arguments.  The first buffer of osi_tcp_write2 has to be a
      bytevector: for another object the call is undefined ([tcp_write2_undefined]).
    - SQLite (Protocol.v, Statements.v, Bulk.v, Bindings.v, Results.v): in every interleaving, from
      the first part of a work function to its last, operations on its database are refused, no
      wakeup is lost and callbacks are delivered once.  Statements that the worker has detached are
      not protected by this: finalizing one while the worker still writes to it, and clearing
      [s->database] between the two times an operation reads it, are errors of the code
      ([close_finalize_race], [test_then_null]).  Closing
      finalizes each statement once and before the connection; finalizing unlinks; bindings
      read back and are released; a bulk request executes its statements in order up to the first
      failure; results have their documented types; the error of a
      parameter that is not the last is lost.
    - Values of SQLite (Varint.v, RecordFormat.v, Compare.v, RecordCompare.v, IntText.v, Arithmetic.v):
      integers and rows read back from their bytes, integers from their text, with a result code
      that says how well a text fits; values are in a total preorder, numbers by their exact
      values; the comparison of a record with a key, and its fast forms, are the comparison of the
      values, and stay within the memory left for them whatever the bytes are; checked arithmetic
      and the opcodes agree with exact arithmetic.
    - Aggregates of SQLite (GroupConcat.v, Aggregates.v, Arithmetic.v): group_concat over a group, and over a
      frame into which rows enter and which they leave, is the text of its rows, whatever
      allocations fail (the context, the texts of arguments, the string, the table of lengths), up
      to the first error, which has a reason; min and max are the first
      of the extreme values; sum, total and avg agree.
    - Collections of SQLite (Bitvec.v, RowSet.v, HashTable.v): a Bitvec and a RowSet are the sets of
      numbers, and a hash table is the map, that their operations promise, whatever allocations
      fail, and the memory holds exactly their elements.
    - Requests (Requests.v, TestRequest.v): a request runs exactly once before its sender
      returns; a run of [n] requests has at most [10 n] steps, and every request is served when
      uv_async_send does not fail; a failing uv_async_send leaves a waiting thread asleep.
    - SHA-1 and digests (Sha1.v, Hash.v, Mbedtls.v): the digest is the one of FIPS 180 for byte and
      bit messages; the life of a context; the bounds of slices; the write past the block at the
      length limit; a digest provider gives the digests of its library and releases everything.
    - Text (Utf8.v, Tcp.v, Errors.v, Constants.v, System.v): encodings decode to what they
      came from, addresses and error texts have the documented form.
    - The program (Startup.v, Service.v, System.v, Shlib.v): the boot file, the arguments, the sequence of
      calls that starts Scheme, the exit status, the service arguments, the quantum and clocks; the
      Linux service takes its steps in order and names the first that fails.

    ** Fuel and bounds

    [digits] has fuel 10, and an [int] has at most ten digits ([digits_spec]).
    [close_statements] has one more than the number of blocks for fuel, and the statements of a
    database are distinct blocks, so that it never runs out ([close_finalizes_once] shows that
    it ends).  [pad_zeros] has the length of a block.  [process_sd_bus_message] is a loop that
    need not end: [bus_loop] says for which results of the bus enough fuel exists, and that
    for others no fuel is enough.  The loops of sqlite3.c that follow links have fuel from
    the number of structures in the heap (twice that for a merge of two lists), and the lists and
    trees are disjoint; those that probe a table have its size, the calls of a Bitvec to its parts a
    constant number of levels; those that read a record or a text have its length; a 64-bit
    integer has at most ten groups of seven bits and at most twenty decimal digits.
    In [bitvec_refines_set] a size has 32 bits and, where pointers have four bytes, is bounded so
    that the parts of a Bitvec have a positive size ([bitvec_large_diverges] shows what happens
    above; with pointers of eight bytes nothing overflows), and in
    [hash_table_refines_map] a history has fewer than 2^27 operations, so that no count of a table
    exceeds 31 bits; [group_concat_window] has fewer than 2^31 rows, so that the count of texts is
    an [int].  Records have at most 2^15 values and texts and blobs at most 10^9 bytes, the
    limits of SQLite.  Other recursions are structural.

    ** What is not modelled

    The Scheme libraries; libuv, mbed TLS and the Scheme system, which are called only (what
    the code relies on of mbed TLS is the class [Digests]); the rest of sqlite3.c: its parser, code
    generator, B-trees and pager, and the system calls under them, a program of its own of which
    sqlite.c uses the interface; the other digests sha.h declares, which sha1.c does not define.
    In the modelled parts of sqlite3.c: affinities, which are applied to values before a record is
    made; the conversion of texts to the encoding of a collating sequence; numbers as text other than
    integers; the formatting of numbers as text; the window
    functions themselves; the destruction of a Bitvec and its built-in test.  A hash table
    does not own the texts of its keys, so they do not change while it refers to them.  Memory is a
    finite map of blocks: alignment, the size of [malloc]ed structures and memory that is not
    allocated by the modelled functions are not represented.  Threads are interleaved at the
    calls of mutexes and condition variables, and between the parts of a work function, each of
    which accesses at most once what an operation on the database or on its statements may read or
    write meanwhile; accesses are taken to be atomic and in order, and weak memory is not modelled.  The bodies of the
    service entry points that only call the system (registering a handler, reporting a status)
    are partly modelled, by what they pass on.

    ** What may come next

    The order of connection attempts and of directory entries; the slices of osi_read_port and
    osi_write_port as properties of their own; the affinities and the decimal form of doubles in
    sqlite3.c. *)

From stdpp Require Export prelude numbers list gmap gmultiset strings.
From Stdlib Require Export ZArith Lia.

Declare Scope swish_scope.
Delimit Scope swish_scope with swish.
#[global] Open Scope Z_scope.
#[global] Open Scope swish_scope.

(** ** Machine integers

    A C integer of width [w] is a [Z]; the conversion to the width is written out
    wherever the source computes in that width. *)

Definition wrap (w : Z) (z : Z) : Z := z mod 2 ^ w.
Definition u8 (z : Z) : Z := wrap 8 z.
Definition u16 (z : Z) : Z := wrap 16 z.
Definition u32 (z : Z) : Z := wrap 32 z.
Definition u64 (z : Z) : Z := wrap 64 z.
(** Conversion to a signed integer of width [w] (two's complement). *)
Definition swrap (w : Z) (z : Z) : Z := (z + 2 ^ (w - 1)) mod 2 ^ w - 2 ^ (w - 1).
Definition i32 (z : Z) : Z := swrap 32 z.
Definition i64 (z : Z) : Z := swrap 64 z.
(** [~x] on an unsigned 32-bit operand. *)
Definition not32 (z : Z) : Z := Z.lxor z (Z.ones 32).
Definition add32 (a b : Z) : Z := u32 (a + b).

Infix "⊞" := add32 (at level 50, left associativity) : swish_scope.

(** Range predicates of the machine integers. *)
Definition is_uint (w z : Z) : Prop := 0 <= z < 2 ^ w.
Definition is_byte (z : Z) : Prop := is_uint 8 z.
Definition is_sint (w z : Z) : Prop := - 2 ^ (w - 1) <= z < 2 ^ (w - 1).

(** C's truth values. *)
Definition c_bool (b : bool) : Z := if b then 1 else 0.

(** The hint database of the development: side conditions on ranges and lookups. *)
Create HintDb swish.

(** Unfolds the fixed-width conversions and computes the powers of two. *)
Ltac unfold_width :=
  unfold add32 in *; unfold u8, u16, u32, u64, i32, i64 in *;
  unfold wrap, swrap, is_byte, is_sint in *; unfold is_uint in *;
  change (2 ^ 8) with 256 in *; change (2 ^ 16) with 65536 in *;
  change (2 ^ 32) with 4294967296 in *; change (2 ^ (32 - 1)) with 2147483648 in *;
  change (2 ^ 64) with 18446744073709551616 in *;
  change (2 ^ (64 - 1)) with 9223372036854775808 in *.

(** Goals of linear arithmetic that mention conversions, division or remainder. *)
Ltac width_lia :=
  unfold_width; Z.to_euclidean_division_equations; lia.

(** Rewrites a boolean comparison of the goal or the context into a proposition. *)
Ltac bool_to_prop :=
  repeat match goal with
  | H : (_ <? _) = true |- _ => apply Z.ltb_lt in H
  | H : (_ <? _) = false |- _ => apply Z.ltb_ge in H
  | H : (_ <=? _) = true |- _ => apply Z.leb_le in H
  | H : (_ <=? _) = false |- _ => apply Z.leb_gt in H
  | H : (_ =? _) = true |- _ => apply Z.eqb_eq in H
  | H : (_ =? _) = false |- _ => apply Z.eqb_neq in H
  | H : (_ && _) = true |- _ => apply andb_true_iff in H; destruct H
  | H : (_ || _) = false |- _ => apply orb_false_iff in H; destruct H
  | H : negb _ = true |- _ => apply negb_true_iff in H
  | H : negb _ = false |- _ => apply negb_false_iff in H
  end.

(** Case analysis on the first conditional of the goal, with its equation as a proposition. *)
Ltac case_if :=
  match goal with
  | |- context [if ?b then _ else _] => let E := fresh "E" in destruct b eqn:E; bool_to_prop
  end.

(** ** Lemmas on the conversions *)

Lemma wrap_bounds w z : 0 <= w -> 0 <= wrap w z < 2 ^ w.
Proof. intros. unfold wrap. apply Z.mod_pos_bound. by apply Z.pow_pos_nonneg. Qed.

Lemma wrap_small w z : is_uint w z -> wrap w z = z.
Proof. intros. unfold wrap. by apply Z.mod_small. Qed.

Lemma wrap_wrap w z : 0 <= w -> wrap w (wrap w z) = wrap w z.
Proof. intros. apply wrap_small, wrap_bounds; lia. Qed.

Lemma wrap_add_l w a b : wrap w (wrap w a + b) = wrap w (a + b).
Proof. unfold wrap. apply Zplus_mod_idemp_l. Qed.

Lemma wrap_add_r w a b : wrap w (a + wrap w b) = wrap w (a + b).
Proof. unfold wrap. apply Zplus_mod_idemp_r. Qed.

Lemma u32_bounds z : is_uint 32 (u32 z).
Proof. apply wrap_bounds; lia. Qed.

Lemma u32_small z : is_uint 32 z -> u32 z = z.
Proof. apply wrap_small. Qed.

Lemma u8_bounds z : is_byte (u8 z).
Proof. apply wrap_bounds; lia. Qed.

Lemma u8_small z : is_byte z -> u8 z = z.
Proof. apply wrap_small. Qed.

Lemma add32_bounds a b : is_uint 32 (a ⊞ b).
Proof. apply u32_bounds. Qed.

Lemma u32_add32 x y : u32 x ⊞ y = u32 (x + y).
Proof. apply wrap_add_l. Qed.

Lemma i32_small z : is_sint 32 z -> i32 z = z.
Proof. intros. width_lia. Qed.

Lemma is_uint_land w a b : 0 <= w -> is_uint w a -> is_uint w b -> is_uint w (Z.land a b).
Proof.
  intros Hw [Ha Ha'] [Hb Hb']. split; [by apply Z.land_nonneg; left|].
  rewrite <- (Z.mod_small a (2 ^ w)), <- Z.land_ones, <- Z.land_assoc by lia.
  rewrite (Z.land_comm (Z.ones w)), Z.land_assoc, Z.land_ones by lia.
  apply Z.mod_pos_bound. lia.
Qed.

Lemma is_uint_testbit w a : 0 <= w -> 0 <= a -> (forall i, w <= i -> Z.testbit a i = false) -> is_uint w a.
Proof.
  intros Hw Ha Hb. split; [done|].
  replace a with (a mod 2 ^ w); [apply Z.mod_pos_bound; lia|].
  apply Z.bits_inj'; intros i Hi. destruct (decide (w <= i)).
  - rewrite Z.mod_pow2_bits_high, Hb by lia. done.
  - rewrite Z.mod_pow2_bits_low by lia. done.
Qed.

Lemma is_uint_bits_high w a i : is_uint w a -> 0 <= w <= i -> Z.testbit a i = false.
Proof.
  intros Ha Hi. rewrite <- (Z.mod_small a (2 ^ w)) by exact Ha.
  apply Z.mod_pow2_bits_high. lia.
Qed.

Lemma is_uint_lor w a b : 0 <= w -> is_uint w a -> is_uint w b -> is_uint w (Z.lor a b).
Proof.
  intros Hw Ha Hb. apply is_uint_testbit; [done|apply Z.lor_nonneg; split; [apply Ha|apply Hb]|].
  intros i Hi. rewrite Z.lor_spec, !(is_uint_bits_high w) by (done || lia). done.
Qed.

Lemma is_uint_lxor w a b : 0 <= w -> is_uint w a -> is_uint w b -> is_uint w (Z.lxor a b).
Proof.
  intros Hw Ha Hb. apply is_uint_testbit; [done| |].
  - apply Z.lxor_nonneg. split; intros _; [apply Hb|apply Ha].
  - intros i Hi. rewrite Z.lxor_spec, !(is_uint_bits_high w) by (done || lia). done.
Qed.

Lemma is_uint_shiftr w a n : 0 <= n -> is_uint w a -> is_uint w (Z.shiftr a n).
Proof.
  intros Hn [Ha Ha']. rewrite Z.shiftr_div_pow2 by done. unfold is_uint.
  assert (0 < 2 ^ n) by (apply Z.pow_pos_nonneg; lia).
  split; [apply Z.div_pos; lia|].
  apply Z.le_lt_trans with a; [|done]. apply Z.div_le_upper_bound; nia.
Qed.

Lemma not32_spec z i : 0 <= i < 32 -> Z.testbit (not32 z) i = negb (Z.testbit z i).
Proof.
  intros Hi. unfold not32. rewrite Z.lxor_spec, Z.ones_spec_low by lia.
  by destruct (Z.testbit z i).
Qed.

Lemma is_uint_not32 z : is_uint 32 z -> is_uint 32 (not32 z).
Proof. intros. apply is_uint_lxor; [lia|done|]. by vm_compute. Qed.

#[export] Hint Resolve u32_bounds u8_bounds add32_bounds is_uint_land is_uint_lor is_uint_lxor
  is_uint_shiftr is_uint_not32 : swish.

(** Equality of two words bit by bit. *)
Ltac word_bits :=
  apply Z.bits_inj'; intros ?i ?Hi;
  repeat progress rewrite ?Z.lor_spec, ?Z.land_spec, ?Z.lxor_spec, ?Z.ldiff_spec.

(** ** Disjoint bit fields *)

Lemma land_disjoint_add a b : Z.land a b = 0 -> Z.lor a b = a + b.
Proof. intros H. rewrite <- Z.lxor_lor, Z.add_nocarry_lxor by done. done. Qed.

Lemma lor_shiftl_add a n y :
  0 <= n -> is_uint n y -> Z.lor (Z.shiftl a n) y = a * 2 ^ n + y.
Proof.
  intros Hn Hy. rewrite land_disjoint_add; [by rewrite Z.shiftl_mul_pow2|].
  apply Z.bits_inj'; intros i Hi. rewrite Z.land_spec, Z.bits_0.
  destruct (decide (i < n)); [by rewrite Z.shiftl_spec_low by lia|].
  rewrite (is_uint_bits_high n y) by (done || lia). apply andb_false_r.
Qed.

(** ** The option monad *)

Lemma bind_Some {A B} (f : A -> option B) (x : A) : (Some x ≫= f) = f x.
Proof. reflexivity. Qed.

Lemma bind_None {A B} (f : A -> option B) : (None ≫= f) = None.
Proof. reflexivity. Qed.

(** ** Lemmas on lists *)

Lemma list_lookup_total_lt {A} `{Inhabited A} (l : list A) (i : nat) :
  (i < length l)%nat -> l !! i = Some (l !!! i).
Proof. intros. by apply list_lookup_lookup_total_lt. Qed.

Lemma Forall_lookup_total {A} `{Inhabited A} (P : A -> Prop) (l : list A) (i : nat) :
  Forall P l -> (i < length l)%nat -> P (l !!! i).
Proof. intros Hl Hi. eapply Forall_lookup_1; [exact Hl|]. by apply list_lookup_total_lt. Qed.

(** A boolean property of a byte, checked by enumeration. *)
Lemma byte_cases (P : Z -> bool) :
  forallb P (map Z.of_nat (seq 0 256)) = true -> forall b, is_byte b -> P b = true.
Proof.
  intros H b Hb. rewrite forallb_forall in H. apply H.
  apply in_map_iff. exists (Z.to_nat b). unfold is_byte, is_uint in Hb.
  change (2 ^ 8) with 256 in Hb. split; [lia|]. apply in_seq. lia.
Qed.

Lemma lookup_total_app_r {A} `{Inhabited A} (l k : list A) (i : nat) :
  (length l <= i)%nat -> (l ++ k) !!! i = k !!! (i - length l)%nat.
Proof. intros. rewrite !list_lookup_total_alt. by rewrite lookup_app_r. Qed.

Lemma take_insert_snoc {A} (l : list A) (i : nat) (x : A) :
  (i < length l)%nat -> take (S i) (<[i := x]> l) = take i l ++ [x].
Proof.
  intros Hi. rewrite (take_S_r _ _ x) by (by rewrite list_lookup_insert_eq).
  by rewrite take_insert_ge by lia.
Qed.
