(* ===== verification/Sha1.v ===== *)
(** * SHA-1 (src/src/swish/sha1.c, sha.h, sha-private.h)

    [Impl] translates the C code: the context record of sha.h, the macros of
    sha-private.h and every function of sha1.c.  A function returns [None] when the C
    code would access an array out of bounds; a pointer argument is an option, [None]
    standing for NULL.  [Fips] states the algorithm of FIPS 180 on bit strings,
    independently of the code (arithmetic rotation, sliding-window message schedule,
    padding of the bit string).  The theorems show that the code computes the
    specification, that it keeps its invariant, and what it does past its length limit. *)

From S2P Require Import Prelude.

Module Impl.

(** Return codes (the first enum of sha.h). *)
Definition shaSuccess : Z := 0.
Definition shaNull : Z := 1.
Definition shaInputTooLong : Z := 2.
Definition shaStateError : Z := 3.
Definition shaBadParam : Z := 4.

Definition SHA1_Message_Block_Size : Z := 64.
Definition SHA1HashSize : Z := 20.

(** The context of a SHA-1 computation. *)
Record SHA1Context := mkSHA1Context {
  Intermediate_Hash : list Z;
  Length_High : Z;
  Length_Low : Z;
  Message_Block_Index : Z;
  Message_Block : list Z;
  Computed : Z;
  Corrupted : Z
}.

Definition set_hash h c := mkSHA1Context h (Length_High c) (Length_Low c)
  (Message_Block_Index c) (Message_Block c) (Computed c) (Corrupted c).
Definition set_length hi lo c := mkSHA1Context (Intermediate_Hash c) hi lo
  (Message_Block_Index c) (Message_Block c) (Computed c) (Corrupted c).
Definition set_index i c := mkSHA1Context (Intermediate_Hash c) (Length_High c) (Length_Low c)
  i (Message_Block c) (Computed c) (Corrupted c).
Definition set_block b c := mkSHA1Context (Intermediate_Hash c) (Length_High c) (Length_Low c)
  (Message_Block_Index c) b (Computed c) (Corrupted c).
Definition set_computed x c := mkSHA1Context (Intermediate_Hash c) (Length_High c) (Length_Low c)
  (Message_Block_Index c) (Message_Block c) x (Corrupted c).
Definition set_corrupted x c := mkSHA1Context (Intermediate_Hash c) (Length_High c) (Length_Low c)
  (Message_Block_Index c) (Message_Block c) (Computed c) x.

(** sha-private.h, without and with [USE_MODIFIED_MACROS]. *)
Definition SHA_Ch (x y z : Z) : Z := Z.lxor (Z.land x y) (Z.land (not32 x) z).
Definition SHA_Maj (x y z : Z) : Z := Z.lxor (Z.lxor (Z.land x y) (Z.land x z)) (Z.land y z).
Definition SHA_Ch_modified (x y z : Z) : Z := Z.lxor (Z.land x (Z.lxor y z)) z.
Definition SHA_Maj_modified (x y z : Z) : Z := Z.lor (Z.land x (Z.lor y z)) (Z.land y z).
Definition SHA_Parity (x y z : Z) : Z := Z.lxor (Z.lxor x y) z.

(** [SHA1_ROTL]: the left shift is truncated to 32 bits by the type of its operand. *)
Definition SHA1_ROTL (bits word : Z) : Z :=
  Z.lor (u32 (Z.shiftl word bits)) (Z.shiftr word (32 - bits)).

(** [SHA1AddLength]: the value of the macro is the new [Corrupted] field. *)
Definition SHA1AddLength (c : SHA1Context) (length : Z) : SHA1Context :=
  let addTemp := Length_Low c in
  let low := Length_Low c ⊞ length in
  if low <? addTemp then
    let high := Length_High c ⊞ 1 in
    if high =? 0 then set_corrupted shaInputTooLong (set_length high low c)
    else set_length high low c
  else set_length (Length_High c) low c.

Definition SHA1Reset (context : option SHA1Context) : option SHA1Context * Z :=
  match context with
  | None => (None, shaNull)
  | Some c =>
    let c := set_index 0 (set_length 0 0 c) in
    let c := set_hash [0x67452301; 0xEFCDAB89; 0x98BADCFE; 0x10325476; 0xC3D2E1F0] c in
    (Some (set_corrupted shaSuccess (set_computed 0 c)), shaSuccess)
  end.

(** [context->Message_Block[context->Message_Block_Index++] = v], [None] out of bounds. *)
Definition store_byte (v : Z) (c : SHA1Context) : option SHA1Context :=
  let i := Message_Block_Index c in
  if (0 <=? i) && (i <? SHA1_Message_Block_Size) then
    Some (set_index (i + 1) (set_block (<[Z.to_nat i := v]> (Message_Block c)) c))
  else None.

Definition K : list Z := [0x5A827999; 0x6ED9EBA1; 0x8F1BBCDC; 0xCA62C1D6].

(** The word sequence [W]: its first 16 words, then the 64 computed ones. *)
Definition SHA1_W16 (block : list Z) : list Z :=
  map (fun t : nat =>
    Z.lor (Z.lor (Z.lor (Z.shiftl (block !!! (t * 4)%nat) 24)
                        (Z.shiftl (block !!! (t * 4 + 1)%nat) 16))
                 (Z.shiftl (block !!! (t * 4 + 2)%nat) 8))
          (block !!! (t * 4 + 3)%nat)) (seq 0 16).

Definition SHA1_W_next (W : list Z) (t : nat) : list Z :=
  W ++ [SHA1_ROTL 1 (Z.lxor (Z.lxor (Z.lxor (W !!! (t - 3)%nat) (W !!! (t - 8)%nat))
                                    (W !!! (t - 14)%nat)) (W !!! (t - 16)%nat))].

Definition SHA1_W (block : list Z) : list Z :=
  fold_left SHA1_W_next (seq 16 64) (SHA1_W16 block).

(** One iteration of a round loop, on the word buffers [(A, B, C, D, E)]. *)
Definition SHA1_step (f : Z -> Z -> Z -> Z) (k : Z) (W : list Z)
    (s : Z * Z * Z * Z * Z) (t : nat) : Z * Z * Z * Z * Z :=
  let '(A, B, C, D, E) := s in
  let temp := SHA1_ROTL 5 A ⊞ f B C D ⊞ E ⊞ (W !!! t) ⊞ k in
  (temp, A, SHA1_ROTL 30 B, C, D).

Definition SHA1_rounds (W : list Z) (s : Z * Z * Z * Z * Z) : Z * Z * Z * Z * Z :=
  let s := fold_left (SHA1_step SHA_Ch (K !!! 0%nat) W) (seq 0 20) s in
  let s := fold_left (SHA1_step SHA_Parity (K !!! 1%nat) W) (seq 20 20) s in
  let s := fold_left (SHA1_step SHA_Maj (K !!! 2%nat) W) (seq 40 20) s in
  fold_left (SHA1_step SHA_Parity (K !!! 3%nat) W) (seq 60 20) s.

Definition SHA1ProcessMessageBlock (c : SHA1Context) : SHA1Context :=
  let W := SHA1_W (Message_Block c) in
  let H := Intermediate_Hash c in
  let s := (H !!! 0%nat, H !!! 1%nat, H !!! 2%nat, H !!! 3%nat, H !!! 4%nat) in
  let '(A, B, C, D, E) := SHA1_rounds W s in
  set_index 0 (set_hash
    [(H !!! 0%nat) ⊞ A; (H !!! 1%nat) ⊞ B; (H !!! 2%nat) ⊞ C; (H !!! 3%nat) ⊞ D;
     (H !!! 4%nat) ⊞ E] c).

(** The body of the loop of [SHA1Input], and the loop over the bytes it consumes. *)
Definition SHA1Input_byte (c : SHA1Context) (b : Z) : option SHA1Context :=
  c ← store_byte b c;
  let c := SHA1AddLength c 8 in
  Some (if (Corrupted c =? shaSuccess) && (Message_Block_Index c =? SHA1_Message_Block_Size)
        then SHA1ProcessMessageBlock c else c).

Fixpoint SHA1Input_loop (c : SHA1Context) (bytes : list Z) : option SHA1Context :=
  match bytes with
  | [] => Some c
  | b :: bytes => c ← SHA1Input_byte c b; SHA1Input_loop c bytes
  end.

Definition SHA1Input (context : option SHA1Context) (message_array : option (list Z))
    (length : Z) : option (option SHA1Context * Z) :=
  match context with
  | None => Some (None, shaNull)
  | Some c =>
    if length =? 0 then Some (Some c, shaSuccess) else
    match message_array with
    | None => Some (Some c, shaNull)
    | Some m =>
      if negb (Computed c =? 0) then Some (Some (set_corrupted shaStateError c), shaStateError) else
      if negb (Corrupted c =? 0) then Some (Some c, Corrupted c) else
      if Z.of_nat (List.length m) <? length then None else
      c ← SHA1Input_loop c (take (Z.to_nat length) m);
      Some (Some c, Corrupted c)
    end
  end.

(** The [while] loops of [SHA1PadMessage]: zero bytes up to the index [limit]. *)
Fixpoint pad_zeros (fuel : nat) (limit : Z) (c : SHA1Context) : option SHA1Context :=
  match fuel with
  | O => Some c
  | S fuel =>
    if Message_Block_Index c <? limit then c ← store_byte 0 c; pad_zeros fuel limit c
    else Some c
  end.

(** [context->Message_Block[i] = v] for a constant index. *)
Definition put_byte (i : nat) (v : Z) (c : SHA1Context) : SHA1Context :=
  set_block (<[i := v]> (Message_Block c)) c.

Definition store_length (c : SHA1Context) : SHA1Context :=
  let c := put_byte 56 (u8 (Z.shiftr (Length_High c) 24)) c in
  let c := put_byte 57 (u8 (Z.shiftr (Length_High c) 16)) c in
  let c := put_byte 58 (u8 (Z.shiftr (Length_High c) 8)) c in
  let c := put_byte 59 (u8 (Length_High c)) c in
  let c := put_byte 60 (u8 (Z.shiftr (Length_Low c) 24)) c in
  let c := put_byte 61 (u8 (Z.shiftr (Length_Low c) 16)) c in
  let c := put_byte 62 (u8 (Z.shiftr (Length_Low c) 8)) c in
  put_byte 63 (u8 (Length_Low c)) c.

(** 64 iterations are enough for either loop: the index is in [0, 64]. *)
Definition SHA1PadMessage (c : SHA1Context) (Pad_Byte : Z) : option SHA1Context :=
  c ← (if SHA1_Message_Block_Size - 8 <=? Message_Block_Index c then
         c ← store_byte Pad_Byte c;
         c ← pad_zeros 64 SHA1_Message_Block_Size c;
         Some (SHA1ProcessMessageBlock c)
       else store_byte Pad_Byte c);
  c ← pad_zeros 64 (SHA1_Message_Block_Size - 8) c;
  Some (SHA1ProcessMessageBlock (store_length c)).

Definition SHA1Finalize (c : SHA1Context) (Pad_Byte : Z) : option SHA1Context :=
  c ← SHA1PadMessage c Pad_Byte;
  Some (set_computed 1 (set_length 0 0
    (set_block (replicate (Z.to_nat SHA1_Message_Block_Size) 0) c))).

Definition masks : list Z := [0x00; 0x80; 0xC0; 0xE0; 0xF0; 0xF8; 0xFC; 0xFE].
Definition markbit : list Z := [0x80; 0x40; 0x20; 0x10; 0x08; 0x04; 0x02; 0x01].

Definition SHA1FinalBits (context : option SHA1Context) (message_bits length : Z) :
    option (option SHA1Context * Z) :=
  match context with
  | None => Some (None, shaNull)
  | Some c =>
    if length =? 0 then Some (Some c, shaSuccess) else
    if negb (Corrupted c =? 0) then Some (Some c, Corrupted c) else
    if negb (Computed c =? 0) then Some (Some (set_corrupted shaStateError c), shaStateError) else
    if 8 <=? length then Some (Some (set_corrupted shaBadParam c), shaBadParam) else
    let c := SHA1AddLength c length in
    c ← SHA1Finalize c (u8 (Z.lor (Z.land message_bits (masks !!! Z.to_nat length))
                                   (markbit !!! Z.to_nat length)));
    Some (Some c, Corrupted c)
  end.

(** The loop that fills [Message_Digest]. *)
Definition digest_bytes (H : list Z) : list Z :=
  map (fun i : nat =>
    u8 (Z.shiftr (H !!! Z.to_nat (Z.shiftr (Z.of_nat i) 2)) (8 * (3 - Z.land (Z.of_nat i) 0x03))))
    (seq 0 (Z.to_nat SHA1HashSize)).

(** Returns the context, the digest when it is written, and the return code.
    [buffer] is whether [Message_Digest] is non-NULL. *)
Definition SHA1Result (context : option SHA1Context) (buffer : bool) :
    option (option SHA1Context * option (list Z) * Z) :=
  match context with
  | None => Some (None, None, shaNull)
  | Some c =>
    if negb buffer then Some (Some c, None, shaNull) else
    if negb (Corrupted c =? 0) then Some (Some c, None, Corrupted c) else
    c ← (if Computed c =? 0 then SHA1Finalize c 0x80 else Some c);
    Some (Some c, Some (digest_bytes (Intermediate_Hash c)), shaSuccess)
  end.

End Impl.

(** ** The specification: FIPS 180 *)
Module Fips.

(** Rotation of a 32-bit word, arithmetically. *)
Definition rotl (n x : Z) : Z := (x * 2 ^ n) mod 2 ^ 32 + x / 2 ^ (32 - n).

Definition Ch (x y z : Z) : Z := Z.lor (Z.land x y) (Z.ldiff z x).
Definition Maj (x y z : Z) : Z := Z.lor (Z.lor (Z.land x y) (Z.land x z)) (Z.land y z).
Definition Parity (x y z : Z) : Z := Z.lxor x (Z.lxor y z).

(** The function and the constant of round [t]. *)
Definition f (t : nat) : Z -> Z -> Z -> Z :=
  if (t <? 20)%nat then Ch else if (t <? 40)%nat then Parity
  else if (t <? 60)%nat then Maj else Parity.
Definition K (t : nat) : Z :=
  if (t <? 20)%nat then 0x5A827999 else if (t <? 40)%nat then 0x6ED9EBA1
  else if (t <? 60)%nat then 0x8F1BBCDC else 0xCA62C1D6.

(** The message schedule as a sliding window of 16 words. *)
Fixpoint schedule (n : nat) (win : list Z) : list Z :=
  match n with
  | O => []
  | S n => (win !!! 0%nat) :: schedule n (tail win ++
      [rotl 1 (Z.lxor (win !!! 13%nat) (Z.lxor (win !!! 8%nat)
              (Z.lxor (win !!! 2%nat) (win !!! 0%nat))))])
  end.

(** Rounds [t], [t+1], ... on the words [ws]. *)
Fixpoint rounds (t : nat) (ws : list Z) (s : Z * Z * Z * Z * Z) : Z * Z * Z * Z * Z :=
  match ws with
  | [] => s
  | w :: ws =>
    let '(a, b, c, d, e) := s in
    rounds (S t) ws ((rotl 5 a + f t b c d + e + K t + w) mod 2 ^ 32, a, rotl 30 b, c, d)
  end.

(** Big-endian words of a block of bytes. *)
Fixpoint words (bytes : list Z) : list Z :=
  match bytes with
  | a :: b :: c :: d :: rest => (a * 2 ^ 24 + b * 2 ^ 16 + c * 2 ^ 8 + d) :: words rest
  | _ => []
  end.

Definition compress (H : list Z) (block : list Z) : list Z :=
  let '(a, b, c, d, e) := rounds 0 (schedule 80 (words block))
    (H !!! 0%nat, H !!! 1%nat, H !!! 2%nat, H !!! 3%nat, H !!! 4%nat) in
  [((H !!! 0%nat) + a) mod 2 ^ 32; ((H !!! 1%nat) + b) mod 2 ^ 32;
   ((H !!! 2%nat) + c) mod 2 ^ 32; ((H !!! 3%nat) + d) mod 2 ^ 32;
   ((H !!! 4%nat) + e) mod 2 ^ 32].

Definition H0 : list Z := [0x67452301; 0xEFCDAB89; 0x98BADCFE; 0x10325476; 0xC3D2E1F0].

(** Splits a list into pieces of length [k] ([n] is fuel; [length l] is enough). *)
Fixpoint chunks {A} (n k : nat) (l : list A) : list (list A) :=
  match n, l with
  | S n, _ :: _ => take k l :: chunks n k (drop k l)
  | _, _ => []
  end.

(** Bit strings: most significant bit first. *)
Definition bits_be (n : nat) (z : Z) : list bool :=
  map (fun i : nat => Z.testbit z (Z.of_nat (n - 1 - i))) (seq 0 n).
Definition value_be (bits : list bool) : Z :=
  fold_left (fun acc (b : bool) => 2 * acc + (if b then 1 else 0)) bits 0.
Definition bits_of_bytes (bytes : list Z) : list bool := concat (map (bits_be 8) bytes).
Definition bytes_of_bits (bits : list bool) : list Z :=
  map value_be (chunks (length bits) 8 bits).

(** Section 5.1.1 of FIPS 180: one bit, [k] zeros, then the length on 64 bits. *)
Definition pad (m : list bool) : list bool :=
  let l := Z.of_nat (length m) in
  m ++ [true] ++ replicate (Z.to_nat ((447 - l) mod 512)) false ++ bits_be 64 l.

(** The digest of a bit string, as five words and as bytes. *)
Definition hash (m : list bool) : list Z :=
  let bytes := bytes_of_bits (pad m) in
  fold_left compress (chunks (length bytes) 64 bytes) H0.

Definition be_bytes (n : nat) (z : Z) : list Z :=
  map (fun i : nat => z / 2 ^ (8 * Z.of_nat (n - 1 - i)) mod 2 ^ 8) (seq 0 n).
Definition digest (m : list bool) : list Z := concat (map (be_bytes 4) (hash m)).

End Fips.

(** ** Words: the macros against the specification's functions *)

(** Bits of a truncated left shift and of a right shift never overlap. *)
Lemma shift_disjoint w n x y :
  0 <= n <= w -> 0 <= y < 2 ^ n -> Z.land (wrap w (Z.shiftl x n)) y = 0.
Proof.
  intros Hn Hy. apply Z.bits_inj'; intros i Hi. rewrite Z.land_spec, Z.bits_0.
  destruct (decide (i < n)).
  - unfold wrap. rewrite Z.mod_pow2_bits_low, Z.shiftl_spec_low by lia. done.
  - rewrite (is_uint_bits_high n y) by (unfold is_uint; lia). apply andb_false_r.
Qed.

Lemma ROTL_spec n x : 0 < n < 32 -> is_uint 32 x -> Impl.SHA1_ROTL n x = Fips.rotl n x.
Proof.
  intros Hn Hx. unfold Impl.SHA1_ROTL, Fips.rotl.
  rewrite land_disjoint_add.
  - unfold u32, wrap. by rewrite Z.shiftl_mul_pow2, Z.shiftr_div_pow2 by lia.
  - apply shift_disjoint; [lia|]. rewrite Z.shiftr_div_pow2 by lia.
    destruct Hx as [Hx Hx']. split; [apply Z.div_pos; lia|].
    apply Z.div_lt_upper_bound; [lia|]. by rewrite <- Z.pow_add_r, Z.sub_add by lia.
Qed.

Lemma ROTL_bounds n x : 0 <= n <= 32 -> is_uint 32 x -> is_uint 32 (Impl.SHA1_ROTL n x).
Proof. intros. apply is_uint_lor; [lia| |apply is_uint_shiftr; [lia|done]]. auto with swish. Qed.

Lemma not32_mask x z i :
  is_uint 32 z -> 0 <= i ->
  Z.testbit (not32 x) i && Z.testbit z i = Z.testbit z i && negb (Z.testbit x i).
Proof.
  intros Hz Hi. destruct (decide (i < 32)).
  - rewrite not32_spec by lia. apply andb_comm.
  - rewrite (is_uint_bits_high 32 z) by (done || lia). by rewrite andb_false_r.
Qed.

Lemma Ch_spec x y z : is_uint 32 z -> Impl.SHA_Ch x y z = Fips.Ch x y z.
Proof.
  intros. unfold Impl.SHA_Ch, Fips.Ch. word_bits. rewrite not32_mask by done.
  by destruct (Z.testbit x i), (Z.testbit y i), (Z.testbit z i).
Qed.

Lemma Maj_spec x y z : Impl.SHA_Maj x y z = Fips.Maj x y z.
Proof.
  unfold Impl.SHA_Maj, Fips.Maj. word_bits.
  by destruct (Z.testbit x i), (Z.testbit y i), (Z.testbit z i).
Qed.

Lemma Parity_spec x y z : Impl.SHA_Parity x y z = Fips.Parity x y z.
Proof. apply Z.lxor_assoc. Qed.

(** Theorem: the two sets of macros of sha-private.h (selected by [USE_MODIFIED_MACROS]) compute
    the same functions on 32-bit words. *)
Theorem sha_macros_equivalent x y z :
  is_uint 32 x -> is_uint 32 y -> is_uint 32 z ->
  Impl.SHA_Ch_modified x y z = Impl.SHA_Ch x y z /\
  Impl.SHA_Maj_modified x y z = Impl.SHA_Maj x y z.
Proof.
  intros. split.
  - rewrite Ch_spec by done. unfold Impl.SHA_Ch_modified, Fips.Ch. word_bits.
    by destruct (Z.testbit x i), (Z.testbit y i), (Z.testbit z i).
  - unfold Impl.SHA_Maj_modified, Impl.SHA_Maj. word_bits.
    by destruct (Z.testbit x i), (Z.testbit y i), (Z.testbit z i).
Qed.

Lemma sha_macros_equivalent_witness :
  Impl.SHA_Ch_modified 0xF0F0F0F0 0xCAFEBABE 0x01234567
    = Impl.SHA_Ch 0xF0F0F0F0 0xCAFEBABE 0x01234567 /\
  Impl.SHA_Maj_modified 0xF0F0F0F0 0xCAFEBABE 0x01234567
    = Impl.SHA_Maj 0xF0F0F0F0 0xCAFEBABE 0x01234567.
Proof. apply sha_macros_equivalent; split; by vm_compute. Defined.

(** ** The message schedule *)

Lemma word_of_bytes a b c d :
  is_byte a -> is_byte b -> is_byte c -> is_byte d ->
  Z.lor (Z.lor (Z.lor (Z.shiftl a 24) (Z.shiftl b 16)) (Z.shiftl c 8)) d
  = a * 2 ^ 24 + b * 2 ^ 16 + c * 2 ^ 8 + d.
Proof.
  intros Ha Hb Hc Hd. rewrite <- !Z.lor_assoc.
  unfold is_byte, is_uint in *.
  rewrite (lor_shiftl_add c 8 d) by (unfold is_uint; lia).
  rewrite (lor_shiftl_add b 16) by (unfold is_uint; lia).
  rewrite (lor_shiftl_add a 24) by (unfold is_uint; lia). lia.
Qed.

Lemma words_spec n l :
  length l = (4 * n)%nat -> Forall is_byte l ->
  Fips.words l = map (fun t : nat =>
    Z.lor (Z.lor (Z.lor (Z.shiftl (l !!! (t * 4)%nat) 24) (Z.shiftl (l !!! (t * 4 + 1)%nat) 16))
                 (Z.shiftl (l !!! (t * 4 + 2)%nat) 8)) (l !!! (t * 4 + 3)%nat)) (seq 0 n).
Proof.
  revert l; induction n as [|n IH]; intros l Hlen Hl.
  { by destruct l. }
  destruct l as [|a [|b [|c [|d l]]]]; try (simpl in Hlen; lia).
  inversion Hl as [|? ? Ha Hl1]; subst. inversion Hl1 as [|? ? Hb Hl2]; subst.
  inversion Hl2 as [|? ? Hc Hl3]; subst. inversion Hl3 as [|? ? Hd Hl4]; subst.
  cbn [Fips.words seq map]. rewrite <- (word_of_bytes a b c d) by done. f_equal.
  rewrite IH by (done || (simpl in Hlen; lia)).
  rewrite <- seq_shift, map_map. apply map_ext. intros t.
  replace (S t * 4)%nat with (S (S (S (S (t * 4)))))%nat by lia. done.
Qed.

Lemma words_bounds n l :
  length l = (4 * n)%nat -> Forall is_byte l ->
  Forall (is_uint 32) (Fips.words l) /\ length (Fips.words l) = n.
Proof.
  revert l; induction n as [|n IH]; intros l Hlen Hl.
  { destruct l; [|done]. split; [constructor|done]. }
  destruct l as [|a [|b [|c [|d l]]]]; try (simpl in Hlen; lia).
  inversion Hl as [|? ? Ha Hl1]; subst. inversion Hl1 as [|? ? Hb Hl2]; subst.
  inversion Hl2 as [|? ? Hc Hl3]; subst. inversion Hl3 as [|? ? Hd Hl4]; subst.
  destruct (IH l) as [IH1 IH2]; [simpl in Hlen; lia|done|].
  cbn [Fips.words length]. split; [|by rewrite IH2].
  constructor; [|done]. unfold is_byte, is_uint in *. lia.
Qed.

(** The next word computed from a window of 16 words. *)
Definition window_next (win : list Z) : Z :=
  Fips.rotl 1 (Z.lxor (win !!! 13%nat) (Z.lxor (win !!! 8%nat)
              (Z.lxor (win !!! 2%nat) (win !!! 0%nat)))).

Lemma schedule_cons n x win :
  Fips.schedule (S n) (x :: win) = x :: Fips.schedule n (win ++ [window_next (x :: win)]).
Proof. reflexivity. Qed.

Lemma schedule_take n win : (n <= length win)%nat -> Fips.schedule n win = take n win.
Proof.
  revert win; induction n as [|n IH]; intros [|x win] Hn; simpl in *; try done; [lia|].
  f_equal. rewrite IH by (rewrite length_app; simpl; lia). by rewrite take_app_le by lia.
Qed.

Lemma window_next_bounds win :
  length win = 16%nat -> Forall (is_uint 32) win -> is_uint 32 (window_next win).
Proof.
  intros Hlen Hwin. unfold window_next.
  assert (Hb : forall i : nat, (i < 16)%nat -> is_uint 32 (win !!! i)).
  { intros. apply Forall_lookup_total; [done|lia]. }
  rewrite <- ROTL_spec by (lia || (repeat apply is_uint_lxor; try lia; apply Hb; lia)).
  apply ROTL_bounds; [lia|]. repeat apply is_uint_lxor; try lia; apply Hb; lia.
Qed.

Lemma W_next_window pre win :
  length win = 16%nat -> Forall (is_uint 32) win ->
  Impl.SHA1_W_next (pre ++ win) (length pre + 16) = pre ++ win ++ [window_next win].
Proof.
  intros Hlen Hwin. unfold Impl.SHA1_W_next. rewrite <- app_assoc. do 3 f_equal.
  rewrite !lookup_total_app_r by lia.
  replace (length pre + 16 - 3 - length pre)%nat with 13%nat by lia.
  replace (length pre + 16 - 8 - length pre)%nat with 8%nat by lia.
  replace (length pre + 16 - 14 - length pre)%nat with 2%nat by lia.
  replace (length pre + 16 - 16 - length pre)%nat with 0%nat by lia.
  assert (Hb : forall i : nat, (i < 16)%nat -> is_uint 32 (win !!! i)).
  { intros. apply Forall_lookup_total; [done|lia]. }
  rewrite ROTL_spec by (lia || (repeat apply is_uint_lxor; try lia; apply Hb; lia)).
  unfold window_next. by rewrite !Z.lxor_assoc.
Qed.

Lemma W_schedule n pre win :
  length win = 16%nat -> Forall (is_uint 32) win ->
  fold_left Impl.SHA1_W_next (seq (length pre + 16) n) (pre ++ win)
  = pre ++ Fips.schedule (16 + n) win.
Proof.
  revert pre win; induction n as [|n IH]; intros pre win Hlen Hwin.
  { simpl fold_left. rewrite Nat.add_0_r, schedule_take by lia.
    by rewrite <- Hlen, firstn_all. }
  cbn [seq fold_left]. rewrite W_next_window by done.
  destruct win as [|x win]; [done|]. rewrite (Nat.add_succ_r 16 n), schedule_cons.
  replace (S (length pre + 16)) with (length (pre ++ [x]) + 16)%nat
    by (rewrite length_app; simpl; lia).
  replace (pre ++ (x :: win) ++ [window_next (x :: win)])
    with ((pre ++ [x]) ++ (win ++ [window_next (x :: win)])) by (by rewrite <- app_assoc).
  rewrite IH.
  - by rewrite <- app_assoc.
  - rewrite length_app. cbn [length] in *. lia.
  - apply Forall_app. split; [by inversion Hwin|].
    constructor; [by apply window_next_bounds|constructor].
Qed.

Lemma schedule_bounds n win :
  length win = 16%nat -> Forall (is_uint 32) win ->
  Forall (is_uint 32) (Fips.schedule n win) /\ length (Fips.schedule n win) = n.
Proof.
  revert win; induction n as [|n IH]; intros win Hlen Hwin; [split; [constructor|done]|].
  destruct win as [|x win]; [done|]. rewrite schedule_cons. cbn [length].
  destruct (IH (win ++ [window_next (x :: win)])) as [IH1 IH2].
  - rewrite length_app. cbn [length] in *. lia.
  - apply Forall_app. split; [by inversion Hwin|].
    constructor; [by apply window_next_bounds|constructor].
  - split; [|by rewrite IH2]. constructor; [by inversion Hwin|done].
Qed.

Lemma W_schedule_start n win :
  length win = 16%nat -> Forall (is_uint 32) win ->
  fold_left Impl.SHA1_W_next (seq 16 n) win = Fips.schedule (16 + n) win.
Proof.
  intros. rewrite <- (app_nil_l (Fips.schedule _ _)). rewrite <- (app_nil_l win) at 1.
  by apply (W_schedule n []).
Qed.

Lemma SHA1_W_spec block :
  length block = 64%nat -> Forall is_byte block ->
  Impl.SHA1_W block = Fips.schedule 80 (Fips.words block).
Proof.
  intros Hlen Hb. unfold Impl.SHA1_W, Impl.SHA1_W16.
  rewrite <- (words_spec 16) by done.
  destruct (words_bounds 16 block) as [Hw1 Hw2]; [done..|].
  replace 80%nat with (16 + 64)%nat by reflexivity. by apply W_schedule_start.
Qed.

(** ** The rounds *)

(** The word buffers hold 32-bit words. *)
Definition buffers_ok (s : Z * Z * Z * Z * Z) : Prop :=
  let '(A, B, C, D, E) := s in
  is_uint 32 A /\ is_uint 32 B /\ is_uint 32 C /\ is_uint 32 D /\ is_uint 32 E.

(** A C round function agrees with the specification's function of round [t]. *)
Definition round_agrees (f : Z -> Z -> Z -> Z) (k : Z) (t : nat) : Prop :=
  Fips.K t = k /\ forall x y z, is_uint 32 z -> f x y z = Fips.f t x y z.

Lemma add32_sum a b c d e : a ⊞ b ⊞ c ⊞ d ⊞ e = (a + b + c + e + d) mod 2 ^ 32.
Proof.
  change (a ⊞ b) with (u32 (a + b)). rewrite !u32_add32.
  by replace (a + b + c + d + e) with (a + b + c + e + d) by lia.
Qed.

Lemma step_spec f k W s t w rest :
  round_agrees f k t -> W !!! t = w -> buffers_ok s ->
  buffers_ok (Impl.SHA1_step f k W s t) /\
  Fips.rounds t (w :: rest) s = Fips.rounds (S t) rest (Impl.SHA1_step f k W s t).
Proof.
  intros [HK Hf] Hw Hs. destruct s as [[[[A B] C] D] E].
  destruct Hs as (HA & HB & HC & HD & HE).
  unfold Impl.SHA1_step. split.
  - repeat split; try apply add32_bounds; try done; try apply HA; try apply HC; try apply HD.
    + apply ROTL_bounds; [lia|done].
    + apply ROTL_bounds; [lia|done].
  - cbn [Fips.rounds]. rewrite add32_sum, Hf, HK, Hw by done.
    by rewrite !ROTL_spec by (lia || done).
Qed.

#[local] Opaque Fips.rounds Impl.SHA1_step.

(** One of the four loops: the words [ws] of rounds [t], [t+1], ... *)
Lemma loop_spec f k ws pre post s :
  (forall i, (length pre <= i < length pre + length ws)%nat -> round_agrees f k i) ->
  buffers_ok s ->
  let W := pre ++ ws ++ post in
  let s' := fold_left (Impl.SHA1_step f k W) (seq (length pre) (length ws)) s in
  buffers_ok s' /\
  Fips.rounds (length pre) (ws ++ post) s = Fips.rounds (length pre + length ws) post s'.
Proof.
  revert pre s; induction ws as [|w ws IH]; intros pre s Hr Hs; cbn zeta.
  { cbn [length seq fold_left app]. split; [done|]. by rewrite Nat.add_0_r. }
  cbn [length seq fold_left app].
  destruct (step_spec f k (pre ++ w :: ws ++ post) s (length pre) w (ws ++ post))
    as [Hs' Hstep]; [apply Hr; simpl; lia| |done|].
  { rewrite lookup_total_app_r by lia. by rewrite Nat.sub_diag. }
  destruct (IH (pre ++ [w]) (Impl.SHA1_step f k (pre ++ w :: ws ++ post) s (length pre)))
    as [IH1 IH2]; [|done|].
  { intros i Hi. apply Hr. rewrite length_app in Hi. simpl in *. lia. }
  rewrite length_app, Nat.add_1_r, <- app_assoc in IH1, IH2. simpl app in IH1, IH2.
  split; [exact IH1|]. rewrite Hstep, IH2. f_equal. lia.
Qed.

Lemma round_agrees_intro f k t :
  (t < 20)%nat /\ f = Impl.SHA_Ch /\ k = 0x5A827999 \/
  (20 <= t < 40)%nat /\ f = Impl.SHA_Parity /\ k = 0x6ED9EBA1 \/
  (40 <= t < 60)%nat /\ f = Impl.SHA_Maj /\ k = 0x8F1BBCDC \/
  (60 <= t < 80)%nat /\ f = Impl.SHA_Parity /\ k = 0xCA62C1D6 ->
  round_agrees f k t.
Proof.
  unfold round_agrees, Fips.K, Fips.f.
  intros [(Ht & -> & ->)|[(Ht & -> & ->)|[(Ht & -> & ->)|(Ht & -> & ->)]]];
    repeat match goal with
    | |- context [(?a <? ?b)%nat] => destruct (Nat.ltb_spec a b); try lia
    end; (split; [done|]); intros;
    [by apply Ch_spec|apply Parity_spec|apply Maj_spec|apply Parity_spec].
Qed.

Lemma loop_spec_at f k t n W pre ws post s :
  length pre = t -> length ws = n -> W = pre ++ ws ++ post ->
  (forall i, (t <= i < t + n)%nat -> round_agrees f k i) -> buffers_ok s ->
  let s' := fold_left (Impl.SHA1_step f k W) (seq t n) s in
  buffers_ok s' /\ Fips.rounds t (ws ++ post) s = Fips.rounds (t + n) post s'.
Proof. intros <- <- ->. apply loop_spec. Qed.

Lemma SHA1_rounds_split W1 W2 W3 W4 s :
  length W1 = 20%nat -> length W2 = 20%nat -> length W3 = 20%nat -> length W4 = 20%nat ->
  buffers_ok s ->
  Impl.SHA1_rounds (W1 ++ W2 ++ W3 ++ W4) s = Fips.rounds 0 (W1 ++ W2 ++ W3 ++ W4) s /\
  buffers_ok (Impl.SHA1_rounds (W1 ++ W2 ++ W3 ++ W4) s).
Proof.
  intros L1 L2 L3 L4 Hs. unfold Impl.SHA1_rounds. remember (W1 ++ W2 ++ W3 ++ W4) as W eqn:HW.
  set (s1 := fold_left _ (seq 0 20) s). set (s2 := fold_left _ (seq 20 20) s1).
  set (s3 := fold_left _ (seq 40 20) s2).
  destruct (loop_spec_at Impl.SHA_Ch (Impl.K !!! 0%nat) 0 20 W [] W1 (W2 ++ W3 ++ W4) s)
    as [H1 E1]; [done|done|done| |done|].
  { intros. apply round_agrees_intro. left. by repeat split; try lia. }
  destruct (loop_spec_at Impl.SHA_Parity (Impl.K !!! 1%nat) 20 20 W W1 W2 (W3 ++ W4) s1)
    as [H2 E2]; [done|done|done| |done|].
  { intros. apply round_agrees_intro. right; left. by repeat split; try lia. }
  destruct (loop_spec_at Impl.SHA_Maj (Impl.K !!! 2%nat) 40 20 W (W1 ++ W2) W3 W4 s2)
    as [H3 E3]; [by rewrite length_app, L1, L2|done|by rewrite <- app_assoc| |done|].
  { intros. apply round_agrees_intro. right; right; left. by repeat split; try lia. }
  destruct (loop_spec_at Impl.SHA_Parity (Impl.K !!! 3%nat) 60 20 W (W1 ++ W2 ++ W3) W4 [] s3)
    as [H4 E4]; [by rewrite !length_app, L1, L2, L3|done|by rewrite app_nil_r, <- !app_assoc| |done|].
  { intros. apply round_agrees_intro. right; right; right. by repeat split; try lia. }
  fold s1 in E1. fold s2 in E2. fold s3 in E3. rewrite app_nil_r in E4.
  split; [|exact H4]. rewrite HW at 2. rewrite E1. cbn [Nat.add].
  rewrite E2. cbn [Nat.add]. rewrite E3. cbn [Nat.add]. by rewrite E4.
Qed.

Lemma SHA1_rounds_spec W s :
  length W = 80%nat -> buffers_ok s ->
  Impl.SHA1_rounds W s = Fips.rounds 0 W s /\ buffers_ok (Impl.SHA1_rounds W s).
Proof.
  intros Hlen Hs.
  rewrite <- (take_drop 20 W), <- (take_drop 20 (drop 20 W)),
    <- (take_drop 20 (drop 20 (drop 20 W))).
  apply SHA1_rounds_split; [..|done]; rewrite ?length_take, !length_drop || rewrite length_take; lia.
Qed.

(** ** One block *)

Definition hash_ok (H : list Z) : Prop := length H = 5%nat /\ Forall (is_uint 32) H.

Definition block_ok (b : list Z) : Prop := length b = 64%nat /\ Forall is_byte b.

(** The context after the block index and the block have been written. *)
Definition with_block (i : Z) (b : list Z) (c : Impl.SHA1Context) : Impl.SHA1Context :=
  Impl.set_index i (Impl.set_block b c).

Lemma with_block_twice i b j b' c : with_block i b (with_block j b' c) = with_block i b c.
Proof. reflexivity. Qed.

Lemma ProcessMessageBlock_spec c :
  hash_ok (Impl.Intermediate_Hash c) -> block_ok (Impl.Message_Block c) ->
  Impl.SHA1ProcessMessageBlock c =
    Impl.set_index 0 (Impl.set_hash
      (Fips.compress (Impl.Intermediate_Hash c) (Impl.Message_Block c)) c) /\
  hash_ok (Fips.compress (Impl.Intermediate_Hash c) (Impl.Message_Block c)).
Proof.
  intros [HL HH] [BL BB]. unfold Impl.SHA1ProcessMessageBlock, Fips.compress.
  rewrite SHA1_W_spec by done.
  destruct (words_bounds 16 (Impl.Message_Block c)) as [Hw1 Hw2]; [done..|].
  destruct (schedule_bounds 80 (Fips.words (Impl.Message_Block c)) Hw2 Hw1) as [Hs1 Hs2].
  set (H := Impl.Intermediate_Hash c) in *.
  assert (Hb : forall i : nat, (i < 5)%nat -> is_uint 32 (H !!! i)).
  { intros. apply Forall_lookup_total; [done|lia]. }
  destruct (SHA1_rounds_spec (Fips.schedule 80 (Fips.words (Impl.Message_Block c)))
    (H !!! 0%nat, H !!! 1%nat, H !!! 2%nat, H !!! 3%nat, H !!! 4%nat)) as [Hr Hr'];
    [done|by repeat split; apply Hb; lia|].
  rewrite Hr in Hr' |- *.
  destruct (Fips.rounds _ _ _) as [[[[A B] C] D] E]. split; [done|].
  split; [done|]. repeat constructor; apply Z.mod_pos_bound; done.
Qed.

Lemma store_byte_spec c v pre :
  Impl.Message_Block_Index c = Z.of_nat (length pre) -> (length pre < 64)%nat ->
  block_ok (Impl.Message_Block c) -> take (length pre) (Impl.Message_Block c) = pre ->
  is_byte v ->
  exists b, Impl.store_byte v c = Some (with_block (Z.of_nat (S (length pre))) b c) /\
    block_ok b /\ take (S (length pre)) b = pre ++ [v].
Proof.
  intros Hi Hlt [BL BB] Hpre Hv. unfold Impl.store_byte. rewrite Hi.
  unfold Impl.SHA1_Message_Block_Size.
  destruct (Z.leb_spec 0 (Z.of_nat (length pre))); [|lia].
  destruct (Z.ltb_spec (Z.of_nat (length pre)) 64); [|lia]. cbn [andb].
  exists (<[length pre := v]> (Impl.Message_Block c)). rewrite Nat2Z.id. split; [|split].
  - unfold with_block. by replace (Z.of_nat (length pre) + 1) with (Z.of_nat (S (length pre))) by lia.
  - split; [by rewrite length_insert|by apply Forall_insert].
  - rewrite take_insert_snoc by lia. by rewrite Hpre.
Qed.

Lemma byte_0 : is_byte 0. Proof. by vm_compute. Qed.

Lemma pad_zeros_spec (limit : nat) fuel c pre :
  Impl.Message_Block_Index c = Z.of_nat (length pre) -> (length pre <= limit <= 64)%nat ->
  (limit - length pre <= fuel)%nat ->
  block_ok (Impl.Message_Block c) -> take (length pre) (Impl.Message_Block c) = pre ->
  exists b, Impl.pad_zeros fuel (Z.of_nat limit) c = Some (with_block (Z.of_nat limit) b c) /\
    block_ok b /\ take limit b = pre ++ replicate (limit - length pre) 0.
Proof.
  revert c pre; induction fuel as [|fuel IH]; intros c pre Hi Hle Hfuel Hb Hpre.
  - assert (limit = length pre) as -> by lia. exists (Impl.Message_Block c).
    rewrite Nat.sub_diag, app_nil_r. unfold with_block. rewrite <- Hi. by destruct c.
  - cbn [Impl.pad_zeros]. rewrite Hi.
    destruct (Z.ltb_spec (Z.of_nat (length pre)) (Z.of_nat limit)) as [Hlt|Hge].
    + destruct (store_byte_spec c 0 pre) as (b & -> & Hb' & Hpre');
        [done|lia|done|done|apply byte_0|].
      rewrite bind_Some.
      destruct (IH (with_block (Z.of_nat (S (length pre))) b c) (pre ++ [0]))
        as (b' & Hz & Hb'' & Ht).
      * rewrite length_app, Nat.add_1_r. done.
      * rewrite length_app. cbn [length]. lia.
      * rewrite length_app. cbn [length]. lia.
      * done.
      * by rewrite length_app, Nat.add_1_r.
      * exists b'. split; [exact Hz|split; [done|]]. rewrite Ht, <- app_assoc.
        rewrite length_app, Nat.add_1_r.
        by replace (limit - length pre)%nat with (S (limit - S (length pre))) by lia.
    + assert (limit = length pre) as -> by lia. exists (Impl.Message_Block c).
      rewrite Nat.sub_diag, app_nil_r. unfold with_block. rewrite <- Hi. by destruct c.
Qed.

(** ** Padding *)

Lemma byte_of_shift z j : 0 <= j -> u8 (Z.shiftr z j) = z / 2 ^ j mod 2 ^ 8.
Proof. intros. unfold u8, wrap. by rewrite Z.shiftr_div_pow2. Qed.

Lemma high_byte hi lo j : is_uint 32 lo -> 0 <= j ->
  (hi * 2 ^ 32 + lo) / 2 ^ (32 + j) = hi / 2 ^ j.
Proof.
  intros Hlo Hj. rewrite Z.pow_add_r, <- Z.div_div by lia.
  by rewrite Z.div_add_l, (Z.div_small lo _ Hlo), Z.add_0_r by lia.
Qed.

Lemma low_byte hi lo j : 0 <= j <= 24 ->
  (hi * 2 ^ 32 + lo) / 2 ^ j mod 2 ^ 8 = lo / 2 ^ j mod 2 ^ 8.
Proof.
  intros Hj.
  replace (hi * 2 ^ 32) with ((hi * 2 ^ (24 - j) * 2 ^ 8) * 2 ^ j).
  - rewrite Z.div_add_l by lia. rewrite Z.add_comm. by rewrite Z.mod_add by lia.
  - rewrite <- !Z.mul_assoc, <- !Z.pow_add_r by lia. by replace (24 - j + (8 + j)) with 32 by lia.
Qed.

Lemma be_bytes_8 hi lo :
  is_uint 32 lo ->
  Fips.be_bytes 8 (hi * 2 ^ 32 + lo) =
  [u8 (Z.shiftr hi 24); u8 (Z.shiftr hi 16); u8 (Z.shiftr hi 8); u8 hi;
   u8 (Z.shiftr lo 24); u8 (Z.shiftr lo 16); u8 (Z.shiftr lo 8); u8 lo].
Proof.
  intros Hlo.
  assert (Hh : forall k j, k = 32 + j -> 0 <= j ->
    (hi * 2 ^ 32 + lo) / 2 ^ k mod 2 ^ 8 = u8 (Z.shiftr hi j)).
  { intros ? j -> Hj. by rewrite byte_of_shift, high_byte by done. }
  assert (Hl : forall j, 0 <= j <= 24 ->
    (hi * 2 ^ 32 + lo) / 2 ^ j mod 2 ^ 8 = u8 (Z.shiftr lo j)).
  { intros j Hj. by rewrite byte_of_shift, low_byte by lia. }
  pose proof (Hh 32 0 eq_refl (Z.le_refl 0)) as Hh0. pose proof (Hl 0 ltac:(lia)) as Hl0.
  rewrite Z.shiftr_0_r in Hh0, Hl0.
  rewrite <- (Hh 56 24), <- (Hh 48 16), <- (Hh 40 8), <- Hh0, <- (Hl 24), <- (Hl 16),
    <- (Hl 8), <- Hl0 by lia.
  unfold Fips.be_bytes. cbn [map seq Nat.sub]. reflexivity.
Qed.

Lemma be_bytes_ok n z : length (Fips.be_bytes n z) = n /\ Forall is_byte (Fips.be_bytes n z).
Proof.
  unfold Fips.be_bytes. split; [by rewrite length_map, length_seq|].
  apply Forall_forall. intros x Hx. apply list_elem_of_In, in_map_iff in Hx as (i & <- & _).
  by apply Z.mod_pos_bound.
Qed.

Lemma insert_tail_8 (l : list Z) a b c d e f g h :
  length l = 64%nat ->
  <[63%nat := h]> (<[62%nat := g]> (<[61%nat := f]> (<[60%nat := e]> (<[59%nat := d]>
    (<[58%nat := c]> (<[57%nat := b]> (<[56%nat := a]> l)))))))
  = take 56 l ++ [a; b; c; d; e; f; g; h].
Proof.
  intros Hl. rewrite <- (take_drop 56 l) at 1.
  assert (H1 : length (take 56 l) = 56%nat) by (rewrite length_take; lia).
  assert (H2 : length (drop 56 l) = 8%nat) by (rewrite length_drop; lia).
  destruct (drop 56 l) as [|x0 [|x1 [|x2 [|x3 [|x4 [|x5 [|x6 [|x7 [|]]]]]]]]]; try discriminate.
  generalize (take 56 l), H1. clear. intros k H1.
  repeat (rewrite insert_app_r_alt by lia; rewrite H1). reflexivity.
Qed.

Lemma store_length_spec c :
  is_uint 32 (Impl.Length_Low c) -> block_ok (Impl.Message_Block c) ->
  exists b, Impl.store_length c = Impl.set_block b c /\ block_ok b /\
    b = take 56 (Impl.Message_Block c) ++
        Fips.be_bytes 8 (Impl.Length_High c * 2 ^ 32 + Impl.Length_Low c).
Proof.
  intros Hlo [BL BB]. rewrite be_bytes_8 by done. eexists. split; [|split; [|done]].
  - unfold Impl.store_length, Impl.put_byte.
    destruct c; cbn [Impl.set_block Impl.Message_Block Impl.Length_High Impl.Length_Low] in *.
    by rewrite insert_tail_8.
  - split; [rewrite length_app, length_take, BL; reflexivity|].
    apply Forall_app. split; [by apply Forall_take|]. repeat constructor; apply u8_bounds.
Qed.

(** The tail of the padded message: pad byte, zeros and length after [rest]. *)
Definition pad_tail (rest : list Z) (p len : Z) : list Z :=
  rest ++ [p] ++ replicate (Z.to_nat ((55 - Z.of_nat (length rest)) mod 64)) 0
    ++ Fips.be_bytes 8 len.

Definition bit_length (c : Impl.SHA1Context) : Z :=
  Impl.Length_High c * 2 ^ 32 + Impl.Length_Low c.

Definition blocks_of (l : list Z) : list (list Z) := Fips.chunks (length l) 64 l.

Lemma chunks_fuel {A} (n k : nat) (l : list A) :
  (0 < k)%nat -> (length l <= n)%nat -> Fips.chunks n k l = Fips.chunks (length l) k l.
Proof.
  intros Hk. revert l. induction n as [n IH] using lt_wf_ind. intros l Hl.
  destruct l as [|x l]; [by destruct n|]. destruct n as [|n]; [simpl in Hl; lia|].
  cbn [Fips.chunks length]. f_equal. simpl in Hl.
  assert (Hd : (length (drop k (x :: l)) <= length l)%nat).
  { destruct k; [lia|]. simpl. rewrite length_drop. lia. }
  rewrite IH by lia.
  symmetry. apply IH; lia.
Qed.

Lemma chunks_app {A} (k : nat) (a r : list A) :
  length a = k -> (0 < k)%nat ->
  Fips.chunks (length (a ++ r)) k (a ++ r) = a :: Fips.chunks (length r) k r.
Proof.
  intros Ha Hk. destruct a as [|x a]; [simpl in Ha; lia|].
  cbn [app length Fips.chunks]. change (x :: a ++ r) with ((x :: a) ++ r).
  rewrite take_app_length' by done. rewrite drop_app_length' by done. f_equal.
  apply chunks_fuel; [done|]. rewrite length_app. lia.
Qed.

Lemma blocks_of_concat bs r :
  Forall block_ok bs -> blocks_of (concat bs ++ r) = bs ++ blocks_of r.
Proof.
  induction 1 as [|b bs [Hb _] Hbs IH]; [done|].
  cbn [concat app]. rewrite <- app_assoc. unfold blocks_of in *.
  by rewrite chunks_app, IH by (done || lia).
Qed.

Lemma blocks_of_one b : block_ok b -> blocks_of b = [b].
Proof.
  intros Hb. pose proof (blocks_of_concat [b] []) as H. cbn [concat] in H.
  rewrite !app_nil_r in H. apply H. by apply Forall_singleton.
Qed.

Lemma pad_tail_ok rest p len :
  Forall is_byte rest -> is_byte p -> Forall is_byte (pad_tail rest p len).
Proof.
  intros. unfold pad_tail. repeat (apply Forall_app; split); try done.
  - by apply Forall_singleton.
  - apply Forall_replicate, byte_0.
  - apply be_bytes_ok.
Qed.

#[local] Opaque Fips.compress Impl.SHA1ProcessMessageBlock Impl.pad_zeros Impl.store_length
  Impl.store_byte Fips.be_bytes.

(** The last block: zeros up to the length field, the length, and one compression. *)
Lemma last_block_spec c pre :
  hash_ok (Impl.Intermediate_Hash c) -> is_uint 32 (Impl.Length_Low c) ->
  block_ok (Impl.Message_Block c) ->
  Impl.Message_Block_Index c = Z.of_nat (length pre) -> (length pre <= 56)%nat ->
  take (length pre) (Impl.Message_Block c) = pre ->
  exists b, block_ok b /\
    b = pre ++ replicate (56 - length pre) 0 ++ Fips.be_bytes 8 (bit_length c) /\
    hash_ok (Fips.compress (Impl.Intermediate_Hash c) b) /\
    (c ← Impl.pad_zeros 64 (Impl.SHA1_Message_Block_Size - 8) c;
     Some (Impl.SHA1ProcessMessageBlock (Impl.store_length c))) =
    Some (Impl.set_hash (Fips.compress (Impl.Intermediate_Hash c) b) (with_block 0 b c)).
Proof.
  intros HH Hlo HB Hi Hle Hpre.
  change (Impl.SHA1_Message_Block_Size - 8) with (Z.of_nat 56).
  destruct (pad_zeros_spec 56 64 c pre) as (b & -> & Hb & Ht); [done|lia|lia|done|done|].
  rewrite bind_Some.
  destruct (store_length_spec (with_block (Z.of_nat 56) b c)) as (b' & -> & Hb' & Hbb'); [done..|].
  destruct (ProcessMessageBlock_spec (Impl.set_block b' (with_block (Z.of_nat 56) b c)) HH Hb')
    as [-> HH'].
  cbn [with_block Impl.set_index Impl.set_block Impl.Intermediate_Hash Impl.Message_Block
       Impl.Length_High Impl.Length_Low] in *.
  exists b'. split; [done|]. split; [|by split].
  by rewrite Hbb', Ht, <- app_assoc.
Qed.

Lemma pad_tail_one rest p len b :
  (length rest < 56)%nat -> block_ok b ->
  b = (rest ++ [p]) ++ replicate (56 - length (rest ++ [p])) 0 ++ Fips.be_bytes 8 len ->
  blocks_of (pad_tail rest p len) = [b].
Proof.
  intros Hlt Hb ->. rewrite <- (blocks_of_one _ Hb). f_equal. unfold pad_tail.
  rewrite <- app_assoc. do 4 f_equal. rewrite length_app. cbn [length]. width_lia.
Qed.

Lemma pad_tail_two rest p len b1 b2 :
  (56 <= length rest < 64)%nat -> block_ok b1 -> block_ok b2 ->
  b1 = (rest ++ [p]) ++ replicate (64 - length (rest ++ [p])) 0 ->
  b2 = replicate 56 0 ++ Fips.be_bytes 8 len ->
  blocks_of (pad_tail rest p len) = [b1; b2].
Proof.
  intros Hlt Hb1 Hb2 E1 E2. change [b1; b2] with ([b1] ++ [b2]).
  rewrite <- (blocks_of_one b2 Hb2), <- blocks_of_concat by (by apply Forall_singleton).
  f_equal. cbn [concat]. rewrite app_nil_r, E1, E2. unfold pad_tail.
  rewrite <- !app_assoc. do 2 f_equal. rewrite app_assoc. f_equal.
  rewrite <- replicate_add. f_equal. rewrite length_app. cbn [length]. width_lia.
Qed.

(** What [SHA1PadMessage] leaves: the hash has absorbed the padded tail. *)
Definition padded (c : Impl.SHA1Context) (rest : list Z) (p : Z) (r : option Impl.SHA1Context)
    : Prop :=
  exists b H, block_ok b /\ hash_ok H /\
    H = fold_left Fips.compress (blocks_of (pad_tail rest p (bit_length c)))
          (Impl.Intermediate_Hash c) /\
    r = Some (Impl.set_hash H (with_block 0 b c)).

Lemma PadMessage_short c rest p :
  hash_ok (Impl.Intermediate_Hash c) -> is_uint 32 (Impl.Length_Low c) ->
  block_ok (Impl.Message_Block c) -> is_byte p ->
  Impl.Message_Block_Index c = Z.of_nat (length rest) -> (length rest < 56)%nat ->
  take (length rest) (Impl.Message_Block c) = rest ->
  padded c rest p (Impl.SHA1PadMessage c p).
Proof.
  intros HH Hlo HB Hp Hi Hlt Hrest. unfold Impl.SHA1PadMessage. rewrite Hi.
  assert (Hlen : length (rest ++ [p]) = S (length rest)) by (by rewrite length_app, Nat.add_1_r).
  destruct (Z.leb_spec (Impl.SHA1_Message_Block_Size - 8) (Z.of_nat (length rest))) as [Hge|_].
  { unfold Impl.SHA1_Message_Block_Size in Hge. lia. }
  destruct (store_byte_spec c p rest) as (b & -> & Hb & Htb); [done|lia|done|done|done|].
  rewrite bind_Some.
  destruct (last_block_spec (with_block (Z.of_nat (S (length rest))) b c) (rest ++ [p]))
    as (b1 & Hb1 & Hbb1 & HH1 & Heq);
    [exact HH|exact Hlo|exact Hb|by rewrite Hlen|lia|by rewrite Hlen|].
  exists b1, (Fips.compress (Impl.Intermediate_Hash c) b1).
  split; [exact Hb1|]. split; [exact HH1|]. split; [|exact Heq].
  by rewrite (pad_tail_one rest p (bit_length c) b1).
Qed.

Lemma PadMessage_long c rest p :
  hash_ok (Impl.Intermediate_Hash c) -> is_uint 32 (Impl.Length_Low c) ->
  block_ok (Impl.Message_Block c) -> is_byte p ->
  Impl.Message_Block_Index c = Z.of_nat (length rest) -> (56 <= length rest < 64)%nat ->
  take (length rest) (Impl.Message_Block c) = rest ->
  padded c rest p (Impl.SHA1PadMessage c p).
Proof.
  intros HH Hlo HB Hp Hi Hlt Hrest. unfold Impl.SHA1PadMessage. rewrite Hi.
  assert (Hlen : length (rest ++ [p]) = S (length rest)) by (by rewrite length_app, Nat.add_1_r).
  destruct (Z.leb_spec (Impl.SHA1_Message_Block_Size - 8) (Z.of_nat (length rest))) as [_|Hge].
  2: { unfold Impl.SHA1_Message_Block_Size in Hge. lia. }
  destruct (store_byte_spec c p rest) as (b & -> & Hb & Htb); [done|lia|done|done|done|].
  rewrite bind_Some.
  destruct (pad_zeros_spec 64 64 (with_block (Z.of_nat (S (length rest))) b c) (rest ++ [p]))
    as (b1 & Hz & Hb1 & Ht1); [by rewrite Hlen|lia|lia|exact Hb|by rewrite Hlen|].
  change (Z.of_nat 64) with Impl.SHA1_Message_Block_Size in Hz. rewrite Hz.
  rewrite bind_Some. rewrite with_block_twice.
  rewrite firstn_all2 in Ht1 by (destruct Hb1; lia).
  destruct (ProcessMessageBlock_spec (with_block Impl.SHA1_Message_Block_Size b1 c) HH Hb1)
    as [-> HH1]. rewrite bind_Some.
  destruct (last_block_spec (Impl.set_index 0 (Impl.set_hash
    (Fips.compress (Impl.Intermediate_Hash c) b1)
    (with_block Impl.SHA1_Message_Block_Size b1 c))) [])
    as (b2 & Hb2 & Hbb2 & HH2 & Heq);
    [exact HH1|exact Hlo|exact Hb1|done|cbn [length]; lia|done|].
  exists b2, (Fips.compress (Fips.compress (Impl.Intermediate_Hash c) b1) b2).
  split; [exact Hb2|]. split; [exact HH2|]. split; [|exact Heq].
  by rewrite (pad_tail_two rest p (bit_length c) b1 b2).
Qed.

Lemma PadMessage_spec c rest p :
  hash_ok (Impl.Intermediate_Hash c) -> is_uint 32 (Impl.Length_Low c) ->
  block_ok (Impl.Message_Block c) -> is_byte p ->
  Impl.Message_Block_Index c = Z.of_nat (length rest) -> (length rest < 64)%nat ->
  take (length rest) (Impl.Message_Block c) = rest ->
  padded c rest p (Impl.SHA1PadMessage c p).
Proof.
  intros. destruct (decide (length rest < 56)%nat).
  - by apply PadMessage_short.
  - apply PadMessage_long; (done || lia).
Qed.

(** ** Absorbing the message *)

(** The context [c] is in the middle of hashing: it has compressed the blocks [bs], its
    block buffer starts with [rest], and it has counted [n] bits. *)
Record hashing (c : Impl.SHA1Context) (bs : list (list Z)) (rest : list Z) (n : Z) : Prop := {
  h_hash : Impl.Intermediate_Hash c = fold_left Fips.compress bs Fips.H0;
  h_hash_ok : hash_ok (Impl.Intermediate_Hash c);
  h_blocks : Forall block_ok bs;
  h_rest : Forall is_byte rest /\ (length rest < 64)%nat;
  h_index : Impl.Message_Block_Index c = Z.of_nat (length rest);
  h_buffer : block_ok (Impl.Message_Block c);
  h_prefix : take (length rest) (Impl.Message_Block c) = rest;
  h_high : is_uint 32 (Impl.Length_High c);
  h_low : is_uint 32 (Impl.Length_Low c);
  h_length : bit_length c = n;
  h_computed : Impl.Computed c = 0;
  h_corrupted : Impl.Corrupted c = 0
}.

(** The context has absorbed the bytes [m] and nothing else. *)
Definition absorbed (c : Impl.SHA1Context) (m : list Z) : Prop :=
  exists bs rest, m = concat bs ++ rest /\ hashing c bs rest (8 * Z.of_nat (length m)).

(** A context as [malloc] or an earlier computation leaves it: typed, contents arbitrary. *)
Definition ctx_typed (c : Impl.SHA1Context) : Prop := block_ok (Impl.Message_Block c).

Lemma H0_ok : hash_ok Fips.H0.
Proof. split; [done|]. repeat constructor; done. Qed.

Lemma Reset_absorbed c :
  ctx_typed c ->
  exists c', Impl.SHA1Reset (Some c) = (Some c', Impl.shaSuccess) /\ absorbed c' [].
Proof.
  intros Hc. eexists. split; [reflexivity|]. exists [], []. split; [done|].
  constructor; try done.
  - apply H0_ok.
  - split; [constructor|cbn [length]; lia].
Qed.

Lemma AddLength_spec c k :
  is_uint 32 (Impl.Length_High c) -> is_uint 32 (Impl.Length_Low c) -> 0 <= k <= 8 ->
  bit_length c + k < 2 ^ 64 ->
  exists hi lo, Impl.SHA1AddLength c k = Impl.set_length hi lo c /\
    is_uint 32 hi /\ is_uint 32 lo /\ hi * 2 ^ 32 + lo = bit_length c + k.
Proof.
  unfold bit_length. intros [Hh Hh'] [Hl Hl'] Hk Hlt. unfold Impl.SHA1AddLength.
  destruct (Z.ltb_spec (Impl.Length_Low c ⊞ k) (Impl.Length_Low c)) as [Hov|Hov].
  - assert (Elo : Impl.Length_Low c ⊞ k = Impl.Length_Low c + k - 2 ^ 32) by width_lia.
    assert (Ehi : Impl.Length_High c ⊞ 1 = Impl.Length_High c + 1).
    { pose proof (add32_bounds (Impl.Length_Low c) k) as [Hpos _].
      unfold add32 at 1, u32, wrap. rewrite Z.mod_small; lia. }
    rewrite Ehi. destruct (Z.eqb_spec (Impl.Length_High c + 1) 0); [lia|].
    eexists _, _. split; [reflexivity|]. rewrite Elo. width_lia.
  - eexists _, _. split; [reflexivity|]. width_lia.
Qed.

Lemma Input_byte_spec c bs rest n b :
  hashing c bs rest n -> is_byte b -> n + 8 < 2 ^ 64 ->
  exists c' bs' rest', Impl.SHA1Input_byte c b = Some c' /\ hashing c' bs' rest' (n + 8) /\
    concat bs' ++ rest' = concat bs ++ rest ++ [b].
Proof.
  intros [Hh Hok Hbs [Hr1 Hr2] Hi Hb Hp Hhi Hlo Hn Hc Hcr] Hbyte Hlt. unfold Impl.SHA1Input_byte.
  destruct (store_byte_spec c b rest) as (blk & -> & Hblk & Hpre); [done..|].
  rewrite bind_Some.
  destruct (AddLength_spec (with_block (Z.of_nat (S (length rest))) blk c) 8)
    as (hi & lo & -> & Hhi' & Hlo' & Hsum); [exact Hhi|exact Hlo|lia|rewrite <- Hn in Hlt; exact Hlt|].
  set (c1 := Impl.set_length hi lo _).
  assert (Hn' : bit_length c1 = n + 8) by (rewrite <- Hn; exact Hsum).
  change (Impl.Corrupted c1) with (Impl.Corrupted c). rewrite Hcr.
  change (Impl.shaSuccess) with 0. rewrite Z.eqb_refl. cbn [andb].
  change (Impl.Message_Block_Index c1) with (Z.of_nat (S (length rest))).
  destruct (Z.eqb_spec (Z.of_nat (S (length rest))) Impl.SHA1_Message_Block_Size) as [Hfull|Hmore].
  - unfold Impl.SHA1_Message_Block_Size in Hfull.
    destruct (ProcessMessageBlock_spec c1 Hok Hblk) as [-> HH].
    change (Impl.Message_Block c1) with blk in HH |- *.
    change (Impl.Intermediate_Hash c1) with (Impl.Intermediate_Hash c) in HH |- *.
    rewrite firstn_all2 in Hpre by (destruct Hblk; lia).
    eexists _, (bs ++ [blk]), []. split; [reflexivity|]. split.
    + constructor; try done.
      * cbn [Impl.Intermediate_Hash Impl.set_index Impl.set_hash].
        by rewrite fold_left_app, <- Hh.
      * apply Forall_app. by split; [|apply Forall_singleton].
      * split; [constructor|cbn [length]; lia].
    + rewrite concat_app. cbn [concat]. by rewrite !app_nil_r, Hpre.
  - exists c1, bs, (rest ++ [b]). split; [reflexivity|]. split; [|done].
    unfold Impl.SHA1_Message_Block_Size in Hmore.
    assert (Hlen : length (rest ++ [b]) = S (length rest)) by (by rewrite length_app, Nat.add_1_r).
    constructor; try done.
    + split; [|rewrite Hlen; lia]. apply Forall_app. by split; [|apply Forall_singleton].
    + by rewrite Hlen.
    + by rewrite Hlen.
Qed.

Lemma Input_loop_spec c m bytes :
  absorbed c m -> Forall is_byte bytes -> 8 * Z.of_nat (length (m ++ bytes)) < 2 ^ 64 ->
  exists c', Impl.SHA1Input_loop c bytes = Some c' /\ absorbed c' (m ++ bytes).
Proof.
  intros Hc Hbytes. revert c m Hc. induction Hbytes as [|b bytes Hb _ IH]; intros c m Hc Hlt.
  { exists c. by rewrite app_nil_r. }
  destruct Hc as (bs & rest & Hm & Hc). rewrite length_app in Hlt. cbn [length] in Hlt.
  destruct (Input_byte_spec c bs rest _ b Hc Hb) as (c' & bs' & rest' & Hstep & Hc' & Hm');
    [lia|].
  cbn [Impl.SHA1Input_loop]. rewrite Hstep, bind_Some.
  destruct (IH c' (m ++ [b])) as (c'' & Hloop & Hc'').
  - exists bs', rest'. split; [by rewrite Hm', Hm, app_assoc|].
    rewrite length_app. cbn [length].
    by replace (8 * Z.of_nat (length m + 1)) with (8 * Z.of_nat (length m) + 8) by lia.
  - rewrite <- app_assoc, length_app. cbn [app length]. lia.
  - exists c''. split; [exact Hloop|]. by rewrite <- app_assoc in Hc''.
Qed.

Lemma absorbed_fields c m :
  absorbed c m -> Impl.Computed c = 0 /\ Impl.Corrupted c = 0 /\ ctx_typed c /\
  bit_length c = 8 * Z.of_nat (length m).
Proof. intros (bs & rest & _ & []). done. Qed.

Lemma Input_spec c m data len :
  absorbed c m -> Forall is_byte data -> 0 <= len <= Z.of_nat (length data) ->
  8 * (Z.of_nat (length m) + len) < 2 ^ 64 ->
  exists c', Impl.SHA1Input (Some c) (Some data) len = Some (Some c', Impl.shaSuccess) /\
    absorbed c' (m ++ take (Z.to_nat len) data).
Proof.
  intros Hc Hdata Hlen Hlt. unfold Impl.SHA1Input.
  destruct (absorbed_fields c m Hc) as (Hcomp & Hcorr & _ & _).
  destruct (Z.eqb_spec len 0) as [->|Hne].
  { exists c. by rewrite app_nil_r. }
  rewrite Hcomp, Hcorr. change (negb (0 =? 0)) with false. cbn iota.
  destruct (Z.ltb_spec (Z.of_nat (length data)) len); [lia|].
  destruct (Input_loop_spec c m (take (Z.to_nat len) data)) as (c' & -> & Hc');
    [done|by apply Forall_take|rewrite length_app, length_take; lia|].
  rewrite bind_Some. exists c'. split; [|done].
  destruct (absorbed_fields _ _ Hc') as (_ & -> & _). done.
Qed.

(** ** Bits and bytes *)

Lemma value_bits_byte b : is_byte b -> Fips.value_be (Fips.bits_be 8 b) = b.
Proof.
  intros Hb. apply Z.eqb_eq.
  apply (byte_cases (fun b => Fips.value_be (Fips.bits_be 8 b) =? b)); [by vm_compute|done].
Qed.

Lemma length_bits_be n z : length (Fips.bits_be n z) = n.
Proof. unfold Fips.bits_be. by rewrite length_map, length_seq. Qed.

Lemma bytes_of_bits_byte b r :
  is_byte b -> Fips.bytes_of_bits (Fips.bits_be 8 b ++ r) = b :: Fips.bytes_of_bits r.
Proof.
  intros Hb. unfold Fips.bytes_of_bits. rewrite chunks_app by (rewrite ?length_bits_be; lia).
  cbn [map]. by rewrite value_bits_byte.
Qed.

Lemma bytes_of_bits_bytes l : Forall is_byte l -> Fips.bytes_of_bits (Fips.bits_of_bytes l) = l.
Proof.
  induction 1 as [|b l Hb _ IH]; [done|]. unfold Fips.bits_of_bytes in *. cbn [map concat].
  by rewrite bytes_of_bits_byte, IH.
Qed.

Lemma bits_of_bytes_app l k :
  Fips.bits_of_bytes (l ++ k) = Fips.bits_of_bytes l ++ Fips.bits_of_bytes k.
Proof. unfold Fips.bits_of_bytes. by rewrite map_app, concat_app. Qed.

Lemma length_bits_of_bytes l : length (Fips.bits_of_bytes l) = (8 * length l)%nat.
Proof.
  induction l as [|b l IH]; [done|]. unfold Fips.bits_of_bytes in *. cbn [map concat length].
  rewrite length_app, length_bits_be, IH. lia.
Qed.

Lemma bits_of_zeros n : Fips.bits_of_bytes (replicate n 0) = replicate (8 * n) false.
Proof.
  induction n as [|n IH]; [done|]. replace (8 * S n)%nat with (8 + 8 * n)%nat by lia.
  rewrite replicate_add, <- IH. reflexivity.
Qed.

Lemma byte_testbit L j i : 0 <= j -> 0 <= i < 8 ->
  Z.testbit (L / 2 ^ j mod 2 ^ 8) i = Z.testbit L (i + j).
Proof. intros. by rewrite Z.mod_pow2_bits_low, Z.div_pow2_bits by lia. Qed.

#[local] Transparent Fips.be_bytes.

Lemma bits_be_64 L : Fips.bits_be 64 L = Fips.bits_of_bytes (Fips.be_bytes 8 L).
Proof.
  unfold Fips.bits_of_bytes, Fips.be_bytes. rewrite map_map.
  assert (H : forall i : nat, (i < 8)%nat ->
    Fips.bits_be 8 (L / 2 ^ (8 * Z.of_nat (8 - 1 - i)) mod 2 ^ 8) =
    map (fun k : nat => Z.testbit L (Z.of_nat (64 - 1 - (8 * i + k)))) (seq 0 8)).
  { intros i Hi. unfold Fips.bits_be. apply map_ext_in. intros k Hk. apply in_seq in Hk.
    rewrite byte_testbit by lia. f_equal. lia. }
  rewrite (map_ext_in _ (fun i : nat =>
    map (fun k : nat => Z.testbit L (Z.of_nat (64 - 1 - (8 * i + k)))) (seq 0 8))).
  - reflexivity.
  - intros i Hi. apply in_seq in Hi. apply H. lia.
Qed.

#[local] Opaque Fips.be_bytes.

(** The last byte of a message of [k] extra bits (0 <= k < 8) with its mark bit: the byte
    that [SHA1FinalBits] (and [SHA1Result], with no extra bits) passes to the padding. *)
Definition pad_byte (v k : Z) : Z :=
  u8 (Z.lor (Z.land v (Impl.masks !!! Z.to_nat k)) (Impl.markbit !!! Z.to_nat k)).

Definition pad_byte_check (v k : Z) : bool :=
  bool_decide (Fips.bits_be 8 (pad_byte v k) =
    take (Z.to_nat k) (Fips.bits_be 8 v) ++ [true] ++ replicate (7 - Z.to_nat k) false).

Lemma pad_byte_bits v k : is_byte v -> 0 <= k < 8 ->
  Fips.bits_be 8 (pad_byte v k) =
  take (Z.to_nat k) (Fips.bits_be 8 v) ++ [true] ++ replicate (7 - Z.to_nat k) false.
Proof.
  intros Hv Hk.
  pose proof (byte_cases (fun v => forallb (pad_byte_check v) [0;1;2;3;4;5;6;7])
    ltac:(by vm_compute) v Hv) as H.
  rewrite forallb_forall in H. specialize (H k). unfold pad_byte_check in H.
  rewrite bool_decide_eq_true in H. apply H. cbn [In]. lia.
Qed.

(** The padded bit string, as bytes. *)
Lemma pad_bytes m v k :
  Forall is_byte m -> is_byte v -> 0 <= k < 8 ->
  Fips.bytes_of_bits (Fips.pad (Fips.bits_of_bytes m ++ take (Z.to_nat k) (Fips.bits_be 8 v)))
  = m ++ [pad_byte v k] ++ replicate (Z.to_nat ((55 - Z.of_nat (length m)) mod 64)) 0 ++
    Fips.be_bytes 8 (8 * Z.of_nat (length m) + k).
Proof.
  intros Hm Hv Hk. rewrite <- (bytes_of_bits_bytes (m ++ _)).
  2: { repeat (apply Forall_app; split); try done.
       - apply Forall_singleton, u8_bounds.
       - apply Forall_replicate, byte_0.
       - apply be_bytes_ok. }
  f_equal. unfold Fips.pad.
  rewrite length_app, length_bits_of_bytes, length_take, length_bits_be.
  rewrite !bits_of_bytes_app, bits_of_zeros, <- bits_be_64, <- !app_assoc. f_equal.
  replace (Fips.bits_of_bytes [pad_byte v k]) with (Fips.bits_be 8 (pad_byte v k))
    by (unfold Fips.bits_of_bytes; cbn [map concat]; by rewrite app_nil_r).
  rewrite pad_byte_bits, <- !app_assoc by done. f_equal. cbn [app]. f_equal.
  rewrite app_assoc. replace (Z.of_nat (8 * length m + Nat.min (Z.to_nat k) 8))
    with (8 * Z.of_nat (length m) + k) by lia.
  f_equal. rewrite <- replicate_add. f_equal. width_lia.
Qed.

Lemma hash_blocks m v k bs rest :
  Forall is_byte m -> is_byte v -> 0 <= k < 8 -> m = concat bs ++ rest ->
  Forall block_ok bs ->
  Fips.hash (Fips.bits_of_bytes m ++ take (Z.to_nat k) (Fips.bits_be 8 v)) =
  fold_left Fips.compress
    (blocks_of (pad_tail rest (pad_byte v k) (8 * Z.of_nat (length m) + k)))
    (fold_left Fips.compress bs Fips.H0).
Proof.
  intros Hm Hv Hk Hbs Hok. unfold Fips.hash. rewrite pad_bytes by done.
  rewrite <- fold_left_app. f_equal. rewrite <- blocks_of_concat by done.
  change (Fips.chunks (length ?l) 64 ?l) with (blocks_of l). f_equal.
  unfold pad_tail. rewrite Hbs at 1. rewrite <- app_assoc. do 5 f_equal.
  assert (Hlen : Z.of_nat (length (concat bs)) mod 64 = 0).
  { clear -Hok. induction Hok as [|b bs [Hb _] _ IH]; [done|]. cbn [concat].
    rewrite length_app, Hb. width_lia. }
  rewrite Hbs, length_app. width_lia.
Qed.

(** [SHA1Finalize] computes the digest of the absorbed bytes followed by [k] bits of [v]. *)
Lemma Finalize_spec c bs rest m v k :
  hashing c bs rest (8 * Z.of_nat (length m) + k) -> m = concat bs ++ rest ->
  is_byte v -> 0 <= k < 8 ->
  exists c', Impl.SHA1Finalize c (pad_byte v k) = Some c' /\
    Impl.Intermediate_Hash c' =
      Fips.hash (Fips.bits_of_bytes m ++ take (Z.to_nat k) (Fips.bits_be 8 v)) /\
    hash_ok (Impl.Intermediate_Hash c') /\
    Impl.Computed c' = 1 /\ Impl.Corrupted c' = 0 /\ Impl.Length_High c' = 0 /\
    Impl.Length_Low c' = 0 /\ Impl.Message_Block c' = replicate 64 0 /\
    Impl.Message_Block_Index c' = 0.
Proof.
  intros [Hh Hok Hbs [Hr1 Hr2] Hi Hb Hp Hhi Hlo Hn Hc Hcr] Hm Hv Hk.
  destruct (PadMessage_spec c rest (pad_byte v k)) as (b & H & Hb' & HH & HE & Hpad);
    [done..|apply u8_bounds|done|done|done|].
  unfold Impl.SHA1Finalize. rewrite Hpad, bind_Some. eexists. split; [reflexivity|].
  cbn [Impl.Intermediate_Hash Impl.set_computed Impl.set_length Impl.set_block Impl.set_hash].
  assert (Hmb : Forall is_byte m).
  { rewrite Hm. apply Forall_app. split; [|done].
    apply Forall_concat. eapply Forall_impl; [exact Hbs|]. by intros ? []. }
  rewrite (hash_blocks m v k bs rest) by done. rewrite <- Hn, <- Hh. split; [exact HE|]. done.
Qed.

Lemma digest_bytes_spec H :
  length H = 5%nat -> Impl.digest_bytes H = concat (map (Fips.be_bytes 4) H).
Proof.
  intros HL. destruct H as [|a [|b [|c [|d [|e [|]]]]]]; try discriminate HL.
  assert (E : forall w, Fips.be_bytes 4 w =
    [u8 (Z.shiftr w 24); u8 (Z.shiftr w 16); u8 (Z.shiftr w 8); u8 (Z.shiftr w 0)]).
  { intros w. rewrite !byte_of_shift by lia. reflexivity. }
  cbn [map concat]. rewrite !E. reflexivity.
Qed.

(** The context after the digest has been computed, and the digest it holds. *)
Definition finished (c : Impl.SHA1Context) (digest : list Z) : Prop :=
  Impl.Computed c = 1 /\ Impl.Corrupted c = 0 /\
  Impl.digest_bytes (Impl.Intermediate_Hash c) = digest /\ ctx_typed c.

Lemma Result_finished c d :
  finished c d -> Impl.SHA1Result (Some c) true = Some (Some c, Some d, Impl.shaSuccess).
Proof. intros (Hc & Hcr & <- & _). unfold Impl.SHA1Result. by rewrite Hc, Hcr. Qed.

Lemma zeros_block : block_ok (replicate 64 0).
Proof. split; [done|]. apply Forall_replicate, byte_0. Qed.

Lemma Result_spec c m :
  absorbed c m ->
  exists c', Impl.SHA1Result (Some c) true =
      Some (Some c', Some (Fips.digest (Fips.bits_of_bytes m)), Impl.shaSuccess) /\
    finished c' (Fips.digest (Fips.bits_of_bytes m)).
Proof.
  intros (bs & rest & Hm & Hc).
  destruct (Finalize_spec c bs rest m 0 0) as
    (c' & Hf & Hhash & [HL _] & Hcomp & Hcorr & _ & _ & Hblk & _);
    [by rewrite Z.add_0_r|done|apply byte_0|lia|].
  exists c'.
  assert (Hd : Impl.digest_bytes (Impl.Intermediate_Hash c') =
    Fips.digest (Fips.bits_of_bytes m)).
  { rewrite digest_bytes_spec by done. unfold Fips.digest. rewrite Hhash. cbn [take Z.to_nat].
    by rewrite app_nil_r. }
  split.
  - unfold Impl.SHA1Result. destruct Hc. cbn [negb]. rewrite h_corrupted0, h_computed0.
    change (negb (0 =? 0)) with false. change (0 =? 0) with true. cbn iota.
    change 0x80 with (pad_byte 0 0). rewrite Hf, bind_Some. by rewrite Hd.
  - split; [done|]. split; [done|]. split; [done|]. unfold ctx_typed. rewrite Hblk.
    apply zeros_block.
Qed.

(** ** The properties *)

(** The use that osi.c makes of a context: reset, one input per buffer, result. *)
Fixpoint input_chunks (c : option Impl.SHA1Context) (chunks : list (list Z)) :
    option (option Impl.SHA1Context) :=
  match chunks with
  | [] => Some c
  | m :: chunks =>
    '(c, _) ← Impl.SHA1Input c (Some m) (Z.of_nat (length m)); input_chunks c chunks
  end.

Definition run_chunks (c : Impl.SHA1Context) (chunks : list (list Z)) :
    option (option (list Z) * Z) :=
  c ← input_chunks (Impl.SHA1Reset (Some c)).1 chunks;
  '(_, digest, rc) ← Impl.SHA1Result c true;
  Some (digest, rc).

Lemma input_chunks_spec c m chunks :
  absorbed c m -> Forall (Forall is_byte) chunks ->
  8 * Z.of_nat (length (m ++ concat chunks)) < 2 ^ 64 ->
  exists c', input_chunks (Some c) chunks = Some (Some c') /\ absorbed c' (m ++ concat chunks).
Proof.
  intros Hc Hch. revert c m Hc. induction Hch as [|b chunks Hb _ IH]; intros c m Hc Hlt.
  { exists c. cbn [concat]. by rewrite app_nil_r. }
  cbn [input_chunks concat] in *. rewrite !length_app in Hlt.
  destruct (Input_spec c m b (Z.of_nat (length b))) as (c1 & -> & Hc1); [done|done|lia|lia|].
  rewrite bind_Some. rewrite Nat2Z.id, firstn_all in Hc1.
  destruct (IH c1 (m ++ b) Hc1) as (c2 & -> & Hc2); [rewrite !length_app; lia|].
  exists c2. split; [done|]. by rewrite app_assoc.
Qed.

(** C10: resetting a context, feeding it a message in any number of pieces and asking for the
    result returns the FIPS 180 digest of the whole message, for every message of fewer than
    2^64 bits: the code never leaves the block buffer and never reports an error. *)
Theorem sha1_refines_fips c chunks :
  ctx_typed c -> Forall (Forall is_byte) chunks ->
  8 * Z.of_nat (length (concat chunks)) < 2 ^ 64 ->
  run_chunks c chunks =
    Some (Some (Fips.digest (Fips.bits_of_bytes (concat chunks))), Impl.shaSuccess).
Proof.
  intros Hc Hch Hlt. unfold run_chunks.
  destruct (Reset_absorbed c Hc) as (c1 & -> & Hc1). cbn [fst].
  destruct (input_chunks_spec c1 [] chunks) as (c2 & -> & Hc2); [done..|]. rewrite bind_Some.
  destruct (Result_spec c2 _ Hc2) as (c3 & -> & _). by rewrite bind_Some.
Qed.

Definition fresh_context : Impl.SHA1Context :=
  Impl.mkSHA1Context (replicate 5 0) 0 0 0 (replicate 64 0) 0 0.

(** "abc" in two pieces, whose digest is A9993E36 4706816A BA3E2571 7850C26C 9CD0D89D. *)
Lemma sha1_refines_fips_witness :
  run_chunks fresh_context [[97]; [98; 99]] =
    Some (Some (Fips.digest (Fips.bits_of_bytes [97; 98; 99])), 0) /\
  Fips.digest (Fips.bits_of_bytes [97; 98; 99]) =
    [0xA9; 0x99; 0x3E; 0x36; 0x47; 0x06; 0x81; 0x6A; 0xBA; 0x3E; 0x25; 0x71; 0x78; 0x50;
     0xC2; 0x6C; 0x9C; 0xD0; 0xD8; 0x9D].
Proof.
  split; [|by vm_compute].
  apply (sha1_refines_fips fresh_context [[97]; [98; 99]]).
  - exact zeros_block.
  - repeat (apply Forall_cons; split); try apply Forall_nil; try (split; by vm_compute); done.
  - by vm_compute.
Defined.

(** Theorem: [SHA1FinalBits] with [k] extra bits in the upper part of a byte makes the result the
    FIPS 180 digest of the bit string: the bytes absorbed so far, then those [k] bits. *)
Theorem sha1_final_bits c m v k :
  absorbed c m -> is_byte v -> 0 < k < 8 -> 8 * Z.of_nat (length m) + k < 2 ^ 64 ->
  exists c', Impl.SHA1FinalBits (Some c) v k = Some (Some c', Impl.shaSuccess) /\
    Impl.SHA1Result (Some c') true = Some (Some c',
      Some (Fips.digest (Fips.bits_of_bytes m ++ take (Z.to_nat k) (Fips.bits_be 8 v))),
      Impl.shaSuccess).
Proof.
  intros (bs & rest & Hm & Hc) Hv Hk Hlt. unfold Impl.SHA1FinalBits. pose proof Hc as [].
  destruct (Z.eqb_spec k 0); [lia|]. rewrite h_corrupted0, h_computed0.
  change (negb (0 =? 0)) with false. cbn iota. destruct (Z.leb_spec 8 k); [lia|].
  destruct (AddLength_spec c k) as (hi & lo & -> & Hhi & Hlo & Hsum); [done|done|lia|lia|].
  destruct (Finalize_spec (Impl.set_length hi lo c) bs rest m v k) as
    (c' & Hf & Hhash & [HL _] & Hcomp & Hcorr & _ & _ & Hblk & _); [|done|done|lia|].
  { constructor; try done. unfold bit_length. cbn [Impl.Length_High Impl.Length_Low
      Impl.set_length]. by rewrite Hsum, h_length0. }
  change (u8 _) with (pad_byte v k). rewrite Hf, bind_Some. exists c'. split; [by rewrite Hcorr|].
  apply Result_finished. split; [done|]. split; [done|]. split.
  - rewrite digest_bytes_spec by done. unfold Fips.digest. by rewrite Hhash.
  - unfold ctx_typed. rewrite Hblk. apply zeros_block.
Qed.

(** The reset context has absorbed the empty message; two bits 11 follow. *)
Lemma sha1_final_bits_witness :
  let c := Impl.mkSHA1Context Fips.H0 0 0 0 (replicate 64 0) 0 0 in
  exists c', Impl.SHA1FinalBits (Some c) 0xC0 2 = Some (Some c', 0) /\
    Impl.SHA1Result (Some c') true = Some (Some c', Some (Fips.digest [true; true]), 0).
Proof.
  cbn zeta. destruct (Reset_absorbed fresh_context zeros_block) as (c & Hr & Hc).
  injection Hr as <-.
  apply (sha1_final_bits _ [] 0xC0 2 Hc); [by vm_compute|lia|cbn [length]; lia].
Defined.

(** Theorem: once the digest has been computed, asking again returns the same digest; further
    input or final bits are refused with [shaStateError], which also poisons the context;
    and a reset makes the context usable again. *)
Theorem sha1_after_result c d data len v k :
  finished c d -> 0 < len -> 0 < k ->
  Impl.SHA1Result (Some c) true = Some (Some c, Some d, Impl.shaSuccess) /\
  (exists c', Impl.SHA1Input (Some c) (Some data) len = Some (Some c', Impl.shaStateError) /\
     Impl.SHA1Result (Some c') true = Some (Some c', None, Impl.shaStateError)) /\
  (exists c', Impl.SHA1FinalBits (Some c) v k = Some (Some c', Impl.shaStateError) /\
     Impl.SHA1Result (Some c') true = Some (Some c', None, Impl.shaStateError)) /\
  exists c', Impl.SHA1Reset (Some c) = (Some c', Impl.shaSuccess) /\ absorbed c' [].
Proof.
  intros Hf Hlen Hk. pose proof Hf as (Hc & Hcr & Hd & Ht).
  split; [by apply Result_finished|]. split; [|split; [|by apply Reset_absorbed]].
  - exists (Impl.set_corrupted Impl.shaStateError c). unfold Impl.SHA1Input.
    destruct (Z.eqb_spec len 0); [lia|]. by rewrite Hc.
  - exists (Impl.set_corrupted Impl.shaStateError c). unfold Impl.SHA1FinalBits.
    destruct (Z.eqb_spec k 0); [lia|]. by rewrite Hcr, Hc.
Qed.

Lemma sha1_after_result_witness :
  let c := Impl.mkSHA1Context Fips.H0 0 0 0 (replicate 64 0) 1 0 in
  Impl.SHA1Input (Some c) (Some [1]) 1 =
    Some (Some (Impl.set_corrupted Impl.shaStateError c), Impl.shaStateError).
Proof.
  cbn zeta. assert (Hf : finished (Impl.mkSHA1Context Fips.H0 0 0 0 (replicate 64 0) 1 0)
    (Impl.digest_bytes Fips.H0)) by (repeat split; try done; apply zeros_block).
  destruct (sha1_after_result _ _ [1] 1 0 1 Hf) as (_ & (c' & Hc' & _) & _); [lia|lia|].
  rewrite Hc'. vm_compute in Hc'. by injection Hc' as <-.
Defined.

(** A context that has counted all but the last eight of the 2^64 bits. *)
Definition near_limit (c : Impl.SHA1Context) : Prop :=
  Impl.Length_High c = 2 ^ 32 - 1 /\ Impl.Length_Low c = 2 ^ 32 - 8 /\
  Impl.Message_Block_Index c = 63 /\ Impl.Computed c = 0 /\ Impl.Corrupted c = 0.

Lemma absorbed_near_limit c m :
  absorbed c m -> 8 * (Z.of_nat (length m) + 1) = 2 ^ 64 -> near_limit c.
Proof.
  intros (bs & rest & Hm & []) Hlen. unfold bit_length, near_limit in *.
  assert (Hi : Z.of_nat (length rest) = 63).
  { assert (Hlen' : Z.of_nat (length (concat bs)) mod 64 = 0).
    { clear -h_blocks0. induction h_blocks0 as [|b bs [Hb _] _ IH]; [done|]. cbn [concat].
      rewrite length_app, Hb. width_lia. }
    destruct h_rest0. subst m. rewrite length_app in *. width_lia. }
  rewrite h_index0, Hi. unfold is_uint in *. repeat split; try done; lia.
Qed.

(** Theorem (finding): the length check of [SHA1Input] does not stop its loop.  At the limit of
    2^64 bits, reached by any message of 2^61 - 1 bytes, an input of one more byte reports
    [shaInputTooLong], but a single input of two or more bytes writes past the end of
    [Message_Block]. *)
Theorem sha1_input_overflow_writes_past_block c data len :
  near_limit c -> 0 < len <= Z.of_nat (length data) ->
  (len = 1 -> exists c',
     Impl.SHA1Input (Some c) (Some data) len = Some (Some c', Impl.shaInputTooLong)) /\
  (1 < len -> Impl.SHA1Input (Some c) (Some data) len = None) /\
  (forall c m, absorbed c m -> 8 * (Z.of_nat (length m) + 1) = 2 ^ 64 -> near_limit c).
Proof.
  intros (Hhi & Hlo & Hi & Hcomp & Hcorr) Hlen. split; [|split; [|apply absorbed_near_limit]].
  - intros ->. unfold Impl.SHA1Input. rewrite Hcomp, Hcorr. cbn [Z.eqb negb].
    destruct (Z.ltb_spec (Z.of_nat (length data)) 1); [lia|].
    destruct data as [|a data]; [cbn [length] in Hlen; lia|].
    change (take (Z.to_nat 1) (a :: data)) with [a]. cbn [Impl.SHA1Input_loop].
    destruct c as [h hi lo i blk comp corr]. cbn in Hhi, Hlo, Hi, Hcomp, Hcorr. subst.
    eexists. reflexivity.
  - intros Hlt. unfold Impl.SHA1Input. destruct (Z.eqb_spec len 0); [lia|].
    rewrite Hcomp, Hcorr. cbn [Z.eqb negb].
    destruct (Z.ltb_spec (Z.of_nat (length data)) len); [lia|].
    destruct data as [|a [|b data]]; [cbn [length] in Hlen; lia..|].
    replace (Z.to_nat len) with (S (S (Z.to_nat (len - 2)))) by lia. cbn [take].
    destruct c as [h hi lo i blk comp corr]. cbn in Hhi, Hlo, Hi, Hcomp, Hcorr. subst.
    reflexivity.
Qed.

Lemma sha1_input_overflow_writes_past_block_witness :
  Impl.SHA1Input (Some (Impl.mkSHA1Context Fips.H0 (2 ^ 32 - 1) (2 ^ 32 - 8) 63
    (replicate 64 0) 0 0)) (Some [1; 2]) 2 = None.
Proof.
  apply (sha1_input_overflow_writes_past_block _ [1; 2] 2);
    [by repeat split|cbn [length]; lia|lia].
Defined.
