(* ===== verification/Utf8.v ===== *)
(** * Utf8: the conversion of Scheme strings to C strings

    [osi_string_to_utf8] of osi.c (lines 128-170), the one encoder every operation that
    passes a name, a path or an SQL text to a C library goes through.  A Scheme string is the
    list of its characters (Unicode scalar values); the [malloc]ed block is a list of bytes
    written through a bounds-checked position, so that [None] is a write outside it. *)

From S2P Require Import Prelude.

(** ** The code *)

(** The block [result] and the position [utf8 - result]. *)
Record writer := mkWriter { block : list Z; pos : Z }.

(** [*utf8++ = v], with the conversion to [char]. *)
Definition put (v : Z) (w : writer) : option writer :=
  if (0 <=? pos w) && (pos w <? Z.of_nat (length (block w))) then
    Some (mkWriter (<[Z.to_nat (pos w) := u8 v]> (block w)) (pos w + 1))
  else None.

(** The first loop: the number of bytes, a [size_t]. *)
Definition utf8_count (len c : Z) : Z :=
  if c <? 0x80 then u64 (len + 1)
  else if c <? 0x800 then u64 (len + 2)
  else if c <? 0x10000 then u64 (len + 3)
  else u64 (len + 4).

Definition utf8_size (s : list Z) : Z := fold_left utf8_count s 0.

(** The body of the second loop. *)
Definition utf8_char (c : Z) (w : writer) : option writer :=
  if c <? 0x80 then put c w
  else if c <? 0x800 then
    w ← put (Z.lor (Z.shiftr c 6) 0xC0) w;
    put (Z.lor (Z.land c 0x3F) 0x80) w
  else if c <? 0x10000 then
    w ← put (Z.lor (Z.shiftr c 12) 0xE0) w;
    w ← put (Z.lor (Z.land (Z.shiftr c 6) 0x3F) 0x80) w;
    put (Z.lor (Z.land c 0x3F) 0x80) w
  else
    w ← put (Z.lor (Z.shiftr c 18) 0xF0) w;
    w ← put (Z.lor (Z.land (Z.shiftr c 12) 0x3F) 0x80) w;
    w ← put (Z.lor (Z.land (Z.shiftr c 6) 0x3F) 0x80) w;
    put (Z.lor (Z.land c 0x3F) 0x80) w.

Fixpoint utf8_loop (s : list Z) (w : writer) : option writer :=
  match s with
  | [] => Some w
  | c :: s => w ← utf8_char c w; utf8_loop s w
  end.

(** [malloc n] is the uninitialised block, [None] when memory is exhausted.  The result is
    the returned pointer's block and [*utf8_len]. *)
Definition osi_string_to_utf8 (malloc : Z -> option (list Z)) (s : list Z) :
    option (option (list Z) * Z) :=
  let len := utf8_size s in
  match malloc (u64 (len + 1)) with
  | None => Some (None, 0)
  | Some result =>
    w ← utf8_loop s (mkWriter result 0);
    w ← put 0 w;
    Some (Some (block w), len)
  end.

(** ** The specification: RFC 3629 *)

Module Rfc3629.

(** Unicode scalar values. *)
Definition scalar (c : Z) : bool :=
  (0 <=? c) && (c <? 0xD800) || (0xE000 <=? c) && (c <? 0x110000).

(** The table of section 3, by arithmetic on the code point. *)
Definition encode_char (c : Z) : list Z :=
  if c <? 0x80 then [c]
  else if c <? 0x800 then [192 + c / 64; 128 + c mod 64]
  else if c <? 0x10000 then [224 + c / 4096; 128 + c / 64 mod 64; 128 + c mod 64]
  else [240 + c / 262144; 128 + c / 4096 mod 64; 128 + c / 64 mod 64; 128 + c mod 64].

Definition encode (s : list Z) : list Z := s ≫= encode_char.

Definition continuation (b : Z) : bool := (128 <=? b) && (b <? 192).

(** A strict decoder: no overlong form, no surrogate, nothing above U+10FFFF. *)
Definition accept (lo c : Z) (rest : list Z) : option (Z * list Z) :=
  if scalar c && (lo <=? c) then Some (c, rest) else None.

Definition decode_char (bytes : list Z) : option (Z * list Z) :=
  match bytes with
  | a :: rest1 =>
    if a <? 128 then accept 0 a rest1
    else match rest1 with
    | b :: rest2 =>
      if negb (continuation b) then None else
      if (192 <=? a) && (a <? 224) then accept 0x80 ((a - 192) * 64 + (b - 128)) rest2
      else match rest2 with
      | c :: rest3 =>
        if negb (continuation c) then None else
        if (224 <=? a) && (a <? 240) then
          accept 0x800 ((a - 224) * 4096 + (b - 128) * 64 + (c - 128)) rest3
        else match rest3 with
        | d :: rest4 =>
          if negb (continuation d) then None else
          if (240 <=? a) && (a <? 248) then
            accept 0x10000 ((a - 240) * 262144 + (b - 128) * 4096 + (c - 128) * 64 + (d - 128)) rest4
          else None
        | [] => None
        end
      | [] => None
      end
    | [] => None
    end
  | [] => None
  end.

(** One step per byte is enough: every character takes at least one. *)
Fixpoint decode_fuel (fuel : nat) (bytes : list Z) : option (list Z) :=
  match bytes, fuel with
  | [], _ => Some []
  | _, O => None
  | _, S fuel =>
    '(c, rest) ← decode_char bytes;
    s ← decode_fuel fuel rest;
    Some (c :: s)
  end.

Definition decode (bytes : list Z) : option (list Z) := decode_fuel (length bytes) bytes.

End Rfc3629.

(** What a C function reads from a [char*]: the bytes before the first NUL, [None] when the
    block holds none. *)
Fixpoint c_string (bytes : list Z) : option (list Z) :=
  match bytes with
  | [] => None
  | b :: bytes => if b =? 0 then Some [] else s ← c_string bytes; Some (b :: s)
  end.

(** The characters before the first [#\nul]. *)
Fixpoint before_nul (s : list Z) : list Z :=
  match s with
  | [] => []
  | c :: s => if c =? 0 then [] else c :: before_nul s
  end.

(** ** The writer *)

Lemma put_spec v pre x rest :
  put v (mkWriter (pre ++ x :: rest) (Z.of_nat (length pre))) =
  Some (mkWriter ((pre ++ [u8 v]) ++ rest) (Z.of_nat (length (pre ++ [u8 v])))).
Proof.
  unfold put. cbn [pos block]. rewrite !length_app. cbn [length].
  destruct (Z.leb_spec 0 (Z.of_nat (length pre))); [|lia].
  destruct (Z.ltb_spec (Z.of_nat (length pre)) (Z.of_nat (length pre + S (length rest)))); [|lia].
  cbn [andb]. rewrite Nat2Z.id, insert_app_r_alt, Nat.sub_diag by lia. cbn.
  do 2 f_equal; [by rewrite <- app_assoc|lia].
Qed.

Lemma field_byte a n y :
  0 <= n -> 0 <= y < 2 ^ n -> is_byte (y + a * 2 ^ n) -> u8 (Z.lor y (Z.shiftl a n)) = a * 2 ^ n + y.
Proof.
  intros Hn Hy Hb. rewrite Z.lor_comm, lor_shiftl_add by (done || lia).
  rewrite u8_small by (by rewrite Z.add_comm). done.
Qed.

(** The bytes the code computes are those of the table. *)
Lemma lead2 c : 0x80 <= c < 0x800 -> u8 (Z.lor (Z.shiftr c 6) 0xC0) = 192 + c / 64.
Proof.
  intros. rewrite Z.shiftr_div_pow2 by lia. apply (field_byte 3 6); [lia|width_lia|width_lia].
Qed.

Lemma lead3 c : 0x800 <= c < 0x10000 -> u8 (Z.lor (Z.shiftr c 12) 0xE0) = 224 + c / 4096.
Proof.
  intros. rewrite Z.shiftr_div_pow2 by lia. apply (field_byte 7 5); [lia|width_lia|width_lia].
Qed.

Lemma lead4 c : 0x10000 <= c < 0x110000 -> u8 (Z.lor (Z.shiftr c 18) 0xF0) = 240 + c / 262144.
Proof.
  intros. rewrite Z.shiftr_div_pow2 by lia. apply (field_byte 15 4); [lia|width_lia|width_lia].
Qed.

Lemma trail x : u8 (Z.lor (Z.land x 0x3F) 0x80) = 128 + x mod 64.
Proof.
  change 0x3F with (Z.ones 6). rewrite Z.land_ones by lia.
  apply (field_byte 2 6); [lia|apply Z.mod_pos_bound; lia|width_lia].
Qed.

Lemma u8_ascii c : 0 <= c < 0x80 -> u8 c = c.
Proof. intros. apply u8_small. width_lia. Qed.

Lemma scalar_range c : Rfc3629.scalar c = true -> 0 <= c < 0x110000.
Proof.
  unfold Rfc3629.scalar. intros [H|H]%orb_true_iff; apply andb_true_iff in H as [H1 H2];
    apply Z.leb_le in H1; apply Z.ltb_lt in H2; lia.
Qed.

Lemma list_length_S {A} (l : list A) n :
  length l = S n -> exists x k, l = x :: k /\ length k = n.
Proof. destruct l as [|x k]; [done|]. intros [= H]. by exists x, k. Qed.

(** Names the elements of a list of known length. *)
Ltac explode_list H :=
  repeat (apply list_length_S in H as (?x & ?k & -> & H));
  try (apply nil_length_inv in H; subst).

Lemma utf8_char_spec c pre old rest :
  Rfc3629.scalar c = true -> length old = length (Rfc3629.encode_char c) ->
  utf8_char c (mkWriter (pre ++ old ++ rest) (Z.of_nat (length pre))) =
  Some (mkWriter ((pre ++ Rfc3629.encode_char c) ++ rest)
                 (Z.of_nat (length (pre ++ Rfc3629.encode_char c)))).
Proof.
  intros Hc%scalar_range. unfold utf8_char, Rfc3629.encode_char. intros Hl.
  destruct (Z.ltb_spec c 0x80); [|destruct (Z.ltb_spec c 0x800);
    [|destruct (Z.ltb_spec c 0x10000)]]; cbn [length] in Hl; explode_list Hl; cbn [app].
  all: repeat (rewrite put_spec; rewrite ?bind_Some).
  all: rewrite ?lead2, ?lead3, ?lead4, ?trail, ?u8_ascii by lia.
  all: rewrite ?Z.shiftr_div_pow2 by lia.
  all: by rewrite <- ?app_assoc.
Qed.

Lemma utf8_loop_spec s : forall pre old rest,
  Forall (fun c => Rfc3629.scalar c = true) s -> length old = length (Rfc3629.encode s) ->
  utf8_loop s (mkWriter (pre ++ old ++ rest) (Z.of_nat (length pre))) =
  Some (mkWriter ((pre ++ Rfc3629.encode s) ++ rest)
                 (Z.of_nat (length (pre ++ Rfc3629.encode s)))).
Proof.
  induction s as [|c s IH]; intros pre old rest Hs Hl.
  - cbn in Hl. apply nil_length_inv in Hl as ->. cbn. by rewrite app_nil_r.
  - apply Forall_cons in Hs as [Hc Hs]. unfold Rfc3629.encode in Hl |- *.
    rewrite bind_cons in Hl |- *. fold (Rfc3629.encode s) in Hl |- *.
    rewrite length_app in Hl. cbn [utf8_loop].
    rewrite <- (take_drop (length (Rfc3629.encode_char c)) old), <- !app_assoc.
    rewrite utf8_char_spec, bind_Some by (done || rewrite length_take; lia).
    rewrite IH by (done || rewrite length_drop; lia).
    by rewrite !app_assoc.
Qed.

Lemma length_encode_char c : Rfc3629.scalar c = true ->
  (1 <= length (Rfc3629.encode_char c) <= 4)%nat.
Proof. intros. unfold Rfc3629.encode_char. repeat case_if; cbn; lia. Qed.

Lemma utf8_size_spec s : forall n,
  Forall (fun c => Rfc3629.scalar c = true) s -> 0 <= n ->
  n + 4 * Z.of_nat (length s) < 2 ^ 64 ->
  fold_left utf8_count s n = n + Z.of_nat (length (Rfc3629.encode s)).
Proof.
  induction s as [|c s IH]; intros n Hs Hn Hlt; [cbn; lia|].
  apply Forall_cons in Hs as [Hc Hs]. cbn [fold_left length] in *.
  unfold Rfc3629.encode. rewrite bind_cons, length_app. fold (Rfc3629.encode s).
  assert (E : utf8_count n c = n + Z.of_nat (length (Rfc3629.encode_char c))).
  { unfold utf8_count, Rfc3629.encode_char, u64.
    repeat case_if; cbn [length]; rewrite wrap_small; unfold is_uint; lia. }
  pose proof (length_encode_char c Hc). rewrite E, IH by (done || lia). lia.
Qed.

(** ** The decoder inverts the table *)

Lemma decode_char_encode c rest :
  Rfc3629.scalar c = true -> Rfc3629.decode_char (Rfc3629.encode_char c ++ rest) = Some (c, rest).
Proof.
  intros Hs. pose proof (scalar_range c Hs) as Hc.
  assert (A : forall lo c', c' = c -> lo <= c -> Rfc3629.accept lo c' rest = Some (c, rest)).
  { intros lo c' -> Hlo. unfold Rfc3629.accept. rewrite Hs.
    destruct (Z.leb_spec lo c); [done|lia]. }
  assert (T : forall x, Rfc3629.continuation (128 + x mod 64) = true).
  { intros x. unfold Rfc3629.continuation. apply andb_true_iff.
    rewrite Z.leb_le, Z.ltb_lt. width_lia. }
  unfold Rfc3629.encode_char.
  destruct (Z.ltb_spec c 0x80); [|destruct (Z.ltb_spec c 0x800);
    [|destruct (Z.ltb_spec c 0x10000)]]; cbn [app Rfc3629.decode_char]; rewrite ?T; cbn [negb].
  all: repeat match goal with
       | |- context [?x <? ?y] => destruct (Z.ltb_spec x y); try (exfalso; width_lia)
       end.
  all: repeat match goal with
       | |- context [?x <=? ?y] =>
         destruct (Z.leb_spec x y); try (exfalso; width_lia)
       end; cbn [andb].
  all: apply A; width_lia.
Qed.

Lemma encode_cons c s : Rfc3629.encode (c :: s) = Rfc3629.encode_char c ++ Rfc3629.encode s.
Proof. reflexivity. Qed.

Lemma decode_encode s : forall fuel,
  Forall (fun c => Rfc3629.scalar c = true) s -> (length (Rfc3629.encode s) <= fuel)%nat ->
  Rfc3629.decode_fuel fuel (Rfc3629.encode s) = Some s.
Proof.
  induction s as [|c s IH]; intros fuel Hs Hf; [by destruct fuel|].
  apply Forall_cons in Hs as [Hc Hs]. rewrite encode_cons in Hf |- *.
  rewrite length_app in Hf. pose proof (length_encode_char c Hc).
  destruct fuel as [|fuel]; [lia|].
  remember (Rfc3629.encode_char c ++ Rfc3629.encode s) as l eqn:El.
  destruct l as [|b l]; [by destruct (Rfc3629.encode_char c); [cbn in *; lia|]|].
  cbn [Rfc3629.decode_fuel]. rewrite El, decode_char_encode, bind_Some by done.
  by rewrite IH, bind_Some by (done || lia).
Qed.

(** ** NUL bytes *)

Lemma encode_char_nonzero c b : Rfc3629.scalar c = true -> c <> 0 ->
  b ∈ Rfc3629.encode_char c -> b <> 0.
Proof.
  intros Hc%scalar_range Hz. unfold Rfc3629.encode_char.
  repeat case_if; rewrite ?elem_of_cons, elem_of_nil; width_lia.
Qed.

Lemma c_string_app l r : Forall (fun b => b <> 0) l ->
  c_string (l ++ r) = (s ← c_string r; Some (l ++ s)).
Proof.
  induction 1 as [|b l Hb Hl IH]; [by cbn; destruct (c_string r)|].
  cbn [app c_string]. destruct (Z.eqb_spec b 0); [done|].
  rewrite IH. by cbn; destruct (c_string r).
Qed.

Lemma c_string_encode s :
  Forall (fun c => Rfc3629.scalar c = true) s ->
  c_string (Rfc3629.encode s ++ [0]) = Some (Rfc3629.encode (before_nul s)).
Proof.
  induction 1 as [|c s Hc Hs IH]; [done|].
  rewrite encode_cons, <- app_assoc. cbn [before_nul]. destruct (Z.eqb_spec c 0) as [->|Hz]; [done|].
  rewrite c_string_app, IH by (apply Forall_forall; intros b; by apply encode_char_nonzero).
  done.
Qed.

(** Blocks [malloc] hands out have the size asked for. *)
Definition malloc_ok (malloc : Z -> option (list Z)) : Prop :=
  forall n b, 0 <= n -> malloc n = Some b -> Z.of_nat (length b) = n.

(** Strings the encoder is specified for. *)
Definition valid_string (s : list Z) : Prop :=
  Forall (fun c => Rfc3629.scalar c = true) s /\ 4 * Z.of_nat (length s) + 1 < 2 ^ 64.

Lemma osi_string_to_utf8_spec malloc s :
  malloc_ok malloc -> Forall (fun c => Rfc3629.scalar c = true) s ->
  4 * Z.of_nat (length s) + 1 < 2 ^ 64 ->
  osi_string_to_utf8 malloc s = Some
    match malloc (Z.of_nat (length (Rfc3629.encode s)) + 1) with
    | None => (None, 0)
    | Some _ => (Some (Rfc3629.encode s ++ [0]), Z.of_nat (length (Rfc3629.encode s)))
    end.
Proof.
  intros Hm Hs Hlt. unfold osi_string_to_utf8, utf8_size.
  assert (Hle : (length (Rfc3629.encode s) <= 4 * length s)%nat).
  { clear -Hs. induction Hs as [|c s Hc Hs IH]; [done|].
    rewrite encode_cons, length_app. pose proof (length_encode_char c Hc). cbn [length]. lia. }
  rewrite utf8_size_spec by (done || lia). cbn [Z.add].
  unfold u64. rewrite wrap_small by (unfold is_uint; lia).
  destruct (malloc _) as [b|] eqn:E; [|done]. apply Hm in E; [|lia].
  rewrite <- (take_drop (length (Rfc3629.encode s)) b) at 1.
  assert (Ht : length (take (length (Rfc3629.encode s)) b) = length (Rfc3629.encode s))
    by (rewrite length_take; lia).
  assert (Hd : length (drop (length (Rfc3629.encode s)) b) = 1%nat)
    by (rewrite length_drop; lia).
  apply list_length_S in Hd as (x & k & -> & ->%nil_length_inv).
  pose proof (utf8_loop_spec s [] (take (length (Rfc3629.encode s)) b) [x] Hs Ht) as H.
  cbn [app length] in H. change (Z.of_nat 0) with 0 in H. rewrite H, bind_Some.
  rewrite put_spec, bind_Some. cbn [block]. by rewrite app_nil_r.
Qed.

(** C20: [osi_string_to_utf8] never writes outside the block it allocates; on success the block
    is the RFC 3629 encoding of the string followed by one NUL, [*utf8_len] is the length
    without it, and a strict UTF-8 decoder recovers the string from it; when memory is
    exhausted it returns NULL and length 0. *)
Theorem utf8_roundtrip malloc s :
  malloc_ok malloc -> Forall (fun c => Rfc3629.scalar c = true) s ->
  4 * Z.of_nat (length s) + 1 < 2 ^ 64 ->
  exists r len, osi_string_to_utf8 malloc s = Some (r, len) /\
    match r with
    | None => len = 0 /\ exists n, malloc n = None
    | Some bytes =>
      bytes = Rfc3629.encode s ++ [0] /\ Z.of_nat (length bytes) = len + 1 /\
      Rfc3629.decode (take (Z.to_nat len) bytes) = Some s
    end.
Proof.
  intros Hm Hs Hlt. rewrite osi_string_to_utf8_spec by done.
  destruct (malloc _) as [b|] eqn:E; do 2 eexists; (split; [done|]); cbn beta iota; [|eauto].
  split; [done|]. split; [rewrite length_app; cbn [length]; lia|].
  rewrite Nat2Z.id, take_app_length. by apply decode_encode.
Qed.

Lemma utf8_roundtrip_witness :
  osi_string_to_utf8 (fun n => Some (replicate (Z.to_nat n) 7)) [0x41; 0xE9; 0x20AC; 0x1F600] =
    Some (Some [0x41; 0xC3; 0xA9; 0xE2; 0x82; 0xAC; 0xF0; 0x9F; 0x98; 0x80; 0], 10) /\
  exists r len,
    osi_string_to_utf8 (fun n => Some (replicate (Z.to_nat n) 7)) [0x41; 0xE9; 0x20AC; 0x1F600]
      = Some (r, len) /\ is_Some r.
Proof.
  split; [by vm_compute|].
  destruct (utf8_roundtrip (fun n => Some (replicate (Z.to_nat n) 7)) [0x41; 0xE9; 0x20AC; 0x1F600])
    as (r & len & H & Hr).
  - intros n b Hn [= <-]. rewrite length_replicate. lia.
  - repeat constructor.
  - by vm_compute.
  - exists r, len. split; [exact H|]. destruct r; [by eexists|]. destruct Hr as [_ [n Hn]]. done.
Defined.

(** Theorem: what a C library reads from the result: a string without [#\nul] is read back whole,
    and a string with one is silently cut before it. *)
Theorem utf8_c_string malloc s bytes len :
  malloc_ok malloc -> Forall (fun c => Rfc3629.scalar c = true) s ->
  4 * Z.of_nat (length s) + 1 < 2 ^ 64 ->
  osi_string_to_utf8 malloc s = Some (Some bytes, len) ->
  c_string bytes = Some (Rfc3629.encode (before_nul s)) /\
  (0 ∉ s -> c_string bytes = Some (take (Z.to_nat len) bytes)) /\
  Rfc3629.decode (Rfc3629.encode (before_nul s)) = Some (before_nul s).
Proof.
  intros Hm Hs Hlt. rewrite osi_string_to_utf8_spec by done.
  destruct (malloc _) as [b|] eqn:E; [|done]. intros [= <- <-].
  rewrite c_string_encode, Nat2Z.id, take_app_length by done.
  assert (Hb : Forall (fun c => Rfc3629.scalar c = true) (before_nul s)).
  { clear -Hs. induction Hs as [|c s Hc Hs IH]; [done|]. cbn [before_nul].
    destruct (c =? 0); [done|]. by constructor. }
  split; [done|]. split; [|by apply decode_encode].
  intros H0. do 2 f_equal. clear -H0. induction s as [|c s IH]; [done|].
  cbn [before_nul]. apply not_elem_of_cons in H0 as [Hc H0].
  destruct (Z.eqb_spec c 0); [congruence|]. by rewrite IH.
Qed.

Lemma utf8_c_string_witness :
  c_string [0x61; 0; 0x62; 0] = Some (Rfc3629.encode [0x61]).
Proof.
  refine (proj1 (utf8_c_string (fun n => Some (replicate (Z.to_nat n) 7)) [0x61; 0; 0x62] _ 3
    _ _ _ _)).
  - intros n b Hn [= <-]. rewrite length_replicate. lia.
  - repeat constructor.
  - by vm_compute.
  - by vm_compute.
Defined.
