(* ===== verification/Format.v ===== *)
(** * Format: the part of [snprintf] the code uses

    [%d] of an [int], and the truncation [snprintf] makes to the size of its buffer.  Used for
    the peer addresses of TCP ports and the texts of unknown error codes. *)

From S2P Require Import Prelude.

(** The decimal digits of a natural number, most significant first, as ASCII codes. *)
Fixpoint digits (fuel : nat) (n : Z) : list Z :=
  match fuel with
  | O => []
  | S fuel => if n <? 10 then [48 + n] else digits fuel (n / 10) ++ [48 + n mod 10]
  end.

(** [%d]; ten digits are enough for an [int]. *)
Definition format_d (z : Z) : list Z :=
  if z <? 0 then 45 :: digits 10 (- z) else digits 10 z.

(** What [snprintf (buf, size, ...)] leaves in [buf] before its NUL when the formatted text is
    [text]. *)
Definition snprintf (size : Z) (text : list Z) : list Z := take (Z.to_nat (size - 1)) text.

(** The text was not cut. *)
Definition fits (size : Z) (text : list Z) : bool := Z.of_nat (length text) <? size.

Lemma snprintf_fits size text : fits size text = true -> snprintf size text = text.
Proof. unfold fits, snprintf. intros H. apply Z.ltb_lt in H. apply take_ge. lia. Qed.

(** ** Reading a number back *)

Definition digit_value (acc c : Z) : Z := 10 * acc + (c - 48).
Definition read_digits (l : list Z) : Z := fold_left digit_value l 0.
Definition read_d (l : list Z) : Z :=
  match l with 45 :: l => - read_digits l | l => read_digits l end.

Lemma read_digits_snoc l c : read_digits (l ++ [c]) = 10 * read_digits l + (c - 48).
Proof. unfold read_digits. by rewrite fold_left_app. Qed.

Lemma digits_spec fuel : forall n, 0 <= n < 10 ^ Z.of_nat fuel ->
  read_digits (digits fuel n) = n /\ Forall (fun c => 48 <= c <= 57) (digits fuel n) /\
  (length (digits fuel n) <= fuel)%nat /\ (0 < fuel -> 0 < length (digits fuel n))%nat.
Proof.
  induction fuel as [|fuel IH]; intros n Hn.
  - cbn in Hn |- *. split; [lia|]. split; [done|]. lia.
  - cbn [digits]. rewrite Nat2Z.inj_succ, Z.pow_succ_r in Hn by lia.
    destruct (Z.ltb_spec n 10).
    + split; [cbv [read_digits fold_left digit_value]; lia|].
      split; [apply Forall_singleton; lia|]. cbn. lia.
    + destruct (IH (n / 10)) as (H1 & H2 & H3 & H4).
      { split; [apply Z.div_pos; lia|]. apply Z.div_lt_upper_bound; lia. }
      rewrite read_digits_snoc, H1, length_app. cbn [length].
      pose proof (Z.div_mod n 10). pose proof (Z.mod_pos_bound n 10).
      split; [lia|]. split; [|lia]. apply Forall_app. split; [done|].
      apply Forall_singleton. lia.
Qed.

(** The length of a number of at most [k] digits. *)
Lemma length_digits fuel : forall k n, (0 < k <= fuel)%nat -> 0 <= n < 10 ^ Z.of_nat k ->
  (length (digits fuel n) <= k)%nat.
Proof.
  induction fuel as [|fuel IH]; intros k n Hk Hn; [lia|].
  cbn [digits]. destruct (Z.ltb_spec n 10); [cbn; lia|].
  destruct k as [|[|k]]; [lia|cbn in Hn; lia|].
  rewrite length_app. cbn [length]. rewrite Nat2Z.inj_succ, Z.pow_succ_r in Hn by lia.
  specialize (IH (S k) (n / 10)). rewrite Nat.add_1_r. apply le_n_S, IH; [lia|].
  split; [apply Z.div_pos; lia|]. apply Z.div_lt_upper_bound; lia.
Qed.

Lemma format_d_spec z : is_sint 32 z ->
  read_d (format_d z) = z /\ (1 <= length (format_d z) <= 11)%nat /\
  Forall (fun c => c <> 0) (format_d z).
Proof.
  intros Hz. unfold format_d. destruct (Z.ltb_spec z 0).
  - destruct (digits_spec 10 (- z)) as (H1 & H2 & H3 & H4); [width_lia|].
    cbn [read_d length]. split; [lia|]. split; [lia|]. constructor; [lia|].
    eapply Forall_impl; [exact H2|]. intros. cbn in *. lia.
  - destruct (digits_spec 10 z) as (H1 & H2 & H3 & H4); [width_lia|].
    split; [|split; [lia|]].
    + unfold read_d. destruct (digits 10 z) as [|c l] eqn:E; [done|].
      apply Forall_cons in H2 as [Hc _]. rewrite <- H1. destruct c as [|c|c]; try done.
      repeat (destruct c as [c|c|]; try done; try lia).
    + eapply Forall_impl; [exact H2|]. intros. cbn in *. lia.
Qed.
