(* ===== verification/Errors.v ===== *)
(** * Errors: error numbers and their texts

    The error codes of uv.h the code names; the translation of SQLite result codes (osi.h lines
    141-224) and [osi_get_error_text] (osi.c lines 1315-1325).  The texts of the libuv errors
    come from uv.h and are a parameter. *)

From S2P Require Export Prelude.
From S2P Require Import Format.

(** The error codes of uv.h the code names (their Unix values). *)
Definition UV_ENOMEM : Z := -12.
Definition UV_EINVAL : Z := -22.
Definition UV_EBUSY : Z := -16.
Definition UV_EPERM : Z := -1.
Definition UV_EOF : Z := -4095.
Definition UV_EAI_FAMILY : Z := -3005.

(** ** SQLite result codes *)

Definition TRANSLATE_SQLITE_ERRNO (x : Z) : Z := - (6000000 + x).

(** The names of the list, with their values in sqlite3.h. *)
Definition SQLITE_ERRNO_MAP : list (string * Z) :=
  [("SQLITE_ERROR", 1); ("SQLITE_INTERNAL", 2); ("SQLITE_PERM", 3); ("SQLITE_ABORT", 4);
   ("SQLITE_ABORT_ROLLBACK", 516); ("SQLITE_BUSY", 5); ("SQLITE_BUSY_RECOVERY", 261);
   ("SQLITE_BUSY_SNAPSHOT", 517); ("SQLITE_LOCKED", 6); ("SQLITE_LOCKED_SHAREDCACHE", 262);
   ("SQLITE_NOMEM", 7); ("SQLITE_READONLY", 8); ("SQLITE_READONLY_RECOVERY", 264);
   ("SQLITE_READONLY_CANTLOCK", 520); ("SQLITE_READONLY_ROLLBACK", 776);
   ("SQLITE_READONLY_DBMOVED", 1032); ("SQLITE_INTERRUPT", 9); ("SQLITE_IOERR", 10);
   ("SQLITE_IOERR_READ", 266); ("SQLITE_IOERR_SHORT_READ", 522); ("SQLITE_IOERR_WRITE", 778);
   ("SQLITE_IOERR_FSYNC", 1034); ("SQLITE_IOERR_DIR_FSYNC", 1290);
   ("SQLITE_IOERR_TRUNCATE", 1546); ("SQLITE_IOERR_FSTAT", 1802);
   ("SQLITE_IOERR_UNLOCK", 2058); ("SQLITE_IOERR_RDLOCK", 2314); ("SQLITE_IOERR_DELETE", 2570);
   ("SQLITE_IOERR_NOMEM", 3082); ("SQLITE_IOERR_ACCESS", 3338);
   ("SQLITE_IOERR_CHECKRESERVEDLOCK", 3594); ("SQLITE_IOERR_LOCK", 3850);
   ("SQLITE_IOERR_CLOSE", 4106); ("SQLITE_IOERR_DIR_CLOSE", 4362);
   ("SQLITE_IOERR_SHMOPEN", 4618); ("SQLITE_IOERR_SHMSIZE", 4874);
   ("SQLITE_IOERR_SHMLOCK", 5130); ("SQLITE_IOERR_SHMMAP", 5386); ("SQLITE_IOERR_SEEK", 5642);
   ("SQLITE_IOERR_DELETE_NOENT", 5898); ("SQLITE_IOERR_MMAP", 6154);
   ("SQLITE_IOERR_GETTEMPPATH", 6410); ("SQLITE_IOERR_CONVPATH", 6666); ("SQLITE_CORRUPT", 11);
   ("SQLITE_CORRUPT_VTAB", 267); ("SQLITE_NOTFOUND", 12); ("SQLITE_FULL", 13);
   ("SQLITE_CANTOPEN", 14); ("SQLITE_CANTOPEN_NOTEMPDIR", 270); ("SQLITE_CANTOPEN_ISDIR", 526);
   ("SQLITE_CANTOPEN_FULLPATH", 782); ("SQLITE_CANTOPEN_CONVPATH", 1038);
   ("SQLITE_PROTOCOL", 15); ("SQLITE_EMPTY", 16); ("SQLITE_SCHEMA", 17); ("SQLITE_TOOBIG", 18);
   ("SQLITE_CONSTRAINT", 19); ("SQLITE_CONSTRAINT_UNIQUE", 2067);
   ("SQLITE_CONSTRAINT_TRIGGER", 1811); ("SQLITE_CONSTRAINT_FOREIGNKEY", 787);
   ("SQLITE_CONSTRAINT_CHECK", 275); ("SQLITE_CONSTRAINT_PRIMARYKEY", 1555);
   ("SQLITE_CONSTRAINT_NOTNULL", 1299); ("SQLITE_CONSTRAINT_COMMITHOOK", 531);
   ("SQLITE_CONSTRAINT_VTAB", 2323); ("SQLITE_CONSTRAINT_FUNCTION", 1043);
   ("SQLITE_CONSTRAINT_ROWID", 2579); ("SQLITE_MISMATCH", 20); ("SQLITE_MISUSE", 21);
   ("SQLITE_NOLFS", 22); ("SQLITE_AUTH", 23); ("SQLITE_FORMAT", 24); ("SQLITE_RANGE", 25);
   ("SQLITE_NOTADB", 26); ("SQLITE_ROW", 100); ("SQLITE_NOTICE", 27);
   ("SQLITE_NOTICE_RECOVER_WAL", 283); ("SQLITE_NOTICE_RECOVER_ROLLBACK", 539);
   ("SQLITE_WARNING", 28); ("SQLITE_WARNING_AUTOINDEX", 284); ("SQLITE_DONE", 101)]%string.

Definition SQLITE_OK : Z := 0.
Definition SQLITE_NOMEM : Z := 7.
Definition SQLITE_TOOBIG : Z := 18.
Definition SQLITE_ROW : Z := 100.
Definition SQLITE_DONE : Z := 101.

(** ** Texts *)

(** The bytes of a literal. *)
Fixpoint chars (s : string) : list Z :=
  match s with
  | EmptyString => []
  | String c s => Z.of_N (Ascii.N_of_ascii c) :: chars s
  end.

(** The name of a translated code: the cases of the [switch]. *)
Fixpoint find_code (err : Z) (l : list (string * Z)) : option string :=
  match l with
  | [] => None
  | (name, code) :: l => if TRANSLATE_SQLITE_ERRNO code =? err then Some name else find_code err l
  end.
Definition sqlite_strerror (err : Z) : option string := find_code err SQLITE_ERRNO_MAP.

Section text.
(** The messages of [UV_ERRNO_MAP]. *)
Variable uv_strerror : Z -> option (list Z).

Definition osi_get_error_text (err : Z) : list Z :=
  match uv_strerror err with
  | Some msg => msg
  | None =>
    match sqlite_strerror err with
    | Some name => chars name
    | None => snprintf 32 (chars "Error code " ++ format_d err)
    end
  end.
End text.

(** ** Properties *)

Lemma chars_inj s : forall t, chars s = chars t -> s = t.
Proof.
  induction s as [|c s IH]; intros [|d t]; cbn [chars]; try done.
  intros [= H1 H2%IH]. f_equal; [|done].
  apply (f_equal Z.to_N) in H1. rewrite !N2Z.id in H1.
  apply (f_equal Ascii.ascii_of_N) in H1. by rewrite !Ascii.ascii_N_embedding in H1.
Qed.

Lemma find_code_Some err l name :
  find_code err l = Some name -> exists code, (name, code) ∈ l /\ err = TRANSLATE_SQLITE_ERRNO code.
Proof.
  induction l as [|[n c] l IH]; cbn [find_code]; [done|].
  destruct (Z.eqb_spec (TRANSLATE_SQLITE_ERRNO c) err) as [<-|].
  - intros [= ->]. exists c. split; [apply elem_of_cons; by left|done].
  - intros (code & Hin & ->)%IH. exists code. split; [apply elem_of_cons; by right|done].
Qed.

(** No name and no code is listed twice. *)
Lemma names_distinct : NoDup SQLITE_ERRNO_MAP.*1.
Proof. apply (bool_decide_unpack _). vm_compute. exact I. Qed.
Lemma codes_distinct : NoDup SQLITE_ERRNO_MAP.*2.
Proof. apply (bool_decide_unpack _). vm_compute. exact I. Qed.

Lemma find_code_complete l name code :
  NoDup l.*2 -> (name, code) ∈ l -> find_code (TRANSLATE_SQLITE_ERRNO code) l = Some name.
Proof.
  induction l as [|[n c] l IH]; cbn [find_code]; [by intros _ ?%elem_of_nil|].
  rewrite fmap_cons, NoDup_cons. intros [Hn Hd] [[= -> ->]|Hin]%elem_of_cons.
  - by rewrite Z.eqb_refl.
  - destruct (Z.eqb_spec (TRANSLATE_SQLITE_ERRNO c) (TRANSLATE_SQLITE_ERRNO code)) as [E|]; [|auto].
    unfold TRANSLATE_SQLITE_ERRNO in E. assert (c = code) as -> by lia.
    destruct Hn. by apply (list_elem_of_fmap_2' _ _ (name, code)).
Qed.

(** Names start with an S, the text of an unknown code with an E. *)
Lemma names_start l name code :
  Forall (fun x : string * Z => head (chars (fst x)) = Some 83) l -> (name, code) ∈ l -> head (chars name) = Some 83.
Proof. intros Hl Hin. rewrite Forall_forall in Hl. by apply (Hl (name, code)). Qed.
Lemma all_names_start : Forall (fun x : string * Z => head (chars (fst x)) = Some 83) SQLITE_ERRNO_MAP.
Proof. apply (bool_decide_unpack _). vm_compute. exact I. Qed.

Lemma unknown_text err : is_sint 32 err ->
  snprintf 32 (chars "Error code " ++ format_d err) = chars "Error code " ++ format_d err.
Proof.
  intros He. destruct (format_d_spec err He) as (_ & [_ Hlen] & _).
  apply snprintf_fits. unfold fits. apply Z.ltb_lt. rewrite length_app. cbn [chars length]. lia.
Qed.

(** Theorem: the text of an error identifies it: every listed SQLite code has its name, any other
    number that is not a libuv error is printed in full in the 32 bytes of the buffer, and no two
    such numbers have the same text. *)
Theorem error_text_identifies uv_strerror :
  (forall err, is_Some (uv_strerror err) -> -5000 <= err < 0) ->
  (forall name code, (name, code) ∈ SQLITE_ERRNO_MAP ->
     osi_get_error_text uv_strerror (TRANSLATE_SQLITE_ERRNO code) = chars name) /\
  forall e1 e2, is_sint 32 e1 -> is_sint 32 e2 -> uv_strerror e1 = None -> uv_strerror e2 = None ->
    osi_get_error_text uv_strerror e1 = osi_get_error_text uv_strerror e2 -> e1 = e2.
Proof.
  intros Huv. split.
  - intros name code Hin. unfold osi_get_error_text.
    assert (0 <= code) as Hc.
    { assert (Forall (fun x : string * Z => 0 <= snd x) SQLITE_ERRNO_MAP) as Hall
        by (apply (bool_decide_unpack _); vm_compute; exact I).
      rewrite Forall_forall in Hall. by apply (Hall (name, code)). }
    destruct (uv_strerror _) eqn:E.
    + specialize (Huv _ (mk_is_Some _ _ E)). unfold TRANSLATE_SQLITE_ERRNO in Huv. lia.
    + unfold sqlite_strerror. by rewrite (find_code_complete _ name) by (done || apply codes_distinct).
  - intros e1 e2 H1 H2 N1 N2. unfold osi_get_error_text. rewrite N1, N2.
    destruct (sqlite_strerror e1) as [n1|] eqn:E1, (sqlite_strerror e2) as [n2|] eqn:E2.
    + intros ->%chars_inj. apply find_code_Some in E1 as (c1 & I1 & ->), E2 as (c2 & I2 & ->).
      apply list_elem_of_lookup in I1 as [i I1], I2 as [j I2].
      assert (i = j) as <-.
      { eapply (NoDup_lookup _ _ _ n2 names_distinct); rewrite list_lookup_fmap; [by rewrite I1|by rewrite I2]. }
      rewrite I1 in I2. by injection I2 as <-.
    + rewrite (unknown_text e2) by done. intros Ht. apply find_code_Some in E1 as (c1 & I1 & ->).
      pose proof (names_start _ _ _ all_names_start I1) as Hs. by rewrite Ht in Hs.
    + rewrite (unknown_text e1) by done. intros Ht. apply find_code_Some in E2 as (c2 & I2 & ->).
      pose proof (names_start _ _ _ all_names_start I2) as Hs. by rewrite <- Ht in Hs.
    + rewrite !unknown_text by done. intros Ht%app_inv_head.
      destruct (format_d_spec e1 H1) as [<- _], (format_d_spec e2 H2) as [<- _]. by rewrite Ht.
Qed.

Lemma error_text_identifies_witness :
  osi_get_error_text (fun err => if err =? -12 then Some (chars "not enough memory") else None)
    (TRANSLATE_SQLITE_ERRNO 5) = chars "SQLITE_BUSY".
Proof.
  apply (proj1 (error_text_identifies
    (fun err => if err =? -12 then Some (chars "not enough memory") else None)
    ltac:(intros err; cbv beta; destruct (Z.eqb_spec err (-12)) as [->|]; [lia|intros [? ?]; discriminate]))).
  apply (bool_decide_unpack _). vm_compute. exact I.
Defined.
