(* ===== verification/State.v ===== *)
(** * State: a state monad with failure, and blocks allocated above a bound

    The components that do not share the state of osi.c (the SQLite interface, the start of the
    program) are written in this monad over their own state type; [None] is undefined
    behaviour.  [ok] is its weakest precondition. *)

From S2P Require Export Prelude.

Definition St (S A : Type) : Type := S -> option (A * S).

#[global] Instance St_ret S : MRet (St S) := fun A x s => Some (x, s).
#[global] Instance St_bind S : MBind (St S) := fun A B f m s =>
  match m s with Some (x, s') => f x s' | None => None end.

Definition stuck {S A} : St S A := fun _ => None.
Definition look {S} : St S S := fun s => Some (s, s).
Definition change {S} (f : S -> S) : St S unit := fun s => Some (tt, f s).
Definition assert_ok {S} (b : bool) : St S unit := if b then mret tt else stuck.
(** The value of an optional field or of a lookup. *)
Definition the {S A} (x : option A) : St S A := fun s => y ← x; Some (y, s).

Definition ok {S A} (m : St S A) (s : S) (Q : A -> S -> Prop) : Prop :=
  match m s with Some (x, s') => Q x s' | None => False end.

Section rules.
Context {S : Type}.
Implicit Types (s : S).

Lemma ok_bind {A B} (m : St S A) (k : A -> St S B) s Q :
  ok m s (fun x s' => ok (k x) s' Q) -> ok (m ≫= k) s Q.
Proof. unfold ok, mbind, St_bind. by destruct (m s) as [[x s']|]. Qed.

Lemma ok_ret {A} (x : A) s (Q : A -> S -> Prop) : Q x s -> ok (mret x) s Q.
Proof. done. Qed.

Lemma ok_mono {A} (m : St S A) s (Q R : A -> S -> Prop) :
  ok m s Q -> (forall x s', Q x s' -> R x s') -> ok m s R.
Proof. unfold ok. destruct (m s) as [[x s']|]; auto. Qed.

Lemma ok_result {A} (m : St S A) s Q : ok m s Q -> exists x s', m s = Some (x, s') /\ Q x s'.
Proof. unfold ok. destruct (m s) as [[x s']|]; [|done]. eauto. Qed.

Lemma ok_look s (Q : S -> S -> Prop) : Q s s -> ok look s Q.
Proof. done. Qed.

Lemma ok_change f s (Q : unit -> S -> Prop) : Q tt (f s) -> ok (change f) s Q.
Proof. done. Qed.

Lemma ok_assert b s (Q : unit -> S -> Prop) : b = true -> Q tt s -> ok (assert_ok b) s Q.
Proof. by intros ->. Qed.

Lemma ok_the {A} (x : option A) y s (Q : A -> S -> Prop) : x = Some y -> Q y s -> ok (the x) s Q.
Proof. by intros ->. Qed.
End rules.

(** *** Partial correctness

    [par m s Q]: if the computation runs to the end, it ends as [Q] says.  For invariants of
    runs whose steps are those that have a defined result. *)

Definition par {S A} (m : St S A) (s : S) (Q : A -> S -> Prop) : Prop :=
  match m s with Some (x, s') => Q x s' | None => True end.

Section partial.
Context {S : Type}.
Implicit Types (s : S).

Lemma par_bind {A B} (m : St S A) (k : A -> St S B) s Q :
  par m s (fun x s' => par (k x) s' Q) -> par (m ≫= k) s Q.
Proof. unfold par, mbind, St_bind. by destruct (m s) as [[x s']|]. Qed.

Lemma par_ret {A} (x : A) s (Q : A -> S -> Prop) : Q x s -> par (mret x) s Q.
Proof. done. Qed.

Lemma par_mono {A} (m : St S A) s (Q R : A -> S -> Prop) :
  par m s Q -> (forall x s', Q x s' -> R x s') -> par m s R.
Proof. unfold par. destruct (m s) as [[x s']|]; auto. Qed.

Lemma par_stuck {A} s (Q : A -> S -> Prop) : par stuck s Q.
Proof. done. Qed.

Lemma par_look s (Q : S -> S -> Prop) : Q s s -> par look s Q.
Proof. done. Qed.

Lemma par_change f s (Q : unit -> S -> Prop) : Q tt (f s) -> par (change f) s Q.
Proof. done. Qed.

Lemma par_assert b s (Q : unit -> S -> Prop) : (b = true -> Q tt s) -> par (assert_ok b) s Q.
Proof. destruct b; [by intros HQ; apply HQ|done]. Qed.

Lemma par_the {A} (x : option A) s (Q : A -> S -> Prop) : (forall y, x = Some y -> Q y s) -> par (the x) s Q.
Proof. destruct x; [by intros HQ; apply HQ|done]. Qed.

Lemma par_run {A} (m : St S A) s Q x s' : par m s Q -> m s = Some (x, s') -> Q x s'.
Proof. unfold par. intros H E. by rewrite E in H. Qed.
End partial.

(** ** Records in memory

    Reading and writing the fields of a record at an address; a field that was never written is
    [None]. *)
Section fields.
Context {K E : Type} `{Countable K}.

Definition get_field {A} (field : E -> option A) (x : K) : St (gmap K E) A :=
  h ← look; e ← the (h !! x); the (field e).
Definition put_field (f : E -> E) (x : K) : St (gmap K E) unit :=
  h ← look; e ← the (h !! x); change <[x := f e]>.

Lemma ok_get_field {A} (field : E -> option A) (x : K) (h : gmap K E) (e : E) (a : A) (Q : A -> gmap K E -> Prop) :
  h !! x = Some e -> field e = Some a -> Q a h -> ok (get_field field x) h Q.
Proof. intros Hx Ha HQ. unfold get_field. apply ok_bind, ok_look, ok_bind, ok_the with e; [done|]. by apply ok_the with a. Qed.

Lemma ok_put_field (f : E -> E) (x : K) (h : gmap K E) (e : E) (Q : unit -> gmap K E -> Prop) :
  h !! x = Some e -> Q () (<[x := f e]> h) -> ok (put_field f x) h Q.
Proof. intros Hx HQ. unfold put_field. by apply ok_bind, ok_look, ok_bind, ok_the with e. Qed.

(** The records at [ls] may have changed, none are allocated or freed. *)
Definition changes (ls : list K) (h h' : gmap K E) : Prop :=
  (dom h' : gset K) = dom h /\ forall x : K, x ∉ ls -> h' !! x = h !! x.

Lemma changes_refl (ls : list K) (h : gmap K E) : changes ls h h.
Proof. done. Qed.

Lemma changes_trans (ls : list K) (h1 h2 h3 : gmap K E) : changes ls h1 h2 -> changes ls h2 h3 -> changes ls h1 h3.
Proof. intros [Hd1 H1] [Hd2 H2]. split; [congruence|]. intros x Hx. rewrite H2, H1; done. Qed.

Lemma changes_mono (ls ls' : list K) (h h' : gmap K E) : ls ⊆ ls' -> changes ls h h' -> changes ls' h h'.
Proof. intros Hsub [Hd Hl]. split; [done|]. intros x Hx. apply Hl. intros ?. by apply Hx, Hsub. Qed.

Lemma changes_insert (x : K) (e e' : E) (h : gmap K E) : h !! x = Some e -> changes [x] h (<[x := e']> h).
Proof.
  intros Hx. split.
  - by apply dom_insert_lookup_L.
  - intros y Hy. rewrite lookup_insert_ne; [done|]. intros ->. by apply Hy, list_elem_of_singleton.
Qed.

Lemma changes_insert_in (ls : list K) (h h1 : gmap K E) (x : K) (e e' : E) :
  x ∈ ls -> h1 !! x = Some e -> changes ls h h1 -> changes ls h (<[x := e']> h1).
Proof.
  intros Hx He Hc. eapply changes_trans; [done|]. eapply changes_mono; [|by eapply changes_insert].
  by intros y ->%list_elem_of_singleton.
Qed.

Lemma changes_some (ls : list K) (h h' : gmap K E) (x : K) : changes ls h h' -> is_Some (h' !! x) <-> is_Some (h !! x).
Proof. intros [Hd _]. by rewrite <- !elem_of_dom, Hd. Qed.

(** Addresses of records that exist, each once, are not more than the records. *)
Lemma locs_bound (h : gmap K E) (ls : list K) : NoDup ls -> (forall x : K, x ∈ ls -> is_Some (h !! x)) -> (length ls <= size h)%nat.
Proof.
  intros Hnd Hdom. rewrite <- size_dom, <- (size_list_to_set (C := gset K)) by done.
  apply subseteq_size. intros x Hx%elem_of_list_to_set. apply elem_of_dom. auto.
Qed.
End fields.

(** *** A part of the state *)

(** A computation on the part of the state that [part] reads and [update] writes. *)
Definition on_part {S T A} (part : S -> T) (update : T -> S -> S) (m : St T A) : St S A := fun s =>
  match m (part s) with Some (r, t) => Some (r, update t s) | None => None end.

Lemma ok_on_part {S T A} (part : S -> T) (update : T -> S -> S) (m : St T A) s (Q : A -> S -> Prop) :
  ok m (part s) (fun r t => Q r (update t s)) -> ok (on_part part update m) s Q.
Proof. unfold ok, on_part. by destruct (m (part s)) as [[r t]|]. Qed.

(** ** Blocks allocated above a bound

    [extends n old m l]: below [n] the memory is what it was, and above it the allocated
    addresses are those of [l]. *)
Record extends {B} (n : Z) (old m : gmap Z B) (l : list Z) : Prop := {
  ext_old : forall k, k < n -> m !! k = old !! k;
  ext_new : forall k, n <= k -> is_Some (m !! k) <-> k ∈ l;
  ext_distinct : NoDup l;
  ext_bound : forall k, k ∈ l -> n <= k
}.

(** Nothing is allocated at or above [n]. *)
Definition unused {B} (n : Z) (m : gmap Z B) : Prop := forall k, n <= k -> m !! k = None.

Section extends.
Context {B : Type}.
Implicit Types (m old : gmap Z B).

Lemma extends_nil n m : unused n m -> extends n m m [].
Proof.
  intros Hf. constructor; [done| |apply NoDup_nil_2|by intros k ?%elem_of_nil].
  intros k Hk. rewrite Hf by done. split; [by intros [? ?]|by intros ?%elem_of_nil].
Qed.

Lemma extends_new n old m l k b :
  extends n old m l -> n <= k -> m !! k = None -> extends n old (<[k := b]> m) (k :: l).
Proof.
  intros [H1 H2 H3 H4] Hk Hn. constructor.
  - intros j Hj. rewrite lookup_insert_ne by lia. by apply H1.
  - intros j Hj. rewrite elem_of_cons, <- H2 by done.
    destruct (decide (j = k)) as [->|Hne]; [rewrite lookup_insert_eq; naive_solver|].
    rewrite lookup_insert_ne by congruence. naive_solver.
  - apply NoDup_cons. split; [|done]. intros [c Hc]%H2; [|done]. by rewrite Hn in Hc.
  - intros j [->|Hj]%elem_of_cons; [done|by apply H4].
Qed.

Lemma extends_update n old m l k b :
  extends n old m l -> k ∈ l -> extends n old (<[k := b]> m) l.
Proof.
  intros [H1 H2 H3 H4] Hk. pose proof (H4 k Hk). constructor; try done.
  - intros j Hj. rewrite lookup_insert_ne by lia. by apply H1.
  - intros j Hj. rewrite <- H2 by done. destruct (decide (j = k)) as [->|Hne].
    + rewrite lookup_insert_eq. split; [|done]. intros _. by apply H2.
    + by rewrite lookup_insert_ne by congruence.
Qed.

Lemma extends_delete n old m l k :
  extends n old m (k :: l) -> extends n old (delete k m) l.
Proof.
  intros [H1 H2 H3 H4]. apply NoDup_cons in H3 as [Hk H3].
  pose proof (H4 k ltac:(apply elem_of_cons; by left)) as Hn. constructor; try done.
  - intros j Hj. rewrite lookup_delete_ne by lia. by apply H1.
  - intros j Hj. destruct (decide (j = k)) as [->|Hne].
    + rewrite lookup_delete_eq. split; [by intros [? ?]|done].
    + rewrite lookup_delete_ne by congruence. rewrite H2, elem_of_cons by done. naive_solver.
  - intros j Hj. apply H4, elem_of_cons. by right.
Qed.

Lemma extends_perm n old m l l' : l ≡ₚ l' -> extends n old m l -> extends n old m l'.
Proof.
  intros Hp [H1 H2 H3 H4]. constructor; [done| |by rewrite <- Hp|].
  - intros k Hk. by rewrite H2, Hp.
  - intros k Hk. apply H4. by rewrite Hp.
Qed.

Lemma extends_restored n old m : unused n old -> extends n old m [] -> m = old.
Proof.
  intros Hf [H1 H2 _ _]. apply map_eq. intros k. destruct (Z.lt_ge_cases k n) as [Hk|Hk].
  - by apply H1.
  - rewrite (Hf k Hk). apply eq_None_not_Some. rewrite H2 by done. apply not_elem_of_nil.
Qed.
End extends.
