(* ===== verification/Sqlite.v ===== *)
(** * Sqlite: the state of the SQLite interface

    The structures of sqlite.c (lines 34-101) as blocks of a C heap, the Scheme values it
    exchanges, and the primitive steps: allocation, locks, callbacks and calls of the SQLite
    library.

    The library is a parameter.  What it answers may depend on the whole history of the calls
    made so far, which the state records; so statements about all libraries are statements
    about any behaviour of SQLite, and the history itself tells which calls the code makes and
    in which order. *)

From S2P Require Export Errors State.
From S2P Require Import Utf8.

(** ** Scheme values *)

Inductive datum :=
| Dfalse | Dtrue | Dnil | Dvoid
| Dinteger (z : Z)
| Dflonum (bits : Z)
| Dstring (chars : list Z)
| Dbytevector (bytes : list Z)
| Dsymbol (s : string)
| Dpair (a d : datum)
| Dvector (l : list datum)
| Dobject (o : positive).

Definition error_pair (who : string) (error : Z) : datum := Dpair (Dsymbol who) (Dinteger error).

(** ** The SQLite library *)

(** Values bound to parameters.  With [SQLITE_STATIC] the library keeps the pointer. *)
Inductive bound :=
| Bound_null
| Bound_int64 (i : Z)
| Bound_double (bits : Z)
| Bound_text (static : option Z) (bytes : list Z)
| Bound_blob (static : option Z) (bytes : list Z).

Inductive sqlite_call :=
| Sq_open_v2 (filename : option (list Z)) (flags : Z)
| Sq_extended_errcode (db : Z)
| Sq_extended_result_codes (db onoff : Z)
| Sq_errmsg (db : Z)
| Sq_close (db : Z)
| Sq_prepare_v2 (db : Z) (sql : list Z)
| Sq_finalize (stmt : Z)
| Sq_reset (stmt : Z)
| Sq_step (stmt : Z)
| Sq_clear_bindings (stmt : Z)
| Sq_bind (stmt index : Z) (v : bound)
| Sq_column_count (stmt : Z)
| Sq_column_name (stmt i : Z)
| Sq_column (stmt i : Z)
| Sq_expanded_sql (stmt : Z)
| Sq_last_insert_rowid (db : Z)
| Sq_interrupt (db : Z)
| Sq_status64 (operation resetp : Z).

(** The value of a column, by its type. *)
Inductive column :=
| Col_null
| Col_integer (i : Z)
| Col_float (bits : Z)
| Col_text (bytes : list Z)
| Col_blob (bytes : list Z).

(** What a call answers, given the history that ends with it (newest first): its result code,
    the handle it stores, a text (none when memory is exhausted), a column value, the pair of
    [sqlite3_status64]. *)
Class Sqlite := {
  sq_result : list sqlite_call -> Z;
  sq_handle : list sqlite_call -> Z;
  sq_text : list sqlite_call -> option (list Z);
  sq_column : list sqlite_call -> column;
  sq_status : list sqlite_call -> Z * Z
}.

(** The functions of scheme.h the code relies on: [Stry_integer64_value], which an older one does
    not have, [Sinteger64_value] and [Sstring_utf8]. *)
Class Scheme := {
  has_try_int64_value : option (Z -> option Z);
  Sinteger64_value : Z -> Z;
  string_utf8 : list Z -> list Z
}.

(** [Stry_integer64_value], of scheme.h or, without [HAS_TRY_INT64_VALUE], of sqlite.c. *)
Definition try_integer64 `{Scheme} (n : Z) : option Z :=
  match has_try_int64_value with Some f => f n | None => Some (Sinteger64_value n) end.

(** ** The structures *)

(** [type] with the word of the union and the size; fields not written are [None]. *)
Record binding_t := mkBinding { type : Z; word : option Z; size : option Z }.

Record statement_t := mkStatement {
  st_stmt : Z; st_database : Z; st_prev : Z; st_next : Z
}.

Inductive work := Close_worker | Prepare_worker | Step_worker | Bulk_worker.
Inductive uv_async_cb := Close_cb | Prepare_cb | Step_cb | Bulk_cb.

(** Where the thread of a database is: not created, at its first [uv_mutex_lock], at the top of
    the loop, running a work function, back from it, past [uv_async_send], in [uv_cond_wait],
    woken from it, and gone.  It holds the mutex at the top of the loop and past
    [uv_async_send]. *)
Inductive worker :=
| NoThread | Starting | Looking | Working (w : work) | Returned (w : work) | Sent (w : work)
| Waiting | Woken | Gone.

(** The union of [sql], [stmt] and [bulk]. *)
Inductive payload := Sql (a : Z) | Stmt (z : Z) | BulkReq (a : Z).

Inductive async_state := NotInitialized | Active | Closing.

Inductive mutex_state := NoMutex | Unlocked | Locked.

(** [cond] tells whether the condition variable exists. *)
Record database_t := mkDatabase {
  db : Z;
  statement : Z;
  mutex : mutex_state;
  cond : bool;
  thread : worker;
  async : async_state;
  async_data : option uv_async_cb;
  async_sent : bool;
  busy : bool;
  db_work : option work;
  db_callback : datum;
  request : payload;
  sql_len : Z;
  sqlite_rc : Z
}.

Record bulk_t := mkBulk {
  count : Z; bulk_statements : Z; bulk_mbindings : Z; who : option string
}.

Inductive queued := NotQueued | Queued | Worked.

Record open_req_t := mkOpenReq {
  req_state : queued;
  filename : Z;
  flags : Z;
  req_callback : datum;
  req_db : Z;
  req_rc : Z
}.

Inductive block :=
| Bytes (l : list Z)
| Bindings (l : list (option binding_t))
| Statement (s : statement_t)
| Database (d : database_t)
| Bulk (b : bulk_t)
| Pointers (l : list (option Z))
| OpenReq (r : open_req_t).

Record sq_state := mkSq {
  blocks : gmap Z block;
  fresh : Z;
  history : list sqlite_call;
  locks : gmultiset positive;
  callbacks : list (datum * datum);
  answers : nat -> Z;
  ticks : nat
}.

Definition set_blocks m s :=
  mkSq m (fresh s) (history s) (locks s) (callbacks s) (answers s) (ticks s).
Definition set_fresh n s :=
  mkSq (blocks s) n (history s) (locks s) (callbacks s) (answers s) (ticks s).
Definition set_history h s :=
  mkSq (blocks s) (fresh s) h (locks s) (callbacks s) (answers s) (ticks s).
Definition set_locks l s :=
  mkSq (blocks s) (fresh s) (history s) l (callbacks s) (answers s) (ticks s).
Definition set_callbacks l s :=
  mkSq (blocks s) (fresh s) (history s) (locks s) l (answers s) (ticks s).
Definition set_ticks n s :=
  mkSq (blocks s) (fresh s) (history s) (locks s) (callbacks s) (answers s) n.

Notation D := (St sq_state).

(** ** Primitive steps *)

Definition ask : D Z := fun s => Some (answers s (ticks s), set_ticks (S (ticks s)) s).
Definition uv_result : D Z := z ← ask; mret (Z.min 0 z).

(** [malloc] gives 0 when memory is exhausted. *)
Definition malloc (b : block) : D Z :=
  z ← ask;
  if z =? 0 then mret 0 else
  s ← look;
  _ ← change (fun s => set_fresh (fresh s + 1) (set_blocks (<[fresh s := b]> (blocks s)) s));
  mret (fresh s).

Definition load (a : Z) : D block := s ← look; the (blocks s !! a).

(** The C type of a block.  A store keeps it, and a [free] is given the one the pointer has. *)
Inductive kind := KBytes | KBindings | KStatement | KDatabase | KBulk | KPointers | KOpenReq.
#[global] Instance kind_eq : EqDecision kind.
Proof. solve_decision. Defined.
Definition kind_of (b : block) : kind :=
  match b with
  | Bytes _ => KBytes | Bindings _ => KBindings | Statement _ => KStatement
  | Database _ => KDatabase | Bulk _ => KBulk | Pointers _ => KPointers | OpenReq _ => KOpenReq
  end.

Definition store (a : Z) (b : block) : D unit :=
  c ← load a;
  _ ← assert_ok (bool_decide (kind_of c = kind_of b));
  change (fun s => set_blocks (<[a := b]> (blocks s)) s).
(** A database block may be freed when nothing of libuv lives in it. *)
Definition quiet (b : block) : bool :=
  match b with
  | Database d =>
    match async d, mutex d, cond d, thread d with
    | NotInitialized, NoMutex, false, (NoThread | Gone) => true
    | _, _, _, _ => false
    end
  | OpenReq r => match req_state r with Queued => false | _ => true end
  | _ => true
  end.
Definition free (k : kind) (a : Z) : D unit :=
  b ← load a;
  _ ← assert_ok (bool_decide (kind_of b = k) && quiet b);
  change (fun s => set_blocks (delete a (blocks s)) s).

Definition load_bytes (a : Z) : D (list Z) :=
  b ← load a; match b with Bytes l => mret l | _ => stuck end.
Definition load_bindings (a : Z) : D (list (option binding_t)) :=
  b ← load a; match b with Bindings l => mret l | _ => stuck end.
Definition load_statement (a : Z) : D statement_t :=
  b ← load a; match b with Statement x => mret x | _ => stuck end.
Definition load_database (a : Z) : D database_t :=
  b ← load a; match b with Database d => mret d | _ => stuck end.
Definition load_bulk (a : Z) : D bulk_t :=
  b ← load a; match b with Bulk x => mret x | _ => stuck end.
Definition load_pointers (a : Z) : D (list (option Z)) :=
  b ← load a; match b with Pointers l => mret l | _ => stuck end.
Definition load_open_req (a : Z) : D open_req_t :=
  b ← load a; match b with OpenReq r => mret r | _ => stuck end.
Definition update_database (a : Z) (f : database_t -> database_t) : D unit :=
  d ← load_database a; store a (Database (f d)).
Definition update_statement (a : Z) (f : statement_t -> statement_t) : D unit :=
  x ← load_statement a; store a (Statement (f x)).

Definition lk (x : datum) : gmultiset positive :=
  match x with Dobject o => {[+ o +]} | _ => ∅ end.
Definition Slock_object (x : datum) : D unit := change (fun s => set_locks (locks s ⊎ lk x) s).
Definition Sunlock_object (x : datum) : D unit :=
  s ← look;
  _ ← assert_ok (bool_decide (lk x ⊆ locks s));
  change (fun s => set_locks (locks s ∖ lk x) s).

(** [osi_add_callback1]. *)
Definition add_callback1 (callback arg : datum) : D unit :=
  change (fun s => set_callbacks ((callback, arg) :: callbacks s) s).

(** [osi_string_to_utf8], with a block for the result: its address and the length, 0 for the
    address when memory is exhausted. *)
Definition string_to_utf8 (chars : list Z) : D (Z * Z) :=
  z ← ask;
  match osi_string_to_utf8
    (fun n => if z =? 0 then None else Some (replicate (Z.to_nat n) 0)) chars with
  | Some (Some bytes, len) =>
    s ← look;
    _ ← change (fun s => set_fresh (fresh s + 1) (set_blocks (<[fresh s := Bytes bytes]> (blocks s)) s));
    mret (fresh s, len)
  | Some (None, len) => mret (0, len)
  | None => stuck
  end.

Section library.
Context {L : Sqlite} {C : Scheme}.

(** A call of the library: the history grows by it. *)
Definition sqlite (c : sqlite_call) : D (list sqlite_call) :=
  _ ← change (fun s => set_history (c :: history s) s);
  s ← look;
  mret (history s).
Definition sqlite_int (c : sqlite_call) : D Z := h ← sqlite c; mret (sq_result h).

Definition make_sqlite_error (who : string) (rc db : Z) : D datum :=
  h ← sqlite (Sq_errmsg db);
  mret (Dpair (Dsymbol who) (Dpair (Dinteger (TRANSLATE_SQLITE_ERRNO rc))
    (Dstring (string_utf8 (default [] (sq_text h)))))).
End library.
