(* ===== verification/Bindings.v ===== *)
(** * Bindings: parameter values copied out of the Scheme heap

    sqlite.c lines 349-513: the SQL type of a value, the marshalling of a list or vector of
    values into a [bindings_t] the worker thread can use, the way back, and the release of the
    copies. *)

From S2P Require Import Utf8.
From S2P Require Export Sqlite.

Definition SQLITE_INTEGER : Z := 1.
Definition SQLITE_FLOAT : Z := 2.
Definition SQLITE_TEXT : Z := 3.
Definition SQLITE_BLOB : Z := 4.
Definition SQLITE_NULL : Z := 5.

Definition scheme_to_sql_type (datum : datum) : Z :=
  match datum with
  | Dfalse => SQLITE_NULL
  | Dinteger _ => SQLITE_INTEGER
  | Dflonum _ => SQLITE_FLOAT
  | Dstring _ => SQLITE_TEXT
  | Dbytevector _ => SQLITE_BLOB
  | _ => -1
  end.

Section bindings.
Context {C : Scheme}.

(** The result code, and what is written through the pointer. *)
Definition set_binding (datum : datum) : D (Z * binding_t) :=
  let type := scheme_to_sql_type datum in
  match datum with
  | Dfalse => mret (0, mkBinding type None None)
  | Dinteger n =>
    match try_integer64 n with
    | None => mret (UV_EINVAL, mkBinding type None None)
    | Some val => mret (0, mkBinding type (Some val) None)
    end
  | Dflonum bits => mret (0, mkBinding type (Some bits) None)
  | Dstring chars =>
    '(utf8, len) ← string_to_utf8 chars;
    mret (if utf8 =? 0 then UV_ENOMEM else 0, mkBinding type (Some utf8) (Some len))
  | Dbytevector bytes =>
    let size := Z.of_nat (length bytes) in
    blob ← malloc (Bytes bytes);
    if blob =? 0 then mret (UV_ENOMEM, mkBinding type None (Some size))
    else mret (0, mkBinding type (Some blob) (Some size))
  | _ => mret (UV_EINVAL, mkBinding type None None)
  end.

(** [len] bytes of a block. *)
Definition read_bytes (a len : Z) : D (list Z) :=
  l ← load_bytes a;
  _ ← assert_ok ((0 <=? len) && (len <=? Z.of_nat (length l)));
  mret (take (Z.to_nat len) l).

Definition get_binding (b : binding_t) : D datum :=
  if type b =? SQLITE_NULL then mret Dfalse
  else if type b =? SQLITE_INTEGER then i ← the (word b); mret (Dinteger i)
  else if type b =? SQLITE_FLOAT then d ← the (word b); mret (Dflonum d)
  else if type b =? SQLITE_TEXT then
    utf8 ← the (word b);
    size ← the (size b);
    l ← read_bytes utf8 size;
    mret (Dstring (string_utf8 l))
  else if type b =? SQLITE_BLOB then
    blob ← the (word b);
    size ← the (size b);
    l ← read_bytes blob size;
    mret (Dbytevector l)
  else mret (error_pair "osi_get_binding" UV_EINVAL).

Definition Spairp (x : datum) : bool := match x with Dpair _ _ => true | _ => false end.

(** The loop of [osi_get_bindings]: it stops at an error pair. *)
Fixpoint get_loop (l : list (option binding_t)) : D (datum + list datum) :=
  match l with
  | [] => mret (inr [])
  | b :: l =>
    b ← the b;
    x ← get_binding b;
    if Spairp x then mret (inl x) else
    r ← get_loop l;
    match r with inl e => mret (inl e) | inr v => mret (inr (x :: v)) end
  end.

Definition osi_get_bindings (mbindings : Z) : D datum :=
  if mbindings =? 0 then mret (Dvector []) else
  l ← load_bindings mbindings;
  r ← get_loop l;
  match r with inl e => mret e | inr v => mret (Dvector v) end.

(** A [free] of the copy, after which its pointer is cleared. *)
Definition free_binding (b : binding_t) : D binding_t :=
  if (type b =? SQLITE_TEXT) || (type b =? SQLITE_BLOB) then
    a ← the (word b);
    if a =? 0 then mret b
    else _ ← free KBytes a; mret (mkBinding (type b) (Some 0) (size b))
  else mret b.

(** [free_binding (&mbindings->bindings[j])] for the first [n] entries from [j] on. *)
Definition free_entry (mbindings : Z) (j : nat) : D unit :=
  l ← load_bindings mbindings;
  b ← the (mjoin (l !! j));
  b ← free_binding b;
  l ← load_bindings mbindings;
  store mbindings (Bindings (<[j := Some b]> l)).
Fixpoint free_entries (mbindings : Z) (j n : nat) : D unit :=
  match n with
  | O => mret tt
  | S n => _ ← free_entry mbindings j; free_entries mbindings (S j) n
  end.

(** The loop that fills the array, from entry [i] on; a failure releases the entries before. *)
Fixpoint marshal_loop (mbindings : Z) (i : nat) (data : list datum) : D datum :=
  match data with
  | [] => mret (Dinteger mbindings)
  | datum :: data =>
    '(rc, b) ← set_binding datum;
    l ← load_bindings mbindings;
    _ ← store mbindings (Bindings (<[i := Some b]> l));
    if negb (rc =? 0) then
      _ ← free_entries mbindings 0 i;
      _ ← free KBindings mbindings;
      mret (error_pair "osi_marshal_bindings" rc)
    else marshal_loop mbindings (S i) data
  end.

(** The elements of a list; walking an improper one has no defined behaviour. *)
Fixpoint list_items (x : datum) : option (list datum) :=
  match x with
  | Dnil => Some []
  | Dpair a d => l ← list_items d; Some (a :: l)
  | _ => None
  end.

(** The common part of the two cases; the number of elements is an [int]. *)
Definition marshal_items (data : list datum) : D datum :=
  _ ← assert_ok (Z.of_nat (length data) <? 2 ^ 31);
  match data with
  | [] => mret (Dinteger 0)
  | _ =>
    mbindings ← malloc (Bindings (replicate (length data) None));
    if mbindings =? 0 then mret (error_pair "osi_marshal_bindings" UV_ENOMEM)
    else marshal_loop mbindings 0 data
  end.

Definition osi_marshal_bindings (bindings : datum) : D datum :=
  match bindings with
  | Dnil | Dpair _ _ => data ← the (list_items bindings); marshal_items data
  | Dvector data => marshal_items data
  | _ => mret (error_pair "osi_marshal_bindings" UV_EINVAL)
  end.

Definition osi_unmarshal_bindings (mbindings : Z) : D datum :=
  if mbindings =? 0 then mret Dtrue else
  l ← load_bindings mbindings;
  _ ← free_entries mbindings 0 (length l);
  _ ← free KBindings mbindings;
  mret Dtrue.
End bindings.

(** ** Specifications *)

(** What a binding that holds a copy of [x] is, with its copy in memory. *)
Definition stored `{Scheme} (m : gmap Z block) (b : binding_t) (x : datum) : Prop :=
  match x with
  | Dfalse => b = mkBinding SQLITE_NULL None None
  | Dinteger n => exists v, try_integer64 n = Some v /\ b = mkBinding SQLITE_INTEGER (Some v) None
  | Dflonum bits => b = mkBinding SQLITE_FLOAT (Some bits) None
  | Dstring s => exists a, a <> 0 /\
      b = mkBinding SQLITE_TEXT (Some a) (Some (Z.of_nat (length (Rfc3629.encode s)))) /\
      m !! a = Some (Bytes (Rfc3629.encode s ++ [0]))
  | Dbytevector l => exists a, a <> 0 /\
      b = mkBinding SQLITE_BLOB (Some a) (Some (Z.of_nat (length l))) /\ m !! a = Some (Bytes l)
  | _ => False
  end.

(** The block of the copy. *)
Definition copies (b : binding_t) : list Z :=
  if (type b =? SQLITE_TEXT) || (type b =? SQLITE_BLOB) then option_list (word b) else [].

(** The values SQLite has no type for, and the integers that do not fit. *)
Definition unsupported `{Scheme} (x : datum) : Prop :=
  match x with
  | Dfalse | Dflonum _ | Dstring _ | Dbytevector _ => False
  | Dinteger n => try_integer64 n = None
  | _ => True
  end.

Definition valid_datum (x : datum) : Prop :=
  match x with Dstring s => valid_string s | _ => True end.

(** The parts of the state memory operations leave alone. *)
Record memory_only (s s' : sq_state) : Prop := {
  mo_history : history s' = history s;
  mo_locks : locks s' = locks s;
  mo_callbacks : callbacks s' = callbacks s;
  mo_answers : answers s' = answers s;
  mo_fresh : fresh s <= fresh s';
  mo_ticks : (ticks s <= ticks s')%nat
}.

(** A [malloc] failed. *)
Definition exhausted (s s' : sq_state) : Prop :=
  exists k, (ticks s <= k < ticks s')%nat /\ answers s k = 0.

Definition sane (s : sq_state) : Prop := 0 < fresh s /\ unused (fresh s) (blocks s).

Lemma memory_only_refl s : memory_only s s.
Proof. by constructor. Qed.
Lemma memory_only_trans s1 s2 s3 : memory_only s1 s2 -> memory_only s2 s3 -> memory_only s1 s3.
Proof. intros [] []. constructor; try congruence; lia. Qed.

Lemma ok_malloc s b (Q : Z -> sq_state -> Prop) :
  (answers s (ticks s) = 0 -> Q 0 (set_ticks (S (ticks s)) s)) ->
  (answers s (ticks s) <> 0 -> Q (fresh s) (set_ticks (S (ticks s))
    (set_fresh (fresh s + 1) (set_blocks (<[fresh s := b]> (blocks s)) s)))) ->
  ok (malloc b) s Q.
Proof.
  intros H1 H2. unfold malloc. apply ok_bind. cbn.
  destruct (Z.eqb_spec (answers s (ticks s)) 0); [by apply H1|by apply H2].
Qed.

Lemma ok_load s a b (Q : block -> sq_state -> Prop) :
  blocks s !! a = Some b -> Q b s -> ok (load a) s Q.
Proof. intros Ha HQ. apply ok_bind, ok_look. by eapply ok_the. Qed.

Lemma ok_store s a b c (Q : unit -> sq_state -> Prop) :
  blocks s !! a = Some b -> kind_of b = kind_of c ->
  Q tt (set_blocks (<[a := c]> (blocks s)) s) -> ok (store a c) s Q.
Proof.
  intros Ha Hk HQ. apply ok_bind. eapply ok_load; [exact Ha|].
  apply ok_bind, ok_assert; [by apply bool_decide_eq_true_2|]. by apply ok_change.
Qed.

Lemma ok_free s k a b (Q : unit -> sq_state -> Prop) :
  blocks s !! a = Some b -> kind_of b = k -> quiet b = true ->
  Q tt (set_blocks (delete a (blocks s)) s) -> ok (free k a) s Q.
Proof.
  intros Ha Hk Hq HQ. apply ok_bind. eapply ok_load; [exact Ha|].
  apply ok_bind, ok_assert; [by rewrite bool_decide_eq_true_2, Hq|]. by apply ok_change.
Qed.

Lemma ok_load_bytes s a l (Q : list Z -> sq_state -> Prop) :
  blocks s !! a = Some (Bytes l) -> Q l s -> ok (load_bytes a) s Q.
Proof. intros Ha HQ. apply ok_bind. by eapply ok_load. Qed.

Lemma ok_load_bindings s a l (Q : list (option binding_t) -> sq_state -> Prop) :
  blocks s !! a = Some (Bindings l) -> Q l s -> ok (load_bindings a) s Q.
Proof. intros Ha HQ. apply ok_bind. by eapply ok_load. Qed.

Lemma ok_string_to_utf8 s chars (Q : Z * Z -> sq_state -> Prop) :
  valid_string chars ->
  (answers s (ticks s) = 0 -> forall len, Q (0, len) (set_ticks (S (ticks s)) s)) ->
  (answers s (ticks s) <> 0 -> Q (fresh s, Z.of_nat (length (Rfc3629.encode chars)))
    (set_ticks (S (ticks s)) (set_fresh (fresh s + 1)
      (set_blocks (<[fresh s := Bytes (Rfc3629.encode chars ++ [0])]> (blocks s)) s)))) ->
  ok (string_to_utf8 chars) s Q.
Proof.
  intros [Hv Hlen] H1 H2. unfold string_to_utf8. apply ok_bind. cbn.
  rewrite osi_string_to_utf8_spec; [| |done|done].
  - destruct (Z.eqb_spec (answers s (ticks s)) 0); [by apply H1|by apply H2].
  - intros n b Hn. case_match; [done|]. intros [= <-]. rewrite length_replicate. lia.
Qed.

(** *** One binding *)

Section specs.
Context {C : Scheme}.

Lemma stored_mono m m' b x :
  (forall k, k ∈ copies b -> m' !! k = m !! k) -> stored m b x -> stored m' b x.
Proof.
  intros Hm. destruct x; cbn [stored]; try done.
  - intros (a & Ha & -> & Hb). exists a. rewrite Hm; [done|]. by apply list_elem_of_singleton.
  - intros (a & Ha & -> & Hb). exists a. rewrite Hm; [done|]. by apply list_elem_of_singleton.
Qed.

Lemma stored_copies m b x k : stored m b x -> k ∈ copies b -> is_Some (m !! k).
Proof.
  destruct x; cbn [stored]; try done.
  - by intros -> ?%elem_of_nil.
  - by intros (v & _ & ->) ?%elem_of_nil.
  - by intros -> ?%elem_of_nil.
  - intros (a & Ha & -> & Hb) ->%list_elem_of_singleton. by eexists.
  - intros (a & Ha & -> & Hb) ->%list_elem_of_singleton. by eexists.
Qed.

(** The outcome of [set_binding]: the value is stored in a new block, or nothing changed. *)
Definition set_result (n : Z) (old : gmap Z block) (l : list Z) (x : datum) (s : sq_state)
    (r : Z * binding_t) (s' : sq_state) : Prop :=
  memory_only s s' /\ sane s' /\
  ((fst r = 0 /\ stored (blocks s') (snd r) x /\ extends n old (blocks s') (copies (snd r) ++ l) /\
      (forall k, k < fresh s -> blocks s' !! k = blocks s !! k)) \/
   (fst r = UV_EINVAL /\ unsupported x /\ blocks s' = blocks s) \/
   (fst r = UV_ENOMEM /\ exhausted s s' /\ blocks s' = blocks s)).

(** The case of a value that needs no memory. *)
Lemma set_plain n old l x s b :
  sane s -> extends n old (blocks s) l -> stored (blocks s) b x -> copies b = [] ->
  set_result n old l x s (0, b) s.
Proof.
  intros Hs He Hb Hc. split; [apply memory_only_refl|]. split; [done|]. left. cbn [fst snd].
  by rewrite Hc.
Qed.

Lemma set_refused n old l x s b :
  sane s -> unsupported x -> set_result n old l x s (UV_EINVAL, b) s.
Proof. intros Hs Hx. split; [apply memory_only_refl|]. split; [done|]. by right; left. Qed.

(** The state after a [malloc]: failed, and successful. *)
Lemma malloc_failed s : memory_only s (set_ticks (S (ticks s)) s).
Proof. constructor; cbn; try done; lia. Qed.

Definition allocated (b : block) (s : sq_state) : sq_state :=
  set_ticks (S (ticks s)) (set_fresh (fresh s + 1) (set_blocks (<[fresh s := b]> (blocks s)) s)).

Lemma malloc_memory_only s b : memory_only s (allocated b s).
Proof. constructor; cbn; try done; lia. Qed.

Lemma malloc_sane s b : sane s -> sane (allocated b s).
Proof.
  intros [H0 Hf]. split; cbn; [lia|]. intros k Hk. rewrite lookup_insert_ne by lia. apply Hf. lia.
Qed.

Lemma malloc_extends n old l s b :
  sane s -> n <= fresh s -> extends n old (blocks s) l ->
  extends n old (blocks (allocated b s)) (fresh s :: l).
Proof. intros [H0 Hf] Hn He. cbn. apply extends_new; [done|done|]. apply Hf. lia. Qed.

Lemma set_copied n old l x s b blk :
  sane s -> n <= fresh s -> extends n old (blocks s) l ->
  stored (blocks (allocated blk s)) b x -> copies b = [fresh s] ->
  set_result n old l x s (0, b) (allocated blk s).
Proof.
  intros Hs Hn He Hb Hc. split; [apply malloc_memory_only|]. split; [by apply malloc_sane|].
  left. cbn [fst snd]. rewrite Hc. split; [done|]. split; [done|].
  split; [by apply malloc_extends|]. intros k Hk. cbn. apply lookup_insert_ne. lia.
Qed.

Lemma set_exhausted n old l x s b :
  sane s -> answers s (ticks s) = 0 -> set_result n old l x s (UV_ENOMEM, b) (set_ticks (S (ticks s)) s).
Proof.
  intros Hs Ha. split; [apply malloc_failed|]. split; [done|]. right; right.
  split; [done|]. split; [|done]. exists (ticks s). cbn. split; [lia|done].
Qed.

Lemma set_binding_spec n old l x s :
  sane s -> n <= fresh s -> extends n old (blocks s) l -> valid_datum x ->
  ok (set_binding x) s (set_result n old l x s).
Proof.
  intros Hs Hn He Hv. pose proof Hs as [H0 Hf].
  destruct x; cbn [set_binding]; try (apply ok_ret; by apply set_refused).
  - apply ok_ret. by apply set_plain.
  - destruct (try_integer64 z) as [v|] eqn:E; apply ok_ret.
    + apply set_plain; try done. by exists v.
    + by apply set_refused.
  - apply ok_ret. by apply set_plain.
  - apply ok_bind. apply ok_string_to_utf8; [done| |]; intros Ha; [intros len|]; apply ok_ret.
    + by apply set_exhausted.
    + destruct (Z.eqb_spec (fresh s) 0) as [|Hne]; [lia|].
      apply set_copied; try done. exists (fresh s). split; [done|]. split; [done|]. apply lookup_insert_eq.
  - apply ok_bind, ok_malloc; intros Ha.
    + apply ok_ret. by apply set_exhausted.
    + destruct (Z.eqb_spec (fresh s) 0) as [|Hne]; [lia|]. apply ok_ret.
      apply set_copied; try done. exists (fresh s). split; [done|]. split; [done|]. apply lookup_insert_eq.
Qed.

(** *** Releasing the entries *)

Lemma free_binding_pointer b a :
  type b = SQLITE_TEXT \/ type b = SQLITE_BLOB -> word b = Some a -> a <> 0 ->
  free_binding b = (_ ← free KBytes a; mret (mkBinding (type b) (Some 0) (size b))).
Proof.
  intros Ht Hw Ha. unfold free_binding. rewrite Hw.
  replace ((type b =? SQLITE_TEXT) || (type b =? SQLITE_BLOB)) with true
    by (by destruct Ht as [-> | ->]).
  change (the (S:=sq_state) (Some a) ≫= ?k) with (k a). cbv beta. by destruct (Z.eqb_spec a 0).
Qed.

Lemma copies_list m b x : stored m b x -> copies b = [] /\ free_binding b = mret b \/
  exists a blk, copies b = [a] /\ a <> 0 /\ m !! a = Some blk /\ kind_of blk = KBytes /\ quiet blk = true /\
    free_binding b = (_ ← free KBytes a; mret (mkBinding (type b) (Some 0) (size b))).
Proof.
  destruct x; cbn [stored]; try done.
  - intros ->. by left.
  - intros (v & _ & ->). by left.
  - intros ->. by left.
  - intros (a & Ha & -> & Hb). right. exists a. eexists. repeat split; try done.
    apply free_binding_pointer; [by (left + right)|done|done].
  - intros (a & Ha & -> & Hb). right. exists a. eexists. repeat split; try done.
    apply free_binding_pointer; [by (left + right)|done|done].
Qed.

Lemma stored_all_mono m m' bs xs :
  (forall k, k ∈ mjoin (copies <$> bs) -> m' !! k = m !! k) ->
  Forall2 (stored m) bs xs -> Forall2 (stored m') bs xs.
Proof.
  intros Hm Hs. induction Hs as [|b x bs xs Hb Hs IH]; [constructor|].
  rewrite fmap_cons in Hm. cbn [mjoin list_join] in Hm.
  constructor; [eapply stored_mono; [|exact Hb]|apply IH]; intros k Hk; apply Hm, elem_of_app; auto.
Qed.

Lemma extends_apart n old m l L a k : extends (B:=block) n old m (l ++ L) -> a ∈ L -> k ∈ l -> k <> a.
Proof.
  intros He Ha Hk ->. apply ext_distinct in He. apply NoDup_app in He as (_ & Hd & _). by eapply Hd.
Qed.

Lemma store_entry n old m a L l j b s :
  extends n old m (l ++ L) -> a ∈ L -> m !! a = Some (Bindings j) -> kind_of b = KBindings ->
  forall (Q : unit -> sq_state -> Prop),
  (forall m', m' = <[a := b]> m -> extends n old m' (l ++ L) -> (forall k, k ∈ l -> m' !! k = m !! k) ->
    Q tt (set_blocks m' s)) -> ok (store a b) (set_blocks m s) Q.
Proof.
  intros He Ha Hm Hkind Q HQ. eapply ok_store; [exact Hm|done|]. cbn [blocks set_blocks]. apply HQ; [done| |].
  - apply extends_update; [done|]. apply elem_of_app. by right.
  - intros k Hk. apply lookup_insert_ne. intros ->. by eapply extends_apart.
Qed.

Lemma free_entries_spec n old a L bs : forall j xs s lst,
  extends n old (blocks s) (mjoin (copies <$> bs) ++ L) -> a ∈ L ->
  blocks s !! a = Some (Bindings lst) ->
  (forall i b, bs !! i = Some b -> lst !! (j + i)%nat = Some (Some b)) ->
  Forall2 (stored (blocks s)) bs xs ->
  ok (free_entries a j (length bs)) s (fun _ s' => exists m lst',
    s' = set_blocks m s /\ extends n old m L /\ m !! a = Some (Bindings lst')).
Proof.
  induction bs as [|b bs IH]; intros j xs s lst He Ha Hl Hlst Hst; cbn [length free_entries].
  { apply ok_ret. exists (blocks s), lst. by destruct s. }
  apply Forall2_cons_inv_l in Hst as (x & xs' & Hb & Hst & ->).
  pose proof (Hlst 0%nat b eq_refl) as Hj. rewrite Nat.add_0_r in Hj.
  rewrite fmap_cons in He. cbn [mjoin list_join] in He.
  apply ok_bind. unfold free_entry. apply ok_bind. eapply ok_load_bindings; [exact Hl|].
  apply ok_bind. eapply ok_the; [by rewrite Hj|].
  assert (Hnext : forall m b', extends n old m (mjoin (copies <$> bs) ++ L) ->
    m !! a = Some (Bindings lst) -> Forall2 (stored m) bs xs' ->
    ok (l ← load_bindings a; store a (Bindings (<[j := Some b']> l))) (set_blocks m s)
      (fun _ s' => ok (free_entries a (S j) (length bs)) s' (fun _ s' => exists m lst',
         s' = set_blocks m s /\ extends n old m L /\ m !! a = Some (Bindings lst')))).
  { intros m b' He' Hm Hst'. apply ok_bind. eapply ok_load_bindings; [exact Hm|].
    eapply store_entry; [exact He'|exact Ha|exact Hm|done|]. intros m' Em He2 Hk2.
    eapply ok_mono; [eapply (IH (S j) xs')|].
    - exact He2.
    - done.
    - cbn. rewrite Em. apply lookup_insert_eq.
    - intros i c Hi. rewrite list_lookup_insert_ne by lia. rewrite <- (Hlst (S i) c Hi). f_equal. lia.
    - by eapply stored_all_mono.
    - intros [] s' (m2 & l2 & -> & H1 & H2). by exists m2, l2. }
  apply ok_bind.
  destruct (copies_list _ _ _ Hb) as [[Hc ->]|(p & blk & Hc & Hp & Hm & Hkind & Hq & ->)]; rewrite Hc in He.
  - apply ok_ret. specialize (Hnext (blocks s) b). replace (set_blocks (blocks s) s) with s in Hnext
      by (by destruct s). by apply Hnext.
  - apply ok_bind. eapply ok_free; [exact Hm|exact Hkind|exact Hq|]. apply ok_ret.
    assert (Hpa : p <> a).
    { eapply (extends_apart _ _ _ ([p] ++ mjoin (copies <$> bs)) L); [by rewrite <- app_assoc|done|].
      apply elem_of_app. left. by apply list_elem_of_singleton. }
    apply Hnext.
    + by apply extends_delete.
    + by rewrite lookup_delete_ne.
    + eapply stored_all_mono; [|exact Hst]. intros k Hk. apply lookup_delete_ne. intros ->.
      apply ext_distinct in He. apply NoDup_cons in He as [Hn _]. apply Hn, elem_of_app. by left.
Qed.

(** Releasing all the entries and the array restores the memory. *)
Lemma release_spec n old a bs xs s lst (A : Type) (r : A) :
  unused n old -> extends n old (blocks s) (mjoin (copies <$> bs) ++ [a]) ->
  blocks s !! a = Some (Bindings lst) ->
  (forall i b, bs !! i = Some b -> lst !! i = Some (Some b)) ->
  Forall2 (stored (blocks s)) bs xs ->
  ok (_ ← free_entries a 0 (length bs); _ ← free KBindings a; mret r) s (fun r' s' =>
    r' = r /\ s' = set_blocks old s).
Proof.
  intros Hu He Hl Hlst Hst. apply ok_bind.
  eapply ok_mono; [eapply free_entries_spec; [exact He|by apply list_elem_of_singleton|exact Hl|done|exact Hst]|].
  intros [] s' (m & lst' & -> & Hm & Ha). apply ok_bind. eapply ok_free; [exact Ha|done|done|].
  apply ok_ret. split; [done|]. cbn [blocks set_blocks]. apply extends_delete in Hm.
  apply extends_restored in Hm; [|done]. by rewrite Hm.
Qed.

(** *** Filling the array *)

(** The state of the loop: the array [a] holds the copies of [xs] and [n] empty entries, and
    nothing else was added to [old]. *)
Record filling (n : Z) (old : gmap Z block) (a : Z) (bs : list binding_t) (xs : list datum)
    (rest : nat) (s : sq_state) : Prop := {
  fill_extends : extends n old (blocks s) (mjoin (copies <$> bs) ++ [a]);
  fill_array : blocks s !! a = Some (Bindings (map Some bs ++ replicate rest None));
  fill_stored : Forall2 (stored (blocks s)) bs xs;
  fill_sane : sane s;
  fill_bound : n <= fresh s
}.

Lemma extends_used n old (s : sq_state) l k : sane s -> extends n old (blocks s) l -> k ∈ l -> k < fresh s.
Proof.
  intros [_ Hf] He Hk. pose proof (ext_bound _ _ _ _ He k Hk) as Hn.
  apply (ext_new _ _ _ _ He k Hn) in Hk as [b Hb].
  destruct (Z.lt_ge_cases k (fresh s)) as [|Hge]; [done|]. by rewrite Hf in Hb.
Qed.

(** One more entry. *)
Lemma filling_step n old a bs xs rest s x b s1 :
  filling n old a bs xs (S rest) s -> set_result n old (mjoin (copies <$> bs) ++ [a]) x s (0, b) s1 ->
  0 <> UV_EINVAL -> 0 <> UV_ENOMEM ->
  blocks s1 !! a = Some (Bindings (map Some bs ++ replicate (S rest) None)) /\
  filling n old a (bs ++ [b]) (xs ++ [x]) rest
    (set_blocks (<[a := Bindings (<[length bs := Some b]> (map Some bs ++ replicate (S rest) None))]>
       (blocks s1)) s1).
Proof.
  intros [He Ha Hst Hsane Hn] (Hm & Hs1 & [(_ & Hb & He1 & Hold)|[(E & _)|(E & _)]]) N1 N2;
    try (by cbn in E); cbn [snd] in *.
  pose proof (extends_used _ _ _ _ a Hsane He ltac:(apply elem_of_app; right; by apply list_elem_of_singleton)) as Hlt.
  split; [by rewrite Hold|]. rewrite (assoc_L (++)) in He1.
  assert (He2 : extends n old (blocks s1) ((mjoin (copies <$> bs) ++ copies b) ++ [a]))
    by (eapply extends_perm; [|exact He1]; by rewrite (Permutation_app_comm (copies b))).
  assert (Hj : mjoin (copies <$> (bs ++ [b])) = mjoin (copies <$> bs) ++ copies b).
  { rewrite fmap_app, join_app. cbn [fmap list_fmap mjoin list_join]. by rewrite app_nil_r. }
  constructor; cbn [blocks set_blocks fresh].
  - rewrite Hj. apply extends_update; [exact He2|]. apply elem_of_app. right. by apply list_elem_of_singleton.
  - rewrite lookup_insert_eq. do 2 f_equal. rewrite map_app. cbn [map replicate].
    rewrite insert_app_r_alt by (by rewrite length_map).
    rewrite length_map, Nat.sub_diag. cbn. by rewrite <- app_assoc.
  - assert (Hkeep : forall k, k ∈ mjoin (copies <$> bs) ++ copies b ->
      <[a := Bindings (<[length bs := Some b]> (map Some bs ++ replicate (S rest) None))]> (blocks s1) !! k
      = blocks s1 !! k).
    { intros k Hk. apply lookup_insert_ne. intros ->. eapply extends_apart; [exact He2| |exact Hk|done].
      by apply list_elem_of_singleton. }
    apply Forall2_app.
    + eapply stored_all_mono; [intros k Hk; apply Hkeep, elem_of_app; by left|].
      eapply stored_all_mono; [|exact Hst]. intros k Hk. apply Hold.
      eapply extends_used; [exact Hsane|exact He|]. apply elem_of_app. by left.
    + constructor; [|constructor]. eapply stored_mono; [|exact Hb].
      intros k Hk. apply Hkeep, elem_of_app. by right.
  - destruct Hs1 as [H0 Hf]. split; [done|]. intros k Hk. cbn in Hk |- *. rewrite lookup_insert_ne; [by apply Hf|].
    pose proof (mo_fresh _ _ Hm). lia.
  - pose proof (mo_fresh _ _ Hm). cbn. lia.
Qed.

(** How the marshalling of [rest] ends. *)
Definition marshal_result (n : Z) (old : gmap Z block) (a : Z) (done rest : list datum) (s : sq_state)
    (r : datum) (s' : sq_state) : Prop :=
  memory_only s s' /\
  ((exists rc, r = error_pair "osi_marshal_bindings" rc /\ blocks s' = old /\
      (rc = UV_EINVAL /\ Exists unsupported rest \/ rc = UV_ENOMEM /\ exhausted s s')) \/
   (r = Dinteger a /\ exists bs, filling n old a bs (done ++ rest) 0 s')).

Lemma exhausted_later s s1 s' : memory_only s s1 -> exhausted s1 s' -> exhausted s s'.
Proof.
  intros Hm (k & Hk & E). exists k. split; [pose proof (mo_ticks _ _ Hm); lia|].
  by rewrite <- (mo_answers _ _ Hm).
Qed.
Lemma exhausted_before s s1 s' : memory_only s1 s' -> exhausted s s1 -> exhausted s s'.
Proof. intros Hm (k & Hk & E). exists k. split; [pose proof (mo_ticks _ _ Hm); lia|done]. Qed.

(** A value that cannot be stored: everything is released. *)
Lemma marshal_failed n old a bs xs rest s rc b s1 :
  unused n old -> filling n old a bs xs (S rest) s ->
  memory_only s s1 -> blocks s1 = blocks s ->
  ok (l ← load_bindings a; _ ← store a (Bindings (<[length bs := Some b]> l));
      _ ← free_entries a 0 (length bs); _ ← free KBindings a; mret (error_pair "osi_marshal_bindings" rc)) s1
    (fun r s' => r = error_pair "osi_marshal_bindings" rc /\ s' = set_blocks old s1).
Proof.
  intros Hu [He Ha Hst Hsane Hn] Hm Hb. rewrite <- Hb in He, Ha, Hst.
  apply ok_bind. eapply ok_load_bindings; [exact Ha|]. apply ok_bind.
  replace s1 with (set_blocks (blocks s1) s1) at 1 by (by destruct s1).
  eapply store_entry; [exact He|by apply list_elem_of_singleton|exact Ha|done|].
  intros m' Em He' Hkeep. eapply ok_mono; [eapply (release_spec n old a bs xs)|].
  - done.
  - exact He'.
  - cbn. rewrite Em. apply lookup_insert_eq.
  - intros i c Hi. pose proof (lookup_lt_Some _ _ _ Hi). rewrite list_lookup_insert_ne by lia.
    rewrite lookup_app_l by (by rewrite length_map). by rewrite list_lookup_fmap, Hi.
  - by eapply stored_all_mono.
  - by intros r s' [-> ->].
Qed.

Lemma marshal_loop_spec n old a rest : forall bs xs s,
  unused n old -> filling n old a bs xs (length rest) s -> Forall valid_datum rest ->
  ok (marshal_loop a (length bs) rest) s (marshal_result n old a xs rest s).
Proof.
  induction rest as [|x rest IH]; intros bs xs s Hu Hf Hv; cbn [marshal_loop length].
  { apply ok_ret. split; [apply memory_only_refl|]. right. split; [done|]. exists bs. by rewrite app_nil_r. }
  apply Forall_cons in Hv as [Hx Hv]. apply ok_bind. pose proof Hf as [He Ha Hst Hsane Hn].
  eapply ok_mono; [by apply (set_binding_spec n old (mjoin (copies <$> bs) ++ [a]) x)|]. intros [rc b] s1 Hres.
  pose proof Hres as (Hm & Hs1 & Hcases). cbn [fst snd] in Hcases.
  destruct Hcases as [(-> & _)|Hfail].
  - destruct (filling_step _ _ _ _ _ _ _ _ _ _ Hf Hres) as [Ha1 Hf1]; [done|done|].
    apply ok_bind. eapply ok_load_bindings; [exact Ha1|]. apply ok_bind.
    eapply ok_store; [exact Ha1|done|]. cbn [negb Z.eqb].
    replace (S (length bs)) with (length (bs ++ [b])) by (rewrite length_app; cbn; lia).
    eapply ok_mono; [by apply (IH (bs ++ [b]) (xs ++ [x]))|].
    assert (Hm1 : memory_only s (set_blocks (<[a := Bindings (<[length bs := Some b]>
      (map Some bs ++ replicate (S (length rest)) None))]> (blocks s1)) s1)) by (by destruct Hm; constructor).
    intros r s' (Hm' & [(rc & -> & Hb & Hrc)|(-> & bs' & Hf')]);
      (split; [by eapply memory_only_trans|]).
    + left. exists rc. split; [done|]. split; [done|].
      destruct Hrc as [[-> Hex]|[-> Hex]]; [left; split; [done|by apply Exists_cons_tl]|].
      right. split; [done|]. by eapply exhausted_later.
    + right. split; [done|]. exists bs'. by rewrite <- app_assoc in Hf'.
  - assert (Hb : blocks s1 = blocks s /\ rc <> 0 /\
      (rc = UV_EINVAL /\ unsupported x \/ rc = UV_ENOMEM /\ exhausted s s1))
      by (destruct Hfail as [(-> & ? & ?)|(-> & ? & ?)]; repeat split; auto).
    destruct Hb as (Hb & Hne & Hwhy).
    pose proof (marshal_failed n old a bs xs _ s rc b s1 Hu Hf Hm Hb) as Hok.
    destruct (Z.eqb_spec rc 0) as [|_]; [done|]. cbn [negb].
    eapply ok_mono; [exact Hok|]. intros r s' [-> ->].
    assert (Hm' : memory_only s (set_blocks old s1)) by (by destruct Hm; constructor).
    split; [done|]. left. exists rc. split; [done|]. split; [done|].
    destruct Hwhy as [[-> ?]|[-> ?]]; [left; split; [done|by apply Exists_cons_hd]|by right].
Qed.

(** *** Reading back *)

(** The value that comes back: integers in the width of [Stry_integer64_value]. *)
Definition read_back (x : datum) : datum :=
  match x with Dinteger n => Dinteger (default n (try_integer64 n)) | _ => x end.

Hypothesis string_utf8_ok : forall s, valid_string s -> string_utf8 (Rfc3629.encode s) = s.

Lemma read_bytes_spec s a l n (Q : list Z -> sq_state -> Prop) :
  blocks s !! a = Some (Bytes l) -> (n <= length l)%nat -> Q (take n l) s ->
  ok (read_bytes a (Z.of_nat n)) s Q.
Proof.
  intros Ha Hn HQ. apply ok_bind. eapply ok_load_bytes; [exact Ha|]. apply ok_bind, ok_assert.
  - rewrite andb_true_iff, !Z.leb_le. lia.
  - apply ok_ret. by rewrite Nat2Z.id.
Qed.

Lemma get_binding_spec s b x : stored (blocks s) b x -> valid_datum x ->
  ok (get_binding b) s (fun r s' => r = read_back x /\ Spairp r = false /\ s' = s).
Proof.
  intros Hb Hv. destruct x; cbn [stored valid_datum] in *; try done.
  - by subst b.
  - destruct Hb as (v & E & ->). cbn [read_back]. rewrite E. by repeat split.
  - by subst b.
  - destruct Hb as (a & Ha & -> & Hm). unfold get_binding. cbn [type word size].
    apply ok_bind. eapply ok_the; [done|]. apply ok_bind. eapply ok_the; [done|]. apply ok_bind.
    eapply read_bytes_spec; [exact Hm|rewrite length_app; lia|]. rewrite take_app_length.
    rewrite string_utf8_ok by done. by apply ok_ret.
  - destruct Hb as (a & Ha & -> & Hm). unfold get_binding. cbn [type word size].
    apply ok_bind. eapply ok_the; [done|]. apply ok_bind. eapply ok_the; [done|]. apply ok_bind.
    eapply read_bytes_spec; [exact Hm|done|]. rewrite firstn_all. by apply ok_ret.
Qed.

Lemma get_loop_spec s bs xs : Forall2 (stored (blocks s)) bs xs -> Forall valid_datum xs ->
  ok (get_loop (map Some bs)) s (fun r s' => r = inr (map read_back xs) /\ s' = s).
Proof.
  intros Hst Hv. induction Hst as [|b x bs xs Hb Hst IH]; [done|].
  apply Forall_cons in Hv as [Hx Hv]. cbn [map get_loop]. apply ok_bind. eapply ok_the; [done|].
  apply ok_bind. eapply ok_mono; [by apply get_binding_spec|]. intros r s' (-> & -> & ->).
  apply ok_bind. eapply ok_mono; [by apply IH|]. by intros r s' [-> ->].
Qed.

Lemma filling_get n old a bs xs s : 0 < n -> filling n old a bs xs 0 s -> Forall valid_datum xs ->
  osi_get_bindings a s = Some (Dvector (map read_back xs), s).
Proof.
  intros Hn [He Ha Hst _ _] Hv.
  assert (n <= a) as Hna by (apply (ext_bound _ _ _ _ He), elem_of_app; right; by apply list_elem_of_singleton).
  cbn [replicate] in Ha. rewrite app_nil_r in Ha.
  assert (Hok : ok (osi_get_bindings a) s (fun r s' => r = Dvector (map read_back xs) /\ s' = s)).
  { unfold osi_get_bindings. destruct (Z.eqb_spec a 0) as [|_]; [lia|].
    apply ok_bind. eapply ok_load_bindings; [exact Ha|]. apply ok_bind.
    eapply ok_mono; [by apply get_loop_spec|]. by intros r s' [-> ->]. }
  apply ok_result in Hok as (r & s' & -> & -> & ->). done.
Qed.

Lemma filling_unmarshal n old a bs xs s : 0 < n -> unused n old -> filling n old a bs xs 0 s ->
  osi_unmarshal_bindings a s = Some (Dtrue, set_blocks old s).
Proof.
  intros Hn Hu [He Ha Hst _ _]. cbn [replicate] in Ha. rewrite app_nil_r in Ha.
  assert (n <= a) as Hna by (apply (ext_bound _ _ _ _ He), elem_of_app; right; by apply list_elem_of_singleton).
  assert (Hok : ok (osi_unmarshal_bindings a) s (fun r s' => r = Dtrue /\ s' = set_blocks old s)).
  { unfold osi_unmarshal_bindings. destruct (Z.eqb_spec a 0) as [|_]; [lia|].
    apply ok_bind. eapply ok_load_bindings; [exact Ha|]. rewrite length_map.
    eapply release_spec; [exact Hu|exact He|exact Ha| |exact Hst].
    intros i b Hi. by rewrite list_lookup_fmap, Hi. }
  apply ok_result in Hok as (r & s' & -> & -> & ->). done.
Qed.

(** The values of a list or a vector. *)
Definition items (x : datum) : option (list datum) :=
  match x with Dnil | Dpair _ _ => list_items x | Dvector l => Some l | _ => None end.

Lemma filling_start s n : sane s -> filling (fresh s) (blocks s) (fresh s) [] [] n
  (allocated (Bindings (replicate n None)) s).
Proof.
  intros Hs. constructor; cbn [fmap list_fmap mjoin list_join app map].
  - apply malloc_extends; [done|lia|]. apply extends_nil, Hs.
  - apply lookup_insert_eq.
  - constructor.
  - by apply malloc_sane.
  - cbn. lia.
Qed.

Lemma marshal_items_spec s data : sane s -> Z.of_nat (length data) < 2 ^ 31 -> Forall valid_datum data ->
  ok (marshal_items data) s (fun r s' =>
    data = [] /\ r = Dinteger 0 /\ s' = s \/
    exists a, marshal_result (fresh s) (blocks s) a [] data s r s').
Proof.
  intros Hs Hlen Hv. unfold marshal_items. apply ok_bind, ok_assert; [by apply Z.ltb_lt|].
  destruct data as [|x data]; [apply ok_ret; by left|]. pose proof Hs as [H0 Hf].
  apply ok_bind, ok_malloc; intros Ha.
  - apply ok_ret. right. exists 0. split; [apply malloc_failed|]. left. exists UV_ENOMEM.
    split; [done|]. split; [done|]. right. split; [done|]. exists (ticks s). cbn. split; [lia|done].
  - destruct (Z.eqb_spec (fresh s) 0) as [|_]; [lia|].
    eapply ok_mono; [apply (marshal_loop_spec (fresh s) (blocks s) (fresh s) (x :: data) [] []);
      [exact Hf| |exact Hv]|].
    + by apply filling_start.
    + intros r s' [Hm Hr]. right. exists (fresh s). split; [|].
      * eapply memory_only_trans; [apply (malloc_memory_only s)|exact Hm].
      * destruct Hr as [(rc & -> & Hb & Hrc)|(-> & bs & Hfill)]; [left|right; by split; [|exists bs]].
        exists rc. split; [done|]. split; [done|]. destruct Hrc as [?|[-> Hex]]; [by left|].
        right. split; [done|]. eapply exhausted_later; [apply (malloc_memory_only s)|exact Hex].
Qed.
End specs.


(** A concrete Scheme: 64-bit integers, and the decoder of RFC 3629. *)
Definition example_scheme : Scheme := {|
  has_try_int64_value := Some (fun n => if bool_decide (- 2 ^ 63 <= n < 2 ^ 63) then Some n else None);
  Sinteger64_value n := swrap 64 n;
  string_utf8 l := default [] (Rfc3629.decode l)
|}.

Definition example_state : sq_state := mkSq ∅ 1 [] ∅ [] (fun _ => 1) 0.

