(* ===== verification/Database.v ===== *)
(** * Database: databases and statements

    sqlite.c lines 96-347 and 512-856: opening and closing a database, the worker thread it
    has, statements, and the four operations the worker carries out.

    An operation for the worker ends in a critical section: the part of the function before it
    is the operation's definition, whose outcome is the request; [enter] is the critical section
    and [signal] the [uv_cond_signal] after it.  Protocol.v interleaves them with the steps of
    the worker. *)

From S2P Require Import Utf8.
From S2P Require Export Bindings.

(** What an operation does: return at once, or hand a request to the worker of [database].
    [data_inside] tells that [async.data] is set in the critical section. *)
Inductive outcome :=
| Return (r : datum)
| Request (database : Z) (cb : uv_async_cb) (data_inside : bool) (w : work) (callback : datum)
    (union : option (payload * Z)).

(** ** Field updates *)

Definition set_mutex x d := mkDatabase (db d) (statement d) x (cond d) (thread d) (async d)
  (async_data d) (async_sent d) (busy d) (db_work d) (db_callback d) (request d) (sql_len d) (sqlite_rc d).
Definition set_cond x d := mkDatabase (db d) (statement d) (mutex d) x (thread d) (async d)
  (async_data d) (async_sent d) (busy d) (db_work d) (db_callback d) (request d) (sql_len d) (sqlite_rc d).
Definition set_thread x d := mkDatabase (db d) (statement d) (mutex d) (cond d) x (async d)
  (async_data d) (async_sent d) (busy d) (db_work d) (db_callback d) (request d) (sql_len d) (sqlite_rc d).
Definition set_async x d := mkDatabase (db d) (statement d) (mutex d) (cond d) (thread d) x
  (async_data d) (async_sent d) (busy d) (db_work d) (db_callback d) (request d) (sql_len d) (sqlite_rc d).
Definition set_async_data x d := mkDatabase (db d) (statement d) (mutex d) (cond d) (thread d) (async d)
  x (async_sent d) (busy d) (db_work d) (db_callback d) (request d) (sql_len d) (sqlite_rc d).
Definition set_async_sent x d := mkDatabase (db d) (statement d) (mutex d) (cond d) (thread d) (async d)
  (async_data d) x (busy d) (db_work d) (db_callback d) (request d) (sql_len d) (sqlite_rc d).
Definition set_statement x d := mkDatabase (db d) x (mutex d) (cond d) (thread d) (async d)
  (async_data d) (async_sent d) (busy d) (db_work d) (db_callback d) (request d) (sql_len d) (sqlite_rc d).
Definition set_work x d := mkDatabase (db d) (statement d) (mutex d) (cond d) (thread d) (async d)
  (async_data d) (async_sent d) (busy d) x (db_callback d) (request d) (sql_len d) (sqlite_rc d).
Definition set_request x n d := mkDatabase (db d) (statement d) (mutex d) (cond d) (thread d) (async d)
  (async_data d) (async_sent d) (busy d) (db_work d) (db_callback d) x n (sqlite_rc d).
Definition set_sqlite_rc x d := mkDatabase (db d) (statement d) (mutex d) (cond d) (thread d) (async d)
  (async_data d) (async_sent d) (busy d) (db_work d) (db_callback d) (request d) (sql_len d) x.
(** [busy], [work] and [callback] are set together by a request; [busy] and [callback] are
    reset together by its completion. *)
Definition set_busy b w cb d := mkDatabase (db d) (statement d) (mutex d) (cond d) (thread d) (async d)
  (async_data d) (async_sent d) b w cb (request d) (sql_len d) (sqlite_rc d).

Section database.
Context {L : Sqlite} {C : Scheme}.

(** ** Opening *)

Definition osi_open_database (filename : list Z) (flags : Z) (callback : datum) : D datum :=
  req ← malloc (OpenReq (mkOpenReq NotQueued 0 0 Dvoid 0 0));
  if req =? 0 then mret (error_pair "osi_open_database" UV_ENOMEM) else
  name ← malloc (Bytes (filename ++ [0]));
  _ ← store req (OpenReq (mkOpenReq NotQueued name flags Dvoid 0 0));
  _ ← Slock_object callback;
  _ ← store req (OpenReq (mkOpenReq NotQueued name flags callback 0 0));
  rc ← uv_result;
  if rc <? 0 then
    _ ← Sunlock_object callback;
    _ ← (if name =? 0 then mret tt else free KBytes name);
    _ ← free KOpenReq req;
    mret (error_pair "uv_queue_work" rc)
  else
    _ ← store req (OpenReq (mkOpenReq Queued name flags callback 0 0));
    mret Dtrue.

(** The text of a C string. *)
Fixpoint c_text (l : list Z) : list Z :=
  match l with [] => [] | c :: l => if c =? 0 then [] else c :: c_text l end.

(** [open_worker] runs in the thread pool; libuv then queues [open_cb]. *)
Definition open_worker (req : Z) : D unit :=
  r ← load_open_req req;
  name ← (if filename r =? 0 then mret None else l ← load_bytes (filename r); mret (Some (c_text l)));
  h ← sqlite (Sq_open_v2 name (flags r));
  store req (OpenReq (mkOpenReq Worked (filename r) (flags r) (req_callback r)
    (sq_handle h) (sq_result h))).

(** [close_free_cb]. *)
Definition close_free_cb (d : Z) : D unit :=
  _ ← update_database d (set_async NotInitialized);
  free KDatabase d.

Definition new_database (db : Z) : database_t :=
  mkDatabase db 0 NoMutex false NoThread NotInitialized None false false None Dvoid (Sql 0) 0 SQLITE_OK.

Definition open_cb (req : Z) : D unit :=
  r ← load_open_req req;
  let callback := req_callback r in
  let db := req_db r in
  let rc := req_rc r in
  _ ← (if filename r =? 0 then mret tt else free KBytes (filename r));
  _ ← Sunlock_object callback;
  _ ← free KOpenReq req;
  if negb (rc =? SQLITE_OK) then
    if negb (db =? 0) then
      code ← sqlite_int (Sq_extended_errcode db);
      e ← make_sqlite_error "sqlite3_open_v2" code db;
      _ ← add_callback1 callback e;
      _ ← sqlite (Sq_close db);
      mret tt
    else add_callback1 callback (error_pair "sqlite3_open_v2" (TRANSLATE_SQLITE_ERRNO rc))
  else
  _ ← sqlite (Sq_extended_result_codes db 1);
  d ← malloc (Database (new_database db));
  if d =? 0 then
    _ ← sqlite (Sq_close db);
    add_callback1 callback (error_pair "osi_open_database" UV_ENOMEM)
  else
  rc ← uv_result;
  if rc <? 0 then
    _ ← sqlite (Sq_close db);
    _ ← free KDatabase d;
    add_callback1 callback (error_pair "uv_async_init" rc)
  else
  _ ← update_database d (set_async Active);
  rc ← uv_result;
  if rc <? 0 then
    _ ← sqlite (Sq_close db);
    _ ← update_database d (set_async Closing);
    add_callback1 callback (error_pair "uv_mutex_init" rc)
  else
  _ ← update_database d (set_mutex Unlocked);
  rc ← uv_result;
  if rc <? 0 then
    _ ← update_database d (set_mutex NoMutex);
    _ ← sqlite (Sq_close db);
    _ ← update_database d (set_async Closing);
    add_callback1 callback (error_pair "uv_cond_init" rc)
  else
  _ ← update_database d (set_cond true);
  rc ← uv_result;
  if rc <? 0 then
    _ ← update_database d (set_cond false);
    _ ← update_database d (set_mutex NoMutex);
    _ ← sqlite (Sq_close db);
    _ ← update_database d (set_async Closing);
    add_callback1 callback (error_pair "uv_thread_create" rc)
  else
  _ ← update_database d (set_thread Starting);
  add_callback1 callback (Dinteger d).

(** ** The critical section of a request *)

Definition enter (database : Z) (cb : uv_async_cb) (data_inside : bool) (w : work) (callback : datum)
    (union : option (payload * Z)) : D unit :=
  d ← load_database database;
  _ ← assert_ok (match mutex d with Unlocked => true | _ => false end);
  let d := if data_inside then set_async_data (Some cb) d else d in
  let d := set_busy true (Some w) callback d in
  let d := match union with Some (p, n) => set_request p n d | None => d end in
  store database (Database d).

Definition signal (database : Z) : D unit :=
  update_database database (fun d =>
    match thread d with Waiting => set_thread Woken d | _ => d end).

(** The part of a request before the critical section. *)
Definition submit (database : Z) (cb : uv_async_cb) (w : work) (callback : datum)
    (union : option (payload * Z)) : D outcome :=
  _ ← update_database database (set_async_data (Some cb));
  _ ← Slock_object callback;
  mret (Request database cb false w callback union).

(** ** Closing *)

(** Every statement of the list from [s] on is finalized and detached; [fuel] bounds the list. *)
Fixpoint close_statements (fuel : nat) (database : Z) : D unit :=
  match fuel with
  | O => stuck
  | S fuel =>
    d ← load_database database;
    let s := statement d in
    if s =? 0 then mret tt else
    x ← load_statement s;
    _ ← update_database database (set_statement (st_next x));
    _ ← sqlite (Sq_finalize (st_stmt x));
    _ ← store s (Statement (mkStatement 0 0 0 0));
    close_statements fuel database
  end.

Definition close_worker (database : Z) : D unit :=
  s ← look;
  _ ← close_statements (S (base.size (dom (blocks s)))) database;
  d ← load_database database;
  rc ← sqlite_int (Sq_close (db d));
  update_database database (set_sqlite_rc rc).

(** [uv_thread_join] blocks until the thread is gone: past [uv_async_send] it only has to leave
    its loop. *)
Definition uv_thread_join (database : Z) : D unit :=
  d ← load_database database;
  match thread d with
  | Gone => mret tt
  | Sent Close_worker => store database (Database (set_mutex Unlocked (set_thread Gone d)))
  | _ => stuck
  end.

Definition close_cb (database : Z) : D unit :=
  d ← load_database database;
  let callback := db_callback d in
  _ ← store database (Database (set_busy false (db_work d) Dvoid d));
  _ ← Sunlock_object callback;
  let rc := sqlite_rc d in
  if rc =? SQLITE_OK then
    _ ← uv_thread_join database;
    _ ← update_database database (set_cond false);
    d ← load_database database;
    _ ← assert_ok (match mutex d with Unlocked => true | _ => false end);
    _ ← update_database database (set_mutex NoMutex);
    _ ← update_database database (set_async Closing);
    add_callback1 callback Dtrue
  else
    e ← make_sqlite_error "sqlite3_close" rc (db d);
    add_callback1 callback e.

Definition osi_close_database (database : Z) (callback : datum) : D outcome :=
  d ← load_database database;
  if busy d then mret (Return (error_pair "osi_close_database" UV_EBUSY))
  else submit database Close_cb Close_worker callback None.

(** ** Preparing and finalizing statements *)

Definition prepare_worker (database : Z) : D unit :=
  d ← load_database database;
  match request d with
  | Sql a =>
    sql ← read_bytes a (sql_len d);
    h ← sqlite (Sq_prepare_v2 (db d) sql);
    let stmt := sq_handle h in
    let rc := sq_result h in
    _ ← update_database database (set_sqlite_rc rc);
    if rc =? SQLITE_OK then
      s ← malloc (Statement (mkStatement 0 0 0 0));
      if negb (s =? 0) then
        let next := statement d in
        _ ← store s (Statement (mkStatement stmt database 0 next));
        _ ← (if negb (next =? 0) then
               update_statement next (fun x =>
                 mkStatement (st_stmt x) (st_database x) s (st_next x))
             else mret tt);
        update_database database (set_statement s)
      else
        _ ← sqlite (Sq_finalize stmt);
        update_database database (set_sqlite_rc SQLITE_NOMEM)
    else mret tt
  | _ => stuck
  end.

Definition prepare_cb (database : Z) : D unit :=
  d ← load_database database;
  let callback := db_callback d in
  match request d with
  | Sql a =>
    _ ← free KBytes a;
    _ ← store database (Database (set_request (Sql 0) 0 (set_busy false (db_work d) Dvoid d)));
    _ ← Sunlock_object callback;
    let rc := sqlite_rc d in
    if rc =? SQLITE_OK then add_callback1 callback (Dinteger (statement d))
    else
      e ← make_sqlite_error "sqlite3_prepare_v2" rc (db d);
      add_callback1 callback e
  | _ => stuck
  end.

Definition osi_prepare_statement (database : Z) (sql callback : datum) : D outcome :=
  d ← load_database database;
  if busy d then mret (Return (error_pair "osi_prepare_statement" UV_EBUSY)) else
  match sql with
  | Dstring chars =>
    '(utf8, len) ← string_to_utf8 chars;
    if utf8 =? 0 then mret (Return (error_pair "osi_prepare_statement" UV_ENOMEM)) else
    if 0x7fffffff <? len then
      _ ← free KBytes utf8;
      mret (Return (error_pair "sqlite3_prepare_v2" (TRANSLATE_SQLITE_ERRNO SQLITE_TOOBIG)))
    else submit database Prepare_cb Prepare_worker callback (Some (Sql utf8, len))
  | _ => mret (Return (error_pair "osi_prepare_statement" UV_EINVAL))
  end.

Definition osi_finalize_statement (statement : Z) : D datum :=
  s ← load_statement statement;
  if st_database s =? 0 then
    _ ← free KStatement statement;
    mret Dtrue
  else
  d ← load_database (st_database s);
  if busy d then mret (error_pair "osi_finalize_statement" UV_EBUSY) else
  _ ← sqlite (Sq_finalize (st_stmt s));
  _ ← (if negb (st_prev s =? 0) then
         update_statement (st_prev s) (fun x =>
           mkStatement (st_stmt x) (st_database x) (st_prev x) (st_next s))
       else update_database (st_database s) (set_statement (st_next s)));
  _ ← (if negb (st_next s =? 0) then
         update_statement (st_next s) (fun x =>
           mkStatement (st_stmt x) (st_database x) (st_prev s) (st_next x))
       else mret tt);
  _ ← free KStatement statement;
  mret Dtrue.

(** ** Operations on one statement *)

Definition is_integer (x : datum) : option Z := match x with Dinteger z => Some z | _ => None end.

Definition osi_bind_statement (statement index : Z) (datum : datum) : D Sqlite.datum :=
  s ← load_statement statement;
  if st_database s =? 0 then mret (error_pair "osi_bind_statement" UV_EINVAL) else
  d ← load_database (st_database s);
  if busy d then mret (error_pair "osi_bind_statement" UV_EBUSY) else
  let bind (who : string) (v : bound) : D Sqlite.datum :=
    rc ← sqlite_int (Sq_bind (st_stmt s) index v);
    if negb (rc =? SQLITE_OK) then make_sqlite_error who rc (db d) else mret Dtrue in
  match datum with
  | Dfalse => bind "sqlite3_bind_null" Bound_null
  | Dinteger n =>
    match try_integer64 n with
    | Some val => bind "sqlite3_bind_int64" (Bound_int64 val)
    | None => mret (error_pair "osi_bind_statement" UV_EINVAL)
    end
  | Dflonum bits => bind "sqlite3_bind_double" (Bound_double bits)
  | Dstring chars =>
    '(utf8, len) ← string_to_utf8 chars;
    if utf8 =? 0 then mret (error_pair "osi_bind_statement" UV_ENOMEM) else
    l ← read_bytes utf8 len;
    (* the destructor passed to SQLite is free: the block is the library's from here on *)
    _ ← free KBytes utf8;
    bind "sqlite3_bind_text64" (Bound_text None l)
  | Dbytevector bytes => bind "sqlite3_bind_blob64" (Bound_blob None bytes)
  | _ => mret (error_pair "osi_bind_statement" UV_EINVAL)
  end.

(** One turn of the loop of [bind_bindings]: what it writes to [who] and [rc], nothing for a
    type it does not know. *)
Definition bind_one (stmt index : Z) (b : binding_t) : D (option (string * Z)) :=
  let bind (who : string) (v : bound) : D (option (string * Z)) :=
    rc ← sqlite_int (Sq_bind stmt index v); mret (Some (who, rc)) in
  if type b =? SQLITE_NULL then bind "sqlite3_bind_null" Bound_null
  else if type b =? SQLITE_INTEGER then
    i ← the (word b); bind "sqlite3_bind_int64" (Bound_int64 i)
  else if type b =? SQLITE_FLOAT then
    x ← the (word b); bind "sqlite3_bind_double" (Bound_double x)
  else if type b =? SQLITE_TEXT then
    a ← the (word b);
    n ← the (size b);
    l ← read_bytes a n;
    bind "sqlite3_bind_text64" (Bound_text (Some a) l)
  else if type b =? SQLITE_BLOB then
    a ← the (word b);
    n ← the (size b);
    l ← read_bytes a n;
    bind "sqlite3_bind_blob" (Bound_blob (Some a) l)
  else mret None.

Fixpoint bind_loop (stmt : Z) (j : Z) (l : list (option binding_t)) (who : option string) (rc : Z) :
    D (option string * Z) :=
  match l with
  | [] => mret (who, rc)
  | curr :: l =>
    curr ← the curr;
    r ← bind_one stmt (j + 1) curr;
    match r with
    | Some (who, rc) => bind_loop stmt (j + 1) l (Some who) rc
    | None => bind_loop stmt (j + 1) l who rc
    end
  end.

Definition bind_bindings (stmt b : Z) : D (option string * Z) :=
  if b =? 0 then mret (None, SQLITE_OK) else
  l ← load_bindings b;
  bind_loop stmt 0 l None SQLITE_OK.

Definition osi_bind_statement_bindings (statement mbindings : Z) : D datum :=
  s ← load_statement statement;
  if st_database s =? 0 then mret (error_pair "osi_bind_statement_bindings" UV_EINVAL) else
  d ← load_database (st_database s);
  if busy d then mret (error_pair "osi_bind_statement_bindings" UV_EBUSY) else
  '(who, rc) ← bind_bindings (st_stmt s) mbindings;
  if negb (rc =? SQLITE_OK) then
    who ← the who;
    make_sqlite_error who rc (db d)
  else mret Dtrue.

Definition osi_clear_statement_bindings (statement : Z) : D datum :=
  s ← load_statement statement;
  if st_database s =? 0 then mret (error_pair "osi_clear_statement_bindings" UV_EINVAL) else
  d ← load_database (st_database s);
  if busy d then mret (error_pair "osi_clear_statement_bindings" UV_EBUSY) else
  rc ← sqlite_int (Sq_clear_bindings (st_stmt s));
  if negb (rc =? SQLITE_OK) then make_sqlite_error "osi_clear_statement_bindings" rc (db d)
  else mret Dtrue.

Definition osi_get_last_insert_rowid (database : Z) : D datum :=
  d ← load_database database;
  if busy d then mret (error_pair "osi_get_last_insert_rowid" UV_EBUSY) else
  rowid ← sqlite_int (Sq_last_insert_rowid (db d));
  mret (Dinteger rowid).

(** A name is missing when memory is exhausted: reading it has no defined behaviour. *)
Fixpoint column_names (stmt i : Z) (n : nat) : D (list datum) :=
  match n with
  | O => mret []
  | S n =>
    h ← sqlite (Sq_column_name stmt i);
    name ← the (sq_text h);
    l ← column_names stmt (i + 1) n;
    mret (Dstring (string_utf8 name) :: l)
  end.

Definition osi_get_statement_columns (statement : Z) : D datum :=
  s ← load_statement statement;
  if st_database s =? 0 then mret (error_pair "osi_get_statement_columns" UV_EINVAL) else
  d ← load_database (st_database s);
  if busy d then mret (error_pair "osi_get_statement_columns" UV_EBUSY) else
  count ← sqlite_int (Sq_column_count (st_stmt s));
  l ← column_names (st_stmt s) 0 (Z.to_nat count);
  mret (Dvector l).

Definition osi_get_statement_expanded_sql (statement : Z) : D datum :=
  s ← load_statement statement;
  if st_database s =? 0 then mret (error_pair "osi_get_statement_expanded_sql" UV_EINVAL) else
  d ← load_database (st_database s);
  if busy d then mret (error_pair "osi_get_statement_expanded_sql" UV_EBUSY) else
  h ← sqlite (Sq_expanded_sql (st_stmt s));
  match sq_text h with
  | None => mret (error_pair "osi_get_statement_expanded_sql" UV_ENOMEM)
  | Some sql => mret (Dstring (string_utf8 sql))
  end.

Definition osi_reset_statement (statement : Z) : D datum :=
  s ← load_statement statement;
  if st_database s =? 0 then mret (error_pair "osi_reset_statement" UV_EINVAL) else
  d ← load_database (st_database s);
  if busy d then mret (error_pair "osi_reset_statement" UV_EBUSY) else
  rc ← sqlite_int (Sq_reset (st_stmt s));
  if negb (rc =? SQLITE_OK) then make_sqlite_error "sqlite3_reset" rc (db d)
  else mret Dtrue.

(** ** Stepping *)

Definition step_worker (database : Z) : D unit :=
  d ← load_database database;
  match request d with
  | Stmt stmt => rc ← sqlite_int (Sq_step stmt); update_database database (set_sqlite_rc rc)
  | _ => stuck
  end.

Definition column_value (c : column) : datum :=
  match c with
  | Col_null => Dfalse
  | Col_integer i => Dinteger i
  | Col_float bits => Dflonum bits
  | Col_text bytes => Dstring (string_utf8 bytes)
  | Col_blob bytes => Dbytevector bytes
  end.

Fixpoint column_values (stmt i : Z) (n : nat) : D (list datum) :=
  match n with
  | O => mret []
  | S n =>
    h ← sqlite (Sq_column stmt i);
    l ← column_values stmt (i + 1) n;
    mret (column_value (sq_column h) :: l)
  end.

Definition step_cb (database : Z) : D unit :=
  d ← load_database database;
  let callback := db_callback d in
  match request d with
  | Stmt stmt =>
    _ ← store database (Database (set_request (Sql 0) (sql_len d) (set_busy false (db_work d) Dvoid d)));
    _ ← Sunlock_object callback;
    let rc := sqlite_rc d in
    arg ← (if rc =? SQLITE_DONE then mret Dfalse
           else if rc =? SQLITE_ROW then
             n ← sqlite_int (Sq_column_count stmt);
             l ← column_values stmt 0 (Z.to_nat n);
             mret (Dvector l)
           else make_sqlite_error "sqlite3_step" rc (db d));
    add_callback1 callback arg
  | _ => stuck
  end.

Definition osi_step_statement (statement : Z) (callback : datum) : D outcome :=
  s ← load_statement statement;
  if st_database s =? 0 then mret (Return (error_pair "osi_step_statement" UV_EINVAL)) else
  d ← load_database (st_database s);
  if busy d then mret (Return (error_pair "osi_step_statement" UV_EBUSY)) else
  submit (st_database s) Step_cb Step_worker callback (Some (Stmt (st_stmt s), sql_len d)).

Definition osi_interrupt_database (database : Z) : D datum :=
  d ← load_database database;
  _ ← sqlite (Sq_interrupt (db d));
  mret (if busy d then Dtrue else Dfalse).

Definition osi_get_sqlite_status (operation resetp : Z) : D datum :=
  h ← sqlite (Sq_status64 operation resetp);
  if negb (sq_result h =? SQLITE_OK) then
    mret (error_pair "sqlite3_status" (TRANSLATE_SQLITE_ERRNO (sq_result h)))
  else
    let '(current, highwater) := sq_status h in
    mret (Dvector [Dinteger current; Dinteger highwater]).

(** ** Bulk execution *)

(** The return codes of a step that are not errors. *)
Definition step_succeeded (rc : Z) : bool :=
  (rc =? SQLITE_OK) || (rc =? SQLITE_DONE) || (rc =? SQLITE_ROW).

Fixpoint bulk_loop (database bulk : Z) (statements bindings : list (option Z)) : D unit :=
  match statements, bindings with
  | statement :: statements, b :: bindings =>
    a ← the statement;
    b ← the b;
    s ← load_statement a;
    _ ← sqlite (Sq_reset (st_stmt s));
    '(who, rc) ← bind_bindings (st_stmt s) b;
    x ← load_bulk bulk;
    _ ← store bulk (Bulk (mkBulk (count x) (bulk_statements x) (bulk_mbindings x) who));
    if negb (rc =? SQLITE_OK) then update_database database (set_sqlite_rc rc) else
    rc ← sqlite_int (Sq_step (st_stmt s));
    if negb (step_succeeded rc) then update_database database (set_sqlite_rc rc) else
    _ ← sqlite (Sq_clear_bindings (st_stmt s));
    _ ← sqlite (Sq_reset (st_stmt s));
    bulk_loop database bulk statements bindings
  | _, _ => mret tt
  end.

Definition bulk_worker (database : Z) : D unit :=
  d ← load_database database;
  match request d with
  | BulkReq bulk =>
    x ← load_bulk bulk;
    statements ← load_pointers (bulk_statements x);
    bindings ← load_pointers (bulk_mbindings x);
    _ ← update_database database (set_sqlite_rc SQLITE_OK);
    let n := Z.to_nat (count x) in
    _ ← assert_ok (bool_decide (n <= length statements)%nat && bool_decide (n <= length bindings)%nat);
    bulk_loop database bulk (take n statements) (take n bindings)
  | _ => stuck
  end.

Definition bulk_cb (database : Z) : D unit :=
  d ← load_database database;
  let callback := db_callback d in
  match request d with
  | BulkReq bulk =>
    _ ← Sunlock_object callback;
    _ ← store database (Database (set_request (Sql 0) (sql_len d) (set_busy false (db_work d) Dvoid d)));
    x ← load_bulk bulk;
    let who := who x in
    _ ← free KPointers (bulk_mbindings x);
    _ ← free KPointers (bulk_statements x);
    _ ← free KBulk bulk;
    let rc := sqlite_rc d in
    arg ← (if step_succeeded rc then mret Dtrue
           else make_sqlite_error (default "osi_bulk_execute"%string who) rc (db d));
    add_callback1 callback arg
  | _ => stuck
  end.

(** The pointers of a vector: [Sunsigned_value] of each element. *)
Definition pointer_items (l : list datum) : D (list (option Z)) :=
  l ← the (mapM is_integer l); mret (Some <$> l).

Definition osi_bulk_execute (statements mbindings callback : datum) : D outcome :=
  match statements, mbindings with
  | Dvector ss, Dvector bs =>
    if negb (length ss =? length bs)%nat then mret (Return (error_pair "osi_bulk_execute" UV_EINVAL)) else
    match ss with
    | [] => mret (Return (error_pair "osi_bulk_execute" UV_EINVAL))
    | s0 :: _ =>
      a ← the (is_integer s0);
      s ← load_statement a;
      if st_database s =? 0 then mret (Return (error_pair "osi_bulk_execute" UV_EINVAL)) else
      d ← load_database (st_database s);
      if busy d then mret (Return (error_pair "osi_bulk_execute" UV_EBUSY)) else
      let n := length ss in
      bulk ← malloc (Bulk (mkBulk (Z.of_nat n) 0 0 None));
      if bulk =? 0 then mret (Return (error_pair "osi_bulk_execute" UV_ENOMEM)) else
      p ← malloc (Pointers (replicate n None));
      if p =? 0 then
        _ ← free KBulk bulk;
        mret (Return (error_pair "osi_bulk_execute" UV_ENOMEM))
      else
      q ← malloc (Pointers (replicate n None));
      if q =? 0 then
        _ ← free KPointers p;
        _ ← free KBulk bulk;
        mret (Return (error_pair "osi_bulk_execute" UV_ENOMEM))
      else
      ps ← pointer_items ss;
      _ ← store p (Pointers ps);
      qs ← pointer_items bs;
      _ ← store q (Pointers qs);
      _ ← store bulk (Bulk (mkBulk (Z.of_nat n) p q None));
      _ ← Slock_object callback;
      mret (Request (st_database s) Bulk_cb true Bulk_worker callback (Some (BulkReq bulk, sql_len d)))
    end
  | _, _ => mret (Return (error_pair "osi_bulk_execute" UV_EINVAL))
  end.

(** ** The worker thread *)

Definition run_work (w : work) : Z -> D unit :=
  match w with
  | Close_worker => close_worker
  | Prepare_worker => prepare_worker
  | Step_worker => step_worker
  | Bulk_worker => bulk_worker
  end.

(** *** The parts of a work function

    A work function runs without the mutex, so the main thread may run between any two of its
    accesses to memory.  Its local variables are then [progress]: it has not begun, or is
    between two iterations of [close_worker]; it has finalized the statement [s], which still
    refers to the database; [s] does not any more; it has the result of the library for a
    statement to prepare; or it has these statements and bindings of a bulk request before it.
    Between the parts are the accesses to what an operation of the main thread reads or
    writes while the database is busy. *)
Inductive progress :=
| Started
| Finalized (s : Z)
| Detached (s : Z)
| Prepared (stmt rc : Z)
| Executing (bulk : Z) (statements bindings : list (option Z)).

Definition detach (s : Z) : D unit := update_statement s (fun x => mkStatement 0 0 (st_prev x) (st_next x)).
Definition unlink (s : Z) : D unit := update_statement s (fun x => mkStatement (st_stmt x) (st_database x) 0 0).

Definition close_part (database : Z) : D progress :=
  d ← load_database database;
  let s := statement d in
  if s =? 0 then mret Started else
  x ← load_statement s;
  _ ← update_database database (set_statement (st_next x));
  _ ← sqlite (Sq_finalize (st_stmt x));
  mret (Finalized s).

Definition prepare_part (database : Z) : D progress :=
  d ← load_database database;
  match request d with
  | Sql a =>
    sql ← read_bytes a (sql_len d);
    h ← sqlite (Sq_prepare_v2 (db d) sql);
    _ ← update_database database (set_sqlite_rc (sq_result h));
    mret (Prepared (sq_handle h) (sq_result h))
  | _ => stuck
  end.

Definition prepare_rest (database stmt rc : Z) : D unit :=
  if rc =? SQLITE_OK then
    d ← load_database database;
    s ← malloc (Statement (mkStatement 0 0 0 0));
    if negb (s =? 0) then
      let next := statement d in
      _ ← store s (Statement (mkStatement stmt database 0 next));
      _ ← (if negb (next =? 0) then
             update_statement next (fun x => mkStatement (st_stmt x) (st_database x) s (st_next x))
           else mret tt);
      update_database database (set_statement s)
    else
      _ ← sqlite (Sq_finalize stmt);
      update_database database (set_sqlite_rc SQLITE_NOMEM)
  else mret tt.

Definition bulk_part (database : Z) : D progress :=
  d ← load_database database;
  match request d with
  | BulkReq bulk =>
    x ← load_bulk bulk;
    statements ← load_pointers (bulk_statements x);
    bindings ← load_pointers (bulk_mbindings x);
    _ ← update_database database (set_sqlite_rc SQLITE_OK);
    let n := Z.to_nat (count x) in
    _ ← assert_ok (bool_decide (n <= length statements)%nat && bool_decide (n <= length bindings)%nat);
    mret (Executing bulk (take n statements) (take n bindings))
  | _ => stuck
  end.

(** One iteration; nothing is left after an error. *)
Definition bulk_iteration (database bulk : Z) (statements bindings : list (option Z)) : D progress :=
  match statements, bindings with
  | statement :: statements, b :: bindings =>
    a ← the statement;
    b ← the b;
    s ← load_statement a;
    _ ← sqlite (Sq_reset (st_stmt s));
    '(who, rc) ← bind_bindings (st_stmt s) b;
    x ← load_bulk bulk;
    _ ← store bulk (Bulk (mkBulk (count x) (bulk_statements x) (bulk_mbindings x) who));
    if negb (rc =? SQLITE_OK) then _ ← update_database database (set_sqlite_rc rc); mret (Executing bulk [] []) else
    rc ← sqlite_int (Sq_step (st_stmt s));
    if negb (step_succeeded rc) then _ ← update_database database (set_sqlite_rc rc); mret (Executing bulk [] []) else
    _ ← sqlite (Sq_clear_bindings (st_stmt s));
    _ ← sqlite (Sq_reset (st_stmt s));
    mret (Executing bulk statements bindings)
  | _, _ => mret (Executing bulk [] [])
  end.

(** The next part of the work function [w]; a step of a statement is one call of the library. *)
Definition work_part (w : work) (p : progress) (database : Z) : D progress :=
  match w, p with
  | Close_worker, Started => close_part database
  | Close_worker, Finalized s => _ ← detach s; mret (Detached s)
  | Close_worker, Detached s => _ ← unlink s; mret Started
  | Prepare_worker, Started => prepare_part database
  | Bulk_worker, Started => bulk_part database
  | Bulk_worker, Executing bulk ss bs => bulk_iteration database bulk ss bs
  | _, _ => mret p
  end.

(** What is left of it, to its return. *)
Definition work_rest (w : work) (p : progress) (database : Z) : D unit :=
  match w, p with
  | Close_worker, Finalized s => _ ← detach s; _ ← unlink s; close_worker database
  | Close_worker, Detached s => _ ← unlink s; close_worker database
  | Prepare_worker, Prepared stmt rc => prepare_rest database stmt rc
  | Bulk_worker, Executing bulk ss bs => bulk_loop database bulk ss bs
  | _, _ => run_work w database
  end.

Definition run_async_cb (cb : uv_async_cb) : Z -> D unit :=
  match cb with
  | Close_cb => close_cb
  | Prepare_cb => prepare_cb
  | Step_cb => step_cb
  | Bulk_cb => bulk_cb
  end.

(** [async_cb]: the callback is the one in [async.data]. *)
Definition async_cb (database : Z) : D unit :=
  d ← load_database database;
  cb ← the (async_data d);
  _ ← store database (Database (set_async_sent false d));
  run_async_cb cb database.

Definition is_close (w : work) : bool := match w with Close_worker => true | _ => false end.

(** One step of [database_worker]; a step that takes the mutex is possible when it is free.
    [None] means that the thread has to wait.  A work function has come to [p] by parts of its
    own, and is run to its end. *)
Definition worker_step (database : Z) (p : progress) (d : database_t) : option (D unit) :=
  match thread d, mutex d with
  | (Starting | Woken), Unlocked =>
    Some (store database (Database (set_mutex Locked (set_thread Looking d))))
  | Looking, _ =>
    Some (match db_work d with
          | Some w => store database (Database (set_mutex Unlocked (set_thread (Working w) d)))
          | None => store database (Database (set_mutex Unlocked (set_thread Waiting d)))
          end)
  | Working w, _ =>
    Some (_ ← work_rest w p database; update_database database (set_thread (Returned w)))
  | Returned w, Unlocked =>
    Some (store database (Database (set_async_sent true
      (set_busy (busy d) None (db_callback d) (set_mutex Locked (set_thread (Sent w) d))))))
  | Sent w, _ =>
    Some (if is_close w && (SQLITE_OK =? sqlite_rc d) then
            store database (Database (set_mutex Unlocked (set_thread Gone d)))
          else store database (Database (set_mutex Unlocked (set_thread Waiting d))))
  | _, _ => None
  end.
End database.
