(* ===== verification/WorkParts.v ===== *)
(** * WorkParts: a work function and its parts

    The worker of a database comes to the end of its work function by parts, between which the
    main thread may run.  When it does not, the parts make up the function. *)

From S2P Require Export Database.
Section agree.
Context {L : Sqlite} {C : Scheme}.

Lemma bind_run {A B} (m : D A) (k : A -> D B) s x s' : m s = Some (x, s') -> (m ≫= k) s = k x s'.
Proof. unfold mbind, St_bind. by intros ->. Qed.
Lemma bind_inv {A B} (m : D A) (k : A -> D B) s r : (m ≫= k) s = Some r -> exists x s', m s = Some (x, s') /\ k x s' = Some r.
Proof. unfold mbind, St_bind. destruct (m s) as [[x s']|]; [|done]. intros H. by exists x, s'. Qed.

Lemma bind_assoc_run {A B E} (m : D A) (f : A -> D B) (g : B -> D E) s : ((m ≫= f) ≫= g) s = (m ≫= (fun x => f x ≫= g)) s.
Proof. unfold mbind, St_bind. by destruct (m s) as [[x s']|]. Qed.
Lemma bind_ext_run {A B} (m : D A) (f g : A -> D B) s : (forall x s', m s = Some (x, s') -> f x s' = g x s') -> (m ≫= f) s = (m ≫= g) s.
Proof. intros H. unfold mbind, St_bind. destruct (m s) as [[x s']|] eqn:E; [by apply H|done]. Qed.

(** Both sides begin with the same call. *)
Ltac same_call := rewrite bind_assoc_run; apply bind_ext_run; let x := fresh "x" in let s := fresh "s" in let E := fresh "E" in intros x s E; cbv beta zeta.

Lemma close_statements_more n : forall m a s r, (n <= m)%nat -> close_statements n a s = Some r -> close_statements m a s = Some r.
Proof.
  induction n as [|n IH]; intros [|m] a s r Hm H; try done; [lia|]. cbn [close_statements] in *.
  apply bind_inv in H as (d & s1 & Hd & H). rewrite (bind_run _ _ _ _ _ Hd). destruct (statement d =? 0); [done|].
  apply bind_inv in H as (x & s2 & Hx & H). rewrite (bind_run _ _ _ _ _ Hx).
  apply bind_inv in H as ([] & s3 & Hu & H). rewrite (bind_run _ _ _ _ _ Hu).
  apply bind_inv in H as (h & s4 & Hf & H). rewrite (bind_run _ _ _ _ _ Hf).
  apply bind_inv in H as ([] & s5 & Hst & H). rewrite (bind_run _ _ _ _ _ Hst). apply IH; [lia|done].
Qed.

Lemma load_statement_inv a s x s' : load_statement a s = Some (x, s') -> blocks s !! a = Some (Statement x) /\ s' = s.
Proof.
  unfold load_statement, load, the, look, mbind, St_bind. destruct (blocks s !! a) as [[]|] eqn:E; try done. cbn. by intros [= <- <-].
Qed.
Lemma load_database_inv a s x s' : load_database a s = Some (x, s') -> blocks s !! a = Some (Database x) /\ s' = s.
Proof.
  unfold load_database, load, the, look, mbind, St_bind. destruct (blocks s !! a) as [[]|] eqn:E; try done. cbn. by intros [= <- <-].
Qed.
Lemma update_statement_run a f s x : blocks s !! a = Some (Statement x) ->
  update_statement a f s = Some (tt, set_blocks (<[a := Statement (f x)]> (blocks s)) s).
Proof.
  intros Hx. unfold update_statement, load_statement, store, load, the, look, assert_ok, change, mbind, St_bind. rewrite Hx. cbn. rewrite Hx. cbn. done.
Qed.
Lemma update_database_run a f s x : blocks s !! a = Some (Database x) ->
  update_database a f s = Some (tt, set_blocks (<[a := Database (f x)]> (blocks s)) s).
Proof.
  intros Hx. unfold update_database, load_database, store, load, the, look, assert_ok, change, mbind, St_bind. rewrite Hx. cbn. rewrite Hx. cbn. done.
Qed.
Lemma store_statement_run a y s x : blocks s !! a = Some (Statement x) ->
  store a (Statement y) s = Some (tt, set_blocks (<[a := Statement y]> (blocks s)) s).
Proof. intros Hx. unfold store, load, the, look, assert_ok, change, mbind, St_bind. rewrite Hx. cbn. done. Qed.

Lemma detach_unlink s0 s x : blocks s !! s0 = Some (Statement x) ->
  (_ ← detach s0; unlink s0) s = store s0 (Statement (mkStatement 0 0 0 0)) s.
Proof.
  intros Hx. unfold detach, unlink. rewrite (store_statement_run _ _ _ _ Hx).
  rewrite (bind_run _ _ _ _ _ (update_statement_run _ _ _ _ Hx)).
  rewrite (update_statement_run _ _ _ (mkStatement 0 0 (st_prev x) (st_next x))) by apply lookup_insert_eq. cbn. by rewrite insert_insert_eq.
Qed.

(** Closing begins with the first statement, and goes on with the others. *)
Lemma close_part_agrees a s r : close_worker a s = Some r -> (p ← close_part a; work_rest Close_worker p a) s = Some r.
Proof.
  intros H. unfold close_worker in H at 1. apply bind_inv in H as (s0 & s0' & Hlook & H). injection Hlook as <- <-.
  apply bind_inv in H as ([] & s1 & Hloop & Hend). cbn [close_statements] in Hloop. unfold close_part. rewrite bind_assoc_run.
  apply bind_inv in Hloop as (d & s2 & Hd & Hloop). pose proof (load_database_inv _ _ _ _ Hd) as [Hd' ->]. rewrite (bind_run _ _ _ _ _ Hd).
  destruct (Z.eqb_spec (statement d) 0) as [E|E].
  - injection Hloop as <-. rewrite (bind_run _ _ _ Started s) by done. cbn [work_rest run_work]. unfold close_worker.
    rewrite (bind_run look _ s s s) by done.
    rewrite (bind_run _ _ s tt s) by (cbn [close_statements]; rewrite (bind_run _ _ _ _ _ Hd), (proj2 (Z.eqb_eq _ _) E); done). done.
  - rewrite bind_assoc_run. apply bind_inv in Hloop as (x & s2 & Hx & Hloop). pose proof (load_statement_inv _ _ _ _ Hx) as [Hx' ->]. rewrite (bind_run _ _ _ _ _ Hx).
    rewrite bind_assoc_run. apply bind_inv in Hloop as ([] & s2 & Hu & Hloop). rewrite (bind_run _ _ _ _ _ Hu).
    rewrite bind_assoc_run. apply bind_inv in Hloop as (h & s3 & Hf & Hloop). rewrite (bind_run _ _ _ _ _ Hf).
    rewrite (bind_run _ _ _ (Finalized (statement d)) s3) by done. cbn [work_rest].
    apply bind_inv in Hloop as ([] & s4 & Hs & Hloop).
    assert (Hne : a <> statement d) by (intros Hae; rewrite <- Hae in Hx'; congruence).
    assert (Hdom : dom (blocks s4) = dom (blocks s) /\ is_Some (blocks s3 !! statement d)).
    { rewrite (update_database_run _ _ _ _ Hd') in Hu. injection Hu as <-. unfold sqlite in Hf. injection Hf as _ <-.
      cbn [blocks set_blocks set_history] in *. rewrite (store_statement_run _ _ _ x) in Hs by (cbn; by rewrite lookup_insert_ne).
      injection Hs as <-. cbn [blocks set_blocks set_history]. rewrite lookup_insert_ne by done. split; [|by eexists].
      rewrite !dom_insert_lookup_L; [done|by eexists|rewrite lookup_insert_ne by done; by eexists]. }
    destruct Hdom as [Hdom Hs3]. assert (Hx3 : exists y, blocks s3 !! statement d = Some (Statement y)).
    { rewrite (update_database_run _ _ _ _ Hd') in Hu. injection Hu as <-. unfold sqlite in Hf. injection Hf as _ <-.
      cbn [blocks set_blocks set_history]. rewrite lookup_insert_ne by done. by exists x. }
    destruct Hx3 as [y Hy]. rewrite <- (bind_assoc_run (detach (statement d))).
    rewrite (bind_run _ _ _ tt s4) by (by rewrite (detach_unlink _ _ _ Hy)).
    unfold close_worker. rewrite (bind_run look _ s4 s4 s4) by done. rewrite Hdom.
    rewrite (bind_run _ _ _ tt s1) by (eapply close_statements_more, Hloop; lia). done.
Qed.

Lemma read_bytes_inv a n s l s' : read_bytes a n s = Some (l, s') -> s' = s.
Proof.
  unfold read_bytes, load_bytes, load, the, look, assert_ok, mbind, St_bind. destruct (blocks s !! a) as [[b| | | | | |]|]; try done. cbn.
  destruct (_ && _); [by intros [= _ <-]|done].
Qed.

Lemma prepare_part_agrees a s r : prepare_worker a s = Some r -> (p ← prepare_part a; work_rest Prepare_worker p a) s = Some r.
Proof.
  intros H. unfold prepare_worker in H. unfold prepare_part. rewrite bind_assoc_run.
  apply bind_inv in H as (d & s1 & Hd & H). pose proof (load_database_inv _ _ _ _ Hd) as [Hd' ->]. rewrite (bind_run _ _ _ _ _ Hd).
  destruct (request d) as [b| |]; try done. rewrite bind_assoc_run. apply bind_inv in H as (sql & s1 & Hsql & H). rewrite (bind_run _ _ _ _ _ Hsql).
  rewrite bind_assoc_run. apply bind_inv in H as (h & s2 & Hh & H). rewrite (bind_run _ _ _ _ _ Hh).
  pose proof (read_bytes_inv _ _ _ _ _ Hsql) as ->. unfold sqlite in Hh. injection Hh as <- <-. set (h := _ :: _) in *. set (s2 := set_history h s) in *.
  assert (Hd2 : blocks s2 !! a = Some (Database d)) by exact Hd'.
  rewrite bind_assoc_run. apply bind_inv in H as ([] & s3 & Hrc & H). rewrite (bind_run _ _ _ _ _ Hrc).
  rewrite (bind_run _ _ _ (Prepared (sq_handle h) (sq_result h)) s3) by done. cbn [work_rest]. unfold prepare_rest.
  destruct (sq_result h =? SQLITE_OK); [|exact H].
  rewrite (update_database_run _ _ _ _ Hd2) in Hrc. injection Hrc as <-.
  rewrite (bind_run _ _ _ (set_sqlite_rc (sq_result h) d) (set_blocks (<[a:=Database (set_sqlite_rc (sq_result h) d)]> (blocks s2)) s2)); [exact H|].
  unfold load_database, load, the, look, mbind, St_bind. cbn [blocks set_blocks]. by rewrite lookup_insert_eq.
Qed.

Lemma bulk_part_agrees a s r : bulk_worker a s = Some r -> (p ← bulk_part a; work_rest Bulk_worker p a) s = Some r.
Proof.
  intros <-. unfold bulk_part, bulk_worker. same_call. destruct (request x); try done.
  do 4 same_call.
  same_call. done.
Qed.

Lemma bulk_iteration_agrees a bulk ss bs s r : bulk_loop a bulk ss bs s = Some r ->
  (p ← bulk_iteration a bulk ss bs; work_rest Bulk_worker p a) s = Some r.
Proof.
  intros <-. destruct ss as [|x ss], bs as [|b bs]; try done. cbn [bulk_iteration bulk_loop].
  do 4 same_call.
  rewrite bind_assoc_run. apply bind_ext_run. intros [who rc] s' _. do 2 same_call.
  destruct (negb (rc =? SQLITE_OK)).
  - rewrite bind_assoc_run. unfold mbind, St_bind, mret, St_ret. cbn. by destruct (update_database _ _ _) as [[[] ?]|].
  - same_call. destruct (negb (step_succeeded _)).
    + rewrite bind_assoc_run. unfold mbind, St_bind, mret, St_ret. cbn. by destruct (update_database _ _ _) as [[[] ?]|].
    + same_call. same_call. done.
Qed.

(** Theorem: running a part of a work function and then the rest is running the rest from the start, when
    nothing comes between. *)
Theorem work_part_agrees w p a s r : work_rest w p a s = Some r -> (p' ← work_part w p a; work_rest w p' a) s = Some r.
Proof.
  intros H. destruct w, p; cbn [work_part work_rest run_work] in *;
    first [exact H|by apply close_part_agrees|by apply prepare_part_agrees|by apply bulk_part_agrees|by apply bulk_iteration_agrees|by rewrite bind_assoc_run].
Qed.
End agree.
