(* ===== verification/Statements.v ===== *)
(** * Statements: the list of statements of a database, and bound parameters

    The doubly linked list sqlite.c keeps of the statements of a database: preparing adds to its
    front, finalizing unlinks, closing finalizes all that is left.  Then the calls that bind the
    parameters of a statement, and what is reported of their results. *)

From S2P Require Import Utf8.
From S2P Require Export Database.

(** ** The list of statements

    The statements of a database form a doubly linked list.  [seg m d p h l p' h']: the
    statements of [l] follow each other from [h], the first one's [prev] being [p], up to [p']
    whose [next] is [h']. *)

Fixpoint seg (m : gmap Z block) (d p h : Z) (l : list Z) (p' h' : Z) : Prop :=
  match l with
  | [] => p' = p /\ h' = h
  | a :: l => h = a /\ a <> 0 /\ exists stmt next,
      m !! a = Some (Statement (mkStatement stmt d p next)) /\ seg m d a next l p' h'
  end.

(** The handles of the statements of a list. *)
Definition handle_of (m : gmap Z block) (a : Z) : Z :=
  match m !! a with Some (Statement s) => st_stmt s | _ => 0 end.

Definition has_statements (m : gmap Z block) (d : Z) (x : database_t) (l : list Z) : Prop :=
  m !! d = Some (Database x) /\ d <> 0 /\ NoDup l /\ exists p, seg m d 0 (statement x) l p 0.

Lemma seg_frame m m' d p h l p' h' :
  (forall a, a ∈ l -> m' !! a = m !! a) -> seg m d p h l p' h' -> seg m' d p h l p' h'.
Proof.
  revert p h. induction l as [|a l IH]; intros p h Hm; cbn [seg]; [done|].
  intros (-> & Ha & stmt & next & Hl & Hs). split; [done|]. split; [done|].
  exists stmt, next. rewrite Hm by (apply elem_of_cons; by left). split; [done|].
  apply IH; [|done]. intros b Hb. apply Hm, elem_of_cons. by right.
Qed.

Lemma seg_app m d l1 l2 : forall p h p' h',
  seg m d p h (l1 ++ l2) p' h' <-> exists q k, seg m d p h l1 q k /\ seg m d q k l2 p' h'.
Proof.
  induction l1 as [|a l1 IH]; intros p h p' h'; cbn [app seg].
  - split; [by intros; exists p, h|]. by intros (q & k & [-> ->] & H).
  - split.
    + intros (-> & Ha & stmt & next & Hl & (q & k & H1 & H2)%IH). exists q, k.
      split; [|done]. split; [done|]. split; [done|]. by exists stmt, next.
    + intros (q & k & (-> & Ha & stmt & next & Hl & H1) & H2). split; [done|]. split; [done|].
      exists stmt, next. split; [done|]. apply IH. by exists q, k.
Qed.

Lemma seg_statement m d p h l p' h' a : seg m d p h l p' h' -> a ∈ l ->
  exists stmt prev next, m !! a = Some (Statement (mkStatement stmt d prev next)).
Proof.
  revert p h. induction l as [|b l IH]; intros p h; cbn [seg]; [by intros _ ?%elem_of_nil|].
  intros (-> & Ha & stmt & next & Hl & Hs) [->|Hin]%elem_of_cons; [by eexists _, _, _|by eapply IH].
Qed.

(** A non-empty segment ends at its last statement, an empty one where it starts. *)
Lemma seg_last m d p h l p' h' : seg m d p h l p' h' ->
  (l = [] /\ p' = p) \/ exists l0, l = l0 ++ [p'] /\ p' <> 0.
Proof.
  destruct l as [|b l0] using rev_ind; [by intros [-> _]; left|].
  intros (q & k & _ & H)%seg_app. right. cbn [seg] in H.
  destruct H as (-> & Hb & stmt & next & _ & -> & _). by exists l0.
Qed.

Lemma seg_set_next m d p h l0 b h' k : NoDup (l0 ++ [b]) ->
  seg m d p h (l0 ++ [b]) b h' -> exists stmt prev,
    m !! b = Some (Statement (mkStatement stmt d prev h')) /\
    seg (<[b := Statement (mkStatement stmt d prev k)]> m) d p h (l0 ++ [b]) b k.
Proof.
  intros Hnd (q & j & H1 & H2)%seg_app. cbn [seg] in H2.
  destruct H2 as (-> & Hb & stmt & next & Hl & _ & ->). exists stmt, q. split; [done|].
  apply seg_app. exists q, b. split.
  - eapply seg_frame; [|exact H1]. intros a Ha. apply lookup_insert_ne. intros ->.
    apply NoDup_app in Hnd as (_ & Hd & _). eapply Hd; [exact Ha|by apply list_elem_of_singleton].
  - cbn [seg]. split; [done|]. split; [done|]. exists stmt, k. by rewrite lookup_insert_eq.
Qed.

Lemma seg_set_prev m d p h b l p' h' k : NoDup (b :: l) ->
  seg m d p h (b :: l) p' h' -> exists stmt next,
    m !! b = Some (Statement (mkStatement stmt d p next)) /\ h = b /\
    seg (<[b := Statement (mkStatement stmt d k next)]> m) d k h (b :: l) p' h'.
Proof.
  intros [Hb Hnd]%NoDup_cons. cbn [seg]. intros (-> & Hne & stmt & next & Hl & Hs).
  exists stmt, next. split; [done|]. split; [done|]. split; [done|]. split; [done|]. exists stmt, next.
  rewrite lookup_insert_eq. split; [done|]. eapply seg_frame; [|exact Hs].
  intros a Ha. apply lookup_insert_ne. by intros ->.
Qed.

(** The database block is not one of the statements. *)
Lemma seg_not_database m d p h l p' h' x : seg m d p h l p' h' -> m !! d = Some (Database x) -> d ∉ l.
Proof. intros Hs Hd Hin. destruct (seg_statement _ _ _ _ _ _ _ _ Hs Hin) as (? & ? & ? & E). congruence. Qed.

(** ** Rules for the primitive steps *)

Section rules.
Context {L : Sqlite} {C : Scheme}.

Lemma ok_load_database s a x (Q : database_t -> sq_state -> Prop) :
  blocks s !! a = Some (Database x) -> Q x s -> ok (load_database a) s Q.
Proof. intros Ha HQ. apply ok_bind. by eapply ok_load. Qed.

Lemma ok_load_statement s a x (Q : statement_t -> sq_state -> Prop) :
  blocks s !! a = Some (Statement x) -> Q x s -> ok (load_statement a) s Q.
Proof. intros Ha HQ. apply ok_bind. by eapply ok_load. Qed.

Lemma ok_update_database s a f x (Q : unit -> sq_state -> Prop) :
  blocks s !! a = Some (Database x) -> Q tt (set_blocks (<[a := Database (f x)]> (blocks s)) s) ->
  ok (update_database a f) s Q.
Proof. intros Ha HQ. apply ok_bind. eapply ok_load_database; [exact Ha|]. by eapply ok_store; [exact Ha|done|]. Qed.

Lemma ok_update_statement s a f x (Q : unit -> sq_state -> Prop) :
  blocks s !! a = Some (Statement x) -> Q tt (set_blocks (<[a := Statement (f x)]> (blocks s)) s) ->
  ok (update_statement a f) s Q.
Proof. intros Ha HQ. apply ok_bind. eapply ok_load_statement; [exact Ha|]. by eapply ok_store; [exact Ha|done|]. Qed.

Lemma ok_sqlite s c (Q : list sqlite_call -> sq_state -> Prop) :
  Q (c :: history s) (set_history (c :: history s) s) -> ok (sqlite c) s Q.
Proof. intros HQ. apply ok_bind, ok_change, ok_bind, ok_look. by apply ok_ret. Qed.

Lemma ok_sqlite_int s c (Q : Z -> sq_state -> Prop) :
  Q (sq_result (c :: history s)) (set_history (c :: history s) s) -> ok (sqlite_int c) s Q.
Proof. intros HQ. by apply ok_bind, ok_sqlite, ok_ret. Qed.

(** *** Preparing *)

(** A new statement goes to the front of the list. *)
Lemma seg_push m d x l s stmt :
  has_statements m d x l -> m !! s = None -> s <> 0 ->
  has_statements
    (<[d := Database (set_statement s x)]>
       (match l with
        | [] => <[s := Statement (mkStatement stmt d 0 (statement x))]> m
        | b :: _ => alter (fun y => match y with
            | Statement z => Statement (mkStatement (st_stmt z) (st_database z) s (st_next z))
            | y => y end) b (<[s := Statement (mkStatement stmt d 0 (statement x))]> m)
        end)) d (set_statement s x) (s :: l).
Proof.
  intros (Hd & Hd0 & Hnd & p & Hs) Hn H0.
  assert (Hsl : s ∉ l) by (intros Hin; destruct (seg_statement _ _ _ _ _ _ _ _ Hs Hin) as (? & ? & ? & E); by rewrite Hn in E).
  assert (Hsd : s <> d) by (intros ->; by rewrite Hn in Hd).
  pose proof (seg_not_database _ _ _ _ _ _ _ _ Hs Hd) as Hdl.
  split; [by rewrite lookup_insert_eq|]. split; [done|]. split; [by constructor|].
  destruct l as [|b l].
  - destruct Hs as [-> Hz]. exists s. cbn [statement set_statement seg]. split; [done|]. split; [done|].
    exists stmt, 0. rewrite lookup_insert_ne, lookup_insert_eq by done. by rewrite <- Hz.
  - destruct (seg_set_prev _ _ _ _ _ _ _ _ s Hnd Hs) as (st & nx & Hb & Hh & Hs').
    assert (Hbs : b <> s) by (intros ->; apply Hsl, elem_of_cons; by left).
    exists p. cbn [statement set_statement].
    change (seg ?m d 0 s (s :: b :: l) p 0) with (s = s /\ s <> 0 /\ exists stmt next,
      m !! s = Some (Statement (mkStatement stmt d 0 next)) /\ seg m d s next (b :: l) p 0).
    split; [done|]. split; [done|]. exists stmt, (statement x). split.
    + rewrite lookup_insert_ne by done. rewrite lookup_alter_ne by done. apply lookup_insert_eq.
    + eapply seg_frame; [|exact Hs']. intros a Ha.
      assert (a <> d) by (intros ->; by apply Hdl). assert (a <> s) by (intros ->; by apply Hsl).
      rewrite lookup_insert_ne by done. destruct (decide (a = b)) as [->|Hne].
      * rewrite lookup_alter_eq, lookup_insert_eq, lookup_insert_ne, Hb by done. done.
      * rewrite lookup_alter_ne, !lookup_insert_ne by done. done.
Qed.
End rules.

Lemma alter_insert_eq {A} (f : A -> A) (m : gmap Z A) i v :
  m !! i = Some v -> alter f i m = <[i := f v]> m.
Proof.
  intros Hi. apply map_eq. intros j. destruct (decide (j = i)) as [->|Hne].
  - by rewrite lookup_alter_eq, lookup_insert_eq, Hi.
  - by rewrite lookup_alter_ne, lookup_insert_ne.
Qed.

(** A change of the database that keeps its list. *)
Lemma has_statements_update m d x l x' :
  has_statements m d x l -> statement x' = statement x ->
  has_statements (<[d := Database x']> m) d x' l.
Proof.
  intros (Hd & Hd0 & Hnd & p & Hs) E. split; [apply lookup_insert_eq|]. split; [done|]. split; [done|].
  exists p. rewrite E. eapply seg_frame; [|exact Hs]. intros a Ha. apply lookup_insert_ne.
  intros ->. by eapply seg_not_database.
Qed.

Section statements.
Context {L : Sqlite} {C : Scheme}.

(** [prepare_worker]: the library's error, or memory exhausted and the handle released, or the
    new statement at the front of the list. *)
Definition prepared (d : Z) (x : database_t) (sql : list Z) (l : list Z) (s : sq_state) (s' : sq_state) :
    Prop :=
  let h := Sq_prepare_v2 (db x) sql :: history s in
  locks s' = locks s /\ callbacks s' = callbacks s /\
  ((sq_result h <> SQLITE_OK /\ history s' = h /\
      has_statements (blocks s') d (set_sqlite_rc (sq_result h) x) l) \/
   (sq_result h = SQLITE_OK /\ history s' = Sq_finalize (sq_handle h) :: h /\
      has_statements (blocks s') d (set_sqlite_rc SQLITE_NOMEM x) l) \/
   (sq_result h = SQLITE_OK /\ history s' = h /\
      has_statements (blocks s') d (set_statement (fresh s) (set_sqlite_rc SQLITE_OK x)) (fresh s :: l) /\
      handle_of (blocks s') (fresh s) = sq_handle h)).

Lemma prepare_worker_spec s d x a n sql l :
  sane s -> has_statements (blocks s) d x l -> request x = Sql a -> sql_len x = Z.of_nat n ->
  blocks s !! a = Some (Bytes sql) -> (n <= length sql)%nat ->
  ok (prepare_worker d) s (fun _ s' => sane s' /\ prepared d x (take n sql) l s s').
Proof.
  intros [H0 Hf] Hhas Hreq Hlen Ha Hn. pose proof Hhas as (Hd & Hd0 & Hnd & p & Hs).
  unfold prepare_worker. apply ok_bind. eapply ok_load_database; [exact Hd|]. rewrite Hreq.
  apply ok_bind. rewrite Hlen. eapply read_bytes_spec; [exact Ha|done|].
  apply ok_bind, ok_sqlite, ok_bind. eapply ok_update_database; [exact Hd|].
  set (h := _ :: history s). cbn [blocks set_blocks set_history].
  set (m1 := <[d := _]> (blocks s)).
  assert (Hm1 : m1 !! d = Some (Database (set_sqlite_rc (sq_result h) x))) by apply lookup_insert_eq.
  assert (Hh1 : has_statements m1 d (set_sqlite_rc (sq_result h) x) l) by (by eapply has_statements_update).
  assert (Hf1 : unused (fresh s) m1).
  { intros k Hk. unfold m1. rewrite lookup_insert_ne; [by apply Hf|].
    intros ->. rewrite Hf in Hd by done. done. }
  destruct (Z.eqb_spec (sq_result h) SQLITE_OK) as [Erc|Erc].
  2: { apply ok_ret. split; [done|]. split; [done|]. split; [done|]. by left. }
  apply ok_bind, ok_malloc; intros Hans; cbn in Hans.
  { cbn [Z.eqb negb]. apply ok_bind, ok_sqlite. eapply ok_update_database; [exact Hm1|].
    split; [split; [done|]|].
    - intros k Hk. cbn in Hk |- *. rewrite lookup_insert_ne; [by apply Hf1|].
      intros ->. by rewrite Hf1 in Hm1.
    - split; [done|]. split; [done|]. right; left. split; [done|]. split; [done|]. cbn.
      by eapply (has_statements_update _ _ (set_sqlite_rc (sq_result h) x)). }
  cbn [fresh set_blocks set_history]. destruct (Z.eqb_spec (fresh s) 0) as [|_]; [lia|]. cbn [negb].
  apply ok_bind. eapply ok_store; [apply lookup_insert_eq|done|]. cbn. rewrite insert_insert_eq.
  pose proof (seg_push m1 d _ l (fresh s) (sq_handle h) Hh1 (Hf1 (fresh s) (Z.le_refl _)) ltac:(lia)) as Hpush.
  assert (Hdf : d <> fresh s) by (intros ->; by rewrite Hf1 in Hm1 by lia).
  assert (Hend : forall m2 : gmap Z block, m2 !! d = Some (Database (set_sqlite_rc (sq_result h) x)) ->
    (forall k, fresh s < k -> m2 !! k = m1 !! k) ->
    has_statements (<[d := Database (set_statement (fresh s) (set_sqlite_rc (sq_result h) x))]> m2) d
      (set_statement (fresh s) (set_sqlite_rc (sq_result h) x)) (fresh s :: l) ->
    (exists prev next, m2 !! fresh s = Some (Statement (mkStatement (sq_handle h) d prev next))) ->
    forall s2, locks s2 = locks s -> callbacks s2 = callbacks s -> history s2 = h -> fresh s2 = fresh s + 1 ->
    blocks s2 = m2 ->
    ok (update_database d (set_statement (fresh s))) s2 (fun _ s' => sane s' /\ prepared d x (take n sql) l s s')).
  { intros m2 Hd2 Hk2 Hp2 Hn2 s2 E1 E2 E3 E4 E5. eapply ok_update_database; [rewrite E5; exact Hd2|].
    rewrite E5. split.
    - split; cbn; [lia|]. intros k Hk. rewrite lookup_insert_ne; [rewrite Hk2 by lia; apply Hf1; lia|].
      intros ->. rewrite Hk2 in Hd2 by lia. rewrite Hf1 in Hd2 by lia. done.
    - split; [done|]. split; [done|]. right; right. split; [done|]. split; [done|]. cbn.
      rewrite Erc in Hp2. rewrite Erc. split; [exact Hp2|]. unfold handle_of.
      destruct Hn2 as (pv & nx & E). rewrite lookup_insert_ne by done. by rewrite E. }
  assert (Hnew : forall b, m1 !! b <> None -> b <> fresh s) by (intros b Hb ->; by rewrite Hf1 in Hb by lia).
  destruct l as [|b l].
  - destruct Hs as [_ Hz]. rewrite <- Hz. cbn [Z.eqb negb].
    apply ok_bind, ok_ret. eapply Hend; [| |exact Hpush| | | | | |]; try done.
    + by rewrite lookup_insert_ne.
    + intros k Hk. rewrite lookup_insert_ne by lia. done.
    + do 2 eexists. apply lookup_insert_eq.
    + cbn. by rewrite <- Hz.
  - destruct Hh1 as (_ & _ & _ & p1 & Hs1). cbn [seg statement set_sqlite_rc] in Hs1.
    destruct Hs1 as (Hb & Hb0 & st & nx & Hlb & _). rewrite Hb.
    rewrite (proj2 (Z.eqb_neq b 0) Hb0). cbn [negb].
    assert (Hbf : b <> fresh s) by (apply Hnew; by rewrite Hlb).
    assert (Hbl : <[fresh s := Statement (mkStatement (sq_handle h) d 0 b)]> m1 !! b
      = Some (Statement (mkStatement st d 0 nx))) by (by rewrite lookup_insert_ne).
    apply ok_bind. eapply ok_update_statement; [cbn; rewrite <- Hb in Hbl; rewrite <- Hb; exact Hbl|].
    cbn [statement set_sqlite_rc] in Hpush. rewrite Hb in Hpush.
    erewrite alter_insert_eq in Hpush by exact Hbl.
    assert (Hbd : b <> d) by (intros ->; by rewrite Hm1 in Hlb).
    eapply Hend; [| |exact Hpush| | | | | |]; cbn; rewrite ?Hb; try done.
    + by rewrite !lookup_insert_ne.
    + intros k Hk. rewrite lookup_insert_ne; [by rewrite lookup_insert_ne by lia|].
      intros ->. rewrite Hf1 in Hlb by lia. done.
    + do 2 eexists. rewrite lookup_insert_ne by done. apply lookup_insert_eq.
Qed.
End statements.

Section finalize.
Context {L : Sqlite} {C : Scheme}.

Lemma set_statement_id x : set_statement (statement x) x = x.
Proof. by destruct x. Qed.

(** Unlinking forwards: the statement before [a], or the head of the list, now leads to [n]. *)
Lemma unlink_next m d x l1 p a n l2 q :
  m !! d = Some (Database x) -> NoDup (l1 ++ a :: l2) ->
  seg m d 0 (statement x) l1 p a -> seg m d a n l2 q 0 -> (p = 0 <-> l1 = []) ->
  exists m' x', (p = 0 /\ m' = <[d := Database (set_statement n x)]> m /\ x' = set_statement n x \/
      p <> 0 /\ x' = x /\ exists st pv, m !! p = Some (Statement (mkStatement st d pv a)) /\
        m' = <[p := Statement (mkStatement st d pv n)]> m) /\
    m' !! d = Some (Database x') /\ seg m' d 0 (statement x') l1 p n /\ seg m' d a n l2 q 0 /\
    (forall b, b ∉ l1 -> b <> d -> m' !! b = m !! b).
Proof.
  intros Hd Hnd H1 H2 Hp. destruct (decide (l1 = [])) as [->|Hne].
  - destruct H1 as [-> _]. exists (<[d := Database (set_statement n x)]> m), (set_statement n x).
    split; [left; done|]. split; [apply lookup_insert_eq|]. split; [by split|]. split.
    + eapply seg_frame; [|exact H2]. intros b Hb. apply lookup_insert_ne.
      intros <-. by eapply seg_not_database.
    + intros b _ Hb. by apply lookup_insert_ne.
  - destruct (seg_last _ _ _ _ _ _ _ H1) as [[-> _]|(l0 & -> & Hp0)]; [done|].
    apply NoDup_app in Hnd as (Hnd1 & Hdis & Hnd2).
    destruct (seg_set_next _ _ _ _ _ _ _ n Hnd1 H1) as (st & pv & Hl & Hs').
    assert (p <> d) by (intros ->; by rewrite Hd in Hl).
    exists (<[p := Statement (mkStatement st d pv n)]> m), x.
    split; [right; split; [done|]; split; [done|]; by exists st, pv|].
    split; [by rewrite lookup_insert_ne|]. split; [done|]. split.
    + eapply seg_frame; [|exact H2]. intros b Hb. apply lookup_insert_ne. intros <-.
      eapply (Hdis p); [apply elem_of_app; right; by apply list_elem_of_singleton|apply elem_of_cons; by right].
    + intros b Hb _. apply lookup_insert_ne. intros <-. apply Hb, elem_of_app. right.
      by apply list_elem_of_singleton.
Qed.

(** Unlinking backwards: the statement after [a] now has [p] before it. *)
Lemma unlink_prev m d x l1 p a n l2 q :
  m !! d = Some (Database x) -> NoDup (l1 ++ l2) ->
  seg m d 0 (statement x) l1 p n -> seg m d a n l2 q 0 -> (n = 0 <-> l2 = []) ->
  exists m' q', (n = 0 /\ m' = m \/ n <> 0 /\ exists st nx,
      m !! n = Some (Statement (mkStatement st d a nx)) /\
      m' = <[n := Statement (mkStatement st d p nx)]> m) /\
    m' !! d = Some (Database x) /\ seg m' d 0 (statement x) (l1 ++ l2) q' 0 /\
    (forall b, b ∉ l2 -> m' !! b = m !! b).
Proof.
  intros Hd Hnd H1 H2 Hn. destruct l2 as [|b l2].
  - destruct H2 as [-> <-]. exists m, p. split; [by left|]. split; [done|]. split; [|done].
    by rewrite app_nil_r.
  - apply NoDup_app in Hnd as (Hnd1 & Hdis & Hnd2).
    destruct (seg_set_prev _ _ _ _ _ _ _ _ p Hnd2 H2) as (st & nx & Hl & -> & Hs').
    assert (b <> d) by (intros ->; by rewrite Hd in Hl).
    exists (<[b := Statement (mkStatement st d p nx)]> m), q.
    split; [right; split; [intros E; by apply Hn in E|]; by exists st, nx|].
    split; [by rewrite lookup_insert_ne|]. split.
    + apply seg_app. exists p, b. split; [|done]. eapply seg_frame; [|exact H1].
      intros c Hc. apply lookup_insert_ne. intros <-. eapply (Hdis b); [done|apply elem_of_cons; by left].
    + intros c Hc. apply lookup_insert_ne. intros <-. apply Hc, elem_of_cons. by left.
Qed.

Lemma seg_head_null m d p h l p' : seg m d p h l p' 0 -> h = 0 <-> l = [].
Proof.
  destruct l as [|b l]; cbn [seg]; [by intros [_ <-]|]. intros (-> & Hb & _). by split.
Qed.

Lemma seg_last_null m d h l p' h' : seg m d 0 h l p' h' -> p' = 0 <-> l = [].
Proof.
  intros Hs. destruct (seg_last _ _ _ _ _ _ _ Hs) as [[-> ->]|(l0 & -> & Hp)]; [done|].
  split; [done|]. by destruct l0.
Qed.

Lemma osi_finalize_statement_spec s d x l1 a l2 :
  has_statements (blocks s) d x (l1 ++ a :: l2) -> busy x = false ->
  ok (osi_finalize_statement a) s (fun r s' => r = Dtrue /\
    history s' = Sq_finalize (handle_of (blocks s) a) :: history s /\
    locks s' = locks s /\ callbacks s' = callbacks s /\ fresh s' = fresh s /\
    (exists n, has_statements (blocks s') d (set_statement n x) (l1 ++ l2)) /\
    blocks s' !! a = None /\
    (forall b, b ∉ l1 ++ a :: l2 -> b <> d -> blocks s' !! b = blocks s !! b)).
Proof.
  intros (Hd & Hd0 & Hnd & q & Hs) Hbusy. apply seg_app in Hs as (p & k & H1 & H2).
  cbn [seg] in H2. destruct H2 as (-> & Ha0 & st & n & Hla & H2).
  assert (Hal : a ∉ l1 ++ l2).
  { apply NoDup_app in Hnd as (_ & Hdis & [Hal _]%NoDup_cons). intros [Hin|Hin]%elem_of_app; [|done].
    eapply Hdis; [exact Hin|apply elem_of_cons; by left]. }
  assert (Hnd' : NoDup (l1 ++ l2))
    by (rewrite <- (Permutation_middle l1 l2 a) in Hnd; by apply NoDup_cons in Hnd as [_ ?]).
  assert (Had : a <> d) by (intros ->; by rewrite Hd in Hla).
  destruct (unlink_next _ _ _ _ _ _ _ _ _ Hd Hnd H1 H2 (seg_last_null _ _ _ _ _ _ H1))
    as (m1 & x1 & Hm1 & Hd1 & S1 & S2 & F1).
  destruct (unlink_prev _ _ _ _ _ _ _ _ _ Hd1 Hnd' S1 S2 (seg_head_null _ _ _ _ _ _ S2))
    as (m2 & q2 & Hm2 & Hd2 & S3 & F2).
  unfold osi_finalize_statement. apply ok_bind. eapply ok_load_statement; [exact Hla|].
  cbn [st_database st_stmt st_prev st_next]. rewrite (proj2 (Z.eqb_neq d 0) Hd0).
  apply ok_bind. eapply ok_load_database; [exact Hd|]. rewrite Hbusy. apply ok_bind, ok_sqlite, ok_bind.
  set (s1 := set_history _ s).
  assert (Hstep1 : forall (Q : unit -> sq_state -> Prop), Q tt (set_blocks m1 s1) ->
    ok (if negb (p =? 0) then update_statement p (fun x =>
          mkStatement (st_stmt x) (st_database x) (st_prev x) n)
        else update_database d (set_statement n)) s1 Q).
  { intros Q HQ. destruct Hm1 as [(-> & -> & ->)|(Hp & -> & st1 & pv & Hp1 & ->)].
    - cbn [Z.eqb negb]. by eapply ok_update_database.
    - rewrite (proj2 (Z.eqb_neq p 0) Hp). cbn [negb]. by eapply ok_update_statement. }
  apply Hstep1. apply ok_bind.
  assert (Hstep2 : forall (Q : unit -> sq_state -> Prop), Q tt (set_blocks m2 s1) ->
    ok (if negb (n =? 0) then update_statement n (fun x =>
          mkStatement (st_stmt x) (st_database x) p (st_next x))
        else mret tt) (set_blocks m1 s1) Q).
  { intros Q HQ. destruct Hm2 as [(-> & ->)|(Hp & st1 & pv & Hp1 & ->)].
    - cbn [Z.eqb negb]. by apply ok_ret.
    - rewrite (proj2 (Z.eqb_neq n 0) Hp). cbn [negb]. by eapply ok_update_statement. }
  apply Hstep2. rewrite elem_of_app in Hal.
  assert (Ha2 : m2 !! a = Some (Statement (mkStatement st d p n)))
    by (rewrite F2, F1 by tauto; done).
  apply ok_bind. eapply ok_free; [exact Ha2|done|done|]. apply ok_ret.
  cbn [blocks set_blocks history locks callbacks fresh s1 set_history].
  assert (Hx1 : exists n', x1 = set_statement n' x).
  { destruct Hm1 as [(_ & _ & ->)|(_ & -> & _)]; [by eexists|]. exists (statement x). by rewrite set_statement_id. }
  split; [done|]. split; [unfold handle_of; by rewrite Hla|]. repeat (split; [done|]).
  split; [|split; [apply lookup_delete_eq|]].
  - destruct Hx1 as [n' ->]. exists n'. split; [by rewrite lookup_delete_ne|]. split; [done|]. split; [done|].
    exists q2. eapply seg_frame; [|exact S3]. intros b Hb. apply lookup_delete_ne. intros ->.
    apply Hal. by apply elem_of_app.
  - intros b Hb Hbd. rewrite elem_of_app, elem_of_cons in Hb. rewrite lookup_delete_ne by (intros ->; tauto).
    rewrite F2, F1 by tauto. done.
Qed.

(** *** Closing *)

Definition detached : block := Statement (mkStatement 0 0 0 0).

Lemma close_statements_spec d l : forall fuel s x p q,
  blocks s !! d = Some (Database x) -> NoDup l -> seg (blocks s) d p (statement x) l q 0 ->
  (length l < fuel)%nat ->
  ok (close_statements fuel d) s (fun _ s' =>
    history s' = rev (map (fun a => Sq_finalize (handle_of (blocks s) a)) l) ++ history s /\
    locks s' = locks s /\ callbacks s' = callbacks s /\ fresh s' = fresh s /\
    blocks s' !! d = Some (Database (set_statement 0 x)) /\
    (forall a, a ∈ l -> blocks s' !! a = Some detached) /\
    (forall a, a ∉ l -> a <> d -> blocks s' !! a = blocks s !! a)).
Proof.
  induction l as [|a l IH]; intros fuel s x p q Hd Hnd Hs Hfuel;
    (destruct fuel as [|fuel]; [cbn in Hfuel; lia|]); cbn [close_statements length] in *;
    apply ok_bind; (eapply ok_load_database; [exact Hd|]).
  - destruct Hs as [_ Hz]. rewrite <- Hz. cbn [Z.eqb]. apply ok_ret. repeat (split; [done|]).
    split; [|split; [by intros ? ?%elem_of_nil|done]]. by rewrite Hz, set_statement_id.
  - cbn [seg] in Hs. destruct Hs as (Hh & Ha0 & st & n & Hla & Hs). rewrite Hh.
    rewrite (proj2 (Z.eqb_neq a 0) Ha0). apply NoDup_cons in Hnd as [Hal Hnd].
    assert (Had : a <> d) by (intros ->; by rewrite Hd in Hla).
    pose proof (seg_not_database _ _ _ _ _ _ _ _ Hs Hd) as Hdl.
    apply ok_bind. eapply ok_load_statement; [exact Hla|]. cbn [st_next st_stmt].
    apply ok_bind. eapply ok_update_database; [exact Hd|]. apply ok_bind, ok_sqlite, ok_bind.
    eapply ok_store; [cbn; by rewrite lookup_insert_ne|done|].
    cbn [blocks set_blocks set_history history]. fold detached.
    set (m1 := <[a := detached]> (<[d := Database (set_statement n x)]> (blocks s))).
    assert (Hkeep : forall b, b <> a -> b <> d -> m1 !! b = blocks s !! b)
      by (intros b Hb Hbd; unfold m1; by rewrite !lookup_insert_ne).
    assert (Hkeepl : forall b, b ∈ l -> m1 !! b = blocks s !! b)
      by (intros b Hb; apply Hkeep; by intros ->).
    eapply ok_mono; [eapply (IH fuel _ (set_statement n x) a q)|].
    + cbn. unfold m1. by rewrite lookup_insert_ne, lookup_insert_eq.
    + done.
    + cbn. by eapply seg_frame.
    + lia.
    + cbn. intros [] s' (Hh' & Hlk & Hcb & Hfr & Hd' & Hdet & Hrest).
      split; [|split; [done|split; [done|split; [done|split; [done|split]]]]].
      * rewrite Hh'. unfold handle_of at 3. rewrite Hla. cbn [st_stmt]. rewrite <- app_assoc. f_equal.
        f_equal. apply map_ext_in. intros b Hb%list_elem_of_In. unfold handle_of. by rewrite Hkeepl.
      * intros b [->|Hb]%elem_of_cons; [|by apply Hdet]. rewrite Hrest by done. apply lookup_insert_eq.
      * intros b Hb Hbd. rewrite elem_of_cons in Hb. rewrite Hrest by tauto. apply Hkeep; tauto.
Qed.

Lemma seg_in_dom m d p h l p' h' : seg m d p h l p' h' -> NoDup l -> (length l <= base.size (dom m))%nat.
Proof.
  intros Hs Hnd. assert (Hsub : list_to_set l ⊆@{gset Z} dom m).
  { intros a Ha%elem_of_list_to_set. destruct (seg_statement _ _ _ _ _ _ _ _ Hs Ha) as (? & ? & ? & E).
    by apply elem_of_dom_2 in E. }
  apply subseteq_size in Hsub. by rewrite size_list_to_set in Hsub.
Qed.

(** [close_worker]: every statement is finalized once, in the order of the list, and detached;
    then the connection is closed. *)
Lemma close_worker_spec s d x l :
  has_statements (blocks s) d x l ->
  ok (close_worker d) s (fun _ s' =>
    history s' = Sq_close (db x) :: rev (map (fun a => Sq_finalize (handle_of (blocks s) a)) l) ++ history s /\
    locks s' = locks s /\ callbacks s' = callbacks s /\ fresh s' = fresh s /\
    has_statements (blocks s') d (set_sqlite_rc (sq_result (history s')) (set_statement 0 x)) [] /\
    (forall a, a ∈ l -> blocks s' !! a = Some detached) /\
    (forall a, a ∉ l -> a <> d -> blocks s' !! a = blocks s !! a)).
Proof.
  intros (Hd & Hd0 & Hnd & q & Hs). unfold close_worker. apply ok_bind, ok_look, ok_bind.
  pose proof (seg_in_dom _ _ _ _ _ _ _ Hs Hnd) as Hlen.
  eapply ok_mono; [eapply close_statements_spec; [exact Hd|exact Hnd|exact Hs|lia]|].
  intros [] s1 (Hh & Hlk & Hcb & Hfr & Hd1 & Hdet & Hrest).
  apply ok_bind. eapply ok_load_database; [exact Hd1|]. apply ok_bind, ok_sqlite_int.
  eapply ok_update_database; [exact Hd1|]. cbn. rewrite Hh, Hlk, Hcb, Hfr.
  pose proof (seg_not_database _ _ _ _ _ _ _ _ Hs Hd) as Hdl.
  repeat (split; [done|]). split; [|split].
  - split; [apply lookup_insert_eq|]. split; [done|]. split; [constructor|]. by exists 0.
  - intros a Ha. rewrite lookup_insert_ne by (by intros ->). by apply Hdet.
  - intros a Ha Hne. rewrite lookup_insert_ne by done. by apply Hrest.
Qed.
End finalize.

(** ** Binding all the parameters of a statement *)

Section binding.
Context {L : Sqlite} {C : Scheme}.

(** The call that binds a copy of [x], and its name in the error. *)
Definition bound_value (x : datum) (b : binding_t) : bound :=
  match x with
  | Dinteger _ => Bound_int64 (default 0 (word b))
  | Dflonum bits => Bound_double bits
  | Dstring chars => Bound_text (word b) (Rfc3629.encode chars)
  | Dbytevector l => Bound_blob (word b) l
  | _ => Bound_null
  end.
Definition bind_name (x : datum) : string :=
  match x with
  | Dinteger _ => "sqlite3_bind_int64"
  | Dflonum _ => "sqlite3_bind_double"
  | Dstring _ => "sqlite3_bind_text64"
  | Dbytevector _ => "sqlite3_bind_blob"
  | _ => "sqlite3_bind_null"
  end.

(** The calls for the parameters [j+1], [j+2], ... *)
Fixpoint bind_calls (stmt j : Z) (bs : list binding_t) (xs : list datum) : list sqlite_call :=
  match bs, xs with
  | b :: bs, x :: xs => Sq_bind stmt (j + 1) (bound_value x b) :: bind_calls stmt (j + 1) bs xs
  | _, _ => []
  end.

Lemma bind_one_spec s stmt i b x : stored (blocks s) b x ->
  ok (bind_one stmt i b) s (fun r s' =>
    s' = set_history (Sq_bind stmt i (bound_value x b) :: history s) s /\
    r = Some (bind_name x, sq_result (history s'))).
Proof.
  intros Hb. unfold bind_one.
  destruct x; cbn [stored] in Hb; try done; cbn [bound_value bind_name].
  - subst b. apply ok_bind, ok_sqlite_int. by apply ok_ret.
  - destruct Hb as (v & E & ->). cbn [type word]. apply ok_bind. eapply ok_the; [done|].
    apply ok_bind, ok_sqlite_int. by apply ok_ret.
  - subst b. cbn [type word]. apply ok_bind. eapply ok_the; [done|].
    apply ok_bind, ok_sqlite_int. by apply ok_ret.
  - destruct Hb as (a & Ha & -> & Hm). cbn [type word size]. apply ok_bind. eapply ok_the; [done|].
    apply ok_bind. eapply ok_the; [done|]. apply ok_bind.
    eapply read_bytes_spec; [exact Hm|rewrite length_app; lia|]. rewrite take_app_length.
    apply ok_bind, ok_sqlite_int. by apply ok_ret.
  - destruct Hb as (a & Ha & -> & Hm). cbn [type word size]. apply ok_bind. eapply ok_the; [done|].
    apply ok_bind. eapply ok_the; [done|]. apply ok_bind.
    eapply read_bytes_spec; [exact Hm|done|]. rewrite firstn_all.
    apply ok_bind, ok_sqlite_int. by apply ok_ret.
Qed.

(** All the parameters are bound, in order, whatever the results; name and result are those of
    the last one. *)
Lemma bind_loop_spec bs : forall xs stmt j who rc s,
  Forall2 (stored (blocks s)) bs xs ->
  ok (bind_loop stmt j (map Some bs) who rc) s (fun r s' =>
    s' = set_history (rev (bind_calls stmt j bs xs) ++ history s) s /\
    r = match last xs with
        | None => (who, rc)
        | Some x => (Some (bind_name x), sq_result (history s'))
        end).
Proof.
  induction bs as [|b bs IH]; intros xs stmt j who rc s Hst.
  - apply Forall2_nil_inv_l in Hst as ->. apply ok_ret. by destruct s.
  - apply Forall2_cons_inv_l in Hst as (x & xs' & Hb & Hst & ->). cbn [map bind_loop bind_calls].
    apply ok_bind. eapply ok_the; [done|]. apply ok_bind.
    eapply ok_mono; [by apply bind_one_spec|]. intros r s1 [-> ->].
    eapply ok_mono; [by apply (IH xs')|]. intros r s' [-> ->]. cbn [history set_history rev].
    rewrite <- app_assoc. split; [done|].
    rewrite last_cons. destruct (last xs') eqn:E; [done|]. apply last_None in E as ->.
    by apply Forall2_nil_inv_r in Hst as ->.
Qed.

(** A marshalled array of the values [xs]; 0 for none. *)
Definition marshalled (m : gmap Z block) (a : Z) (xs : list datum) : Prop :=
  (a = 0 /\ xs = []) \/ (a <> 0 /\ exists bs, m !! a = Some (Bindings (map Some bs)) /\
    Forall2 (stored m) bs xs).

Lemma bind_bindings_spec s stmt a xs : marshalled (blocks s) a xs ->
  ok (bind_bindings stmt a) s (fun r s' => exists calls, length calls = length xs /\
    s' = set_history (rev calls ++ history s) s /\
    Forall (fun c => exists i v, c = Sq_bind stmt i v) calls /\
    r = match last xs with
        | None => (None, SQLITE_OK)
        | Some x => (Some (bind_name x), sq_result (history s'))
        end).
Proof.
  intros [[-> ->]|(Ha & bs & Hm & Hst)]; unfold bind_bindings.
  - apply ok_ret. exists []. by destruct s.
  - rewrite (proj2 (Z.eqb_neq a 0) Ha). apply ok_bind. eapply ok_load_bindings; [exact Hm|].
    eapply ok_mono; [by apply bind_loop_spec|]. intros r s' [-> ->].
    exists (bind_calls stmt 0 bs xs). split; [|split; [done|split; [|done]]].
    + clear Hm. revert Hst. generalize 0. intros j Hst. revert j.
      induction Hst as [|b x bs xs _ _ IH]; intros j; cbn [bind_calls length]; [done|]. by rewrite IH.
    + clear Hm. revert Hst. generalize 0. intros j Hst. revert j.
      induction Hst as [|b x bs xs _ _ IH]; intros j; cbn [bind_calls]; [constructor|].
      constructor; [by eexists _, _|apply IH].
Qed.

(** Theorem (finding): [osi_bind_statement_bindings] reports the result of the last parameter only:
    when that one is accepted it returns true, whatever happened to the others. *)
Theorem bind_reports_last s a st d pv nx x b xs y :
  blocks s !! a = Some (Statement (mkStatement st d pv nx)) -> d <> 0 ->
  blocks s !! d = Some (Database x) -> busy x = false ->
  marshalled (blocks s) b xs -> last xs = Some y ->
  exists calls s', length calls = length xs /\ history s' = calls ++ history s /\
    blocks s' = blocks s /\
    if sq_result (history s') =? SQLITE_OK
    then osi_bind_statement_bindings a b s = Some (Dtrue, s')
    else exists s'' text, osi_bind_statement_bindings a b s =
      Some (Dpair (Dsymbol (bind_name y))
        (Dpair (Dinteger (TRANSLATE_SQLITE_ERRNO (sq_result (history s')))) (Dstring text)), s'').
Proof.
  intros Ha Hd0 Hd Hb Hm Hy. destruct (ok_result _ _ _ (bind_bindings_spec s st b xs Hm))
    as (r & s' & Hrun & calls & Hlen & -> & _ & ->). rewrite Hy in Hrun.
  exists (rev calls), (set_history (rev calls ++ history s) s). rewrite length_rev.
  split; [done|]. split; [done|]. split; [done|].
  assert (Hpre : forall (Q : datum -> sq_state -> Prop),
    (if sq_result (rev calls ++ history s) =? SQLITE_OK
     then Q Dtrue (set_history (rev calls ++ history s) s)
     else forall text s'', Q (Dpair (Dsymbol (bind_name y))
        (Dpair (Dinteger (TRANSLATE_SQLITE_ERRNO (sq_result (rev calls ++ history s)))) (Dstring text))) s'') ->
    ok (osi_bind_statement_bindings a b) s Q).
  { intros Q HQ. unfold osi_bind_statement_bindings. apply ok_bind.
    eapply ok_load_statement; [exact Ha|]. cbn [st_database st_stmt].
    rewrite (proj2 (Z.eqb_neq d 0) Hd0). apply ok_bind. eapply ok_load_database; [exact Hd|].
    rewrite Hb. apply ok_bind. unfold ok at 1. rewrite Hrun. cbn [history set_history].
    destruct (_ =? SQLITE_OK); cbn [negb]; [by apply ok_ret|].
    apply ok_bind. eapply ok_the; [done|]. apply ok_bind, ok_sqlite, ok_ret. apply HQ. }
  cbn [history set_history] in *. destruct (_ =? SQLITE_OK).
  - destruct (ok_result _ _ _ (Hpre (fun r s' => r = Dtrue /\ s' = set_history (rev calls ++ history s) s)
      (conj eq_refl eq_refl))) as (r & s' & -> & -> & ->). done.
  - destruct (ok_result _ _ _ (Hpre (fun r _ => exists text, r = Dpair (Dsymbol (bind_name y))
      (Dpair (Dinteger (TRANSLATE_SQLITE_ERRNO (sq_result (rev calls ++ history s)))) (Dstring text)))
      (fun text s'' => ex_intro _ text eq_refl))) as (r & s' & -> & text & ->). by exists s', text.
Qed.
End binding.

(** ** Properties *)

Section properties.
Context {L : Sqlite} {C : Scheme}.

(** C11: closing a database finalizes every statement of its list exactly once, before the
    connection is closed; the program's references stay valid, and releasing one afterwards
    frees it without another call of the library. *)
Theorem close_finalizes_once s d x l :
  has_statements (blocks s) d x l ->
  exists s', close_worker d s = Some (tt, s') /\
    history s' = Sq_close (db x) :: rev (map (fun a => Sq_finalize (handle_of (blocks s) a)) l) ++ history s /\
    has_statements (blocks s') d (set_sqlite_rc (sq_result (history s')) (set_statement 0 x)) [] /\
    forall a, a ∈ l -> exists s'', osi_finalize_statement a s' = Some (Dtrue, s'') /\
      history s'' = history s' /\ blocks s'' = delete a (blocks s').
Proof.
  intros Hl. destruct (ok_result _ _ _ (close_worker_spec s d x l Hl))
    as ([] & s' & Hrun & Hh & _ & _ & _ & Hd & Hdet & _).
  exists s'. split; [done|]. split; [done|]. split; [done|]. intros a Ha.
  assert (Hok : ok (osi_finalize_statement a) s' (fun r s'' => r = Dtrue /\
    history s'' = history s' /\ blocks s'' = delete a (blocks s'))).
  { unfold osi_finalize_statement. apply ok_bind. eapply ok_load_statement; [by apply Hdet|].
    cbn [st_database Z.eqb]. apply ok_bind. eapply ok_free; [by apply Hdet|done|done|]. by apply ok_ret. }
  apply ok_result in Hok as (r & s'' & -> & -> & ?). by exists s''.
Qed.

(** C13: finalizing a statement of an idle database calls the library once, for its handle,
    unlinks it wherever it is in the list, frees it, and leaves the rest of the list and every
    other block alone. *)
Theorem finalize_unlinks s d x l1 a l2 :
  has_statements (blocks s) d x (l1 ++ a :: l2) -> busy x = false ->
  exists s' n, osi_finalize_statement a s = Some (Dtrue, s') /\
    history s' = Sq_finalize (handle_of (blocks s) a) :: history s /\
    has_statements (blocks s') d (set_statement n x) (l1 ++ l2) /\ blocks s' !! a = None /\
    forall b, b ∉ l1 ++ a :: l2 -> b <> d -> blocks s' !! b = blocks s !! b.
Proof.
  intros Hl Hb. destruct (ok_result _ _ _ (osi_finalize_statement_spec s d x l1 a l2 Hl Hb))
    as (r & s' & Hrun & -> & Hh & _ & _ & _ & [n Hn] & Ha & Hrest).
  by exists s', n.
Qed.
End properties.

(** *** A database with three statements *)

(** Every call succeeds; handles are numbered by the calls made. *)
Definition example_sqlite : Sqlite := {|
  sq_result _ := SQLITE_OK;
  sq_handle h := Z.of_nat (length h);
  sq_text _ := Some [];
  sq_column _ := Col_null;
  sq_status _ := (0, 0)
|}.

Definition example_database : database_t :=
  mkDatabase 9 4 Unlocked true Waiting Active None false false None Dvoid (Sql 0) 0 SQLITE_OK.
Definition example_blocks : gmap Z block :=
  {[1 := Database example_database; 2 := Statement (mkStatement 20 1 3 0);
    3 := Statement (mkStatement 30 1 4 2); 4 := Statement (mkStatement 40 1 0 3)]}.
Definition three_statements : sq_state := mkSq example_blocks 5 [] ∅ [] (fun _ => 1) 0.

Lemma three_statements_ok : has_statements (blocks three_statements) 1 example_database [4; 3; 2].
Proof.
  split; [reflexivity|]. split; [done|]. split; [apply (bool_decide_unpack _); reflexivity|].
  exists 2. cbn [seg]. repeat (first [split; [done|] | eexists _, _]). done.
Qed.

Lemma close_finalizes_once_witness : exists s',
  close_worker (L := example_sqlite) 1 three_statements = Some (tt, s') /\
  history s' = [Sq_close 9; Sq_finalize 20; Sq_finalize 30; Sq_finalize 40].
Proof.
  destruct (close_finalizes_once (L := example_sqlite) _ _ _ _ three_statements_ok) as (s' & Hs & Hh & _).
  exists s'. split; [exact Hs|]. rewrite Hh. vm_compute. reflexivity.
Defined.

Lemma finalize_unlinks_witness : exists s',
  osi_finalize_statement 3 three_statements = Some (Dtrue, s') /\
  blocks s' !! 2 = Some (Statement (mkStatement 20 1 4 0)).
Proof.
  destruct (finalize_unlinks _ _ _ [4] 3 [2] three_statements_ok eq_refl)
    as (s' & n & Hs & _).
  exists s'. split; [exact Hs|]. vm_compute in Hs. injection Hs as <-. reflexivity.
Defined.

(** The first parameter is refused, the second accepted. *)
Definition refusing_sqlite : Sqlite := {|
  sq_result h := match h with Sq_bind _ 1 _ :: _ => 25 | _ => SQLITE_OK end;
  sq_handle h := 0;
  sq_text _ := Some [];
  sq_column _ := Col_null;
  sq_status _ := (0, 0)
|}.

Definition two_parameters : sq_state :=
  mkSq (<[5 := Bindings [Some (mkBinding SQLITE_NULL None None); Some (mkBinding SQLITE_NULL None None)]]>
    example_blocks) 6 [] ∅ [] (fun _ => 1) 0.

Lemma bind_reports_last_witness : exists s',
  osi_bind_statement_bindings (L := refusing_sqlite) (C := example_scheme) 3 5 two_parameters
    = Some (Dtrue, s') /\
  sq_result (Sqlite := refusing_sqlite) [Sq_bind 30 1 Bound_null] = 25.
Proof.
  destruct (@bind_reports_last refusing_sqlite example_scheme two_parameters 3 30 1 4 2
    example_database 5 [Dfalse; Dfalse] Dfalse) as (calls & s' & Hlen & Hh & _ & Hres).
  - reflexivity.
  - done.
  - reflexivity.
  - reflexivity.
  - right. split; [done|]. exists [mkBinding SQLITE_NULL None None; mkBinding SQLITE_NULL None None].
    split; [reflexivity|]. by repeat constructor.
  - reflexivity.
  - destruct (_ =? _) eqn:E in Hres.
    + exists s'. split; [exact Hres|reflexivity].
    + destruct Hres as (s'' & text & Hs). exfalso.
      assert (Hd : fst <$> osi_bind_statement_bindings (L := refusing_sqlite) (C := example_scheme)
        3 5 two_parameters = Some Dtrue) by (vm_compute; reflexivity).
      rewrite Hs in Hd. discriminate.
Defined.
