(* ===== verification/Bulk.v ===== *)
(** * Bulk: the execution of a bulk request

    [bulk_worker] and [bulk_cb] of sqlite.c: the statements of the request are executed one
    after the other, each with its parameters, up to the first failure. *)

From S2P Require Export Statements.

(** ** What is executed *)

(** A statement with its parameters: the addresses of the statement and of the marshalled
    parameters, the handle of the library, the copies and the values they hold. *)
Record item := mkItem {
  it_statement : Z; it_handle : Z; it_mbindings : Z;
  it_copies : list binding_t; it_values : list datum
}.

Ltac heap_lookup := rewrite !lookup_insert; repeat case_decide; first [exfalso; lia|reflexivity|assumption].

Section bulk.
Context {L : Sqlite} {C : Scheme}.

Definition item_ok (m : gmap Z block) (x : item) : Prop :=
  (exists t, m !! it_statement x = Some (Statement t) /\ st_stmt t = it_handle x) /\
  Forall2 (stored m) (it_copies x) (it_values x) /\
  if it_mbindings x =? 0 then it_copies x = []
  else m !! it_mbindings x = Some (Bindings (map Some (it_copies x))).

(** The calls made up to the step of a statement, newest first. *)
Definition bound_calls (x : item) (h : list sqlite_call) : list sqlite_call :=
  rev (bind_calls (it_handle x) 0 (it_copies x) (it_values x)) ++ Sq_reset (it_handle x) :: h.
(** The result of binding its parameters: that of the last call. *)
Definition bound_result (x : item) (h : list sqlite_call) : Z :=
  match it_values x with [] => SQLITE_OK | _ => sq_result (bound_calls x h) end.
Definition step_calls (x : item) (h : list sqlite_call) : list sqlite_call :=
  Sq_step (it_handle x) :: bound_calls x h.
Definition item_name (x : item) : option string := bind_name <$> last (it_values x).

(** Statements that are executed, and leave their parameters cleared. *)
Inductive completes : list sqlite_call -> list item -> list sqlite_call -> Prop :=
| completes_nil h : completes h [] h
| completes_cons h x l h' :
    bound_result x h = SQLITE_OK -> step_succeeded (sq_result (step_calls x h)) = true ->
    completes (Sq_reset (it_handle x) :: Sq_clear_bindings (it_handle x) :: step_calls x h) l h' ->
    completes h (x :: l) h'.

(** A statement that fails, when its parameters are bound or when it is executed. *)
Inductive fails (h : list sqlite_call) (x : item) : Z -> list sqlite_call -> Prop :=
| fails_bound : bound_result x h <> SQLITE_OK -> fails h x (bound_result x h) (bound_calls x h)
| fails_step : bound_result x h = SQLITE_OK -> step_succeeded (sq_result (step_calls x h)) = false ->
    fails h x (sq_result (step_calls x h)) (step_calls x h).

(** The whole list: all of it, or up to the first failure. *)
Definition executes (h : list sqlite_call) (l : list item) (rc : Z) (name : option string) (h' : list sqlite_call) :
    Prop :=
  exists done rest h1, l = done ++ rest /\ completes h done h1 /\
    ((rest = [] /\ rc = SQLITE_OK /\ h' = h1) \/
     (exists x rest', rest = x :: rest' /\ fails h1 x rc h' /\ name = item_name x)).

(** A larger heap. *)
Lemma item_ok_fresh m m' x : (forall k c, m !! k = Some c -> m' !! k = Some c) -> item_ok m x -> item_ok m' x.
Proof.
  intros Hm ((t & Ht & Hh) & Hs & Hb). split; [exists t; auto|]. split.
  - apply (Forall2_impl _ _ _ _ Hs). intros b v Hy. eapply stored_mono; [|exact Hy]. intros k Hk.
    destruct (stored_copies _ _ _ _ Hy Hk) as [c Hc]. rewrite Hc. by apply Hm.
  - destruct (_ =? 0); [done|]. by apply Hm.
Qed.

Lemma stored_block m b x k : stored m b x -> k ∈ copies b -> exists l, m !! k = Some (Bytes l).
Proof.
  destruct x; cbn [stored]; try done.
  - by intros -> ?%elem_of_nil.
  - by intros (v & _ & ->) ?%elem_of_nil.
  - by intros -> ?%elem_of_nil.
  - intros (a & Ha & -> & Hb) ->%list_elem_of_singleton. by eexists.
  - intros (a & Ha & -> & Hb) ->%list_elem_of_singleton. by eexists.
Qed.

(** The worker writes to the database and the request only. *)
Definition worked (d bulk : Z) (m m' : gmap Z block) : Prop :=
  forall k, k <> d -> k <> bulk -> m' !! k = m !! k.

Lemma item_ok_worked d bulk x y m m' i : m !! d = Some (Database x) -> m !! bulk = Some (Bulk y) ->
  worked d bulk m m' -> item_ok m i -> item_ok m' i.
Proof.
  intros Hd Hbulk Hm ((t & Ht & Hh) & Hs & Hb).
  split; [exists t; split; [rewrite Hm; [done|congruence..]|done]|]. split.
  - apply (Forall2_impl _ _ _ _ Hs). intros b v Hy. eapply stored_mono; [|exact Hy]. intros k Hk.
    destruct (stored_block _ _ _ _ Hy Hk) as (l & Hl). apply Hm; congruence.
  - destruct (_ =? 0); [done|]. rewrite Hm; [done|congruence..].
Qed.

Lemma bind_bindings_calls s x : item_ok (blocks s) x ->
  ok (bind_bindings (it_handle x) (it_mbindings x)) (set_history (Sq_reset (it_handle x) :: history s) s)
    (fun r s' => s' = set_history (bound_calls x (history s)) s /\
      r = (item_name x, bound_result x (history s))).
Proof.
  intros (_ & Hs & Hb). unfold bind_bindings, item_name, bound_result, bound_calls.
  destruct (it_mbindings x =? 0).
  - rewrite Hb in Hs. apply Forall2_nil_inv_l in Hs as ->. apply ok_ret. by rewrite Hb.
  - apply ok_bind. eapply ok_load_bindings; [exact Hb|].
    eapply ok_mono; [apply bind_loop_spec; exact Hs|]. intros r s' [-> ->]. split; [done|].
    destruct (it_values x) as [|v l] eqn:E; [done|].
    destruct (last (v :: l)) as [w|] eqn:El; [done|]. by apply last_None in El.
Qed.

(** The state while the request is executed. *)
Record executing (d bulk : Z) (x : database_t) (y : bulk_t) (s0 s : sq_state) : Prop := {
  ex_database : blocks s !! d = Some (Database x);
  ex_bulk : blocks s !! bulk = Some (Bulk y);
  ex_worked : worked d bulk (blocks s0) (blocks s);
  ex_locks : locks s = locks s0;
  ex_callbacks : callbacks s = callbacks s0
}.

Lemma executing_history d bulk x y s0 s h : executing d bulk x y s0 s -> executing d bulk x y s0 (set_history h s).
Proof. by intros []. Qed.

Lemma executing_who d bulk x y y' s0 s : executing d bulk x y s0 s ->
  executing d bulk x y' s0 (set_blocks (<[bulk := Bulk y']> (blocks s)) s).
Proof.
  intros [H1 H2 H3 H4 H5]. assert (d <> bulk) by congruence. constructor; cbn.
  - by rewrite lookup_insert_ne.
  - apply lookup_insert_eq.
  - intros k Hk Hk'. rewrite lookup_insert_ne by done. by apply H3.
  - done.
  - done.
Qed.

Lemma executing_rc d bulk x x' y s0 s : executing d bulk x y s0 s ->
  executing d bulk x' y s0 (set_blocks (<[d := Database x']> (blocks s)) s).
Proof.
  intros [H1 H2 H3 H4 H5]. assert (d <> bulk) by congruence. constructor; cbn.
  - apply lookup_insert_eq.
  - by rewrite lookup_insert_ne.
  - intros k Hk Hk'. rewrite lookup_insert_ne by done. by apply H3.
  - done.
  - done.
Qed.

Lemma ok_load_bulk s a y (Q : bulk_t -> sq_state -> Prop) :
  blocks s !! a = Some (Bulk y) -> Q y s -> ok (load_bulk a) s Q.
Proof. intros Ha HQ. apply ok_bind. by eapply ok_load. Qed.

Lemma bulk_loop_spec d bulk items : forall x y s0 s,
  executing d bulk x y s0 s -> Forall (item_ok (blocks s0)) items ->
  blocks s0 !! d = Some (Database x) -> (exists y0, blocks s0 !! bulk = Some (Bulk y0)) ->
  sqlite_rc x = SQLITE_OK ->
  ok (bulk_loop d bulk (map (fun i => Some (it_statement i)) items) (map (fun i => Some (it_mbindings i)) items)) s
    (fun _ s' => exists rc name, executes (history s) items rc name (history s') /\
      executing d bulk (set_sqlite_rc rc x) (mkBulk (count y) (bulk_statements y) (bulk_mbindings y) name) s0 s').
Proof.
  induction items as [|i items IH]; intros x y s0 s Hex Hok Hd Hbulk Hrc; cbn [map bulk_loop].
  - apply ok_ret. exists SQLITE_OK, (who y). split; [exists [], [], (history s); split; [done|]; split; [constructor|by left]|].
    rewrite <- Hrc. by destruct x, y.
  - apply Forall_cons in Hok as [Hi Hok]. destruct Hbulk as [y0 Hbulk].
    pose proof (item_ok_worked _ _ _ _ _ _ _ Hd Hbulk (ex_worked _ _ _ _ _ _ Hex) Hi) as Hi'.
    pose proof Hi' as ((t & Ht & Hh) & _).
    do 2 (apply ok_bind; eapply ok_the; [done|]).
    apply ok_bind. eapply ok_load_statement; [exact Ht|]. rewrite Hh. apply ok_bind, ok_sqlite.
    apply ok_bind. eapply ok_mono; [by apply bind_bindings_calls|]. intros r s1 [-> ->].
    cbn beta iota. apply ok_bind. eapply ok_load_bulk; [apply Hex|]. apply ok_bind.
    eapply ok_store; [apply Hex|done|].
    pose proof (executing_who _ _ _ _ (mkBulk (count y) (bulk_statements y) (bulk_mbindings y) (item_name i))
      _ _ (executing_history _ _ _ _ _ _ (bound_calls i (history s)) Hex)) as H2.
    set (s2 := set_blocks _ _) in *.
    assert (Hfail : forall rc h, fails (history s) i rc h -> forall s3, s3 = set_history h s2 ->
      ok (update_database d (set_sqlite_rc rc)) s3 (fun _ s' => exists rc name,
        executes (history s) (i :: items) rc name (history s') /\
        executing d bulk (set_sqlite_rc rc x) (mkBulk (count y) (bulk_statements y) (bulk_mbindings y) name) s0 s')).
    { intros rc h Hf s3 ->. eapply ok_update_database; [apply H2|]. exists rc, (item_name i).
      split; [|eapply executing_rc, executing_history, H2].
      exists [], (i :: items), (history s). split; [done|]. split; [constructor|]. right. by exists i, items. }
    destruct (Z.eqb_spec (bound_result i (history s)) SQLITE_OK) as [Hb|Hb]; cbn [negb].
    2: { eapply Hfail; [by apply fails_bound|done]. }
    apply ok_bind, ok_sqlite_int.
    change (sq_result _) with (sq_result (step_calls i (history s))).
    destruct (step_succeeded _) eqn:Hs; cbn [negb].
    2: { eapply Hfail; [by apply fails_step|done]. }
    apply ok_bind, ok_sqlite, ok_bind, ok_sqlite.
    eapply ok_mono.
    { eapply (IH x _ s0); [eapply executing_history, executing_history, executing_history, H2|done|done|by exists y0|done]. }
    intros [] s' (rc & name & (done & rest & h1 & -> & Hc & Hend) & Hex').
    exists rc, name. split; [|exact Hex'].
    exists (i :: done), rest, h1. split; [done|]. split; [by constructor|done].
Qed.

(** A request in memory: the arrays hold the items. *)
Record requested (m : gmap Z block) (items : list item) (bulk p q : Z) : Prop := {
  rq_bulk : exists w, m !! bulk = Some (Bulk (mkBulk (Z.of_nat (length items)) p q w));
  rq_statements : m !! p = Some (Pointers (map (fun i => Some (it_statement i)) items));
  rq_mbindings : m !! q = Some (Pointers (map (fun i => Some (it_mbindings i)) items));
  rq_apart : p <> q;
  rq_items : Forall (item_ok m) items
}.

(** The result reported for a request that ended with [rc]: the error is named after the last
    parameter bound, even when it is the step that failed. *)
Definition bulk_report (x : database_t) (rc : Z) (name : option string) (h : list sqlite_call) (arg : datum)
    (h' : list sqlite_call) : Prop :=
  if step_succeeded rc then arg = Dtrue /\ h' = h
  else h' = Sq_errmsg (db x) :: h /\ exists text,
    arg = Dpair (Dsymbol (default "osi_bulk_execute" name))
            (Dpair (Dinteger (TRANSLATE_SQLITE_ERRNO rc)) (Dstring text)).

Lemma ok_load_pointers s a l (Q : list (option Z) -> sq_state -> Prop) :
  blocks s !! a = Some (Pointers l) -> Q l s -> ok (load_pointers a) s Q.
Proof. intros Ha HQ. apply ok_bind. by eapply ok_load. Qed.

Lemma bulk_worker_spec d x items bulk p q s :
  blocks s !! d = Some (Database x) -> request x = BulkReq bulk -> requested (blocks s) items bulk p q ->
  ok (bulk_worker d) s (fun _ s' => exists rc name, executes (history s) items rc name (history s') /\
    executing d bulk (set_sqlite_rc rc x) (mkBulk (Z.of_nat (length items)) p q name) s s').
Proof.
  intros Hd Hr [[w Hb] Hp Hq Hpq Hi]. assert (Hne : d <> bulk) by congruence.
  unfold bulk_worker. apply ok_bind. eapply ok_load_database; [exact Hd|]. rewrite Hr.
  apply ok_bind. eapply ok_load_bulk; [exact Hb|]. cbn [bulk_statements bulk_mbindings count].
  apply ok_bind. eapply ok_load_pointers; [exact Hp|]. apply ok_bind. eapply ok_load_pointers; [exact Hq|].
  apply ok_bind. eapply ok_update_database; [exact Hd|]. cbv zeta. rewrite Nat2Z.id.
  set (x1 := set_sqlite_rc SQLITE_OK x). set (s1 := set_blocks _ s).
  apply ok_bind, ok_assert; [by rewrite !length_map, bool_decide_eq_true_2|].
  rewrite !firstn_all2 by (by rewrite length_map).
  assert (Hd1 : blocks s1 !! d = Some (Database x1)) by apply lookup_insert_eq.
  assert (Hb1 : blocks s1 !! bulk = Some (Bulk (mkBulk (Z.of_nat (length items)) p q w)))
    by (cbn; by rewrite lookup_insert_ne).
  assert (Hw : worked d bulk (blocks s) (blocks s1))
    by (intros k Hk _; cbn; by rewrite lookup_insert_ne).
  eapply ok_mono.
  { apply (bulk_loop_spec d bulk items x1 (mkBulk (Z.of_nat (length items)) p q w) s1 s1);
      [by constructor| |done|by eexists|done].
    apply (Forall_impl _ _ _ Hi). intros i. by eapply item_ok_worked. }
  intros [] s' (rc & name & He & [E1 E2 E3 E4 E5]). exists rc, name. split; [exact He|].
  constructor; [exact E1|exact E2| |done|done]. intros k Hk Hk'. rewrite E3 by done. by apply Hw.
Qed.

(** The database after the callback. *)
Definition idle (rc : Z) (x : database_t) : database_t :=
  set_request (Sql 0) (sql_len x) (set_busy false (db_work x) Dvoid (set_sqlite_rc rc x)).

Lemma bulk_cb_spec d x items bulk p q rc name s0 s :
  executing d bulk (set_sqlite_rc rc x) (mkBulk (Z.of_nat (length items)) p q name) s0 s ->
  request x = BulkReq bulk -> requested (blocks s0) items bulk p q ->
  blocks s0 !! d = Some (Database x) -> lk (db_callback x) ⊆ locks s0 ->
  ok (bulk_cb d) s (fun _ s' => exists arg, callbacks s' = (db_callback x, arg) :: callbacks s0 /\
    bulk_report x rc name (history s) arg (history s') /\ locks s' = locks s0 ∖ lk (db_callback x) /\
    blocks s' = <[d := Database (idle rc x)]> (delete bulk (delete p (delete q (blocks s0))))).
Proof.
  intros [E1 E2 E3 E4 E5] Hr [[w Hb] Hp Hq Hpq Hi] Hd Hl.
  assert (Hne : bulk <> d /\ p <> d /\ q <> d /\ p <> bulk /\ q <> bulk) by (repeat split; congruence).
  destruct Hne as (N1 & N2 & N3 & N4 & N5).
  unfold bulk_cb. apply ok_bind. eapply ok_load_database; [exact E1|]. cbn [request set_sqlite_rc]. rewrite Hr.
  apply ok_bind. unfold Sunlock_object. apply ok_bind, ok_look, ok_bind, ok_assert.
  { rewrite E4. by apply bool_decide_eq_true_2. }
  apply ok_change. apply ok_bind. eapply ok_store; [exact E1|done|]. apply ok_bind.
  eapply ok_load_bulk; [cbn; rewrite lookup_insert_ne by done; exact E2|].
  cbn [bulk_statements bulk_mbindings who].
  apply ok_bind. eapply ok_free; [cbn; rewrite lookup_insert_ne, E3 by done; exact Hq|done|done|].
  apply ok_bind. eapply ok_free; [cbn; rewrite lookup_delete_ne, lookup_insert_ne, E3 by done; exact Hp|done|done|].
  apply ok_bind. eapply ok_free; [cbn; rewrite !lookup_delete_ne, lookup_insert_ne by done; exact E2|done|done|].
  set (s1 := set_blocks _ _).
  assert (Hm : blocks s1 = <[d := Database (idle rc x)]> (delete bulk (delete p (delete q (blocks s0))))).
  { unfold s1. cbn. apply map_eq. intros k.
    rewrite !lookup_delete, !lookup_insert, !lookup_delete.
    repeat case_decide; subst; try done. by apply E3. }
  cbv zeta. unfold bulk_report. apply ok_bind. cbn [sqlite_rc set_sqlite_rc].
  destruct (step_succeeded rc).
  - apply ok_ret. apply ok_change. exists Dtrue. cbn. rewrite E4, E5. by repeat split.
  - unfold make_sqlite_error. apply ok_bind, ok_sqlite, ok_ret. apply ok_change. eexists. cbn [callbacks set_callbacks].
    cbn. rewrite E4, E5. split; [done|]. split; [split; [done|by eexists]|]. by repeat split.
Qed.

(** ** The request *)

Definition addresses (f : item -> Z) (items : list item) : datum := Dvector (map (fun i => Dinteger (f i)) items).

Lemma pointer_items_map (f : item -> Z) items s Q :
  Q (map (fun i => Some (f i)) items) s -> ok (pointer_items (map (fun i => Dinteger (f i)) items)) s Q.
Proof.
  intros HQ. unfold pointer_items. apply ok_bind. eapply (ok_the _ (map f items)).
  - clear. induction items as [|i items IH]; [done|]. cbn. by rewrite IH.
  - apply ok_ret. rewrite <- list_fmap_compose. exact HQ.
Qed.

(** What the operation leaves when it is accepted. *)
Record accepted (items : list item) (callback : datum) (s : sq_state) (bulk p q : Z) (s' : sq_state) : Prop := {
  ac_requested : requested (blocks s') items bulk p q;
  ac_blocks : delete bulk (delete p (delete q (blocks s'))) = blocks s;
  ac_fresh : blocks s !! bulk = None /\ blocks s !! p = None /\ blocks s !! q = None;
  ac_locks : locks s' = locks s ⊎ lk callback;
  ac_rest : history s' = history s /\ callbacks s' = callbacks s
}.

Lemma osi_bulk_execute_spec d x t i items callback s :
  sane s -> Forall (item_ok (blocks s)) (i :: items) ->
  blocks s !! it_statement i = Some (Statement t) -> st_database t = d -> d <> 0 ->
  blocks s !! d = Some (Database x) -> busy x = false ->
  ok (osi_bulk_execute (addresses it_statement (i :: items)) (addresses it_mbindings (i :: items)) callback) s
    (fun out s' =>
      (out = Return (error_pair "osi_bulk_execute" UV_ENOMEM) /\ blocks s' = blocks s /\ locks s' = locks s /\
         history s' = history s /\ callbacks s' = callbacks s) \/
      exists bulk p q, accepted (i :: items) callback s bulk p q s' /\
        out = Request d Bulk_cb true Bulk_worker callback (Some (BulkReq bulk, sql_len x))).
Proof.
  intros [Hf Hu] Hi Ht Hd Hd0 Hx Hb. unfold osi_bulk_execute, addresses.
  rewrite !length_map, Nat.eqb_refl. cbn [negb map].
  change (Dinteger (it_statement i) :: map (fun i => Dinteger (it_statement i)) items)
    with (map (fun i => Dinteger (it_statement i)) (i :: items)).
  change (Dinteger (it_mbindings i) :: map (fun i => Dinteger (it_mbindings i)) items)
    with (map (fun i => Dinteger (it_mbindings i)) (i :: items)).
  set (its := i :: items) in *. clearbody its.
  apply ok_bind. eapply ok_the; [done|]. apply ok_bind. eapply ok_load_statement; [exact Ht|].
  rewrite Hd, (proj2 (Z.eqb_neq d 0) Hd0). apply ok_bind. eapply ok_load_database; [exact Hx|]. rewrite Hb.
  cbv zeta. set (n := fresh s) in *.
  pose proof (Hu n ltac:(lia)) as U0. pose proof (Hu (n + 1) ltac:(lia)) as U1. pose proof (Hu (n + 1 + 1) ltac:(lia)) as U2.
  apply ok_bind, ok_malloc; intros _; cbn [Z.eqb]; [apply ok_ret; by left|].
  rewrite (proj2 (Z.eqb_neq _ 0)) by lia.
  apply ok_bind, ok_malloc; intros _; cbn [fresh set_ticks set_fresh].
  { apply ok_bind. eapply ok_free; [cbn; apply lookup_insert_eq|done|done|]. apply ok_ret. left. cbn.
    by rewrite delete_insert_id. }
  fold n. rewrite (proj2 (Z.eqb_neq _ 0)) by lia.
  apply ok_bind, ok_malloc; intros _; cbn [fresh set_ticks set_fresh].
  { apply ok_bind. eapply ok_free; [cbn; apply lookup_insert_eq|done|done|].
    apply ok_bind. eapply ok_free; [cbn; rewrite delete_insert_id by (by rewrite lookup_insert_ne by lia);
      apply lookup_insert_eq|done|done|].
    apply ok_ret. left. cbn. rewrite delete_insert_id by (by rewrite lookup_insert_ne by lia).
    by rewrite delete_insert_id. }
  fold n. rewrite (proj2 (Z.eqb_neq _ 0)) by lia.
  assert (Hlt : forall k c, blocks s !! k = Some c -> k < n).
  { intros k c Hk. destruct (Z.lt_ge_cases k n) as [|Hge]; [done|]. by rewrite (Hu k Hge) in Hk. }
  apply ok_bind, pointer_items_map. apply ok_bind.
  eapply ok_store; [cbn; heap_lookup|done|].
  apply ok_bind, pointer_items_map. apply ok_bind.
  eapply ok_store; [cbn; heap_lookup|done|].
  apply ok_bind. eapply ok_store; [cbn; heap_lookup|done|].
  apply ok_bind, ok_change, ok_ret. right. exists n, (n + 1), (n + 1 + 1). split; [|done]. cbn.
  constructor; [constructor| | |done|done]; cbn.
  - eexists. heap_lookup.
  - heap_lookup.
  - heap_lookup.
  - lia.
  - apply (Forall_impl _ _ _ Hi). intros j. apply item_ok_fresh. intros k c Hk. pose proof (Hlt _ _ Hk). heap_lookup.
  - apply map_eq. intros k. rewrite !lookup_delete, !lookup_insert. repeat case_decide; subst; congruence.
  - done.
Qed.

(** A request carried out without interruption: the critical section, the work, the callback. *)
Definition serve (out : outcome) : D (option datum) :=
  match out with
  | Return r => mret (Some r)
  | Request a cb inside w callback u =>
    _ ← enter a cb inside w callback u;
    _ ← signal a;
    _ ← run_work w a;
    _ ← run_async_cb cb a;
    mret None
  end.

(** The database once the worker is told of the request. *)
Definition told (callback : datum) (bulk : Z) (x : database_t) : database_t :=
  let x1 := set_request (BulkReq bulk) (sql_len x)
    (set_busy true (Some Bulk_worker) callback (set_async_data (Some Bulk_cb) x)) in
  match thread x with Waiting => set_thread Woken x1 | _ => x1 end.

Lemma told_fields callback bulk x : request (told callback bulk x) = BulkReq bulk /\
  db_callback (told callback bulk x) = callback /\ db (told callback bulk x) = db x /\
  statement (told callback bulk x) = statement x.
Proof. unfold told. by destruct (thread x). Qed.

Lemma ok_told d x callback bulk s (k : D (option datum)) R :
  blocks s !! d = Some (Database x) -> mutex x = Unlocked ->
  (forall s', s' = set_blocks (<[d := Database (told callback bulk x)]> (blocks s)) s -> ok k s' R) ->
  ok (_ ← enter d Bulk_cb true Bulk_worker callback (Some (BulkReq bulk, sql_len x)); _ ← signal d; k) s R.
Proof.
  intros Hd Hm Hk. apply ok_bind. unfold enter. apply ok_bind. eapply ok_load_database; [exact Hd|].
  rewrite Hm. apply ok_bind, ok_assert; [done|]. cbv zeta. eapply ok_store; [exact Hd|done|].
  apply ok_bind. unfold signal. eapply ok_update_database; [cbn; apply lookup_insert_eq|].
  apply Hk. cbn. rewrite insert_insert_eq. unfold told. cbn. by destruct s, x as [? ? ? ? []].
Qed.

Lemma requested_database m items bulk p q d x y : requested m items bulk p q ->
  m !! d = Some (Database x) -> requested (<[d := Database y]> m) items bulk p q.
Proof.
  intros [[w Hb] Hp Hq Hpq Hi] Hd. constructor; try done.
  - exists w. rewrite lookup_insert_ne; [done|congruence].
  - rewrite lookup_insert_ne; [done|congruence].
  - rewrite lookup_insert_ne; [done|congruence].
  - apply (Forall_impl _ _ _ Hi). intros i. eapply item_ok_worked; [exact Hd|exact Hb|].
    intros k Hk _. by rewrite lookup_insert_ne.
Qed.

(** The whole of an accepted request, from the state its operation leaves. *)
Lemma served_spec d x items callback bulk p q s0 s :
  accepted items callback s0 bulk p q s -> blocks s0 !! d = Some (Database x) -> mutex x = Unlocked ->
  ok (serve (Request d Bulk_cb true Bulk_worker callback (Some (BulkReq bulk, sql_len x)))) s (fun r s' =>
    r = None /\ exists rc name h arg y, executes (history s0) items rc name h /\
      bulk_report x rc name h arg (history s') /\ callbacks s' = (callback, arg) :: callbacks s0 /\
      locks s' = locks s0 /\ blocks s' = <[d := Database y]> (blocks s0) /\
      busy y = false /\ db y = db x /\ statement y = statement x).
Proof.
  intros [Hreq Hbl (F1 & F2 & F3) Hl [Hh Hc]] Hd Hm.
  assert (Hne : bulk <> d /\ p <> d /\ q <> d) by (repeat split; congruence).
  destruct Hne as (N1 & N2 & N3).
  assert (Hd' : blocks s !! d = Some (Database x)).
  { rewrite <- Hd, <- Hbl. by rewrite !lookup_delete_ne. }
  destruct (told_fields callback bulk x) as (T1 & T2 & T3 & T4). cbn [serve].
  eapply ok_told; [exact Hd'|exact Hm|]. intros s1 ->. set (y := told callback bulk x) in *.
  set (s1 := set_blocks _ s).
  assert (Hy : blocks s1 !! d = Some (Database y)) by (cbn; apply lookup_insert_eq).
  assert (Hreq1 : requested (blocks s1) items bulk p q) by (by eapply requested_database).
  cbn [run_work run_async_cb]. apply ok_bind. eapply ok_mono; [by eapply bulk_worker_spec|].
  intros [] s2 (rc & name & He & Hex). apply ok_bind. eapply ok_mono.
  { eapply bulk_cb_spec; [exact Hex|exact T1|exact Hreq1|exact Hy|].
    rewrite T2. cbn. rewrite Hl. multiset_solver. }
  intros [] s3 (arg & C3 & R3 & L3 & B3). apply ok_ret. split; [done|].
  exists rc, name, (history s2), arg, (idle rc y). cbn [s1 history set_blocks] in He. rewrite Hh in He.
  split; [exact He|]. split; [unfold bulk_report in *; by rewrite T3 in R3|].
  rewrite T2 in C3, L3. cbn in C3, L3. rewrite Hc in C3. rewrite Hl in L3.
  split; [exact C3|]. split; [rewrite L3; multiset_solver|].
  split; [|by repeat split].
  rewrite B3. cbn. rewrite <- Hbl. apply map_eq. intros k.
  rewrite !lookup_insert, !lookup_delete, !lookup_insert. by repeat case_decide.
Qed.

(** C14: bulk execution. A bulk request for an idle database either fails for lack of memory and
    changes nothing, or, carried out without interruption, executes its statements in order up to
    the first failure, each with its parameters bound before the step and cleared after it.  The
    callback is then called once: with #t when all of them were executed, and otherwise with the
    error of the one that failed, under the name of the function that bound its last parameter even
    if it was the step that failed.  The request leaves the memory, the locks and everything but
    the database as they were. *)
Theorem bulk_executes d x t i items callback s :
  sane s -> Forall (item_ok (blocks s)) (i :: items) ->
  blocks s !! it_statement i = Some (Statement t) -> st_database t = d -> d <> 0 ->
  blocks s !! d = Some (Database x) -> busy x = false -> mutex x = Unlocked ->
  exists r s', (out ← osi_bulk_execute (addresses it_statement (i :: items))
      (addresses it_mbindings (i :: items)) callback; serve out) s = Some (r, s') /\
    ((r = Some (error_pair "osi_bulk_execute" UV_ENOMEM) /\ blocks s' = blocks s /\
        locks s' = locks s /\ history s' = history s /\ callbacks s' = callbacks s) \/
     (r = None /\ exists rc name h arg y, executes (history s) (i :: items) rc name h /\
        bulk_report x rc name h arg (history s') /\ callbacks s' = (callback, arg) :: callbacks s /\
        locks s' = locks s /\ blocks s' = <[d := Database y]> (blocks s) /\
        busy y = false /\ db y = db x /\ statement y = statement x)).
Proof.
  intros Hs Hi Ht Hd Hd0 Hx Hb Hm. apply ok_result. apply ok_bind.
  eapply ok_mono; [by eapply osi_bulk_execute_spec|].
  intros out s1 [(-> & H1 & H2 & H3 & H4)|(bulk & p & q & Hacc & ->)].
  - apply ok_ret. by left.
  - eapply ok_mono; [by eapply served_spec|]. intros r s2 H. by right.
Qed.
End bulk.

(** *** Two statements, of which the second fails *)

Definition failing_sqlite : Sqlite := {|
  sq_result h := match h with Sq_step 40 :: _ => 19 | Sq_step _ :: _ => SQLITE_DONE | _ => SQLITE_OK end;
  sq_handle h := 0;
  sq_text _ := Some [];
  sq_column _ := Col_null;
  sq_status _ := (0, 0)
|}.

Definition one_parameter (st handle : Z) : item := mkItem st handle 5 [mkBinding SQLITE_NULL None None] [Dfalse].
Definition bulk_state : sq_state :=
  mkSq (<[5 := Bindings [Some (mkBinding SQLITE_NULL None None)]]> example_blocks) 6 [] ∅ [] (fun _ => 1) 0.
Definition example_bulk : D (option datum) :=
  out ← osi_bulk_execute (addresses it_statement [one_parameter 3 30; one_parameter 4 40])
    (addresses it_mbindings [one_parameter 3 30; one_parameter 4 40]) (Dobject 1);
  serve (L := failing_sqlite) (C := example_scheme) out.

Lemma bulk_executes_witness : exists s' rc name h arg y, example_bulk bulk_state = Some (None, s') /\
  executes (L := failing_sqlite) [] [one_parameter 3 30; one_parameter 4 40] rc name h /\
  callbacks s' = [(Dobject 1, arg)] /\ locks s' = ∅ /\ blocks s' = <[1 := Database y]> (blocks bulk_state).
Proof.
  assert (Hok : forall st h prev next, blocks bulk_state !! st = Some (Statement (mkStatement h 1 prev next)) ->
    item_ok (C := example_scheme) (blocks bulk_state) (one_parameter st h)).
  { intros st h prev next Hst. split; [by eexists|]. split; [by repeat constructor|]. reflexivity. }
  destruct (@bulk_executes failing_sqlite example_scheme 1 example_database (mkStatement 30 1 4 2)
    (one_parameter 3 30) [one_parameter 4 40] (Dobject 1) bulk_state) as (r & s' & Hrun & Hres).
  - split; [done|]. intros k Hk. cbn in Hk |- *. apply lookup_insert_None. split; [|lia].
    unfold example_blocks. rewrite !lookup_insert_ne by lia. rewrite lookup_singleton_ne by lia. done.
  - constructor; [by eapply (Hok 3 30)|]. constructor; [by eapply (Hok 4 40)|constructor].
  - reflexivity.
  - reflexivity.
  - done.
  - reflexivity.
  - reflexivity.
  - reflexivity.
  - assert (E : match example_bulk bulk_state with Some (None, _) => true | _ => false end = true)
      by (vm_compute; reflexivity).
    change (example_bulk bulk_state = Some (r, s')) in Hrun. rewrite Hrun in E.
    destruct Hres as [(-> & _)|(-> & rc & name & h & arg & y & He & _ & Hc & Hl & Hb & _)]; [discriminate E|].
    exists s', rc, name, h, arg, y. by repeat split.
Defined.
