(* ===== verification/Effects.v ===== *)
(** * Effects: what the operations of sqlite.c do to the state the threads share

    The fields of a database that control the worker protocol, the requests for the thread
    pool, the locked callbacks and the delivered callbacks are the shared state; [leaves]
    and the [at_*] rules give the effect of every operation, callback and worker step of
    Database.v on it. *)

From S2P Require Export Statements.

(** ** What the threads share *)

(** The fields of a database that control the protocol. *)
Record control := mkControl {
  c_mutex : mutex_state; c_cond : bool; c_thread : worker; c_async : async_state;
  c_data : option uv_async_cb; c_sent : bool; c_busy : bool; c_work : option work;
  c_callback : datum; c_rc : Z
}.

Definition control_of (d : database_t) : control :=
  mkControl (mutex d) (cond d) (thread d) (async d) (async_data d) (async_sent d) (busy d)
    (db_work d) (db_callback d) (sqlite_rc d).

Inductive shared := Shared_database (c : control) | Shared_open (r : open_req_t).

Definition share (b : block) : option shared :=
  match b with
  | Database d => Some (Shared_database (control_of d))
  | OpenReq r => Some (Shared_open r)
  | _ => None
  end.

Definition view (s : sq_state) : gmap Z shared := omap share (blocks s).

Lemma lookup_view s a : view s !! a = blocks s !! a ≫= share.
Proof. apply lookup_omap. Qed.

(** ** Computations that leave the shared fields alone

    [leaves R m]: [m] changes the shared fields by [R], and neither locks nor callbacks. *)

Definition leaves {A} (R : gmap Z shared -> gmap Z shared -> Prop) (m : D A) : Prop :=
  forall s, sane s -> par m s (fun _ s' =>
    sane s' /\ R (view s) (view s') /\ locks s' = locks s /\ callbacks s' = callbacks s).

Section leaves.
Context (R : gmap Z shared -> gmap Z shared -> Prop) `{!PreOrder R}.

Lemma leaves_ret {A} (x : A) : leaves R (mret x).
Proof. intros s Hs. by apply par_ret. Qed.

Lemma leaves_stuck {A} : leaves (A:=A) R stuck.
Proof. intros s Hs. apply par_stuck. Qed.

Lemma leaves_bind {A B} (m : D A) (k : A -> D B) :
  leaves R m -> (forall x, leaves R (k x)) -> leaves R (m ≫= k).
Proof.
  intros Hm Hk s Hs. apply par_bind. eapply par_mono; [by apply Hm|].
  intros x s1 (H1 & R1 & L1 & C1). eapply par_mono; [by apply Hk|].
  intros y s2 (H2 & R2 & L2 & C2). split; [done|]. split; [by etrans|]. split; congruence.
Qed.

Lemma leaves_look : leaves R look.
Proof. intros s Hs. by apply par_look. Qed.

Lemma leaves_the {A} (x : option A) : leaves R (the x).
Proof. intros s Hs. by apply par_the. Qed.

Lemma leaves_assert b : leaves R (assert_ok b).
Proof. intros s Hs. by apply par_assert. Qed.

Lemma leaves_load a : leaves R (load a).
Proof. unfold load. apply leaves_bind; [apply leaves_look|]. intros s. apply leaves_the. Qed.

Lemma leaves_ask : leaves R ask.
Proof. intros s Hs. unfold ask, par. by split. Qed.

Lemma leaves_uv_result : leaves R uv_result.
Proof. unfold uv_result. apply leaves_bind; [apply leaves_ask|]. intros. apply leaves_ret. Qed.

Lemma leaves_sqlite c : leaves R (sqlite c).
Proof. intros s Hs. unfold sqlite, par. by cbn. Qed.

Lemma leaves_sqlite_int `{Sqlite} c : leaves R (sqlite_int c).
Proof. unfold sqlite_int. apply leaves_bind; [apply leaves_sqlite|]. intros. apply leaves_ret. Qed.

(** Blocks of the other kinds. *)
Definition private (k : kind) : bool := match k with KDatabase | KOpenReq => false | _ => true end.

Lemma private_share b : private (kind_of b) = true -> share b = None.
Proof. by destruct b. Qed.

Lemma view_insert s a b : share b = None -> view (set_blocks (<[a := b]> (blocks s)) s) = delete a (view s).
Proof.
  intros Hb. apply map_eq. intros k. rewrite lookup_view. cbn [blocks set_blocks].
  destruct (decide (k = a)) as [->|Hne].
  - by rewrite lookup_insert_eq, lookup_delete_eq.
  - rewrite lookup_insert_ne, lookup_delete_ne by done. by rewrite lookup_view.
Qed.

Lemma view_delete s a : view (set_blocks (delete a (blocks s)) s) = delete a (view s).
Proof.
  apply map_eq. intros k. rewrite lookup_view. cbn [blocks set_blocks].
  destruct (decide (k = a)) as [->|Hne].
  - by rewrite !lookup_delete_eq.
  - rewrite !lookup_delete_ne by done. by rewrite lookup_view.
Qed.

Lemma view_private s a b : blocks s !! a = Some b -> private (kind_of b) = true -> delete a (view s) = view s.
Proof.
  intros Ha Hb. apply delete_id. rewrite lookup_view, Ha. by apply private_share.
Qed.

Lemma sane_insert s a b c : sane s -> blocks s !! a = Some c -> sane (set_blocks (<[a := b]> (blocks s)) s).
Proof.
  intros [H0 Hf] Ha. split; [done|]. intros k Hk. cbn in Hk |- *.
  rewrite lookup_insert_ne; [by apply Hf|]. intros ->. by rewrite Hf in Ha.
Qed.

Lemma sane_delete s a : sane s -> sane (set_blocks (delete a (blocks s)) s).
Proof.
  intros [H0 Hf]. split; [done|]. intros k Hk. cbn in Hk |- *.
  apply lookup_delete_None. right. by apply Hf.
Qed.

Lemma leaves_store a b : private (kind_of b) = true -> leaves R (store a b).
Proof.
  intros Hb s Hs. unfold store. apply par_bind. apply par_bind, par_look, par_the. intros c Hc.
  apply par_bind, par_assert. intros Hk%bool_decide_eq_true_1. apply par_change.
  split; [by eapply sane_insert|]. split; [|done]. rewrite view_insert by (by apply private_share).
  rewrite (view_private _ _ _ Hc) by (by rewrite Hk). done.
Qed.

Lemma leaves_free k a : private k = true -> leaves R (free k a).
Proof.
  intros Hk s Hs. unfold free. apply par_bind. apply par_bind, par_look, par_the. intros c Hc.
  apply par_bind, par_assert. intros [Hkc%bool_decide_eq_true_1 _]%andb_true_iff. apply par_change.
  split; [by apply sane_delete|]. split; [|done]. rewrite view_delete.
  rewrite (view_private _ _ _ Hc) by (by rewrite Hkc). done.
Qed.

Lemma view_fresh s : sane s -> view s !! fresh s = None.
Proof. intros [_ Hf]. rewrite lookup_view, Hf by lia. done. Qed.

Lemma leaves_new s b : sane s -> share b = None ->
  let s' := set_fresh (fresh s + 1) (set_blocks (<[fresh s := b]> (blocks s)) s) in
  sane s' /\ view s' = view s.
Proof.
  intros Hs Hb s'. split.
  - destruct Hs as [H0 Hf]. split; cbn; [lia|]. intros k Hk. rewrite lookup_insert_ne by lia. apply Hf. lia.
  - change (view s') with (view (set_blocks (<[fresh s := b]> (blocks s)) s)).
    rewrite view_insert by done. by apply delete_id, view_fresh.
Qed.

Lemma leaves_malloc b : share b = None -> leaves R (malloc b).
Proof.
  intros Hb s Hs. unfold malloc. apply par_bind. cbn.
  destruct (answers s (ticks s) =? 0); [by cbn|]. cbn.
  destruct (leaves_new (set_ticks (S (ticks s)) s) b Hs Hb) as [H1 H2]. split; [exact H1|].
  split; [|done]. change (view s) with (view (set_ticks (S (ticks s)) s)). rewrite <- H2. done.
Qed.

Lemma leaves_string_to_utf8 chars : leaves R (string_to_utf8 chars).
Proof.
  intros s Hs. unfold string_to_utf8. apply par_bind. cbn.
  destruct (Utf8.osi_string_to_utf8 _ _) as [[[bytes|] len]|]; [|by cbn|done]. cbn.
  destruct (leaves_new (set_ticks (S (ticks s)) s) (Bytes bytes) Hs eq_refl) as [H1 H2].
  split; [exact H1|]. split; [|done].
  change (view s) with (view (set_ticks (S (ticks s)) s)). rewrite <- H2. done.
Qed.
End leaves.

(** A change of the database [a] itself. *)
Lemma leaves_update_database R `{!PreOrder R} a f :
  (forall v d, v !! a = Some (Shared_database (control_of d)) ->
     R v (<[a := Shared_database (control_of (f d))]> v)) -> leaves R (update_database a f).
Proof.
  intros HR s Hs. unfold update_database, load_database. do 2 apply par_bind.
  apply par_bind, par_look, par_the. intros b Hb.
  destruct b as [| | |d| | |]; try apply par_stuck. apply par_ret. unfold store.
  apply par_bind. apply par_bind, par_look, par_the. intros c Hc. apply par_bind, par_assert. intros _.
  apply par_change. split; [by eapply sane_insert|]. split; [|done].
  assert (Hv : view s !! a = Some (Shared_database (control_of d))) by (by rewrite lookup_view, Hb).
  replace (view (set_blocks _ s)) with (<[a := Shared_database (control_of (f d))]> (view s)); [by apply HR|].
  apply map_eq. intros k. rewrite lookup_view. cbn [blocks set_blocks].
  destruct (decide (k = a)) as [->|Hne]; [by rewrite !lookup_insert_eq|].
  rewrite !lookup_insert_ne by done. apply lookup_view.
Qed.

(** Only the result code of [a] may change. *)
Definition set_c_rc (r : Z) (x : shared) : shared :=
  match x with
  | Shared_database c => Shared_database (mkControl (c_mutex c) (c_cond c) (c_thread c) (c_async c)
      (c_data c) (c_sent c) (c_busy c) (c_work c) (c_callback c) r)
  | x => x
  end.
Definition rc_only (a : Z) (v v' : gmap Z shared) : Prop :=
  (forall b, b <> a -> v' !! b = v !! b) /\ exists f : shared -> shared,
    v' !! a = f <$> v !! a /\ forall x, f x = x \/ exists r, f x = set_c_rc r x.

#[export] Instance rc_only_preorder a : PreOrder (rc_only a).
Proof.
  split.
  - intros v. split; [done|]. exists id. split; [by rewrite map_fmap_id || by destruct (v !! a)|]. by left.
  - intros v1 v2 v3 [H12 (f & Hf & Ff)] [H23 (g & Hg & Fg)]. split.
    + intros b Hb. by rewrite H23, H12.
    + exists (g ∘ f). split; [by rewrite Hg, Hf; destruct (v1 !! a)|]. intros x. cbn.
      destruct (Ff x) as [->|[r ->]]; [apply Fg|]. right.
      destruct (Fg (set_c_rc r x)) as [->|[r' ->]]; [by exists r|]. exists r'. by destruct x.
Qed.

Lemma rc_only_rc a v d r : v !! a = Some (Shared_database (control_of d)) ->
  rc_only a v (<[a := Shared_database (control_of (set_sqlite_rc r d))]> v).
Proof.
  intros Hv. split; [intros b Hb; by rewrite lookup_insert_ne|]. exists (set_c_rc r).
  split; [|intros x; right; by exists r]. by rewrite lookup_insert_eq, Hv.
Qed.

Lemma same_control R `{!PreOrder R} a (v : gmap Z shared) c : v !! a = Some c -> R v (<[a := c]> v).
Proof. intros Hv. by rewrite insert_id. Qed.

Create HintDb leaves.
#[export] Hint Extern 0 (PreOrder _) => typeclasses eauto : leaves.
#[export] Hint Resolve leaves_ret leaves_stuck leaves_look leaves_the leaves_assert leaves_load
  leaves_ask leaves_uv_result leaves_sqlite leaves_sqlite_int leaves_string_to_utf8 : leaves.
#[export] Hint Extern 1 (leaves _ (store _ _)) => apply leaves_store; first [reflexivity | typeclasses eauto] : leaves.
#[export] Hint Extern 1 (leaves _ (free _ _)) => apply leaves_free; first [reflexivity | typeclasses eauto] : leaves.
#[export] Hint Extern 1 (leaves _ (malloc _)) => apply leaves_malloc; first [reflexivity | typeclasses eauto] : leaves.

(** Walks through a computation. *)
Ltac leaves_run :=
  repeat first
    [ progress cbv zeta
    | solve [eauto 3 with leaves]
    | match goal with
      | |- leaves _ (_ ≫= _) => apply leaves_bind; [..|intros]; try typeclasses eauto
      | |- leaves _ (match ?x with _ => _ end) => destruct x
      | |- leaves _ (let '(_, _) := ?x in _) => destruct x
      end ].

Section leaves_operations.
Context (R : gmap Z shared -> gmap Z shared -> Prop) `{!PreOrder R} {L : Sqlite} {C : Scheme}.

Lemma leaves_load_bytes a : leaves R (load_bytes a).
Proof. unfold load_bytes. leaves_run. Qed.
Lemma leaves_load_bindings a : leaves R (load_bindings a).
Proof. unfold load_bindings. leaves_run. Qed.
Lemma leaves_load_statement a : leaves R (load_statement a).
Proof. unfold load_statement. leaves_run. Qed.
Lemma leaves_load_database a : leaves R (load_database a).
Proof. unfold load_database. leaves_run. Qed.
Lemma leaves_load_bulk a : leaves R (load_bulk a).
Proof. unfold load_bulk. leaves_run. Qed.
Lemma leaves_load_pointers a : leaves R (load_pointers a).
Proof. unfold load_pointers. leaves_run. Qed.
Lemma leaves_load_open_req a : leaves R (load_open_req a).
Proof. unfold load_open_req. leaves_run. Qed.
Lemma leaves_set_statement a x : leaves R (update_database a (set_statement x)).
Proof. apply leaves_update_database; [done|]. intros v d Hv. by apply same_control. Qed.
Lemma leaves_read_bytes a n : leaves R (read_bytes a n).
Proof. unfold read_bytes. pose proof leaves_load_bytes. leaves_run. Qed.
Lemma leaves_update_statement a f : leaves R (update_statement a f).
Proof. unfold update_statement. pose proof leaves_load_statement. leaves_run. Qed.
Lemma leaves_make_sqlite_error w r d : leaves R (make_sqlite_error w r d).
Proof. unfold make_sqlite_error. leaves_run. Qed.
End leaves_operations.

#[export] Hint Resolve leaves_load_bytes leaves_load_bindings leaves_load_statement leaves_load_database
  leaves_load_bulk leaves_load_pointers leaves_load_open_req leaves_set_statement leaves_read_bytes
  leaves_update_statement leaves_make_sqlite_error : leaves.

Section leaves_bindings.
Context (R : gmap Z shared -> gmap Z shared -> Prop) `{!PreOrder R} {L : Sqlite} {C : Scheme}.

Lemma leaves_bind_one stmt i b : leaves R (bind_one stmt i b).
Proof. unfold bind_one. leaves_run. Qed.
Hint Resolve leaves_bind_one : leaves.
Lemma leaves_bind_loop l : forall stmt j who rc, leaves R (bind_loop stmt j l who rc).
Proof. induction l as [|b l IH]; intros; cbn [bind_loop]; leaves_run. Qed.
Hint Resolve leaves_bind_loop : leaves.
Lemma leaves_bind_bindings stmt b : leaves R (bind_bindings stmt b).
Proof. unfold bind_bindings. leaves_run. Qed.
Lemma leaves_column_names n : forall stmt i, leaves R (column_names stmt i n).
Proof. induction n as [|n IH]; intros; cbn [column_names]; leaves_run. Qed.
Lemma leaves_column_values n : forall stmt i, leaves R (column_values stmt i n).
Proof. induction n as [|n IH]; intros; cbn [column_values]; leaves_run. Qed.

Lemma leaves_set_binding x : leaves R (set_binding x).
Proof. unfold set_binding. leaves_run. Qed.
Lemma leaves_get_binding b : leaves R (get_binding b).
Proof. unfold get_binding. leaves_run. Qed.
Hint Resolve leaves_set_binding leaves_get_binding : leaves.
Lemma leaves_get_loop l : leaves R (get_loop l).
Proof. induction l as [|b l IH]; cbn [get_loop]; leaves_run. Qed.
Lemma leaves_free_binding b : leaves R (free_binding b).
Proof. unfold free_binding. leaves_run. Qed.
Hint Resolve leaves_get_loop leaves_free_binding : leaves.
Lemma leaves_free_entry a j : leaves R (free_entry a j).
Proof. unfold free_entry. leaves_run. Qed.
Hint Resolve leaves_free_entry : leaves.
Lemma leaves_free_entries n : forall a j, leaves R (free_entries a j n).
Proof. induction n as [|n IH]; intros; cbn [free_entries]; leaves_run. Qed.
Hint Resolve leaves_free_entries : leaves.
Lemma leaves_marshal_loop l : forall a i, leaves R (marshal_loop a i l).
Proof. induction l as [|x l IH]; intros; cbn [marshal_loop]; leaves_run. Qed.
Hint Resolve leaves_marshal_loop : leaves.
Lemma leaves_marshal_items l : leaves R (marshal_items l).
Proof. unfold marshal_items. leaves_run. Qed.
Hint Resolve leaves_marshal_items : leaves.
Lemma leaves_marshal x : leaves R (osi_marshal_bindings x).
Proof. unfold osi_marshal_bindings. leaves_run. Qed.
Lemma leaves_unmarshal a : leaves R (osi_unmarshal_bindings a).
Proof. unfold osi_unmarshal_bindings. leaves_run. Qed.
Lemma leaves_get_bindings a : leaves R (osi_get_bindings a).
Proof. unfold osi_get_bindings. leaves_run. Qed.
End leaves_bindings.

#[export] Hint Resolve leaves_bind_bindings leaves_column_names leaves_column_values leaves_marshal
  leaves_unmarshal leaves_get_bindings : leaves.

(** The work functions change nothing but the result code. *)
Section leaves_work.
Context {L : Sqlite} {C : Scheme}.

Lemma leaves_set_sqlite_rc a r : leaves (rc_only a) (update_database a (set_sqlite_rc r)).
Proof. apply leaves_update_database; [typeclasses eauto|]. intros v d. apply rc_only_rc. Qed.
Hint Resolve leaves_set_sqlite_rc : leaves.

Lemma leaves_close_statements n : forall a, leaves (rc_only a) (close_statements n a).
Proof. induction n as [|n IH]; intros; cbn [close_statements]; leaves_run. Qed.
Hint Resolve leaves_close_statements : leaves.

Lemma leaves_bulk_loop ss : forall a bulk bs, leaves (rc_only a) (bulk_loop a bulk ss bs).
Proof. induction ss as [|x ss IH]; intros a bulk [|b bs]; cbn [bulk_loop]; leaves_run. Qed.
Hint Resolve leaves_bulk_loop : leaves.

Lemma leaves_run_work w a : leaves (rc_only a) (run_work w a).
Proof.
  destruct w; cbn [run_work];
    unfold close_worker, prepare_worker, step_worker, bulk_worker; leaves_run.
Qed.

Lemma leaves_detach a s : leaves (rc_only a) (detach s).
Proof. unfold detach. leaves_run. Qed.
Lemma leaves_unlink a s : leaves (rc_only a) (unlink s).
Proof. unfold unlink. leaves_run. Qed.
Hint Resolve leaves_detach leaves_unlink leaves_run_work : leaves.

Lemma leaves_work_part w p a : leaves (rc_only a) (work_part w p a).
Proof.
  destruct w, p; cbn [work_part]; unfold close_part, prepare_part, bulk_part, bulk_iteration; leaves_run.
Qed.
Lemma leaves_work_rest w p a : leaves (rc_only a) (work_rest w p a).
Proof. destruct w, p; cbn [work_rest]; unfold prepare_rest; try apply leaves_run_work; leaves_run; apply leaves_run_work with (w := Close_worker). Qed.
End leaves_work.

(** ** The operations of the program *)

Inductive op :=
| Op_open (filename : list Z) (flags : Z) (callback : datum)
| Op_close (database : Z) (callback : datum)
| Op_prepare (database : Z) (sql callback : datum)
| Op_step (statement : Z) (callback : datum)
| Op_bulk (statements mbindings callback : datum)
| Op_finalize (statement : Z)
| Op_bind (statement index : Z) (x : datum)
| Op_bind_bindings (statement mbindings : Z)
| Op_clear_bindings (statement : Z)
| Op_reset (statement : Z)
| Op_columns (statement : Z)
| Op_expanded_sql (statement : Z)
| Op_last_insert_rowid (database : Z)
| Op_interrupt (database : Z)
| Op_status (operation resetp : Z)
| Op_marshal (x : datum)
| Op_unmarshal (mbindings : Z)
| Op_get_bindings (mbindings : Z).

(** The callback the operation registers. *)
Definition op_callback (o : op) : datum :=
  match o with
  | Op_open _ _ cb | Op_close _ cb | Op_prepare _ _ cb | Op_step _ cb | Op_bulk _ _ cb => cb
  | _ => Dvoid
  end.

Definition cb_of (w : work) : uv_async_cb :=
  match w with
  | Close_worker => Close_cb | Prepare_worker => Prepare_cb
  | Step_worker => Step_cb | Bulk_worker => Bulk_cb
  end.

Definition set_c_data (x : option uv_async_cb) (c : control) : control :=
  mkControl (c_mutex c) (c_cond c) (c_thread c) (c_async c) x (c_sent c) (c_busy c) (c_work c)
    (c_callback c) (c_rc c).

Section operations.
Context {L : Sqlite} {C : Scheme}.

Definition returned (m : D datum) : D outcome := r ← m; mret (Return r).

Definition run_op (o : op) : D outcome :=
  match o with
  | Op_open filename flags cb => returned (osi_open_database filename flags cb)
  | Op_close d cb => osi_close_database d cb
  | Op_prepare d sql cb => osi_prepare_statement d sql cb
  | Op_step st cb => osi_step_statement st cb
  | Op_bulk ss bs cb => osi_bulk_execute ss bs cb
  | Op_finalize st => returned (osi_finalize_statement st)
  | Op_bind st i x => returned (osi_bind_statement st i x)
  | Op_bind_bindings st b => returned (osi_bind_statement_bindings st b)
  | Op_clear_bindings st => returned (osi_clear_statement_bindings st)
  | Op_reset st => returned (osi_reset_statement st)
  | Op_columns st => returned (osi_get_statement_columns st)
  | Op_expanded_sql st => returned (osi_get_statement_expanded_sql st)
  | Op_last_insert_rowid d => returned (osi_get_last_insert_rowid d)
  | Op_interrupt d => returned (osi_interrupt_database d)
  | Op_status o r => returned (osi_get_sqlite_status o r)
  | Op_marshal x => returned (osi_marshal_bindings x)
  | Op_unmarshal b => returned (osi_unmarshal_bindings b)
  | Op_get_bindings b => returned (osi_get_bindings b)
  end.

(** Nothing the threads share changed. *)
Record unshared (s s' : sq_state) : Prop := {
  un_sane : sane s';
  un_view : view s' = view s;
  un_locks : locks s' = locks s;
  un_callbacks : callbacks s' = callbacks s
}.

Lemma unshared_refl s : sane s -> unshared s s.
Proof. by constructor. Qed.
Lemma unshared_trans s1 s2 s3 : unshared s1 s2 -> unshared s2 s3 -> unshared s1 s3.
Proof. intros [] []. constructor; congruence. Qed.

Lemma par_leaves {A} (m : D A) s (Q : A -> sq_state -> Prop) :
  leaves eq m -> sane s -> (forall x s', unshared s s' -> Q x s') -> par m s Q.
Proof.
  intros Hm Hs HQ. eapply par_mono; [by apply Hm|]. intros x s' (H1 & H2 & H3 & H4). by apply HQ.
Qed.

(** How an operation may end, as far as the threads are concerned. *)
Definition op_result (s : sq_state) (out : outcome) (s' : sq_state) : Prop :=
  match out with
  | Return _ => unshared s s'
  | Request a cb inside w k _ => cb = cb_of w /\ sane s' /\ callbacks s' = callbacks s /\
      locks s' = locks s ⊎ lk k /\
      exists c, view s !! a = Some (Shared_database c) /\ c_busy c = false /\
        view s' = (if inside then view s
                   else <[a := Shared_database (set_c_data (Some cb) c)]> (view s))
  end.

Lemma leaves_returned m : leaves eq m -> leaves eq (returned m).
Proof. intros Hm. unfold returned. leaves_run. Qed.

Lemma par_load_database a s (Q : database_t -> sq_state -> Prop) :
  (forall d, blocks s !! a = Some (Database d) -> Q d s) -> par (load_database a) s Q.
Proof.
  intros HQ. unfold load_database. apply par_bind, par_bind, par_look, par_the. intros b Hb.
  destruct b; try apply par_stuck. by apply HQ.
Qed.

(** A database block with new fields. *)
Lemma view_database s a d d' : blocks s !! a = Some (Database d) ->
  view (set_blocks (<[a := Database d']> (blocks s)) s) =
    <[a := Shared_database (control_of d')]> (view s) /\
  view s !! a = Some (Shared_database (control_of d)).
Proof.
  intros Ha. split; [|by rewrite lookup_view, Ha]. apply map_eq. intros k. rewrite lookup_view.
  cbn [blocks set_blocks]. destruct (decide (k = a)) as [->|Hne]; [by rewrite !lookup_insert_eq|].
  rewrite !lookup_insert_ne by done. by rewrite lookup_view.
Qed.

Lemma par_store_database s a d d' (Q : unit -> sq_state -> Prop) :
  blocks s !! a = Some (Database d) ->
  Q tt (set_blocks (<[a := Database d']> (blocks s)) s) -> par (store a (Database d')) s Q.
Proof.
  intros Ha HQ. unfold store. apply par_bind, par_bind, par_look, par_the. intros b Hb.
  apply par_bind, par_assert. intros _. by apply par_change.
Qed.

Lemma par_update_database s a f d (Q : unit -> sq_state -> Prop) :
  blocks s !! a = Some (Database d) ->
  Q tt (set_blocks (<[a := Database (f d)]> (blocks s)) s) -> par (update_database a f) s Q.
Proof.
  intros Ha HQ. unfold update_database. apply par_bind, par_load_database. intros d' Hd'.
  rewrite Ha in Hd'. injection Hd' as <-. by eapply par_store_database.
Qed.

(** The end of a request. *)
Lemma submit_result s s1 a d cb w k u :
  unshared s s1 -> blocks s1 !! a = Some (Database d) -> busy d = false -> cb = cb_of w ->
  par (submit a cb w k u) s1 (op_result s).
Proof.
  intros [Hs Hv Hl Hc] Ha Hb ->. unfold submit. apply par_bind. eapply par_update_database; [exact Ha|].
  apply par_bind. unfold Slock_object. apply par_change, par_ret.
  destruct (view_database s1 a d (set_async_data (Some (cb_of w)) d) Ha) as [Hv1 Hv2].
  split; [done|]. split; [|split; [done|split]].
  - change (sane (set_blocks (<[a := Database (set_async_data (Some (cb_of w)) d)]> (blocks s1)) s1)).
    by eapply sane_insert.
  - cbn. by rewrite Hl.
  - exists (control_of d). split; [by rewrite <- Hv|]. split; [done|].
    change (view (set_blocks (<[a := Database (set_async_data (Some (cb_of w)) d)]> (blocks s1)) s1) =
      <[a := Shared_database (set_c_data (Some (cb_of w)) (control_of d))]> (view s)).
    by rewrite Hv1, Hv.
Qed.

(** Reading a database after steps that leave it alone. *)
Lemma par_return s s1 x : unshared s s1 -> par (mret (Return x)) s1 (op_result s).
Proof. done. Qed.

Lemma view_inv s a c : view s !! a = Some (Shared_database c) ->
  exists d, blocks s !! a = Some (Database d) /\ control_of d = c.
Proof.
  rewrite lookup_view. destruct (blocks s !! a) as [[| | |d| | |]|]; try done.
  intros [= <-]. by exists d.
Qed.

Lemma unshared_database s s1 a d : unshared s s1 -> blocks s !! a = Some (Database d) ->
  exists d', blocks s1 !! a = Some (Database d') /\ busy d' = busy d.
Proof.
  intros [_ Hv _ _] Ha. assert (H : view s1 !! a = Some (Shared_database (control_of d)))
    by (by rewrite Hv, lookup_view, Ha).
  apply view_inv in H as (d' & Hd & E). exists d'. split; [done|].
  by apply (f_equal c_busy) in E.
Qed.

Lemma submit_later s s1 a d cb w k u :
  unshared s s1 -> blocks s !! a = Some (Database d) -> busy d = false -> cb = cb_of w ->
  par (submit a cb w k u) s1 (op_result s).
Proof.
  intros Hu Ha Hb Hcb. destruct (unshared_database _ _ _ _ Hu Ha) as (d' & Hd' & E).
  eapply submit_result; [done|exact Hd'|by rewrite E|done].
Qed.

Lemma op_result_later s s1 out s2 : unshared s s1 -> op_result s1 out s2 -> op_result s out s2.
Proof.
  intros [Hs Hv Hl Hc]. unfold op_result. destruct out as [r|a k inside w k' u].
  - intros [? ? ? ?]. constructor; congruence.
  - by rewrite Hv, Hl, Hc.
Qed.

Lemma close_result d cb s : sane s -> par (osi_close_database d cb) s (op_result s).
Proof.
  intros Hs. unfold osi_close_database. apply par_bind, par_load_database. intros x Hx.
  pose proof (unshared_refl s Hs) as Hun. destruct (busy x) eqn:Eb; [by apply par_return|].
  by eapply submit_later.
Qed.

(** Steps that leave everything alone, before the end of an operation. *)
Ltac unshared_step :=
  apply par_bind; apply par_leaves;
  [solve [leaves_run]|by eapply un_sane|];
  let x := fresh "x" in let s := fresh "s" in let H := fresh "Hu" in
  intros x s H;
  match goal with H0 : unshared ?s0 ?s1, H : unshared ?s1 s |- _ =>
    let Hn := fresh in pose proof (unshared_trans _ _ _ H0 H) as Hn; clear H0 H;
    rename Hn into Hun end.

Lemma prepare_result d sql cb s : sane s -> par (osi_prepare_statement d sql cb) s (op_result s).
Proof.
  intros Hs. unfold osi_prepare_statement. apply par_bind, par_load_database. intros x Hx.
  pose proof (unshared_refl s Hs) as Hun. destruct (busy x) eqn:Eb; [by apply par_return|].
  destruct sql; try (by apply par_return). unshared_step. destruct x0 as [utf8 len].
  destruct (utf8 =? 0); [by apply par_return|]. destruct (_ <? len).
  - unshared_step. by apply par_return.
  - by eapply submit_later.
Qed.

Lemma step_result st cb s : sane s -> par (osi_step_statement st cb) s (op_result s).
Proof.
  intros Hs. pose proof (unshared_refl s Hs) as Hun. unfold osi_step_statement. unshared_step.
  destruct (_ =? 0); [by apply par_return|].
  apply par_bind, par_load_database. intros d Hd. destruct (busy d) eqn:Eb; [by apply par_return|].
  eapply (par_mono _ _ (op_result s0)); [|intros out s2; by apply op_result_later].
  eapply submit_later; [by apply unshared_refl; eapply un_sane|exact Hd|exact Eb|done].
Qed.

Lemma leaves_pointer_items l : leaves eq (pointer_items l).
Proof. unfold pointer_items. leaves_run. Qed.
Hint Resolve leaves_pointer_items : leaves.

Lemma bulk_result ss bs cb s : sane s -> par (osi_bulk_execute ss bs cb) s (op_result s).
Proof.
  intros Hs. pose proof (unshared_refl s Hs) as Hun. unfold osi_bulk_execute.
  destruct ss; try (by apply par_return). destruct bs; try (by apply par_return).
  destruct (negb _); [by apply par_return|]. destruct l as [|x0 l]; [by apply par_return|].
  unshared_step. unshared_step. destruct (_ =? 0); [by apply par_return|].
  apply par_bind, par_load_database. intros d Hd. destruct (busy d) eqn:Eb; [by apply par_return|].
  eapply (par_mono _ _ (op_result s1)); [|intros out s2; by apply op_result_later].
  pose proof (unshared_refl s1 (un_sane _ _ Hun)) as Hun1. clear Hun.
  unshared_step. destruct (x2 =? 0); [by apply par_return|].
  unshared_step. destruct (x3 =? 0); [unshared_step; by apply par_return|].
  unshared_step. destruct (x4 =? 0); [do 2 unshared_step; by apply par_return|].
  do 5 unshared_step. apply par_bind. unfold Slock_object. apply par_change, par_ret.
  match goal with Hn : unshared s1 ?s2 |- _ => destruct Hn as [Hs2 Hv2 Hl2 Hc2] end.
  split; [done|]. split; [exact Hs2|]. split; [done|]. split; [cbn; by rewrite Hl2|].
  exists (control_of d). split; [by rewrite lookup_view, Hd|]. split; [done|].
  exact Hv2.
Qed.

Lemma run_op_result o s : sane s -> (forall f fl cb, o <> Op_open f fl cb) ->
  par (run_op o) s (op_result s).
Proof.
  intros Hs Ho.
  assert (Hret : forall m : D datum, leaves eq m -> par (returned m) s (op_result s)).
  { intros m Hm. unfold returned. apply par_bind, par_leaves; [done|done|].
    intros r s' Hu. by apply par_return. }
  destruct o; cbn [run_op].
  - by destruct (Ho filename flags callback).
  - by apply close_result.
  - by apply prepare_result.
  - by apply step_result.
  - by apply bulk_result.
  - apply Hret. unfold osi_finalize_statement. leaves_run.
  - apply Hret. unfold osi_bind_statement. leaves_run.
  - apply Hret. unfold osi_bind_statement_bindings. leaves_run.
  - apply Hret. unfold osi_clear_statement_bindings. leaves_run.
  - apply Hret. unfold osi_reset_statement. leaves_run.
  - apply Hret. unfold osi_get_statement_columns. leaves_run.
  - apply Hret. unfold osi_get_statement_expanded_sql. leaves_run.
  - apply Hret. unfold osi_get_last_insert_rowid. leaves_run.
  - apply Hret. unfold osi_interrupt_database. leaves_run.
  - apply Hret. unfold osi_get_sqlite_status. leaves_run.
  - apply Hret. leaves_run.
  - apply Hret. leaves_run.
  - apply Hret. leaves_run.
Qed.
End operations.

(** ** Opening a database *)

Section opening.
Context {L : Sqlite} {C : Scheme}.

(** What [osi_open_database] leaves: an error and no trace, or a request for the thread pool
    with the callback locked. *)
Definition open_result (cb : datum) (s : sq_state) (r : datum) (s' : sq_state) : Prop :=
  sane s' /\ callbacks s' = callbacks s /\
  ((r <> Dtrue /\ view s' = view s /\ locks s' = locks s) \/
   (r = Dtrue /\ locks s' = locks s ⊎ lk cb /\ exists req o, view s !! req = None /\
      req_callback o = cb /\ req_state o = Queued /\ view s' = <[req := Shared_open o]> (view s))).

Lemma view_open s a b o : blocks s !! a = b -> view (set_blocks (<[a := OpenReq o]> (blocks s)) s) =
  <[a := Shared_open o]> (view s).
Proof.
  intros _. apply map_eq. intros k. rewrite lookup_view. cbn [blocks set_blocks].
  destruct (decide (k = a)) as [->|Hne]; [by rewrite !lookup_insert_eq|].
  rewrite !lookup_insert_ne by done. by rewrite lookup_view.
Qed.

(** While the request is being made: it is the only change of the shared fields. *)
Record requesting (req : Z) (o : open_req_t) (s s' : sq_state) : Prop := {
  rq_sane : sane s';
  rq_fresh : view s !! req = None;
  rq_view : view s' = <[req := Shared_open o]> (view s);
  rq_callbacks : callbacks s' = callbacks s
}.

Lemma view_open_inv s a o : view s !! a = Some (Shared_open o) -> blocks s !! a = Some (OpenReq o).
Proof.
  rewrite lookup_view. destruct (blocks s !! a) as [[| | |d| | |r]|]; try done. by intros [= <-].
Qed.

Lemma requesting_block req o s s' : requesting req o s s' -> blocks s' !! req = Some (OpenReq o).
Proof. intros [_ _ Hv _]. apply view_open_inv. by rewrite Hv, lookup_insert_eq. Qed.

Lemma par_store_open req o o' s s' (Q : unit -> sq_state -> Prop) :
  requesting req o s s' ->
  (forall s2, requesting req o' s s2 -> locks s2 = locks s' -> Q tt s2) -> par (store req (OpenReq o')) s' Q.
Proof.
  intros Hr HQ. pose proof (requesting_block _ _ _ _ Hr) as Hb. unfold store.
  apply par_bind, par_bind, par_look, par_the. intros b _. apply par_bind, par_assert. intros _.
  apply par_change. destruct Hr as [Hs Hf Hv Hc]. apply HQ; [|done]. constructor; try done.
  - by eapply sane_insert.
  - rewrite (view_open _ _ _ _ Hb), Hv. by rewrite insert_insert_eq.
Qed.

Lemma par_requesting {A} (m : D A) req o s s' (Q : A -> sq_state -> Prop) :
  leaves eq m -> requesting req o s s' ->
  (forall x s2, requesting req o s s2 -> locks s2 = locks s' -> Q x s2) -> par m s' Q.
Proof.
  intros Hm [Hs Hf Hv Hc] HQ. apply par_leaves; [done|done|]. intros x s2 [H1 H2 H3 H4].
  apply HQ; [|done]. constructor; congruence.
Qed.

Lemma par_free_open req o s s' (Q : unit -> sq_state -> Prop) :
  requesting req o s s' ->
  (forall s2, sane s2 -> view s2 = view s -> callbacks s2 = callbacks s -> locks s2 = locks s' -> Q tt s2) ->
  par (free KOpenReq req) s' Q.
Proof.
  intros [Hs Hf Hv Hc] HQ. unfold free. apply par_bind, par_bind, par_look, par_the. intros b _.
  apply par_bind, par_assert. intros _. apply par_change. apply HQ; [by apply sane_delete| |done|done].
  rewrite view_delete, Hv. rewrite delete_insert_eq. by apply delete_id.
Qed.

Lemma par_lock x s (Q : unit -> sq_state -> Prop) :
  Q tt (set_locks (locks s ⊎ lk x) s) -> par (Slock_object x) s Q.
Proof. intros HQ. by apply par_change. Qed.

Lemma par_unlock x s (Q : unit -> sq_state -> Prop) :
  (forall l, locks s = l ⊎ lk x -> Q tt (set_locks l s)) -> par (Sunlock_object x) s Q.
Proof.
  intros HQ. apply par_bind, par_look, par_bind, par_assert. intros Hb%bool_decide_eq_true_1.
  apply par_change, HQ. multiset_solver.
Qed.

Lemma requesting_locks req o s s' l : requesting req o s s' -> requesting req o s (set_locks l s').
Proof. intros []. by constructor. Qed.

Lemma open_database_result f fl cb s : sane s -> par (osi_open_database f fl cb) s (open_result cb s).
Proof.
  intros Hs. unfold osi_open_database. apply par_bind. unfold malloc at 1. apply par_bind.
  unfold ask, par at 1. cbn [answers ticks]. destruct (_ =? 0) eqn:Ea.
  { cbn [Z.eqb]. apply par_ret, par_ret. split; [done|]. split; [done|]. by left. }
  apply par_bind, par_look, par_bind, par_change, par_ret. cbn [fresh set_ticks].
  destruct (Z.eqb_spec (fresh s) 0) as [E|_]; [destruct Hs; lia|].
  set (s1 := set_fresh _ _). set (o0 := mkOpenReq NotQueued 0 0 Dvoid 0 0) in *.
  assert (H1 : requesting (fresh s) o0 s s1).
  { constructor; [|by apply view_fresh| |done].
    - destruct Hs as [H0 Hf]. split; cbn; [lia|]. intros k Hk. rewrite lookup_insert_ne by lia. apply Hf. lia.
    - apply (view_open s (fresh s) _ o0 eq_refl). }
  apply par_bind. eapply par_requesting; [leaves_run|exact H1|]. intros name s2 H2 L2.
  apply par_bind. eapply par_store_open; [exact H2|]. intros s3 H3 L3. apply par_bind, par_lock, par_bind.
  eapply par_store_open; [by apply requesting_locks, H3|]. intros s4 H4 L4.
  apply par_bind. eapply par_requesting; [leaves_run|exact H4|]. intros rc s5 H5 L5.
  destruct (rc <? 0).
  - apply par_bind, par_unlock. intros l Hl. apply par_bind.
    eapply par_requesting; [|by apply requesting_locks, H5|].
    { destruct (name =? 0); leaves_run. }
    intros _ s6 H6 L6. apply par_bind. eapply par_free_open; [exact H6|].
    intros s7 H7 V7 C7 L7. apply par_ret. split; [done|]. split; [done|]. left. split; [done|].
    split; [done|]. rewrite L7, L6. cbn in L4, L5, L3, L2, Hl |- *. rewrite L5, L4, L3, L2 in Hl.
    change (locks s1) with (locks s) in Hl. multiset_solver.
  - apply par_bind. eapply par_store_open; [exact H5|]. intros s6 H6 L6. apply par_ret.
    split; [apply H6|]. split; [apply H6|]. right. split; [done|]. split.
    + rewrite L6, L5, L4. cbn. rewrite L3, L2. done.
    + exists (fresh s). eexists. split; [apply H6|]. split; [|split; [|apply H6]]; done.
Qed.
End opening.

(** ** Steps on one database *)

(** The shared fields are [v], the locks [l] and the callbacks [cbs]. *)
Record at_view (v : gmap Z shared) (l : gmultiset positive) (cbs : list (datum * datum))
    (s : sq_state) : Prop := {
  at_sane : sane s;
  at_fields : view s = v;
  at_locks : locks s = l;
  at_callbacks : callbacks s = cbs
}.

(** The shared fields are those of [v], but for the database [a] whose fields are [c]. *)
Definition at_database (a : Z) (c : control) (v : gmap Z shared) : gmultiset positive ->
    list (datum * datum) -> sq_state -> Prop := at_view (<[a := Shared_database c]> v).

(** Equations between databases, as equations between their fields. *)
Ltac controls_eq :=
  repeat match goal with d : database_t |- _ => destruct d end;
  unfold control_of in *; cbn in *;
  repeat match goal with
  | H : mkControl _ _ _ _ _ _ _ _ _ _ = mkControl _ _ _ _ _ _ _ _ _ _ |- _ =>
    injection H; clear H; intros
  end; subst; try done.

Section at_database.
Context {L : Sqlite} {C : Scheme}.

Lemma at_block a c v l cbs s : at_database a c v l cbs s ->
  exists d, blocks s !! a = Some (Database d) /\ control_of d = c.
Proof. intros [_ Hv _ _]. apply view_inv. by rewrite Hv, lookup_insert_eq. Qed.

Lemma par_at_leaves {A} (m : D A) v l cbs s (Q : A -> sq_state -> Prop) :
  leaves eq m -> at_view v l cbs s -> (forall x s', at_view v l cbs s' -> Q x s') -> par m s Q.
Proof.
  intros Hm [Hs Hv Hl Hc] HQ. apply par_leaves; [done|done|]. intros x s' [H1 H2 H3 H4].
  apply HQ. constructor; congruence.
Qed.

Lemma par_at_load a c v l cbs s (Q : database_t -> sq_state -> Prop) :
  at_database a c v l cbs s -> (forall d, control_of d = c -> Q d s) -> par (load_database a) s Q.
Proof.
  intros Ha HQ. destruct (at_block _ _ _ _ _ _ Ha) as (d & Hd & E).
  apply par_load_database. intros d' Hd'. rewrite Hd in Hd'. injection Hd' as <-. by apply HQ.
Qed.

Lemma at_insert a c v l cbs s d' : at_database a c v l cbs s ->
  at_database a (control_of d') v l cbs (set_blocks (<[a := Database d']> (blocks s)) s).
Proof.
  intros Ha. destruct (at_block _ _ _ _ _ _ Ha) as (d & Hd & E). destruct Ha as [Hs Hv Hl Hc].
  constructor; [by eapply sane_insert| |done|done].
  rewrite (proj1 (view_database _ _ _ d' Hd)), Hv. apply insert_insert_eq.
Qed.

Lemma par_at_store a c v l cbs s d' (Q : unit -> sq_state -> Prop) :
  at_database a c v l cbs s ->
  (forall s', at_database a (control_of d') v l cbs s' -> Q tt s') -> par (store a (Database d')) s Q.
Proof.
  intros Ha HQ. destruct (at_block _ _ _ _ _ _ Ha) as (d & Hd & E).
  eapply par_store_database; [exact Hd|]. by eapply HQ, at_insert.
Qed.

Lemma par_at_update a c v l cbs s f (Q : unit -> sq_state -> Prop) :
  at_database a c v l cbs s ->
  (forall d s', control_of d = c -> at_database a (control_of (f d)) v l cbs s' -> Q tt s') ->
  par (update_database a f) s Q.
Proof.
  intros Ha HQ. unfold update_database. apply par_bind. eapply par_at_load; [exact Ha|].
  intros d Hd. eapply par_at_store; [exact Ha|]. intros s'. by apply HQ.
Qed.

Lemma par_at_unlock x v l cbs s (Q : unit -> sq_state -> Prop) :
  at_view v l cbs s ->
  (forall l' s', l = l' ⊎ lk x -> at_view v l' cbs s' -> Q tt s') -> par (Sunlock_object x) s Q.
Proof.
  intros [Hs Hv Hl Hc] HQ. apply par_unlock. intros l' Hl'. apply (HQ l'); [congruence|].
  by constructor.
Qed.

Lemma par_at_callback cb arg v l cbs s (Q : unit -> sq_state -> Prop) :
  at_view v l cbs s ->
  (forall s', at_view v l ((cb, arg) :: cbs) s' -> Q tt s') -> par (add_callback1 cb arg) s Q.
Proof. intros [Hs Hv Hl Hc] HQ. apply par_change, HQ. constructor; try done. cbn. by rewrite Hc. Qed.

Lemma at_start a c s : sane s -> view s !! a = Some (Shared_database c) ->
  at_database a c (view s) (locks s) (callbacks s) s.
Proof. intros Hs Ha. constructor; try done. by rewrite insert_id. Qed.

#[local] Instance uv_async_cb_eq : EqDecision uv_async_cb.
Proof. solve_decision. Defined.

(** *** The callbacks of the requests *)

(** The fields after a request has been reported, and after a database has been closed. *)
Definition finished (c : control) : control :=
  mkControl (c_mutex c) (c_cond c) (c_thread c) (c_async c) (c_data c) (c_sent c) false (c_work c)
    Dvoid (c_rc c).
Definition closed (c : control) : control :=
  mkControl NoMutex false Gone Closing (c_data c) (c_sent c) false (c_work c) Dvoid (c_rc c).

(** The callback is delivered once and its lock released. *)
Definition reported (a : Z) (c c' : control) (s s' : sq_state) : Prop :=
  exists l arg, locks s = l ⊎ lk (c_callback c) /\
    at_database a c' (view s) l ((c_callback c, arg) :: callbacks s) s'.

Ltac at_leaves Ha :=
  eapply par_at_leaves; [leaves_run|exact Ha|]; clear Ha;
  let x := fresh "x" in let s := fresh "s" in intros x s Ha.
Lemma close_cb_result a c s : sane s -> view s !! a = Some (Shared_database c) ->
  par (close_cb a) s (fun _ s' =>
    (c_rc c = SQLITE_OK /\ (c_thread c = Gone \/ c_thread c = Sent Close_worker) /\
       reported a c (closed c) s s') \/
    (c_rc c <> SQLITE_OK /\ reported a c (finished c) s s')).
Proof.
  intros Hs Hv. pose proof (at_start a c s Hs Hv) as Ha. unfold close_cb.
  apply par_bind. eapply par_at_load; [exact Ha|]. intros d Hd. apply par_bind.
  eapply par_at_store; [exact Ha|]. clear Ha. intros s1 Ha. apply par_bind.
  eapply par_at_unlock; [exact Ha|]. clear Ha. intros l s2 Hl Ha. subst c.
  cbn [control_of c_rc c_callback c_thread c_data c_sent c_work set_busy mutex cond thread async async_data
    async_sent busy db_work db_callback sqlite_rc] in *.
  destruct (Z.eqb_spec (sqlite_rc d) SQLITE_OK) as [Erc|Erc].
  - apply par_bind. unfold uv_thread_join. apply par_bind.
    eapply par_at_load; [exact Ha|]. intros d1 Hd1.
    assert (Hjoin : par (match thread d1 with
        | Gone => mret tt
        | Sent Close_worker => store a (Database (set_mutex Unlocked (set_thread Gone d1)))
        | _ => stuck end) s2 (fun _ s' => (thread d = Gone \/ thread d = Sent Close_worker) /\
          exists m, at_database a (mkControl m (cond d) Gone (async d) (async_data d)
            (async_sent d) false (db_work d) Dvoid (sqlite_rc d)) (view s) l (callbacks s) s')).
    { pose proof (f_equal c_thread Hd1) as Et. cbn in Et. rewrite Et.
      destruct (thread d) as [| | | | |[]| | |] eqn:E; try apply par_stuck.
      - eapply par_at_store; [exact Ha|]. intros s3 Ha3. split; [by right|]. exists Unlocked.
        controls_eq.
      - apply par_ret. split; [by left|]. exists (mutex d). controls_eq. }
    eapply par_mono; [exact Hjoin|]. clear Ha Hjoin. intros _ s3 (Hth & m & Ha).
    apply par_bind. eapply par_at_update; [exact Ha|]. clear Ha. intros d2 s4 Hd2 Ha.
    apply par_bind. eapply par_at_load; [exact Ha|]. intros d3 Hd3.
    apply par_bind, par_assert. intros _. apply par_bind. eapply par_at_update; [exact Ha|].
    clear Ha. intros d4 s5 Hd4 Ha. apply par_bind. eapply par_at_update; [exact Ha|].
    clear Ha. intros d5 s6 Hd5 Ha. eapply par_at_callback; [exact Ha|]. clear Ha. intros s7 Ha.
    left. split; [done|]. split; [done|]. exists l, Dtrue. split; [done|].
    controls_eq.
  - apply par_bind. at_leaves Ha. eapply par_at_callback; [exact Ha|]. clear Ha. intros s7 Ha.
    right. split; [done|]. exists l. eexists. split; [done|]. exact Ha.
Qed.

(** The callbacks of the other requests. *)
Lemma other_cb_result cb a c s : cb <> Close_cb -> sane s -> view s !! a = Some (Shared_database c) ->
  par (run_async_cb cb a) s (fun _ s' => reported a c (finished c) s s').
Proof.
  intros Hcb Hs Hv. pose proof (at_start a c s Hs Hv) as Ha.
  destruct cb; try done; cbn [run_async_cb]; unfold prepare_cb, step_cb, bulk_cb;
    (apply par_bind; eapply par_at_load; [exact Ha|]; intros d Hd; subst c);
    destruct (request d) eqn:Er; try apply par_stuck.
  - apply par_bind. at_leaves Ha. apply par_bind. eapply par_at_store; [exact Ha|]. clear Ha. intros s2 Ha.
    apply par_bind. eapply par_at_unlock; [exact Ha|]. clear Ha. intros l s3 Hl Ha.
    destruct (_ =? SQLITE_OK).
    + eapply par_at_callback; [exact Ha|]. clear Ha. intros s4 Ha. by exists l, (Dinteger (statement d)).
    + apply par_bind. at_leaves Ha. eapply par_at_callback; [exact Ha|]. clear Ha. intros s4 Ha.
      by exists l, x0.
  - apply par_bind. eapply par_at_store; [exact Ha|]. clear Ha. intros s2 Ha.
    apply par_bind. eapply par_at_unlock; [exact Ha|]. clear Ha. intros l s3 Hl Ha.
    apply par_bind. at_leaves Ha. eapply par_at_callback; [exact Ha|]. clear Ha. intros s4 Ha.
    by exists l, x.
  - apply par_bind. eapply par_at_unlock; [exact Ha|]. clear Ha. intros l s2 Hl Ha.
    apply par_bind. eapply par_at_store; [exact Ha|]. clear Ha. intros s3 Ha.
    do 5 (apply par_bind; at_leaves Ha). eapply par_at_callback; [exact Ha|]. clear Ha. intros s9 Ha.
    exists l. eexists. split; [exact Hl|]. exact Ha.
Qed.

(** [async_cb]: the pending message is consumed, and the callback it names runs. *)
Definition received (c : control) : control :=
  mkControl (c_mutex c) (c_cond c) (c_thread c) (c_async c) (c_data c) false (c_busy c) (c_work c)
    (c_callback c) (c_rc c).

Lemma reported_from a c c' s s1 s' :
  view s !! a = Some (Shared_database c) ->
  at_database a (received c) (view s) (locks s) (callbacks s) s1 ->
  reported a (received c) c' s1 s' -> reported a c c' s s'.
Proof.
  intros Hv [_ Hv1 Hl1 Hc1] (l & arg & Hl & [H1 H2 H3 H4]). exists l, arg. cbn in *.
  split; [congruence|]. constructor; [done| |done|congruence]. rewrite H2, Hv1. apply insert_insert_eq.
Qed.

Lemma async_cb_result a c s : sane s -> view s !! a = Some (Shared_database c) ->
  par (Database.async_cb a) s (fun _ s' => exists cb, c_data c = Some cb /\
    ((cb = Close_cb /\ c_rc c = SQLITE_OK /\ (c_thread c = Gone \/ c_thread c = Sent Close_worker) /\
        reported a c (closed (received c)) s s') \/
     ((cb = Close_cb -> c_rc c <> SQLITE_OK) /\ reported a c (finished (received c)) s s'))).
Proof.
  intros Hs Hv. pose proof (at_start a c s Hs Hv) as Ha. unfold Database.async_cb.
  apply par_bind. eapply par_at_load; [exact Ha|]. intros d Hd.
  apply par_bind, par_the. intros cb Hcb. apply par_bind. eapply par_at_store; [exact Ha|].
  clear Ha. intros s1 Ha.
  replace (control_of (set_async_sent false d)) with (received c) in Ha by (by subst c).
  assert (Hv1 : view s1 !! a = Some (Shared_database (received c)))
    by (rewrite (at_fields _ _ _ _ Ha); apply lookup_insert_eq).
  assert (Hdata : c_data c = Some cb) by (by subst c).
  destruct (decide (cb = Close_cb)) as [->|Hne].
  - cbn [run_async_cb]. eapply par_mono; [apply (close_cb_result a (received c)); [apply Ha|exact Hv1]|].
    intros _ s' [(Hrc & Hth & Hr)|[Hrc Hr]]; exists Close_cb; (split; [done|]).
    + left. repeat (split; [done|]). by eapply reported_from.
    + right. split; [done|]. by eapply reported_from.
  - eapply par_mono; [apply (other_cb_result cb a (received c)); [done|apply Ha|exact Hv1]|].
    intros u s' Hr. exists cb. split; [done|]. right. split; [done|]. by eapply reported_from.
Qed.
End at_database.

(** ** The other steps *)

Section steps.
Context {L : Sqlite} {C : Scheme}.

(** The thread pool has opened the file of a request. *)
Definition opened (o o' : open_req_t) : Prop :=
  req_state o' = Worked /\ req_callback o' = req_callback o.

Lemma open_worker_result req o s : sane s -> view s !! req = Some (Shared_open o) ->
  par (open_worker req) s (fun _ s' => exists o', opened o o' /\
    at_view (<[req := Shared_open o']> (view s)) (locks s) (callbacks s) s').
Proof.
  intros Hs Hv. pose proof (view_open_inv _ _ _ Hv) as Hb. unfold open_worker, load_open_req.
  apply par_bind, par_bind, par_bind, par_look, par_the. intros b Hb'. rewrite Hb in Hb'.
  injection Hb' as <-. apply par_ret. apply par_bind.
  assert (H0 : at_view (view s) (locks s) (callbacks s) s) by done.
  eapply par_at_leaves; [|exact H0|].
  { destruct (filename o =? 0); leaves_run. }
  clear H0. intros name s1 H1. apply par_bind. eapply par_at_leaves; [leaves_run|exact H1|].
  clear H1. intros h s2 [Hs2 Hv2 Hl2 Hc2]. unfold store.
  apply par_bind, par_bind, par_look, par_the. intros b Hb2. apply par_bind, par_assert. intros _.
  apply par_change. eexists. split; cycle 1.
  - constructor; [by eapply sane_insert| |done|done]. rewrite (view_open _ _ _ _ eq_refl). by rewrite Hv2.
  - by split.
Qed.

(** A database just opened, or one libuv is still closing after an error. *)
Definition opening_fields (c : control) : Prop :=
  c = mkControl Unlocked true Starting Active None false false None Dvoid SQLITE_OK \/
  c = mkControl NoMutex false NoThread Closing None false false None Dvoid SQLITE_OK.

Definition open_cb_view (req : Z) (v v' : gmap Z shared) : Prop :=
  v' = delete req v \/
  exists d c, delete req v !! d = None /\ opening_fields c /\
    v' = <[d := Shared_database c]> (delete req v).

Lemma par_at_free_open req v l cbs s (Q : unit -> sq_state -> Prop) :
  at_view v l cbs s -> (forall s', at_view (delete req v) l cbs s' -> Q tt s') -> par (free KOpenReq req) s Q.
Proof.
  intros [Hs Hv Hl Hc] HQ. unfold free. apply par_bind, par_bind, par_look, par_the. intros b _.
  apply par_bind, par_assert. intros _. apply par_change. apply HQ. constructor; [by apply sane_delete| |done|done].
  by rewrite view_delete, Hv.
Qed.

Lemma par_at_free_database a c v l cbs s (Q : unit -> sq_state -> Prop) :
  v !! a = None -> at_database a c v l cbs s ->
  (forall s', at_view v l cbs s' -> Q tt s') -> par (free KDatabase a) s Q.
Proof.
  intros Hn [Hs Hv Hl Hc] HQ. unfold free. apply par_bind, par_bind, par_look, par_the. intros b _.
  apply par_bind, par_assert. intros _. apply par_change. apply HQ. constructor; [by apply sane_delete| |done|done].
  rewrite view_delete, Hv, delete_insert_eq. by apply delete_id.
Qed.

Lemma par_at_new d v l cbs s (Q : Z -> sq_state -> Prop) :
  at_view v l cbs s -> Q 0 (set_ticks (S (ticks s)) s) ->
  (forall a s', a <> 0 -> v !! a = None -> at_database a (control_of d) v l cbs s' -> Q a s') ->
  par (malloc (Database d)) s Q.
Proof.
  intros [Hs Hv Hl Hc] H0 HQ. unfold malloc. apply par_bind. unfold ask, par at 1. cbn [answers ticks].
  destruct (_ =? 0); [by apply par_ret|].
  apply par_bind, par_look, par_bind, par_change, par_ret. cbn [fresh set_ticks].
  apply HQ; [destruct Hs; lia|rewrite <- Hv; by apply view_fresh|]. constructor; [| |done|done].
  - destruct Hs as [Hp Hf]. split; cbn; [lia|]. intros k Hk. rewrite lookup_insert_ne by lia. apply Hf. lia.
  - rewrite <- Hv. apply map_eq. intros k. rewrite lookup_view. cbn [blocks set_blocks set_fresh set_ticks].
    destruct (decide (k = fresh s)) as [->|Hne]; [by rewrite !lookup_insert_eq|].
    rewrite !lookup_insert_ne by done. by rewrite lookup_view.
Qed.

(** [open_cb]: the request is gone, its callback delivered once and unlocked; a database it made
    is ready, or on its way to [close_free_cb]. *)
Ltac av_leaves H :=
  apply par_bind; eapply par_at_leaves; [leaves_run|exact H|]; clear H;
  let x := fresh "x" in let s := fresh "s" in intros x s H.
Ltac av_update H :=
  apply par_bind; eapply par_at_update; [exact H|]; clear H;
  let d := fresh "d" in let s := fresh "s" in let E := fresh "E" in intros d s E H.
Ltac av_done H l := eapply par_at_callback; [exact H|]; clear H; intros ? H; exists l; eexists; split; [done|].

Lemma open_cb_result req o s : sane s -> view s !! req = Some (Shared_open o) ->
  par (open_cb req) s (fun _ s' => exists l arg, locks s = l ⊎ lk (req_callback o) /\
    exists v', open_cb_view req (view s) v' /\
      at_view v' l ((req_callback o, arg) :: callbacks s) s').
Proof.
  intros Hs Hv. pose proof (view_open_inv _ _ _ Hv) as Hb. unfold open_cb, load_open_req.
  apply par_bind, par_bind, par_bind, par_look, par_the. intros b Hb'. rewrite Hb in Hb'.
  injection Hb' as <-. apply par_ret. cbv zeta. set (cb := req_callback o).
  assert (H : at_view (view s) (locks s) (callbacks s) s) by done.
  apply par_bind. eapply par_at_leaves; [destruct (filename o =? 0); leaves_run|exact H|].
  clear H. intros u s1 H. apply par_bind. eapply par_at_unlock; [exact H|]. clear H. intros l s2 Hl H.
  apply par_bind. eapply par_at_free_open; [exact H|]. clear H. intros s3 H.
  assert (Hnone : open_cb_view req (view s) (delete req (view s))) by (by left).
  destruct (negb _).
  { destruct (negb _).
    - do 2 av_leaves H. apply par_bind. eapply par_at_callback; [exact H|]. clear H. intros s6 H.
      av_leaves H. apply par_ret. exists l, x0. split; [done|]. by exists (delete req (view s)).
    - av_done H l. by exists (delete req (view s)). }
  av_leaves H. apply par_bind. eapply par_at_new; [exact H| |].
  { cbn [Z.eqb]. assert (H' : at_view (delete req (view s)) l (callbacks s) (set_ticks (S (ticks s0)) s0))
      by (by destruct H).
    av_leaves H'. av_done H' l. by exists (delete req (view s)). }
  clear H. intros a s4 Ha Hn H. destruct (Z.eqb_spec a 0); [done|].
  assert (Hone : forall c, opening_fields c ->
    open_cb_view req (view s) (<[a := Shared_database c]> (delete req (view s)))).
  { intros c Hc. right. by exists a, c. }
  av_leaves H. destruct (_ <? 0).
  { av_leaves H. apply par_bind. eapply par_at_free_database; [exact Hn|exact H|]. clear H. intros s7 H.
    av_done H l. by exists (delete req (view s)). }
  av_update H. av_leaves H. destruct (_ <? 0).
  { av_leaves H. av_update H. av_done H l. eexists. split; [apply Hone; right; reflexivity|]. controls_eq. }
  av_update H. av_leaves H. destruct (_ <? 0).
  { av_update H. av_leaves H. av_update H. av_done H l.
    eexists. split; [apply Hone; right; reflexivity|]. controls_eq. }
  av_update H. av_leaves H. destruct (_ <? 0).
  { av_update H. av_update H. av_leaves H. av_update H. av_done H l.
    eexists. split; [apply Hone; right; reflexivity|]. controls_eq. }
  av_update H. av_done H l. eexists. split; [apply Hone; left; reflexivity|]. controls_eq.
Qed.

(** The critical section, which waits for the mutex. *)
Definition entered (cb : uv_async_cb) (inside : bool) (w : work) (k : datum) (c : control) : control :=
  mkControl (c_mutex c) (c_cond c) (c_thread c) (c_async c)
    (if inside then Some cb else c_data c) (c_sent c) true (Some w) k (c_rc c).

Lemma enter_result a cb inside w k u c s : sane s -> view s !! a = Some (Shared_database c) ->
  par (enter a cb inside w k u) s (fun _ s' => c_mutex c = Unlocked /\
    at_database a (entered cb inside w k c) (view s) (locks s) (callbacks s) s').
Proof.
  intros Hs Hv. pose proof (at_start a c s Hs Hv) as H. unfold enter. apply par_bind.
  eapply par_at_load; [exact H|]. intros d Hd. apply par_bind, par_assert. intros Hm.
  eapply par_at_store; [exact H|]. clear H. intros s' H. split.
  - subst c. cbn. by destruct (mutex d).
  - destruct u as [[p n]|], inside; controls_eq.
Qed.

Definition signalled (c : control) : control :=
  match c_thread c with
  | Waiting => mkControl (c_mutex c) (c_cond c) Woken (c_async c) (c_data c) (c_sent c)
      (c_busy c) (c_work c) (c_callback c) (c_rc c)
  | _ => c
  end.

Lemma signal_result a c s : sane s -> view s !! a = Some (Shared_database c) ->
  par (signal a) s (fun _ s' => at_database a (signalled c) (view s) (locks s) (callbacks s) s').
Proof.
  intros Hs Hv. pose proof (at_start a c s Hs Hv) as H. unfold signal.
  eapply par_at_update; [exact H|]. clear H. intros d s' Hd H. subst c. unfold signalled.
  cbn [control_of c_thread]. destruct (thread d) eqn:E; exact H.
Qed.

Lemma close_free_cb_result a c s : sane s -> view s !! a = Some (Shared_database c) ->
  par (close_free_cb a) s (fun _ s' => at_view (delete a (view s)) (locks s) (callbacks s) s').
Proof.
  intros Hs Hv. pose proof (at_start a c s Hs Hv) as H. unfold close_free_cb. apply par_bind.
  eapply par_at_update; [exact H|]. clear H. intros d s1 _ [Hs1 Hv1 Hl Hc]. unfold free.
  apply par_bind, par_bind, par_look, par_the. intros b _. apply par_bind, par_assert. intros _.
  apply par_change. constructor; [by apply sane_delete| |done|done].
  by rewrite view_delete, Hv1, delete_insert_eq.
Qed.

(** The moves of a worker thread. *)
Inductive worker_moves : control -> control -> Prop :=
| moves_locks cond t a d sn b w k rc : t = Starting \/ t = Woken ->
    worker_moves (mkControl Unlocked cond t a d sn b w k rc) (mkControl Locked cond Looking a d sn b w k rc)
| moves_takes m cond a d sn b w k rc :
    worker_moves (mkControl m cond Looking a d sn b (Some w) k rc)
      (mkControl Unlocked cond (Working w) a d sn b (Some w) k rc)
| moves_waits m cond a d sn b k rc :
    worker_moves (mkControl m cond Looking a d sn b None k rc)
      (mkControl Unlocked cond Waiting a d sn b None k rc)
| moves_works m cond w a d sn b x k rc rc' :
    worker_moves (mkControl m cond (Working w) a d sn b x k rc) (mkControl m cond (Returned w) a d sn b x k rc')
| moves_sends cond w a d sn b x k rc :
    worker_moves (mkControl Unlocked cond (Returned w) a d sn b x k rc)
      (mkControl Locked cond (Sent w) a d true b None k rc)
| moves_leaves m cond w a d sn b x k rc : is_close w = true -> rc = SQLITE_OK ->
    worker_moves (mkControl m cond (Sent w) a d sn b x k rc) (mkControl Unlocked cond Gone a d sn b x k rc)
| moves_loops m cond w a d sn b x k rc : is_close w && (SQLITE_OK =? rc) = false ->
    worker_moves (mkControl m cond (Sent w) a d sn b x k rc) (mkControl Unlocked cond Waiting a d sn b x k rc).

(** A work function, or a part of it, changes at most the result code. *)
Lemma work_result {A} (m : D A) a d s : leaves (rc_only a) m -> sane s -> blocks s !! a = Some (Database d) ->
  par m s (fun _ s' => exists rc, at_view (<[a := set_c_rc rc (Shared_database (control_of d))]> (view s)) (locks s) (callbacks s) s').
Proof.
  intros Hm Hs Hd. eapply par_mono; [by apply (Hm s Hs)|]. intros u s1 (H1 & [Hne (f & Hf & Hrc)] & Hl1 & Hc1).
  rewrite (lookup_view s), Hd in Hf. cbn [fmap option_fmap option_map] in Hf.
  assert (Hf' : exists rc, f (Shared_database (control_of d)) = set_c_rc rc (Shared_database (control_of d))).
  { destruct (Hrc (Shared_database (control_of d))) as [E|[rc E]]; [|by exists rc]. exists (sqlite_rc d). by rewrite E. }
  destruct Hf' as [rc E]. exists rc. constructor; [done| |done|done]. apply map_eq. intros b.
  destruct (decide (b = a)) as [->|Hba]; [by rewrite lookup_insert_eq, <- E|]. rewrite lookup_insert_ne by done. by apply Hne.
Qed.

Lemma worker_step_result a p d m s : sane s -> blocks s !! a = Some (Database d) ->
  worker_step a p d = Some m ->
  par m s (fun _ s' => exists c', worker_moves (control_of d) c' /\
    at_database a c' (view s) (locks s) (callbacks s) s').
Proof.
  intros Hs Hd Hm. pose proof (at_start a (control_of d) s Hs) as H.
  rewrite lookup_view, Hd in H. specialize (H eq_refl).
  assert (Hst : forall d', worker_moves (control_of d) (control_of d') ->
    par (store a (Database d')) s (fun _ s' => exists c', worker_moves (control_of d) c' /\
      at_database a c' (view s) (locks s) (callbacks s) s')).
  { intros d' Hw. eapply par_at_store; [exact H|]. intros s' H'. by exists (control_of d'). }
  unfold worker_step in Hm.
  destruct (thread d) as [| | | | |w|w|w|] eqn:Et; try done;
    try (destruct (mutex d) eqn:Em; try done; injection Hm as <-; apply Hst;
         unfold control_of; cbn; rewrite ?Et, ?Em; constructor; auto; fail).
  - apply (inj Some) in Hm; subst m. unfold control_of in Hst |- *. rewrite Et in Hst |- *.
    destruct (db_work d) eqn:Ew; apply Hst; cbn; rewrite Ew; constructor.
  - injection Hm as <-. apply par_bind. eapply par_mono; [by apply (work_result _ a d s (leaves_work_rest w p a))|].
    intros u s1 [rc H1]. cbn [set_c_rc] in H1.
    eapply (par_at_update a _ (view s) (locks s) (callbacks s)); [exact H1|].
    intros d1 s2 Hd1 H2. eexists. split; [|exact H2].
    pose proof Et as Et'. destruct d; cbn in Et'; subst. controls_eq. constructor.
  - apply (inj Some) in Hm; subst m. unfold control_of in Hst |- *. rewrite Et in Hst |- *.
    destruct (is_close w && (SQLITE_OK =? sqlite_rc d)) eqn:Ew; apply Hst; cbn.
    + apply andb_true_iff in Ew as [Ew1 Ew2%Z.eqb_eq]. by constructor.
    + by constructor.
Qed.
End steps.
