(* ===== verification/Results.v ===== *)
(** * Results: the types of what sqlite.c gives to Scheme

    The values the operations return and the arguments their callbacks are called with, as
    the documentation of the operating system interface lists them: a computation [yields P]
    when its result has the type [P], and [calls P] when it calls one callback, with an argument
    of this type. *)

From S2P Require Export Effects.

(** ** Types *)

(** An error: a pair of a name and a number, and for SQLite the message with them. *)
Definition is_error (r : datum) : Prop :=
  (exists who code, r = error_pair who code) \/
  exists who code text, r = Dpair (Dsymbol who) (Dpair (Dinteger code) (Dstring text)).
Definition is_string (r : datum) : Prop := exists l, r = Dstring l.
Definition is_int (r : datum) : Prop := exists z, r = Dinteger z.
Definition is_vector (P : datum -> Prop) (r : datum) : Prop := exists l, r = Dvector l /\ Forall P l.
(** A value SQLite can store. *)
Definition is_sql (r : datum) : Prop :=
  match r with Dfalse | Dinteger _ | Dflonum _ | Dstring _ | Dbytevector _ => True | _ => False end.
Definition or_error (P : datum -> Prop) (r : datum) : Prop := P r \/ is_error r.

(** What an operation returns at once. *)
Definition return_type (o : op) : datum -> Prop :=
  match o with
  | Op_open _ _ _ | Op_close _ _ | Op_prepare _ _ _ | Op_step _ _ | Op_bulk _ _ _
  | Op_finalize _ | Op_bind _ _ _ | Op_bind_bindings _ _ | Op_clear_bindings _ | Op_reset _ =>
    or_error (fun r => r = Dtrue)
  | Op_columns _ => or_error (is_vector is_string)
  | Op_expanded_sql _ => or_error is_string
  | Op_last_insert_rowid _ => or_error is_int
  | Op_interrupt _ => fun r => r = Dtrue \/ r = Dfalse
  | Op_status _ _ => or_error (fun r => exists a b, r = Dvector [Dinteger a; Dinteger b])
  | Op_marshal _ => or_error is_int
  | Op_unmarshal _ => fun r => r = Dtrue
  | Op_get_bindings _ => or_error (is_vector is_sql)
  end.

(** The callback a request of the operation ends with. *)
Definition request_type (o : op) : option uv_async_cb :=
  match o with
  | Op_close _ _ => Some Close_cb
  | Op_prepare _ _ _ => Some Prepare_cb
  | Op_step _ _ => Some Step_cb
  | Op_bulk _ _ _ => Some Bulk_cb
  | _ => None
  end.

(** How the operation ends: with a result of its type, or with a request for its callback. *)
Definition outcome_type (o : op) (out : outcome) : Prop :=
  match out with
  | Return r => return_type o r
  | Request _ cb _ _ callback _ => request_type o = Some cb /\ callback = op_callback o
  end.

(** What the callback of a request is called with. *)
Definition callback_type (cb : uv_async_cb) : datum -> Prop :=
  match cb with
  | Close_cb | Bulk_cb => or_error (fun r => r = Dtrue)
  | Prepare_cb => or_error is_int
  | Step_cb => or_error (fun r => r = Dfalse \/ is_vector is_sql r)
  end.

Lemma error_pair_error who code : is_error (error_pair who code).
Proof. left. by exists who, code. Qed.

(** ** Computations *)

Definition yields {A} (P : A -> Prop) (m : D A) : Prop := forall s, par m s (fun x _ => P x).

Lemma yields_ret {A} (P : A -> Prop) x : P x -> yields P (mret x).
Proof. intros Hx s. by apply par_ret. Qed.
Lemma yields_bind {A B} (R : A -> Prop) (P : B -> Prop) (m : D A) (k : A -> D B) :
  yields R m -> (forall x, R x -> yields P (k x)) -> yields P (m ≫= k).
Proof. intros Hm Hk s. apply par_bind. eapply par_mono; [apply Hm|]. intros x s' Hx. by apply Hk. Qed.
Lemma yields_any {A} (m : D A) : yields (fun _ => True) m.
Proof. intros s. unfold par. by destruct (m s) as [[x s']|]. Qed.
Lemma yields_stuck {A} (P : A -> Prop) : yields P (stuck : D A).
Proof. done. Qed.

(** No callback is called. *)
Definition silent {A} (m : D A) : Prop := forall s, par m s (fun _ s' => callbacks s' = callbacks s).

Lemma silent_ret {A} (x : A) : silent (mret x).
Proof. done. Qed.
Lemma silent_bind {A B} (m : D A) (k : A -> D B) : silent m -> (forall x, silent (k x)) -> silent (m ≫= k).
Proof.
  intros Hm Hk s. apply par_bind. eapply par_mono; [apply Hm|]. intros x s1 H1.
  eapply par_mono; [apply Hk|]. intros y s2 H2. by rewrite H2.
Qed.
Lemma silent_stuck {A} : silent (stuck : D A).
Proof. done. Qed.
Lemma silent_look : silent (look : D sq_state).
Proof. done. Qed.
Lemma silent_the {A} (x : option A) : silent (the x).
Proof. intros s. by apply par_the. Qed.
Lemma silent_assert b : silent (assert_ok b).
Proof. by destruct b. Qed.
Lemma silent_change f : (forall s, callbacks (f s) = callbacks s) -> silent (change f).
Proof. intros Hf s. by apply par_change. Qed.
Lemma silent_ask : silent ask.
Proof. done. Qed.

Create HintDb results.
#[export] Hint Resolve silent_ret silent_stuck silent_look silent_the silent_assert silent_ask : results.
#[export] Hint Extern 1 (silent (change _)) => apply silent_change; reflexivity : results.

Ltac silent_run :=
  repeat first
    [ progress cbv zeta
    | solve [eauto 2 with results]
    | match goal with
      | |- silent (_ ≫= _) => apply silent_bind; [..|intros]
      | |- silent (match ?x with _ => _ end) => destruct x
      | |- silent (let '(_, _) := ?x in _) => destruct x
      end ].

Section silent.
Context {L : Sqlite} {C : Scheme}.

Lemma silent_load a : silent (load a).
Proof. unfold load. silent_run. Qed.
Hint Resolve silent_load : results.
Lemma silent_store a b : silent (store a b).
Proof. unfold store. silent_run. Qed.
Lemma silent_free k a : silent (free k a).
Proof. unfold free. silent_run. Qed.
Lemma silent_lock x : silent (Slock_object x).
Proof. unfold Slock_object. silent_run. Qed.
Lemma silent_unlock x : silent (Sunlock_object x).
Proof. unfold Sunlock_object. silent_run. Qed.
Lemma silent_uv_result : silent uv_result.
Proof. unfold uv_result. silent_run. Qed.
Lemma silent_malloc b : silent (malloc b).
Proof. unfold malloc. silent_run. Qed.
Lemma silent_sqlite c : silent (sqlite c).
Proof. unfold sqlite. silent_run. Qed.
Hint Resolve silent_store silent_sqlite : results.
Lemma silent_sqlite_int c : silent (sqlite_int c).
Proof. unfold sqlite_int. silent_run. Qed.
Lemma silent_make_sqlite_error w r d : silent (make_sqlite_error w r d).
Proof. unfold make_sqlite_error. silent_run. Qed.
Lemma silent_load_database a : silent (load_database a).
Proof. unfold load_database. silent_run. Qed.
Lemma silent_load_bulk a : silent (load_bulk a).
Proof. unfold load_bulk. silent_run. Qed.
Lemma silent_load_open_req a : silent (load_open_req a).
Proof. unfold load_open_req. silent_run. Qed.
Hint Resolve silent_load_database : results.
Lemma silent_update_database a f : silent (update_database a f).
Proof. unfold update_database. silent_run. Qed.
Hint Resolve silent_sqlite_int silent_update_database : results.
Lemma silent_column_values n : forall stmt i, silent (column_values stmt i n).
Proof. induction n as [|n IH]; intros; cbn [column_values]; silent_run. Qed.
Lemma silent_join a : silent (uv_thread_join a).
Proof. unfold uv_thread_join. silent_run. Qed.
End silent.

#[export] Hint Resolve silent_store silent_sqlite silent_load silent_free silent_lock silent_unlock silent_uv_result silent_malloc
  silent_sqlite_int silent_make_sqlite_error silent_load_database silent_load_bulk silent_load_open_req
  silent_update_database silent_column_values silent_join : results.

(** One callback is called, with an argument of type [P]. *)
Definition calls (P : datum -> Prop) (m : D unit) : Prop := forall s,
  par m s (fun _ s' => exists k arg, callbacks s' = (k, arg) :: callbacks s /\ P arg).

Section calls.
Context (P : datum -> Prop) {L : Sqlite} {C : Scheme}.

Lemma calls_add k arg : P arg -> calls P (add_callback1 k arg).
Proof. intros HP s. apply par_change. by exists k, arg. Qed.
Lemma calls_bind {A} (R : A -> Prop) (m : D A) (k : A -> D unit) :
  silent m -> yields R m -> (forall x, R x -> calls P (k x)) -> calls P (m ≫= k).
Proof.
  intros Hm Hy Hk s. apply par_bind. specialize (Hm s). specialize (Hy s). unfold par in *.
  destruct (m s) as [[x s1]|]; [|done]. specialize (Hk x Hy s1). unfold par in Hk.
  destruct (k x s1) as [[y s2]|]; [|done]. destruct Hk as (c & arg & Hc & HP). exists c, arg. by rewrite Hc, Hm.
Qed.
Lemma calls_then {A} (m : D unit) (k : D A) : calls P m -> silent k -> calls P (_ ← m; _ ← k; mret tt).
Proof.
  intros Hm Hk s. apply par_bind. eapply par_mono; [apply Hm|]. intros x s1 (c & arg & Hc & HP).
  apply par_bind. eapply par_mono; [apply Hk|]. intros y s2 H2. apply par_ret. exists c, arg. by rewrite H2.
Qed.
Lemma calls_stuck : calls P stuck.
Proof. done. Qed.

(** A computation whose result says nothing of the argument. *)
Lemma calls_skip {A} (m : D A) (k : A -> D unit) : silent m -> (forall x, calls P (k x)) -> calls P (m ≫= k).
Proof. intros Hm Hk. eapply calls_bind; [done|apply yields_any|]. intros x _. apply Hk. Qed.
End calls.

Section types.
Context {L : Sqlite} {C : Scheme}.

Lemma yields_sqlite_error w r d : yields is_error (make_sqlite_error w r d).
Proof.
  unfold make_sqlite_error. eapply yields_bind; [apply yields_any|]. intros h _.
  apply yields_ret. right. by eexists _, _, _.
Qed.

Lemma column_value_sql c : is_sql (column_value c).
Proof. by destruct c. Qed.

Lemma yields_column_values n : forall stmt i, yields (Forall is_sql) (column_values stmt i n).
Proof.
  induction n as [|n IH]; intros; cbn [column_values]; [apply yields_ret; constructor|].
  eapply yields_bind; [apply yields_any|]. intros h _. eapply yields_bind; [apply IH|]. intros l Hl.
  apply yields_ret. constructor; [apply column_value_sql|done].
Qed.

Lemma yields_column_names n : forall stmt i, yields (Forall is_string) (column_names stmt i n).
Proof.
  induction n as [|n IH]; intros; cbn [column_names]; [apply yields_ret; constructor|].
  eapply yields_bind; [apply yields_any|]. intros h _. eapply yields_bind; [apply yields_any|]. intros x _.
  eapply yields_bind; [apply IH|]. intros l Hl. apply yields_ret. constructor; [by eexists|done].
Qed.

Lemma yields_get_binding b : yields (fun x => is_sql x \/ is_error x) (get_binding b).
Proof.
  unfold get_binding. repeat case_match;
    try (apply yields_ret; try (by left); right; apply error_pair_error);
    repeat (eapply yields_bind; [apply yields_any|]; intros ? _); apply yields_ret; by left.
Qed.

Lemma yields_get_loop l : yields (fun r => match r with inl e => is_error e | inr v => Forall is_sql v end) (get_loop l).
Proof.
  induction l as [|b l IH]; cbn [get_loop]; [apply yields_ret; constructor|].
  eapply yields_bind; [apply yields_any|]. intros c _. eapply yields_bind; [apply yields_get_binding|].
  intros x Hx. destruct (Spairp x) eqn:E.
  - apply yields_ret. destruct Hx as [Hx|Hx]; [by destruct x|done].
  - eapply yields_bind; [apply IH|]. intros [e|v] Hr; apply yields_ret; [done|].
    constructor; [|done]. destruct Hx as [Hx|[(who & code & ->)|(who & code & text & ->)]]; done.
Qed.

Lemma or_error_intro (P : datum -> Prop) who code : or_error P (error_pair who code).
Proof. right. apply error_pair_error. Qed.
Hint Resolve or_error_intro : results.

Lemma or_error_sqlite (P : datum -> Prop) w r d : yields (or_error P) (make_sqlite_error w r d).
Proof.
  unfold make_sqlite_error. eapply yields_bind; [apply yields_any|]. intros h _.
  apply yields_ret. right. right. by eexists _, _, _.
Qed.
Hint Resolve or_error_sqlite : results.

(** Follow a computation to its results. *)
Ltac yields_run :=
  repeat first
    [ progress cbv zeta
    | solve [eauto 2 with results]
    | match goal with
      | |- yields _ stuck => apply yields_stuck
      | |- yields _ (mret _) => apply yields_ret
      | |- yields _ (column_names _ _ _ ≫= _) => eapply yields_bind; [apply yields_column_names|]; intros
      | |- yields _ (_ ≫= _) => eapply yields_bind; [apply yields_any|]; intros ? _
      | |- yields _ (match ?x with _ => _ end) => destruct x
      | |- outcome_type _ (Return _) => cbn
      end ].

Lemma yields_returned o (m : D datum) : yields (return_type o) m -> yields (outcome_type o) (returned m).
Proof. intros Hm. unfold returned. eapply yields_bind; [exact Hm|]. intros r Hr. by apply yields_ret. Qed.

Lemma yields_submit o a cb w k u :
  request_type o = Some cb -> k = op_callback o -> yields (outcome_type o) (submit a cb w k u).
Proof. intros. unfold submit. yields_run. done. Qed.

Lemma yields_marshal_loop data : forall a i, yields (or_error is_int) (marshal_loop a i data).
Proof.
  induction data as [|x data IH]; intros; cbn [marshal_loop]; yields_run.
  left. by eexists.
Qed.

Lemma yields_columns st : yields (or_error (is_vector is_string)) (osi_get_statement_columns st).
Proof.
  unfold osi_get_statement_columns. yields_run. left. by eexists.
Qed.

Lemma yields_bindings b : yields (or_error (is_vector is_sql)) (osi_get_bindings b).
Proof.
  unfold osi_get_bindings. destruct (b =? 0); [apply yields_ret; left; by exists []|].
  eapply yields_bind; [apply yields_any|]. intros l _.
  eapply yields_bind; [apply yields_get_loop|]. intros [e|v] Hr; apply yields_ret; [by right|].
  left. by exists v.
Qed.

Lemma yields_op o : yields (outcome_type o) (run_op o).
Proof.
  destruct o; cbn [run_op]; try apply yields_returned; cbn [return_type];
    try apply yields_columns; try apply yields_bindings.
  - unfold osi_open_database. yields_run; by left.
  - unfold osi_close_database. yields_run; by apply yields_submit.
  - unfold osi_prepare_statement. yields_run; by apply yields_submit.
  - unfold osi_step_statement. yields_run; by apply yields_submit.
  - unfold osi_bulk_execute. yields_run; done.
  - unfold osi_finalize_statement. yields_run; by left.
  - unfold osi_bind_statement. yields_run; by left.
  - unfold osi_bind_statement_bindings. yields_run; by left.
  - unfold osi_clear_statement_bindings. yields_run; by left.
  - unfold osi_reset_statement. yields_run; by left.
  - unfold osi_get_statement_expanded_sql. yields_run. left. by eexists.
  - unfold osi_get_last_insert_rowid. yields_run. left. by eexists.
  - unfold osi_interrupt_database. yields_run. destruct (busy _); [by left|by right].
  - unfold osi_get_sqlite_status. yields_run. left. by eexists _, _.
  - unfold osi_marshal_bindings, marshal_items. yields_run; try apply yields_marshal_loop; left; by eexists.
  - unfold osi_unmarshal_bindings. yields_run; done.
Qed.

(** The callbacks. *)
Ltac calls_run :=
  repeat first
    [ progress cbv zeta
    | match goal with
      | |- calls _ stuck => apply calls_stuck
      | |- calls _ (add_callback1 _ _) => apply calls_add
      | |- calls ?P (?m ≫= (fun x => add_callback1 _ x)) =>
        apply (calls_bind P P); [silent_run|yields_run|intros; by apply calls_add]
      | |- calls _ (_ ≫= _) => apply calls_skip; [silent_run|intros]
      | |- calls _ (match ?x with _ => _ end) => destruct x
      end ].

Lemma yields_row stmt : yields (or_error (fun r => r = Dfalse \/ is_vector is_sql r))
  (n ← sqlite_int (Sq_column_count stmt); l ← column_values stmt 0 (Z.to_nat n); mret (Dvector l)).
Proof.
  eapply yields_bind; [apply yields_any|]. intros n _.
  eapply yields_bind; [apply yields_column_values|]. intros l Hl. apply yields_ret.
  left. right. by exists l.
Qed.
Hint Resolve yields_row : results.

Lemma calls_async_cb cb a : calls (callback_type cb) (run_async_cb cb a).
Proof.
  destruct cb; cbn [run_async_cb callback_type].
  - unfold close_cb. calls_run. by left.
  - unfold prepare_cb. calls_run. left. by eexists.
  - unfold step_cb. calls_run. left. by left.
  - unfold bulk_cb. calls_run. by left.
Qed.

Lemma calls_open_cb req : calls (or_error is_int) (open_cb req).
Proof.
  unfold open_cb.
  repeat match goal with
  | |- calls _ (make_sqlite_error _ _ _ ≫= _) =>
    eapply calls_bind; [apply silent_make_sqlite_error|apply yields_sqlite_error|intros e He];
    apply calls_then; [apply calls_add; by right|silent_run]
  | |- calls _ (_ ≫= _) => apply calls_skip; [silent_run|intros]
  | |- calls _ (if ?b then _ else _) => destruct b
  | _ => progress cbv zeta
  end.
  all: apply calls_add; first [apply or_error_intro|left; by eexists].
Qed.
End types.

Section property.
Context {L : Sqlite} {C : Scheme}.

(** C15: types of the SQLite interface. An operation that returns gives a value of the type the
    interface documents for it ([#t], a vector of names, a row identifier, ...) or an error, and one
    that hands a request to the worker hands over the callback it was given and the callback of its
    own kind.  A callback that completes calls Scheme exactly once, with an argument of its type:
    [#t] after closing and bulk execution, the address of a statement or a database, a row of SQL
    values or [#f] after a step, or an error. *)
Theorem results_typed :
  (forall o, yields (outcome_type o) (run_op o)) /\
  (forall cb database, calls (callback_type cb) (run_async_cb cb database)) /\
  (forall req, calls (or_error is_int) (open_cb req)).
Proof. split; [exact yields_op|]. split; [exact calls_async_cb|exact calls_open_cb]. Qed.
End property.
