(* ===== verification/Protocol.v ===== *)
(** * Protocol: the main thread and the worker threads

    The interleavings of the operations of sqlite.c, which run in the main thread, with the
    steps of the worker thread every database has (lines 96-112), the thread pool that opens
    databases, and the callbacks libuv runs.  The main thread can be interrupted around the
    critical section of a request, and between the two reads of [s->database] in an operation on
    a statement; a worker between any two of its calls of the mutex and the condition variable,
    and between the parts of its work function; a wait may end for no reason.  A part is an
    event of its own, [Ev_part], and the step [Ev_worker] runs a work function from the part it has
    come to to its end, so that every interleaving is a sequence of events in which
    [Ev_worker] has only the last part left.  A call of the library that runs while it is
    interrupted gives an answer about which nothing is assumed.

    The theorems: while a worker uses a database every operation on it is refused, no wakeup is
    lost, and callbacks are delivered exactly once; and what comes of finalizing a
    statement while its database is closed. *)

From S2P Require Export Effects.

(** ** The system *)

(** The main thread: between two operations, in an operation on a statement that has tested
    [s->database] and is to read it again, waiting for the mutex of a request, before the
    [uv_cond_signal] of a request. *)
Inductive mainpc :=
| Idle
| Tested (o : op)
| Entering (database : Z) (cb : uv_async_cb) (inside : bool) (w : work) (callback : datum)
    (union : option (payload * Z))
| Signalling (database : Z).

(** [accepted] collects the callbacks of the requests that were not refused; [parts] are the local
    variables of the work functions that have begun. *)
Record config := mkConfig { st : sq_state; pc : mainpc; accepted : list datum; parts : gmap Z progress }.
Definition progress_at (c : config) (a : Z) : progress := default Started (parts c !! a).
Definition with_parts (p : gmap Z progress) (c : config) : config := mkConfig (st c) (pc c) (accepted c) p.
#[export] Instance progress_eq : EqDecision progress.
Proof. solve_decision. Defined.

Inductive event :=
| Ev_op (o : op)             (* a call of an operation, up to its critical section *)
| Ev_enter                   (* the critical section of the request *)
| Ev_signal
| Ev_test (o : op)           (* a call up to the test of [s->database] *)
| Ev_resume                  (* the rest of that call, up to its critical section *)
| Ev_worker (database : Z)   (* one step of the worker thread, to the end of a work function *)
| Ev_part (database : Z)     (* the next part of a work function *)
| Ev_spurious (database : Z) (* [uv_cond_wait] returns without a signal *)
| Ev_pool (req : Z)          (* the thread pool runs [open_worker] *)
| Ev_open_cb (req : Z)
| Ev_async (database : Z)    (* libuv delivers the message of [uv_async_send] *)
| Ev_free (database : Z).    (* libuv has closed the async handle *)

Section system.
Context {L : Sqlite} {C : Scheme}.

Definition accepts (o : op) (r : datum) : list datum :=
  match o, r with Op_open _ _ cb, Dtrue => [cb] | _, _ => [] end.

Definition database_at (s : sq_state) (a : Z) : option database_t :=
  b ← blocks s !! a; match b with Database d => Some d | _ => None end.
Definition open_req_at (s : sq_state) (a : Z) : option open_req_t :=
  b ← blocks s !! a; match b with OpenReq r => Some r | _ => None end.

(** The database to which a statement refers. *)
Definition statement_database (s : sq_state) (a : Z) : option Z :=
  b ← blocks s !! a;
  match b with Statement x => if st_database x =? 0 then None else Some (st_database x) | _ => None end.

(** The statement of an operation that reads [s->database] once for the test and again for
    [s->database->busy]; the others keep what they have read. *)
Definition rereads (o : op) : option Z :=
  match o with
  | Op_finalize x | Op_bind x _ _ | Op_bind_bindings x _ | Op_clear_bindings x | Op_reset x | Op_columns x
  | Op_expanded_sql x => Some x
  | _ => None
  end.

Definition idle (p : mainpc) : bool := match p with Idle => true | _ => false end.

(** A step of the state that leaves the main thread where it is. *)
Definition run_in (m : D unit) (c : config) : option config :=
  '(_, s) ← m (st c); Some (mkConfig s (pc c) (accepted c) (parts c)).

(** A call of an operation, up to its critical section. *)
Definition call (o : op) (c : config) : option config :=
  '(out, s) ← run_op o (st c);
  match out with
  | Return r => Some (mkConfig s Idle (accepts o r ++ accepted c) (parts c))
  | Request a cb inside w k u => Some (mkConfig s (Entering a cb inside w k u) (k :: accepted c) (parts c))
  end.

Definition exec (e : event) (c : config) : option config :=
  match e with
  | Ev_op o => if negb (idle (pc c)) then None else call o c
  | Ev_test o => if negb (idle (pc c)) then None else
    x ← rereads o;
    _ ← statement_database (st c) x;
    Some (mkConfig (st c) (Tested o) (accepted c) (parts c))
  | Ev_resume =>
    match pc c with
    (* a null pointer, or a pointer to a statement that was freed, has no database *)
    | Tested o => x ← rereads o; _ ← statement_database (st c) x; call o c
    | _ => None
    end
  | Ev_enter =>
    match pc c with
    | Entering a cb inside w k u =>
      '(_, s) ← enter a cb inside w k u (st c); Some (mkConfig s (Signalling a) (accepted c) (parts c))
    | _ => None
    end
  | Ev_signal =>
    match pc c with
    | Signalling a => '(_, s) ← signal a (st c); Some (mkConfig s Idle (accepted c) (parts c))
    | _ => None
    end
  | Ev_worker a =>
    d ← database_at (st c) a;
    m ← worker_step a (progress_at c a) d;
    c ← run_in m c;
    Some (with_parts (delete a (parts c)) c)
  | Ev_part a =>
    d ← database_at (st c) a;
    match thread d with
    | Working w =>
      '(p, s) ← work_part w (progress_at c a) a (st c);
      if bool_decide (p = progress_at c a) then None
      else Some (mkConfig s (pc c) (accepted c) (<[a := p]> (parts c)))
    | _ => None
    end
  | Ev_spurious a =>
    d ← database_at (st c) a;
    match thread d with
    | Waiting => run_in (update_database a (set_thread Woken)) c
    | _ => None
    end
  | Ev_pool req =>
    r ← open_req_at (st c) req;
    match req_state r with Queued => run_in (open_worker req) c | _ => None end
  | Ev_open_cb req =>
    r ← open_req_at (st c) req;
    match req_state r with Worked => if idle (pc c) then run_in (open_cb req) c else None | _ => None end
  | Ev_async a =>
    d ← database_at (st c) a;
    match async d with
    | Active => if async_sent d && idle (pc c) then run_in (Database.async_cb a) c else None
    | _ => None
    end
  | Ev_free a =>
    d ← database_at (st c) a;
    match async d with
    | Closing => if idle (pc c) then run_in (close_free_cb a) c else None
    | _ => None
    end
  end.

Fixpoint run (es : list event) (c : config) : option config :=
  match es with [] => Some c | e :: es => c ← exec e c; run es c end.

(** The program starts without a database. *)
Definition starts (s : sq_state) : Prop :=
  sane s /\ blocks s = ∅ /\ callbacks s = [] /\ locks s = ∅.
Definition reachable (c : config) : Prop :=
  exists s es, starts s /\ run es (mkConfig s Idle [] ∅) = Some c.
End system.

(** ** The protocol of one database *)

(** The mutex is locked while the worker looks for work and after it has sent the result. *)
Definition held (t : worker) : mutex_state := match t with Looking | Sent _ => Locked | _ => Unlocked end.

(** The worker will come to [uv_cond_wait], or is there. *)
Definition waits (t : worker) (rc : Z) : bool :=
  match t with
  | Starting | Looking | Waiting | Woken => true
  | Sent w => negb (is_close w && (SQLITE_OK =? rc))
  | _ => false
  end.

(** The worker has the request [w] before it; it may be waiting only when its signal is still
    to come. *)
Definition attends (signalling : bool) (w : work) (t : worker) : Prop :=
  match t with
  | Starting | Looking | Woken => True
  | Waiting => signalling = true
  | Working w' | Returned w' => w' = w
  | _ => False
  end.

Inductive phase (signalling : bool) : control -> Prop :=
| phase_idle m cond t data k rc : m = held t -> waits t rc = true ->
    phase signalling (mkControl m cond t Active data false false None k rc)
| phase_requested m w cond t k rc : m = held t -> attends signalling w t ->
    phase signalling (mkControl m cond t Active (Some (cb_of w)) false true (Some w) k rc)
| phase_reported m w cond t k rc : m = held t -> waits t rc = true -> is_close w && (SQLITE_OK =? rc) = false ->
    phase signalling (mkControl m cond t Active (Some (cb_of w)) true true None k rc)
| phase_ending m cond t k rc : m = held t -> rc = SQLITE_OK -> t = Sent Close_worker \/ t = Gone ->
    phase signalling (mkControl m cond t Active (Some Close_cb) true true None k rc)
| phase_closed t data k rc : t = Gone \/ t = NoThread ->
    phase signalling (mkControl NoMutex false t Closing data false false None k rc).

Ltac or_cases := repeat match goal with H : _ \/ _ |- _ => destruct H end.
(** The cases of a move or of a phase. *)
Ltac control_inv H :=
  inversion H; clear H; subst; cbn in *; or_cases; subst; cbn in *; try congruence; try done.

Lemma close_of_true w rc : is_close w && (SQLITE_OK =? rc) = true -> w = Close_worker /\ rc = SQLITE_OK.
Proof. intros [Hw Hrc%Z.eqb_eq]%andb_true_iff. by destruct w. Qed.

Lemma phase_moves sig c c' : phase sig c -> worker_moves c c' ->
  phase sig c' /\ c_busy c' = c_busy c /\ c_callback c' = c_callback c /\ c_data c' = c_data c.
Proof.
  intros Hp Hm. split; [|by destruct Hm]. control_inv Hp; control_inv Hm; try by constructor.
  - match goal with H : is_close ?w = true |- _ => by rewrite H in * end.
  - destruct (is_close w && (SQLITE_OK =? rc)) eqn:E; [|apply phase_reported; [done|unfold waits; by rewrite E|done]].
    apply close_of_true in E as [-> ->]. apply phase_ending; auto.
  - match goal with H : is_close ?w = true |- _ => by rewrite H in * end.
  - apply phase_ending; auto.
Qed.

(** How far the worker is from sending the result of its request. *)
Definition distance (t : worker) : nat :=
  match t with
  | Waiting => 5 | Starting | Woken => 4 | Looking => 3 | Working _ => 2 | _ => 1
  end.
Definition remaining (s : sq_state) (a : Z) : nat :=
  match view s !! a with
  | Some (Shared_database c) => if c_busy c && negb (c_sent c) then distance (c_thread c) else 0
  | _ => 0
  end.

Lemma distance_moves sig w c c' : phase sig c -> worker_moves c c' -> c_work c = Some w ->
  c_sent c' = true \/ (distance (c_thread c') < distance (c_thread c))%nat.
Proof. intros Hp Hm Hw. control_inv Hp; control_inv Hm; try (right; lia); by left. Qed.

(** *** The callbacks still to come *)

Definition pend (x : shared) : list datum :=
  match x with
  | Shared_database c => if c_busy c then [c_callback c] else []
  | Shared_open r => [req_callback r]
  end.
Definition pending (v : gmap Z shared) : list datum := map_to_list v ≫= fun p => pend p.2.
Definition pending_pc (p : mainpc) : list datum :=
  match p with Entering _ _ _ _ k _ => [k] | _ => [] end.
Definition locks_of (l : list datum) : gmultiset positive := foldr (fun k m => lk k ⊎ m) ∅ l.

Lemma pend_new v a x : v !! a = None -> pending (<[a := x]> v) ≡ₚ pend x ++ pending v.
Proof. intros Ha. unfold pending. by rewrite (map_to_list_insert v a x Ha). Qed.

Lemma pend_delete v a x : v !! a = Some x -> pending v ≡ₚ pend x ++ pending (delete a v).
Proof.
  intros Ha. rewrite <- (insert_delete_id v a x Ha) at 1. apply pend_new. apply lookup_delete_eq.
Qed.

Lemma pend_insert v a x y : v !! a = Some x -> pend x ++ pending (<[a := y]> v) ≡ₚ pend y ++ pending v.
Proof.
  intros Ha. rewrite (pend_delete v a x Ha).
  rewrite (pend_delete (<[a := y]> v) a y) by apply lookup_insert_eq.
  rewrite delete_insert_eq. rewrite !app_assoc. f_equiv. apply Permutation_app_comm.
Qed.

Lemma pend_same v a x y : v !! a = Some x -> pend x = pend y -> pending (<[a := y]> v) ≡ₚ pending v.
Proof. intros Ha E. pose proof (pend_insert v a x y Ha) as H. rewrite E in H. by apply Permutation_app_inv_l in H. Qed.

#[export] Instance locks_of_perm : Proper ((≡ₚ) ==> (=)) locks_of.
Proof.
  intros l1 l2 H. unfold locks_of. induction H; cbn; [done|by rewrite IHPermutation| |by etrans].
  by rewrite !(assoc_L (⊎)), (comm_L (⊎) (lk y)).
Qed.

Lemma locks_of_app l1 l2 : locks_of (l1 ++ l2) = locks_of l1 ⊎ locks_of l2.
Proof.
  induction l1 as [|x l1 IH].
  - change (locks_of l2 = ∅ ⊎ locks_of l2). by rewrite (left_id_L ∅ (⊎)).
  - change (lk x ⊎ locks_of (l1 ++ l2) = lk x ⊎ locks_of l1 ⊎ locks_of l2). by rewrite IH, (assoc_L (⊎)).
Qed.

(** ** The invariant *)

Definition signals (p : mainpc) (a : Z) : bool :=
  match p with Signalling b => a =? b | _ => false end.

Record consistent (c : config) : Prop := {
  co_sane : sane (st c);
  co_phase a x : view (st c) !! a = Some (Shared_database x) -> phase (signals (pc c) a) x;
  co_entering a cb inside w k u : pc c = Entering a cb inside w k u -> cb = cb_of w /\
    exists x, view (st c) !! a = Some (Shared_database x) /\ c_busy x = false /\
      (inside = false -> c_data x = Some cb);
  co_accepted : accepted c ≡ₚ map fst (callbacks (st c)) ++ pending_pc (pc c) ++ pending (view (st c));
  co_locks : locks (st c) = locks_of (pending_pc (pc c) ++ pending (view (st c)))
}.

Section invariant.
Context {L : Sqlite} {C : Scheme}.

Lemma consistent_parts c p : consistent c -> consistent (with_parts p c).
Proof. by intros [H1 H2 H3 H4 H5]; constructor. Qed.

Lemma starts_consistent s : starts s -> consistent (mkConfig s Idle [] ∅).
Proof.
  intros (Hs & Hb & Hc & Hl). assert (Hv : view s = ∅) by (unfold view; by rewrite Hb).
  split; cbn; try done.
  - intros a x. by rewrite Hv, lookup_empty.
  - by rewrite Hc, Hv.
  - by rewrite Hl, Hv.
Qed.

(** A step that changes one database, but neither whom it serves nor for what. *)
Lemma consistent_update c a x x' s' :
  consistent c -> view (st c) !! a = Some (Shared_database x) ->
  at_database a x' (view (st c)) (locks (st c)) (callbacks (st c)) s' ->
  phase (signals (pc c) a) x' -> c_busy x' = c_busy x -> c_callback x' = c_callback x ->
  c_data x' = c_data x -> consistent (mkConfig s' (pc c) (accepted c) (parts c)).
Proof.
  intros [H1 H2 H3 H4 H5] Hx [Hs Hv Hl Hc] Hp Eb Ek Ed. cbn in *.
  assert (Hpend : pending (view s') ≡ₚ pending (view (st c))).
  { rewrite Hv. apply (pend_same _ _ _ _ Hx). cbn. by rewrite Eb, Ek. }
  split; cbn.
  - done.
  - intros b y. rewrite Hv. destruct (decide (b = a)) as [->|Hne].
    + rewrite lookup_insert_eq. by intros [= <-].
    + rewrite lookup_insert_ne by done. by apply H2.
  - intros b cb inside w k u Epc. destruct (H3 _ _ _ _ _ _ Epc) as (E & y & Hy & Hb & Hd).
    split; [done|]. rewrite Hv. destruct (decide (b = a)) as [->|Hne].
    + rewrite Hx in Hy. injection Hy as <-. exists x'. rewrite lookup_insert_eq, Eb, Ed. done.
    + exists y. by rewrite lookup_insert_ne.
  - by rewrite Hc, Hpend.
  - by rewrite Hl, Hpend.
Qed.

Lemma database_at_view s a d : database_at s a = Some d ->
  blocks s !! a = Some (Database d) /\ view s !! a = Some (Shared_database (control_of d)).
Proof.
  unfold database_at. rewrite lookup_view. destruct (blocks s !! a) as [[]|]; try done.
  by intros [= ->].
Qed.

Lemma open_req_at_view s a r : open_req_at s a = Some r -> view s !! a = Some (Shared_open r).
Proof.
  unfold open_req_at. rewrite lookup_view. destruct (blocks s !! a) as [[]|]; try done.
  by intros [= ->].
Qed.

Lemma run_in_inv m c c' (Q : unit -> sq_state -> Prop) : run_in m c = Some c' -> par m (st c) Q ->
  exists s', c' = mkConfig s' (pc c) (accepted c) (parts c) /\ Q tt s'.
Proof.
  unfold run_in, par. destruct (m (st c)) as [[[] s']|]; [|done]. intros [= <-] HQ. by exists s'.
Qed.

Lemma consistent_worker c a p d m c' : consistent c -> database_at (st c) a = Some d ->
  worker_step a p d = Some m -> run_in m c = Some c' ->
  exists x', worker_moves (control_of d) x' /\
    at_database a x' (view (st c)) (locks (st c)) (callbacks (st c)) (st c') /\
    pc c' = pc c /\ consistent c'.
Proof.
  intros Hc Hd Hm Hr. apply database_at_view in Hd as [Hd Hx].
  pose proof (worker_step_result a p d m (st c) (co_sane c Hc) Hd Hm) as Hw.
  apply (run_in_inv _ _ _ _ Hr) in Hw as (s' & -> & x' & Hmv & Hat). exists x'.
  split; [done|]. split; [done|]. split; [done|].
  destruct (phase_moves _ _ _ (co_phase c Hc a _ Hx) Hmv) as (Hp & Eb & Ek & Ed).
  by eapply consistent_update.
Qed.

Lemma phase_works sig w x rc : c_thread x = Working w -> phase sig x ->
  phase sig (mkControl (c_mutex x) (c_cond x) (c_thread x) (c_async x) (c_data x) (c_sent x) (c_busy x) (c_work x) (c_callback x) rc).
Proof. intros Ht Hp. control_inv Hp; by constructor. Qed.

Lemma consistent_part c a d w p p' s' q : consistent c -> database_at (st c) a = Some d -> thread d = Working w ->
  work_part w p a (st c) = Some (p', s') -> consistent (mkConfig s' (pc c) (accepted c) q).
Proof.
  intros Hc Hd Ht Hr. apply database_at_view in Hd as [Hd Hx].
  pose proof (work_result _ a d (st c) (leaves_work_part w p a) (co_sane c Hc) Hd) as Hw. unfold par in Hw. rewrite Hr in Hw.
  destruct Hw as [rc Hat]. apply (consistent_parts (mkConfig s' (pc c) (accepted c) (parts c)) q).
  eapply consistent_update; [done|exact Hx|exact Hat| |done..]. apply (phase_works _ w); [done|]. by apply (co_phase c Hc).
Qed.

Lemma spurious_result a d s : sane s -> blocks s !! a = Some (Database d) ->
  par (update_database a (set_thread Woken)) s (fun _ s' =>
    at_database a (control_of (set_thread Woken d)) (view s) (locks s) (callbacks s) s').
Proof.
  intros Hs Hd. eapply (par_at_update a (control_of d) (view s)).
  { apply at_start; [done|]. by rewrite lookup_view, Hd. }
  intros d' s' E H. replace (control_of (set_thread Woken d)) with (control_of (set_thread Woken d')); [exact H|].
  controls_eq.
Qed.

Lemma phase_woken sig d : thread d = Waiting -> phase sig (control_of d) ->
  phase sig (control_of (set_thread Woken d)).
Proof.
  intros Ht Hp. unfold control_of in *. rewrite Ht in Hp. cbn. control_inv Hp; by constructor.
Qed.

Lemma consistent_spurious c a d c' : consistent c -> database_at (st c) a = Some d ->
  thread d = Waiting -> run_in (update_database a (set_thread Woken)) c = Some c' -> consistent c'.
Proof.
  intros Hc Hd Ht Hr. apply database_at_view in Hd as [Hd Hx].
  destruct (run_in_inv _ _ _ _ Hr (spurious_result a d (st c) (co_sane c Hc) Hd)) as (s' & -> & Hat).
  eapply consistent_update; [done|exact Hx|exact Hat|apply phase_woken; [done|]|done..].
  by apply (co_phase c Hc).
Qed.

(** A callback is delivered: [x] becomes [v'], and its callback is no longer pending. *)
Lemma consistent_delivered c v' l k arg s' :
  consistent c -> pc c = Idle ->
  at_view v' l ((k, arg) :: callbacks (st c)) s' -> locks (st c) = l ⊎ lk k ->
  pending (view (st c)) ≡ₚ k :: pending v' ->
  (forall a x, v' !! a = Some (Shared_database x) -> phase false x) ->
  consistent (mkConfig s' (pc c) (accepted c) (parts c)).
Proof.
  intros [H1 H2 H3 H4 H5] Hpc [Hs Hv Hl Hk] Hlk Hpend Hph. rewrite Hpc in *. split; cbn in *; try done.
  - intros a x. rewrite Hv. apply Hph.
  - rewrite H4, Hk, Hv, Hpend. cbn. symmetry. apply Permutation_middle.
  - rewrite Hl, Hv. rewrite Hpend in H5. change (locks (st c) = lk k ⊎ locks_of (pending v')) in H5.
    rewrite Hlk in H5. rewrite (comm_L (⊎)) in H5. by apply (inj (lk k ⊎.)) in H5.
Qed.
End invariant.

Section steps_consistent.
Context {L : Sqlite} {C : Scheme}.

Lemma phase_sent sig x : phase sig x -> c_sent x = true -> c_busy x = true.
Proof. intros Hp Hs. control_inv Hp. Qed.
Lemma phase_closing sig x : phase sig x -> c_async x = Closing -> c_busy x = false.
Proof. intros Hp Hs. control_inv Hp. Qed.

Lemma phase_of_closed x : phase false x -> c_sent x = true -> phase false (closed (received x)).
Proof. intros Hp Hs. control_inv Hp; unfold closed; cbn; apply phase_closed; auto. Qed.

Lemma phase_finished x : phase false x -> c_sent x = true ->   (c_data x = Some Close_cb -> c_rc x <> SQLITE_OK) -> phase false (finished (received x)).
Proof.
  intros Hp Hs Hrc. control_inv Hp.
  - by apply phase_idle.
  - by destruct Hrc.
  - by destruct Hrc.
Qed.

Lemma consistent_async c a d c' : consistent c -> pc c = Idle ->
  database_at (st c) a = Some d -> async_sent d = true ->
  run_in (Database.async_cb a) c = Some c' -> consistent c'.
Proof.
  intros Hc Hpc Hd Hsent Hr. apply database_at_view in Hd as [Hd Hx].
  pose proof (co_phase c Hc a _ Hx) as Hph. rewrite Hpc in Hph. cbn [signals] in Hph.
  assert (Hbusy : c_busy (control_of d) = true).
  { by eapply phase_sent. }
  assert (Hgen : forall x' s', reported a (control_of d) x' (st c) s' -> c_busy x' = false ->
    phase false x' -> consistent (mkConfig s' (pc c) (accepted c) (parts c))).
  { intros x' s' (l & arg & Hl & Hat) Eb Hp'. eapply consistent_delivered; [done|done|exact Hat|exact Hl| |].
    - pose proof (pend_insert _ _ _ (Shared_database x') Hx) as Hpi. cbn [pend] in Hpi.
      rewrite Hbusy, Eb in Hpi. symmetry. exact Hpi.
    - intros b y. destruct (decide (b = a)) as [->|Hne].
      + rewrite lookup_insert_eq. by intros [= <-].
      + rewrite lookup_insert_ne by done. intros Hy. pose proof (co_phase c Hc b y Hy) as Hp.
        by rewrite Hpc in Hp. }
  destruct (run_in_inv _ _ _ _ Hr (async_cb_result a _ (st c) (co_sane c Hc) Hx))
    as (s' & -> & cb & Hcb & [(-> & Hrc & Hth & Hrep)|[Hrc Hrep]]).
  - apply (Hgen _ _ Hrep); [done|]. by apply phase_of_closed.
  - apply (Hgen _ _ Hrep); [done|]. apply phase_finished; [done|done|].
    intros E. apply Hrc. rewrite Hcb in E. by injection E.
Qed.

Lemma opening_phase x : opening_fields x -> phase false x /\ pend (Shared_database x) = [].
Proof. intros [-> | ->]; (split; [|done]); [by apply phase_idle|apply phase_closed; by right]. Qed.

Lemma consistent_open_cb c req r c' : consistent c -> pc c = Idle ->
  open_req_at (st c) req = Some r -> run_in (open_cb req) c = Some c' -> consistent c'.
Proof.
  intros Hc Hpc Hq Hr. apply open_req_at_view in Hq as Hx.
  destruct (run_in_inv _ _ _ _ Hr (open_cb_result req r (st c) (co_sane c Hc) Hx))
    as (s' & -> & l & arg & Hl & v' & Hv' & Hat).
  assert (Hold : forall b y, delete req (view (st c)) !! b = Some (Shared_database y) -> phase false y).
  { intros b y [_ Hy]%lookup_delete_Some. pose proof (co_phase c Hc b y Hy) as Hp. by rewrite Hpc in Hp. }
  eapply consistent_delivered; [done|done|exact Hat|exact Hl| |].
  - rewrite (pend_delete _ _ _ Hx). cbn. f_equiv. destruct Hv' as [->|(e & x & Hn & Ho & ->)]; [done|].
    rewrite (pend_new _ _ _ Hn). by rewrite (proj2 (opening_phase _ Ho)).
  - intros b y. destruct Hv' as [->|(e & x & Hn & Ho & ->)]; [apply Hold|].
    intros [[-> Hy]|[_ Hy]]%lookup_insert_Some; [|by eapply Hold].
    injection Hy as <-. by apply opening_phase.
Qed.

Lemma consistent_pool c req r c' : consistent c -> open_req_at (st c) req = Some r ->
  run_in (open_worker req) c = Some c' -> consistent c'.
Proof.
  intros [H1 H2 H3 H4 H5] Hq Hr. apply open_req_at_view in Hq as Hx.
  destruct (run_in_inv _ _ _ _ Hr (open_worker_result req r (st c) H1 Hx))
    as (s' & -> & r' & [_ Hcb] & [Hs Hv Hl Hk]).
  assert (Hpend : pending (view s') ≡ₚ pending (view (st c))).
  { rewrite Hv. apply (pend_same _ _ _ _ Hx). cbn. by rewrite Hcb. }
  assert (Hkeep : forall b y, view s' !! b = Some (Shared_database y) <->
    view (st c) !! b = Some (Shared_database y)).
  { intros b y. rewrite Hv. destruct (decide (b = req)) as [->|Hne].
    - rewrite lookup_insert_eq, Hx. by split.
    - by rewrite lookup_insert_ne. }
  split; cbn.
  - done.
  - intros b y Hy%Hkeep. by apply H2.
  - intros b cb inside w k u E. destruct (H3 _ _ _ _ _ _ E) as (Ecb & y & Hy%Hkeep & Hb). split; [done|].
    by exists y.
  - by rewrite Hk, Hpend.
  - by rewrite Hl, Hpend.
Qed.

Lemma consistent_free c a d c' : consistent c -> pc c = Idle -> database_at (st c) a = Some d ->
  async d = Closing -> run_in (close_free_cb a) c = Some c' -> consistent c'.
Proof.
  intros [H1 H2 H3 H4 H5] Hpc Hd Hcl Hr. apply database_at_view in Hd as [Hd Hx].
  destruct (run_in_inv _ _ _ _ Hr (close_free_cb_result a _ (st c) H1 Hx)) as (s' & -> & [Hs Hv Hl Hk]).
  assert (Hpend : pending (view s') ≡ₚ pending (view (st c))).
  { rewrite Hv, (pend_delete _ _ _ Hx). cbn [pend].
    pose proof (H2 a _ Hx) as Hp. replace (c_busy (control_of d)) with false; [done|].
    symmetry. by eapply phase_closing. }
  split; cbn; [done| |by rewrite Hpc|by rewrite Hk, Hpend|by rewrite Hl, Hpend].
  intros b y. rewrite Hv. intros [_ Hy]%lookup_delete_Some. by apply H2.
Qed.

Lemma consistent_enter c a cb inside w k u s' : consistent c -> pc c = Entering a cb inside w k u ->
  enter a cb inside w k u (st c) = Some (tt, s') -> consistent (mkConfig s' (Signalling a) (accepted c) (parts c)).
Proof.
  intros [H1 H2 H3 H4 H5] Hpc He. rewrite Hpc in *.
  destruct (H3 _ _ _ _ _ _ eq_refl) as (-> & x & Hx & Hb & Hdata).
  pose proof (enter_result a (cb_of w) inside w k u x (st c) H1 Hx) as Hr. unfold par in Hr. rewrite He in Hr.
  destruct Hr as [Hm [Hs Hv Hl Hk]].
  assert (Hpend : pending (view s') ≡ₚ k :: pending (view (st c))).
  { rewrite Hv. pose proof (pend_insert _ _ _ (Shared_database (entered (cb_of w) inside w k x)) Hx) as Hp.
    cbn in Hp. by rewrite Hb in Hp. }
  split; cbn; [done| |done|by rewrite Hk, Hpend, H4|by rewrite Hl, Hpend, H5].
  intros b y. rewrite Hv. intros [[<- Hy]|[Hne Hy]]%lookup_insert_Some.
  - injection Hy as <-. rewrite Z.eqb_refl. pose proof (H2 a x Hx) as Hp.
    unfold entered. destruct inside; [|specialize (Hdata eq_refl)]; control_inv Hp;
      try rewrite Hdata; apply phase_requested; try done; by destruct t.
  - destruct (Z.eqb_spec b a); [done|]. by apply (H2 b y).
Qed.

Lemma signal_database a s s' : signal a s = Some (tt, s') ->
  exists x, view s !! a = Some (Shared_database x).
Proof.
  intros He. assert (Hp : par (signal a) s (fun _ _ => exists x, view s !! a = Some (Shared_database x))).
  { unfold signal, update_database. apply par_bind, par_load_database. intros d Hd. unfold par.
    destruct (store _ _ _) as [[]|]; [|done]. exists (control_of d). by rewrite lookup_view, Hd. }
  unfold par in Hp. by rewrite He in Hp.
Qed.

Lemma consistent_signal c a s' : consistent c -> pc c = Signalling a ->
  signal a (st c) = Some (tt, s') -> consistent (mkConfig s' Idle (accepted c) (parts c)).
Proof.
  intros [H1 H2 H3 H4 H5] Hpc He. rewrite Hpc in *.
  destruct (signal_database _ _ _ He) as [x Hx].
  pose proof (signal_result a x (st c) H1 Hx) as Hr. unfold par in Hr. rewrite He in Hr.
  destruct Hr as [Hs Hv Hl Hk].
  assert (Hpend : pending (view s') ≡ₚ pending (view (st c))).
  { rewrite Hv. apply (pend_same _ _ _ _ Hx). unfold signalled. by destruct (c_thread x). }
  split; cbn; [done| |done|by rewrite Hk, Hpend|by rewrite Hl, Hpend].
  intros b y. rewrite Hv. intros [[<- Hy]|[Hne Hy]]%lookup_insert_Some.
  - injection Hy as <-. pose proof (H2 a x Hx) as Hp. cbn in Hp. rewrite Z.eqb_refl in Hp.
    unfold signalled. control_inv Hp; try (constructor; auto; done); destruct t; cbn in *; try done; by constructor.
  - pose proof (H2 b y Hy) as Hp. cbn in Hp. by destruct (Z.eqb_spec b a).
Qed.

Lemma not_open (P : Prop) o : ((forall f fl cb, o <> Op_open f fl cb) -> P) ->
  (forall f fl cb, o = Op_open f fl cb -> P) -> P.
Proof. intros H1 H2. destruct o; try (by apply H1); by eapply H2. Qed.

Lemma consistent_op c o out s' : consistent c -> pc c = Idle -> run_op o (st c) = Some (out, s') ->
  consistent (match out with
    | Return r => mkConfig s' Idle (accepts o r ++ accepted c) (parts c)
    | Request a cb inside w k u => mkConfig s' (Entering a cb inside w k u) (k :: accepted c) (parts c)
    end).
Proof.
  intros [H1 H2 H3 H4 H5] Hpc He. rewrite Hpc in *. apply (not_open _ o).
  - intros Ho. pose proof (run_op_result o (st c) H1 Ho) as Hr. unfold par in Hr. rewrite He in Hr.
    destruct out as [r|a cb inside w k u].
    + destruct Hr as [Hs Hv Hl Hk].
      replace (accepts o r) with (@nil datum) by (destruct o; try done; by destruct (Ho filename flags callback)).
      split; cbn; [done|by rewrite Hv|done|by rewrite Hk, Hv|by rewrite Hl, Hv].
    + destruct Hr as (-> & Hs & Hk & Hl & x & Hx & Hb & Hv).
      assert (Hpend : pending (view s') ≡ₚ pending (view (st c))).
      { rewrite Hv. destruct inside; [done|]. by apply (pend_same _ _ _ _ Hx). }
      split; cbn.
      * done.
      * intros b y. rewrite Hv. destruct inside; [apply H2|].
        intros [[<- Hy]|[Hne Hy]]%lookup_insert_Some; [|by eapply (H2 b)].
        injection Hy as <-. pose proof (H2 a x Hx) as Hp. unfold set_c_data.
        control_inv Hp; try (by constructor); apply phase_closed; auto.
      * intros b cb inside' w' k' u' [= <- <- <- <- <- <-]. split; [done|]. rewrite Hv.
        destruct inside; [by exists x|]. eexists. rewrite lookup_insert_eq. split; [done|]. by cbn.
      * rewrite Hk, Hpend, H4. cbn. apply Permutation_middle.
      * rewrite Hl, Hpend, H5. apply (comm_L (⊎)).
  - intros f fl cb ->. cbn [run_op] in He. unfold returned in He.
    pose proof (open_database_result f fl cb (st c) H1) as Hr. unfold par in Hr. unfold mbind, St_bind in He.
    destruct (osi_open_database f fl cb (st c)) as [[r s1]|]; [|done]. injection He as <- <-.
    destruct Hr as (Hs & Hk & [(Hr & Hv & Hl)|(-> & Hl & req & q & Hn & Hcb & _ & Hv)]).
    + replace (accepts (Op_open f fl cb) r) with (@nil datum) by (destruct r; try done; by destruct Hr).
      split; cbn; [done|by rewrite Hv|done|by rewrite Hk, Hv|by rewrite Hl, Hv].
    + assert (Hpend : pending (view s1) ≡ₚ cb :: pending (view (st c))).
      { rewrite Hv, (pend_new _ _ _ Hn). cbn. by rewrite Hcb. }
      split; cbn; [done| |done|..].
      * intros b y. rewrite Hv. intros [[_ Hy]|[_ Hy]]%lookup_insert_Some; [done|]. by apply (H2 b).
      * rewrite Hk, Hpend, H4. cbn. apply Permutation_middle.
      * rewrite Hl, Hpend, H5. apply (comm_L (⊎)).
Qed.

Lemma consistent_call o c c' : consistent c -> pc c = Idle \/ (exists o, pc c = Tested o) -> call o c = Some c' -> consistent c'.
Proof.
  intros Hc Hpc He. unfold call in He. destruct (run_op o (st c)) as [[out s']|] eqn:Hr; [|done]. cbn in He.
  assert (Hidle : consistent (mkConfig (st c) Idle (accepted c) (parts c))).
  { destruct Hpc as [<-|[o' Hpc]]; [by destruct c|]. destruct Hc as [H1 H2 H3 H4 H5]. rewrite Hpc in *. by constructor. }
  pose proof (consistent_op _ o out s' Hidle eq_refl Hr) as H. destruct out; by injection He as <-.
Qed.

Lemma consistent_exec e c c' : consistent c -> exec e c = Some c' -> consistent c'.
Proof.
  intros Hc He. destruct e; cbn [exec] in He.
  - destruct (pc c) eqn:Hpc; cbn in He; try done. eapply consistent_call; eauto.
  - destruct (pc c) eqn:Hpc; try done.
    destruct (enter _ _ _ _ _ _ _) as [[[] s']|] eqn:Hr; [|done]. injection He as <-.
    by eapply consistent_enter.
  - destruct (pc c) eqn:Hpc; try done.
    destruct (signal _ _) as [[[] s']|] eqn:Hr; [|done]. injection He as <-. by eapply consistent_signal.
  - destruct (pc c) eqn:Hpc; cbn in He; try done. apply option.bind_Some in He as (x & _ & (y & _ & [= <-])%option.bind_Some).
    destruct Hc as [H1 H2 H3 H4 H5]. rewrite Hpc in *. by constructor.
  - destruct (pc c) eqn:Hpc; try done. apply option.bind_Some in He as (x & _ & (y & _ & He)%option.bind_Some).
    eapply consistent_call; eauto.
  - apply option.bind_Some in He as (d & Hd & (m & Hm & (c1 & Hr & [= <-])%option.bind_Some)%option.bind_Some).
    apply consistent_parts. by destruct (consistent_worker _ _ _ _ _ _ Hc Hd Hm Hr) as (x & _ & _ & _ & H).
  - apply option.bind_Some in He as (d & Hd & He). destruct (thread d) eqn:Et; try done.
    apply option.bind_Some in He as ([p s'] & Hp & He). case_bool_decide; [done|]. injection He as <-. by eapply consistent_part.
  - apply option.bind_Some in He as (d & Hd & Hr). destruct (thread d) eqn:Et; try done. by eapply consistent_spurious.
  - apply option.bind_Some in He as (r & Hr & Hm). destruct (req_state r); try done. by eapply consistent_pool.
  - apply option.bind_Some in He as (r & Hr & Hm). destruct (req_state r); try done.
    destruct (pc c) eqn:Hpc; try done. by eapply consistent_open_cb.
  - apply option.bind_Some in He as (d & Hd & Hr). destruct (async d); try done.
    destruct (async_sent d) eqn:Es; [|done]. destruct (pc c) eqn:Hpc; try done. by eapply consistent_async.
  - apply option.bind_Some in He as (d & Hd & Hr). destruct (async d) eqn:Ea; try done.
    destruct (pc c) eqn:Hpc; try done. by eapply consistent_free.
Qed.

Lemma consistent_run es : forall c c', consistent c -> run es c = Some c' -> consistent c'.
Proof.
  induction es as [|e es IH]; intros c c' Hc; cbn [run]; [by intros [= <-]|].
  intros (c1 & H1 & H2)%option.bind_Some. by eapply IH, H2; eapply consistent_exec.
Qed.

Lemma protocol_consistent c : reachable c -> consistent c.
Proof. intros (s & es & Hs & Hr). eapply consistent_run, Hr. by apply starts_consistent. Qed.
End steps_consistent.

(** ** What the protocol guarantees *)

(** The statement an operation is about, and the database an operation uses. *)
Definition op_statement (o : op) : option Z :=
  match o with
  | Op_step x _ | Op_finalize x | Op_bind x _ _ | Op_bind_bindings x _ | Op_clear_bindings x
  | Op_reset x | Op_columns x | Op_expanded_sql x => Some x
  | Op_bulk (Dvector (Dinteger x :: ss)) (Dvector bs) _ =>
    if (S (length ss) =? length bs)%nat then Some x else None
  | _ => None
  end.
Definition op_database (s : sq_state) (o : op) : option Z :=
  match o with
  | Op_close d _ | Op_prepare d _ _ | Op_last_insert_rowid d => Some d
  | _ => x ← op_statement o; statement_database s x
  end.

(** The procedure an error names. *)
Definition op_name (o : op) : string :=
  match o with
  | Op_open _ _ _ => "osi_open_database"
  | Op_close _ _ => "osi_close_database"
  | Op_prepare _ _ _ => "osi_prepare_statement"
  | Op_step _ _ => "osi_step_statement"
  | Op_bulk _ _ _ => "osi_bulk_execute"
  | Op_finalize _ => "osi_finalize_statement"
  | Op_bind _ _ _ => "osi_bind_statement"
  | Op_bind_bindings _ _ => "osi_bind_statement_bindings"
  | Op_clear_bindings _ => "osi_clear_statement_bindings"
  | Op_reset _ => "osi_reset_statement"
  | Op_columns _ => "osi_get_statement_columns"
  | Op_expanded_sql _ => "osi_get_statement_expanded_sql"
  | Op_last_insert_rowid _ => "osi_get_last_insert_rowid"
  | Op_interrupt _ => "osi_interrupt_database"
  | Op_status _ _ => "osi_get_sqlite_status"
  | Op_marshal _ => "osi_marshal_bindings"
  | Op_unmarshal _ => "osi_unmarshal_bindings"
  | Op_get_bindings _ => "osi_get_bindings"
  end.

Section guarantees.
Context {L : Sqlite} {C : Scheme}.

Lemma bind_load_database {A} s a d (k : database_t -> D A) : blocks s !! a = Some (Database d) ->
  (load_database a ≫= k) s = k d s.
Proof. intros Hd. unfold load_database, load, the, look, mbind, St_bind. by rewrite Hd. Qed.

Lemma bind_load_statement {A} s a x (k : statement_t -> D A) : blocks s !! a = Some (Statement x) ->
  (load_statement a ≫= k) s = k x s.
Proof. intros Hx. unfold load_statement, load, the, look, mbind, St_bind. by rewrite Hx. Qed.

Lemma bind_the {A B} s (x : A) (k : A -> D B) : (the (Some x) ≫= k) s = k x s.
Proof. done. Qed.

Lemma returned_run m s r s' : m s = Some (r, s') -> returned m s = Some (Return r, s').
Proof. intros Hm. unfold returned, mbind, St_bind. by rewrite Hm. Qed.

Ltac unfold_op :=
  cbn [run_op op_name]; try apply returned_run;
  unfold osi_close_database, osi_prepare_statement, osi_finalize_statement, osi_bind_statement,
    osi_bind_statement_bindings, osi_step_statement, osi_clear_statement_bindings,
    osi_get_last_insert_rowid, osi_get_statement_columns, osi_get_statement_expanded_sql,
    osi_reset_statement.
Ltac refuse_database :=
  erewrite bind_load_database by eassumption; cbv beta;
  match goal with H : busy _ = true |- _ => rewrite H; reflexivity end.
Ltac refuse_statement :=
  erewrite bind_load_statement by eassumption; cbv beta;
  match goal with E : st_database _ = _, E0 : (_ =? 0) = false |- _ => rewrite E, E0 end;
  refuse_database.
(** The first statement of a bulk request. *)
Ltac first_statement Ho El :=
  match type of Ho with context [Op_bulk ?statements ?mbindings _] =>
    destruct statements as [| | | | | | | | | |[|[| | | |?| | | | | | |] ?]|]; try done;
    destruct mbindings as [| | | | | | | | | |?|]; try done
  end;
  cbn [op_statement] in Ho; destruct (S (length _) =? length _)%nat eqn:El; [|done].

(** A busy database refuses every operation but the interrupt. *)
Lemma busy_refuses o s a d : op_database s o = Some a -> blocks s !! a = Some (Database d) ->
  busy d = true -> run_op o s = Some (Return (error_pair (op_name o) UV_EBUSY), s).
Proof.
  intros Ho Hd Hb.
  assert (Hst : forall x, statement_database s x = Some a -> exists y, blocks s !! x = Some (Statement y) /\
    st_database y = a /\ (a =? 0) = false).
  { unfold statement_database. intros x. destruct (blocks s !! x) as [[| |y| | | |]|]; try done. cbn.
    destruct (st_database y =? 0) eqn:E; [done|]. intros [= <-]. by exists y. }
  destruct o as [| | | |ss bs cb| | | | | | | | | | | | |].
  5: { unfold op_database in Ho. first_statement Ho El. apply Hst in Ho as (y & Hy & E & E0).
    cbn [run_op op_name]. unfold osi_bulk_execute. cbn [length]. rewrite El. cbn [negb is_integer]. rewrite bind_the. refuse_statement. }
  all: cbn [op_database op_statement] in Ho; try done; unfold_op;
    try (injection Ho as ->; refuse_database);
    try (apply Hst in Ho as (y & Hy & E & E0); refuse_statement).
Qed.

(** A statement whose database has gone is refused too, and finalizing it frees it. *)
Lemma detached_refuses o s x y : op_statement o = Some x -> blocks s !! x = Some (Statement y) -> st_database y = 0 ->
  run_op o s = match o with
    | Op_finalize _ => Some (Return Dtrue, set_blocks (delete x (blocks s)) s)
    | _ => Some (Return (error_pair (op_name o) UV_EINVAL), s)
    end.
Proof.
  intros Ho Hy E. destruct o as [| | | |ss bs cb| | | | | | | | | | | | |].
  5: { first_statement Ho El. injection Ho as ->. cbn [run_op op_name]. unfold osi_bulk_execute. cbn [length]. rewrite El.
    cbn [negb is_integer]. rewrite bind_the. erewrite bind_load_statement by eassumption. by rewrite E. }
  all: try done; injection Ho as ->; unfold_op; erewrite bind_load_statement by eassumption; cbv beta; rewrite E; cbn [Z.eqb]; try done.
  unfold free, load, look, the, assert_ok, change, mbind, St_bind. by rewrite Hy.
Qed.

(** C6: at every point of every interleaving of the main thread, the worker threads, the thread
    pool and libuv, the callback of each request that was not refused is either delivered,
    once, or still to come; and the callbacks to come are exactly those locked for the
    collector. *)
Theorem callback_delivered_once c : reachable c ->
  accepted c ≡ₚ map fst (callbacks (st c)) ++ pending_pc (pc c) ++ pending (view (st c)) /\
  locks (st c) = locks_of (pending_pc (pc c) ++ pending (view (st c))).
Proof. intros H%protocol_consistent. split; [apply (co_accepted c H)|apply (co_locks c H)]. Qed.

(** C4: while a worker thread runs the work function of a request, without the mutex and
    wherever in it the worker is, its database is marked busy with this request. Every operation of the main
    thread on the database, or on a statement that refers to it, is refused with [UV_EBUSY] and
    changes nothing, also when it had tested the statement before; but for the interrupt, which
    calls the library and leaves all memory as it is. An operation on a statement that
    [close_worker] has detached is refused with [UV_EINVAL], and finalizing such a statement frees it. *)
Theorem worker_excludes c a d w : reachable c -> database_at (st c) a = Some d -> thread d = Working w ->
  (busy d = true /\ db_work d = Some w /\ async_data d = Some (cb_of w) /\ mutex d = Unlocked) /\
  (forall o, op_database (st c) o = Some a ->
    run_op o (st c) = Some (Return (error_pair (op_name o) UV_EBUSY), st c) /\
    (forall x, pc c = Tested o -> rereads o = Some x -> exec Ev_resume c = Some (mkConfig (st c) Idle (accepted c) (parts c)))) /\
  run_op (Op_interrupt a) (st c) = Some (Return Dtrue, set_history (Sq_interrupt (db d) :: history (st c)) (st c)) /\
  (forall o x y, op_statement o = Some x -> blocks (st c) !! x = Some (Statement y) -> st_database y = 0 ->
    run_op o (st c) = match o with
      | Op_finalize _ => Some (Return Dtrue, set_blocks (delete x (blocks (st c))) (st c))
      | _ => Some (Return (error_pair (op_name o) UV_EINVAL), st c)
      end).
Proof.
  intros H%protocol_consistent Hd Ht. apply database_at_view in Hd as [Hd Hx].
  pose proof (co_phase c H a _ Hx) as Hp.
  assert (Hc : busy d = true /\ db_work d = Some w /\ async_data d = Some (cb_of w) /\ mutex d = Unlocked).
  { unfold control_of in Hp. rewrite Ht in Hp. control_inv Hp. }
  split; [done|]. destruct Hc as (Hb & _). split; [|split].
  - intros o Ho. pose proof (busy_refuses o (st c) a d Ho Hd Hb) as Hr. split; [done|]. intros x Hpc Hx'. cbn [exec]. rewrite Hpc, Hx'.
    assert (statement_database (st c) x = Some a) as Hs by (destruct o; try done; injection Hx' as ->; exact Ho).
    cbn [mbind option_bind]. rewrite Hs. cbn [mbind option_bind]. unfold call. rewrite Hr. by destruct o.
  - cbn [run_op]. unfold returned, osi_interrupt_database, load_database, load, the, look, sqlite, change, mbind, St_bind.
    rewrite Hd. cbn. by rewrite Hb.
  - intros o x y Ho Hy E. by apply (detached_refuses o (st c) x y).
Qed.

(** The worker of a request can move, unless the signal it waits for is the next step of the
    main thread. *)
Lemma request_enabled c a : consistent c -> (0 < remaining (st c) a)%nat ->
  exists d, database_at (st c) a = Some d /\ busy d = true /\ async_sent d = false /\
    ((thread d = Waiting /\ pc c = Signalling a) \/ exists m, worker_step a (progress_at c a) d = Some m).
Proof.
  intros H Hr. unfold remaining in Hr. destruct (view (st c) !! a) as [[x|]|] eqn:Hx; [|lia..].
  pose proof (co_phase c H a x Hx) as Hp. apply view_inv in Hx as (d & Hd & E). exists d.
  split; [unfold database_at; by rewrite Hd|]. subst x. cbn in Hr.
  destruct (busy d) eqn:Eb; [|cbn in Hr; lia]. destruct (async_sent d) eqn:Es; [cbn in Hr; lia|].
  split; [done|]. split; [done|]. unfold control_of in Hp. rewrite Eb, Es in Hp. unfold worker_step.
  assert (Hth : exists w, attends (signals (pc c) a) w (thread d) /\ mutex d = held (thread d))
    by (inversion Hp; subst; by eexists).
  destruct Hth as (w & Ht & Hm). rewrite Hm.
  destruct (thread d) eqn:Et; try done; try (right; eexists; reflexivity).
  left. split; [done|]. cbn in Ht. destruct (pc c); try done. apply Z.eqb_eq in Ht. by subst.
Qed.

Lemma remaining_at s' a x v l cbs : at_database a x v l cbs s' -> remaining s' a =
  if c_busy x && negb (c_sent x) then distance (c_thread x) else 0%nat.
Proof. intros [_ Hv _ _]. unfold remaining. by rewrite Hv, lookup_insert_eq. Qed.

Lemma worker_advances c a c' : consistent c -> (0 < remaining (st c) a)%nat ->
  exec (Ev_worker a) c = Some c' -> (remaining (st c') a < remaining (st c) a)%nat.
Proof.
  intros H Hr He. cbn [exec] in He. apply option.bind_Some in He as (d & Hd & (m & Hm & (c1 & Hrun & [= <-])%option.bind_Some)%option.bind_Some).
  destruct (consistent_worker _ _ _ _ _ _ H Hd Hm Hrun) as (x & Hmv & Hat & _ & _). cbn [st with_parts].
  apply database_at_view in Hd as [Hd Hx]. pose proof (co_phase c H a _ Hx) as Hp.
  rewrite (remaining_at _ _ _ _ _ _ Hat). unfold remaining in *. rewrite Hx in *.
  destruct (c_busy (control_of d)) eqn:Eb; [|cbn in Hr; lia].
  destruct (c_sent (control_of d)) eqn:Es; [cbn in Hr; lia|].
  assert (Hw : exists w, c_work (control_of d) = Some w) by (control_inv Hp; by eexists).
  destruct Hw as [w Hw]. destruct (distance_moves _ _ _ _ Hp Hmv Hw) as [->|Hlt].
  - rewrite andb_false_r. exact Hr.
  - destruct (c_busy x && negb (c_sent x)); [exact Hlt|exact Hr].
Qed.

(** A part of the work function does not lead away from its end. *)
Lemma part_keeps c a c' : consistent c -> exec (Ev_part a) c = Some c' -> remaining (st c') a = remaining (st c) a.
Proof.
  intros H He. cbn [exec] in He. apply option.bind_Some in He as (d & Hd & He). destruct (thread d) as [| | | | |w|w|w|] eqn:Et; try done.
  apply option.bind_Some in He as ([p s'] & Hr & He). case_bool_decide; [done|]. injection He as <-. cbn [st].
  apply database_at_view in Hd as [Hd Hx].
  pose proof (work_result _ a d (st c) (leaves_work_part w (progress_at c a) a) (co_sane c H) Hd) as Hw. unfold par in Hw. rewrite Hr in Hw.
  destruct Hw as [rc Hat]. rewrite (remaining_at _ _ _ _ _ _ Hat). unfold remaining. by rewrite Hx.
Qed.

Lemma signal_advances c a c' : consistent c -> pc c = Signalling a ->
  database_at (st c) a ≫= (fun d => Some (thread d)) = Some Waiting -> (0 < remaining (st c) a)%nat ->
  exec Ev_signal c = Some c' -> (remaining (st c') a < remaining (st c) a)%nat.
Proof.
  intros H Hpc Ht Hr He. apply option.bind_Some in Ht as (d & Hd & Ht). injection Ht as Ht.
  apply database_at_view in Hd as [Hd Hx]. cbn [exec] in He. rewrite Hpc in He.
  apply option.bind_Some in He as ([[] s'] & Hs & He). injection He as <-. cbn [st].
  pose proof (signal_result a _ (st c) (co_sane c H) Hx) as Hat. unfold par in Hat. rewrite Hs in Hat.
  rewrite (remaining_at _ _ _ _ _ _ Hat). unfold remaining in *. rewrite Hx in *.
  unfold signalled. cbn [control_of c_thread c_busy c_sent] in *. rewrite Ht in *. cbn.
  destruct (busy d && negb (async_sent d)); cbn in *; lia.
Qed.

(** C5: no wakeup is lost.  As long as the worker has not sent the result of a request
    ([remaining] is then positive), either it can take a step, and every step it takes brings
    it nearer to sending; or it waits for a [uv_cond_signal] that is the very next step of the
    main thread, and brings it nearer too.  So after at most five of these steps the
    result is sent, and [async_cb] can run; the parts that a worker makes of the step of its work
    function lead no way back. *)
Theorem no_lost_wakeup c a : reachable c -> (0 < remaining (st c) a)%nat ->
  exists d, database_at (st c) a = Some d /\ busy d = true /\ async_sent d = false /\
    ((thread d = Waiting /\ pc c = Signalling a /\ (exists c', exec Ev_signal c = Some c') /\
      forall c', exec Ev_signal c = Some c' -> (remaining (st c') a < remaining (st c) a)%nat) \/
     ((exists m, worker_step a (progress_at c a) d = Some m) /\
      forall c', exec (Ev_worker a) c = Some c' -> (remaining (st c') a < remaining (st c) a <= 5)%nat)) /\
    (forall c', exec (Ev_part a) c = Some c' -> remaining (st c') a = remaining (st c) a).
Proof.
  intros H%protocol_consistent Hr.
  destruct (request_enabled c a H Hr) as (d & Hd & Hb & Hs & Hnext); exists d; (split; [done|]);
    (split; [done|]); (split; [done|]); (split; [|intros c' Hpart; by apply part_keeps]); destruct Hnext as [[Ht Hpc]|Hm].
  - left. split; [done|]. split; [done|]. split.
    + cbn [exec]. rewrite Hpc. apply database_at_view in Hd as [Hd _].
      unfold signal, update_database. erewrite bind_load_database by exact Hd. rewrite Ht.
      unfold store, load, look, the, assert_ok, change, mbind, St_bind. rewrite Hd. cbn. by eexists.
    + intros c' He. eapply signal_advances; try done. by rewrite Hd; cbn; rewrite Ht.
  - right. split; [done|]. intros c' He. split; [by apply worker_advances|].
    apply database_at_view in Hd as [_ Hx]. unfold remaining. rewrite Hx.
    destruct (_ && _); [|lia]. destruct (c_thread _); cbn; lia.
Qed.
End guarantees.

(** *** Concrete runs *)

Definition start_state : sq_state := mkSq ∅ 1 [] ∅ [] (fun _ => 1) 0.

Lemma start_state_starts : starts start_state.
Proof. split; [split; [done|intros k _; apply lookup_empty]|done]. Qed.

(** A database is opened (block 3) and asked to prepare a statement. *)
Definition prepare_events : list event :=
  [Ev_op (Op_open [97] 6 (Dobject 7)); Ev_pool 1; Ev_open_cb 1; Ev_worker 3; Ev_worker 3;
   Ev_op (Op_prepare 3 (Dstring [98]) (Dobject 8)); Ev_enter].
Definition working_events : list event := prepare_events ++ [Ev_signal; Ev_worker 3; Ev_worker 3].

Definition config_after (es : list event) : config :=
  default (mkConfig start_state Idle [] ∅)
    (run (L := example_sqlite) (C := example_scheme) es (mkConfig start_state Idle [] ∅)).

Lemma after_reachable es : is_Some (run (L := example_sqlite) (C := example_scheme) es (mkConfig start_state Idle [] ∅)) ->
  reachable (L := example_sqlite) (C := example_scheme) (config_after es).
Proof.
  intros [c Hc]. exists start_state, es. split; [apply start_state_starts|]. unfold config_after. by rewrite Hc.
Qed.

Lemma callback_delivered_once_witness :
  accepted (config_after working_events) ≡ₚ [Dobject 8; Dobject 7] /\
  locks (st (config_after working_events)) = {[+ 8%positive +]}.
Proof.
  destruct (@callback_delivered_once example_sqlite example_scheme (config_after working_events)) as [H1 H2].
  - apply after_reachable. vm_compute. by eexists.
  - split; [vm_compute; reflexivity|]. rewrite H2. vm_compute. reflexivity.
Defined.

Lemma worker_excludes_witness :
  run_op (L := example_sqlite) (C := example_scheme) (Op_close 3 (Dobject 9)) (st (config_after working_events)) =
    Some (Return (error_pair "osi_close_database" UV_EBUSY), st (config_after working_events)).
Proof.
  assert (Hd : exists d, database_at (st (config_after working_events)) 3 = Some d /\
    thread d = Working Prepare_worker) by (eexists; split; vm_compute; reflexivity).
  destruct Hd as (d & Hd & Ht).
  destruct (@worker_excludes example_sqlite example_scheme (config_after working_events) 3 d
    Prepare_worker) as (_ & H & _).
  - apply after_reachable. vm_compute. by eexists.
  - exact Hd.
  - exact Ht.
  - apply (proj1 (H (Op_close 3 (Dobject 9)) eq_refl)).
Defined.

Lemma no_lost_wakeup_witness :
  (0 < remaining (st (config_after prepare_events)) 3)%nat /\
  exists c', exec (L := example_sqlite) (C := example_scheme) Ev_signal (config_after prepare_events) = Some c'.
Proof.
  assert (Hr : (0 < remaining (st (config_after prepare_events)) 3)%nat) by (vm_compute; lia).
  split; [exact Hr|].
  destruct (@no_lost_wakeup example_sqlite example_scheme (config_after prepare_events) 3)
    as (d & Hd & _ & _ & [(_ & _ & H & _)|[Hm _]] & _).
  - apply after_reachable. vm_compute. by eexists.
  - exact Hr.
  - exact H.
  - exfalso. destruct Hm as [m Hm].
    assert (Ht : thread <$> database_at (st (config_after prepare_events)) 3 = Some Waiting)
      by (vm_compute; reflexivity).
    rewrite Hd in Ht. injection Ht as Ht. unfold worker_step in Hm. rewrite Ht in Hm. discriminate.
Defined.

(** *** The race of closing and finalizing *)

(** A statement (block 5) of the database 3 is prepared, and the worker of a request to close
    the database has finalized it, but not yet detached it. *)
Definition closing_events : list event :=
  working_events ++ [Ev_worker 3; Ev_worker 3; Ev_worker 3; Ev_async 3; Ev_op (Op_close 3 (Dobject 9)); Ev_enter; Ev_signal;
   Ev_worker 3; Ev_worker 3; Ev_part 3].

(** Theorem (finding): closing a database races with finalizing its statements. Once [close_worker] has detached a
    statement, [osi_finalize_statement] frees it, though the database is busy; the worker then
    writes to the statement it has lost, so that neither its next part nor the rest of its work
    function is defined. *)
Theorem close_finalize_race : let es := closing_events ++ [Ev_part 3; Ev_op (Op_finalize 5)] in
  match run (L := example_sqlite) (C := example_scheme) es (mkConfig start_state Idle [] ∅) with
  | Some c => thread <$> database_at (st c) 3 = Some (Working Close_worker) /\ blocks (st c) !! 5 = None /\
      exec (L := example_sqlite) (C := example_scheme) (Ev_part 3) c = None /\
      exec (L := example_sqlite) (C := example_scheme) (Ev_worker 3) c = None
  | None => False
  end.
Proof. by vm_compute. Qed.

(** Theorem (finding): an operation on a statement reads [s->database] for the test and again for the database it marks as
    busy; when the worker detaches the statement in between, it reads through a null pointer. *)
Theorem test_then_null : let es := closing_events ++ [Ev_test (Op_reset 5); Ev_part 3] in
  match run (L := example_sqlite) (C := example_scheme) es (mkConfig start_state Idle [] ∅) with
  | Some c => pc c = Tested (Op_reset 5) /\ exec (L := example_sqlite) (C := example_scheme) Ev_resume c = None
  | None => False
  end.
Proof. by vm_compute. Qed.
