(* ===== verification/Requests.v ===== *)
(** * Requests: calls from other threads

    [osi_send_request] and [send_request_async_cb] of osi.c: a thread that is not the Scheme
    thread hands a procedure to the event loop and waits until it has run.  One slot,
    [g_send_request], a mutex, a condition variable for the threads that wait for their turn
    and one, on the stack of the sender, for the thread whose request is in the slot.

    The threads run the requests of a list one after the other, as the test library
    test-request.c does.  A step of a thread is what it does between two points where it can be
    delayed: taking the mutex, or waiting for a condition variable. *)

From S2P Require Export Errors.

Section sending_requests.
(** What a [payload] points to. *)
Context {P : Type}.

(** A request: the procedure, [None] for a null pointer, and its argument. *)
Record req := mkReq { code : option positive; payload : P }.

(** Where a thread is in [osi_send_request]: before it, holding the mutex at the head of the
    first loop, waiting for its turn, woken from that wait, holding the mutex at the head of the
    second loop, waiting for the result, woken from that wait. *)
Inductive sender_pc :=
| Outside
| Choosing (r : req)
| Queued (r : req)
| Called (r : req)
| Posted (r : req)
| Expecting (r : req)
| Resumed (r : req).

(** A thread: where it is, the requests it still has to make, the results of the finished ones,
    the newest first. *)
Record thread := mkThread { pc : sender_pc; todo : list req; results : list Z }.

(** [g_send_request] and the threads.  [async_pending]: the handle has been triggered and its
    callback has not started.  [ran]: the calls of procedures, newest first, with the thread
    that asked for them. *)
Record sending := mkSending {
  mutex_owner : option nat;
  slot : option req;
  sender : option nat;
  async_pending : bool;
  threads : list thread;
  ran : list (nat * req)
}.

Section requests.
(** [g_scheme_thread], which may not send requests; whether [uv_async_send] never fails. *)
Variables (scheme_thread : nat) (reliable : bool).

Definition set_thread (i : nat) (t : thread) (s : sending) : sending :=
  mkSending (mutex_owner s) (slot s) (sender s) (async_pending s) (<[i := t]> (threads s)) (ran s).
Definition set_owner (o : option nat) (s : sending) : sending :=
  mkSending o (slot s) (sender s) (async_pending s) (threads s) (ran s).

Definition at_pc (p : sender_pc) (t : thread) : thread := mkThread p (todo t) (results t).
(** The end of a call. *)
Definition returns (rc : Z) (t : thread) : thread := mkThread Outside (todo t) (rc :: results t).

(** [uv_cond_signal] on [g_send_request.cond]: one of the waiting threads, if there is one,
    is woken; which one is up to the system ([wake]). *)
Definition is_queued (t : thread) : bool := match pc t with Queued _ => true | _ => false end.
Definition wake_queued (t : thread) : thread :=
  match pc t with Queued r => at_pc (Called r) t | _ => t end.
Definition signal_cond (wake : nat) (s : sending) : sending :=
  mkSending (mutex_owner s) (slot s) (sender s) (async_pending s)
    (alter wake_queued wake (threads s)) (ran s).
(** The choices the system has. *)
Definition can_wake (wake : nat) (s : sending) : bool :=
  negb (existsb is_queued (threads s)) || default false (is_queued <$> threads s !! wake).
(** [uv_cond_signal] on the condition variable of the sender. *)
Definition wake_sender (t : thread) : thread :=
  match pc t with Expecting r => at_pc (Resumed r) t | _ => t end.

(** One step of thread [i]; [rc] is the result of [uv_async_send], [wake] the thread a signal
    of [cond] wakes.  [None]: the thread has finished or must wait. *)
Definition thread_step (i : nat) (rc : Z) (wake : nat) (s : sending) : option sending :=
  t ← threads s !! i;
  match pc t with
  | Outside =>
    match todo t with
    | [] => None
    | r :: todo =>
      let t := mkThread Outside todo (results t) in
      match code r with
      | None => Some (set_thread i (returns UV_EINVAL t) s)
      | Some _ =>
        if (i =? scheme_thread)%nat then Some (set_thread i (returns UV_EPERM t) s) else
        match mutex_owner s with
        | Some _ => None
        | None => Some (set_owner (Some i) (set_thread i (at_pc (Choosing r) t) s))
        end
      end
    end
  | Called r =>
    match mutex_owner s with
    | Some _ => None
    | None => Some (set_owner (Some i) (set_thread i (at_pc (Choosing r) t) s))
    end
  | Choosing r =>
    match sender s with
    | Some _ => Some (set_owner None (set_thread i (at_pc (Queued r) t) s))
    | None =>
      if negb (rc =? 0) then Some (set_owner None (set_thread i (returns rc t) s))
      else Some (mkSending (mutex_owner s) (Some r) (Some i) true
        (<[i := at_pc (Posted r) t]> (threads s)) (ran s))
    end
  | Resumed r =>
    match mutex_owner s with
    | Some _ => None
    | None => Some (set_owner (Some i) (set_thread i (at_pc (Posted r) t) s))
    end
  | Posted r =>
    if bool_decide (sender s = Some i)
    then Some (set_owner None (set_thread i (at_pc (Expecting r) t) s))
    else if can_wake wake s then Some (signal_cond wake (set_owner None (set_thread i (returns 0 t) s)))
    else None
  | Queued _ | Expecting _ => None
  end.

(** [uv_cond_wait] returns for no reason. *)
Definition spurious_wakeup (i : nat) (s : sending) : option sending :=
  t ← threads s !! i;
  match pc t with
  | Queued r => Some (set_thread i (at_pc (Called r) t) s)
  | Expecting r => Some (set_thread i (at_pc (Resumed r) t) s)
  | _ => None
  end.

(** [send_request_async_cb] holds the mutex from its start to its end.  Calling a null
    procedure has no defined behaviour. *)
Definition send_request_async_cb (s : sending) : option sending :=
  match mutex_owner s with
  | Some _ => None
  | None =>
    r ← slot s;
    i ← sender s;
    Some (mkSending None None None false (alter wake_sender i (threads s)) ((i, r) :: ran s))
  end.

(** The event loop runs the callback of the triggered handle. *)
Definition loop_step (s : sending) : option sending :=
  if async_pending s then send_request_async_cb s else None.

(** ** Runs *)

Inductive event :=
| Thread (i : nat) (rc : Z) (wake : nat)
| Loop
| Spurious (i : nat).

Definition exec (e : event) (s : sending) : option sending :=
  match e with
  | Thread i rc wake => thread_step i rc wake s
  | Loop => loop_step s
  | Spurious i => spurious_wakeup i s
  end.

Fixpoint run (es : list event) (s : sending) : option sending :=
  match es with [] => Some s | e :: es => s ← exec e s; run es s end.

(** Thread [i] makes the requests of the list [i]. *)
Definition start (programs : list (list req)) : sending :=
  mkSending None None None false (map (fun l => mkThread Outside l []) programs) [].

(** The result a request has when [uv_async_send] does not fail. *)
Definition answer (i : nat) (r : req) : Z :=
  match code r with
  | None => UV_EINVAL
  | Some _ => if (i =? scheme_thread)%nat then UV_EPERM else 0
  end.

(** The requests of thread [i] that ran, oldest first. *)
Definition ran_by (i : nat) (s : sending) : list req :=
  rev (map snd (filter (fun p => p.1 = i) (ran s))).

(** ** The invariant *)

(** The request a thread is busy with. *)
Definition current (t : thread) : list req :=
  match pc t with
  | Outside => []
  | Choosing r | Queued r | Called r | Posted r | Expecting r | Resumed r => [r]
  end.
Definition posting (t : thread) : bool :=
  match pc t with Posted _ | Expecting _ | Resumed _ => true | _ => false end.
Definition holds_mutex (t : thread) : bool :=
  match pc t with Choosing _ | Posted _ => true | _ => false end.

(** It will signal [cond], or put its request in the slot. *)
Definition active (t : thread) : bool :=
  match pc t with Choosing _ | Called _ | Posted _ | Resumed _ => true | _ => false end.

(** The requests, of those with their results, that have run. *)
Definition all_zero (done : list (req * Z)) : list req := (filter (fun p => p.2 = 0) done).*1.

(** What is so of thread [i] with program [program]; [own]: it owns the mutex, [sending]: its
    request is in the slot [sl]; [l]: its requests that ran. *)
Record thread_ok (own sending : bool) (sl : option req) (l : list req) (i : nat) (t : thread)
    (program : list req) : Prop := {
  ok_mutex : holds_mutex t = own;
  ok_sending : sending = true -> posting t = true /\ exists r, sl = Some r /\ current t = [r];
  ok_expecting r : pc t = Expecting r -> sending = true;
  ok_current r : r ∈ current t -> answer i r = 0;
  ok_accounts : exists done, results t = rev (done.*2) /\ program = done.*1 ++ current t ++ todo t /\
    l = all_zero done ++ (if posting t && negb sending then current t else []) /\
    forall r rc, (r, rc) ∈ done -> reliable = true \/ answer i r <> 0 -> rc = answer i r
}.

Definition owns (s : sending) (i : nat) : bool := bool_decide (mutex_owner s = Some i).
Definition sends (s : sending) (i : nat) : bool := bool_decide (sender s = Some i).

Record consistent (programs : list (list req)) (s : sending) : Prop := {
  cs_threads i t program : threads s !! i = Some t -> programs !! i = Some program ->
    thread_ok (owns s i) (sends s i) (slot s) (ran_by i s) i t program;
  cs_owner i : mutex_owner s = Some i -> (i < length (threads s))%nat;
  cs_sender i : sender s = Some i -> (i < length (threads s))%nat;
  cs_pending : async_pending s = bool_decide (sender s <> None);
  cs_length : length (threads s) = length programs
}.

Lemma start_consistent programs : consistent programs (start programs).
Proof.
  split; cbn; try done; [|by rewrite length_map].
  intros i t program Ht Hp. rewrite list_lookup_fmap, Hp in Ht. injection Ht as <-.
  split; try done; [by intros r ?%elem_of_nil|]. exists []. repeat (split; [done|]).
  by intros r rc ?%elem_of_nil.
Qed.

(** A step that changes thread [i] and the shared fields only as far as it is concerned. *)
Lemma consistent_thread programs s s' i t t' :
  consistent programs s -> threads s !! i = Some t ->
  threads s' = <[i := t']> (threads s) ->
  (forall j, j <> i -> owns s' j = owns s j /\ sends s' j = sends s j) ->
  (slot s' = slot s \/ forall j, sends s j = false) ->
  (forall j, ran_by j s' = ran_by j s) ->
  (forall j, mutex_owner s' = Some j -> j = i \/ mutex_owner s = Some j) ->
  (forall j, sender s' = Some j -> j = i \/ sender s = Some j) ->
  async_pending s' = bool_decide (sender s' <> None) ->
  (forall program, programs !! i = Some program ->
    thread_ok (owns s i) (sends s i) (slot s) (ran_by i s) i t program ->
    thread_ok (owns s' i) (sends s' i) (slot s') (ran_by i s) i t' program) ->
  consistent programs s'.
Proof.
  intros [C1 C2 C3 C4 C5] Ht Hth Hj Hslot Hran Ho Hs Hp Hok.
  assert (Hi : (i < length (threads s))%nat) by (by eapply lookup_lt_Some).
  split.
  - intros j u program. rewrite Hth, Hran. intros [(<- & <- & _)|[Hne Hu]]%list_lookup_insert_Some Hpr.
    + by apply Hok, C1.
    + destruct (Hj j) as [-> ->]; [done|]. destruct Hslot as [->|Hnone]; [by apply C1|].
      destruct (C1 j u program Hu Hpr) as [? ? ? ? ?]. rewrite Hnone in *. by split.
  - intros j Hj'. rewrite Hth, length_insert. destruct (Ho j Hj') as [->|]; [done|by apply C2].
  - intros j Hj'. rewrite Hth, length_insert. destruct (Hs j Hj') as [->|]; [done|by apply C3].
  - done.
  - by rewrite Hth, length_insert.
Qed.

(** *** What each step does to its thread *)

Lemma all_zero_snoc done r rc : all_zero (done ++ [(r, rc)]) = all_zero done ++ (if rc =? 0 then [r] else []).
Proof.
  unfold all_zero. rewrite filter_app, fmap_app. f_equal. rewrite filter_cons, filter_nil. cbn.
  destruct (Z.eqb_spec rc 0); by case_decide.
Qed.

(** A call ends: the thread had not posted its request, or it has run. *)
Lemma ok_returns own sl l i t program r rc :
  thread_ok own false sl l i t program -> current t = [r] ->
  (posting t = true -> rc = 0) -> (posting t = false -> rc <> 0) ->
  (reliable = true \/ answer i r <> 0 -> rc = answer i r) ->
  thread_ok false false sl l i (returns rc t) program.
Proof.
  intros [H1 H2 H3 H4 (done & Hres & Hprog & Hl & Hans)] Hcur Hp Hnp Hrc. split; try done.
  - by intros r' ?%elem_of_nil.
  - exists (done ++ [(r, rc)]). rewrite !fmap_app, rev_app_distr. cbn. rewrite Hres.
    split; [done|]. split; [by rewrite Hprog, Hcur, <- app_assoc|]. split.
    + rewrite app_nil_r, all_zero_snoc, Hl, Hcur, andb_true_r. destruct (posting t).
      * by rewrite Hp.
      * destruct (Z.eqb_spec rc 0); [by destruct Hnp|done].
    + intros r' rc' [Hin|Hin]%elem_of_app; [by apply Hans|].
      apply list_elem_of_singleton in Hin. by injection Hin as -> ->.
Qed.

(** A thread moves within a call. *)
Lemma ok_moves own sending sl l i t program own' sending' sl' p :
  thread_ok own sending sl l i t program -> current (at_pc p t) = current t ->
  holds_mutex (at_pc p t) = own' ->
  (sending' = true -> posting (at_pc p t) = true /\ exists r, sl' = Some r /\ current t = [r]) ->
  (forall r, p = Expecting r -> sending' = true) ->
  posting (at_pc p t) && negb sending' = posting t && negb sending ->
  thread_ok own' sending' sl' l i (at_pc p t) program.
Proof.
  intros [H1 H2 H3 H4 (done & Hres & Hprog & Hl & Hans)] Hcur Ho Hs He Hpost.
  split; [done|by rewrite Hcur| |by rewrite Hcur|].
  - by intros r ?%He.
  - exists done. by rewrite Hcur, Hpost.
Qed.

(** A call starts. *)
Lemma ok_starts own sl l i r todo results program :
  thread_ok own false sl l i (mkThread Outside (r :: todo) results) program ->
  (answer i r = 0 -> thread_ok true false sl l i (mkThread (Choosing r) todo results) program) /\
  (answer i r <> 0 -> thread_ok false false sl l i (returns (answer i r) (mkThread Outside todo results)) program).
Proof.
  intros [H1 H2 H3 H4 (done & Hres & Hprog & Hl & Hans)]. split; intros Ha.
  - split; try done; [by intros r' ->%list_elem_of_singleton|]. by exists done.
  - split; try done. exists (done ++ [(r, answer i r)]).
    rewrite !fmap_app, rev_app_distr. cbn in *. rewrite Hres. split; [done|].
    split; [by rewrite Hprog, <- app_assoc|]. split.
    + rewrite all_zero_snoc, Hl. destruct (Z.eqb_spec (answer i r) 0); [done|by rewrite !app_nil_r].
    + intros r' rc' [Hin|Hin]%elem_of_app; [by apply Hans|].
      apply list_elem_of_singleton in Hin. by injection Hin as -> ->.
Qed.

Lemma owns_other s i j : mutex_owner s = Some i \/ mutex_owner s = None -> j <> i -> owns s j = false.
Proof. unfold owns. intros [-> | ->] Hne; apply bool_decide_eq_false_2; congruence. Qed.
Lemma owns_self s i : mutex_owner s = Some i -> owns s i = true.
Proof. intros H. by apply bool_decide_eq_true_2. Qed.
Lemma owns_none s i : mutex_owner s = None -> owns s i = false.
Proof. intros H. apply bool_decide_eq_false_2. by rewrite H. Qed.
Lemma sends_none s i : sender s = None -> sends s i = false.
Proof. intros H. apply bool_decide_eq_false_2. by rewrite H. Qed.

(** Signalling wakes a thread, which changes nothing else. *)
Lemma lookup_alter_inv {A} (f : A -> A) (l : list A) i j u : alter f i l !! j = Some u ->
  exists t, l !! j = Some t /\ (u = t \/ (j = i /\ u = f t)).
Proof.
  rewrite list_lookup_alter. case_decide as Hij; [|by eauto].
  intros (t & Ht & ->)%fmap_Some. subst j. exists t. auto.
Qed.

Lemma wake_queued_ok own sending sl l i t program :
  thread_ok own sending sl l i t program -> thread_ok own sending sl l i (wake_queued t) program.
Proof.
  intros H. unfold wake_queued. destruct (pc t) eqn:Hpc; try done.
  pose proof (ok_mutex _ _ _ _ _ _ _ H) as Hm. unfold holds_mutex in Hm. rewrite Hpc in Hm.
  eapply ok_moves; [exact H|unfold current; by rewrite Hpc|done| |done|].
  - intros Hs. destruct (ok_sending _ _ _ _ _ _ _ H Hs) as [Hp _]. unfold posting in Hp. by rewrite Hpc in Hp.
  - unfold posting. by rewrite Hpc.
Qed.

Lemma sending_signal programs wake s : consistent programs s -> consistent programs (signal_cond wake s).
Proof.
  intros [C1 C2 C3 C4 C5]. split; cbn; try done.
  - intros j u program Hu Hpr. apply lookup_alter_inv in Hu as (t & Ht & [->|[_ ->]]).
    + by apply C1.
    + by apply wake_queued_ok, C1.
  - intros j Hj. rewrite length_alter. by apply C2.
  - intros j Hj. rewrite length_alter. by apply C3.
  - by rewrite length_alter.
Qed.

(** *** Every step keeps the invariant *)

Lemma start_of s i t program programs : consistent programs s -> threads s !! i = Some t ->
  programs !! i = Some program ->
  thread_ok (owns s i) (sends s i) (slot s) (ran_by i s) i t program.
Proof. intros C Ht Hp. by apply (cs_threads _ _ C). Qed.

Lemma program_of programs s i t : consistent programs s -> threads s !! i = Some t ->
  exists program, programs !! i = Some program.
Proof.
  intros C Ht. apply lookup_lt_is_Some_2. rewrite <- (cs_length _ _ C). by eapply lookup_lt_Some.
Qed.

Lemma not_sending programs s i t : consistent programs s -> threads s !! i = Some t ->
  posting t = false -> sends s i = false.
Proof.
  intros C Ht Hp. destruct (program_of _ _ _ _ C Ht) as [program Hpr].
  pose proof (ok_sending _ _ _ _ _ _ _ (cs_threads _ _ C _ _ _ Ht Hpr)) as H.
  destruct (sends s i); [|done]. by destruct (H eq_refl) as [? _]; congruence.
Qed.

Lemma owner_of programs s i t : consistent programs s -> threads s !! i = Some t ->
  holds_mutex t = true -> mutex_owner s = Some i.
Proof.
  intros C Ht Hm. destruct (program_of _ _ _ _ C Ht) as [program Hpr].
  pose proof (ok_mutex _ _ _ _ _ _ _ (cs_threads _ _ C _ _ _ Ht Hpr)) as H.
  rewrite Hm in H. symmetry in H. by apply bool_decide_eq_true_1 in H.
Qed.

Lemma consistent_moves programs s i t t' o :
  consistent programs s -> threads s !! i = Some t ->
  mutex_owner s = None \/ mutex_owner s = Some i -> o = None \/ o = Some i ->
  (forall program, programs !! i = Some program ->
    thread_ok (owns s i) (sends s i) (slot s) (ran_by i s) i t program ->
    thread_ok (bool_decide (o = Some i)) (sends s i) (slot s) (ran_by i s) i t' program) ->
  consistent programs (set_owner o (set_thread i t' s)).
Proof.
  intros C Ht Hs Ho Hok. eapply (consistent_thread programs s _ i t t'); try done; cbn.
  - intros j Hne. split; [|done]. unfold owns. cbn. apply bool_decide_ext.
    destruct Hs as [-> | ->], Ho as [-> | ->]; naive_solver.
  - by left.
  - intros j ->. destruct Ho; naive_solver.
  - by right.
  - apply (cs_pending _ _ C).
Qed.

Lemma consistent_keeps programs s i t t' :
  consistent programs s -> threads s !! i = Some t ->
  (forall program, programs !! i = Some program ->
    thread_ok (owns s i) (sends s i) (slot s) (ran_by i s) i t program ->
    thread_ok (owns s i) (sends s i) (slot s) (ran_by i s) i t' program) ->
  consistent programs (set_thread i t' s).
Proof.
  intros C Ht Hok. eapply (consistent_thread programs s _ i t t'); try done; cbn; auto.
  apply (cs_pending _ _ C).
Qed.

(** The step with which a thread moves on within its call. *)
Ltac moves_within Hpc :=
  eapply ok_moves; [eassumption|unfold current; by rewrite Hpc|..]; unfold posting, holds_mutex; cbn;
    rewrite ?Hpc; try done.

Lemma consistent_outside programs s i t s' rc wake : consistent programs s -> threads s !! i = Some t ->
  pc t = Outside -> thread_step i rc wake s = Some s' -> consistent programs s'.
Proof.
  intros C Ht Hpc He. unfold thread_step in He. rewrite Ht in He. cbn in He. rewrite Hpc in He.
  destruct (todo t) as [|r todo'] eqn:Htodo; [done|].
  assert (Et : t = mkThread Outside (r :: todo') (results t)) by (destruct t; cbn in *; congruence).
  assert (Hsend : sends s i = false).
  { eapply not_sending; [exact C|exact Ht|]. unfold posting. by rewrite Hpc. }
  assert (Hrefused : answer i r <> 0 -> consistent programs
    (set_thread i (returns (answer i r) (mkThread Outside todo' (results t))) s)).
  { intros Ha. eapply consistent_keeps; [done|exact Ht|]. intros program _ Hok. rewrite Hsend in *.
    rewrite Et in Hok. assert (Hown : owns s i = false) by (symmetry; apply Hok). rewrite Hown in *.
    by eapply ok_starts. }
  destruct (code r) eqn:Hcode; [destruct (i =? scheme_thread)%nat eqn:Hsch; [|
    destruct (mutex_owner s) eqn:Ho; [done|]]|]; injection He as <-.
  - replace UV_EPERM with (answer i r) by (unfold answer; by rewrite Hcode, Hsch).
    apply Hrefused. unfold answer. by rewrite Hcode, Hsch.
  - eapply consistent_moves; [done|exact Ht|by left|by right|]. intros program _ Hok. rewrite Hsend in *.
    rewrite bool_decide_eq_true_2 by done. rewrite Et in Hok. eapply ok_starts; [exact Hok|].
    unfold answer. by rewrite Hcode, Hsch.
  - replace UV_EINVAL with (answer i r) by (unfold answer; by rewrite Hcode).
    apply Hrefused. unfold answer. by rewrite Hcode.
Qed.

Lemma consistent_choosing programs s i t r s' rc wake : (reliable = true -> rc = 0) ->
  consistent programs s -> threads s !! i = Some t ->
  pc t = Choosing r -> thread_step i rc wake s = Some s' -> consistent programs s'.
Proof.
  intros Hrel C Ht Hpc He. unfold thread_step in He. rewrite Ht in He. cbn in He. rewrite Hpc in He.
  assert (Ho : mutex_owner s = Some i).
  { eapply owner_of; [exact C|exact Ht|]. unfold holds_mutex. by rewrite Hpc. }
  assert (Hsend : sends s i = false).
  { eapply not_sending; [exact C|exact Ht|]. unfold posting. by rewrite Hpc. }
  assert (Hcur : current t = [r]) by (unfold current; by rewrite Hpc).
  destruct (sender s) as [k|] eqn:Hs; [|destruct (Z.eqb_spec rc 0); cbn [negb] in He]; injection He as <-.
  - eapply consistent_moves; [done|exact Ht|by right|by left|]. intros program _ Hok.
    rewrite Hsend in *. rewrite bool_decide_eq_false_2 by done. moves_within Hpc.
  - eapply (consistent_thread programs s _ i t (at_pc (Posted r) t)); try done; cbn.
    + intros j Hne. split; [done|]. unfold sends. cbn. rewrite Hs.
      by rewrite !bool_decide_eq_false_2 by congruence.
    + right. intros j. by apply sends_none.
    + intros j Hj. by right.
    + intros j [= ->]. by left.
    + intros program _ Hok. unfold owns, sends in *. cbn. rewrite Hs in *.
      rewrite (bool_decide_eq_true_2 (Some i = Some i)) by done. rewrite Ho. moves_within Hpc.
      * by rewrite bool_decide_eq_true_2.
      * intros _. split; [done|]. by exists r.
  - eapply consistent_moves; [done|exact Ht|by right|by left|]. intros program _ Hok.
    rewrite Hsend in *. rewrite bool_decide_eq_false_2 by done.
    assert (Hans : answer i r = 0) by (apply (ok_current _ _ _ _ _ _ _ Hok); rewrite Hcur; by apply list_elem_of_singleton).
    eapply ok_returns; [exact Hok|exact Hcur|..]; unfold posting; rewrite ?Hpc; try done.
    intros [Hr|Hr]; [by destruct (n (Hrel Hr))|done].
Qed.

Lemma consistent_posted programs s i t r s' rc wake :
  consistent programs s -> threads s !! i = Some t ->
  pc t = Posted r -> thread_step i rc wake s = Some s' -> consistent programs s'.
Proof.
  intros C Ht Hpc He. unfold thread_step in He. rewrite Ht in He. cbn in He. rewrite Hpc in He.
  assert (Ho : mutex_owner s = Some i).
  { eapply owner_of; [exact C|exact Ht|]. unfold holds_mutex. by rewrite Hpc. }
  assert (Hcur : current t = [r]) by (unfold current; by rewrite Hpc).
  case_bool_decide as Hs.
  - injection He as <-. assert (Hsend : sends s i = true) by (by apply bool_decide_eq_true_2).
    eapply consistent_moves; [done|exact Ht|by right|by left|]. intros program _ Hok.
    rewrite Hsend in *. rewrite bool_decide_eq_false_2 by done. moves_within Hpc.
    intros _. split; [done|]. by apply (ok_sending _ _ _ _ _ _ _ Hok).
  - destruct (can_wake wake s); [|done]. injection He as <-. apply sending_signal.
    assert (Hsend : sends s i = false) by (by apply bool_decide_eq_false_2).
    eapply consistent_moves; [done|exact Ht|by right|by left|]. intros program _ Hok.
    rewrite Hsend in *. rewrite bool_decide_eq_false_2 by done.
    assert (Hans : answer i r = 0) by (apply (ok_current _ _ _ _ _ _ _ Hok); rewrite Hcur; by apply list_elem_of_singleton).
    eapply ok_returns; [exact Hok|exact Hcur|..]; unfold posting; rewrite ?Hpc; done.
Qed.

Lemma consistent_relock programs s i t r s' rc wake :
  consistent programs s -> threads s !! i = Some t ->
  pc t = Called r \/ pc t = Resumed r -> thread_step i rc wake s = Some s' -> consistent programs s'.
Proof.
  intros C Ht [Hpc|Hpc] He; unfold thread_step in He; rewrite Ht in He; cbn in He; rewrite Hpc in He;
    (destruct (mutex_owner s) eqn:Ho; [done|]); injection He as <-;
    (eapply consistent_moves; [done|exact Ht|by left|by right|]); intros program _ Hok;
    rewrite bool_decide_eq_true_2 by done.
  - assert (Hsend : sends s i = false).
    { eapply not_sending; [exact C|exact Ht|]. unfold posting. by rewrite Hpc. }
    rewrite Hsend in *. moves_within Hpc.
  - moves_within Hpc. intros Hs. split; [done|]. by apply (ok_sending _ _ _ _ _ _ _ Hok).
Qed.

Lemma sending_spurious programs s i s' :
  consistent programs s -> spurious_wakeup i s = Some s' -> consistent programs s'.
Proof.
  intros C He. unfold spurious_wakeup in He. apply option.bind_Some in He as (t & Ht & He).
  destruct (pc t) eqn:Hpc; try done; injection He as <-;
    (eapply consistent_keeps; [done|exact Ht|]); intros program _ Hok;
    pose proof (ok_mutex _ _ _ _ _ _ _ Hok) as Hm; unfold holds_mutex in Hm; rewrite Hpc in Hm;
    moves_within Hpc.
  - intros Hs. destruct (ok_sending _ _ _ _ _ _ _ Hok Hs) as [Hp _]. unfold posting in Hp. by rewrite Hpc in Hp.
  - intros Hs. split; [done|]. by apply (ok_sending _ _ _ _ _ _ _ Hok).
Qed.

(** The callback: the request in the slot has run. *)
Lemma ran_by_cons i j r s s' : ran s' = (i, r) :: ran s ->
  ran_by j s' = ran_by j s ++ (if (j =? i)%nat then [r] else []).
Proof.
  unfold ran_by. intros ->. rewrite filter_cons. cbn. destruct (Nat.eqb_spec j i).
  - rewrite decide_True by done. done.
  - rewrite decide_False by done. by rewrite app_nil_r.
Qed.

Lemma wake_sender_ok own sl l i t program r : current t = [r] -> posting t = true ->
  thread_ok own true sl l i t program -> own = false ->
  thread_ok own false None (l ++ [r]) i (wake_sender t) program.
Proof.
  intros Hcur Hp [H1 H2 H3 H4 (done & Hres & Hprog & Hl & Hans)] ->.
  assert (E : current (wake_sender t) = [r] /\ posting (wake_sender t) = true /\
    todo (wake_sender t) = todo t /\ results (wake_sender t) = results t /\
    holds_mutex (wake_sender t) = false /\ forall r', pc (wake_sender t) <> Expecting r').
  { unfold wake_sender, current, posting, holds_mutex in *. destruct (pc t) eqn:Hpc; try done; cbn;
      rewrite ?Hpc in *; repeat (split; [done|]); try done; intros r' Hr'; cbn in Hr'; congruence. }
  destruct E as (E1 & E2 & E3 & E4 & E5 & E6). split; try done.
  - by intros r' ?%E6.
  - rewrite E1. rewrite Hcur in H4. done.
  - exists done. rewrite E1, E2, E3, E4. rewrite Hcur in *. split; [done|]. split; [done|]. split; [|done].
    rewrite Hl, Hp. cbn. by rewrite app_nil_r.
Qed.

Lemma consistent_callback programs s s' :
  consistent programs s -> loop_step s = Some s' -> consistent programs s'.
Proof.
  intros C He. unfold loop_step in He. destruct (async_pending s); [|done].
  unfold send_request_async_cb in He. destruct (mutex_owner s) eqn:Ho; [done|].
  apply option.bind_Some in He as (r & Hslot & He). apply option.bind_Some in He as (i & Hs & He).
  injection He as <-. split; cbn [threads mutex_owner sender async_pending]; try done.
  - intros j u program Hu Hpr. rewrite (ran_by_cons i j r s) by done. cbn [slot].
    rewrite (owns_none _ j), (sends_none _ j) by done.
    rewrite list_lookup_alter in Hu. destruct (Nat.eqb_spec j i) as [->|Hne].
    + rewrite decide_True in Hu by done. apply fmap_Some in Hu as (t & Ht & ->).
      pose proof (cs_threads _ _ C _ _ _ Ht Hpr) as Hok. rewrite (owns_none s i Ho) in Hok.
      assert (Hsend : sends s i = true) by (by apply bool_decide_eq_true_2). rewrite Hsend in Hok.
      destruct (ok_sending _ _ _ _ _ _ _ Hok eq_refl) as (Hp & r' & Hr' & Hcur).
      rewrite Hslot in Hr'. injection Hr' as <-. by eapply wake_sender_ok.
    + rewrite decide_False in Hu by done. pose proof (cs_threads _ _ C _ _ _ Hu Hpr) as Hok.
      assert (Hsend : sends s j = false) by (apply bool_decide_eq_false_2; congruence).
      rewrite (owns_none s j Ho), Hsend in Hok. rewrite app_nil_r. destruct Hok. by split.
  - rewrite length_alter. apply (cs_length _ _ C).
Qed.

Lemma sending_exec programs e s s' : (reliable = true -> match e with Thread _ rc _ => rc = 0 | _ => True end) ->
  consistent programs s -> exec e s = Some s' -> consistent programs s'.
Proof.
  intros Hrel C He. destruct e as [i rc wake| |i]; cbn [exec] in He.
  - pose proof He as He'. unfold thread_step in He'. apply option.bind_Some in He' as (t & Ht & He').
    destruct (pc t) eqn:Hpc; try done.
    + by eapply consistent_outside.
    + by eapply consistent_choosing.
    + eapply consistent_relock; eauto.
    + by eapply consistent_posted.
    + eapply consistent_relock; eauto.
  - by eapply consistent_callback.
  - by eapply sending_spurious.
Qed.

(** *** No thread is left waiting for its turn *)

Definition queue_ok (s : sending) : Prop :=
  existsb is_queued (threads s) = true -> sender s <> None \/ existsb active (threads s) = true.

Lemma existsb_lookup (f : thread -> bool) l :
  existsb f l = true <-> exists i t, l !! i = Some t /\ f t = true.
Proof.
  rewrite existsb_exists. split.
  - intros (t & Hin & Hf). apply list_elem_of_In, list_elem_of_lookup in Hin as [i Hi]. eauto.
  - intros (i & t & Hi & Hf). exists t. split; [|done].
    apply list_elem_of_In, list_elem_of_lookup. eauto.
Qed.

Lemma existsb_insert (f : thread -> bool) l i t : (i < length l)%nat -> f t = true ->
  existsb f (<[i := t]> l) = true.
Proof. intros Hi Hf. apply existsb_lookup. exists i, t. by rewrite list_lookup_insert_eq. Qed.

(** A thread that is neither queued nor active before nor after. *)
Lemma queue_ok_keeps s s' i t t' : queue_ok s -> threads s !! i = Some t ->
  threads s' = <[i := t']> (threads s) -> sender s' = sender s ->
  active t = false -> is_queued t' = false -> queue_ok s'.
Proof.
  intros HQ Ht Hth Hs Ha Hq H. rewrite Hs, Hth in *.
  apply existsb_lookup in H as (j & u & Hu & Hf).
  apply list_lookup_insert_Some in Hu as [(<- & <- & _)|[Hne Hu]]; [by rewrite Hq in Hf|].
  destruct HQ as [?|HQ]; [apply existsb_lookup; by exists j, u|by left|]. right.
  apply existsb_lookup in HQ as (k & v & Hv & Hk). apply existsb_lookup. exists k, v.
  split; [|done]. rewrite list_lookup_insert_ne; [done|]. intros ->. congruence.
Qed.

Lemma queue_ok_active s s' i t' : (i < length (threads s))%nat ->
  threads s' = <[i := t']> (threads s) -> active t' = true -> queue_ok s'.
Proof. intros Hi Hth Ha _. right. rewrite Hth. by apply existsb_insert. Qed.

Lemma queue_ok_sender s : sender s <> None -> queue_ok s.
Proof. intros H _. by left. Qed.

Lemma queue_ok_signal wake s : can_wake wake s = true -> queue_ok (signal_cond wake s).
Proof.
  unfold can_wake. intros [Hn|Hw]%orb_true_iff Hq; cbn in Hq |- *.
  - exfalso. apply Bool.negb_true_iff in Hn. apply existsb_lookup in Hq as (j & u & Hu & Hf).
    apply lookup_alter_inv in Hu as (t & Ht & Hu).
    assert (Hqt : is_queued t = true).
    { destruct Hu as [->|[_ ->]]; [done|]. unfold wake_queued, is_queued in *.
      destruct (pc t) eqn:E; cbn in *; rewrite ?E in *; done. }
    assert (existsb is_queued (threads s) = true) by (apply existsb_lookup; by exists j, t). congruence.
  - right. destruct (threads s !! wake) as [t|] eqn:Ht; [|done]. cbn in Hw.
    apply existsb_lookup. exists wake, (wake_queued t). rewrite list_lookup_alter, decide_True, Ht by done.
    split; [done|]. unfold wake_queued, is_queued in *. by destruct (pc t).
Qed.

Lemma can_wake_other wake s i t t' o : can_wake wake s = true -> threads s !! i = Some t ->
  is_queued t = false -> is_queued t' = false -> can_wake wake (set_owner o (set_thread i t' s)) = true.
Proof.
  unfold can_wake. cbn. intros [Hn|Hw]%orb_true_iff Ht Hq Hq'; apply orb_true_iff.
  - left. apply Bool.negb_true_iff in Hn. apply Bool.negb_true_iff.
    destruct (existsb is_queued (<[i:=t']> (threads s))) eqn:E; [|done].
    apply existsb_lookup in E as (j & u & Hu & Hf).
    apply list_lookup_insert_Some in Hu as [(<- & <- & _)|[Hne Hu]]; [congruence|].
    assert (existsb is_queued (threads s) = true) by (apply existsb_lookup; by exists j, u). congruence.
  - right. destruct (decide (i = wake)) as [->|Hne]; [rewrite Ht in Hw; cbn in Hw; congruence|].
    by rewrite list_lookup_insert_ne.
Qed.

(** The thread whose request is in the slot can be woken. *)
Lemma sender_active programs s i : consistent programs s -> mutex_owner s = None -> sender s = Some i ->
  exists t, threads s !! i = Some t /\ active (wake_sender t) = true /\ posting t = true.
Proof.
  intros C Ho Hs. destruct (lookup_lt_is_Some_2 _ _ (cs_sender _ _ C i Hs)) as [t Ht].
  destruct (program_of _ _ _ _ C Ht) as [program Hpr]. exists t. split; [done|].
  pose proof (cs_threads _ _ C _ _ _ Ht Hpr) as Hok. rewrite (owns_none s i Ho) in Hok.
  pose proof (ok_mutex _ _ _ _ _ _ _ Hok) as Hm.
  destruct (ok_sending _ _ _ _ _ _ _ Hok) as [Hp _]; [by apply bool_decide_eq_true_2|].
  split; [|done].
  unfold holds_mutex, posting, wake_sender, active in *. destruct (pc t) eqn:Hpc; try done; cbn; by rewrite ?Hpc.
Qed.

Lemma queue_ok_exec programs e s s' : reliable = true ->
  match e with Thread _ rc _ => rc = 0 | _ => True end ->
  consistent programs s -> queue_ok s -> exec e s = Some s' -> queue_ok s'.
Proof.
  intros Hrel Hrc C HQ He. destruct e as [i rc wake| |i]; cbn [exec] in He.
  - unfold thread_step in He. apply option.bind_Some in He as (t & Ht & He).
    assert (Hi : (i < length (threads s))%nat) by (by eapply lookup_lt_Some).
    assert (Hkeep : forall x u, active t = false -> queue_ok (set_thread i (returns x (mkThread Outside u (results t))) s)).
    { intros x u Ha. by eapply queue_ok_keeps. }
    destruct (pc t) as [|r|r|r|r|r|r] eqn:Hpc; try done.
    + assert (Ha : active t = false) by (unfold active; by rewrite Hpc).
      destruct (todo t) as [|r todo']; [done|].
      destruct (code r); [destruct (_ =? _)%nat; [|destruct (mutex_owner s); [done|]]|]; injection He as <-;
        try (by apply Hkeep). by eapply queue_ok_active.
    + destruct (sender s) eqn:Hs; [injection He as <-; apply queue_ok_sender; cbn; congruence|].
      subst rc. injection He as <-. by apply queue_ok_sender.
    + destruct (mutex_owner s); [done|]. injection He as <-. by eapply queue_ok_active.
    + case_bool_decide as Hs; [injection He as <-; apply queue_ok_sender; cbn; congruence|].
      destruct (can_wake wake s) eqn:Hw; [|done]. injection He as <-. apply queue_ok_signal.
      eapply can_wake_other; [done|exact Ht| |done]. unfold is_queued. by rewrite Hpc.
    + destruct (mutex_owner s); [done|]. injection He as <-. by eapply queue_ok_active.
  - unfold loop_step, send_request_async_cb in He. destruct (async_pending s); [|done].
    destruct (mutex_owner s) eqn:Ho; [done|].
    apply option.bind_Some in He as (r & Hslot & He). apply option.bind_Some in He as (i & Hs & He).
    injection He as <-. destruct (sender_active _ _ _ C Ho Hs) as (t & Ht & Ha & _).
    right. cbn. apply existsb_lookup. exists i, (wake_sender t).
    by rewrite list_lookup_alter, decide_True, Ht.
  - unfold spurious_wakeup in He. apply option.bind_Some in He as (t & Ht & He).
    assert (Hi : (i < length (threads s))%nat) by (by eapply lookup_lt_Some).
    destruct (pc t); try done; injection He as <-; by eapply queue_ok_active.
Qed.

(** *** Progress *)

(** A step that is not a wakeup for no reason; its [uv_async_send] does not fail. *)
Definition genuine (e : event) : bool :=
  match e with Thread _ rc _ => rc =? 0 | Loop => true | Spurious _ => false end.

Definition can_go (s : sending) : Prop := exists e s', genuine e = true /\ exec e s = Some s'.

Lemma owner_can_go programs s i : consistent programs s -> mutex_owner s = Some i -> can_go s.
Proof.
  intros C Ho. destruct (lookup_lt_is_Some_2 _ _ (cs_owner _ _ C i Ho)) as [t Ht].
  destruct (program_of _ _ _ _ C Ht) as [program Hpr].
  pose proof (cs_threads _ _ C _ _ _ Ht Hpr) as Hok. rewrite (owns_self s i Ho) in Hok.
  pose proof (ok_mutex _ _ _ _ _ _ _ Hok) as Hm. unfold holds_mutex in Hm.
  assert (Hwake : exists wake, can_wake wake s = true).
  { unfold can_wake. destruct (existsb is_queued (threads s)) eqn:E; [|by exists O].
    apply existsb_lookup in E as (k & u & Hu & Hq). exists k. by rewrite Hu. }
  destruct Hwake as [wake Hw]. destruct (pc t) eqn:Hpc; try done.
  - exists (Thread i 0 0). cbn [exec]. unfold thread_step. rewrite Ht. cbn. rewrite Hpc.
    destruct (sender s); by eexists.
  - exists (Thread i 0 wake). cbn [exec]. unfold thread_step. rewrite Ht. cbn. rewrite Hpc, Hw.
    case_bool_decide; by eexists.
Qed.

Lemma callback_defined programs s : consistent programs s -> async_pending s = true ->
  mutex_owner s = None -> exists s', loop_step s = Some s'.
Proof.
  intros C Hp Ho. unfold loop_step, send_request_async_cb. rewrite Hp, Ho.
  rewrite (cs_pending _ _ C) in Hp. apply bool_decide_eq_true_1 in Hp.
  destruct (sender s) as [i|] eqn:Hs; [|done].
  destruct (sender_active _ _ _ C Ho Hs) as (t & Ht & _).
  destruct (program_of _ _ _ _ C Ht) as [program Hpr].
  pose proof (cs_threads _ _ C _ _ _ Ht Hpr) as Hok.
  destruct (ok_sending _ _ _ _ _ _ _ Hok) as (_ & r & Hr & _); [by apply bool_decide_eq_true_2|].
  rewrite Hr. by eexists.
Qed.

(** A thread that can go on when nobody holds the mutex. *)
Lemma thread_can_go s i t : mutex_owner s = None -> threads s !! i = Some t ->
  match pc t with Outside => todo t <> [] | Called _ | Resumed _ => True | _ => False end -> can_go s.
Proof.
  intros Ho Ht Hpc. exists (Thread i 0 0). cbn [exec]. unfold thread_step. rewrite Ht, Ho. cbn.
  destruct (pc t); try done; try (by eexists).
  destruct (todo t) as [|r l]; [done|]. destruct (code r); [|by eexists].
  destruct (_ =? _)%nat; by eexists.
Qed.

Lemma progress programs s : consistent programs s -> queue_ok s ->
  can_go s \/ forall i t, threads s !! i = Some t -> pc t = Outside /\ todo t = [].
Proof.
  intros C HQ. destruct (mutex_owner s) as [i|] eqn:Ho; [left; by eapply owner_can_go|].
  destruct (async_pending s) eqn:Hp.
  { left. destruct (callback_defined _ _ C Hp Ho) as [s' Hs']. by exists Loop, s'. }
  assert (Hs : sender s = None).
  { rewrite (cs_pending _ _ C) in Hp. apply bool_decide_eq_false_1 in Hp. by destruct (sender s); [destruct Hp|]. }
  assert (Hnot : forall i t, threads s !! i = Some t -> holds_mutex t = false /\ forall r, pc t <> Expecting r).
  { intros i t Ht. destruct (program_of _ _ _ _ C Ht) as [program Hpr].
    pose proof (cs_threads _ _ C _ _ _ Ht Hpr) as Hok. rewrite (owns_none s i Ho), (sends_none s i Hs) in Hok.
    split; [by apply Hok|]. intros r Hr. by pose proof (ok_expecting _ _ _ _ _ _ _ Hok r Hr). }
  destruct (existsb active (threads s)) eqn:Ha.
  { left. apply existsb_lookup in Ha as (i & t & Ht & Ha). destruct (Hnot i t Ht) as [Hm _].
    eapply thread_can_go; [done|exact Ht|]. unfold active, holds_mutex in *. by destruct (pc t). }
  assert (Hq : existsb is_queued (threads s) = false).
  { destruct (existsb is_queued (threads s)) eqn:E; [|done]. by destruct (HQ E); congruence. }
  destruct (existsb (fun t => match pc t, todo t with Outside, _ :: _ => true | _, _ => false end) (threads s)) eqn:Hs'.
  { left. apply existsb_lookup in Hs' as (i & t & Ht & Hf). eapply thread_can_go; [done|exact Ht|].
    by destruct (pc t), (todo t). }
  right. intros i t Ht.
  assert (Hno : forall f, existsb f (threads s) = false -> f t = false).
  { intros f Hf. destruct (f t) eqn:E; [|done]. rewrite <- Hf. symmetry. apply existsb_lookup. eauto. }
  pose proof (Hno _ Ha) as H1. pose proof (Hno _ Hq) as H2. pose proof (Hno _ Hs') as H3.
  destruct (Hnot i t Ht) as [_ H4]. unfold active, is_queued in *.
  destruct (pc t); try done; [by destruct (todo t)|by destruct (H4 r)].
Qed.

(** *** Termination *)

Definition weight (sending : bool) (t : thread) : nat :=
  10 * length (todo t) + match pc t with
  | Outside => 0 | Choosing _ => 8 | Queued _ => 7 | Called _ => 9
  | Posted _ => if sending then 6 else 3
  | Expecting _ => 5
  | Resumed _ => if sending then 7 else 4
  end.

Fixpoint total (who : option nat) (i : nat) (l : list thread) : nat :=
  match l with [] => 0%nat | t :: l => (weight (bool_decide (who = Some i)) t + total who (S i) l)%nat end.

Definition work (s : sending) : nat := total (sender s) 0 (threads s).

Lemma total_same who who' l : forall i, (forall j, (i <= j)%nat -> bool_decide (who = Some j) = bool_decide (who' = Some j)) ->
  total who i l = total who' i l.
Proof.
  induction l as [|t l IH]; intros i Hw; cbn [total]; [done|]. rewrite (Hw i) by lia.
  f_equal. apply IH. intros j Hj. apply Hw. lia.
Qed.

Lemma weights_insert who who' l t t' : forall i k, l !! k = Some t ->
  (forall j, j <> (i + k)%nat -> bool_decide (who = Some j) = bool_decide (who' = Some j)) ->
  (total who' i (<[k := t']> l) + weight (bool_decide (who = Some (i + k)%nat)) t =
   total who i l + weight (bool_decide (who' = Some (i + k)%nat)) t')%nat.
Proof.
  induction l as [|u l IH]; intros i k Hk Hw; [done|]. destruct k as [|k]; cbn [lookup list_lookup] in Hk.
  - injection Hk as ->. rewrite Nat.add_0_r in *. cbn.
    rewrite (total_same who who' l (S i)) by (intros j Hj; apply Hw; lia). lia.
  - change (<[S k := t']> (u :: l)) with (u :: <[k := t']> l). cbn [total]. rewrite (Hw i) by lia.
    specialize (IH (S i) k Hk). rewrite <- Nat.add_succ_comm in Hw |- *.
    specialize (IH Hw). lia.
Qed.

(** One thread moves, and its request may enter the slot. *)
Lemma work_thread s s' i t t' n : threads s !! i = Some t -> threads s' = <[i := t']> (threads s) ->
  (forall j, j <> i -> sends s j = sends s' j) ->
  (weight (sends s' i) t' + n <= weight (sends s i) t)%nat -> (work s' + n <= work s)%nat.
Proof.
  intros Ht Hth Hs Hw. unfold work. rewrite Hth.
  pose proof (weights_insert (sender s) (sender s') (threads s) t t' 0 i Ht) as H.
  change (0 + i)%nat with i in H.
  specialize (H Hs). unfold sends in Hw. lia.
Qed.

Lemma weight_wake b t : (weight b (wake_queued t) <= weight b t + 2)%nat.
Proof. unfold wake_queued, weight. destruct (pc t) eqn:E; cbn [pc todo at_pc]; rewrite ?E; lia. Qed.

Lemma total_signal who wake l : forall i, (total who i (alter wake_queued wake l) <= total who i l + 2)%nat.
Proof.
  revert wake. induction l as [|t l IH]; intros wake i; [destruct wake; cbn; lia|].
  destruct wake as [|wake].
  - change (alter wake_queued 0%nat (t :: l)) with (wake_queued t :: l). cbn [total].
    pose proof (weight_wake (bool_decide (who = Some i)) t). lia.
  - change (alter wake_queued (S wake) (t :: l)) with (t :: alter wake_queued wake l). cbn [total].
    specialize (IH wake (S i)). lia.
Qed.

Ltac weigh Hpc := unfold weight; rewrite ?Hpc; cbn [pc todo at_pc returns length]; lia.

Lemma work_step programs e s s' : consistent programs s -> (forall i, e <> Spurious i) ->
  exec e s = Some s' -> (work s' < work s)%nat.
Proof.
  intros C Hns He. destruct e as [i rc wake| |i]; cbn [exec] in He; [..|by destruct (Hns i)].
  - unfold thread_step in He. apply option.bind_Some in He as (t & Ht & He).
    assert (Hmove : forall o t', (weight (sends s i) t' < weight (sends s i) t)%nat ->
      (work (set_owner o (set_thread i t' s)) < work s)%nat).
    { intros o t' Hw. enough (work (set_owner o (set_thread i t' s)) + 1 <= work s)%nat by lia.
      eapply work_thread; [exact Ht|done|done|]. unfold sends in *. cbn [sender set_owner set_thread]. lia. }
    destruct (pc t) as [|r|r|r|r|r|r] eqn:Hpc; try done.
    + destruct (todo t) as [|r todo'] eqn:Htd; [done|].
      destruct (code r); [destruct (_ =? _)%nat; [|destruct (mutex_owner s); [done|]]|]; injection He as <-.
      * apply (Hmove (mutex_owner s)). unfold weight. rewrite Hpc, Htd. cbn. lia.
      * apply Hmove. unfold weight. rewrite Hpc, Htd. cbn. lia.
      * apply (Hmove (mutex_owner s)). unfold weight. rewrite Hpc, Htd. cbn. lia.
    + assert (Hsend : sends s i = false).
      { eapply not_sending; [exact C|exact Ht|]. unfold posting. by rewrite Hpc. }
      destruct (sender s) as [k|] eqn:Hs; [|destruct (negb (rc =? 0))]; injection He as <-;
        try (apply Hmove; weigh Hpc).
      enough ((work (mkSending (mutex_owner s) (Some r) (Some i) true (<[i:=at_pc (Posted r) t]> (threads s)) (ran s)) + 1
          <= work s)%nat) by lia.
      eapply work_thread; [exact Ht|done| |].
      * intros j Hne. unfold sends. cbn. rewrite Hs. by rewrite !bool_decide_eq_false_2 by congruence.
      * rewrite Hsend. unfold sends. cbn [sender]. rewrite bool_decide_eq_true_2 by done. weigh Hpc.
    + destruct (mutex_owner s); [done|]. injection He as <-. apply Hmove. weigh Hpc.
    + case_bool_decide as Hs.
      * injection He as <-. assert (Hsend : sends s i = true) by (by apply bool_decide_eq_true_2).
        apply Hmove. rewrite Hsend. weigh Hpc.
      * destruct (can_wake wake s); [|done]. injection He as <-.
        assert (Hsend : sends s i = false) by (by apply bool_decide_eq_false_2).
        assert (H : (work (set_owner None (set_thread i (returns 0 t) s)) + 3 <= work s)%nat).
        { eapply work_thread; [exact Ht|done|done|]. unfold sends in *. cbn [sender set_owner set_thread].
          rewrite Hsend. weigh Hpc. }
        pose proof (total_signal (sender s) wake (<[i:=returns 0 t]> (threads s)) 0) as H2.
        unfold work in *. cbn [sender threads set_owner set_thread signal_cond] in *. lia.
    + destruct (mutex_owner s); [done|]. injection He as <-. apply Hmove.
      destruct (sends s i); weigh Hpc.
  - unfold loop_step, send_request_async_cb in He. destruct (async_pending s); [|done].
    destruct (mutex_owner s) eqn:Ho; [done|].
    apply option.bind_Some in He as (r & Hslot & He). apply option.bind_Some in He as (i & Hs & He).
    injection He as <-. destruct (sender_active _ _ _ C Ho Hs) as (t & Ht & _ & Hp).
    assert (Hsend : sends s i = true) by (by apply bool_decide_eq_true_2).
    enough (work (mkSending None None None false (alter wake_sender i (threads s)) ((i, r) :: ran s)) + 1 <= work s)%nat by lia.
    eapply (work_thread _ _ i t (wake_sender t)); [exact Ht| | |].
    + cbn [threads]. apply list_eq. intros j. rewrite list_lookup_alter. case_decide as Hij.
      * subst j. rewrite list_lookup_insert_eq by (by eapply lookup_lt_Some). by rewrite Ht.
      * by rewrite list_lookup_insert_ne.
    + intros j Hne. unfold sends. cbn. rewrite Hs. by rewrite !bool_decide_eq_false_2 by congruence.
    + unfold sends at 1. cbn [sender]. rewrite Hsend, bool_decide_eq_false_2 by done.
      unfold posting, wake_sender in *. destruct (pc t) eqn:Hpc; try done; weigh Hpc.
Qed.
End requests.

(** ** What the threads can rely on *)

Section guarantees.
Variable scheme_thread : nat.

Lemma run_consistent reliable programs es : forall s s',
  (reliable = true -> forallb (fun e => match e with Thread _ rc _ => rc =? 0 | _ => true end) es = true) ->
  consistent scheme_thread reliable programs s -> run scheme_thread es s = Some s' ->
  consistent scheme_thread reliable programs s'.
Proof.
  induction es as [|e es IH]; intros s s' Hrel C; cbn [run]; [by intros [= <-]|].
  intros (s1 & H1 & H2)%option.bind_Some. eapply IH; [|eapply sending_exec; [|exact C|exact H1]|exact H2].
  - intros Hr. specialize (Hrel Hr). cbn in Hrel. by apply andb_true_iff in Hrel as [_ ?].
  - intros Hr. specialize (Hrel Hr). cbn in Hrel. apply andb_true_iff in Hrel as [He _].
    destruct e; try done. by apply Z.eqb_eq in He.
Qed.

Lemma run_reachable programs es s : run scheme_thread es (start programs) = Some s ->
  consistent scheme_thread false programs s.
Proof. intros H. eapply run_consistent; [|apply start_consistent|exact H]. done. Qed.

Lemma run_work programs es : forall s s', consistent scheme_thread false programs s ->
  (forall i, Spurious i ∉ es) -> run scheme_thread es s = Some s' -> (work s' + length es <= work s)%nat.
Proof.
  induction es as [|e es IH]; intros s s' C Hns; cbn [run]; [intros [= <-]; cbn; lia|].
  intros (s1 & H1 & H2)%option.bind_Some.
  assert (Hlt : (work s1 < work s)%nat).
  { eapply work_step; [exact C| |exact H1]. intros i ->. apply (Hns i), elem_of_cons. by left. }
  assert (C1 : consistent scheme_thread false programs s1) by (by eapply sending_exec).
  specialize (IH s1 s' C1). cbn [length].
  enough (work s' + length es <= work s1)%nat by lia. apply IH; [|done].
  intros i Hi. apply (Hns i), elem_of_cons. by right.
Qed.

Lemma total_start programs : forall i,
  total None i (map (fun l => mkThread Outside l []) programs) = (10 * length (concat programs))%nat.
Proof.
  induction programs as [|l programs IH]; intros i; [done|]. cbn [map total concat]. rewrite IH.
  unfold weight. cbn [todo pc]. rewrite length_app. lia.
Qed.

Lemma work_start programs : work (start programs) = (10 * length (concat programs))%nat.
Proof. apply total_start. Qed.

Lemma run_queue programs es : forall s s',
  consistent scheme_thread true programs s -> queue_ok s ->
  forallb (fun e => match e with Thread _ rc _ => rc =? 0 | _ => true end) es = true ->
  run scheme_thread es s = Some s' -> queue_ok s'.
Proof.
  induction es as [|e es IH]; intros s s' C HQ Hrel; cbn [run]; [by intros [= <-]|].
  intros (s1 & H1 & H2)%option.bind_Some. cbn in Hrel. apply andb_true_iff in Hrel as [He Hrel].
  assert (He' : match e with Thread _ rc _ => rc = 0 | _ => True end) by (destruct e; try done; by apply Z.eqb_eq).
  eapply (IH s1); [by eapply sending_exec| |done|exact H2].
  by apply (queue_ok_exec scheme_thread true programs e s s1).
Qed.

(** The calls [uv_async_send] of the events succeed. *)
Definition sends_succeed (es : list event) : bool :=
  forallb (fun e => match e with Thread _ rc _ => rc =? 0 | _ => true end) es.

(** Thread [i] has finished its program. *)
Definition served (s : sending) (i : nat) (program : list req) : Prop :=
  exists t, threads s !! i = Some t /\ pc t = Outside /\ todo t = [] /\
    results t = rev (map (answer scheme_thread i) program) /\
    ran_by i s = filter (fun r => answer scheme_thread i r = 0) program.

Lemma done_answers (f : req -> Z) done : (forall r rc, (r, rc) ∈ done -> rc = f r) ->
  done.*2 = map f done.*1 /\ all_zero done = filter (fun r => f r = 0) done.*1.
Proof.
  intros Hd. induction done as [|[r rc] done IH]; [done|]. destruct IH as [IH1 IH2].
  { intros r' rc' Hin. apply Hd, elem_of_cons. by right. }
  assert (E : rc = f r) by (apply Hd, elem_of_cons; by left). subst rc. split; [cbn; by f_equal|].
  unfold all_zero in *. rewrite fmap_cons, !filter_cons. cbn [snd fst].
  destruct (decide (f r = 0)); [rewrite fmap_cons; cbn [fst]; by f_equal|done].
Qed.

(** Every run can be continued until all requests are served. *)
Lemma served_or_can_go programs es s : sends_succeed es = true ->
  run scheme_thread es (start programs) = Some s ->
  can_go scheme_thread s \/ forall i program, programs !! i = Some program -> served s i program.
Proof.
  intros Hs Hr.
  assert (C : consistent scheme_thread true programs s) by (eapply run_consistent; [|apply start_consistent|exact Hr]; done).
  assert (HQ : queue_ok s).
  { eapply (run_queue programs es (start programs)); [apply start_consistent| |exact Hs|exact Hr].
    intros H. exfalso. apply existsb_lookup in H as (i & t & Ht & Hq). cbn in Ht.
    rewrite list_lookup_fmap in Ht. apply fmap_Some in Ht as (l & _ & ->). done. }
  destruct (progress _ _ _ _ C HQ) as [Hgo|Hend]; [by left|]. right. intros i program Hpr.
  assert (Hi : (i < length (threads s))%nat) by (rewrite (cs_length _ _ _ _ C); by eapply lookup_lt_Some).
  apply lookup_lt_is_Some_2 in Hi as [t Ht]. destruct (Hend i t Ht) as [Hpc Htd].
  destruct (cs_threads _ _ _ _ C _ _ _ Ht Hpr) as [_ _ _ _ (done & Hres & Hprog & Hran & Hans)].
  unfold current, posting in *. rewrite Hpc, Htd in *. cbn in *. rewrite !app_nil_r in *.
  destruct (done_answers (answer scheme_thread i) done) as [E1 E2]; [by auto|].
  exists t. rewrite Hprog. split; [done|]. split; [done|]. split; [done|]. split; congruence.
Qed.

(** C9: [osi_send_request] does not go on for ever: however the threads, the event loop and the
    wakeups are interleaved, a run without wakeups for no reason has at most ten steps for
    each request, whether or not [uv_async_send] fails. *)
Theorem requests_terminate programs es s : (forall i, Spurious i ∉ es) ->
  run scheme_thread es (start programs) = Some s -> (length es <= 10 * length (concat programs))%nat.
Proof.
  intros Hns Hr. pose proof (run_work programs es _ s (start_consistent _ _ _) Hns Hr) as H.
  rewrite work_start in H. lia.
Qed.

(** C8: no request is left waiting when [uv_async_send] does not fail: a run that has not
    served all requests can go on without a spurious wakeup, and when all threads are done,
    each request has had its result ([UV_EINVAL] without a procedure, [UV_EPERM] from the
    Scheme thread, 0 otherwise), and those with the result 0 ran in the order of their thread. *)
Theorem requests_all_served programs es s : sends_succeed es = true ->
  run scheme_thread es (start programs) = Some s ->
  (exists e s', genuine e = true /\ exec scheme_thread e s = Some s') \/
  forall i program, programs !! i = Some program -> served s i program.
Proof. apply served_or_can_go. Qed.

(** C7: a request runs exactly once before [osi_send_request] returns 0 for it and never when it
    returns an error, even if [uv_async_send] fails and waits end for no reason; besides the
    finished ones only the thread's current request may have run; and the callback of the
    event loop never finds the slot empty. *)
Theorem request_runs_once programs es s i t program :
  run scheme_thread es (start programs) = Some s ->
  threads s !! i = Some t -> programs !! i = Some program ->
  (exists finished, program = finished.*1 ++ current t ++ todo t /\ results t = rev finished.*2 /\
     (ran_by i s = all_zero finished \/
      exists r, current t = [r] /\ code r <> None /\ ran_by i s = all_zero finished ++ [r])) /\
  (async_pending s = true -> mutex_owner s = None -> exists s', loop_step s = Some s').
Proof.
  intros Hr Ht Hpr. pose proof (run_reachable _ _ _ Hr) as C. split; [|by eapply callback_defined].
  destruct (cs_threads _ _ _ _ C _ _ _ Ht Hpr) as [_ _ _ Hcur (finished & Hres & Hprog & Hran & _)].
  exists finished. split; [done|]. split; [done|].
  destruct (posting t && negb (sends s i)) eqn:E; [|left; by rewrite Hran, app_nil_r].
  right. apply andb_true_iff in E as [E _]. unfold posting, current in *.
  destruct (pc t) eqn:Hpc; try done; (eexists; split; [reflexivity|]; split; [|done]);
    intros Hc; (assert (Ha : answer scheme_thread i r = 0) by (apply Hcur; by apply list_elem_of_singleton));
    unfold answer in Ha; rewrite Hc in Ha; discriminate.
Qed.
End guarantees.

End sending_requests.

Arguments req P : clear implicits.
Arguments sender_pc P : clear implicits.
Arguments thread P : clear implicits.
Arguments sending P : clear implicits.

(** *** A failing [uv_async_send] *)

Definition request (n : Z) : req Z := mkReq (Some 1%positive) n.

(** Three threads: the first is served, the second is woken by it and fails. *)
Definition failing_run : list event :=
  [Thread 0 0 0; Thread 0 0 0; Thread 0 0 0; Thread 1 0 0; Thread 1 0 0; Thread 2 0 0; Thread 2 0 0;
   Loop; Thread 0 0 0; Thread 0 0 1; Thread 1 0 0; Thread 1 (-1) 0].

(** Theorem (finding): when [uv_async_send] fails for a thread that waited for its turn, the next
    thread is not told: it waits for ever although the slot is free, and nothing can run. *)
Theorem failed_send_strands_waiter : exists s,
  run 9 failing_run (start [[request 1]; [request 2]; [request 3]]) = Some s /\
  sender s = None /\ mutex_owner s = None /\
  pc <$> threads s !! 2%nat = Some (Queued (request 3)) /\
  (forall e, (forall i, e <> Spurious i) -> exec 9 e s = None).
Proof.
  eexists. split; [vm_compute; reflexivity|]. repeat (split; [reflexivity|]).
  intros [i rc wake| |i] He; [|reflexivity|by destruct (He i)].
  by destruct i as [|[|[|i]]].
Qed.

(** *** Concrete runs *)

Definition two_threads : list (list (req Z)) := [[request 1; mkReq None 5]; [request 2]].
Definition two_threads_run : list event :=
  [Thread 0 0 0; Thread 0 0 0; Thread 0 0 0; Thread 1 0 0; Thread 1 0 0;
   Loop; Thread 0 0 0; Thread 0 0 1; Thread 0 0 0; Thread 1 0 0; Thread 1 0 0; Thread 1 0 0;
   Loop; Thread 1 0 0; Thread 1 0 0].

Lemma requests_terminate_witness :
  exists s, run 9 two_threads_run (start two_threads) = Some s /\ (length two_threads_run <= 30)%nat.
Proof.
  assert (Hr : exists s, run 9 two_threads_run (start two_threads) = Some s) by (vm_compute; by eexists).
  destruct Hr as [s Hr]. exists s. split; [exact Hr|].
  apply (requests_terminate 9 two_threads two_threads_run s); [|exact Hr].
  intros i. unfold two_threads_run. rewrite !not_elem_of_cons. repeat (split; [done|]). apply not_elem_of_nil.
Defined.

Lemma requests_all_served_witness : exists s,
  run 9 two_threads_run (start two_threads) = Some s /\ served 9 s 0 [request 1; mkReq None 5].
Proof.
  assert (Hr : exists s, run 9 two_threads_run (start two_threads) = Some s /\
    (forall e, genuine e = true -> exec 9 e s = None)).
  { eexists. split; [vm_compute; reflexivity|]. intros [i rc wake| |i] He; [|reflexivity|done].
    by destruct i as [|[|i]]. }
  destruct Hr as (s & Hr & Hend). exists s. split; [exact Hr|].
  destruct (requests_all_served 9 two_threads two_threads_run s eq_refl Hr) as [(e & s' & Hg & He)|H].
  - rewrite (Hend e Hg) in He. discriminate.
  - apply (H 0%nat). reflexivity.
Defined.

Lemma request_runs_once_witness : exists s t,
  run 9 two_threads_run (start two_threads) = Some s /\ threads s !! 0%nat = Some t /\
  results t = [UV_EINVAL; 0] /\ ran_by 0 s = [request 1] /\
  exists finished : list (req Z * Z), [request 1; mkReq None 5] = finished.*1 ++ current t ++ todo t.
Proof.
  assert (H : exists s t, run 9 two_threads_run (start two_threads) = Some s /\ threads s !! 0%nat = Some t /\
    results t = [UV_EINVAL; 0] /\ ran_by 0 s = [request 1]).
  { eexists _, _. split; [vm_compute; reflexivity|]. split; [reflexivity|]. by split. }
  destruct H as (s & t & Hr & Ht & Hres & Hran). exists s, t. repeat (split; [done|]).
  destruct (request_runs_once 9 two_threads two_threads_run s 0 t [request 1; mkReq None 5] Hr Ht eq_refl)
    as [(finished & H & _) _].
  exists finished. exact H.
Defined.
