(* ===== verification/TestRequest.v ===== *)
(** * TestRequest: the threads of test-request.c

    The library the test suite loads to call [osi_send_request] from threads of its own: the
    table of threads [add_work] fills, the requests a thread makes, and what they report. *)

From S2P Require Import Sqlite.
From S2P Require Export Requests.

Definition MAX_THREADS : nat := 128.

Record test_thread_t := mkTestThread { number : nat; iterations : nat; cb_name : string }.
Record payload_t := mkPayload { rep : nat; p_cb_name : string; who : nat }.

(** The procedures handed to [osi_send_request]. *)
Definition handle_call_now : positive := 1.
Definition handle_request : positive := 2.

(** [call_now] makes one request, without an argument. *)
Definition call_now : list (req (option payload_t)) := [mkReq (Some handle_call_now) None].

(** The callback list an [handle_request] adds to. *)
Definition handled (payload : payload_t) : string * list nat :=
  (p_cb_name payload, [who payload; rep payload]).
(** What running a request adds to the callbacks. *)
Definition adds (r : req (option payload_t)) : list (string * list nat) :=
  match code r, payload r with
  | Some c, Some p => if (c =? handle_request)%positive then [handled p] else []
  | _, _ => []
  end.

(** [add_work]: the table, in the order of the numbers. *)
Definition add_work (n : Z) (name : string) (thread : list test_thread_t) : datum * list test_thread_t :=
  if (n <? 0) || (length thread =? MAX_THREADS)%nat then (Dfalse, thread)
  else (Dtrue, thread ++ [mkTestThread (length thread) (Z.to_nat n) name]).

(** The calls of [add_work] a test makes. *)
Fixpoint add_all (calls : list (Z * string)) (thread : list test_thread_t) : list test_thread_t :=
  match calls with
  | [] => thread
  | (n, name) :: calls => add_all calls (add_work n name thread).2
  end.

(** The loop of [do_work], from repetition [i] down to 0. *)
Fixpoint work_from (i : nat) (t : test_thread_t) : list (req (option payload_t)) :=
  mkReq (Some handle_request) (Some (mkPayload i (cb_name t) (number t))) ::
  match i with O => [] | S i => work_from i t end.
Definition do_work (t : test_thread_t) : list (req (option payload_t)) := work_from (iterations t) t.

(** [create_threads] starts the threads in order and stops at the first that cannot be made:
    the result, and the programs of the threads it started. *)
Fixpoint create_threads (created : nat -> bool) (thread : list test_thread_t) :
    datum * list (list (req (option payload_t))) :=
  match thread with
  | [] => (Dtrue, [])
  | t :: thread =>
    if created (number t) then let '(r, l) := create_threads created thread in (r, do_work t :: l)
    else (Dfalse, [])
  end.

(** The order in which [join_threads] waits for the threads. *)
Definition join_threads (thread : list test_thread_t) : list nat * list test_thread_t :=
  (rev (map number thread), []).

(** The callbacks added for thread [k], oldest first. *)
Definition added_by (k : nat) (s : sending (option payload_t)) : list (string * list nat) :=
  ran_by k s ≫= adds.

Lemma work_adds i t : work_from i t ≫= adds =
  map (fun j => (cb_name t, [number t; j])) (rev (seq 0 (S i))).
Proof.
  induction i as [|i IH]; [done|].
  change (work_from (S i) t) with
    (mkReq (Some handle_request) (Some (mkPayload (S i) (cb_name t) (number t))) :: work_from i t).
  rewrite (seq_S (S i)), rev_app_distr. cbn [rev app map bind_cons]. rewrite bind_cons, IH. done.
Qed.

Lemma work_answer scheme k i t : k <> scheme ->
  filter (fun r => answer scheme k r = 0) (work_from i t) = work_from i t.
Proof.
  intros Hk. induction i as [|i IH].
  - cbn [work_from]. rewrite filter_cons_True; [done|]. unfold answer. cbn.
    by destruct (Nat.eqb_spec k scheme).
  - change (work_from (S i) t) with
      (mkReq (Some handle_request) (Some (mkPayload (S i) (cb_name t) (number t))) :: work_from i t).
    rewrite filter_cons_True; [by rewrite IH|]. unfold answer. cbn. by destruct (Nat.eqb_spec k scheme).
Qed.

Lemma add_all_numbers calls : forall thread, (forall k t, thread !! k = Some t -> number t = k) ->
  forall k t, add_all calls thread !! k = Some t -> number t = k.
Proof.
  induction calls as [|[n name] calls IH]; intros thread Hn; cbn [add_all]; [done|].
  apply IH. unfold add_work. destruct (_ || _); [done|]. cbn.
  intros k t [Ht|[Hk Ht]]%lookup_app_Some; [by apply Hn|].
  apply list_lookup_singleton_Some in Ht as [Hz <-]. cbn. lia.
Qed.

Lemma add_all_max calls : forall thread, (length thread <= MAX_THREADS)%nat ->
  (length (add_all calls thread) <= MAX_THREADS)%nat.
Proof.
  induction calls as [|[n name] calls IH]; intros thread Hl; cbn [add_all]; [done|].
  apply IH. unfold add_work. destruct (_ || _) eqn:E; [done|]. cbn.
  apply orb_false_iff in E as [_ E%Nat.eqb_neq]. rewrite length_app. cbn. lia.
Qed.

(** Theorem: the threads a test adds, at most 128 however often it asks, all come to their end when
    [uv_async_send] does not fail, and each has then reported its number with every
    repetition, from the highest down to 0, once and in this order. *)
Theorem test_threads_report scheme calls created es s :
  let thread := add_all calls [] in
  let '(r, programs) := create_threads created thread in
  r = Dtrue -> (length thread <= scheme)%nat -> sends_succeed es = true ->
  run scheme es (start programs) = Some s ->
  (length thread <= MAX_THREADS)%nat /\
  (can_go scheme s \/ forall k t, thread !! k = Some t ->
     added_by k s = map (fun j => (cb_name t, [k; j])) (rev (seq 0 (S (iterations t))))).
Proof.
  intros thread.
  assert (Hnum : forall k t, thread !! k = Some t -> number t = k) by (by apply add_all_numbers).
  destruct (create_threads created thread) as [r programs] eqn:Hc. intros Hr Hs Hsend Hrun.
  split; [apply add_all_max; cbn; lia|].
  destruct (served_or_can_go scheme programs es s Hsend Hrun) as [Hgo|Hserved]; [by left|right].
  intros k t Ht.
  assert (Hprog : forall l r' l', create_threads created l = (r', l') -> r' = Dtrue -> l' = map do_work l).
  { induction l as [|u l IH]; intros r' l'; cbn [create_threads]; [by intros [= <- <-]|].
    destruct (created (number u)); [|by intros [= <- <-]].
    destruct (create_threads created l) as [r1 l1]. intros [= <- <-] ->. cbn. f_equal. by eapply IH. }
  destruct (Hserved k (do_work t)) as (u & _ & _ & _ & _ & Hran).
  - rewrite (Hprog _ _ _ Hc Hr), list_lookup_fmap, Ht. done.
  - unfold added_by. rewrite Hran. unfold do_work. rewrite work_answer.
    + rewrite work_adds. by rewrite (Hnum k t Ht).
    + apply lookup_lt_Some in Ht. lia.
Qed.

Definition one_thread_run : list event :=
  [Thread 0 0 0; Thread 0 0 0; Thread 0 0 0; Loop; Thread 0 0 0; Thread 0 0 0;
   Thread 0 0 0; Thread 0 0 0; Thread 0 0 0; Loop; Thread 0 0 0; Thread 0 0 0].

Lemma test_threads_report_witness : exists s,
  run 7 one_thread_run (start (create_threads (fun _ => true) (add_all [(1, "cb"%string)] [])).2) = Some s /\
  added_by 0 s = [("cb"%string, [0; 1]%nat); ("cb"%string, [0; 0]%nat)].
Proof.
  assert (H : exists s,
    run 7 one_thread_run (start (create_threads (fun _ => true) (add_all [(1, "cb"%string)] [])).2) = Some s /\
    (forall e, genuine e = true -> exec 7 e s = None)).
  { eexists. split; [vm_compute; reflexivity|]. intros [i rc wake| |i] He; [|reflexivity|done].
    by destruct i as [|i]. }
  destruct H as (s & Hr & Hend). exists s. split; [exact Hr|].
  destruct (test_threads_report 7 [(1, "cb"%string)] (fun _ => true) one_thread_run s eq_refl)
    as [_ [(e & s' & Hg & He)|H]].
  - cbn. lia.
  - reflexivity.
  - exact Hr.
  - rewrite (Hend e Hg) in He. discriminate.
  - apply (H 0%nat (mkTestThread 0 1 "cb")). reflexivity.
Defined.
