(* ===== verification/Hash.v ===== *)
(** * Hash: SHA-1 contexts as Scheme objects

    [osi_open_SHA1], [osi_hash_data], [osi_get_SHA1] and [osi_close_SHA1] of osi.c: contexts of
    Sha1.v in C memory, addressed by the integer Scheme holds.  [None] is undefined behaviour:
    a context that is not allocated, or [SHA1Input] writing outside its block. *)

From S2P Require Export Sha1 State.
From S2P Require Import Sqlite.

Record hash_state := mkHash { contexts : gmap Z Impl.SHA1Context; next_context : Z }.

Notation H := (St hash_state).

(** The context a pointer leads to, none for a null pointer. *)
Definition context_at (a : Z) : H (option Impl.SHA1Context) :=
  s ← look;
  if a =? 0 then mret None else c ← the (contexts s !! a); mret (Some c).
Definition put_context (a : Z) (c : option Impl.SHA1Context) : H unit :=
  match c with
  | None => mret tt
  | Some c => change (fun s => mkHash (<[a := c]> (contexts s)) (next_context s))
  end.

(** [memory]: what [malloc] gives, an uninitialised context or nothing. *)
Definition osi_open_SHA1 (memory : option Impl.SHA1Context) : H datum :=
  match memory with
  | None => mret (error_pair "osi_open_SHA1" UV_ENOMEM)
  | Some ctxt =>
    let '(ctxt, r) := Impl.SHA1Reset (Some ctxt) in
    if negb (r =? Impl.shaSuccess) then mret (error_pair "SHA1Reset" r) else
    c ← the ctxt;
    s ← look;
    _ ← change (fun s => mkHash (<[next_context s := c]> (contexts s)) (next_context s + 1));
    mret (Dinteger (next_context s))
  end.

Definition osi_hash_data (ctxt : Z) (bv : datum) (start_index size : Z) : H datum :=
  let last := u64 (start_index + size) in
  match bv with
  | Dbytevector bytes =>
    if (last <? start_index) || (Z.of_nat (length bytes) <? last)
    then mret (error_pair "osi_hash_data" UV_EINVAL) else
    if size =? 0 then mret Dtrue else
    c ← context_at ctxt;
    '(c, r) ← the (Impl.SHA1Input c (Some (drop (Z.to_nat start_index) bytes)) size);
    _ ← put_context ctxt c;
    if negb (r =? Impl.shaSuccess) then mret (error_pair "SHA1Input" r) else mret Dtrue
  | _ => mret (error_pair "osi_hash_data" UV_EINVAL)
  end.

Definition osi_get_SHA1 (ctxt : Z) : H datum :=
  c ← context_at ctxt;
  '(c, bv, r) ← the (Impl.SHA1Result c true);
  _ ← put_context ctxt c;
  if negb (r =? Impl.shaSuccess) then mret (error_pair "SHA1Result" r) else
  _ ← put_context ctxt (Impl.SHA1Reset c).1;
  bv ← the bv;
  mret (Dbytevector bv).

Definition osi_close_SHA1 (ctxt : Z) : H unit :=
  c ← context_at ctxt;
  change (fun s => mkHash (delete ctxt (contexts s)) (next_context s)).

(** ** Properties *)

(** A slice of a bytevector: the bytes, the start and the size. *)
Record slice := mkSlice { sl_bytes : list Z; sl_start : Z; sl_size : Z }.

Definition valid (x : slice) : Prop :=
  Forall is_byte (sl_bytes x) /\ 0 <= sl_start x /\ 0 <= sl_size x < 2 ^ 32 /\
  sl_start x + sl_size x <= Z.of_nat (length (sl_bytes x)) < 2 ^ 63.
(** The bytes of a slice. *)
Definition slice_bytes (x : slice) : list Z :=
  take (Z.to_nat (sl_size x)) (drop (Z.to_nat (sl_start x)) (sl_bytes x)).

Fixpoint hash_slices (ctxt : Z) (l : list slice) : H (list datum) :=
  match l with
  | [] => mret []
  | x :: l =>
    r ← osi_hash_data ctxt (Dbytevector (sl_bytes x)) (sl_start x) (sl_size x);
    rs ← hash_slices ctxt l;
    mret (r :: rs)
  end.

Definition holds (a : Z) (m : list Z) (s : hash_state) : Prop :=
  a <> 0 /\ exists c, contexts s !! a = Some c /\ absorbed c m.

Lemma length_slice x : valid x -> Z.of_nat (length (slice_bytes x)) = sl_size x.
Proof.
  intros (_ & H0 & Hs & Hl). unfold slice_bytes. rewrite length_take, length_drop. lia.
Qed.

Lemma slice_byte x : valid x -> Forall is_byte (slice_bytes x).
Proof. intros (Hb & _). by apply Forall_take, Forall_drop. Qed.

(** The check of the slice is the one on unbounded integers. *)
Lemma hash_check start size n : 0 <= start < 2 ^ 64 -> 0 <= size < 2 ^ 32 -> 0 <= n < 2 ^ 63 ->
  (u64 (start + size) <? start) || (n <? u64 (start + size)) = (n <? start + size).
Proof.
  intros Hs Hz Hn. unfold u64, wrap.
  destruct (Z.ltb_spec (start + size) (2 ^ 64)) as [Hlt|Hge].
  - rewrite Z.mod_small by lia. destruct (Z.ltb_spec (start + size) start); [lia|done].
  - replace ((start + size) mod 2 ^ 64) with (start + size - 2 ^ 64).
    + destruct (Z.ltb_spec (start + size - 2 ^ 64) start); [|lia].
      destruct (Z.ltb_spec n (start + size)); [done|lia].
    + rewrite <- (Z.mod_small (start + size - 2 ^ 64) (2 ^ 64)) by lia.
      rewrite Zminus_mod, Z_mod_same_full, Z.sub_0_r, Zmod_mod. done.
Qed.

Lemma hash_data_spec a m x s : holds a m s -> valid x ->
  8 * (Z.of_nat (length m) + sl_size x) < 2 ^ 64 ->
  ok (osi_hash_data a (Dbytevector (sl_bytes x)) (sl_start x) (sl_size x)) s
    (fun r s' => r = Dtrue /\ holds a (m ++ slice_bytes x) s').
Proof.
  intros (Ha & c & Hc & Habs) Hv Hlen. pose proof Hv as (Hb & H0 & Hs & Hl).
  unfold osi_hash_data. rewrite hash_check by lia. destruct (Z.ltb_spec (Z.of_nat (length (sl_bytes x))) (sl_start x + sl_size x)); [lia|].
  destruct (Z.eqb_spec (sl_size x) 0) as [Hz|Hz].
  - apply ok_ret. split; [done|]. split; [done|]. exists c. split; [done|].
    unfold slice_bytes. rewrite Hz. by rewrite app_nil_r.
  - apply ok_bind. unfold context_at. apply ok_bind, ok_look.
    destruct (Z.eqb_spec a 0); [done|]. apply ok_bind. eapply ok_the; [exact Hc|]. apply ok_ret.
    destruct (Input_spec c m (drop (Z.to_nat (sl_start x)) (sl_bytes x)) (sl_size x))
      as (c' & Hin & Habs'); [done|by apply Forall_drop|rewrite length_drop; lia|lia|].
    apply ok_bind. eapply ok_the; [exact Hin|]. cbn beta iota. apply ok_bind. apply ok_change.
    apply ok_ret. split; [done|]. split; [done|]. exists c'. cbn. by rewrite lookup_insert_eq.
Qed.

Lemma hash_slices_spec a l : forall m s, holds a m s -> Forall valid l ->
  8 * Z.of_nat (length (m ++ concat (map slice_bytes l))) < 2 ^ 64 ->
  ok (hash_slices a l) s (fun rs s' => Forall (fun r => r = Dtrue) rs /\
    holds a (m ++ concat (map slice_bytes l)) s').
Proof.
  induction l as [|x l IH]; intros m s Hh Hv Hlen; cbn [hash_slices map concat] in *.
  - apply ok_ret. split; [constructor|]. by rewrite app_nil_r.
  - apply Forall_cons in Hv as [Hx Hv]. pose proof (length_slice x Hx) as Hsz.
    rewrite !length_app in Hlen. apply ok_bind. eapply ok_mono; [apply hash_data_spec; [done|done|lia]|].
    intros r s1 [-> H1]. apply ok_bind. rewrite app_assoc.
    eapply ok_mono; [apply IH; [exact H1|done|rewrite !length_app; lia]|].
    intros rs s2 [Hrs H2]. apply ok_ret. split; [by constructor|done].
Qed.

Lemma open_spec c s : ctx_typed c -> 0 < next_context s ->
  ok (osi_open_SHA1 (Some c)) s (fun r s' => r = Dinteger (next_context s) /\ holds (next_context s) [] s').
Proof.
  intros Hc Hn. unfold osi_open_SHA1. destruct (Reset_absorbed c Hc) as (c' & -> & Habs).
  cbn [negb Z.eqb Impl.shaSuccess]. apply ok_bind. eapply ok_the; [done|]. apply ok_bind, ok_look.
  apply ok_bind, ok_change, ok_ret. split; [done|]. split; [lia|]. exists c'. cbn.
  by rewrite lookup_insert_eq.
Qed.

Lemma get_spec a m s : holds a m s ->
  ok (osi_get_SHA1 a) s (fun r s' => r = Dbytevector (Fips.digest (Fips.bits_of_bytes m)) /\ holds a [] s').
Proof.
  intros (Ha & c & Hc & Habs). unfold osi_get_SHA1. apply ok_bind. unfold context_at.
  apply ok_bind, ok_look. destruct (Z.eqb_spec a 0); [done|]. apply ok_bind. eapply ok_the; [exact Hc|].
  apply ok_ret. destruct (Result_spec c m Habs) as (c1 & Hres & Hfin). pose proof Hfin as (_ & _ & _ & Hty).
  destruct (Reset_absorbed c1 Hty) as (c2 & Hreset & Habs2).
  apply ok_bind. eapply ok_the; [exact Hres|]. cbn beta iota. apply ok_bind, ok_change.
  cbn [negb Z.eqb Impl.shaSuccess]. apply ok_bind. rewrite Hreset. cbn [fst put_context].
  apply ok_change. apply ok_bind. eapply ok_the; [done|]. apply ok_ret. split; [done|]. split; [done|].
  exists c2. cbn. by rewrite lookup_insert_eq.
Qed.

(** C38: a hash object computes the FIPS 180 digest of the slices it is given, whatever the
    uninitialised memory of its context held, and starts again from the empty message once its
    digest has been taken. *)
Theorem hash_object_digest c s l1 l2 : ctx_typed c -> 0 < next_context s ->
  Forall valid l1 -> Forall valid l2 ->
  8 * Z.of_nat (length (concat (map slice_bytes l1))) < 2 ^ 64 ->
  8 * Z.of_nat (length (concat (map slice_bytes l2))) < 2 ^ 64 ->
  exists a r1 r2 s',
    (r ← osi_open_SHA1 (Some c);
     a ← the (match r with Dinteger a => Some a | _ => None end);
     r1 ← hash_slices a l1;
     d1 ← osi_get_SHA1 a;
     r2 ← hash_slices a l2;
     d2 ← osi_get_SHA1 a;
     _ ← osi_close_SHA1 a;
     mret (a, r1, d1, r2, d2)) s =
    Some (a, r1, Dbytevector (Fips.digest (Fips.bits_of_bytes (concat (map slice_bytes l1)))),
             r2, Dbytevector (Fips.digest (Fips.bits_of_bytes (concat (map slice_bytes l2)))), s') /\
    Forall (fun r => r = Dtrue) r1 /\ Forall (fun r => r = Dtrue) r2 /\ contexts s' !! a = None.
Proof.
  intros Hc Hn Hv1 Hv2 Hl1 Hl2.
  match goal with |- exists a r1 r2 s', ?m s = _ /\ _ =>
    assert (Hok : ok m s (fun x s' => exists a r1 r2,
      x = (a, r1, Dbytevector (Fips.digest (Fips.bits_of_bytes (concat (map slice_bytes l1)))),
             r2, Dbytevector (Fips.digest (Fips.bits_of_bytes (concat (map slice_bytes l2))))) /\
      Forall (fun r => r = Dtrue) r1 /\ Forall (fun r => r = Dtrue) r2 /\ contexts s' !! a = None)) end.
  { apply ok_bind. eapply ok_mono; [by apply open_spec|]. intros r s1 [-> H1].
    apply ok_bind. eapply ok_the; [done|].
    apply ok_bind. eapply ok_mono; [by apply hash_slices_spec; [exact H1|..]|]. intros r1 s2 [Hr1 H2].
    apply ok_bind. eapply ok_mono; [by apply get_spec|]. intros d1 s3 [-> H3].
    apply ok_bind. eapply ok_mono; [by apply hash_slices_spec; [exact H3|..]|]. intros r2 s4 [Hr2 H4].
    apply ok_bind. eapply ok_mono; [by apply get_spec|]. intros d2 s5 [-> (Ha & c5 & H5 & _)].
    apply ok_bind. unfold osi_close_SHA1, context_at. apply ok_bind, ok_bind, ok_look.
    destruct (Z.eqb_spec (next_context s) 0); [lia|]. apply ok_bind. eapply ok_the; [exact H5|].
    apply ok_ret, ok_change, ok_ret. eexists _, _, _. split; [done|]. split; [done|]. split; [done|].
    cbn. apply lookup_delete_eq. }
  apply ok_result in Hok as (x & s' & Hrun & a & r1 & r2 & -> & Hrest). by exists a, r1, r2, s'.
Qed.

(** Theorem: [osi_hash_data] reads inside the bytevector or not at all: on 64-bit positions and 32-bit
    sizes it refuses exactly the slices that reach past the end, those whose end overflows
    included, and then changes nothing. *)
Theorem hash_data_bounds a bytes start size s :
  is_uint 64 start -> is_uint 32 size -> Z.of_nat (length bytes) < 2 ^ 63 ->
  (Z.of_nat (length bytes) < start + size ->
     osi_hash_data a (Dbytevector bytes) start size s = Some (error_pair "osi_hash_data" UV_EINVAL, s)) /\
  (start + size <= Z.of_nat (length bytes) -> forall r s',
     osi_hash_data a (Dbytevector bytes) start size s = Some (r, s') ->
     r = Dtrue \/ exists code, r = error_pair "SHA1Input" code).
Proof.
  unfold is_uint. intros Hs Hz Hl. unfold osi_hash_data. rewrite hash_check by lia. split.
  - intros Hlt. destruct (Z.ltb_spec (Z.of_nat (length bytes)) (start + size)); [done|lia].
  - intros Hle r s'. destruct (Z.ltb_spec (Z.of_nat (length bytes)) (start + size)); [lia|].
    destruct (size =? 0); [intros [= <- <-]; by left|]. unfold mbind, St_bind.
    destruct (context_at a s) as [[c s1]|]; [|done].
    destruct (the _ s1) as [[[c' code] s2]|]; [|done].
    destruct (put_context a c' s2) as [[[] s3]|]; [|done].
    destruct (negb _); intros [= <- <-]; [right; by eexists|by left].
Qed.

Definition no_contexts : hash_state := mkHash ∅ 1.
Definition any_context : Impl.SHA1Context :=
  Impl.mkSHA1Context [] 9 9 9 (replicate 64 7) 9 9.

Lemma hash_object_digest_witness : exists r1 r2 s',
  (r ← osi_open_SHA1 (Some any_context);
   a ← the (match r with Dinteger a => Some a | _ => None end);
   r1 ← hash_slices a [mkSlice [96; 97; 98; 99] 1 3];
   d1 ← osi_get_SHA1 a;
   r2 ← hash_slices a [];
   d2 ← osi_get_SHA1 a;
   _ ← osi_close_SHA1 a;
   mret (a, r1, d1, r2, d2)) no_contexts =
  Some (1, r1, Dbytevector (Fips.digest (Fips.bits_of_bytes [97; 98; 99])),
           r2, Dbytevector (Fips.digest (Fips.bits_of_bytes [])), s').
Proof.
  destruct (hash_object_digest any_context no_contexts [mkSlice [96; 97; 98; 99] 1 3] [])
    as (a & r1 & r2 & s' & Hrun & _).
  - split; [reflexivity|]. apply Forall_replicate. unfold is_byte, is_uint. lia.
  - reflexivity.
  - repeat constructor; cbn; unfold is_byte, is_uint; lia.
  - constructor.
  - vm_compute. reflexivity.
  - vm_compute. reflexivity.
  - assert (a = 1) as -> by (vm_compute in Hrun; injection Hrun; congruence).
    exists r1, r2, s'. exact Hrun.
Defined.

Lemma hash_data_bounds_witness :
  osi_hash_data 1 (Dbytevector [97; 98; 99]) (2 ^ 64 - 1) 3 no_contexts =
    Some (error_pair "osi_hash_data" UV_EINVAL, no_contexts).
Proof.
  destruct (hash_data_bounds 1 [97; 98; 99] (2 ^ 64 - 1) 3 no_contexts) as [H _];
    [unfold is_uint; lia|unfold is_uint; lia|cbn; lia|].
  apply H. vm_compute. reflexivity.
Defined.
