(* ===== verification/Mbedtls.v ===== *)
(** * Mbedtls: digests of the mbed TLS library

    examples/mbedtls/mbedtls.c, the digest provider a program can load in place of the SHA-1 of
    osi.c, and the conversions to and from base 64.  The library mbed TLS is the class
    [Mbedtls]; what its documentation says of digests is the class [Digests].  [None] is
    undefined behaviour: a digest that is not allocated, a context released twice, or a write
    past a bytevector. *)

From S2P Require Export State.
From S2P Require Import Sqlite Bindings Hash.

(** ** The library *)

(** Each function gives the new context, what it wrote, and its result code. *)
Class Mbedtls := {
  md_context : Type;
  md_info : Type;
  md_info_from_string : list Z -> option md_info;
  md_init : md_context;
  md_setup : md_context -> md_info -> bool -> md_context * Z;
  md_starts : md_context -> md_context * Z;
  md_update : md_context -> list Z -> md_context * Z;
  md_finish : md_context -> md_context * list Z * Z;
  md_hmac_starts : md_context -> list Z -> md_context * Z;
  md_hmac_update : md_context -> list Z -> md_context * Z;
  md_hmac_finish : md_context -> md_context * list Z * Z;
  md_hmac_reset : md_context -> md_context * Z;
  md_get_size : md_context -> Z;
  mbedtls_strerror : Z -> list Z;
  mbedtls_base64_encode : Z -> list Z -> list Z * Z * Z;
  mbedtls_base64_decode : Z -> list Z -> list Z * Z * Z;
  version_string : list Z
}.

Section mbedtls.
Context {B : Mbedtls} {C : Scheme}.

(** ** The state *)

(** [ctx] is [None] when the context has been released. *)
Record digest_t := mkDigest { ctx : option md_context; use_hmac : bool }.

(** The allocated digests, the number of contexts that are set up, and the next address. *)
Record digest_state := mkState { digests : gmap Z digest_t; contexts : Z; next_digest : Z }.

Notation G := (St digest_state).

Definition load_digest (a : Z) : G digest_t := s ← look; the (digests s !! a).
Definition load_ctx (a : Z) : G md_context := d ← load_digest a; the (ctx d).
Definition store_digest (a : Z) (d : digest_t) : G unit :=
  _ ← load_digest a; change (fun s => mkState (<[a := d]> (digests s)) (contexts s) (next_digest s)).
Definition store_ctx (a : Z) (c : md_context) : G unit :=
  d ← load_digest a; store_digest a (mkDigest (Some c) (use_hmac d)).
Definition count_contexts (n : Z) : G unit :=
  change (fun s => mkState (digests s) (contexts s + n) (next_digest s)).
Definition mbedtls_md_init (a : Z) : G unit := _ ← store_ctx a md_init; count_contexts 1.
Definition mbedtls_md_free (a : Z) : G unit :=
  d ← load_digest a;
  _ ← the (ctx d);
  _ ← store_digest a (mkDigest None (use_hmac d));
  count_contexts (-1).
Definition free_digest (a : Z) : G unit :=
  _ ← load_digest a; change (fun s => mkState (delete a (digests s)) (contexts s) (next_digest s)).
(** [malloc], which gives 0 when there is no memory. *)
Definition malloc_digest (memory : bool) : G Z :=
  if memory then
    s ← look;
    _ ← change (fun s => mkState (<[next_digest s := mkDigest None false]> (digests s)) (contexts s) (next_digest s + 1));
    mret (next_digest s)
  else mret 0.

(** ** The code *)

Definition make_mbedtls_error (who : string) (rc : Z) : datum :=
  Dpair (Dsymbol who) (Dpair (Dinteger rc) (Dstring (string_utf8 (mbedtls_strerror rc)))).

(** [ON_ERR]: go on when the result is 0, go to the label with the error otherwise. *)
Definition ON_ERR (error_label : datum -> G datum) (target : string) (rc : Z) (k : G datum) : G datum :=
  if negb (rc =? 0) then error_label (make_mbedtls_error target rc) else k.

(** A function of the library applied to the context of a digest. *)
Definition call_md (a : Z) (f : md_context -> md_context * Z) : G Z :=
  c ← load_ctx a; let '(c, rc) := f c in _ ← store_ctx a c; mret rc.
(** One that writes its output to [bv]: the bytes of [bv] after it. *)
Definition call_md_output (a : Z) (f : md_context -> md_context * list Z * Z) (bv : list Z) : G (list Z * Z) :=
  c ← load_ctx a;
  let '(c, out, rc) := f c in
  _ ← store_ctx a c;
  _ ← assert_ok (bool_decide (length out <= length bv)%nat);
  mret (out ++ drop (length out) bv, rc).

Definition Sbytevectorp (x : datum) : option (list Z) :=
  match x with Dbytevector l => Some l | _ => None end.

Definition open_digest (memory : bool) (name : list Z) (hmac_key : datum) : G datum :=
  if negb (match hmac_key with Dfalse | Dbytevector _ => true | _ => false end)
  then mret (error_pair "open_digest" UV_EINVAL) else
  match md_info_from_string name with
  | None => mret (error_pair "open_digest" UV_EINVAL)
  | Some info =>
    a ← malloc_digest memory;
    if a =? 0 then mret (error_pair "open_digest" UV_ENOMEM) else
    let use_hmac := match Sbytevectorp hmac_key with Some _ => true | None => false end in
    _ ← mbedtls_md_init a;
    c ← load_ctx a;
    _ ← store_digest a (mkDigest (Some c) use_hmac);
    let md_free (err : datum) : G datum := _ ← mbedtls_md_free a; _ ← free_digest a; mret err in
    rc ← call_md a (fun c => md_setup c info use_hmac);
    ON_ERR md_free "mbedtls_md_setup" rc
    (match Sbytevectorp hmac_key with
     | Some key =>
       rc ← call_md a (fun c => md_hmac_starts c key);
       ON_ERR md_free "mbedtls_md_hmac_starts" rc (mret (Dinteger a))
     | None =>
       rc ← call_md a md_starts;
       ON_ERR md_free "mbedtls_md_starts" rc (mret (Dinteger a))
     end)
  end.

Definition hash_data (digest : Z) (bv : datum) (start_index size : Z) : G datum :=
  let last := u64 (start_index + size) in
  match Sbytevectorp bv with
  | None => mret (error_pair "hash_data" UV_EINVAL)
  | Some bytes =>
    if (last <? start_index) || (Z.of_nat (length bytes) <? last)
    then mret (error_pair "hash_data" UV_EINVAL) else
    if size =? 0 then mret Dfalse else
    let data := take (Z.to_nat size) (drop (Z.to_nat start_index) bytes) in
    d ← load_digest digest;
    if use_hmac d then
      rc ← call_md digest (fun c => md_hmac_update c data);
      ON_ERR mret "mbedtls_md_hmac_update" rc (mret Dfalse)
    else
      rc ← call_md digest (fun c => md_update c data);
      ON_ERR mret "mbedtls_md_update" rc (mret Dfalse)
  end.

Definition get_digest (digest : Z) : G datum :=
  c ← load_ctx digest;
  let bv := replicate (Z.to_nat (md_get_size c)) 0 in
  d ← load_digest digest;
  if use_hmac d then
    '(bv, rc) ← call_md_output digest md_hmac_finish bv;
    ON_ERR mret "mbedtls_md_hmac_finish" rc
    (rc ← call_md digest md_hmac_reset;
     ON_ERR mret "mbedtls_md_hmac_reset" rc (mret (Dbytevector bv)))
  else
    '(bv, rc) ← call_md_output digest md_finish bv;
    ON_ERR mret "mbedtls_md_finish" rc
    (rc ← call_md digest md_starts;
     ON_ERR mret "mbedtls_md_starts" rc (mret (Dbytevector bv))).

Definition close_digest (digest : Z) : G unit :=
  _ ← mbedtls_md_free digest; free_digest digest.

(** The conversions fill the bytevector [bv_dst]: its bytes after the call, and the result. The
    number of bytes read is not checked: past the end of [bv_src] there is no behaviour. *)
Definition base64 (who target : string) (f : Z -> list Z -> list Z * Z * Z) (bv_dst bv_src : datum) (src_len : Z) :
    G (option (list Z) * datum) :=
  match Sbytevectorp bv_dst, Sbytevectorp bv_src with
  | Some dst, Some src =>
    _ ← assert_ok (src_len <=? Z.of_nat (length src));
    let '(out, olen, rc) := f (Z.of_nat (length dst)) (take (Z.to_nat src_len) src) in
    _ ← assert_ok (bool_decide (length out <= length dst)%nat);
    let dst := out ++ drop (length out) dst in
    r ← ON_ERR mret target rc (mret (Dinteger olen));
    mret (Some dst, r)
  | dst, _ => mret (dst, error_pair who UV_EINVAL)
  end.
Definition base64_encode := base64 "base64_encode" "mbedtls_base64_encode" mbedtls_base64_encode.
Definition base64_decode := base64 "base64_decode" "mbedtls_base64_decode" mbedtls_base64_decode.

Definition get_version : datum := Dstring (string_utf8 version_string).
End mbedtls.
Arguments digest_t _ : clear implicits.
Arguments digest_state _ : clear implicits.

(** ** Properties *)

(** What the documentation of the library says of digests: a context that is set up for a digest,
    or for a code with a key, holds the message of the updates since it was started, until it is
    finished; [md_digest] is the function computed. *)
Class Digests (B : Mbedtls) := {
  md_ready : md_context -> md_info -> bool -> Prop;
  md_holds : md_context -> md_info -> option (list Z) -> list Z -> Prop;
  md_finished : md_context -> md_info -> option (list Z) -> Prop;
  md_digest : md_info -> option (list Z) -> list Z -> list Z;
  setup_ready info h c : md_setup md_init info h = (c, 0) -> md_ready c info h;
  starts_holds info c c' : md_ready c info false -> md_starts c = (c', 0) -> md_holds c' info None [];
  hmac_starts_holds info key c c' : md_ready c info true -> md_hmac_starts c key = (c', 0) ->
    md_holds c' info (Some key) [];
  update_holds info m b c c' : md_holds c info None m -> md_update c b = (c', 0) ->
    md_holds c' info None (m ++ b);
  hmac_update_holds info key m b c c' : md_holds c info (Some key) m -> md_hmac_update c b = (c', 0) ->
    md_holds c' info (Some key) (m ++ b);
  finish_digest info m c c' out : md_holds c info None m -> md_finish c = (c', out, 0) ->
    out = md_digest info None m /\ md_finished c' info None;
  hmac_finish_digest info key m c c' out : md_holds c info (Some key) m -> md_hmac_finish c = (c', out, 0) ->
    out = md_digest info (Some key) m /\ md_finished c' info (Some key);
  restarts_holds info c c' : md_finished c info None -> md_starts c = (c', 0) -> md_holds c' info None [];
  hmac_reset_holds info key c c' : md_finished c info (Some key) -> md_hmac_reset c = (c', 0) ->
    md_holds c' info (Some key) [];
  holds_size info key m c : md_holds c info key m -> Z.of_nat (length (md_digest info key m)) = md_get_size c;
  finish_size c c' out rc : md_finish c = (c', out, rc) -> Z.of_nat (length out) <= md_get_size c;
  hmac_finish_size c c' out rc : md_hmac_finish c = (c', out, rc) -> Z.of_nat (length out) <= md_get_size c
}.

(** The slices of a message, one after the other. *)
Fixpoint hash_slices {B : Mbedtls} {C : Scheme} (a : Z) (l : list slice) : St (digest_state B) (list datum) :=
  match l with
  | [] => mret []
  | x :: l =>
    r ← hash_data a (Dbytevector (sl_bytes x)) (sl_start x) (sl_size x);
    rs ← hash_slices a l;
    mret (r :: rs)
  end.

Section digests.
Context {B : Mbedtls} {C : Scheme}.
Implicit Types (s : digest_state B).

(** The digest at [a] was added to the state [s0]; [P] is what is known of its context. *)
Record live (s0 : digest_state B) (a : Z) (h : bool) (P : md_context -> Prop) s : Prop := {
  live_new : digests s0 !! a = None;
  live_contexts : contexts s = contexts s0 + 1;
  live_digest : exists c, digests s = <[a := mkDigest (Some c) h]> (digests s0) /\ P c
}.

Lemma live_mono s0 a h (P Q : md_context -> Prop) s : (forall c, P c -> Q c) -> live s0 a h P s -> live s0 a h Q s.
Proof. intros HPQ [H1 H2 (c & H3 & H4)]. constructor; eauto. Qed.

Lemma live_lookup s0 a h P s : live s0 a h P s -> exists c, digests s !! a = Some (mkDigest (Some c) h) /\ P c.
Proof. intros [_ _ (c & -> & HP)]. exists c. by rewrite lookup_insert_eq. Qed.

Lemma ok_load_digest s0 a h P s (Q : digest_t B -> digest_state B -> Prop) :
  live s0 a h P s -> (forall c, P c -> Q (mkDigest (Some c) h) s) -> ok (load_digest a) s Q.
Proof.
  intros (c & Hc & HP)%live_lookup HQ. unfold load_digest. apply ok_bind, ok_look.
  eapply ok_the; [exact Hc|]. by apply HQ.
Qed.

Lemma ok_load_ctx s0 a h P s (Q : md_context -> digest_state B -> Prop) :
  live s0 a h P s -> (forall c, P c -> Q c s) -> ok (load_ctx a) s Q.
Proof.
  intros Hl HQ. unfold load_ctx. apply ok_bind. eapply ok_load_digest; [exact Hl|]. intros c HP.
  eapply ok_the; [done|]. by apply HQ.
Qed.

Lemma ok_store_ctx s0 a h P (R : md_context -> Prop) c s (Q : unit -> digest_state B -> Prop) :
  live s0 a h P s -> R c -> (forall s', live s0 a h R s' -> Q tt s') -> ok (store_ctx a c) s Q.
Proof.
  intros Hl HR HQ. unfold store_ctx. apply ok_bind. eapply ok_load_digest; [exact Hl|]. intros c' _. cbn.
  unfold store_digest. apply ok_bind. eapply ok_load_digest; [exact Hl|]. intros c2 _. apply ok_change, HQ.
  destruct Hl as [H1 H2 (c3 & H3 & _)]. constructor; [done|done|]. exists c. cbn.
  by rewrite H3, insert_insert_eq.
Qed.

Lemma ok_call_md s0 a h P (R : Z -> md_context -> Prop) f s :
  live s0 a h P s -> (forall c c' rc, P c -> f c = (c', rc) -> R rc c') ->
  ok (call_md a f) s (fun rc s' => live s0 a h (R rc) s').
Proof.
  intros Hl Hf. unfold call_md. apply ok_bind. eapply ok_load_ctx; [exact Hl|]. intros c HP.
  destruct (f c) as [c' rc] eqn:E. apply ok_bind. eapply ok_store_ctx; [exact Hl|by eapply Hf|].
  intros s' Hs. by apply ok_ret.
Qed.

(** Nothing but the next address changed. *)
Definition unchanged s s' : Prop := digests s' = digests s /\ contexts s' = contexts s.

(** The block of a digest without a context. *)
Definition blank (s0 : digest_state B) (a : Z) s : Prop :=
  digests s0 !! a = None /\ contexts s = contexts s0 /\ exists d, digests s = <[a := d]> (digests s0).

Lemma ok_md_free s0 a h P s (Q : unit -> digest_state B -> Prop) :
  live s0 a h P s -> (forall s', blank s0 a s' -> Q tt s') -> ok (mbedtls_md_free a) s Q.
Proof.
  intros Hl HQ. unfold mbedtls_md_free. apply ok_bind.
  eapply ok_load_digest; [exact Hl|]. intros c _. apply ok_bind. eapply ok_the; [done|]. apply ok_bind.
  unfold store_digest. apply ok_bind. eapply ok_load_digest; [exact Hl|]. intros c' _. apply ok_change.
  apply ok_change, HQ. destruct Hl as [H1 H2 (c2 & H3 & _)]. split; [done|]. cbn. split; [lia|].
  eexists. by rewrite H3, insert_insert_eq.
Qed.

Lemma ok_free_digest s0 a s (Q : unit -> digest_state B -> Prop) :
  blank s0 a s -> (forall s', unchanged s0 s' -> Q tt s') -> ok (free_digest a) s Q.
Proof.
  intros (H1 & H2 & d & H3) HQ. unfold free_digest, load_digest. apply ok_bind, ok_bind, ok_look.
  eapply ok_the; [by rewrite H3, lookup_insert_eq|]. apply HQ. split; [|done]. cbn.
  by rewrite H3, delete_insert_id.
Qed.

Context {D : Digests B}.

(** As long as no call has failed, the context holds the message. *)
Definition known (info : md_info) (key : option (list Z)) (b : bool) (m : list Z) (c : md_context) : Prop :=
  b = true -> md_holds c info key m.
Definition is_key (key : option (list Z)) : bool := match key with Some _ => true | None => false end.
Definition succeeds (r : datum) : bool := negb (Spairp r).

Section digest.
Context (s0 : digest_state B) (a : Z) (info : md_info) (key : option (list Z)).
Notation holding b m := (live s0 a (is_key key) (known info key b m)).

Lemma ok_key {X} (x y : St (digest_state B) X) s Q :
  (is_key key = true -> ok x s Q) -> (is_key key = false -> ok y s Q) ->
  ok (if is_key key then x else y) s Q.
Proof. destruct (is_key key); auto. Qed.

Lemma ok_update b m data target f s :
  (forall c c', md_holds c info key m -> f c = (c', 0) -> md_holds c' info key (m ++ data)) ->
  holding b m s ->
  ok (rc ← call_md a f; ON_ERR mret target rc (mret Dfalse)) s
    (fun r s' => holding (b && succeeds r) (m ++ data) s').
Proof.
  intros Hf Hl. apply ok_bind. eapply ok_mono.
  - apply (ok_call_md s0 a _ _ (fun rc => known info key (b && (rc =? 0)) (m ++ data)) f s Hl).
    intros c c' rc HK Hc Hb. apply andb_true_iff in Hb as [Hb ->%Z.eqb_eq]. eapply Hf; [by apply HK|exact Hc].
  - intros rc s'. unfold ON_ERR. destruct (rc =? 0); intros Hs; by apply ok_ret.
Qed.

Lemma hash_data_ok b m x s : holding b m s -> valid x ->
  ok (hash_data a (Dbytevector (sl_bytes x)) (sl_start x) (sl_size x)) s
    (fun r s' => holding (b && succeeds r) (m ++ slice_bytes x) s').
Proof.
  intros Hl Hv. pose proof Hv as (Hb & H0 & Hs & Hn). unfold hash_data. cbn [Sbytevectorp].
  rewrite hash_check by lia. destruct (Z.ltb_spec (Z.of_nat (length (sl_bytes x))) (sl_start x + sl_size x)); [lia|].
  destruct (Z.eqb_spec (sl_size x) 0) as [Hz|Hz].
  - apply ok_ret. unfold slice_bytes. rewrite Hz, app_nil_r, andb_true_r. done.
  - fold (slice_bytes x). apply ok_bind. eapply ok_load_digest; [exact Hl|]. intros c _. cbn [use_hmac].
    apply ok_key; intros Hk; apply ok_update; try done; intros c1 c2; destruct key; try done.
    + apply hmac_update_holds.
    + apply update_holds.
Qed.

Lemma hash_slices_ok l : forall b m s, holding b m s -> Forall valid l ->
  ok (hash_slices a l) s
    (fun rs s' => holding (b && forallb succeeds rs) (m ++ concat (map slice_bytes l)) s').
Proof.
  induction l as [|x l IH]; intros b m s Hl Hv; cbn [hash_slices map concat].
  - apply ok_ret. cbn. by rewrite andb_true_r, app_nil_r.
  - apply Forall_cons in Hv as [Hx Hv]. apply ok_bind. eapply ok_mono; [eapply hash_data_ok; [exact Hl|done]|].
    intros r s1 H1. apply ok_bind. eapply ok_mono; [eapply IH; [exact H1|done]|]. intros rs s2 H2. apply ok_ret.
    cbn [forallb]. by rewrite andb_assoc, app_assoc.
Qed.

Lemma ok_finish b m c target1 target2 f g s :
  (forall c c' out, md_holds c info key m -> f c = (c', out, 0) ->
    out = md_digest info key m /\ md_finished c' info key) ->
  (forall c c' out rc, f c = (c', out, rc) -> Z.of_nat (length out) <= md_get_size c) ->
  (forall c c', md_finished c info key -> g c = (c', 0) -> md_holds c' info key []) ->
  holding b m s -> load_ctx a s = Some (c, s) -> known info key b m c ->
  ok ('(bv, rc) ← call_md_output a f (replicate (Z.to_nat (md_get_size c)) 0);
      ON_ERR mret target1 rc
      (rc ← call_md a g; ON_ERR mret target2 rc (mret (Dbytevector bv)))) s
    (fun r s' => holding (b && succeeds r) [] s' /\
      (b && succeeds r = true -> r = Dbytevector (md_digest info key m))).
Proof.
  intros Hf Hsize Hg Hl Hc HK. destruct (f c) as [[c' out] rc] eqn:E.
  pose proof (Hsize _ _ _ _ E) as Hle. set (bv := replicate _ 0).
  assert (Hbv : b && (rc =? 0) = true ->
    out ++ drop (length out) bv = md_digest info key m /\ md_finished c' info key).
  { intros Hb. apply andb_true_iff in Hb as [Hb ->%Z.eqb_eq]. specialize (HK Hb).
    destruct (Hf _ _ _ HK E) as [Hout Hfin]. split; [|done]. rewrite <- Hout.
    pose proof (holds_size _ _ _ _ HK) as Hn. rewrite <- Hout in Hn. unfold bv.
    rewrite drop_ge by (rewrite length_replicate; lia). apply app_nil_r. }
  apply ok_bind. unfold call_md_output. apply ok_bind. unfold ok at 1. rewrite Hc, E.
  apply ok_bind. eapply (ok_store_ctx s0 a _ _ (fun c2 => c2 = c')); [exact Hl|done|].
  intros s1 H1. apply ok_bind, ok_assert.
  { apply bool_decide_eq_true. unfold bv. rewrite length_replicate. lia. }
  apply ok_ret. unfold ON_ERR at 1. destruct (Z.eqb_spec rc 0) as [->|Hne]; cbn [negb].
  - apply ok_bind. eapply ok_mono.
    + apply (ok_call_md s0 a _ _ (fun rc => known info key (b && (rc =? 0)) []) g s1 H1).
      intros c1 c2 rc' -> Hg2 Hb. apply andb_true_iff in Hb as [Hb ->%Z.eqb_eq]. eapply Hg; [|exact Hg2]. apply Hbv. by rewrite Hb.
    + intros rc s2. unfold ON_ERR. destruct (rc =? 0); intros H2; apply ok_ret; (split; [done|]).
      * intros Hb. f_equal. apply Hbv. by rewrite andb_true_r in Hb |- *.
      * cbn. by rewrite andb_false_r.
  - apply ok_ret. cbn. rewrite andb_false_r. split; [|done]. eapply live_mono; [|exact H1]. done.
Qed.

Lemma get_digest_ok b m s : holding b m s ->
  ok (get_digest a) s (fun r s' => holding (b && succeeds r) [] s' /\
    (b && succeeds r = true -> r = Dbytevector (md_digest info key m))).
Proof.
  intros Hl. destruct (live_lookup _ _ _ _ _ Hl) as (c & Hc & HK).
  assert (Hload : load_ctx a s = Some (c, s)).
  { unfold load_ctx, load_digest, look, the, mbind, St_bind. cbn. by rewrite Hc. }
  unfold get_digest. apply ok_bind. unfold ok at 1. rewrite Hload. cbv zeta. apply ok_bind.
  eapply ok_load_digest; [exact Hl|]. intros c' _. cbn [use_hmac].
  apply ok_key; intros Hk; apply ok_finish; try done; try (intros c1 c2; destruct key; try done).
  - apply hmac_finish_digest.
  - apply hmac_finish_size.
  - apply hmac_reset_holds.
  - apply finish_digest.
  - apply finish_size.
  - apply restarts_holds.
Qed.
End digest.

(** The key of a code, none for a digest. *)
Definition key_of (hmac_key : datum) : option (option (list Z)) :=
  match hmac_key with
  | Dfalse => Some None
  | Dbytevector key => Some (Some key)
  | _ => None
  end.

Lemma ok_start s0 a info key c0 target f s (P : md_context -> Prop) :
  (forall c c', P c -> f c = (c', 0) -> md_holds c' info key []) ->
  live s0 a (is_key key) P s ->
  ok (rc ← call_md a f;
      ON_ERR (fun err => _ ← mbedtls_md_free a; _ ← free_digest a; mret err) target rc (mret c0)) s
    (fun r s' => r = c0 /\ live s0 a (is_key key) (known info key true []) s' \/
                 Spairp r = true /\ unchanged s0 s').
Proof.
  intros Hf Hl. apply ok_bind. eapply ok_mono.
  - apply (ok_call_md s0 a _ _ (fun rc => known info key (rc =? 0) []) f s Hl).
    intros c c' rc HP Hc ->%Z.eqb_eq. by eapply Hf.
  - intros rc s1. unfold ON_ERR. destruct (rc =? 0); intros H1; cbn [negb].
    + apply ok_ret. by left.
    + apply ok_bind. eapply ok_md_free; [exact H1|]. intros s2 H2. apply ok_bind.
      eapply ok_free_digest; [exact H2|]. intros s3 H3. apply ok_ret. by right.
Qed.

(** The next address is free. *)
Definition sane_digests s : Prop := 0 < next_digest s /\ unused (next_digest s) (digests s).

Lemma ok_init {X} s0 a h (k : St (digest_state B) X) s Q :
  blank s0 a s -> (forall s', live s0 a h (fun c => c = md_init) s' -> ok k s' Q) ->
  ok (_ ← mbedtls_md_init a; c ← load_ctx a; _ ← store_digest a (mkDigest (Some c) h); k) s Q.
Proof.
  intros (H1 & H2 & d & H3) HQ.
  assert (Hd : digests s !! a = Some d) by (by rewrite H3, lookup_insert_eq).
  unfold mbedtls_md_init, store_ctx, load_ctx, store_digest, load_digest.
  do 4 apply ok_bind. apply ok_look. eapply ok_the; [exact Hd|].
  apply ok_bind, ok_bind, ok_look. eapply ok_the; [exact Hd|]. apply ok_change, ok_change.
  do 3 apply ok_bind. apply ok_look. eapply ok_the; [apply lookup_insert_eq|].
  eapply ok_the; [done|]. do 3 apply ok_bind. apply ok_look. eapply ok_the; [apply lookup_insert_eq|].
  apply HQ. constructor; [done|cbn; lia|]. exists md_init. split; [|done]. cbn.
  by rewrite H3, !insert_insert_eq.
Qed.

Lemma open_digest_ok memory name hmac_key s : sane_digests s ->
  ok (open_digest memory name hmac_key) s (fun r s' =>
    (Spairp r = true /\ unchanged s s') \/
    exists a info key, r = Dinteger a /\ md_info_from_string name = Some info /\
      key_of hmac_key = Some key /\ live s a (is_key key) (known info key true []) s').
Proof.
  intros [Hn Hu]. unfold open_digest.
  destruct (key_of hmac_key) as [key|] eqn:Ek.
  2: { destruct hmac_key; try done; apply ok_ret; by left. }
  replace (negb _) with false by (by destruct hmac_key).
  destruct (md_info_from_string name) as [info|]; [|apply ok_ret; by left].
  destruct memory; [|apply ok_ret; by left]. cbn [malloc_digest].
  apply ok_bind, ok_bind, ok_look, ok_bind, ok_change, ok_ret. set (a := next_digest s).
  destruct (Z.eqb_spec a 0); [lia|]. cbv zeta.
  replace (Sbytevectorp hmac_key) with key by (by destruct hmac_key; inversion Ek).
  fold (is_key key). set (s1 := mkState _ _ _).
  assert (H1 : blank s a s1) by (split; [by apply Hu|split; [done|by eexists]]).
  eapply ok_init; [exact H1|]. clear H1. intros s2 H2. apply ok_bind. eapply ok_mono.
  { apply (ok_call_md s a _ _ (fun rc c => rc = 0 -> md_ready c info (is_key key)) _ s2 H2).
    intros c c' rc -> Hc ->. by eapply setup_ready. }
  intros rc s3. unfold ON_ERR at 1. destruct (Z.eqb_spec rc 0) as [->|Hne]; intros H3; cbn [negb].
  - assert (Hend : forall r s', (r = Dinteger a /\ live s a (is_key key) (known info key true []) s' \/
      Spairp r = true /\ unchanged s s') -> (Spairp r = true /\ unchanged s s') \/
      exists a' info' key', r = Dinteger a' /\ Some info = Some info' /\ Some key = Some key' /\
        live s a' (is_key key') (known info' key' true []) s').
    { intros r s' [[-> Hl]|H]; [right; by exists a, info, key|by left]. }
    destruct key as [key|]; (eapply ok_mono; [eapply ok_start; [|exact H3]|exact Hend]);
      intros c c' Hc; [apply hmac_starts_holds|apply starts_holds]; by apply Hc.
  - apply ok_bind. eapply ok_md_free; [exact H3|]. intros s4 H4. apply ok_bind.
    eapply ok_free_digest; [exact H4|]. intros s5 H5. apply ok_ret. by left.
Qed.

Lemma close_digest_ok s0 a h P s : live s0 a h P s ->
  ok (close_digest a) s (fun _ s' => unchanged s0 s').
Proof.
  intros Hl. unfold close_digest. apply ok_bind. eapply ok_md_free; [exact Hl|]. intros s1 H1.
  by eapply ok_free_digest.
Qed.

(** C39: the digest provider. Opening a digest either gives an error and leaves nothing behind, or
    the digest of a known algorithm, for a key or without one.  Two messages given in slices, each
    followed by a request for its digest, and closing then run to the end whatever the library
    answers, and release everything; and as long as no operation gives an error, the results are
    the digests of the messages, the second unaffected by the first. *)
Theorem digest_provider memory name hmac_key s l1 l2 :
  sane_digests s -> Forall valid l1 -> Forall valid l2 ->
  exists r s1, open_digest memory name hmac_key s = Some (r, s1) /\
    ((Spairp r = true /\ unchanged s s1) \/
     exists a info key, r = Dinteger a /\ md_info_from_string name = Some info /\
       key_of hmac_key = Some key /\
       exists rs1 d1 rs2 d2 s2,
         (rs1 ← hash_slices a l1; d1 ← get_digest a; rs2 ← hash_slices a l2; d2 ← get_digest a;
          _ ← close_digest a; mret (rs1, d1, rs2, d2)) s1 = Some (rs1, d1, rs2, d2, s2) /\
         unchanged s s2 /\
         (forallb succeeds (rs1 ++ [d1]) = true ->
            d1 = Dbytevector (md_digest info key (concat (map slice_bytes l1)))) /\
         (forallb succeeds (rs1 ++ d1 :: rs2 ++ [d2]) = true ->
            d2 = Dbytevector (md_digest info key (concat (map slice_bytes l2))))).
Proof.
  intros Hs Hv1 Hv2.
  destruct (ok_result _ _ _ (open_digest_ok memory name hmac_key s Hs)) as (r & s1 & Hr & Hopen).
  exists r, s1. split; [exact Hr|]. destruct Hopen as [H|(a & info & key & -> & Hi & Hk & Hl)]; [by left|].
  right. exists a, info, key. repeat (split; [done|]).
  set (m := _ ≫= _).
  assert (Hok : ok m s1 (fun x s2 => let '(rs1, d1, rs2, d2) := x in unchanged s s2 /\
    (forallb succeeds rs1 && succeeds d1 = true ->
       d1 = Dbytevector (md_digest info key (concat (map slice_bytes l1)))) /\
    (forallb succeeds rs1 && succeeds d1 && forallb succeeds rs2 && succeeds d2 = true ->
       d2 = Dbytevector (md_digest info key (concat (map slice_bytes l2)))))).
  { unfold m. clear m. apply ok_bind. eapply ok_mono; [by eapply hash_slices_ok|]. intros rs1 s2 H2.
    apply ok_bind. eapply ok_mono; [eapply get_digest_ok, H2|]. intros d1 s3 [H3 Hd1].
    apply ok_bind. eapply ok_mono; [by eapply hash_slices_ok|]. intros rs2 s4 H4.
    apply ok_bind. eapply ok_mono; [eapply get_digest_ok, H4|]. intros d2 s5 [H5 Hd2].
    apply ok_bind. eapply ok_mono; [eapply close_digest_ok, H5|]. intros u s6 H6.
    apply ok_ret. by split. }
  destruct (ok_result _ _ _ Hok) as ([[[rs1 d1] rs2] d2] & s2 & Hrun & Hun & H1 & H2).
  exists rs1, d1, rs2, d2, s2. repeat (split; [done|]).
  split; intros Hall; [apply H1|apply H2]; rewrite <- Hall;
    rewrite ?forallb_app; cbn; rewrite ?forallb_app; cbn; by rewrite ?andb_true_r, ?andb_assoc.
Qed.
End digests.

(** A library of checksums: the context is the message and the key. *)
Definition checksum (key : option (list Z)) (m : list Z) : list Z :=
  [u8 (foldr Z.add 0 (default [] key ++ m))].
Definition example_mbedtls : Mbedtls := {|
  md_context := option (list Z) * list Z;
  md_info := unit;
  md_info_from_string name := if decide (name = [83; 85; 77]) then Some tt else None;
  md_init := (None, []);
  md_setup c _ _ := (c, 0);
  md_starts c := ((None, []), 0);
  md_update c b := ((c.1, c.2 ++ b), 0);
  md_finish c := (c, checksum c.1 c.2, 0);
  md_hmac_starts _ key := ((Some key, []), 0);
  md_hmac_update c b := ((c.1, c.2 ++ b), 0);
  md_hmac_finish c := (c, checksum c.1 c.2, 0);
  md_hmac_reset c := ((c.1, []), 0);
  md_get_size _ := 1;
  mbedtls_strerror _ := [];
  mbedtls_base64_encode _ _ := ([], 0, -42);
  mbedtls_base64_decode _ _ := ([], 0, -42);
  version_string := [51]
|}.

#[refine] Instance example_digests : Digests example_mbedtls := {
  md_ready _ _ _ := True;
  md_holds c _ key m := c = (key, m);
  md_finished c _ key := c.1 = key;
  md_digest _ key m := checksum key m
}.
Proof.
  all: cbn; unfold checksum; intros; simplify_eq/=; try done.
  all: by destruct c; simplify_eq/=.
Defined.

(** A code with a key, in two slices, then the empty message. *)
Definition no_digests : digest_state example_mbedtls := mkState ∅ 0 1.

Definition example_slices : list slice := [mkSlice [1; 2; 3] 0 2; mkSlice [9; 3] 1 1].
Definition example_open : St (digest_state example_mbedtls) datum :=
  open_digest (C := example_scheme) true [83; 85; 77] (Dbytevector [7]).
Definition example_session : St (digest_state example_mbedtls) (list datum * datum * list datum * datum) :=
  rs1 ← hash_slices (C := example_scheme) 1 example_slices;
  d1 ← get_digest (C := example_scheme) 1;
  rs2 ← hash_slices (C := example_scheme) 1 [];
  d2 ← get_digest (C := example_scheme) 1;
  _ ← close_digest 1;
  mret (rs1, d1, rs2, d2).

Lemma digest_provider_witness : exists s1 rs1 rs2 s2,
  example_open no_digests = Some (Dinteger 1, s1) /\
  example_session s1 = Some (rs1, Dbytevector [13], rs2, Dbytevector [7], s2) /\ digests s2 = ∅.
Proof.
  destruct (digest_provider (C := example_scheme) true [83; 85; 77] (Dbytevector [7]) no_digests
    example_slices []) as (r & s1 & Hr & Hd).
  - split; [done|]. intros k _. apply lookup_empty.
  - repeat constructor; cbn; unfold is_byte, is_uint; lia.
  - constructor.
  - assert (E : match example_open no_digests with
      | Some (Dinteger 1, s1) =>
        match example_session s1 with
        | Some (rs1, d1, rs2, d2, _) =>
          forallb succeeds (rs1 ++ [d1]) && forallb succeeds (rs1 ++ d1 :: rs2 ++ [d2])
        | None => false
        end
      | _ => false
      end = true) by (vm_compute; reflexivity).
    unfold example_open in E. rewrite Hr in E.
    destruct Hd as [[Hp _]|(a & info & key & -> & _ & Hk & rs1 & d1 & rs2 & d2 & s2 & Hrun & [Hs _] & H1 & H2)];
      [by destruct r|].
    destruct (decide (a = 1)) as [->|Hne].
    2: { exfalso. destruct a as [|[p|p|]|p]; try discriminate E. by apply Hne. }
    injection Hk as <-. unfold example_session in E. rewrite Hrun in E.
    apply andb_true_iff in E as [E1 E2]. specialize (H1 E1). specialize (H2 E2).
    exists s1, rs1, rs2, s2. split; [exact Hr|]. split; [|exact Hs].
    unfold example_session. rewrite Hrun, H1, H2. reflexivity.
Defined.
