(* ===== verification/System.v ===== *)
(** * System: what osi.c asks the operating system

    The arguments of the program, memory, identifiers, names and directories, the clocks and
    the quantum of the scheduler.  What libuv and the system answer is an argument of the
    functions: the result code and the bytes written to the buffer. *)

From S2P Require Export Sqlite.

(** An answer of libuv: its result code, and the bytes it left in the buffer, of the length it
    reported. *)
Definition answer : Type := Z * list Z.

(** The bytes of a C string, up to its null byte. *)
Fixpoint c_chars (l : list Z) : list Z :=
  match l with [] => [] | c :: l => if c =? 0 then [] else c :: c_chars l end.

Section system.
Context {C : Scheme}.

(** ** Arguments *)

(** [g_argv], the first [g_argc] of which count. *)
Record arguments := mkArguments { g_argc : Z; g_argv : list (list Z) }.

Definition osi_set_argv (argc : Z) (argv : list (list Z)) : arguments := mkArguments argc argv.

(** The loop over the arguments; [None] past the end of the array. *)
Fixpoint get_args (n : nat) (argv : list (list Z)) : option (list datum) :=
  match n, argv with
  | O, _ => Some []
  | S n, arg :: argv => l ← get_args n argv; Some (Dstring (string_utf8 (c_chars arg)) :: l)
  | S _, [] => None
  end.
Definition osi_get_argv (a : arguments) : option datum :=
  l ← get_args (Z.to_nat (g_argc a)) (g_argv a); Some (Dvector l).

(** ** Memory *)

(** The figures of the allocator, by platform: [mstats], [mallinfo] or [mallinfo2] of glibc, the
    entries [_heapwalk] visits with whether they are in use and their sizes, nothing. *)
Inductive allocator :=
| Apple (bytes_used : Z)
| Glibc (hblkhd uordblks : Z)
| Windows (entries : list (bool * Z))
| Other.

Definition osi_get_bytes_used (m : allocator) : Z :=
  match m with
  | Apple n => n
  | Glibc hblkhd uordblks => u64 (hblkhd + uordblks)
  | Windows entries => fold_left (fun used '(in_use, n) => if in_use : bool then u64 (used + n) else used) entries 0
  | Other => 0
  end.

(** ** Identifiers and names *)

(** [uuid_generate] fills the 16 bytes of the bytevector. *)
Definition osi_make_uuid (generated : list Z) : datum := Dbytevector (take 16 generated).

Definition osi_get_pid (pid : Z) : Z := pid.

(** The four functions that fill a buffer; [osi_get_hostname] takes any code but 0 for an error. *)
Definition text_or_error (who : string) (a : answer) : datum :=
  let '(rc, buf) := a in
  if rc <? 0 then error_pair who rc else Dstring (string_utf8 buf).
Definition osi_get_executable_path (a : answer) : datum := text_or_error "uv_exepath" a.
Definition osi_get_home_directory (a : answer) : datum := text_or_error "uv_os_homedir" a.
Definition osi_get_temp_directory (a : answer) : datum := text_or_error "uv_os_tmpdir" a.
Definition osi_get_hostname (a : answer) : datum :=
  let '(rc, buf) := a in
  if 0 =? rc then Dstring (string_utf8 buf) else error_pair "uv_os_gethostname" rc.

(** [uv_utsname_t]. *)
Record utsname := mkUtsname { sysname : list Z; release : list Z; version : list Z; machine : list Z }.
Definition osi_get_uname (rc : Z) (buf : utsname) : datum :=
  if negb (rc =? 0) then error_pair "uv_os_uname" rc else
  let text l := Dstring (string_utf8 (c_chars l)) in
  Dvector [Dsymbol "<uname>"; text (sysname buf); text (release buf); text (version buf); text (machine buf)].

(** [list_uv_cb] on each handle [uv_walk] visits: its address and its type. *)
Definition list_uv_cb (ls : datum) (handle : Z * Z) : datum :=
  Dpair (Dpair (Dinteger (u64 handle.1)) (Dinteger (i32 handle.2))) ls.
Definition osi_list_uv_handles (handles : list (Z * Z)) : datum := fold_left list_uv_cb handles Dnil.
End system.

(** ** Clocks *)

Definition osi_get_hrtime (hrtime : Z) : Z := hrtime.

(** [g_threshold] after [osi_set_quantum] at the time [hrtime]. *)
Definition osi_set_quantum (hrtime nanoseconds : Z) : Z := u64 (hrtime + nanoseconds).
Definition osi_is_quantum_over (hrtime g_threshold : Z) : Z := c_bool (g_threshold <=? hrtime).

(** [clock_gettime]: whether it failed, seconds and nanoseconds. *)
Definition osi_get_time (failed : bool) (tv_sec tv_nsec : Z) : Z :=
  if failed then 0 else u64 (u64 tv_sec * 1000 + tv_nsec / 1000000).
(** On Windows: the number of 100-nanosecond intervals since 1601. *)
Definition osi_get_time_windows (now : Z) : Z := u64 (now / 10000 - 11644473600000).

(** ** Properties *)

(** Theorem: a quantum of [n] nanoseconds set at the time [t0] is over from the time [t0 + n] on and
    not before, as long as [t0 + n] is less than 2^64; a longer one is over at once. *)
Theorem quantum_bounds t0 n t : is_uint 64 t0 -> is_uint 64 n -> t0 <= t -> is_uint 64 t ->
  osi_is_quantum_over t (osi_set_quantum t0 n) =
    (if t0 + n <? 2 ^ 64 then c_bool (n <=? t - t0) else 1).
Proof.
  unfold is_uint, osi_is_quantum_over, osi_set_quantum, u64, wrap. intros H0 Hn Hle Ht.
  destruct (Z.ltb_spec (t0 + n) (2 ^ 64)).
  - rewrite Z.mod_small by lia. f_equal. destruct (Z.leb_spec (t0 + n) t), (Z.leb_spec n (t - t0)); lia.
  - replace ((t0 + n) mod 2 ^ 64) with (t0 + n - 2 ^ 64).
    + destruct (Z.leb_spec (t0 + n - 2 ^ 64) t); [done|lia].
    + symmetry. rewrite <- (Z.mod_small (t0 + n - 2 ^ 64) (2 ^ 64)) by lia.
      rewrite Zminus_mod, Z_mod_same_full, Z.sub_0_r, Zmod_mod. done.
Qed.

(** The 100-nanosecond intervals of Windows since 1601, for a time since 1970. *)
Definition filetime (tv_sec tv_nsec : Z) : Z := (tv_sec + 11644473600) * 10000000 + tv_nsec / 100.

(** Theorem: the two implementations of [osi_get_time] give the same number of milliseconds since 1970
    for the same moment, and [clock_gettime] failing gives 0. *)
Theorem time_platforms_agree tv_sec tv_nsec : 0 <= tv_sec < 2 ^ 53 -> 0 <= tv_nsec < 1000000000 ->
  osi_get_time false tv_sec tv_nsec = osi_get_time_windows (filetime tv_sec tv_nsec) /\
  osi_get_time false tv_sec tv_nsec = tv_sec * 1000 + tv_nsec / 1000000 /\
  osi_get_time true tv_sec tv_nsec = 0.
Proof.
  intros Hs Hn. unfold osi_get_time, osi_get_time_windows, filetime.
  assert (E1 : u64 (u64 tv_sec * 1000 + tv_nsec / 1000000) = tv_sec * 1000 + tv_nsec / 1000000).
  { assert (0 <= tv_nsec / 1000000 < 1000) by (split; [apply Z.div_pos; lia|apply Z.div_lt_upper_bound; lia]).
    unfold u64, wrap. rewrite (Z.mod_small tv_sec) by lia. apply Z.mod_small. lia. }
  assert (E2 : ((tv_sec + 11644473600) * 10000000 + tv_nsec / 100) / 10000 - 11644473600000 =
    tv_sec * 1000 + tv_nsec / 1000000).
  { replace ((tv_sec + 11644473600) * 10000000) with ((tv_sec + 11644473600) * 1000 * 10000) by lia.
    rewrite Z.div_add_l, Zdiv.Zdiv_Zdiv by lia. change (100 * 10000) with 1000000. lia. }
  rewrite E1, E2. split; [|done]. unfold u64, wrap. symmetry. apply Z.mod_small.
  assert (0 <= tv_nsec / 1000000 < 1000) by (split; [apply Z.div_pos; lia|apply Z.div_lt_upper_bound; lia]).
  lia.
Qed.

Section arguments.
Context {C : Scheme}.

Lemma c_chars_terminated l rest : Forall (fun c => c <> 0) l -> c_chars (l ++ 0 :: rest) = l.
Proof.
  induction 1 as [|c l Hc Hl IH]; [done|]. cbn [app c_chars].
  destruct (Z.eqb_spec c 0); [done|]. by rewrite IH.
Qed.

(** Theorem: Scheme sees the arguments the program was started with: as many as [argc] tells, in their
    order, each decoded from its bytes up to the terminating null byte. *)
Theorem argv_decoded (args : list (list Z)) : Forall (Forall (fun c => c <> 0)) args ->
  osi_get_argv (osi_set_argv (Z.of_nat (length args)) (map (fun a => a ++ [0]) args)) =
    Some (Dvector (map (fun a => Dstring (string_utf8 a)) args)).
Proof.
  intros H. unfold osi_get_argv, osi_set_argv. cbn [g_argc g_argv]. rewrite Nat2Z.id.
  enough (E : get_args (length args) (map (fun a => a ++ [0]) args) =
    Some (map (fun a => Dstring (string_utf8 a)) args)) by (rewrite E; done).
  induction H as [|a args Ha Hargs IH]; [done|]. cbn [length map get_args]. rewrite IH. cbn.
  by rewrite c_chars_terminated.
Qed.
End arguments.

Lemma quantum_bounds_witness : osi_is_quantum_over 150 (osi_set_quantum 100 50) = 1 /\
  osi_is_quantum_over 149 (osi_set_quantum 100 50) = 0.
Proof.
  split.
  - rewrite (quantum_bounds 100 50 150); [reflexivity|unfold is_uint; lia..|lia|unfold is_uint; lia].
  - rewrite (quantum_bounds 100 50 149); [reflexivity|unfold is_uint; lia..|lia|unfold is_uint; lia].
Defined.

Lemma time_platforms_agree_witness :
  osi_get_time false 1700000000 123456789 = osi_get_time_windows (filetime 1700000000 123456789).
Proof. apply (time_platforms_agree 1700000000 123456789); lia. Defined.

Lemma argv_decoded_witness :
  osi_get_argv (C := {| has_try_int64_value := None; Sinteger64_value := fun n => n; string_utf8 := fun l => l |})
    (osi_set_argv 2 [[97; 0]; [98; 99; 0]]) = Some (Dvector [Dstring [97]; Dstring [98; 99]]).
Proof.
  apply (@argv_decoded {| has_try_int64_value := None; Sinteger64_value := fun n => n; string_utf8 := fun l => l |} [[97]; [98; 99]]).
  repeat constructor; lia.
Defined.
