(* ===== verification/Startup.v ===== *)
(** * Startup: the start and the end of the program

    run.c, main.c and [osi_exit] of osi.c: the arguments, the boot file next to the executable,
    the procedures Scheme code can call, the way the exit status travels from [osi_exit] to
    the caller of [swish_run], and the messages of the system services.  Strings are lists of
    bytes without their terminating null byte, unless it is shown. *)

From S2P Require Export System.
From S2P Require Import Format.

(** ** Strings of the C library *)

(** [strncmp] gives 0, and [_strnicmp] with the lower-case letters; past the end of a list is
    its null byte. *)
Definition lower (c : Z) : Z := if (65 <=? c) && (c <=? 90) then c + 32 else c.
Fixpoint strn_equal (fold : Z -> Z) (n : nat) (a b : list Z) : bool :=
  match n with
  | O => true
  | S n =>
    let x := hd 0 a in
    (fold x =? fold (hd 0 b)) && ((x =? 0) || strn_equal fold n (tl a) (tl b))
  end.
(** [strcmp] gives 0. *)
Definition str_equal (a b : list Z) : bool := bool_decide (a = b).

(** [strrchr]: the rest of the string from the last [c] on. *)
Fixpoint strrchr (c : Z) (l : list Z) : option (list Z) :=
  match l with
  | [] => None
  | x :: l' =>
    match strrchr c l' with
    | Some r => Some r
    | None => if x =? c then Some l else None
    end
  end.

(** [memcpy] into a block, whose bytes are not all written; [None] outside of it. *)
Definition memcpy (block : list (option Z)) (at_ : nat) (src : list Z) : option (list (option Z)) :=
  if (at_ + length src <=? length block)%nat
  then Some (take at_ block ++ (Some <$> src) ++ drop (at_ + length src) block) else None.
(** The string in a block; [None] when it is not terminated or has unwritten bytes. *)
Fixpoint block_string (block : list (option Z)) : option (list Z) :=
  match block with
  | Some c :: block => if c =? 0 then Some [] else l ← block_string block; Some (c :: l)
  | _ => None
  end.

Section run.
(** Windows or not. *)
Variable windows : bool.

(** ** The boot file *)

Inductive boot_result := Boot_exit (status : Z) | Boot_file (block : list (option Z)).

(** [get_boot_fn]; [allocated] tells whether [malloc] succeeds.  [None] is a write outside the
    block. *)
Definition get_boot_fn (exepath : answer) (allocated : bool) : option boot_result :=
  let '(rc, execfn) := exepath in
  if rc <? 0 then Some (Boot_exit 1) else
  let suffix := chars ".boot" in
  let pathlast := length execfn in
  if negb allocated then Some (Boot_exit 1) else
  let bootfn := replicate (pathlast + length suffix + 1) None in
  let pathlast :=
    if windows then
      match strrchr 46 execfn with
      | Some e => if strn_equal lower 5 e (chars ".exe") then (pathlast - length (chars ".exe"))%nat else pathlast
      | None => pathlast
      end
    else pathlast in
  bootfn ← memcpy bootfn 0 (take pathlast execfn);
  bootfn ← memcpy bootfn pathlast suffix;
  bootfn ← memcpy bootfn (pathlast + length suffix) [0];
  Some (Boot_file bootfn).

Definition allow_verbose_flag (bootfn : list Z) : bool :=
  let len := length bootfn in
  let suffix := chars (if windows then "\swish.boot" else "/swish.boot") in
  (length suffix <=? len)%nat &&
  strn_equal (if windows then lower else id) (length suffix) (drop (len - length suffix) bootfn) suffix.

(** ** Initialising Scheme *)

(** What [swish_init] registers. *)
Definition foreign_symbols : list string :=
  ["osi_bind_statement"; "osi_bind_statement_bindings"; "osi_bulk_execute"; "osi_chmod";
   "osi_clear_statement_bindings"; "osi_close_SHA1"; "osi_close_database";
   "osi_close_path_watcher"; "osi_close_port"; "osi_close_tcp_listener"; "osi_connect_tcp";
   "osi_exit"; "osi_finalize_statement"; "osi_get_SHA1"; "osi_get_argv"; "osi_get_bindings";
   "osi_get_bytes_used"; "osi_get_callbacks"; "osi_get_error_text"; "osi_get_executable_path";
   "osi_get_file_size"; "osi_get_home_directory"; "osi_get_hostname"; "osi_get_hrtime";
   "osi_get_ip_address"; "osi_get_last_insert_rowid"; "osi_get_pid"; "osi_get_real_path";
   "osi_get_sqlite_status"; "osi_get_stat"; "osi_get_statement_columns";
   "osi_get_statement_expanded_sql"; "osi_get_tcp_listener_port"; "osi_get_temp_directory";
   "osi_get_time"; "osi_get_uname"; "osi_hash_data"; "osi_init"; "osi_interrupt_database";
   "osi_is_quantum_over"; "osi_is_service"; "osi_kill"; "osi_list_directory";
   "osi_list_uv_handles"; "osi_listen_tcp"; "osi_make_directory"; "osi_make_uuid";
   "osi_marshal_bindings"; "osi_open_SHA1"; "osi_open_database"; "osi_open_fd"; "osi_open_file";
   "osi_prepare_statement"; "osi_read_port"; "osi_remove_directory"; "osi_rename";
   "osi_reset_statement"; "osi_set_quantum"; "osi_spawn"; "osi_spawn_detached"; "osi_start_signal";
   "osi_step_statement"; "osi_stop_signal"; "osi_tcp_nodelay"; "osi_tcp_write2"; "osi_unlink";
   "osi_unmarshal_bindings"; "osi_watch_path"; "osi_write_port"; "uv_get_free_memory";
   "uv_get_total_memory"].
Definition swish_init (g_aux_init : option (list string)) : list string :=
  foreign_symbols ++ default [] g_aux_init.

(** The calls of the Scheme library, and what the program does at its start. *)
Inductive start_event :=
| Sscheme_init
| Sset_verbose (n : Z)
| Sregister_boot_file (name : list Z)
| Osi_set_argv (argc : Z) (argv : list (list Z))
| Sbuild_heap (name : list Z) (symbols : list string)
| Osi_init.

(** [scheme_init]: what it does, or the status it exits with. *)
Definition scheme_init (exepath : answer) (allocated : bool) (argc : Z) (argv : list (list Z))
    (custom_init : option (list string)) : option (Z + list start_event) :=
  boot ← get_boot_fn exepath allocated;
  match boot with
  | Boot_exit status => Some (inl status)
  | Boot_file block =>
    bootfn ← block_string block;
    name ← argv !! 0%nat;
    verbose ← (if 2 <=? argc then
      arg ← argv !! 1%nat;
      Some (str_equal arg (chars "--verbose") && allow_verbose_flag bootfn)
      else Some false);
    Some (inr ([Sscheme_init] ++ (if verbose : bool then [Sset_verbose 1] else []) ++
      [Sregister_boot_file bootfn; Osi_set_argv argc argv; Sbuild_heap name (swish_init custom_init);
       Osi_init]))
  end.
End run.

(** ** The end of the program *)

(** [g_exit]: the jump buffer is set, the status, whether [exit] could block. *)
Record jmp_t := mkJmp { initialized : bool; status : Z; force : bool }.

(** What [osi_exit] does with the handles, in order. *)
Inductive exit_event := Destroy_cond | Destroy_mutex | Stop_timer | Close_timer | Close_async
  | Drop_callbacks | Loop_close.
Definition exit_events : list exit_event :=
  [Destroy_cond; Destroy_mutex; Stop_timer; Close_timer; Close_async; Drop_callbacks; Loop_close].

(** [osi_exit]: a jump to [swish_start] with the new [g_exit], or [_exit].  [busy] is what
    [uv_loop_close] returns. *)
Definition osi_exit (g_exit : jmp_t) (exit_status busy : Z) : list exit_event * (jmp_t + Z) :=
  let g_exit := mkJmp (initialized g_exit) (status g_exit) (negb (busy =? 0)) in
  (exit_events,
   if initialized g_exit then inl (mkJmp true exit_status (force g_exit)) else inr exit_status).

(** How [Sscheme_start] ends: it returns, or calls [osi_exit] with a loop that is busy or not. *)
Inductive scheme_run := Scheme_returns (status : Z) | Scheme_exits (status busy : Z).

(** [osi_init] makes the loop once; the second call does nothing. *)
Definition osi_init (osi_loop : option positive) (g_loop : positive) : option positive :=
  match osi_loop with Some l => Some l | None => Some g_loop end.

(** ** main.c *)

(** The loop that fills the new vector from index [i] on, [n] entries; [None] outside of either
    vector. *)
Fixpoint fill_args (argv : list (list Z)) (shift i n : nat) (new_argv : list (list Z)) : option (list (list Z)) :=
  match n with
  | O => Some new_argv
  | S n =>
    a ← argv !! (i + shift)%nat;
    if (i <? length new_argv)%nat then fill_args argv shift (S i) n (<[i := a]> new_argv) else None
  end.
(** The vector passed to [swish_service] without its null pointer: the arguments from
    [argv[1 + shift]] on after [argv[0]]. *)
Definition service_args (shift : nat) (argv : list (list Z)) : option (list (list Z)) :=
  argv0 ← argv !! 0%nat;
  let new_argc := (length argv - shift)%nat in
  fill_args argv shift 1 (new_argc - 1) (<[0%nat := argv0]> (replicate new_argc [])).

(** What the program goes on with: the service, on Windows with its name and log file, the
    program, or an exit status. *)
Inductive main_call :=
| Call_service (argv : list (list Z))
| Call_windows_service (name logfile : list Z) (argv : list (list Z))
| Call_run (argv : list (list Z))
| Main_exit (status : Z).

Definition is_service (argv : list (list Z)) : bool :=
  default false (a ← argv !! 1%nat; Some (str_equal a (chars "/SERVICE"))).

(** [main]; [allocated] tells whether [malloc] succeeds. *)
Definition main (allocated : bool) (argv : list (list Z)) : option main_call :=
  if (1 <? length argv)%nat && is_service argv then
    if negb allocated then Some (Main_exit 1)
    else new_argv ← service_args 1 argv; Some (Call_service new_argv)
  else Some (Call_run argv).

(** What Windows answers: the conversion of an argument, which can fail; the length of the name
    of the executable against the room for it; the libraries and procedures that are found. *)
Record windows_answers := mkWindows {
  convert : list Z -> option (list Z);
  name_len : Z; max_len : Z;
  loads : string -> bool;
  resolves : string -> bool
}.

(** [to_utf8] on each argument. *)
Fixpoint to_utf8 (w : windows_answers) (argv : list (list Z)) : option (list (list Z)) :=
  match argv with
  | [] => Some []
  | a :: argv => b ← convert w a; l ← to_utf8 w argv; Some (b :: l)
  end.

(** [wmain]: the arguments are converted, the libraries loaded in order, then the procedure. *)
Definition wmain (w : windows_answers) (argv : list (list Z)) : option main_call :=
  match to_utf8 w argv with
  | None => Some (Main_exit 1)
  | Some argv8 =>
    if (name_len w =? 0) || (max_len w <? name_len w) then Some (Main_exit 2) else
    if negb (forallb (loads w) ["scheme"; "uv"; "sqlite3"; "osi"]%string) then Some (Main_exit 1) else
    if (4 <=? length argv)%nat && is_service argv8 then
      new_argv ← service_args 3 argv8;
      if negb (resolves w "swish_service") then Some (Main_exit 3) else
      name ← argv !! 2%nat;
      logfile ← argv !! 3%nat;
      Some (Call_windows_service name logfile new_argv)
    else if negb (resolves w "swish_run") then Some (Main_exit 3)
    else Some (Call_run argv8)
  end.

(** ** Properties *)

Lemma memcpy_exact done src n k : (length src <= n)%nat -> length done = k ->
  memcpy ((Some <$> done) ++ replicate n None) k src =
    Some ((Some <$> (done ++ src)) ++ replicate (n - length src) None).
Proof.
  intros Hn Hk. unfold memcpy. rewrite length_app, length_fmap, length_replicate, Hk.
  destruct (Nat.leb_spec (k + length src) (k + n)); [|lia]. f_equal.
  rewrite take_app_length' by (by rewrite length_fmap).
  rewrite drop_app_ge by (rewrite length_fmap; lia). rewrite length_fmap, Hk.
  replace (k + length src - k)%nat with (length src) by lia.
  rewrite drop_replicate, fmap_app, <- app_assoc. done.
Qed.

Lemma block_string_exact l rest : Forall (fun c => c <> 0) l ->
  block_string ((Some <$> (l ++ [0])) ++ rest) = Some l.
Proof.
  induction 1 as [|c l Hc Hl IH]; [done|]. cbn [app fmap list_fmap block_string].
  destruct (Z.eqb_spec c 0); [done|]. cbn. cbn in IH. by rewrite IH.
Qed.

(** What is left of the name of the executable. *)
Definition boot_stem (windows : bool) (l : list Z) : list Z :=
  if windows then
    match strrchr 46 l with
    | Some e => if strn_equal lower 5 e (chars ".exe") then take (length l - 4) l else l
    | None => l
    end
  else l.

Lemma boot_stem_length windows l : (length (boot_stem windows l) <= length l)%nat.
Proof.
  unfold boot_stem. destruct windows; [|done]. destruct (strrchr 46 l); [|done].
  destruct (strn_equal _ _ _ _); [rewrite length_take; lia|done].
Qed.

Lemma get_boot_fn_spec windows l : Forall (fun c => c <> 0) l ->
  exists block, get_boot_fn windows (0, l) true = Some (Boot_file block) /\
    length block = (length l + 6)%nat /\ block_string block = Some (boot_stem windows l ++ chars ".boot").
Proof.
  intros Hl. unfold get_boot_fn. cbn [Z.ltb Z.compare negb].
  change (length (chars ".exe")) with 4%nat. change (length (chars ".boot")) with 5%nat.
  set (p := (if windows then match strrchr 46 l with
      | Some e => if strn_equal lower 5 e (chars ".exe") then (length l - 4)%nat else length l
      | None => length l end else length l)).
  assert (Hp : take p l = boot_stem windows l /\ (p <= length l)%nat).
  { unfold p, boot_stem. destruct windows; [|by rewrite firstn_all].
    destruct (strrchr 46 l); [|by rewrite firstn_all].
    destruct (strn_equal _ _ _ _); [|by rewrite firstn_all]. split; [done|lia]. }
  destruct Hp as [Hp Hle]. assert (Hlen : length (take p l) = p) by (rewrite length_take; lia).
  change (replicate (length l + 5 + 1) None) with ((Some <$> []) ++ @replicate (option Z) (length l + 5 + 1) None).
  rewrite (memcpy_exact [] (take p l) _ 0) by (done || lia). cbn [mbind option_bind app].
  rewrite (memcpy_exact (take p l) (chars ".boot") _ p) by (done || (change (length (chars ".boot")) with 5%nat; lia)).
  cbn [mbind option_bind].
  rewrite (memcpy_exact (take p l ++ chars ".boot") [0] _ (p + 5)).
  2:{ change (length (chars ".boot")) with 5%nat. cbn [length]. lia. }
  2:{ rewrite length_app, Hlen. done. }
  cbn [mbind option_bind]. eexists. split; [done|]. split.
  - rewrite length_app, length_fmap, !length_app, length_replicate, Hlen.
    change (length (chars ".boot")) with 5%nat. cbn [length]. lia.
  - rewrite Hp. apply block_string_exact. apply Forall_app. split; [|by repeat constructor].
    rewrite <- Hp. by apply Forall_take.
Qed.

Lemma strrchr_none c l : c ∉ l -> strrchr c l = None.
Proof.
  induction l as [|x l IH]; [done|]. rewrite not_elem_of_cons. intros [Hx Hl]. cbn [strrchr].
  rewrite IH by done. destruct (Z.eqb_spec x c); [by destruct Hx|done].
Qed.

Lemma strrchr_some c p r : c ∉ r -> strrchr c (p ++ c :: r) = Some (c :: r).
Proof.
  intros Hr. induction p as [|x p IH]; cbn [app strrchr].
  - rewrite strrchr_none by done. by rewrite Z.eqb_refl.
  - by rewrite IH.
Qed.

Lemma strrchr_suffix c l e : strrchr c l = Some e -> exists p, l = p ++ e.
Proof.
  induction l as [|x l IH]; [done|]. cbn [strrchr]. destruct (strrchr c l) as [r|].
  - intros [= ->]. destruct IH as [p ->]; [done|]. by exists (x :: p).
  - destruct (x =? c); [|done]. intros [= <-]. by exists [].
Qed.

Lemma lower_zero c : lower c = 0 -> c = 0.
Proof. unfold lower. destruct (Z.leb_spec 65 c), (Z.leb_spec c 90); cbn; lia. Qed.
Lemma lower_dot c : lower c = 46 -> c = 46.
Proof. unfold lower. destruct (Z.leb_spec 65 c), (Z.leb_spec c 90); cbn; lia. Qed.

(** Comparing with a string that ends within the bound is comparing whole strings. *)
Lemma strn_equal_spec fold b : (forall c, fold c = 0 <-> c = 0) -> Forall (fun c => c <> 0 /\ fold c = c) b ->
  forall a n, Forall (fun c => c <> 0) a -> (length b < n)%nat ->
  strn_equal fold n a b = true <-> map fold a = b.
Proof.
  intros Hf Hb. induction Hb as [|y b [Hy Hfy] Hb IH]; intros a n Ha Hn;
    (destruct n as [|n]; [cbn in Hn; lia|]); cbn [strn_equal].
  - destruct a as [|x a]; cbn; [by rewrite Z.eqb_refl|]. apply Forall_cons in Ha as [Hx _].
    assert (E : fold 0 = 0) by (by apply Hf). rewrite E. split; [|discriminate].
    intros [H _]%andb_true_iff. apply Z.eqb_eq in H. by apply (proj1 (Hf x)) in H.
  - destruct a as [|x a]; cbn [hd tl map length] in *.
    + assert (E : fold 0 = 0) by (by apply Hf). rewrite E, Hfy.
      destruct (Z.eqb_spec 0 y); [by destruct Hy|]. by split.
    + apply Forall_cons in Ha as [Hx Ha]. rewrite Hfy. destruct (Z.eqb_spec x 0); [done|].
      rewrite orb_false_l. destruct (Z.eqb_spec (fold x) y) as [E|E]; cbn.
      * rewrite IH by (done || lia). split; [by intros ->; rewrite E|by intros [= _ ->]].
      * split; [discriminate|]. by intros [= ? _].
Qed.

Lemma exe_suffix e : Forall (fun c => c <> 0) e ->
  strn_equal lower 5 e (chars ".exe") = true <-> map lower e = chars ".exe".
Proof.
  intros He. apply strn_equal_spec; [| |done|].
  - intros c. split; [apply lower_zero|by intros ->].
  - by repeat constructor.
  - change (length (chars ".exe")) with 4%nat. lia.
Qed.

(** Theorem: the boot file is looked for beside the executable: its name is that of the executable with
    [.boot] added, on Windows in place of an extension [.exe] in whatever case; the block
    allocated for it holds the whole name with its null byte. *)
Theorem boot_file_name windows l : Forall (fun c => c <> 0) l ->
  exists block stem, get_boot_fn windows (0, l) true = Some (Boot_file block) /\
    block_string block = Some (stem ++ chars ".boot") /\
    (windows = false -> stem = l) /\
    (windows = true -> forall p e, l = p ++ e -> map lower e = chars ".exe" -> stem = p) /\
    (windows = true -> (forall p e, l = p ++ e -> map lower e <> chars ".exe") -> stem = l).
Proof.
  intros Hl. destruct (get_boot_fn_spec windows l Hl) as (block & Hb & _ & Hs).
  exists block, (boot_stem windows l). split; [done|]. split; [done|]. unfold boot_stem. split; [by intros ->|].
  split; intros ->.
  - intros p e -> He. apply Forall_app in Hl as [Hp Hle].
    assert (Hshape : exists r, e = 46 :: r /\ 46 ∉ r /\ length e = 4%nat).
    { destruct e as [|a [|b [|c [|d [|? ?]]]]]; try done. cbn in He. injection He as H1 H2 H3 H4.
      apply lower_dot in H1 as ->. exists [b; c; d]. split; [done|]. split; [|done].
      rewrite !not_elem_of_cons. repeat split; try apply not_elem_of_nil; intros <-; discriminate. }
    destruct Hshape as (r & -> & Hr & Hlen). rewrite strrchr_some by done.
    rewrite (proj2 (exe_suffix _ Hle) He), length_app, Hlen.
    replace (length p + 4 - 4)%nat with (length p) by lia. by rewrite take_app_length.
  - intros Hno. destruct (strrchr 46 l) as [e|] eqn:E; [|done].
    destruct (strn_equal lower 5 e (chars ".exe")) eqn:Heq; [|done]. exfalso.
    apply strrchr_suffix in E as [p ->]. apply Forall_app in Hl as [_ Hle].
    by destruct (Hno p e eq_refl), (proj1 (exe_suffix _ Hle)).
Qed.

(** *** The verbose flag *)

Lemma id_suffix (p q : list Z) : drop (length (p ++ q) - length q) (p ++ q) = q.
Proof. rewrite length_app. replace (length p + length q - length q)%nat with (length p) by lia. apply drop_app_length. Qed.

Lemma strn_equal_self n : forall a, strn_equal id n a a = true.
Proof. induction n as [|n IH]; intros a; cbn [strn_equal]; [done|]. by rewrite Z.eqb_refl, IH, orb_true_r. Qed.

Lemma strn_equal_full b : Forall (fun c => c <> 0) b -> forall a, length a = length b ->
  strn_equal id (length b) a b = true -> a = b.
Proof.
  induction 1 as [|y b Hy Hb IH]; intros [|x a] Hl; try done. cbn in *.
  intros [E%Z.eqb_eq H]%andb_true_iff. unfold id in E. subst y.
  apply orb_true_iff in H as [H%Z.eqb_eq|H]; [done|]. f_equal. apply IH; [lia|done].
Qed.

Lemma verbose_suffix l : allow_verbose_flag false (l ++ chars ".boot") = true <->
  exists p, l = p ++ chars "/swish".
Proof.
  unfold allow_verbose_flag. change (length (chars "/swish.boot")) with 11%nat. split.
  - intros [Hle%Nat.leb_le H]%andb_true_iff.
    assert (Hd : drop (length (l ++ chars ".boot") - 11) (l ++ chars ".boot") = chars "/swish.boot").
    { apply (strn_equal_full (chars "/swish.boot")); [by repeat constructor| |exact H].
      rewrite length_drop. change (length (chars "/swish.boot")) with 11%nat. lia. }
    rewrite length_app in *. change (length (chars ".boot")) with 5%nat in *.
    rewrite drop_app_le in Hd by lia. exists (take (length l + 5 - 11) l).
    change (chars "/swish.boot") with (chars "/swish" ++ chars ".boot") in Hd.
    apply app_inv_tail in Hd. by rewrite <- Hd, take_drop.
  - intros [p ->]. rewrite <- app_assoc. change (chars "/swish" ++ chars ".boot") with (chars "/swish.boot").
    apply andb_true_iff. split; [apply Nat.leb_le; rewrite length_app; change (length (chars "/swish.boot")) with 11%nat; lia|].
    change 11%nat with (length (chars "/swish.boot")) at 2. rewrite id_suffix. apply strn_equal_self.
Qed.

(** Theorem: the program starts Scheme with the boot file beside it, once, with its arguments and all
    foreign procedures registered before the event loop is made; [--verbose] is taken from the
    command line exactly when it comes first and the executable is [swish] itself, so that
    other programs can have such an option. *)
Theorem start_sequence l argv custom : Forall (fun c => c <> 0) l -> (0 < length argv)%nat ->
  exists verbose name, argv !! 0%nat = Some name /\
    scheme_init false (0, l) true (Z.of_nat (length argv)) argv custom = Some (inr
      (Sscheme_init :: (if verbose : bool then [Sset_verbose 1] else []) ++
       [Sregister_boot_file (l ++ chars ".boot"); Osi_set_argv (Z.of_nat (length argv)) argv;
        Sbuild_heap name (foreign_symbols ++ default [] custom); Osi_init])) /\
    (verbose = true <-> argv !! 1%nat = Some (chars "--verbose") /\ exists p, l = p ++ chars "/swish").
Proof.
  intros Hl Hargv. destruct (get_boot_fn_spec false l Hl) as (block & Hb & _ & Hs).
  unfold scheme_init. rewrite Hb. cbn [mbind option_bind]. cbn [boot_stem] in Hs. rewrite Hs.
  destruct argv as [|name rest]; [cbn in Hargv; lia|]. cbn [lookup list_lookup mbind option_bind].
  destruct rest as [|arg rest].
  - exists false, name. split; [done|]. split; [done|]. split; [done|]. by intros [? _].
  - exists (str_equal arg (chars "--verbose") && allow_verbose_flag false (l ++ chars ".boot")), name.
    split; [done|]. split.
    + destruct (Z.leb_spec 2 (Z.of_nat (length (name :: arg :: rest)))) as [_|H]; [done|cbn in H; lia].
    + cbn. unfold str_equal. rewrite andb_true_iff, bool_decide_eq_true, verbose_suffix.
      split; [by intros [-> ?]|]. by intros [[= ->] ?].
Qed.

(** *** The arguments of the service *)

Lemma fill_args_spec argv shift n : forall i new_argv,
  (i + n <= length new_argv)%nat -> (i + shift + n <= length argv)%nat ->
  fill_args argv shift i n new_argv =
    Some (take i new_argv ++ take n (drop (i + shift) argv) ++ drop (i + n) new_argv).
Proof.
  induction n as [|n IH]; intros i new_argv Hn Ha; cbn [fill_args].
  - rewrite Nat.add_0_r, take_0. cbn [app]. by rewrite (take_drop i new_argv).
  - destruct (lookup_lt_is_Some_2 argv (i + shift)) as [a Hx]; [lia|]. rewrite Hx. cbn [mbind option_bind].
    destruct (Nat.ltb_spec i (length new_argv)) as [Hi|]; [|lia].
    rewrite IH by (rewrite ?length_insert; lia). f_equal.
    rewrite (drop_S _ a (i + shift)) by done. cbn [take].
    rewrite (take_S_r _ _ a) by (by rewrite list_lookup_insert_eq).
    rewrite take_insert_ge by lia. rewrite drop_insert_lt by lia. rewrite <- app_assoc. cbn [app].
    replace (S i + shift)%nat with (S (i + shift)) by lia. by replace (S i + n)%nat with (i + S n)%nat by lia.
Qed.

Lemma service_args_spec shift argv0 rest : (1 <= shift)%nat -> (shift <= length rest)%nat ->
  service_args shift (argv0 :: rest) = Some (argv0 :: drop shift rest).
Proof.
  intros Hs1 Hs2. unfold service_args. cbn [lookup list_lookup mbind option_bind length].
  rewrite fill_args_spec; rewrite ?length_insert, ?length_replicate; cbn [length]; [|lia|lia].
  f_equal. replace (S (length rest) - shift)%nat with (S (length rest - shift)) by lia.
  cbn [replicate insert list_insert take app drop]. f_equal.
  replace (1 + shift)%nat with (S shift) by lia. cbn [drop].
  rewrite (drop_ge (argv0 :: _)) by (cbn [length]; rewrite length_replicate; lia).
  rewrite take_0, app_nil_r. cbn [app]. apply take_ge. rewrite length_drop. lia.
Qed.

Lemma to_utf8_spec w argv argv8 : to_utf8 w argv = Some argv8 <-> Forall2 (fun a b => convert w a = Some b) argv argv8.
Proof.
  revert argv8. induction argv as [|a argv IH]; intros argv8; cbn [to_utf8].
  - split; [by intros [= <-]|by inversion 1].
  - split.
    + intros (b & Hb & (l & Hl & [= <-])%option.bind_Some)%option.bind_Some.
      constructor; [done|by apply IH].
    + intros H. inversion H as [|? b ? l Hb Hl]; subst. apply IH in Hl. by rewrite Hb, Hl.
Qed.

(** Theorem: with [/SERVICE] as its first argument, on Windows followed by a name and a log file, the
    program starts the service with its own name and the arguments after these, the new vector
    being filled exactly; otherwise it runs with all its arguments.  On Windows they are
    converted first, and the name and the log file are passed as they were given. *)
Theorem service_arguments (argv0 argv1 : list Z) (rest : list (list Z)) :
  main true (argv0 :: argv1 :: rest) = Some
    (if bool_decide (argv1 = chars "/SERVICE") then Call_service (argv0 :: rest)
     else Call_run (argv0 :: argv1 :: rest)) /\
  main true [argv0] = Some (Call_run [argv0]) /\
  forall w argv, Forall2 (fun a b => convert w a = Some b) argv (argv0 :: argv1 :: rest) ->
    0 < name_len w <= max_len w -> (forall l, loads w l = true) -> (forall p, resolves w p = true) ->
    exists call, wmain w argv = Some call /\
    match call with
    | Call_windows_service name logfile new_argv =>
      argv1 = chars "/SERVICE" /\ argv !! 2%nat = Some name /\ argv !! 3%nat = Some logfile /\
      new_argv = argv0 :: drop 2 rest
    | Call_run args => args = argv0 :: argv1 :: rest /\
      (argv1 = chars "/SERVICE" -> (length rest < 2)%nat)
    | _ => False
    end.
Proof.
  assert (Hserv : is_service (argv0 :: argv1 :: rest) = bool_decide (argv1 = chars "/SERVICE")) by done.
  split; [|split; [done|]].
  - unfold main. rewrite Hserv. case_bool_decide; [|done]. cbn [length negb]. rewrite andb_true_r.
    destruct (Nat.ltb_spec 1 (S (S (length rest)))); [|lia].
    rewrite (service_args_spec 1 argv0 (argv1 :: rest)) by (cbn [length]; lia). done.
  - intros w argv Hconv Hname Hloads Hres. pose proof (Forall2_length _ _ _ Hconv) as Hlen. cbn [length] in Hlen.
    apply to_utf8_spec in Hconv. unfold wmain. rewrite Hconv, Hserv, !Hres.
    destruct (Z.eqb_spec (name_len w) 0); [lia|]. destruct (Z.ltb_spec (max_len w) (name_len w)); [lia|].
    cbn [orb forallb negb]. rewrite !Hloads. cbn [andb negb]. rewrite Hlen.
    destruct (Nat.leb_spec 4 (S (S (length rest)))) as [Hle|Hlt]; case_bool_decide as Hs; cbn [andb].
    + rewrite (service_args_spec 3 argv0 (argv1 :: rest)) by (cbn [length]; lia). cbn [mbind option_bind].
      destruct (lookup_lt_is_Some_2 argv 2) as [name Hn]; [lia|]. destruct (lookup_lt_is_Some_2 argv 3) as [log Hg]; [lia|].
      rewrite Hn, Hg. eexists. by split.
    + eexists. by split.
    + eexists. split; [done|]. split; [done|]. intros _. lia.
    + eexists. by split.
Qed.

(** ** Concrete runs *)

Lemma boot_file_name_witness : exists block,
  get_boot_fn true (0, chars "C:\a\b.EXE") true = Some (Boot_file block) /\
  block_string block = Some (chars "C:\a\b" ++ chars ".boot").
Proof.
  destruct (boot_file_name true (chars "C:\a\b.EXE")) as (block & stem & Hb & Hs & _ & Hexe & _).
  - by repeat constructor.
  - exists block. split; [exact Hb|].
    rewrite <- (Hexe eq_refl (chars "C:\a\b") (chars ".EXE") eq_refl eq_refl). exact Hs.
Defined.

Lemma start_sequence_witness : exists evs,
  scheme_init false (0, chars "/bin/swish") true 2 [chars "swish"; chars "--verbose"] None = Some (inr evs) /\
  Sset_verbose 1 ∈ evs.
Proof.
  destruct (start_sequence (chars "/bin/swish") [chars "swish"; chars "--verbose"] None)
    as (verbose & name & _ & Hs & Hv).
  - by repeat constructor.
  - cbn. lia.
  - assert (verbose = true) as -> by (apply Hv; split; [reflexivity|by exists (chars "/bin")]).
    eexists. split; [exact Hs|]. apply elem_of_cons. right. apply elem_of_cons. by left.
Defined.

Lemma service_arguments_witness :
  main true [chars "swish"; chars "/SERVICE"; chars "app"] = Some (Call_service [chars "swish"; chars "app"]) /\
  exists call, wmain (mkWindows Some 10 100 (fun _ => true) (fun _ => true))
    [chars "swish"; chars "/SERVICE"; chars "name"; chars "log"; chars "app"] = Some call /\
    call = Call_windows_service (chars "name") (chars "log") [chars "swish"; chars "app"].
Proof.
  split; [apply (service_arguments (chars "swish") (chars "/SERVICE") [chars "app"])|].
  destruct (proj2 (proj2 (service_arguments (chars "swish") (chars "/SERVICE") [chars "name"; chars "log"; chars "app"]))
    (mkWindows Some 10 100 (fun _ => true) (fun _ => true))
    [chars "swish"; chars "/SERVICE"; chars "name"; chars "log"; chars "app"]) as (call & Hc & _).
  - repeat constructor.
  - cbn. lia.
  - done.
  - done.
  - exists call. split; [exact Hc|]. vm_compute in Hc. injection Hc as <-. reflexivity.
Defined.
