(* ===== verification/Shlib.v ===== *)
(** * Shlib: the foreign library of the tests

    shlibtest.c: a procedure for the foreign interface, and [call_it], which has the event loop
    call a Scheme procedure back twice, with a string and with its argument. *)

From S2P Require Export State.
From S2P Require Import Sqlite.

(** [int] arithmetic; an overflow has no defined behaviour. *)
Definition square (n : Z) : option Z := if bool_decide (- 2 ^ 31 <= n * n < 2 ^ 31) then Some (n * n) else None.

(** [call_req_t]; [cr_sent]: its handle has been triggered. *)
Record call_req_t := mkCallReq { cr_async : async_state; cr_sent : bool; cr_callback : datum; cr_arg : datum }.

Record shlib_state := mkShlib {
  call_reqs : gmap Z call_req_t; next_req : Z; sh_locks : gmultiset positive; sh_callbacks : list (datum * datum)
}.

Notation L := (St shlib_state).

Definition put_req (a : Z) (r : call_req_t) : L unit :=
  change (fun s => mkShlib (<[a := r]> (call_reqs s)) (next_req s) (sh_locks s) (sh_callbacks s)).
Definition load_req (a : Z) : L call_req_t := s ← look; the (call_reqs s !! a).
Definition lock (x : datum) : L unit :=
  change (fun s => mkShlib (call_reqs s) (next_req s) (sh_locks s ⊎ lk x) (sh_callbacks s)).
Definition unlock (x : datum) : L unit :=
  s ← look;
  _ ← assert_ok (bool_decide (lk x ⊆ sh_locks s));
  change (fun s => mkShlib (call_reqs s) (next_req s) (sh_locks s ∖ lk x) (sh_callbacks s)).
Definition add_callback (cb arg : datum) : L unit :=
  change (fun s => mkShlib (call_reqs s) (next_req s) (sh_locks s) ((cb, arg) :: sh_callbacks s)).

(** [call_it]; the arguments [memory], [init] and [send] are what [malloc], [uv_async_init] and
    [uv_async_send] answer. *)
Definition call_it (cb arg : datum) (memory : bool) (init send : Z) : L datum :=
  if negb memory then mret (error_pair "call_it" UV_ENOMEM) else
  s ← look;
  let req := next_req s in
  _ ← change (fun s => mkShlib (<[req := mkCallReq NotInitialized false Dvoid Dvoid]> (call_reqs s))
        (req + 1) (sh_locks s) (sh_callbacks s));
  if init <? 0 then mret (error_pair "uv_async_init" init) else
  _ ← put_req req (mkCallReq Active false Dvoid Dvoid);
  if send <? 0 then mret (error_pair "uv_async_send" send) else
  _ ← lock cb;
  _ ← lock arg;
  _ ← put_req req (mkCallReq Active true cb arg);
  mret Dtrue.

(** [call_req_cb], which libuv runs for a triggered handle, and [close_cb] when it is closed. *)
Definition call_req_cb (req : Z) : L unit :=
  r ← load_req req;
  _ ← assert_ok (match cr_async r with Active => cr_sent r | _ => false end);
  let callback := cr_callback r in
  let arg := cr_arg r in
  _ ← unlock callback;
  _ ← unlock arg;
  _ ← add_callback callback (Dstring (chars "EROFS"));
  _ ← add_callback callback arg;
  put_req req (mkCallReq Closing false callback arg).
Definition close_cb (req : Z) : L unit :=
  r ← load_req req;
  _ ← assert_ok (match cr_async r with Closing => true | _ => false end);
  change (fun s => mkShlib (delete req (call_reqs s)) (next_req s) (sh_locks s) (sh_callbacks s)).

Lemma unlock_spec x s (l : gmultiset positive) (Q : unit -> shlib_state -> Prop) :
  sh_locks s = l ⊎ lk x -> Q tt (mkShlib (call_reqs s) (next_req s) l (sh_callbacks s)) -> ok (unlock x) s Q.
Proof.
  intros Hl HQ. unfold unlock. apply ok_bind, ok_look, ok_bind, ok_assert.
  - apply bool_decide_eq_true_2. rewrite Hl. multiset_solver.
  - apply ok_change. replace (sh_locks s ∖ lk x) with l; [done|]. rewrite Hl. multiset_solver.
Qed.

(** Theorem: a call that is accepted keeps its procedure and its argument locked until the event loop
    has called the procedure twice, with the string first, and then leaves nothing behind; a
    call that is refused locks nothing and calls nothing. *)
Theorem call_it_lifecycle cb arg memory init send s : call_reqs s !! next_req s = None ->
  exists r s1, call_it cb arg memory init send s = Some (r, s1) /\ sh_callbacks s1 = sh_callbacks s /\
    ((r <> Dtrue /\ sh_locks s1 = sh_locks s) \/
     (r = Dtrue /\ sh_locks s1 = sh_locks s ⊎ lk cb ⊎ lk arg /\ exists s2 s3,
        call_req_cb (next_req s) s1 = Some (tt, s2) /\ close_cb (next_req s) s2 = Some (tt, s3) /\
        sh_callbacks s3 = (cb, arg) :: (cb, Dstring (chars "EROFS")) :: sh_callbacks s /\
        sh_locks s3 = sh_locks s /\ call_reqs s3 = call_reqs s)).
Proof.
  intros Hn. unfold call_it. destruct memory; cbn [negb].
  2:{ eexists _, _. split; [reflexivity|]. split; [done|]. by left. }
  destruct (init <? 0) eqn:Hi; [|destruct (send <? 0) eqn:Hs].
  - eexists _, _. split; [reflexivity|]. split; [done|]. by left.
  - eexists _, _. split; [reflexivity|]. split; [done|]. by left.
  - eexists _, _. split; [reflexivity|]. split; [done|]. right. split; [done|]. split; [done|].
    cbn. set (s1 := mkShlib _ _ _ _).
    assert (H : ok (_ ← call_req_cb (next_req s); close_cb (next_req s)) s1 (fun _ s3 =>
      sh_callbacks s3 = (cb, arg) :: (cb, Dstring (chars "EROFS")) :: sh_callbacks s /\
      sh_locks s3 = sh_locks s /\ call_reqs s3 = call_reqs s)).
    { apply ok_bind. unfold call_req_cb, load_req. apply ok_bind, ok_bind, ok_look.
      eapply ok_the; [apply lookup_insert_eq|]. apply ok_bind. apply ok_assert; [done|]. cbn [cr_callback cr_arg].
      apply ok_bind. apply (unlock_spec _ _ (sh_locks s ⊎ lk arg)); [cbn; multiset_solver|].
      apply ok_bind. apply (unlock_spec _ _ (sh_locks s)); [done|].
      apply ok_bind, ok_change, ok_bind, ok_change, ok_change.
      unfold close_cb, load_req. apply ok_bind, ok_bind, ok_look. eapply ok_the; [apply lookup_insert_eq|].
      apply ok_bind. apply ok_assert; [done|]. apply ok_change. cbn. split; [done|]. split; [done|].
      rewrite !delete_insert_eq. by apply delete_id. }
    unfold ok, mbind, St_bind in H. destruct (call_req_cb (next_req s) s1) as [[[] s2]|] eqn:E2; [|done].
    destruct (close_cb (next_req s) s2) as [[[] s3]|] eqn:E3; [|done]. by exists s2, s3.
Qed.

Lemma call_it_lifecycle_witness : exists s1,
  call_it (Dobject 1) (Dobject 2) true 0 0 (mkShlib ∅ 1 ∅ []) = Some (Dtrue, s1) /\
  sh_locks s1 = {[+ 1; 2 +]}%positive.
Proof.
  destruct (call_it_lifecycle (Dobject 1) (Dobject 2) true 0 0 (mkShlib ∅ 1 ∅ []) (lookup_empty 1))
    as (r & s1 & Hr & _ & [[Hne _]|(-> & Hl & _)]).
  - exfalso. apply Hne. vm_compute in Hr. by injection Hr.
  - exists s1. split; [exact Hr|]. rewrite Hl. cbn. multiset_solver.
Defined.
