(* ===== verification/Constants.v ===== *)
(** * Constants: the definitions io-constants.c prints

    The program that writes, at build time, the Scheme definitions of the constants of libuv and
    of the system: directory entry types, flags and modes of files, error numbers, signals. *)

From S2P Require Import Format Errors.

(** What the C compiler knows: the platform, the signals it may define, the values of the
    constants, and [UV_ERRNO_MAP] with the names after [UV_]. *)
Record headers := mkHeaders {
  win32 : bool; has_SIGINFO : bool; has_SIGPWR : bool; has_SIGRTMIN : bool;
  constant : string -> Z;
  errno_map : list (string * Z)
}.

Definition dirent_names : list string :=
  ["DIRENT_UNKNOWN"; "DIRENT_FILE"; "DIRENT_DIR"; "DIRENT_LINK"; "DIRENT_FIFO"; "DIRENT_SOCKET";
   "DIRENT_CHAR"; "DIRENT_BLOCK"].
Definition fs_names : list string :=
  ["O_APPEND"; "O_CREAT"; "O_DIRECT"; "O_DIRECTORY"; "O_DSYNC"; "O_EXCL"; "O_EXLOCK";
   "O_NOATIME"; "O_NOCTTY"; "O_NOFOLLOW"; "O_NONBLOCK"; "O_RANDOM"; "O_RDONLY"; "O_RDWR";
   "O_SEQUENTIAL"; "O_SHORT_LIVED"; "O_SYMLINK"; "O_SYNC"; "O_TEMPORARY"; "O_TRUNC"; "O_WRONLY"].
Definition mode_names : list string :=
  ["S_IFMT"; "S_IFIFO"; "S_IFCHR"; "S_IFDIR"; "S_IFBLK"; "S_IFREG"; "S_IFLNK"; "S_IFSOCK"].
Definition standard_signals : list string :=
  ["SIGABRT"; "SIGFPE"; "SIGILL"; "SIGINT"; "SIGSEGV"; "SIGTERM"].
Definition windows_signals : list string :=
  ["SIGBREAK"; "SIGHUP"; "SIGKILL"; "SIGWINCH"].
Definition unix_signals (h : headers) : list string :=
  ["SIGALRM"; "SIGBUS"; "SIGCHLD"; "SIGCONT"; "SIGHUP"] ++
  (if has_SIGINFO h then ["SIGINFO"] else []) ++
  ["SIGIO"; "SIGKILL"; "SIGPIPE"] ++
  (if has_SIGPWR h then ["SIGPWR"] else []) ++
  ["SIGPROF"; "SIGQUIT"] ++
  (if has_SIGRTMIN h then ["SIGRTMIN"; "SIGRTMAX"] else []) ++
  ["SIGSTOP"; "SIGSYS"; "SIGTRAP"; "SIGTSTP"; "SIGTTIN"; "SIGTTOU"; "SIGURG"; "SIGUSR1";
   "SIGUSR2"; "SIGVTALRM"; "SIGWINCH"; "SIGXCPU"; "SIGXFSZ"].

(** The names with their values, in the order of [main]. *)
Definition constants (h : headers) : list (string * Z) :=
  map (fun n => (n, constant h ("UV_" +:+ n))) dirent_names ++
  map (fun n => (n, constant h ("UV_FS_" +:+ n))) fs_names ++
  map (fun n => (n, constant h (if win32 h then "_" +:+ n else n))) mode_names ++
  map (fun '(n, v) => ("UV_" +:+ n, v)) (errno_map h) ++
  map (fun n => (n, constant h n)) standard_signals ++
  map (fun n => (n, constant h n)) (if win32 h then windows_signals else unix_signals h).

(** [XX]: one line. *)
Definition line (c : string * Z) : list Z :=
  chars "(define-export " ++ chars c.1 ++ chars " " ++ format_d c.2 ++ chars ")" ++ [10].
Definition output (h : headers) : list Z := concat (map line (constants h)).

(** ** Properties *)

(** The name and the value of a line, as the reader splits it at the space. *)
Fixpoint split_space (l : list Z) : list Z * list Z :=
  match l with
  | [] => ([], [])
  | c :: l => if c =? 32 then ([], l) else let '(a, b) := split_space l in (c :: a, b)
  end.
Definition read_line (l : list Z) : list Z * Z :=
  let '(name, rest) := split_space (drop 15 l) in (name, read_d (take (length rest - 2) rest)).

(** The lines of a text, each with its newline. *)
Fixpoint lines (l : list Z) : list (list Z) :=
  match l with
  | [] => []
  | c :: l =>
    if c =? 10 then [c] :: lines l else
    match lines l with [] => [[c]] | x :: ls => (c :: x) :: ls end
  end.

Lemma lines_line a b : 10 ∉ a -> lines (a ++ 10 :: b) = (a ++ [10]) :: lines b.
Proof.
  induction a as [|c a IH]; [done|]. rewrite not_elem_of_cons. intros [Hc Ha]. cbn [app lines].
  destruct (Z.eqb_spec c 10) as [->|]; [by destruct Hc|]. by rewrite IH.
Qed.

Lemma format_d_plain v : is_sint 32 v -> 10 ∉ format_d v.
Proof.
  intros Hv. assert (Hd : forall n, 0 <= n < 10 ^ Z.of_nat 10 -> 10 ∉ digits 10 n).
  { intros n Hn Hin. destruct (digits_spec 10 n Hn) as (_ & Hf & _).
    rewrite Forall_forall in Hf. specialize (Hf 10 Hin). lia. }
  unfold format_d. destruct (Z.ltb_spec v 0); [|apply Hd; width_lia].
  rewrite not_elem_of_cons. split; [done|]. apply Hd. width_lia.
Qed.

Lemma lines_of_line n v b : 10 ∉ chars n -> is_sint 32 v ->
  lines (line (n, v) ++ b) = line (n, v) :: lines b.
Proof.
  intros Hn Hv. unfold line. cbn [fst snd].
  set (a := chars "(define-export " ++ chars n ++ chars " " ++ format_d v ++ chars ")").
  replace (chars "(define-export " ++ chars n ++ chars " " ++ format_d v ++ chars ")" ++ [10]) with (a ++ [10])
    by (unfold a; by rewrite <- !app_assoc).
  rewrite <- app_assoc. cbn [app]. apply lines_line. unfold a. rewrite !not_elem_of_app.
  pose proof (format_d_plain v Hv). repeat split; try done; cbn; rewrite ?not_elem_of_cons;
    repeat split; try done; apply not_elem_of_nil.
Qed.

Lemma split_space_spec a b : 32 ∉ a -> split_space (a ++ 32 :: b) = (a, b).
Proof.
  induction a as [|c a IH]; [done|]. rewrite not_elem_of_cons. intros [Hc Ha]. cbn [app split_space].
  destruct (Z.eqb_spec c 32) as [->|]; [by destruct Hc|]. by rewrite IH.
Qed.

Lemma read_line_spec n v : 32 ∉ chars n -> is_sint 32 v -> read_line (line (n, v)) = (chars n, v).
Proof.
  intros Hn Hv. unfold read_line, line. cbn [fst snd].
  change (drop 15 (chars "(define-export " ++ chars n ++ chars " " ++ format_d v ++ chars ")" ++ [10]))
    with (chars n ++ 32 :: format_d v ++ chars ")" ++ [10]).
  rewrite split_space_spec by done. f_equal. rewrite !length_app. cbn [chars length].
  replace (length (format_d v) + (1 + 1) - 2)%nat with (length (format_d v)) by lia.
  rewrite take_app_length. by apply format_d_spec.
Qed.

(** The names that do not come from [UV_ERRNO_MAP]. *)
Definition before_errno : list string := dirent_names ++ fs_names ++ mode_names.
Definition after_errno (h : headers) : list string :=
  standard_signals ++ (if win32 h then windows_signals else unix_signals h).

Lemma constant_names h : (constants h).*1 =
  before_errno ++ map (fun c => "UV_" +:+ c.1) (errno_map h) ++ after_errno h.
Proof.
  unfold constants, before_errno, after_errno. rewrite !fmap_app, <- !app_assoc.
  assert (E : forall (f : string -> Z) l, (map (fun n => (n, f n)) l).*1 = l).
  { intros f l. induction l as [|n l IH]; [done|]. cbn. by f_equal. }
  rewrite !E. do 3 f_equal. f_equal. induction (errno_map h) as [|[n v] l IH]; [done|]. cbn. by f_equal.
Qed.

Definition plain_name (n : string) : bool :=
  match chars n with 85 :: 86 :: 95 :: _ => false | l => bool_decide (32 ∉ l /\ 10 ∉ l) end.

Lemma fixed_names h : NoDup (before_errno ++ after_errno h) /\ Forall (fun n => plain_name n = true) (before_errno ++ after_errno h).
Proof.
  split; [apply (bool_decide_unpack _)|apply (bool_decide_unpack _)];
    destruct h as [w i p r c m]; unfold before_errno, after_errno; cbn [win32];
    destruct w, i, p, r; vm_compute; exact I.
Qed.

Lemma prefixed_plain n : plain_name ("UV_" +:+ n) = false.
Proof. done. Qed.

Lemma prefix_inj n m : "UV_" +:+ n = "UV_" +:+ m -> n = m.
Proof. cbn. intros H. by injection H. Qed.

(** Theorem: whatever the platform, the file io-constants.c writes defines every constant once, and each
    of its lines, read back, has the name of the constant and its value, negative ones
    included; the values are those of the headers. *)
Theorem constants_defined_once h :
  NoDup (errno_map h).*1 -> Forall (fun c => 32 ∉ chars c.1 /\ 10 ∉ chars c.1) (errno_map h) ->
  Forall (fun c => is_sint 32 c.2) (constants h) ->
  NoDup (constants h).*1 /\
  map read_line (lines (output h)) = map (fun c => (chars c.1, c.2)) (constants h).
Proof.
  intros Hd Hsp Hv. destruct (fixed_names h) as [Hfix Hplain].
  assert (Hnames : Forall (fun n => 32 ∉ chars n /\ 10 ∉ chars n) (constants h).*1).
  { rewrite constant_names. apply Forall_app in Hplain as [Hp1 Hp2].
    assert (Hpl : forall l, Forall (fun n => plain_name n = true) l -> Forall (fun n => 32 ∉ chars n /\ 10 ∉ chars n) l).
    { intros l Hl. eapply Forall_impl; [exact Hl|]. intros n Hn. unfold plain_name in Hn.
      destruct (chars n) as [|a [|b [|c l']]] eqn:E;
        repeat (match type of Hn with context [match ?x with _ => _ end] => destruct x; try done end);
        by apply bool_decide_eq_true_1 in Hn. }
    apply Forall_app. split; [by apply Hpl|]. apply Forall_app. split; [|by apply Hpl].
    apply Forall_map. eapply Forall_impl; [exact Hsp|]. intros [n v] Hn.
    change (32 ∉ 85 :: 86 :: 95 :: chars n /\ 10 ∉ 85 :: 86 :: 95 :: chars n).
    rewrite !not_elem_of_cons. by repeat split; destruct Hn. }
  split.
  - rewrite constant_names. apply NoDup_app in Hfix as (H1 & H2 & H3).
    assert (Huv : forall n, n ∈ map (fun c => "UV_" +:+ c.1) (errno_map h) -> plain_name n = false).
    { intros n (c & -> & _)%list_elem_of_fmap. apply prefixed_plain. }
    rewrite Forall_forall in Hplain.
    apply NoDup_app. split; [done|]. split.
    { intros n Hn [Hn'|Hn']%elem_of_app; [|by apply (H2 n)].
      pose proof (Hplain n (proj2 (elem_of_app _ _ _) (or_introl Hn))) as Hpn. by rewrite (Huv n Hn') in Hpn. }
    apply NoDup_app. split; [|split; [|done]].
    + change (NoDup (((fun n => "UV_" +:+ n) ∘ fst) <$> errno_map h)).
      rewrite (list_fmap_compose fst (fun n => "UV_" +:+ n)). apply NoDup_fmap_2; [|done].
      intros n m. apply prefix_inj.
    + intros n Hn Hn'. pose proof (Hplain n (proj2 (elem_of_app _ _ _) (or_intror Hn'))) as Hpn. by rewrite (Huv n Hn) in Hpn.
  - rewrite Forall_map in Hnames. unfold output.
    induction (constants h) as [|[n v] l IH]; [done|]. cbn [map concat].
    apply Forall_cons in Hv as [Hv1 Hv2]. apply Forall_cons in Hnames as [[Hn1 Hn2] Hn3].
    rewrite lines_of_line by done. cbn [map]. rewrite read_line_spec by done. f_equal. by apply IH.
Qed.

Definition some_headers : headers := mkHeaders false true false true (fun _ => -7) [("ENOENT"%string, -2)].

Lemma constants_defined_once_witness :
  NoDup (constants some_headers).*1 /\ is_Some (lines (output some_headers) !! 37%nat).
Proof.
  destruct (constants_defined_once some_headers) as [Hd Hl].
  - apply (bool_decide_unpack _). vm_compute. exact I.
  - apply (bool_decide_unpack _). vm_compute. exact I.
  - apply Forall_forall. intros c Hc. unfold constants in Hc. cbn in Hc.
    unfold is_sint. repeat (apply elem_of_cons in Hc as [->|Hc]; [cbn; lia|]). by apply elem_of_nil in Hc.
  - split; [exact Hd|]. apply (f_equal (fun l => l !! 37%nat)) in Hl. rewrite !list_lookup_fmap in Hl.
    destruct (lines (output some_headers) !! 37%nat); [by eexists|]. vm_compute in Hl. discriminate.
Defined.
