(* ===== verification/Runtime.v ===== *)
(** * Runtime: the state every part of osi.c works on

    Scheme values as the C code sees them (scheme.h), the C heap with the structures of osi.c
    (lines 42-94) and the libuv handles and requests embedded in them, the objects locked
    against the garbage collector, the pending callback list, and the small state monad the
    operations are written in.  [None] is a run the C code must never make: a use after free,
    a double free, a structure freed while libuv still holds it, an unbalanced
    [Sunlock_object], a failed [assert], or libuv touching memory the collector may move.

    The answers of [malloc] and of libuv are a stream the state carries: every statement about
    all states is a statement about every behaviour of the two. *)

From S2P Require Export Errors.

(** ** Scheme values *)

(** [Sint 0] is also C's 0: the representation of the fixnum 0 is the null word, which is what
    the tests [if (callback)] of the code rely on.  [Sutf8 b] is the string Scheme decodes from
    the C string [b]; [Sobj o] is an object of the Scheme heap that the collector may move
    (a procedure, a bytevector); [Sundef] is the contents of uninitialised memory. *)
Inductive ptr :=
| Sint (z : Z)
| Sbool (b : bool)
| Snil
| Ssymbol (s : string)
| Sstring (chars : list Z)
| Sutf8 (bytes : list Z)
| Scons (a d : ptr)
| Svector (l : list ptr)
| Sobj (o : positive)
| Sundef.

Notation Strue := (Sbool true).
Notation Sfalse := (Sbool false).
Notation NULL := (Sint 0).

(** Conversions of C integers: [Sinteger32] takes an [int], [Sunsigned32] an unsigned one. *)
Definition Sinteger32 (z : Z) : ptr := Sint (i32 z).
Definition Sunsigned32 (z : Z) : ptr := Sint (u32 z).
Definition Sunsigned64 (z : Z) : ptr := Sint (u64 z).

(** [osi_make_error_pair]. *)
Definition osi_make_error_pair (who : string) (error : Z) : ptr := Scons (Ssymbol who) (Sint error).

(** Objects of the Scheme heap. *)
Inductive object :=
| Procedure
| Bytevector (bytes : list Z).

(** ** The C heap *)

Inductive osi_port_vtable := fd_vtable | file_vtable | pipe_vtable | tcp_vtable.

Record stream_port := mkStreamPort {
  sp_vtable : osi_port_vtable;
  close_callback : ptr;
  read_buffer : ptr;
  read_start_index : Z;
  read_size : Z;
  read_callback : ptr;
  write_buffer : ptr;
  write_buffer2 : ptr;
  write_size : Z;
  write_callback : ptr
}.

(** What a [malloc]ed block is used as.  The [uv_*_t] structures carry their [data] field, and
    a process also what libuv was asked to run. *)
Inductive obj :=
| FsPort (vt : osi_port_vtable) (file : Z)
| StreamPort (p : stream_port)
| RwFsReq (buffer callback : ptr)
| CloseFsReq (port : Z) (callback : ptr)
| UvFsReq (data : ptr)
| UvAsync (data : ptr)
| TcpConnect (callback : ptr) (ai : list Z) (addrinfo : bool) (port : Z)
| UvTcp (data : ptr)
| UvFsEvent (data : ptr)
| UvProcess (data : ptr) (pid : Z) (command : list (list Z))
| UvSignal
| Chars (bytes : list Z)
| Argv (args : list Z).

(** A slice of a bytevector handed to libuv: the object, the start index and the length. *)
Definition uv_buf : Type := positive * Z * Z.

(** The callbacks libuv is given. *)
Inductive fs_cb :=
| Cb_rw_fs | Cb_close_fs | Cb_open_fs | Cb_get_file_size | Cb_get_real_path
| Cb_return_fs_result | Cb_stat | Cb_list_directory.
Inductive close_cb := Cb_close_stream | Cb_close_async | Cb_close_handle_data | Cb_close_signal.
Inductive handle_cb :=
| Cb_read_stream | Cb_listen_tcp | Cb_watch_path | Cb_fire_signal | Cb_close_fd | Cb_process_exit.

(** File system operations submitted to libuv. *)
Inductive fs_op :=
| FsRead (file : Z) (buf : uv_buf) (offset : Z)
| FsWrite (file : Z) (buf : uv_buf) (offset : Z)
| FsClose (file : Z)
| FsOpen (path : list Z) (flags mode : Z)
| FsFstat (file : Z)
| FsStat (path : list Z)
| FsLstat (path : list Z)
| FsRealpath (path : list Z)
| FsScandir (path : list Z)
| FsChmod (path : list Z) (mode : Z)
| FsMkdir (path : list Z) (mode : Z)
| FsRmdir (path : list Z)
| FsRename (path new_path : list Z)
| FsUnlink (path : list Z).

(** libuv's state of the handle embedded in a block, and of its request. *)
Inductive uv_handle :=
| HNone
| HOpen (active : option handle_cb)
| HClosing (cb : close_cb).
Inductive uv_request :=
| RFs (op : fs_op) (cb : fs_cb)
| RWrite (bufs : list uv_buf)
| RGetaddrinfo (node service : list Z)
| RConnect (addr : Z).

Record cell := mkCell { contents : obj; handle : uv_handle; request : option uv_request }.

Record world := mkWorld {
  heap : gmap Z cell;
  next : Z;
  locks : gmultiset positive;
  objects : gmap positive object;
  g_callbacks : ptr;
  deliver_signal : ptr;  (* the value of the Scheme variable @deliver-signal *)
  timer : bool;          (* g_timer is started *)
  timer_data : bool;     (* g_timer.data is not 0 *)
  answers : nat -> Z;
  tick : nat
}.

Definition set_heap (h : gmap Z cell) (w : world) : world :=
  mkWorld h (next w) (locks w) (objects w) (g_callbacks w) (deliver_signal w) (timer w)
    (timer_data w) (answers w) (tick w).
Definition set_next (n : Z) (w : world) : world :=
  mkWorld (heap w) n (locks w) (objects w) (g_callbacks w) (deliver_signal w) (timer w)
    (timer_data w) (answers w) (tick w).
Definition set_locks (l : gmultiset positive) (w : world) : world :=
  mkWorld (heap w) (next w) l (objects w) (g_callbacks w) (deliver_signal w) (timer w)
    (timer_data w) (answers w) (tick w).
Definition set_objects (m : gmap positive object) (w : world) : world :=
  mkWorld (heap w) (next w) (locks w) m (g_callbacks w) (deliver_signal w) (timer w)
    (timer_data w) (answers w) (tick w).
Definition set_callbacks (l : ptr) (w : world) : world :=
  mkWorld (heap w) (next w) (locks w) (objects w) l (deliver_signal w) (timer w)
    (timer_data w) (answers w) (tick w).
Definition set_timer (a d : bool) (w : world) : world :=
  mkWorld (heap w) (next w) (locks w) (objects w) (g_callbacks w) (deliver_signal w) a d
    (answers w) (tick w).
Definition set_tick (n : nat) (w : world) : world :=
  mkWorld (heap w) (next w) (locks w) (objects w) (g_callbacks w) (deliver_signal w) (timer w)
    (timer_data w) (answers w) n.

(** ** The monad *)

Definition M (A : Type) : Type := world -> option (A * world).

#[global] Instance M_ret : MRet M := fun A x w => Some (x, w).
#[global] Instance M_bind : MBind M := fun A B f m w =>
  match m w with Some (x, w') => f x w' | None => None end.

(** Undefined behaviour. *)
Definition undefined {A} : M A := fun _ => None.
Definition get : M world := fun w => Some (w, w).
Definition modify (f : world -> world) : M unit := fun w => Some (tt, f w).
Definition require (b : bool) : M unit := if b then mret tt else undefined.
(** C's [||]: the second operand is evaluated only when the first is false. *)
Definition or_else (m1 m2 : M bool) : M bool := b ← m1; if b : bool then mret true else m2.
Infix "∥" := or_else (at level 50, left associativity).

(** The next answer of the environment. *)
Definition ask : M Z := fun w => Some (answers w (tick w), set_tick (S (tick w)) w).
(** The result of a libuv call: 0, or a negative error code. *)
Definition uv_result : M Z := z ← ask; mret (Z.min 0 z).

(** The test [if (p)] of a Scheme value. *)
Definition truthy (p : ptr) : M bool :=
  match p with
  | Sundef => undefined
  | Sint z => mret (negb (z =? 0))
  | _ => mret true
  end.

(** [Slock_object] and [Sunlock_object]: immediate values are not locked; unlocking what is
    not locked is an error. *)
Definition lk (p : ptr) : gmultiset positive :=
  match p with Sobj o => {[+ o +]} | _ => ∅ end.
Definition defined (p : ptr) : bool := match p with Sundef => false | _ => true end.

Definition Slock_object (p : ptr) : M unit :=
  _ ← require (defined p);
  modify (fun w => set_locks (locks w ⊎ lk p) w).
Definition Sunlock_object (p : ptr) : M unit :=
  w ← get;
  _ ← require (defined p && bool_decide (lk p ⊆ locks w));
  modify (fun w => set_locks (locks w ∖ lk p) w).

(** Predicates on Scheme values. *)
Definition Sbytevector (w : world) (p : ptr) : option (list Z) :=
  match p with
  | Sobj o => match objects w !! o with Some (Bytevector l) => Some l | _ => None end
  | _ => None
  end.
Definition Sbytevectorp (p : ptr) : M bool :=
  w ← get; mret (bool_decide (is_Some (Sbytevector w p))).
(** The macro reads the object's header through the pointer: on anything but a bytevector this is
    undefined. *)
Definition Sbytevector_length (p : ptr) : M Z :=
  w ← get;
  match Sbytevector w p with Some l => mret (Z.of_nat (length l)) | None => undefined end.
Definition Sprocedurep (p : ptr) : M bool :=
  w ← get; mret (match p with
                 | Sobj o => match objects w !! o with Some Procedure => true | _ => false end
                 | _ => false
                 end).
(** The address [&Sbytevector_u8_ref(buffer, start)], with the length libuv is told. *)
Definition buf_of (buffer : ptr) (start len : Z) : M uv_buf :=
  match buffer with Sobj o => mret (o, start, len) | _ => undefined end.

(** *** The C heap *)

(** [malloc] fails when the answer is 0; addresses are never reused. *)
Definition malloc (o : obj) : M (option Z) :=
  z ← ask;
  if z =? 0 then mret None else
  w ← get;
  _ ← modify (fun w => set_next (next w + 1) (set_heap (<[next w := mkCell o HNone None]> (heap w)) w));
  mret (Some (next w)).

Definition load_cell (a : Z) : M cell := fun w => c ← heap w !! a; Some (c, w).
Definition store_cell (a : Z) (c : cell) : M unit :=
  _ ← load_cell a; modify (fun w => set_heap (<[a := c]> (heap w)) w).
Definition load (a : Z) : M obj := c ← load_cell a; mret (contents c).
Definition store (a : Z) (o : obj) : M unit :=
  c ← load_cell a; store_cell a (mkCell o (handle c) (request c)).

(** A block may be freed when libuv holds neither a handle nor a request in it. *)
Definition quiet (c : cell) : bool :=
  match handle c, request c with HNone, None => true | _, _ => false end.
Definition free (a : Z) : M unit :=
  c ← load_cell a;
  _ ← require (quiet c);
  modify (fun w => set_heap (delete a (heap w)) w).

(** [port->vtable]: the first field of either kind of port. *)
Definition load_vtable (a : Z) : M osi_port_vtable :=
  o ← load a;
  match o with
  | FsPort vt _ => mret vt
  | StreamPort p => mret (sp_vtable p)
  | _ => undefined
  end.

Definition set_handle (a : Z) (h : uv_handle) : M unit :=
  c ← load_cell a; store_cell a (mkCell (contents c) h (request c)).
Definition set_request (a : Z) (r : option uv_request) : M unit :=
  c ← load_cell a; store_cell a (mkCell (contents c) (handle c) r).

(** ** libuv *)

(** Submitting a request; its structure must not be in use. *)
Definition uv_submit (a : Z) (r : uv_request) : M Z :=
  c ← load_cell a;
  _ ← require (match request c with None => true | Some _ => false end);
  rc ← uv_result;
  if rc <? 0 then mret rc else
  _ ← set_request a (Some r); mret rc.

Definition uv_fs (a : Z) (op : fs_op) (cb : fs_cb) : M Z := uv_submit a (RFs op cb).

(** [uv_tcp_init], [uv_pipe_init], [uv_async_init], [uv_fs_event_init], [uv_signal_init]. *)
Definition uv_handle_init (a : Z) : M Z :=
  c ← load_cell a;
  _ ← require (match handle c with HNone => true | _ => false end);
  rc ← uv_result;
  if rc <? 0 then mret rc else
  _ ← set_handle a (HOpen None); mret rc.

Definition is_open (h : uv_handle) : bool := match h with HOpen _ => true | _ => false end.

(** [uv_read_start], [uv_listen], [uv_fs_event_start], [uv_signal_start], [uv_async_send]. *)
Definition uv_handle_start (a : Z) (cb : handle_cb) : M Z :=
  c ← load_cell a;
  _ ← require (is_open (handle c));
  rc ← uv_result;
  if rc <? 0 then mret rc else
  _ ← set_handle a (HOpen (Some cb)); mret rc.

(** [uv_read_stop], [uv_fs_event_stop]. *)
Definition uv_handle_stop (a : Z) : M unit :=
  c ← load_cell a;
  match handle c with HOpen _ => set_handle a (HOpen None) | _ => undefined end.

(** [uv_close] of a handle that is closing, or was never initialised, aborts. *)
Definition uv_close (a : Z) (cb : close_cb) : M unit :=
  c ← load_cell a;
  _ ← require (is_open (handle c));
  set_handle a (HClosing cb).

(** ** The callback list *)

Definition osi_add_callback_list (callback args : ptr) : M unit :=
  w ← get;
  b ← truthy (g_callbacks w);
  _ ← require b;  (* assert(g_callbacks) *)
  modify (fun w => set_callbacks (Scons (Scons callback args) (g_callbacks w)) w).

Definition osi_add_callback1 (callback arg : ptr) : M unit :=
  osi_add_callback_list callback (Scons arg Snil).
Definition osi_add_callback2 (callback arg1 arg2 : ptr) : M unit :=
  osi_add_callback_list callback (Scons arg1 (Scons arg2 Snil)).
Definition osi_add_callback3 (callback arg1 arg2 arg3 : ptr) : M unit :=
  osi_add_callback_list callback (Scons arg1 (Scons arg2 (Scons arg3 Snil))).
