(* ===== verification/Ownership.v ===== *)
(** * Ownership: the invariant of the runtime, and how each primitive step keeps it

    Between two operations every block of the C heap is in one of the states of [cell_ok]: a
    request block has its request in flight and owns the locks of the objects it names, a port
    owns the locks of the reads and writes in progress, and so on.  The objects locked against
    the collector are exactly those the blocks own.  The second half of the file is the
    program logic the operations are verified with. *)

From S2P Require Export Runtime.

(** ** Ownership of a block *)

Definition is_null (p : ptr) : bool := match p with Sint z => z =? 0 | _ => false end.

Definition owned (c : cell) : gmultiset positive :=
  match contents c with
  | RwFsReq b cb => lk b ⊎ lk cb
  | CloseFsReq _ cb | UvFsReq cb | TcpConnect cb _ _ _ | UvTcp cb | UvFsEvent cb
  | UvProcess cb _ _ => lk cb
  | UvAsync cb => match handle c with HOpen (Some _) => lk cb | _ => ∅ end
  | StreamPort p =>
    lk (close_callback p) ⊎
    (if is_null (read_callback p) then ∅ else lk (read_buffer p) ⊎ lk (read_callback p)) ⊎
    (if is_null (write_callback p) then ∅
     else lk (write_buffer p) ⊎ lk (write_buffer2 p) ⊎ lk (write_callback p))
  | FsPort _ _ | UvSignal | Chars _ | Argv _ => ∅
  end.

(** The sum of a quantity over the blocks of the heap. *)
Definition sum_over (f : cell -> gmultiset positive) (h : gmap Z cell) : gmultiset positive :=
  map_fold (fun _ c acc => f c ⊎ acc) ∅ h.

Definition total (h : gmap Z cell) : gmultiset positive := sum_over owned h.

(** The block another block will free. *)
Definition ref (o : obj) : option Z :=
  match o with CloseFsReq p _ | TcpConnect _ _ _ p => Some p | _ => None end.

(** ** The states of a block *)

(** A slice within its bytevector. *)
Definition buf_ok (m : gmap positive object) (b : uv_buf) : Prop :=
  let '(o, start, len) := b in
  exists l, m !! o = Some (Bytevector l) /\ 0 <= start /\ 0 <= len /\
    start + len <= Z.of_nat (length l).

Definition is_obj (p : ptr) : Prop := exists o, p = Sobj o.
(** A callback that may be omitted. *)
Definition opt_obj (p : ptr) : Prop := p = NULL \/ is_obj p.

(** The operations of a plain request, and the callback each is submitted with. *)
Definition fs_req_ok (op : fs_op) (cb : fs_cb) : bool :=
  match op, cb with
  | FsOpen _ _ _, Cb_open_fs | FsFstat _, Cb_get_file_size | FsRealpath _, Cb_get_real_path
  | FsStat _, Cb_stat | FsLstat _, Cb_stat | FsScandir _, Cb_list_directory
  | FsChmod _ _, Cb_return_fs_result | FsMkdir _ _, Cb_return_fs_result
  | FsRmdir _, Cb_return_fs_result | FsRename _ _, Cb_return_fs_result
  | FsUnlink _, Cb_return_fs_result => true
  | _, _ => false
  end.

Definition reading_ok (m : gmap positive object) (p : stream_port) (h : uv_handle) : Prop :=
  (read_callback p = NULL /\ (h = HOpen None \/ h = HClosing Cb_close_stream)) \/
  (exists b, read_buffer p = Sobj b /\ is_obj (read_callback p) /\
     buf_ok m (b, read_start_index p, read_size p) /\
     (h = HOpen (Some Cb_read_stream) \/ h = HClosing Cb_close_stream)).

Definition writing_ok (m : gmap positive object) (p : stream_port) (r : option uv_request) : Prop :=
  (write_callback p = NULL /\ r = None) \/
  (exists b bufs, write_buffer p = Sobj b /\ is_obj (write_callback p) /\
     r = Some (RWrite bufs) /\ Forall (buf_ok m) bufs /\
     ((write_buffer2 p = NULL /\ exists s n, bufs = [(b, s, n)]) \/
      exists b2 s n s2 n2, write_buffer2 p = Sobj b2 /\ bufs = [(b, s, n); (b2, s2, n2)])).

Definition closing_ok (p : stream_port) (h : uv_handle) : Prop :=
  (is_open h = true /\ close_callback p = NULL) \/
  (h = HClosing Cb_close_stream /\ opt_obj (close_callback p)).

Definition stream_ok (m : gmap positive object) (p : stream_port) (h : uv_handle)
    (r : option uv_request) : Prop :=
  (sp_vtable p = pipe_vtable \/ sp_vtable p = tcp_vtable) /\
  reading_ok m p h /\ writing_ok m p r /\ closing_ok p h.

(** A handle with a callback in its [data] field: in use, or being closed. *)
Definition data_handle_ok (c : cell) (cb : handle_cb) (data : ptr) : Prop :=
  request c = None /\
  ((handle c = HOpen (Some cb) /\ is_obj data) \/
   (handle c = HClosing Cb_close_handle_data /\ opt_obj data)).

Definition rw_op (op : fs_op) : option uv_buf :=
  match op with FsRead _ b _ | FsWrite _ b _ => Some b | _ => None end.

Definition cell_ok (m : gmap positive object) (c : cell) : Prop :=
  match contents c with
  | FsPort vt _ => (vt = fd_vtable \/ vt = file_vtable) /\ quiet c = true
  | StreamPort p => stream_ok m p (handle c) (request c)
  | RwFsReq b cb =>
    handle c = HNone /\ is_obj cb /\
    exists op o s n, request c = Some (RFs op Cb_rw_fs) /\ rw_op op = Some (o, s, n) /\
      b = Sobj o /\ buf_ok m (o, s, n)
  | CloseFsReq _ cb =>
    handle c = HNone /\ opt_obj cb /\ exists f, request c = Some (RFs (FsClose f) Cb_close_fs)
  | UvFsReq cb =>
    handle c = HNone /\ is_obj cb /\
    exists op f, request c = Some (RFs op f) /\ fs_req_ok op f = true
  | UvAsync cb =>
    request c = None /\
    ((handle c = HOpen (Some Cb_close_fd) /\ opt_obj cb) \/ handle c = HClosing Cb_close_async \/
     (handle c = HNone \/ handle c = HOpen None) /\ cb = Sundef)
  | TcpConnect cb _ addrinfo _ =>
    handle c = HNone /\ is_obj cb /\
    ((exists n s, request c = Some (RGetaddrinfo n s) /\ addrinfo = false) \/
     exists a, request c = Some (RConnect a) /\ addrinfo = true)
  | UvTcp cb => data_handle_ok c Cb_listen_tcp cb
  | UvFsEvent cb => data_handle_ok c Cb_watch_path cb
  | UvProcess cb _ _ =>
    request c = None /\ opt_obj cb /\
    (handle c = HOpen (Some Cb_process_exit) \/ handle c = HClosing Cb_close_handle_data)
  | UvSignal =>
    request c = None /\ (handle c = HOpen (Some Cb_fire_signal) \/ handle c = HClosing Cb_close_signal)
  | Chars _ | Argv _ => False
  end.

(** A stream port nothing is done with yet. *)
Definition idle (c : cell) : Prop :=
  exists p, c = mkCell (StreamPort p) (HOpen None) None /\
    (sp_vtable p = pipe_vtable \/ sp_vtable p = tcp_vtable) /\
    close_callback p = NULL /\ read_callback p = NULL /\ write_callback p = NULL.

(** What a block may say of the block it refers to. *)
Definition ref_ok (o : obj) (target : cell) : Prop :=
  match o with
  | CloseFsReq _ _ => exists vt f, contents target = FsPort vt f
  | TcpConnect _ _ _ _ => idle target
  | _ => True
  end.

(** ** The invariant *)

Record Core (h : gmap Z cell) (n : Z) (l : gmultiset positive) (m : gmap positive object) : Prop := {
  core_next : 0 < n;
  core_fresh : forall a, n <= a -> h !! a = None;
  core_cells : forall a c, h !! a = Some c -> cell_ok m c;
  core_locks : l = total h;
  core_refs : forall a c p, h !! a = Some c -> ref (contents c) = Some p ->
    exists c', h !! p = Some c' /\ ref_ok (contents c) c';
  core_unique : forall a1 a2 c1 c2 p, h !! a1 = Some c1 -> h !! a2 = Some c2 ->
    ref (contents c1) = Some p -> ref (contents c2) = Some p -> a1 = a2
}.

Definition Inv (w : world) : Prop := Core (heap w) (next w) (locks w) (objects w).

(** No block refers to [a]: its owner is the Scheme program. *)
Definition unreferenced (h : gmap Z cell) (a : Z) : Prop :=
  forall b c, h !! b = Some c -> ref (contents c) <> Some a.

(** ** Weakest preconditions *)

Definition wp {A} (m : M A) (w : world) (Q : A -> world -> Prop) : Prop :=
  match m w with Some (x, w') => Q x w' | None => False end.

(** ** Sums over the heap *)

Lemma sum_insert f h a c : h !! a = None -> sum_over f (<[a := c]> h) = f c ⊎ sum_over f h.
Proof.
  intros Ha. apply (map_fold_insert_L (fun _ c acc => f c ⊎ acc)); [|done].
  intros. multiset_solver.
Qed.

Lemma sum_delete f h a c : h !! a = Some c -> sum_over f h = f c ⊎ sum_over f (delete a h).
Proof.
  intros Ha. rewrite <- (insert_delete_id h a c Ha) at 1.
  apply sum_insert, lookup_delete_eq.
Qed.

Lemma sum_update f h a c c' :
  h !! a = Some c -> f c ⊎ sum_over f (<[a := c']> h) = f c' ⊎ sum_over f h.
Proof.
  intros Ha. rewrite (sum_delete f h a c Ha), <- insert_delete_eq.
  rewrite sum_insert by apply lookup_delete_eq. multiset_solver.
Qed.

Lemma total_insert h a c : h !! a = None -> total (<[a := c]> h) = owned c ⊎ total h.
Proof. apply sum_insert. Qed.

Lemma total_delete h a c : h !! a = Some c -> total h = owned c ⊎ total (delete a h).
Proof. apply sum_delete. Qed.

Lemma total_update h a c c' :
  h !! a = Some c -> owned c ⊎ total (<[a := c']> h) = owned c' ⊎ total h.
Proof. apply sum_update. Qed.

(** ** Moves of the invariant *)

Section moves.
Context {h : gmap Z cell} {n : Z} {l : gmultiset positive} {m : gmap positive object}.
Hypothesis HC : Core h n l m.

Lemma Core_fresh_ne a c : h !! a = Some c -> a <> n.
Proof. intros Ha ->. by rewrite (core_fresh _ _ _ _ HC) in Ha by lia. Qed.

Lemma Core_owned a c : h !! a = Some c -> owned c ⊆ l.
Proof.
  intros Ha. rewrite (core_locks _ _ _ _ HC), (total_delete h a c Ha). multiset_solver.
Qed.

Lemma Core_owned_split a c : h !! a = Some c -> exists l0, l = l0 ⊎ owned c.
Proof.
  intros Ha. exists (l ∖ owned c). rewrite (comm_L (⊎)). apply gmultiset_disj_union_difference.
  by eapply Core_owned.
Qed.

(** Only ports are referred to. *)
Lemma Core_unreferenced a c :
  h !! a = Some c -> (forall p, contents c <> StreamPort p) -> (forall vt f, contents c <> FsPort vt f) ->
  unreferenced h a.
Proof.
  intros Ha H1 H2 b d Hb Hr. destruct (core_refs _ _ _ _ HC b d a Hb Hr) as (c' & Hc' & Hok).
  rewrite Ha in Hc'. injection Hc' as <-. destruct (contents d); try done.
  - destruct Hok as (vt & f & E). by apply (H2 vt f).
  - destruct Hok as (p & -> & _). by apply (H1 p).
Qed.

(** Addresses given out and taken back. *)
Lemma Core_next n' : n <= n' -> Core h n' l m.
Proof.
  intros Hn. destruct HC as [H1 H2 H3 H4 H5 H6]. constructor; try done; [lia|].
  intros. apply H2. lia.
Qed.

Lemma Core_insert_ref a c l' n' :
  n <= n' -> a < n' -> h !! a = None -> l' = l ⊎ owned c -> cell_ok m c ->
  (forall p, ref (contents c) = Some p -> unreferenced h p /\
     exists c', h !! p = Some c' /\ ref_ok (contents c) c') ->
  Core (<[a := c]> h) n' l' m.
Proof.
  intros Hn Han Ha -> Hok Hr. destruct HC as [H1 H2 H3 H4 H5 H6].
  constructor.
  - lia.
  - intros b Hb. rewrite lookup_insert_ne by lia. apply H2. lia.
  - intros b d [[<- <-]|[_ Hd]]%lookup_insert_Some; [done|by eapply H3].
  - rewrite total_insert by done. rewrite H4. multiset_solver.
  - intros b d p [[<- <-]|[Hne Hd]]%lookup_insert_Some Hp.
    + destruct (Hr p Hp) as (_ & c' & Hc' & Hok'). exists c'.
      rewrite lookup_insert_ne by congruence. done.
    + destruct (H5 b d p Hd Hp) as (c' & Hc' & Hok'). exists c'.
      rewrite lookup_insert_ne by congruence. done.
  - intros b1 b2 d1 d2 p [[<- <-]|[Hne1 Hd1]]%lookup_insert_Some
      [[<- <-]|[Hne2 Hd2]]%lookup_insert_Some Hp1 Hp2; [done| | |by eapply H6].
    + destruct (Hr p Hp1) as [Hu _]. by destruct (Hu b2 d2 Hd2).
    + destruct (Hr p Hp2) as [Hu _]. by destruct (Hu b1 d1 Hd1).
Qed.

Lemma Core_alloc_ref a c l' n' :
  n <= a < n' -> l' = l ⊎ owned c -> cell_ok m c ->
  (forall p, ref (contents c) = Some p -> unreferenced h p /\
     exists c', h !! p = Some c' /\ ref_ok (contents c) c') ->
  Core (<[a := c]> h) n' l' m.
Proof. intros Hn. apply Core_insert_ref; [lia|lia|]. apply (core_fresh _ _ _ _ HC). lia. Qed.

(** Nothing refers to an address that is not in use. *)
Lemma Core_unused a : h !! a = None -> unreferenced h a.
Proof.
  intros Ha b c Hb Hr. destruct (core_refs _ _ _ _ HC b c a Hb Hr) as (c' & Hc' & _).
  by rewrite Ha in Hc'.
Qed.

Lemma Core_alloc a c l' n' :
  n <= a < n' -> l' = l ⊎ owned c -> cell_ok m c -> ref (contents c) = None ->
  Core (<[a := c]> h) n' l' m.
Proof. intros Hn Hl Hok Hr. apply Core_alloc_ref; try done. intros p. by rewrite Hr. Qed.

Lemma Core_update a c c' l' :
  h !! a = Some c -> l' ⊎ owned c = l ⊎ owned c' -> cell_ok m c' ->
  ref (contents c') = ref (contents c) ->
  (forall p, ref (contents c) = Some p -> forall d, ref_ok (contents c) d -> ref_ok (contents c') d) ->
  (unreferenced h a \/ forall o, ref_ok o c -> ref_ok o c') ->
  Core (<[a := c']> h) n l' m.
Proof.
  intros Ha Hl Hok Href Hsub Hkeep. destruct HC as [H1 H2 H3 H4 H5 H6].
  assert (Hlt : a < n) by (destruct (Z.lt_ge_cases a n); [done|]; rewrite H2 in Ha by lia; done).
  constructor.
  - done.
  - intros b Hb. rewrite lookup_insert_ne by lia. by apply H2.
  - intros b d [[<- <-]|[_ Hd]]%lookup_insert_Some; [done|by eapply H3].
  - pose proof (total_update h a c c' Ha) as Ht. rewrite <- H4 in Ht. multiset_solver.
  - assert (Hgo : forall b d p, h !! b = Some d -> ref (contents d) = Some p ->
      exists t, <[a := c']> h !! p = Some t /\ ref_ok (contents d) t).
    { intros b d p Hd Hp. destruct (H5 b d p Hd Hp) as (t & Ht & Hrt).
      destruct (decide (p = a)) as [->|Hne].
      - exists c'. rewrite lookup_insert_eq. split; [done|].
        rewrite Ha in Ht. injection Ht as <-. destruct Hkeep as [Hu|Hk]; [|by apply Hk].
        by destruct (Hu b d Hd).
      - exists t. by rewrite lookup_insert_ne. }
    intros b d p [[<- <-]|[Hne Hd]]%lookup_insert_Some Hp; [|by eapply Hgo].
    rewrite Href in Hp. destruct (Hgo a c p Ha Hp) as (t & Ht & Hrt).
    exists t. split; [done|]. by eapply Hsub.
  - intros b1 b2 d1 d2 p [[<- <-]|[Hne1 Hd1]]%lookup_insert_Some
      [[<- <-]|[Hne2 Hd2]]%lookup_insert_Some Hp1 Hp2; try done; [| |by eapply H6].
    + rewrite Href in Hp1. by apply (H6 a b2 c d2 p).
    + rewrite Href in Hp2. by apply (H6 b1 a d1 c p).
Qed.

Lemma Core_free a c l' :
  h !! a = Some c -> l = l' ⊎ owned c -> unreferenced h a -> Core (delete a h) n l' m.
Proof.
  intros Ha Hl Hu. destruct HC as [H1 H2 H3 H4 H5 H6]. constructor.
  - done.
  - intros b Hb. rewrite lookup_delete_None. right. by apply H2.
  - intros b d [_ Hd]%lookup_delete_Some. by eapply H3.
  - rewrite (total_delete h a c Ha) in H4. multiset_solver.
  - intros b d p [_ Hd]%lookup_delete_Some Hp.
    destruct (H5 b d p Hd Hp) as (t & Ht & Hrt). exists t. split; [|done].
    rewrite lookup_delete_ne; [done|]. intros <-. by destruct (Hu b d Hd).
  - intros b1 b2 d1 d2 p [_ Hd1]%lookup_delete_Some [_ Hd2]%lookup_delete_Some. by apply H6.
Qed.

End moves.

Lemma unreferenced_insert h a b c :
  unreferenced h a -> ref (contents c) <> Some a -> unreferenced (<[b := c]> h) a.
Proof. intros Hu Hc x d [[<- <-]|[_ Hx]]%lookup_insert_Some; [done|by apply (Hu x)]. Qed.

Lemma unreferenced_delete h a b : unreferenced h a -> unreferenced (delete b h) a.
Proof. intros Hu x d [_ Hx]%lookup_delete_Some. by apply (Hu x). Qed.

(** A change of the contents of bytevectors that keeps their lengths. *)
Definition size (x : object) : option nat :=
  match x with Bytevector l => Some (length l) | Procedure => None end.
Definition same_lengths (m m' : gmap positive object) : Prop :=
  forall o, size <$> m' !! o = size <$> m !! o.

Lemma same_lengths_lookup m m' o l : same_lengths m m' -> m !! o = Some (Bytevector l) ->
  exists l', m' !! o = Some (Bytevector l') /\ length l' = length l.
Proof.
  intros Hm Hl. specialize (Hm o). rewrite Hl in Hm.
  destruct (m' !! o) as [[|l']|]; try done. injection Hm as E. by exists l'.
Qed.

Lemma buf_ok_lengths m m' b : same_lengths m m' -> buf_ok m b -> buf_ok m' b.
Proof.
  intros Hm. destruct b as [[o s] k]. intros (l & Hl & Hs & Hk & Hlen).
  destruct (same_lengths_lookup _ _ o l Hm Hl) as (l' & Hl' & Heq). exists l'. rewrite Heq. done.
Qed.

Lemma cell_ok_lengths m m' c : same_lengths m m' -> cell_ok m c -> cell_ok m' c.
Proof.
  intros Hm. unfold cell_ok. destruct (contents c); try done.
  - unfold stream_ok, reading_ok, writing_ok. intros (Hv & Hr & Hw & Hc). split; [done|].
    split; [|split; [|done]].
    + destruct Hr as [Hr|(b & Hb & Hcb & Hbuf & Hh)]; [by left|right].
      exists b. repeat split; try done. by eapply buf_ok_lengths.
    + destruct Hw as [Hw|(b & bufs & Hb & Hcb & Hr' & Hbufs & Hrest)]; [by left|right].
      exists b, bufs. repeat split; try done.
      eapply Forall_impl; [exact Hbufs|]. intros x. by apply buf_ok_lengths.
  - intros (Hh & Hcb & op & o & s & k & Hr & Hop & Hb & Hbuf). split; [done|]. split; [done|].
    exists op, o, s, k. repeat split; try done. by eapply buf_ok_lengths.
Qed.

Lemma Core_objects h n l m m' : same_lengths m m' -> Core h n l m -> Core h n l m'.
Proof.
  intros Hm []. constructor; try done. intros a c Ha. eapply cell_ok_lengths; [done|]. eauto.
Qed.

Lemma is_obj_defined p : is_obj p -> defined p = true.
Proof. by intros [o ->]. Qed.

Lemma opt_obj_defined p : opt_obj p -> defined p = true.
Proof. by intros [->|[o ->]]. Qed.

Lemma is_obj_not_null p : is_obj p -> is_null p = false.
Proof. by intros [o ->]. Qed.

#[export] Hint Resolve is_obj_defined opt_obj_defined is_obj_not_null : swish.

(** ** Rules of the program logic

    One rule per primitive; [wp_step] below applies them.  Each precondition is a lookup or a
    fact about the locks that the invariant provides. *)

Lemma wp_bind {A B} (m : M A) (k : A -> M B) w Q :
  wp m w (fun x w' => wp (k x) w' Q) -> wp (m ≫= k) w Q.
Proof. unfold wp, mbind, M_bind. by destruct (m w) as [[x w']|]. Qed.

Lemma wp_ret {A} (x : A) w (Q : A -> world -> Prop) : Q x w -> wp (mret x) w Q.
Proof. done. Qed.

Lemma wp_mono {A} (m : M A) w (Q R : A -> world -> Prop) :
  wp m w Q -> (forall x w', Q x w' -> R x w') -> wp m w R.
Proof. unfold wp. destruct (m w) as [[x w']|]; auto. Qed.

Lemma wp_result {A} (m : M A) w Q : wp m w Q -> exists x w', m w = Some (x, w') /\ Q x w'.
Proof. unfold wp. destruct (m w) as [[x w']|]; [|done]. eauto. Qed.

Lemma wp_pure {A} (m : M A) w (P : A -> Prop) :
  wp m w (fun x w' => P x /\ w' = w) -> exists x, m w = Some (x, w) /\ P x.
Proof. intros (x & w' & Hm & HP & ->)%wp_result. by exists x. Qed.

Lemma wp_get w (Q : world -> world -> Prop) : Q w w -> wp get w Q.
Proof. done. Qed.

Lemma wp_modify f w (Q : unit -> world -> Prop) : Q tt (f w) -> wp (modify f) w Q.
Proof. done. Qed.

Lemma wp_require b w (Q : unit -> world -> Prop) : b = true -> Q tt w -> wp (require b) w Q.
Proof. by intros ->. Qed.

Lemma wp_ask w (Q : Z -> world -> Prop) :
  Q (answers w (tick w)) (set_tick (S (tick w)) w) -> wp ask w Q.
Proof. done. Qed.

(** The result the next libuv call will have. *)
Definition next_result (w : world) : Z := Z.min 0 (answers w (tick w)).
Definition ticked (w : world) : world := set_tick (S (tick w)) w.

Lemma wp_uv_result w (Q : Z -> world -> Prop) :
  Q (next_result w) (ticked w) -> wp uv_result w Q.
Proof. done. Qed.

Lemma wp_truthy p b w (Q : bool -> world -> Prop) :
  defined p = true -> is_null p = b -> Q (negb b) w -> wp (truthy p) w Q.
Proof. intros Hd <-. destruct p; done. Qed.

Lemma wp_lock p w (Q : unit -> world -> Prop) :
  defined p = true -> Q tt (set_locks (locks w ⊎ lk p) w) -> wp (Slock_object p) w Q.
Proof. intros Hp HQ. unfold Slock_object. rewrite Hp. exact HQ. Qed.

Lemma wp_unlock p w (Q : unit -> world -> Prop) :
  defined p = true -> lk p ⊆ locks w -> Q tt (set_locks (locks w ∖ lk p) w) ->
  wp (Sunlock_object p) w Q.
Proof.
  intros Hp Hl HQ. unfold Sunlock_object. apply wp_bind, wp_get, wp_bind.
  rewrite Hp, bool_decide_eq_true_2 by done. exact HQ.
Qed.

Definition alloc (o : obj) (w : world) : world :=
  set_next (next w + 1) (set_heap (<[next w := mkCell o HNone None]> (heap w)) w).

Lemma wp_malloc o w (Q : option Z -> world -> Prop) :
  (answers w (tick w) = 0 -> Q None (ticked w)) ->
  (answers w (tick w) <> 0 -> Q (Some (next w)) (alloc o (ticked w))) ->
  wp (malloc o) w Q.
Proof.
  intros H0 H1. unfold malloc. apply wp_bind, wp_ask.
  destruct (Z.eqb_spec (answers w (tick w)) 0); [by apply H0|by apply H1].
Qed.

Lemma wp_load_cell a c w (Q : cell -> world -> Prop) :
  heap w !! a = Some c -> Q c w -> wp (load_cell a) w Q.
Proof. intros Ha HQ. unfold wp, load_cell. by rewrite Ha. Qed.

Lemma wp_store_cell a c d w (Q : unit -> world -> Prop) :
  heap w !! a = Some c -> Q tt (set_heap (<[a := d]> (heap w)) w) -> wp (store_cell a d) w Q.
Proof. intros Ha HQ. unfold store_cell. by eapply wp_bind, wp_load_cell. Qed.

Lemma wp_load a c w (Q : obj -> world -> Prop) :
  heap w !! a = Some c -> Q (contents c) w -> wp (load a) w Q.
Proof. intros Ha HQ. unfold load. by eapply wp_bind, wp_load_cell. Qed.

Lemma wp_store a c o w (Q : unit -> world -> Prop) :
  heap w !! a = Some c ->
  Q tt (set_heap (<[a := mkCell o (handle c) (request c)]> (heap w)) w) -> wp (store a o) w Q.
Proof. intros Ha HQ. eapply wp_bind, wp_load_cell; [done|]. by eapply wp_store_cell. Qed.

Lemma wp_set_handle a c x w (Q : unit -> world -> Prop) :
  heap w !! a = Some c ->
  Q tt (set_heap (<[a := mkCell (contents c) x (request c)]> (heap w)) w) ->
  wp (set_handle a x) w Q.
Proof. intros Ha HQ. eapply wp_bind, wp_load_cell; [done|]. by eapply wp_store_cell. Qed.

Lemma wp_set_request a c x w (Q : unit -> world -> Prop) :
  heap w !! a = Some c ->
  Q tt (set_heap (<[a := mkCell (contents c) (handle c) x]> (heap w)) w) ->
  wp (set_request a x) w Q.
Proof. intros Ha HQ. eapply wp_bind, wp_load_cell; [done|]. by eapply wp_store_cell. Qed.

Lemma wp_free a c w (Q : unit -> world -> Prop) :
  heap w !! a = Some c -> quiet c = true -> Q tt (set_heap (delete a (heap w)) w) ->
  wp (free a) w Q.
Proof.
  intros Ha Hq HQ. eapply wp_bind, wp_load_cell; [done|].
  apply wp_bind, wp_require; [done|]. exact HQ.
Qed.

Lemma wp_uv_submit a c r w (Q : Z -> world -> Prop) :
  heap w !! a = Some c -> request c = None ->
  (next_result w < 0 -> Q (next_result w) (ticked w)) ->
  (next_result w = 0 ->
   Q 0 (set_heap (<[a := mkCell (contents c) (handle c) (Some r)]> (heap w)) (ticked w))) ->
  wp (uv_submit a r) w Q.
Proof.
  intros Ha Hr H1 H2. eapply wp_bind, wp_load_cell; [done|]. rewrite Hr.
  apply wp_bind, wp_require; [done|]. apply wp_bind, wp_uv_result.
  destruct (Z.ltb_spec (next_result w) 0); [by apply H1|].
  assert (E : next_result w = 0) by (unfold next_result in *; lia). rewrite E.
  eapply wp_bind, wp_set_request; [done|]. by apply wp_ret, H2.
Qed.

Lemma wp_uv_handle_init a c w (Q : Z -> world -> Prop) :
  heap w !! a = Some c -> handle c = HNone ->
  (next_result w < 0 -> Q (next_result w) (ticked w)) ->
  (next_result w = 0 ->
   Q 0 (set_heap (<[a := mkCell (contents c) (HOpen None) (request c)]> (heap w)) (ticked w))) ->
  wp (uv_handle_init a) w Q.
Proof.
  intros Ha Hh H1 H2. eapply wp_bind, wp_load_cell; [done|]. rewrite Hh.
  apply wp_bind, wp_require; [done|]. apply wp_bind, wp_uv_result.
  destruct (Z.ltb_spec (next_result w) 0); [by apply H1|].
  assert (E : next_result w = 0) by (unfold next_result in *; lia). rewrite E.
  eapply wp_bind, wp_set_handle; [done|]. by apply wp_ret, H2.
Qed.

Lemma wp_uv_handle_start a c cb w (Q : Z -> world -> Prop) :
  heap w !! a = Some c -> is_open (handle c) = true ->
  (next_result w < 0 -> Q (next_result w) (ticked w)) ->
  (next_result w = 0 ->
   Q 0 (set_heap (<[a := mkCell (contents c) (HOpen (Some cb)) (request c)]> (heap w)) (ticked w))) ->
  wp (uv_handle_start a cb) w Q.
Proof.
  intros Ha Hh H1 H2. eapply wp_bind, wp_load_cell; [done|].
  apply wp_bind, wp_require; [done|]. apply wp_bind, wp_uv_result.
  destruct (Z.ltb_spec (next_result w) 0); [by apply H1|].
  assert (E : next_result w = 0) by (unfold next_result in *; lia). rewrite E.
  eapply wp_bind, wp_set_handle; [done|]. by apply wp_ret, H2.
Qed.

Lemma wp_uv_handle_stop a c w (Q : unit -> world -> Prop) :
  heap w !! a = Some c -> is_open (handle c) = true ->
  Q tt (set_heap (<[a := mkCell (contents c) (HOpen None) (request c)]> (heap w)) w) ->
  wp (uv_handle_stop a) w Q.
Proof.
  intros Ha Hh HQ. eapply wp_bind, wp_load_cell; [done|].
  destruct (handle c); try done. by eapply wp_set_handle.
Qed.

Lemma wp_uv_close a c cb w (Q : unit -> world -> Prop) :
  heap w !! a = Some c -> is_open (handle c) = true ->
  Q tt (set_heap (<[a := mkCell (contents c) (HClosing cb) (request c)]> (heap w)) w) ->
  wp (uv_close a cb) w Q.
Proof.
  intros Ha Hh HQ. eapply wp_bind, wp_load_cell; [done|].
  apply wp_bind, wp_require; [done|]. by eapply wp_set_handle.
Qed.

(** The callback list is being collected: [osi_get_callbacks] is running the loop. *)
Definition collecting (w : world) : Prop := defined (g_callbacks w) = true /\ is_null (g_callbacks w) = false.

Definition add_callback (callback args : ptr) (w : world) : world :=
  set_callbacks (Scons (Scons callback args) (g_callbacks w)) w.

Lemma wp_add_callback_list cb args w (Q : unit -> world -> Prop) :
  collecting w -> Q tt (add_callback cb args w) -> wp (osi_add_callback_list cb args) w Q.
Proof.
  intros [Hd Hn] HQ. apply wp_bind, wp_get, wp_bind, (wp_truthy _ false); [done|done|].
  by apply wp_bind, wp_require.
Qed.

Lemma wp_buf_of o s n w (Q : uv_buf -> world -> Prop) :
  Q (o, s, n) w -> wp (buf_of (Sobj o) s n) w Q.
Proof. done. Qed.

(** The result of an operation that left nothing behind, and of one that left the new block
    [a] in the state [c] with the locks it owns. *)
Record same (w w' : world) : Prop := {
  same_heap : heap w' = heap w;
  same_locks : locks w' = locks w;
  same_objects : objects w' = objects w;
  same_callbacks : g_callbacks w' = g_callbacks w;
  same_timer : timer w' = timer w /\ timer_data w' = timer_data w
}.

Record started (a : Z) (c : cell) (w w' : world) : Prop := {
  started_fresh : heap w !! a = None;
  started_heap : heap w' = <[a := c]> (heap w);
  started_locks : locks w' = locks w ⊎ owned c;
  started_objects : objects w' = objects w;
  started_callbacks : g_callbacks w' = g_callbacks w;
  started_timer : timer w' = timer w /\ timer_data w' = timer_data w
}.

(** Normal form of the state: a record of its fields. *)
Ltac world_norm :=
  cbv beta iota delta
      [heap next locks objects g_callbacks deliver_signal timer timer_data answers tick
       set_heap set_next set_locks set_objects set_callbacks set_timer set_tick ticked alloc
       add_callback next_result contents handle request];
  rewrite ?insert_insert_eq.
Ltac world_norm_in H :=
  cbv beta iota delta
      [heap next locks objects g_callbacks deliver_signal timer timer_data answers tick
       set_heap set_next set_locks set_objects set_callbacks set_timer set_tick ticked alloc
       add_callback next_result contents handle request] in H.

(** Starts a proof about all states: the fields get names. *)
Ltac world_intro w :=
  destruct w as [h n l m cbs sig tm td ans tk]; unfold Inv, collecting in *;
  cbn [heap next locks objects g_callbacks deliver_signal timer timer_data answers tick] in *.

Ltac heap_lookup :=
  cbn [heap];
  first [ eassumption
        | rewrite lookup_insert_eq; reflexivity
        | rewrite lookup_insert_ne by (congruence || lia || eauto); heap_lookup
        | rewrite lookup_delete_ne by (congruence || lia || eauto); heap_lookup ].

(** Conditions on return codes that are decided by the context. *)
Ltac rc_norm :=
  repeat match goal with
  | |- context [0 <? 0] => change (0 <? 0) with false
  | |- context [negb true] => change (negb true) with false
  | |- context [negb false] => change (negb false) with true
  | H : ?x < 0 |- context [?x <? 0] => rewrite (proj2 (Z.ltb_lt x 0) H)
  end.

(** One step of symbolic execution, on a state in normal form. *)
Ltac wp_step :=
  lazymatch goal with
  | |- wp (_ ≫= _) _ _ => apply wp_bind
  | |- wp (mret _) _ _ => apply wp_ret
  | |- wp get _ _ => apply wp_get
  | |- wp (modify _) _ _ => apply wp_modify
  | |- wp (require _) _ _ => apply wp_require
  | |- wp (Slock_object _) _ _ => apply wp_lock
  | |- wp (Sunlock_object _) _ _ => apply wp_unlock
  | |- wp (truthy _) _ _ =>
    first [ apply (wp_truthy _ true); [|first [eassumption|reflexivity]|]
          | apply (wp_truthy _ false);
            [|first [eassumption|reflexivity|apply is_obj_not_null; eassumption]|] ]
  | |- wp (malloc _) _ _ => apply wp_malloc; let H := fresh "Hans" in intros H; world_norm_in H
  | |- wp (load_cell _) _ _ => eapply wp_load_cell; [heap_lookup|]
  | |- wp (load _) _ _ => eapply wp_load; [heap_lookup|]
  | |- wp (store _ _) _ _ => eapply wp_store; [heap_lookup|]
  | |- wp (free _) _ _ => eapply wp_free; [heap_lookup| |]
  | |- wp (uv_submit _ _) _ _ => eapply wp_uv_submit; [heap_lookup| |let H := fresh "Hrc" in intros H; world_norm_in H|let H := fresh "Hrc" in intros H; world_norm_in H]
  | |- wp (uv_fs _ _ _) _ _ => eapply wp_uv_submit; [heap_lookup| |let H := fresh "Hrc" in intros H; world_norm_in H|let H := fresh "Hrc" in intros H; world_norm_in H]
  | |- wp (uv_handle_init _) _ _ => eapply wp_uv_handle_init; [heap_lookup| |let H := fresh "Hrc" in intros H; world_norm_in H|let H := fresh "Hrc" in intros H; world_norm_in H]
  | |- wp (uv_handle_start _ _) _ _ => eapply wp_uv_handle_start; [heap_lookup| |let H := fresh "Hrc" in intros H; world_norm_in H|let H := fresh "Hrc" in intros H; world_norm_in H]
  | |- wp (uv_handle_stop _) _ _ => eapply wp_uv_handle_stop; [heap_lookup| |]
  | |- wp (uv_close _ _) _ _ => eapply wp_uv_close; [heap_lookup| |]
  | |- wp (osi_add_callback_list _ _) _ _ => apply wp_add_callback_list
  | |- wp (osi_add_callback1 _ _) _ _ => apply wp_add_callback_list
  | |- wp (osi_add_callback2 _ _ _) _ _ => apply wp_add_callback_list
  | |- wp (osi_add_callback3 _ _ _ _) _ _ => apply wp_add_callback_list
  | |- wp (buf_of (Sobj _) _ _) _ _ => apply wp_buf_of
  end; world_norm; rc_norm; cbv beta iota.

Lemma Core_next_fresh h n l m a : Core h n l m -> n <= a -> h !! a = None.
Proof. intros []. apply core_fresh0. Qed.

(** Simplifies the removal of a block that was just added. *)
Ltac heap_norm :=
  rewrite ?insert_insert_eq, ?delete_insert_eq;
  repeat (rewrite delete_id by (first [done | eapply Core_next_fresh; [done|lia]])).

(** The result of a completed request: its block is gone, with the locks it owned, and the
    callback is on the list. *)
Record completed (a : Z) (c : cell) (cb args : ptr) (w w' : world) : Prop := {
  completed_heap : heap w' = delete a (heap w);
  completed_locks : locks w = locks w' ⊎ owned c;
  completed_objects : objects w' = objects w;
  completed_callbacks : g_callbacks w' = Scons (Scons cb args) (g_callbacks w);
  completed_timer : timer w' = timer w /\ timer_data w' = timer_data w
}.

(** Goals on multisets, without the context first. *)
Ltac locks_eq := first [ solve [clear; multiset_solver] | multiset_solver ].

(** Equations and inclusions between the locks and what blocks own. *)
Ltac locks_solve :=
  unfold owned; world_norm;
  cbv beta iota delta [sp_vtable close_callback read_buffer read_start_index read_size
    read_callback write_buffer write_buffer2 write_size write_callback is_null Z.eqb];
  repeat match goal with H : is_null _ = _ |- _ => rewrite H end;
  cbv beta iota; locks_eq.

Lemma Core_locks_eq h n l l' m : Core h n l m -> l' = l -> Core h n l' m.
Proof. by intros ? ->. Qed.

(** Restores a [Core] up to unused addresses and an equation between locks. *)
Ltac core_same :=
  match goal with
  | H : Core ?h ?n ?l ?m |- Core ?h ?n' ?l' ?m =>
    apply (Core_locks_eq h n' l l' m); [apply (Core_next H); lia | locks_eq]
  end.

(** Runs a straight-line piece of code and discharges the side conditions of its steps. *)
Ltac wp_side :=
  lazymatch goal with
  | |- _ ⊆ _ => try locks_eq
  | |- defined _ = true => try solve [done | eauto with swish]
  | |- _ = true => try reflexivity
  | |- _ = None => try reflexivity
  | |- _ = HNone => try reflexivity
  | |- _ => idtac
  end.
Ltac wp_run := world_norm; repeat wp_step; wp_side.

(** Equality of heaps that differ in the order and number of updates. *)
Ltac heap_eq :=
  let i := fresh "i" in
  apply map_eq; intros i;
  rewrite ?lookup_insert, ?lookup_delete;
  repeat first [progress rewrite ?lookup_insert, ?lookup_delete | case_decide];
  subst; first [done | congruence | lia].

(** Replaces the heap of the goal's state. *)
Ltac heap_is T :=
  lazymatch goal with |- Core ?X _ _ _ /\ _ => replace X with T by heap_eq end.
