(* ===== verification/FsPort.v ===== *)
(** * FsPort: files and file-system requests

    The file and descriptor ports of osi.c (lines 172-298), the callbacks of the file-system
    requests (lines 300-398) and the operations that submit them.  Each operation follows one
    protocol: allocate the request, lock what it names, submit it to libuv, and undo both when
    the submission fails; the callback undoes both when the request completes. *)

From S2P Require Export Ownership.

(** ** Definitions *)

(** What libuv leaves in a [uv_fs_t] when the request completes: [result], the [statbuf]
    fields the code reads (in the order of lines 361-376, times as seconds and nanoseconds),
    [ptr], and the directory entries with their types. *)
Record fs_result := mkFsResult {
  fs_value : Z;
  fs_statbuf : list Z;
  fs_times : list (Z * Z);
  fs_path : list Z;
  fs_entries : list (list Z * Z)
}.

Definition load_fs_port (a : Z) : M (osi_port_vtable * Z) :=
  o ← load a; match o with FsPort vt file => mret (vt, file) | _ => undefined end.
Definition load_rw_fs_req (a : Z) : M (ptr * ptr) :=
  o ← load a; match o with RwFsReq b cb => mret (b, cb) | _ => undefined end.
Definition load_close_fs_req (a : Z) : M (Z * ptr) :=
  o ← load a; match o with CloseFsReq p cb => mret (p, cb) | _ => undefined end.
Definition load_uv_fs_req (a : Z) : M ptr :=
  o ← load a; match o with UvFsReq data => mret data | _ => undefined end.
Definition load_uv_async (a : Z) : M ptr :=
  o ← load a; match o with UvAsync data => mret data | _ => undefined end.

Definition rw_fs_cb (req : Z) (r : fs_result) : M unit :=
  let result := fs_value r in
  '(buffer, callback) ← load_rw_fs_req req;
  _ ← Sunlock_object buffer;
  _ ← Sunlock_object callback;
  _ ← free req;
  osi_add_callback1 callback (Sint result).

Definition read_fs_port (port : Z) (buffer : ptr) (start_index size offset : Z) (callback : ptr) :
    M ptr :=
  r ← malloc (RwFsReq Sundef Sundef);
  match r with
  | None => mret (osi_make_error_pair "osi_read_port" UV_ENOMEM)
  | Some req =>
    _ ← Slock_object buffer;
    _ ← Slock_object callback;
    _ ← store req (RwFsReq buffer callback);
    buf ← buf_of buffer start_index size;
    '(_, file) ← load_fs_port port;
    rc ← uv_fs req (FsRead file buf offset) Cb_rw_fs;
    if rc <? 0 then
      _ ← Sunlock_object buffer;
      _ ← Sunlock_object callback;
      _ ← free req;
      mret (osi_make_error_pair "uv_fs_read" rc)
    else mret Strue
  end.

Definition write_fs_port (port : Z) (buffer : ptr) (start_index size offset : Z) (callback : ptr) :
    M ptr :=
  r ← malloc (RwFsReq Sundef Sundef);
  match r with
  | None => mret (osi_make_error_pair "osi_write_port" UV_ENOMEM)
  | Some req =>
    _ ← Slock_object buffer;
    _ ← Slock_object callback;
    _ ← store req (RwFsReq buffer callback);
    buf ← buf_of buffer start_index size;
    '(_, file) ← load_fs_port port;
    rc ← uv_fs req (FsWrite file buf offset) Cb_rw_fs;
    if rc <? 0 then
      _ ← Sunlock_object buffer;
      _ ← Sunlock_object callback;
      _ ← free req;
      mret (osi_make_error_pair "uv_fs_write" rc)
    else mret Strue
  end.

Definition close_fs_cb (req : Z) (r : fs_result) : M unit :=
  let result := fs_value r in
  '(port, callback) ← load_close_fs_req req;
  _ ← Sunlock_object callback;
  _ ← free port;
  _ ← free req;
  osi_add_callback1 callback (Sint result).

Definition close_fs_port (port : Z) (callback : ptr) : M ptr :=
  r ← malloc (CloseFsReq 0 Sundef);
  match r with
  | None => mret (osi_make_error_pair "osi_close_port" UV_ENOMEM)
  | Some req =>
    _ ← Slock_object callback;
    _ ← store req (CloseFsReq port callback);
    '(_, file) ← load_fs_port port;
    rc ← uv_fs req (FsClose file) Cb_close_fs;
    if rc <? 0 then
      _ ← Sunlock_object callback;
      _ ← free req;
      mret (osi_make_error_pair "uv_fs_close" rc)
    else mret Strue
  end.

Definition close_async_cb (handle : Z) : M unit := free handle.

Definition close_fd_cb (async : Z) : M unit :=
  callback ← load_uv_async async;
  _ ← Sunlock_object callback;
  _ ← uv_close async Cb_close_async;
  osi_add_callback1 callback (Sint 0).

Definition close_fd_port (port : Z) (callback : ptr) : M ptr :=
  r ← malloc (UvAsync Sundef);
  match r with
  | None => mret (osi_make_error_pair "osi_close_fd_port" UV_ENOMEM)
  | Some async =>
    rc ← uv_handle_init async;
    if rc <? 0 then mret (osi_make_error_pair "uv_async_init" rc) else
    rc ← uv_handle_start async Cb_close_fd;
    if rc <? 0 then mret (osi_make_error_pair "uv_async_send" rc) else
    _ ← Slock_object callback;
    _ ← store async (UvAsync callback);
    _ ← free port;
    mret Strue
  end.

(** The callbacks of the plain requests. *)
Definition open_fs_cb (req : Z) (r : fs_result) : M unit :=
  let result := fs_value r in
  callback ← load_uv_fs_req req;
  _ ← Sunlock_object callback;
  _ ← free req;
  if result <? 0 then osi_add_callback1 callback (osi_make_error_pair "uv_fs_open" (i32 result)) else
  p ← malloc (FsPort file_vtable 0);
  match p with
  | None => osi_add_callback1 callback (osi_make_error_pair "uv_fs_open" UV_ENOMEM)
  | Some port =>
    _ ← store port (FsPort file_vtable (i32 result));
    osi_add_callback1 callback (Sint port)
  end.

Definition get_file_size_cb (req : Z) (r : fs_result) : M unit :=
  callback ← load_uv_fs_req req;
  _ ← (if fs_value r <? 0 then
         osi_add_callback1 callback (osi_make_error_pair "uv_fs_fstat" (i32 (fs_value r)))
       else osi_add_callback1 callback (Sunsigned64 (fs_statbuf r !!! 7%nat)));
  _ ← Sunlock_object callback;
  free req.

Definition get_real_path_cb (req : Z) (r : fs_result) : M unit :=
  callback ← load_uv_fs_req req;
  _ ← (if fs_value r <? 0 then
         osi_add_callback1 callback (osi_make_error_pair "uv_fs_realpath" (i32 (fs_value r)))
       else osi_add_callback1 callback (Sutf8 (fs_path r)));
  _ ← Sunlock_object callback;
  free req.

Definition return_fs_result_cb (req : Z) (r : fs_result) : M unit :=
  callback ← load_uv_fs_req req;
  _ ← osi_add_callback1 callback (Sint (fs_value r));
  _ ← Sunlock_object callback;
  free req.

(** [Sinteger32] converts the [long] seconds to an [int]. *)
Definition make_time (ts : Z * Z) : ptr := Scons (Sinteger32 (fst ts)) (Sinteger32 (snd ts)).

(** The vector of 17 elements [stat_cb] fills. *)
Definition stat_vector (r : fs_result) : ptr :=
  Svector (Ssymbol "<stat>" :: map (fun i => Sunsigned64 (fs_statbuf r !!! i)) (seq 0 12)
           ++ map (fun i => make_time (fs_times r !!! i)) (seq 0 4)).

Definition stat_cb (req : Z) (r : fs_result) : M unit :=
  callback ← load_uv_fs_req req;
  _ ← (if fs_value r <? 0 then osi_add_callback1 callback (Sint (fs_value r))
       else osi_add_callback1 callback (stat_vector r));
  _ ← Sunlock_object callback;
  free req.

(** The loop conses the entries as [uv_fs_scandir_next] yields them. *)
Fixpoint list_entries (ents : list (list Z * Z)) (ls : ptr) : ptr :=
  match ents with
  | [] => ls
  | (name, type) :: ents => list_entries ents (Scons (Scons (Sutf8 name) (Sint type)) ls)
  end.

Definition list_directory_cb (req : Z) (r : fs_result) : M unit :=
  callback ← load_uv_fs_req req;
  _ ← (if fs_value r <? 0 then osi_add_callback1 callback (Sint (fs_value r))
       else osi_add_callback1 callback (list_entries (fs_entries r) Snil));
  _ ← Sunlock_object callback;
  free req.

(** The common text of the operations below: [who] is the operation, [uv] the libuv call. *)
Definition fs_request (who uv : string) (op : fs_op) (cb : fs_cb) (callback : ptr) : M ptr :=
  r ← malloc (UvFsReq Sundef);
  match r with
  | None => mret (osi_make_error_pair who UV_ENOMEM)
  | Some req =>
    _ ← Slock_object callback;
    _ ← store req (UvFsReq callback);
    rc ← uv_fs req op cb;
    if rc <? 0 then
      _ ← Sunlock_object callback;
      _ ← free req;
      mret (osi_make_error_pair uv rc)
    else mret Strue
  end.

Definition osi_chmod (path : list Z) (mode : Z) (callback : ptr) : M ptr :=
  fs_request "osi_chmod" "uv_fs_chmod" (FsChmod path mode) Cb_return_fs_result callback.
Definition osi_make_directory (path : list Z) (mode : Z) (callback : ptr) : M ptr :=
  fs_request "osi_make_directory" "uv_fs_mkdir" (FsMkdir path mode) Cb_return_fs_result callback.
Definition osi_get_real_path (path : list Z) (callback : ptr) : M ptr :=
  fs_request "osi_get_real_path" "uv_fs_realpath" (FsRealpath path) Cb_get_real_path callback.
Definition osi_list_directory (path : list Z) (callback : ptr) : M ptr :=
  fs_request "osi_list_directory" "uv_fs_scandir" (FsScandir path) Cb_list_directory callback.
Definition osi_open_file (path : list Z) (flags mode : Z) (callback : ptr) : M ptr :=
  fs_request "osi_open_file" "uv_fs_open" (FsOpen path flags mode) Cb_open_fs callback.
Definition osi_remove_directory (path : list Z) (callback : ptr) : M ptr :=
  fs_request "osi_remove_directory" "uv_fs_rmdir" (FsRmdir path) Cb_return_fs_result callback.
Definition osi_rename (path new_path : list Z) (callback : ptr) : M ptr :=
  fs_request "osi_rename" "uv_fs_rename" (FsRename path new_path) Cb_return_fs_result callback.
Definition osi_unlink (path : list Z) (callback : ptr) : M ptr :=
  fs_request "osi_unlink" "uv_fs_unlink" (FsUnlink path) Cb_return_fs_result callback.
Definition osi_get_stat (path : list Z) (follow : Z) (callback : ptr) : M ptr :=
  if negb (follow =? 0)
  then fs_request "osi_get_stat" "uv_fs_stat" (FsStat path) Cb_stat callback
  else fs_request "osi_get_stat" "uv_fs_lstat" (FsLstat path) Cb_stat callback.

Definition osi_get_file_size (port : Z) (callback : ptr) : M ptr :=
  vt ← load_vtable port;
  match vt with
  | file_vtable =>
    '(_, file) ← load_fs_port port;
    fs_request "osi_get_file_size" "uv_fs_fstat" (FsFstat file) Cb_get_file_size callback
  | _ => mret (osi_make_error_pair "osi_get_file_size" UV_EINVAL)
  end.

Definition osi_open_fd (fd close : Z) : M ptr :=
  if (fd <? 0) || (negb (close =? 0) && (fd <=? 2)) then
    mret (osi_make_error_pair "osi_open_fd" UV_EINVAL) else
  p ← malloc (FsPort fd_vtable 0);
  match p with
  | None => mret (osi_make_error_pair "osi_open_fd" UV_ENOMEM)
  | Some port =>
    _ ← store port (FsPort (if negb (close =? 0) then file_vtable else fd_vtable) fd);
    mret (Sint port)
  end.

(** ** Specifications of the operations *)

(** How an operation that submits the request [op] ends: out of memory, refused by libuv, or
    with the request in flight. *)
Definition submitted (who uv : string) (c : cell) (w : world) (r : ptr) (w' : world) : Prop :=
  (answers w (tick w) = 0 /\ r = osi_make_error_pair who UV_ENOMEM /\ same w w') \/
  (answers w (tick w) <> 0 /\ next_result (ticked w) < 0 /\
   r = osi_make_error_pair uv (next_result (ticked w)) /\ same w w') \/
  (answers w (tick w) <> 0 /\ next_result (ticked w) = 0 /\
   r = Strue /\ started (next w) c w w').

(** Ends the three cases of [submitted]. *)
Ltac submitted_case HI :=
  heap_norm; split;
  [ first [core_same | idtac]
  | unfold submitted; world_norm;
    first [ left; repeat split; first [done | locks_eq]
          | right; left; repeat split; first [done | locks_eq]
          | right; right; repeat split;
            first [done | solve [eapply Core_next_fresh; [exact HI|lia]] | locks_solve] ]].

Lemma fs_request_spec w who uv op cb callback :
  Inv w -> is_obj callback -> fs_req_ok op cb = true ->
  wp (fs_request who uv op cb callback) w (fun r w' => Inv w' /\
    submitted who uv (mkCell (UvFsReq callback) HNone (Some (RFs op cb))) w r w').
Proof.
  intros HI Hcb Hop. unfold fs_request. world_intro w.
  wp_run; submitted_case HI.
  apply (Core_alloc HI); [lia|done| |done]. cbn. eauto 10.
Qed.

Lemma read_fs_port_spec w port vt file o start size offset callback :
  Inv w -> heap w !! port = Some (mkCell (FsPort vt file) HNone None) ->
  buf_ok (objects w) (o, start, size) -> is_obj callback ->
  wp (read_fs_port port (Sobj o) start size offset callback) w (fun r w' => Inv w' /\
    submitted "osi_read_port" "uv_fs_read" (mkCell (RwFsReq (Sobj o) callback) HNone
      (Some (RFs (FsRead file (o, start, size) offset) Cb_rw_fs))) w r w').
Proof.
  intros HI Hp Hb Hcb. unfold read_fs_port, load_fs_port. world_intro w.
  pose proof (Core_fresh_ne HI _ _ Hp) as Hne.
  wp_run; submitted_case HI.
  apply (Core_alloc HI); [lia|locks_solve| |done].
  split; [done|]. split; [done|]. by exists (FsRead file (o, start, size) offset), o, start, size.
Qed.

Lemma write_fs_port_spec w port vt file o start size offset callback :
  Inv w -> heap w !! port = Some (mkCell (FsPort vt file) HNone None) ->
  buf_ok (objects w) (o, start, size) -> is_obj callback ->
  wp (write_fs_port port (Sobj o) start size offset callback) w (fun r w' => Inv w' /\
    submitted "osi_write_port" "uv_fs_write" (mkCell (RwFsReq (Sobj o) callback) HNone
      (Some (RFs (FsWrite file (o, start, size) offset) Cb_rw_fs))) w r w').
Proof.
  intros HI Hp Hb Hcb. unfold write_fs_port, load_fs_port. world_intro w.
  pose proof (Core_fresh_ne HI _ _ Hp) as Hne.
  wp_run; submitted_case HI.
  apply (Core_alloc HI); [lia|locks_solve| |done].
  split; [done|]. split; [done|]. by exists (FsWrite file (o, start, size) offset), o, start, size.
Qed.

Lemma close_fs_port_spec w port vt file callback :
  Inv w -> heap w !! port = Some (mkCell (FsPort vt file) HNone None) ->
  unreferenced (heap w) port -> opt_obj callback ->
  wp (close_fs_port port callback) w (fun r w' => Inv w' /\
    submitted "osi_close_port" "uv_fs_close"
      (mkCell (CloseFsReq port callback) HNone (Some (RFs (FsClose file) Cb_close_fs))) w r w').
Proof.
  intros HI Hp Hu Hcb. unfold close_fs_port, load_fs_port. world_intro w.
  pose proof (Core_fresh_ne HI _ _ Hp) as Hne.
  wp_run; submitted_case HI.
  apply (Core_alloc_ref HI); [lia|locks_solve| |].
  - split; [done|]. split; [done|]. by exists file.
  - intros p [= <-]. split; [done|]. eexists. split; [exact Hp|]. by exists vt, file.
Qed.

(** Closing a descriptor port: the port is freed at once, and an async handle delivers the
    callback.  Unlike the other operations, a failure of [uv_async_init] or of
    [uv_async_send] leaves the new handle behind. *)
Lemma close_fd_port_spec w port vt file callback :
  Inv w -> heap w !! port = Some (mkCell (FsPort vt file) HNone None) ->
  unreferenced (heap w) port -> opt_obj callback ->
  wp (close_fd_port port callback) w (fun r w' => Inv w' /\ objects w' = objects w /\
    g_callbacks w' = g_callbacks w /\
    ((r = osi_make_error_pair "osi_close_fd_port" UV_ENOMEM /\ same w w') \/
     (exists uv rc hd, rc < 0 /\ r = osi_make_error_pair uv rc /\
        started (next w) (mkCell (UvAsync Sundef) hd None) w w') \/
     (r = Strue /\ locks w' = locks w ⊎ lk callback /\ heap w' = <[next w :=
        mkCell (UvAsync callback) (HOpen (Some Cb_close_fd)) None]> (delete port (heap w))))).
Proof.
  intros HI Hp Hu Hcb. unfold close_fd_port. world_intro w.
  pose proof (Core_fresh_ne HI _ _ Hp) as Hne.
  assert (Hn : h !! n = None) by (eapply Core_next_fresh; [exact HI|lia]).
  wp_run; heap_norm.
  - split; [core_same|]. repeat split. by left.
  - split; [apply (Core_alloc HI); [lia|locks_solve| |done]; split; [done|]; auto|].
    repeat split. right; left. do 3 eexists. split; [exact Hrc|]. split; [done|].
    split; try done. world_norm. locks_solve.
  - split; [apply (Core_alloc HI); [lia|locks_solve| |done]; split; [done|]; auto|].
    repeat split. right; left. do 3 eexists. split; [exact Hrc0|]. split; [done|].
    split; try done. world_norm. locks_solve.
  - rewrite delete_insert_ne by done.
    assert (HD : Core (delete port h) n l m) by (apply (Core_free HI _ _ l Hp); [locks_solve|done]).
    split; [apply (Core_alloc HD); [lia|locks_solve| |done]; split; [done|]; auto|].
    repeat split. by right; right.
Qed.

(** ** Specifications of the callbacks

    Each callback runs on the state in which libuv has taken the request of its block back. *)

(** Ends the case of a completed request. *)
Ltac completed_case HI Ha :=
  heap_norm; rewrite ?delete_insert_eq; split;
  [ apply (Core_free HI _ _ _ Ha); [locks_solve|done]
  | constructor; world_norm; first [done | locks_solve] ].

(** The value the callback of a request reports.  Opening a file reports the port made for it;
    a failed open, size or path is an error pair, the other failures are error codes. *)
Definition fs_report (w : world) (cb : fs_cb) (r : fs_result) : ptr :=
  let failed uv := osi_make_error_pair uv (i32 (fs_value r)) in
  match cb with
  | Cb_open_fs =>
    if fs_value r <? 0 then failed "uv_fs_open"
    else if answers w (tick w) =? 0 then osi_make_error_pair "uv_fs_open" UV_ENOMEM
    else Sint (next w)
  | Cb_get_file_size =>
    if fs_value r <? 0 then failed "uv_fs_fstat" else Sunsigned64 (fs_statbuf r !!! 7%nat)
  | Cb_get_real_path =>
    if fs_value r <? 0 then failed "uv_fs_realpath" else Sutf8 (fs_path r)
  | Cb_return_fs_result | Cb_rw_fs | Cb_close_fs => Sint (fs_value r)
  | Cb_stat => if fs_value r <? 0 then Sint (fs_value r) else stat_vector r
  | Cb_list_directory =>
    if fs_value r <? 0 then Sint (fs_value r) else list_entries (fs_entries r) Snil
  end.

(** The C heap after the callback of the request in the block [a], which holds [o]: the block is
    freed, with the port when a file was closed; an opened file has its new port. *)
Definition fs_heap (w : world) (a : Z) (o : obj) (cb : fs_cb) (r : fs_result) : gmap Z cell :=
  let h := delete a (heap w) in
  match cb, o with
  | Cb_open_fs, _ =>
    if (fs_value r <? 0) || (answers w (tick w) =? 0) then h
    else <[next w := mkCell (FsPort file_vtable (i32 (fs_value r))) HNone None]> h
  | Cb_close_fs, CloseFsReq port _ => delete port h
  | _, _ => h
  end.

(** The requests whose callback only reports a value. *)
Definition plain_report (cb : fs_cb) : bool :=
  match cb with
  | Cb_get_file_size | Cb_get_real_path | Cb_return_fs_result | Cb_stat | Cb_list_directory => true
  | Cb_open_fs | Cb_rw_fs | Cb_close_fs => false
  end.

Definition run_fs_cb (cb : fs_cb) : Z -> fs_result -> M unit :=
  match cb with
  | Cb_rw_fs => rw_fs_cb
  | Cb_close_fs => close_fs_cb
  | Cb_open_fs => open_fs_cb
  | Cb_get_file_size => get_file_size_cb
  | Cb_get_real_path => get_real_path_cb
  | Cb_return_fs_result => return_fs_result_cb
  | Cb_stat => stat_cb
  | Cb_list_directory => list_directory_cb
  end.

(** The state in which the callback of the request of [a] runs. *)
Definition returned (a : Z) (c : cell) (w : world) : world :=
  set_heap (<[a := mkCell (contents c) (handle c) None]> (heap w)) w.

Lemma fs_report_spec w a op cb data r :
  Inv w -> collecting w ->
  heap w !! a = Some (mkCell (UvFsReq data) HNone (Some (RFs op cb))) ->
  is_obj data -> plain_report cb = true ->
  wp (run_fs_cb cb a r) (returned a (mkCell (UvFsReq data) HNone (Some (RFs op cb))) w)
    (fun _ w' => Inv w' /\
      completed a (mkCell (UvFsReq data) HNone (Some (RFs op cb))) data
        (Scons (fs_report w cb r) Snil) w w').
Proof.
  intros HI Hcol Ha Hd Hv. unfold returned. world_intro w.
  pose proof (Core_unreferenced HI a _ Ha ltac:(done) ltac:(done)) as Hu.
  assert (Hl : lk data ⊆ l) by (apply (Core_owned HI a _ Ha)).
  destruct cb; try discriminate Hv; cbn [run_fs_cb fs_report].
  all: unfold get_file_size_cb, get_real_path_cb, return_fs_result_cb, stat_cb, list_directory_cb,
    load_uv_fs_req.
  all: try destruct (fs_value r <? 0).
  all: wp_run; try done; completed_case HI Ha.
Qed.

Lemma rw_fs_cb_spec w a op b cb r :
  Inv w -> collecting w ->
  heap w !! a = Some (mkCell (RwFsReq b cb) HNone (Some (RFs op Cb_rw_fs))) ->
  is_obj b -> is_obj cb ->
  wp (rw_fs_cb a r) (returned a (mkCell (RwFsReq b cb) HNone (Some (RFs op Cb_rw_fs))) w)
    (fun _ w' => Inv w' /\ completed a (mkCell (RwFsReq b cb) HNone (Some (RFs op Cb_rw_fs))) cb
      (Scons (Sint (fs_value r)) Snil) w w').
Proof.
  intros HI Hcol Ha Hb Hcb. unfold returned, rw_fs_cb, load_rw_fs_req. world_intro w.
  pose proof (Core_unreferenced HI a _ Ha ltac:(done) ltac:(done)) as Hu.
  assert (Hl : lk b ⊎ lk cb ⊆ l) by (apply (Core_owned HI a _ Ha)).
  wp_run; try done; completed_case HI Ha.
Qed.

(** Closing a file port frees the port and the request. *)
Lemma close_fs_cb_spec w a op port cb r :
  Inv w -> collecting w ->
  heap w !! a = Some (mkCell (CloseFsReq port cb) HNone (Some (RFs op Cb_close_fs))) ->
  opt_obj cb ->
  wp (close_fs_cb a r) (returned a (mkCell (CloseFsReq port cb) HNone (Some (RFs op Cb_close_fs))) w)
    (fun _ w' => Inv w' /\ heap w' = delete a (delete port (heap w)) /\
      locks w = locks w' ⊎ lk cb /\ objects w' = objects w /\
      g_callbacks w' = Scons (Scons cb (Scons (Sint (fs_value r)) Snil)) (g_callbacks w)).
Proof.
  intros HI Hcol Ha Hcb. unfold returned, close_fs_cb, load_close_fs_req. world_intro w.
  pose proof (Core_unreferenced HI a _ Ha ltac:(done) ltac:(done)) as Hu.
  assert (Hl : lk cb ⊆ l) by (apply (Core_owned HI a _ Ha)).
  destruct (core_refs _ _ _ _ HI a _ port Ha eq_refl) as (d & Hd & vt & f & Hdc).
  pose proof (core_cells _ _ _ _ HI port d Hd) as Hok. destruct d as [dc dh dr].
  cbn [contents] in Hdc. subst dc. destruct Hok as [Hvt Hq].
  assert (Hne : port <> a) by (intros ->; rewrite Ha in Hd; discriminate).
  wp_run; try done.
  assert (Ep : delete a (delete port (<[a := mkCell (CloseFsReq port cb) HNone None]> h))
               = delete port (delete a h)).
  { by rewrite delete_insert_ne, delete_insert_eq, delete_delete by done. }
  rewrite Ep. split; [|by rewrite delete_delete; repeat split; locks_eq].
  assert (HD : Core (delete a h) n (l ∖ lk cb) m)
    by (apply (Core_free HI _ _ _ Ha); [locks_solve|done]).
  refine (Core_free HD port _ _ _ _ _).
  - rewrite lookup_delete_ne by done. exact Hd.
  - locks_solve.
  - intros b c [Hb1 Hb2]%lookup_delete_Some Hr.
    by pose proof (core_unique _ _ _ _ HI a b _ c port Ha Hb2 eq_refl Hr).
Qed.

(** A file that was opened becomes a new port, unless memory is exhausted: then the
    descriptor is lost. *)
Lemma open_fs_cb_spec w a op cb r :
  Inv w -> collecting w ->
  heap w !! a = Some (mkCell (UvFsReq cb) HNone (Some (RFs op Cb_open_fs))) -> is_obj cb ->
  wp (open_fs_cb a r) (returned a (mkCell (UvFsReq cb) HNone (Some (RFs op Cb_open_fs))) w)
    (fun _ w' => Inv w' /\ locks w = locks w' ⊎ lk cb /\ objects w' = objects w /\
      ((fs_value r < 0 /\ heap w' = delete a (heap w) /\ g_callbacks w' = Scons (Scons cb
          (Scons (osi_make_error_pair "uv_fs_open" (i32 (fs_value r))) Snil)) (g_callbacks w)) \/
       (0 <= fs_value r /\ answers w (tick w) = 0 /\ heap w' = delete a (heap w) /\
        g_callbacks w' = Scons (Scons cb (Scons (osi_make_error_pair "uv_fs_open" UV_ENOMEM) Snil))
          (g_callbacks w)) \/
       (0 <= fs_value r /\ answers w (tick w) <> 0 /\ heap w' =
          <[next w := mkCell (FsPort file_vtable (i32 (fs_value r))) HNone None]> (delete a (heap w)) /\
        g_callbacks w' = Scons (Scons cb (Scons (Sint (next w)) Snil)) (g_callbacks w)))).
Proof.
  intros HI Hcol Ha Hcb. unfold returned, open_fs_cb, load_uv_fs_req. world_intro w.
  pose proof (Core_unreferenced HI a _ Ha ltac:(done) ltac:(done)) as Hu.
  assert (Hl : lk cb ⊆ l) by (apply (Core_owned HI a _ Ha)).
  assert (HD : Core (delete a h) n (l ∖ lk cb) m)
    by (apply (Core_free HI _ _ _ Ha); [locks_solve|done]).
  destruct (Z.ltb_spec (fs_value r) 0).
  - wp_run; try done. heap_norm. split; [done|]. split; [locks_eq|]. split; [done|]. by left.
  - wp_run; try done; rewrite delete_insert_eq.
    + heap_norm. split; [done|]. split; [locks_eq|]. split; [done|]. by right; left.
    + split; [apply (Core_alloc HD); [lia|locks_solve| |done]; split; [by right|done]|].
      split; [locks_eq|]. split; [done|]. by right; right.
Qed.

(** The async handle of a closed descriptor delivers the callback, and is freed when its own
    closing completes. *)
Lemma close_fd_cb_spec w a cb :
  Inv w -> collecting w ->
  heap w !! a = Some (mkCell (UvAsync cb) (HOpen (Some Cb_close_fd)) None) -> opt_obj cb ->
  wp (close_fd_cb a) w (fun _ w' => Inv w' /\ locks w = locks w' ⊎ lk cb /\
    objects w' = objects w /\
    heap w' = <[a := mkCell (UvAsync cb) (HClosing Cb_close_async) None]> (heap w) /\
    g_callbacks w' = Scons (Scons cb (Scons (Sint 0) Snil)) (g_callbacks w)).
Proof.
  intros HI Hcol Ha Hcb. unfold close_fd_cb, load_uv_async. world_intro w.
  assert (Hl : lk cb ⊆ l) by (apply (Core_owned HI a _ Ha)).
  wp_run; try done. split; [|repeat split; locks_eq].
  apply (Core_update HI _ _ _ _ Ha); [locks_solve| |done|done|].
  2: { left. by apply (Core_unreferenced HI a _ Ha). }
  split; [done|]. auto.
Qed.

Lemma close_async_cb_spec w a cb :
  Inv w -> heap w !! a = Some (mkCell (UvAsync cb) (HClosing Cb_close_async) None) ->
  wp (close_async_cb a) (set_heap (<[a := mkCell (UvAsync cb) HNone None]> (heap w)) w)
    (fun _ w' => Inv w' /\ locks w' = locks w /\ objects w' = objects w /\
       g_callbacks w' = g_callbacks w /\ heap w' = delete a (heap w)).
Proof.
  intros HI Ha. unfold close_async_cb. world_intro w.
  pose proof (Core_unreferenced HI a _ Ha ltac:(done) ltac:(done)) as Hu.
  wp_run. heap_norm. split; [|done]. apply (Core_free HI _ _ _ Ha); [locks_solve|done].
Qed.

(** ** Ports on existing descriptors *)

Lemma osi_open_fd_spec w fd close :
  Inv w ->
  wp (osi_open_fd fd close) w (fun r w' => Inv w' /\
    ((fd < 0 \/ (close <> 0 /\ fd <= 2)) /\ r = osi_make_error_pair "osi_open_fd" UV_EINVAL /\ w' = w \/
     0 <= fd /\ (close = 0 \/ 2 < fd) /\
       (r = osi_make_error_pair "osi_open_fd" UV_ENOMEM /\ same w w' \/
        r = Sint (next w) /\ started (next w)
          (mkCell (FsPort (if close =? 0 then fd_vtable else file_vtable) fd) HNone None) w w'))).
Proof.
  intros HI. unfold osi_open_fd. destruct (_ || _) eqn:E.
  - apply wp_ret. split; [done|]. left. apply orb_true_iff in E as [E|E].
    + apply Z.ltb_lt in E. split; [by left|done].
    + apply andb_true_iff in E as [E1 E2]. bool_to_prop. split; [by right|done].
  - apply orb_false_iff in E as [E1 E2]. bool_to_prop. apply andb_false_iff in E2.
    world_intro w. assert (Hn : h !! n = None) by (eapply Core_next_fresh; [exact HI|lia]).
    assert (Hfd : close = 0 \/ 2 < fd) by (destruct E2; bool_to_prop; auto).
    destruct (Z.eqb_spec close 0); cbn [negb]; wp_run.
    all: split; [first [core_same | apply (Core_alloc HI); [lia|locks_solve| |done]; split; auto]|].
    all: right; repeat split; try done; auto.
    all: first [left; repeat split; done | right; repeat split; first [done|locks_solve]].
Qed.

(** ** Properties of the requests *)

(** The operations that submit a plain request, with what each submits. *)
Inductive fs_call :=
| Chmod (path : list Z) (mode : Z)
| MakeDirectory (path : list Z) (mode : Z)
| GetRealPath (path : list Z)
| ListDirectory (path : list Z)
| RemoveDirectory (path : list Z)
| Rename (path new_path : list Z)
| Unlink (path : list Z)
| GetStat (path : list Z) (follow : Z)
| OpenFile (path : list Z) (flags mode : Z).

Definition run_fs_call (c : fs_call) : ptr -> M ptr :=
  match c with
  | Chmod p mode => osi_chmod p mode
  | MakeDirectory p mode => osi_make_directory p mode
  | GetRealPath p => osi_get_real_path p
  | ListDirectory p => osi_list_directory p
  | RemoveDirectory p => osi_remove_directory p
  | Rename p q => osi_rename p q
  | Unlink p => osi_unlink p
  | GetStat p follow => osi_get_stat p follow
  | OpenFile p flags mode => osi_open_file p flags mode
  end.

(** The names in the error pairs, the request and its callback. *)
Definition fs_call_spec (c : fs_call) : string * string * fs_op * fs_cb :=
  match c with
  | Chmod p mode => ("osi_chmod", "uv_fs_chmod", FsChmod p mode, Cb_return_fs_result)
  | MakeDirectory p mode =>
    ("osi_make_directory", "uv_fs_mkdir", FsMkdir p mode, Cb_return_fs_result)
  | GetRealPath p => ("osi_get_real_path", "uv_fs_realpath", FsRealpath p, Cb_get_real_path)
  | ListDirectory p => ("osi_list_directory", "uv_fs_scandir", FsScandir p, Cb_list_directory)
  | RemoveDirectory p => ("osi_remove_directory", "uv_fs_rmdir", FsRmdir p, Cb_return_fs_result)
  | Rename p q => ("osi_rename", "uv_fs_rename", FsRename p q, Cb_return_fs_result)
  | Unlink p => ("osi_unlink", "uv_fs_unlink", FsUnlink p, Cb_return_fs_result)
  | GetStat p follow =>
    if (follow =? 0)%Z then ("osi_get_stat", "uv_fs_lstat", FsLstat p, Cb_stat)
    else ("osi_get_stat", "uv_fs_stat", FsStat p, Cb_stat)
  | OpenFile p flags mode => ("osi_open_file", "uv_fs_open", FsOpen p flags mode, Cb_open_fs)
  end%string.

Lemma run_fs_call_spec w call callback who uv op cb :
  Inv w -> is_obj callback -> fs_call_spec call = (who, uv, op, cb) ->
  wp (run_fs_call call callback) w (fun r w' => Inv w' /\
    submitted who uv (mkCell (UvFsReq callback) HNone (Some (RFs op cb))) w r w').
Proof.
  intros HI Hcb. destruct call; cbn [fs_call_spec run_fs_call].
  8: destruct (follow =? 0)%Z eqn:Ef; intros H; injection H as <- <- <- <-;
     unfold osi_get_stat; rewrite Ef; cbn [negb]; apply fs_request_spec; done.
  all: intros H; injection H as <- <- <- <-.
  all: unfold osi_chmod, osi_make_directory, osi_get_real_path, osi_list_directory,
    osi_remove_directory, osi_rename, osi_unlink, osi_open_file; apply fs_request_spec; done.
Qed.

(** An empty heap, and the answers with which every call succeeds. *)
Definition empty_world (m : gmap positive object) (a : nat -> Z) : world :=
  mkWorld ∅ 1 ∅ m NULL (Sobj 1) false false a 0.

Lemma empty_Inv m a : Inv (empty_world m a).
Proof.
  constructor; try done; intros; cbn in *; try lia; try by rewrite lookup_empty in *.
Qed.
