(* ===== verification/StreamPort.v ===== *)
(** * StreamPort: pipes and TCP connections

    The stream ports of osi.c (lines 400-560): one read and one write may be in progress on a
    port, each guarded by its callback field, and closing a port delivers the callback of the
    read in progress with [UV_EOF].  [osi_read_port], [osi_write_port] and [osi_close_port]
    check their arguments and dispatch on the port's table, here [vtable_read] and so on. *)

From S2P Require Export FsPort.

(** ** Definitions *)

Definition set_reading (b : ptr) (start size : Z) (cb : ptr) (p : stream_port) : stream_port :=
  mkStreamPort (sp_vtable p) (close_callback p) b start size cb (write_buffer p)
    (write_buffer2 p) (write_size p) (write_callback p).
Definition set_read_callback (cb : ptr) (p : stream_port) : stream_port :=
  mkStreamPort (sp_vtable p) (close_callback p) (read_buffer p) (read_start_index p)
    (read_size p) cb (write_buffer p) (write_buffer2 p) (write_size p) (write_callback p).
Definition set_writing (b b2 : ptr) (size : Z) (cb : ptr) (p : stream_port) : stream_port :=
  mkStreamPort (sp_vtable p) (close_callback p) (read_buffer p) (read_start_index p)
    (read_size p) (read_callback p) b b2 size cb.
Definition set_write_buffer2 (b2 : ptr) (p : stream_port) : stream_port :=
  mkStreamPort (sp_vtable p) (close_callback p) (read_buffer p) (read_start_index p)
    (read_size p) (read_callback p) (write_buffer p) b2 (write_size p) (write_callback p).
Definition set_write_callback (cb : ptr) (p : stream_port) : stream_port :=
  mkStreamPort (sp_vtable p) (close_callback p) (read_buffer p) (read_start_index p)
    (read_size p) (read_callback p) (write_buffer p) (write_buffer2 p) (write_size p) cb.
Definition set_close_callback (cb : ptr) (p : stream_port) : stream_port :=
  mkStreamPort (sp_vtable p) cb (read_buffer p) (read_start_index p)
    (read_size p) (read_callback p) (write_buffer p) (write_buffer2 p) (write_size p)
    (write_callback p).

Definition load_stream (a : Z) : M stream_port :=
  o ← load a; match o with StreamPort p => mret p | _ => undefined end.
(** [p->field = value]. *)
Definition update_stream (a : Z) (f : stream_port -> stream_port) : M unit :=
  p ← load_stream a; store a (StreamPort (f p)).

(** The buffer libuv is given to read into. *)
Definition read_stream_alloc_cb (a : Z) : M uv_buf :=
  p ← load_stream a;
  buf_of (read_buffer p) (read_start_index p) (read_size p).

Definition read_stream_cb (a : Z) (nread : Z) : M unit :=
  _ ← uv_handle_stop a;
  p ← load_stream a;
  let callback := read_callback p in
  _ ← Sunlock_object (read_buffer p);
  _ ← Sunlock_object callback;
  _ ← update_stream a (set_read_callback NULL);
  osi_add_callback1 callback (Sint nread).

Definition read_stream_port (port : Z) (buffer : ptr) (start_index size offset : Z)
    (callback : ptr) : M ptr :=
  if negb (-1 =? offset) then mret (osi_make_error_pair "osi_read_port" UV_EINVAL) else
  p ← load_stream port;
  busy ← truthy (read_callback p);
  if busy : bool then mret (osi_make_error_pair "osi_read_port" UV_EBUSY) else
  _ ← Slock_object buffer;
  _ ← Slock_object callback;
  _ ← update_stream port (set_reading buffer start_index size callback);
  rc ← uv_handle_start port Cb_read_stream;
  if rc <? 0 then
    _ ← Sunlock_object buffer;
    _ ← Sunlock_object callback;
    _ ← update_stream port (set_read_callback NULL);
    mret (osi_make_error_pair "uv_read_start" rc)
  else mret Strue.

Definition write_stream_cb (a : Z) (status : Z) : M unit :=
  p ← load_stream a;
  let callback := write_callback p in
  _ ← Sunlock_object (write_buffer p);
  two ← truthy (write_buffer2 p);
  _ ← (if two : bool then
         _ ← Sunlock_object (write_buffer2 p);
         update_stream a (set_write_buffer2 NULL)
       else mret tt);
  _ ← Sunlock_object callback;
  _ ← update_stream a (set_write_callback NULL);
  osi_add_callback1 callback
    (if status <? 0 then Sinteger32 status else Sunsigned32 (write_size p)).

Definition write_stream_port (port : Z) (buffer : ptr) (start_index size offset : Z)
    (callback : ptr) : M ptr :=
  if negb (-1 =? offset) then mret (osi_make_error_pair "osi_write_port" UV_EINVAL) else
  p ← load_stream port;
  busy ← truthy (write_callback p);
  if busy : bool then mret (osi_make_error_pair "osi_write_port" UV_EBUSY) else
  _ ← Slock_object buffer;
  _ ← Slock_object callback;
  _ ← update_stream port (set_writing buffer NULL size callback);
  buf ← buf_of buffer start_index size;
  rc ← uv_submit port (RWrite [buf]);
  if rc <? 0 then
    _ ← Sunlock_object buffer;
    _ ← Sunlock_object callback;
    _ ← update_stream port (set_write_callback NULL);
    mret (osi_make_error_pair "uv_write" rc)
  else mret Strue.

Definition UINT32_MAX : Z := 2 ^ 32 - 1.

Definition osi_tcp_write2 (port : Z) (bv1 bv2 : ptr) (start_index2 size2 : Z) (callback : ptr) :
    M ptr :=
  let last2 := u64 (start_index2 + size2) in
  len1 ← Sbytevector_length bv1;
  let total_size := u64 (len1 + size2) in
  rejected ← (is1 ← Sbytevectorp bv1; mret (negb is1))
             ∥ (is2 ← Sbytevectorp bv2; mret (negb is2))
             ∥ (proc ← Sprocedurep callback; mret (negb proc))
             ∥ mret (last2 <? start_index2)
             ∥ (len2 ← Sbytevector_length bv2; mret (len2 <? last2))
             ∥ mret (UINT32_MAX <? total_size);
  if rejected : bool then
    mret (osi_make_error_pair "osi_tcp_write2" UV_EINVAL) else
  p ← load_stream port;
  busy ← truthy (write_callback p);
  if busy : bool then mret (osi_make_error_pair "osi_tcp_write2" UV_EBUSY) else
  _ ← Slock_object bv1;
  _ ← Slock_object bv2;
  _ ← Slock_object callback;
  _ ← update_stream port (set_writing bv1 bv2 (u32 total_size) callback);
  buf1 ← buf_of bv1 0 (u32 len1);
  buf2 ← buf_of bv2 start_index2 size2;
  rc ← uv_submit port (RWrite [buf1; buf2]);
  if rc <? 0 then
    _ ← Sunlock_object bv1;
    _ ← Sunlock_object bv2;
    _ ← Sunlock_object callback;
    _ ← update_stream port (fun p => set_write_buffer2 NULL (set_write_callback NULL p));
    mret (osi_make_error_pair "uv_write" rc)
  else mret Strue.

Definition close_stream_cb (a : Z) : M unit :=
  p ← load_stream a;
  let callback := close_callback p in
  let read_cb := read_callback p in
  let read_buf := read_buffer p in
  _ ← free a;
  reading ← truthy read_cb;
  _ ← (if reading : bool then
         _ ← Sunlock_object read_buf;
         _ ← Sunlock_object read_cb;
         osi_add_callback1 read_cb (Sint UV_EOF)
       else mret tt);
  wanted ← truthy callback;
  if wanted : bool then
    _ ← Sunlock_object callback;
    osi_add_callback1 callback (Sint 0)
  else mret tt.

Definition close_stream_port (port : Z) (callback : ptr) : M ptr :=
  p ← load_stream port;
  busy ← truthy (close_callback p);
  if busy : bool then mret (osi_make_error_pair "osi_close_port" UV_EBUSY) else
  _ ← Slock_object callback;
  _ ← update_stream port (set_close_callback callback);
  _ ← uv_close port Cb_close_stream;
  mret Strue.

(** The tables [fd_vtable], [file_vtable], [pipe_vtable] and [tcp_vtable]. *)
Definition vtable_close (vt : osi_port_vtable) : Z -> ptr -> M ptr :=
  match vt with
  | fd_vtable => close_fd_port
  | file_vtable => close_fs_port
  | pipe_vtable | tcp_vtable => close_stream_port
  end.
Definition vtable_read (vt : osi_port_vtable) : Z -> ptr -> Z -> Z -> Z -> ptr -> M ptr :=
  match vt with
  | fd_vtable | file_vtable => read_fs_port
  | pipe_vtable | tcp_vtable => read_stream_port
  end.
Definition vtable_write (vt : osi_port_vtable) : Z -> ptr -> Z -> Z -> Z -> ptr -> M ptr :=
  match vt with
  | fd_vtable | file_vtable => write_fs_port
  | pipe_vtable | tcp_vtable => write_stream_port
  end.

Definition osi_close_port (port : Z) (callback : ptr) : M ptr :=
  vt ← load_vtable port; vtable_close vt port callback.

Definition osi_read_port (port : Z) (buffer : ptr) (start_index size offset : Z) (callback : ptr) :
    M ptr :=
  let last := u64 (start_index + size) in
  rejected ← (is_bv ← Sbytevectorp buffer; mret (negb is_bv))
             ∥ mret (last <=? start_index)
             ∥ (len ← Sbytevector_length buffer; mret (len <? last));
  if rejected : bool then mret (osi_make_error_pair "osi_read_port" UV_EINVAL) else
  vt ← load_vtable port;
  vtable_read vt port buffer start_index size offset callback.

Definition osi_write_port (port : Z) (buffer : ptr) (start_index size offset : Z) (callback : ptr) :
    M ptr :=
  let last := u64 (start_index + size) in
  rejected ← (is_bv ← Sbytevectorp buffer; mret (negb is_bv))
             ∥ mret (last <=? start_index)
             ∥ (len ← Sbytevector_length buffer; mret (len <? last));
  if rejected : bool then mret (osi_make_error_pair "osi_write_port" UV_EINVAL) else
  vt ← load_vtable port;
  vtable_write vt port buffer start_index size offset callback.

Definition osi_tcp_nodelay (port enable : Z) : M ptr :=
  vt ← load_vtable port;
  match vt with
  | tcp_vtable => rc ← uv_result; mret (if rc <? 0 then Sfalse else Strue)
  | _ => mret (osi_make_error_pair "uv_tcp_nodelay" UV_EINVAL)
  end.

(** ** Specifications *)

(** The result of an operation that only changed the block [a]. *)
Record updated (a : Z) (c : cell) (w w' : world) : Prop := {
  updated_heap : heap w' = <[a := c]> (heap w);
  updated_objects : objects w' = objects w;
  updated_callbacks : g_callbacks w' = g_callbacks w;
  updated_timer : timer w' = timer w /\ timer_data w' = timer_data w
}.

(** A change of a stream port the Scheme program owns. *)
Lemma Core_stream {h n l m} (HC : Core h n l m) a p hd rq p' hd' rq' l' :
  h !! a = Some (mkCell (StreamPort p) hd rq) -> unreferenced h a -> stream_ok m p' hd' rq' ->
  l' ⊎ owned (mkCell (StreamPort p) hd rq) = l ⊎ owned (mkCell (StreamPort p') hd' rq') ->
  Core (<[a := mkCell (StreamPort p') hd' rq']> h) n l' m.
Proof. intros Ha Hu Hok Hl. apply (Core_update HC _ _ _ _ Ha); try done. by left. Qed.

Lemma Core_stream_ok {h n l m} (HC : Core h n l m) a p hd rq :
  h !! a = Some (mkCell (StreamPort p) hd rq) -> stream_ok m p hd rq.
Proof. intros Ha. exact (core_cells _ _ _ _ HC a _ Ha). Qed.

(** Names the fields of a port, and computes with them. *)
Ltac port_intro p := destruct p as [pvt pcc prb prs prz prc pwb pwb2 pwz pwc].
Ltac port_norm :=
  cbv beta iota delta [set_reading set_read_callback set_writing set_write_buffer2
    set_write_callback set_close_callback sp_vtable close_callback read_buffer read_start_index
    read_size read_callback write_buffer write_buffer2 write_size write_callback] in *.
Ltac port_locks := unfold owned; world_norm; port_norm; cbn [is_null Z.eqb]; locks_eq.

(** Splits the locks into those of the port and the rest. *)
Ltac port_owned H :=
  unfold owned in H; cbn [contents close_callback read_callback read_buffer write_callback
    write_buffer write_buffer2 is_null Z.eqb] in H; subst.

(** The reader's half of an open port: idle or reading. *)
Lemma open_reading m p act rq :
  stream_ok m p (HOpen act) rq -> is_null (read_callback p) = true ->
  read_callback p = NULL /\ act = None.
Proof.
  intros (_ & [(Hr & Hh)|(b & _ & Hr & _)] & _) Hn.
  - split; [done|]. destruct Hh as [[= ->]|[=]]. done.
  - apply is_obj_not_null in Hr. congruence.
Qed.

Lemma reading_states m p hd rq :
  stream_ok m p hd rq -> defined (read_callback p) = true /\ (is_null (read_callback p) = true ->
    read_callback p = NULL).
Proof.
  intros (_ & [(-> & _)|(b & _ & [o ->] & _)] & _); done.
Qed.

Lemma writing_states m p hd rq :
  stream_ok m p hd rq -> defined (write_callback p) = true /\ (is_null (write_callback p) = true ->
    write_callback p = NULL /\ rq = None).
Proof.
  intros (_ & _ & [(-> & ->)|(b & bufs & _ & [o ->] & _)] & _); done.
Qed.

Lemma open_closing m p act rq : stream_ok m p (HOpen act) rq -> close_callback p = NULL.
Proof. intros (_ & _ & _ & [(_ & ?)|(? & _)]); done. Qed.

Lemma closing_defined m p hd rq : stream_ok m p hd rq -> opt_obj (close_callback p).
Proof. intros (_ & _ & _ & [(_ & ->)|(_ & ?)]); [by left|done]. Qed.

(** How a read from an open stream port ends: refused because of the offset, refused because a
    read is in progress, refused by libuv, or started. *)
Definition stream_read_result (w : world) (port : Z) (p : stream_port) (rq : option uv_request)
    (o : positive) (start size offset : Z) (callback : ptr) (r : ptr) (w' : world) : Prop :=
  (offset <> -1 /\ r = osi_make_error_pair "osi_read_port" UV_EINVAL /\ w' = w) \/
  (offset = -1 /\ read_callback p <> NULL /\
   r = osi_make_error_pair "osi_read_port" UV_EBUSY /\ w' = w) \/
  (offset = -1 /\ read_callback p = NULL /\ next_result w < 0 /\
   r = osi_make_error_pair "uv_read_start" (next_result w) /\ locks w' = locks w /\
   updated port (mkCell (StreamPort (set_reading (Sobj o) start size NULL p)) (HOpen None) rq) w w') \/
  (offset = -1 /\ read_callback p = NULL /\ r = Strue /\
   locks w' = locks w ⊎ lk (Sobj o) ⊎ lk callback /\
   updated port (mkCell (StreamPort (set_reading (Sobj o) start size callback p))
     (HOpen (Some Cb_read_stream)) rq) w w').

Lemma read_stream_port_spec w port p act rq o start size offset callback :
  Inv w -> heap w !! port = Some (mkCell (StreamPort p) (HOpen act) rq) ->
  unreferenced (heap w) port -> buf_ok (objects w) (o, start, size) -> is_obj callback ->
  wp (read_stream_port port (Sobj o) start size offset callback) w (fun r w' => Inv w' /\
    stream_read_result w port p rq o start size offset callback r w').
Proof.
  intros HI Hp Hu Hb Hcb. unfold read_stream_port, update_stream, load_stream, stream_read_result.
  destruct (Z.eqb_spec (-1) offset) as [<-|Hoff]; cbn [negb];
    [|apply wp_ret; split; [done|]; left; by repeat split].
  world_intro w. pose proof (Core_stream_ok HI _ _ _ _ Hp) as Hok.
  destruct (reading_states _ _ _ _ Hok) as [Hdef Hnull].
  destruct (is_null (read_callback p)) eqn:En.
  - destruct (open_reading _ _ _ _ Hok En) as [Hr ->].
    destruct Hcb as [k ->]. wp_run; port_intro p; port_norm; subst prc.
    + split.
      * apply (Core_stream HI _ _ _ _ _ _ _ _ Hp Hu); [|port_locks].
        destruct Hok as (Hv & Hrd & Hw & Hc). repeat split; try done. by left; auto.
      * right; right; left. repeat split; try done. locks_eq.
    + split.
      * apply (Core_stream HI _ _ _ _ _ _ _ _ Hp Hu); [|port_locks].
        destruct Hok as (Hv & Hrd & Hw & Hc). repeat split; try done.
        -- right. exists o. repeat split; try done; [by eexists|by left].
        -- left. split; [done|]. destruct Hc as [[_ Hc]|[[=] _]]. done.
      * right; right; right. by repeat split.
  - wp_run.
    split; [done|]. right; left. repeat split; try done. intros E. by rewrite E in En.
Qed.

(** How a write to an open stream port ends. *)
Definition stream_write_result (w : world) (port : Z) (p : stream_port) (hd : uv_handle)
    (rq : option uv_request) (o : positive) (start size offset : Z) (callback : ptr) (r : ptr)
    (w' : world) : Prop :=
  (offset <> -1 /\ r = osi_make_error_pair "osi_write_port" UV_EINVAL /\ w' = w) \/
  (offset = -1 /\ write_callback p <> NULL /\
   r = osi_make_error_pair "osi_write_port" UV_EBUSY /\ w' = w) \/
  (offset = -1 /\ write_callback p = NULL /\ next_result w < 0 /\
   r = osi_make_error_pair "uv_write" (next_result w) /\ locks w' = locks w /\
   updated port (mkCell (StreamPort (set_writing (Sobj o) NULL size NULL p)) hd rq) w w') \/
  (offset = -1 /\ write_callback p = NULL /\ r = Strue /\
   locks w' = locks w ⊎ lk (Sobj o) ⊎ lk callback /\
   updated port (mkCell (StreamPort (set_writing (Sobj o) NULL size callback p)) hd
     (Some (RWrite [(o, start, size)]))) w w').

Lemma write_stream_port_spec w port p hd rq o start size offset callback :
  Inv w -> heap w !! port = Some (mkCell (StreamPort p) hd rq) ->
  unreferenced (heap w) port -> buf_ok (objects w) (o, start, size) -> is_obj callback ->
  wp (write_stream_port port (Sobj o) start size offset callback) w (fun r w' => Inv w' /\
    stream_write_result w port p hd rq o start size offset callback r w').
Proof.
  intros HI Hp Hu Hb Hcb. unfold write_stream_port, update_stream, load_stream, stream_write_result.
  destruct (Z.eqb_spec (-1) offset) as [<-|Hoff]; cbn [negb];
    [|apply wp_ret; split; [done|]; left; by repeat split].
  world_intro w. pose proof (Core_stream_ok HI _ _ _ _ Hp) as Hok.
  destruct (writing_states _ _ _ _ Hok) as [Hdef Hnull].
  destruct (is_null (write_callback p)) eqn:En.
  - destruct (Hnull eq_refl) as [Hw ->]. destruct Hcb as [k ->].
    wp_run; port_intro p; port_norm; subst pwc; destruct Hok as (Hv & Hrd & Hwr & Hc).
    + split.
      * apply (Core_stream HI _ _ _ _ _ _ _ _ Hp Hu); [|port_locks].
        repeat split; try done. by left.
      * right; right; left. repeat split; try done. locks_eq.
    + split.
      * apply (Core_stream HI _ _ _ _ _ _ _ _ Hp Hu); [|port_locks].
        repeat split; try done. right. exists o, [(o, start, size)].
        repeat split; try done; [by eexists|by apply Forall_singleton|]. left. eauto.
      * right; right; right. by repeat split.
  - wp_run. split; [done|]. right; left. repeat split; try done. intros E. by rewrite E in En.
Qed.

(** A port that is not idle is not a connection being made: the Scheme program owns it. *)
Lemma Core_stream_unreferenced {h n l m} (HC : Core h n l m) a p hd rq :
  h !! a = Some (mkCell (StreamPort p) hd rq) ->
  hd <> HOpen None \/ rq <> None \/ close_callback p <> NULL ->
  unreferenced h a.
Proof.
  intros Ha Hni b d Hb Hr. destruct (core_refs _ _ _ _ HC b d a Hb Hr) as (c' & Hc' & Hok).
  rewrite Ha in Hc'. injection Hc' as <-. destruct (contents d); try done.
  - by destruct Hok as (vt & f & E).
  - destruct Hok as (q & [= <- -> ->] & _ & Hcc & _). by destruct Hni as [?|[?|?]].
Qed.

Lemma read_stream_cb_spec w a p rq nread :
  Inv w -> collecting w ->
  heap w !! a = Some (mkCell (StreamPort p) (HOpen (Some Cb_read_stream)) rq) ->
  wp (read_stream_cb a nread) w (fun _ w' => Inv w' /\
    locks w = locks w' ⊎ lk (read_buffer p) ⊎ lk (read_callback p) /\
    heap w' = <[a := mkCell (StreamPort (set_read_callback NULL p)) (HOpen None) rq]> (heap w) /\
    objects w' = objects w /\
    g_callbacks w' = Scons (Scons (read_callback p) (Scons (Sint nread) Snil)) (g_callbacks w)).
Proof.
  intros HI Hcol Ha. unfold read_stream_cb, update_stream, load_stream. world_intro w.
  pose proof (Core_stream_ok HI _ _ _ _ Ha) as Hok.
  assert (Hu : unreferenced h a) by (eapply (Core_stream_unreferenced HI); [exact Ha|by left]).
  destruct (Core_owned_split HI _ _ Ha) as [l0 Hl].
  port_intro p. destruct Hok as (Hv & [[_ [[=]|[=]]]|(b & Hb & [k Hk] & Hbuf & _)] & Hw & Hc).
  port_norm. subst prb prc. port_owned Hl. wp_run; try done.
  split; [|repeat split; locks_eq].
  apply (Core_stream HI _ _ _ _ _ _ _ _ Ha Hu); [|port_locks].
  repeat split; try done; [by left; auto|]. destruct Hc as [[_ Hc]|[[=] _]]. by left.
Qed.

Lemma write_stream_cb_spec w a p hd bufs status :
  Inv w -> collecting w ->
  heap w !! a = Some (mkCell (StreamPort p) hd (Some (RWrite bufs))) ->
  wp (write_stream_cb a status) (returned a (mkCell (StreamPort p) hd (Some (RWrite bufs))) w)
    (fun _ w' => Inv w' /\
      locks w = locks w' ⊎ lk (write_buffer p) ⊎ lk (write_buffer2 p) ⊎ lk (write_callback p) /\
      heap w' = <[a := mkCell (StreamPort (set_write_buffer2 NULL (set_write_callback NULL p))) hd None]>
        (heap w) /\
      objects w' = objects w /\
      g_callbacks w' = Scons (Scons (write_callback p) (Scons
        (if status <? 0 then Sinteger32 status else Sunsigned32 (write_size p)) Snil)) (g_callbacks w)).
Proof.
  intros HI Hcol Ha. unfold write_stream_cb, update_stream, load_stream, returned. world_intro w.
  pose proof (Core_stream_ok HI _ _ _ _ Ha) as Hok.
  assert (Hu : unreferenced h a) by (eapply (Core_stream_unreferenced HI); [exact Ha|by right; left]).
  destruct (Core_owned_split HI _ _ Ha) as [l0 Hl].
  port_intro p. destruct Hok as (Hv & Hr & [[_ [=]]|(b & bufs' & Hb & [k Hk] & _ & _ & Hb2)] & Hc).
  port_norm. subst pwb pwc. port_owned Hl.
  assert (Hb2' : pwb2 = NULL \/ exists b2, pwb2 = Sobj b2)
    by (destruct Hb2 as [[-> _]|(b2 & ? & ? & ? & ? & -> & _)]; eauto).
  destruct Hb2' as [->|[b2 ->]]; wp_run; try done.
  all: split; [|repeat split; locks_eq].
  all: apply (Core_stream HI _ _ _ _ _ _ _ _ Ha Hu); [|port_locks].
  all: repeat split; try done; by left.
Qed.

(** The callbacks closing a port delivers: the reader learns of the end of the file, then the
    closer that the port is closed. *)
Definition close_callbacks (p : stream_port) (cbs : ptr) : ptr :=
  let cbs := if is_null (read_callback p) then cbs
             else Scons (Scons (read_callback p) (Scons (Sint UV_EOF) Snil)) cbs in
  if is_null (close_callback p) then cbs
  else Scons (Scons (close_callback p) (Scons (Sint 0) Snil)) cbs.

Lemma close_stream_cb_spec w a p :
  Inv w -> collecting w ->
  heap w !! a = Some (mkCell (StreamPort p) (HClosing Cb_close_stream) None) ->
  wp (close_stream_cb a) (set_heap (<[a := mkCell (StreamPort p) HNone None]> (heap w)) w)
    (fun _ w' => Inv w' /\ heap w' = delete a (heap w) /\
      locks w = locks w' ⊎ owned (mkCell (StreamPort p) (HClosing Cb_close_stream) None) /\
      objects w' = objects w /\ g_callbacks w' = close_callbacks p (g_callbacks w)).
Proof.
  intros HI Hcol Ha. unfold close_stream_cb, load_stream. world_intro w.
  pose proof (Core_stream_ok HI _ _ _ _ Ha) as Hok.
  assert (Hu : unreferenced h a) by (eapply (Core_stream_unreferenced HI); [exact Ha|by left]).
  assert (HD : forall l', l = l' ⊎ owned (mkCell (StreamPort p) (HClosing Cb_close_stream) None) ->
    Core (delete a h) n l' m) by (intros l' Hl'; by apply (Core_free HI _ _ _ Ha)).
  destruct (Core_owned_split HI _ _ Ha) as [l0 Hl].
  port_intro p. destruct Hok as (Hv & Hr & [[Hw _]|(b & bufs' & _ & _ & [=] & _)] & Hc).
  destruct Hc as [[[=] _]|[_ Hcc]]. unfold close_callbacks, reading_ok in *. port_norm. subst pwc.
  destruct Hcc as [->|[kc ->]], Hr as [[-> _]|(b & -> & [k ->] & _)]; port_owned Hl;
    wp_run; try done; heap_norm.
  all: rewrite ?delete_insert_eq; split; [apply HD; port_locks|repeat split; port_locks].
Qed.

Lemma close_stream_port_spec w port p act rq callback :
  Inv w -> heap w !! port = Some (mkCell (StreamPort p) (HOpen act) rq) ->
  unreferenced (heap w) port -> opt_obj callback ->
  wp (close_stream_port port callback) w (fun r w' => Inv w' /\ r = Strue /\
    locks w' = locks w ⊎ lk callback /\ updated port
      (mkCell (StreamPort (set_close_callback callback p)) (HClosing Cb_close_stream) rq) w w').
Proof.
  intros HI Hp Hu Hcb. unfold close_stream_port, update_stream, load_stream. world_intro w.
  pose proof (Core_stream_ok HI _ _ _ _ Hp) as Hok.
  pose proof (open_closing _ _ _ _ Hok) as Hcc. port_intro p. port_norm. subst pcc.
  wp_run. split; [|by repeat split].
  apply (Core_stream HI _ _ _ _ _ _ _ _ Hp Hu); [|port_locks].
  destruct Hok as (Hv & Hr & Hw & _). repeat split; try done; [|by right].
  destruct Hr as [[Hr _]|(b & Hb & Hk & Hbuf & _)]; [left; auto|right; exists b; auto].
Qed.

(** A port that is being closed refuses to be closed again, provided the first call had a
    callback. *)
Lemma close_stream_port_busy w port p rq callback :
  Inv w -> heap w !! port = Some (mkCell (StreamPort p) (HClosing Cb_close_stream) rq) ->
  close_callback p <> NULL ->
  wp (close_stream_port port callback) w (fun r w' =>
    r = osi_make_error_pair "osi_close_port" UV_EBUSY /\ w' = w).
Proof.
  intros HI Hp Hcc. unfold close_stream_port, load_stream. world_intro w.
  pose proof (closing_defined _ _ _ _ (Core_stream_ok HI _ _ _ _ Hp)) as [|[k Hk]]; [done|].
  port_intro p. port_norm. subst pcc. wp_run. done.
Qed.

(** [osi_tcp_write2] with arguments of the types the interface declares. *)
Lemma wp_bytevectorp p w (Q : bool -> world -> Prop) :
  Q (bool_decide (is_Some (Sbytevector w p))) w -> wp (Sbytevectorp p) w Q.
Proof. done. Qed.

Lemma wp_bytevector_length p w l (Q : Z -> world -> Prop) :
  Sbytevector w p = Some l -> Q (Z.of_nat (length l)) w -> wp (Sbytevector_length p) w Q.
Proof.
  intros Hl HQ. unfold Sbytevector_length. apply wp_bind, wp_get. rewrite Hl. by apply wp_ret.
Qed.

Lemma wp_or_else (m1 m2 : M bool) w (Q : bool -> world -> Prop) :
  wp m1 w (fun b w' => if b then Q true w' else wp m2 w' Q) -> wp (or_else m1 m2) w Q.
Proof.
  intros H. unfold or_else. apply wp_bind. eapply wp_mono; [exact H|].
  intros b w' HQ. destruct b; [by apply wp_ret|done].
Qed.

(** The length of a bytevector is only taken once it is known to be one. *)
Lemma wp_not_bytevector p w (Q : bool -> world -> Prop) :
  (Sbytevector w p = None -> Q true w) -> (forall l, Sbytevector w p = Some l -> Q false w) ->
  wp ((is_bv ← Sbytevectorp p; mret (negb is_bv)) : M bool) w Q.
Proof.
  intros Hn Hs. apply wp_bind, wp_bytevectorp, wp_ret. case_bool_decide as E; cbn [negb].
  - destruct E as [l E]. by apply (Hs l).
  - apply Hn. by apply eq_None_not_Some.
Qed.

Lemma buf_bytevector w o s n :
  buf_ok (objects w) (o, s, n) -> exists l, Sbytevector w (Sobj o) = Some l /\
    0 <= s /\ 0 <= n /\ s + n <= Z.of_nat (length l).
Proof. intros (l & Hl & H). exists l. unfold Sbytevector. by rewrite Hl. Qed.

(** The lengths of Scheme's bytevectors are fixnums. *)
Definition small_objects (m : gmap positive object) : Prop :=
  forall o l, m !! o = Some (Bytevector l) -> Z.of_nat (length l) < 2 ^ 60.

(** The checks of osi_read_port and osi_write_port are defined for any [buffer]. *)
Lemma wp_slice_check buffer start last w (Q : bool -> world -> Prop) :
  let len := match Sbytevector w buffer with Some l => Z.of_nat (length l) | None => 0 end in
  Q (negb (bool_decide (is_Some (Sbytevector w buffer))) || (last <=? start) || (len <? last)) w ->
  wp ((is_bv ← Sbytevectorp buffer; mret (negb is_bv)) ∥ mret (last <=? start)
      ∥ (len ← Sbytevector_length buffer; mret (len <? last))) w Q.
Proof.
  intros len HQ. apply wp_or_else, wp_or_else, wp_not_bytevector; unfold len in HQ.
  - intros E. rewrite E in HQ. exact HQ.
  - intros l E. rewrite E in HQ. rewrite bool_decide_eq_true_2 in HQ by (by eexists).
    apply wp_ret. cbn [negb orb] in HQ. destruct (last <=? start); [exact HQ|].
    by apply wp_bind, (wp_bytevector_length _ _ l), wp_ret.
Qed.

(** What the argument checks of the port operations accept is exactly a slice of a bytevector:
    the additions do not overflow unnoticed. *)
Lemma slice_check w buffer start size :
  small_objects (objects w) -> is_uint 64 start -> is_uint 32 size ->
  let last := u64 (start + size) in
  let len := match Sbytevector w buffer with Some l => Z.of_nat (length l) | None => 0 end in
  negb (bool_decide (is_Some (Sbytevector w buffer))) || (last <=? start) || (len <? last) = false <->
  exists o, buffer = Sobj o /\ 0 < size /\ buf_ok (objects w) (o, start, size).
Proof.
  intros Hsm Hs Hz last len. rewrite !orb_false_iff, negb_false_iff, bool_decide_eq_true.
  unfold last, len. split.
  - intros [[[l Hl] H1] H2]. rewrite Hl in H2. bool_to_prop.
    unfold Sbytevector in Hl. destruct buffer as [| | | | | | | |o|]; try done.
    destruct (objects w !! o) as [[|l']|] eqn:Eo; try done. injection Hl as ->.
    pose proof (Hsm o l Eo). exists o. split; [done|].
    assert (0 < size /\ start + size <= Z.of_nat (length l)) as [? ?] by (split; width_lia).
    split; [done|]. exists l. unfold is_uint in *. repeat split; try done; lia.
  - intros (o & -> & Hpos & l & Hl & H1 & H2 & H3). unfold Sbytevector. rewrite Hl.
    pose proof (Hsm o l Hl). unfold u64. rewrite wrap_small by (unfold is_uint; lia).
    rewrite Z.leb_gt, Z.ltb_ge. repeat split; try lia. by eexists.
Qed.

(** The arguments [osi_tcp_write2] accepts. *)
Definition write2_args (w : world) (bv1 bv2 : ptr) (start2 size2 : Z) (callback : ptr)
    (o1 : positive) (l1 : list Z) (o2 : positive) : Prop :=
  bv1 = Sobj o1 /\ objects w !! o1 = Some (Bytevector l1) /\ bv2 = Sobj o2 /\
  buf_ok (objects w) (o2, start2, size2) /\
  (exists k, callback = Sobj k /\ objects w !! k = Some Procedure) /\
  Z.of_nat (length l1) + size2 <= UINT32_MAX.

Definition write2_rejects (w : world) (bv1 bv2 : ptr) (start2 size2 : Z) (callback : ptr) : bool :=
  let len1 := match Sbytevector w bv1 with Some l => Z.of_nat (length l) | None => 0 end in
  let len2 := match Sbytevector w bv2 with Some l => Z.of_nat (length l) | None => 0 end in
  negb (bool_decide (is_Some (Sbytevector w bv1))) || negb (bool_decide (is_Some (Sbytevector w bv2)))
  || negb (match callback with
           | Sobj o => match objects w !! o with Some Procedure => true | _ => false end
           | _ => false
           end)
  || (u64 (start2 + size2) <? start2) || (len2 <? u64 (start2 + size2))
  || (UINT32_MAX <? u64 (len1 + size2)).

Lemma is_bytevector w p : is_Some (Sbytevector w p) ->
  exists o l, p = Sobj o /\ objects w !! o = Some (Bytevector l) /\ Sbytevector w p = Some l.
Proof.
  intros [l Hl]. unfold Sbytevector in Hl |- *. destruct p; try done.
  destruct (objects w !! o) as [[|l']|] eqn:Eo; try done. by exists o, l'.
Qed.

Lemma write2_check w bv1 bv2 start2 size2 callback :
  small_objects (objects w) -> is_uint 64 start2 -> is_uint 32 size2 ->
  write2_rejects w bv1 bv2 start2 size2 callback = false <->
  exists o1 l1 o2, write2_args w bv1 bv2 start2 size2 callback o1 l1 o2.
Proof.
  intros Hsm Hs Hz. unfold write2_rejects. rewrite !orb_false_iff, !negb_false_iff, !bool_decide_eq_true.
  split.
  - intros [[[[[H1 H2] H3] H4] H5] H6].
    apply is_bytevector in H1 as (o1 & l1 & -> & Ho1 & E1), H2 as (o2 & l2 & -> & Ho2 & E2).
    rewrite E1 in H6. rewrite E2 in H5. bool_to_prop.
    pose proof (Hsm _ _ Ho1). pose proof (Hsm _ _ Ho2).
    assert (start2 + size2 <= Z.of_nat (length l2)) by width_lia.
    assert (Z.of_nat (length l1) + size2 <= UINT32_MAX) by (unfold UINT32_MAX in *; width_lia).
    exists o1, l1, o2. unfold is_uint in *. repeat split; try done.
    + exists l2. repeat split; try done; lia.
    + destruct callback as [| | | | | | | |k|]; try done.
      destruct (objects w !! k) as [[|]|] eqn:Ek; try done. by exists k.
  - intros (o1 & l1 & o2 & -> & H1 & -> & (l2 & H2 & Ha & Hb & Hc) & (k & -> & Hk) & Hu).
    pose proof (Hsm _ _ H1). pose proof (Hsm _ _ H2). unfold Sbytevector. rewrite H1, H2, Hk.
    unfold u64. rewrite !wrap_small by (unfold is_uint; lia). rewrite !Z.ltb_ge.
    repeat split; try lia; by eexists.
Qed.

(** The checks of osi_tcp_write2, once it has the length of [bv1]. *)
Lemma wp_write2_check w bv1 bv2 start2 size2 callback l1 (Q : bool -> world -> Prop) :
  Sbytevector w bv1 = Some l1 -> Q (write2_rejects w bv1 bv2 start2 size2 callback) w ->
  wp ((is1 ← Sbytevectorp bv1; mret (negb is1))
      ∥ (is2 ← Sbytevectorp bv2; mret (negb is2))
      ∥ (proc ← Sprocedurep callback; mret (negb proc))
      ∥ mret (u64 (start2 + size2) <? start2)
      ∥ (len2 ← Sbytevector_length bv2; mret (len2 <? u64 (start2 + size2)))
      ∥ mret (UINT32_MAX <? u64 (Z.of_nat (length l1) + size2))) w Q.
Proof.
  intros E1. unfold write2_rejects. rewrite E1. intros HQ.
  rewrite bool_decide_eq_true_2 in HQ by (by eexists).
  do 5 apply wp_or_else. apply wp_not_bytevector; [congruence|]. intros _ _.
  apply wp_not_bytevector.
  - intros E2. rewrite E2 in HQ. exact HQ.
  - intros l2 E2. rewrite E2 in HQ. rewrite bool_decide_eq_true_2 in HQ by (by eexists).
    cbn [negb orb] in HQ. apply wp_bind, wp_bind, wp_get, wp_ret, wp_ret.
    destruct (negb _) eqn:Ep; [exact HQ|]. apply wp_ret. cbn [orb] in HQ.
    destruct (_ <? start2); [exact HQ|].
    apply wp_bind, (wp_bytevector_length _ _ l2 _ E2), wp_ret.
    destruct (_ <? _); [exact HQ|]. by apply wp_ret.
Qed.

Lemma osi_tcp_write2_spec w port p act rq bv1 bv2 start2 size2 callback :
  Inv w -> is_Some (Sbytevector w bv1) -> small_objects (objects w) -> is_uint 64 start2 -> is_uint 32 size2 ->
  heap w !! port = Some (mkCell (StreamPort p) (HOpen act) rq) -> unreferenced (heap w) port ->
  wp (osi_tcp_write2 port bv1 bv2 start2 size2 callback) w (fun r w' => Inv w' /\
    ((write2_rejects w bv1 bv2 start2 size2 callback = true /\
        r = osi_make_error_pair "osi_tcp_write2" UV_EINVAL /\ w' = w) \/
     exists o1 l1 o2, write2_args w bv1 bv2 start2 size2 callback o1 l1 o2 /\
       let total := Z.of_nat (length l1) + size2 in
       (write_callback p <> NULL /\ r = osi_make_error_pair "osi_tcp_write2" UV_EBUSY /\ w' = w \/
        write_callback p = NULL /\
         (next_result w < 0 /\ r = osi_make_error_pair "uv_write" (next_result w) /\
            locks w' = locks w /\
            updated port (mkCell (StreamPort (set_writing bv1 NULL total NULL p)) (HOpen act) rq) w w' \/
          r = Strue /\ locks w' = locks w ⊎ lk bv1 ⊎ lk bv2 ⊎ lk callback /\
            updated port (mkCell (StreamPort (set_writing bv1 bv2 total callback p)) (HOpen act)
              (Some (RWrite [(o1, 0, Z.of_nat (length l1)); (o2, start2, size2)]))) w w')))).
Proof.
  intros HI [l Hl] Hsm Hs Hz Hp Hu. unfold osi_tcp_write2, update_stream, load_stream.
  apply wp_bind, (wp_bytevector_length _ _ l _ Hl), wp_bind, (wp_write2_check _ _ _ _ _ _ l _ Hl).
  destruct (write2_rejects w bv1 bv2 start2 size2 callback) eqn:Erej.
  { apply wp_ret. split; [done|]. by left. }
  apply write2_check in Erej as (o1 & l1 & o2 & Hargs); [|done..].
  destruct Hargs as (-> & H1 & -> & H2 & (k & -> & Hk) & Htot). pose proof H2 as (l2 & Hl2 & Ha & Hb & Hc).
  assert (Hargs : write2_args w (Sobj o1) (Sobj o2) start2 size2 (Sobj k) o1 l1 o2)
    by (repeat split; try done; by exists k).
  unfold Sbytevector in Hl. rewrite H1 in Hl. injection Hl as <-. pose proof (Hsm _ _ H1).
  assert (E1 : u32 (Z.of_nat (length l1)) = Z.of_nat (length l1))
    by (apply u32_small; unfold is_uint, UINT32_MAX in *; lia).
  assert (E2 : u32 (u64 (Z.of_nat (length l1) + size2)) = Z.of_nat (length l1) + size2).
  { unfold u64. rewrite wrap_small by (unfold is_uint, UINT32_MAX in *; lia).
    apply u32_small. unfold is_uint, UINT32_MAX in *. lia. }
  rewrite E1, E2. clear Hsm. world_intro w. pose proof (Core_stream_ok HI _ _ _ _ Hp) as Hok.
  destruct (writing_states _ _ _ _ Hok) as [Hdef Hnull].
  destruct (is_null (write_callback p)) eqn:En.
  - destruct (Hnull eq_refl) as [Hw ->].
    wp_run; port_intro p; port_norm; subst pwc; destruct Hok as (Hv & Hrd & Hwr & Hcl).
    + split.
      * apply (Core_stream HI _ _ _ _ _ _ _ _ Hp Hu); [|port_locks].
        repeat split; try done. by left.
      * right. exists o1, l1, o2. split; [done|]. right. split; [done|]. left.
        repeat split; try done. locks_eq.
    + split.
      * apply (Core_stream HI _ _ _ _ _ _ _ _ Hp Hu); [|port_locks].
        repeat split; try done. right. do 2 eexists. repeat split; [by eexists| |].
        -- apply Forall_cons. split; [exists l1; repeat split; lia || done|by apply Forall_singleton].
        -- right. eauto 10.
      * right. exists o1, l1, o2. split; [done|]. right. split; [done|]. right. by repeat split.
  - wp_run. split; [done|]. right. exists o1, l1, o2. split; [done|]. left.
    repeat split; try done. intros E. by rewrite E in En.
Qed.

(** ** The port operations *)

(** A port the Scheme program may use: one nothing else refers to, and that is not closing. *)
Inductive usable (w : world) (port : Z) : obj -> uv_handle -> option uv_request -> Prop :=
| usable_fs vt file :
    heap w !! port = Some (mkCell (FsPort vt file) HNone None) ->
    unreferenced (heap w) port -> usable w port (FsPort vt file) HNone None
| usable_stream p act rq :
    heap w !! port = Some (mkCell (StreamPort p) (HOpen act) rq) ->
    unreferenced (heap w) port -> usable w port (StreamPort p) (HOpen act) rq.

Definition valid_slice (w : world) (buffer : ptr) (start size : Z) (o : positive) : Prop :=
  buffer = Sobj o /\ 0 < size /\ buf_ok (objects w) (o, start, size).

Definition read_result (w : world) (port : Z) (c : obj) (rq : option uv_request) (o : positive)
    (start size offset : Z) (callback : ptr) (r : ptr) (w' : world) : Prop :=
  match c with
  | FsPort _ file => submitted "osi_read_port" "uv_fs_read" (mkCell (RwFsReq (Sobj o) callback)
      HNone (Some (RFs (FsRead file (o, start, size) offset) Cb_rw_fs))) w r w'
  | StreamPort p => stream_read_result w port p rq o start size offset callback r w'
  | _ => False
  end.

Definition write_result (w : world) (port : Z) (c : obj) (hd : uv_handle) (rq : option uv_request)
    (o : positive) (start size offset : Z) (callback : ptr) (r : ptr) (w' : world) : Prop :=
  match c with
  | FsPort _ file => submitted "osi_write_port" "uv_fs_write" (mkCell (RwFsReq (Sobj o) callback)
      HNone (Some (RFs (FsWrite file (o, start, size) offset) Cb_rw_fs))) w r w'
  | StreamPort p => stream_write_result w port p hd rq o start size offset callback r w'
  | _ => False
  end.

Lemma cell_vtable_fs {h n l m} (HC : Core h n l m) a vt file hd rq :
  h !! a = Some (mkCell (FsPort vt file) hd rq) -> vt = fd_vtable \/ vt = file_vtable.
Proof. intros Ha. apply (core_cells _ _ _ _ HC a _ Ha). Qed.

Definition vtable_of (o : obj) : option osi_port_vtable :=
  match o with FsPort vt _ => Some vt | StreamPort p => Some (sp_vtable p) | _ => None end.

Lemma wp_load_vtable a o hd rq vt w (Q : osi_port_vtable -> world -> Prop) :
  heap w !! a = Some (mkCell o hd rq) -> vtable_of o = Some vt -> Q vt w -> wp (load_vtable a) w Q.
Proof.
  intros Ha Hv HQ. unfold load_vtable. apply wp_bind. eapply wp_load; [exact Ha|]. cbn [contents].
  destruct o; try done; injection Hv as ->; by apply wp_ret.
Qed.

Lemma osi_read_port_spec w port c hd rq buffer start size offset callback :
  Inv w -> small_objects (objects w) -> usable w port c hd rq -> is_uint 64 start ->
  is_uint 32 size -> is_obj callback ->
  wp (osi_read_port port buffer start size offset callback) w (fun r w' => Inv w' /\
    ((~ (exists o, valid_slice w buffer start size o) /\
      r = osi_make_error_pair "osi_read_port" UV_EINVAL /\ w' = w) \/
     exists o, valid_slice w buffer start size o /\
       read_result w port c rq o start size offset callback r w')).
Proof.
  intros HI Hsm Huse Hs Hz Hcb. unfold osi_read_port.
  apply wp_bind, wp_slice_check.
  pose proof (slice_check w buffer start size Hsm Hs Hz) as Hchk. cbn zeta in Hchk.
  destruct (_ || _ || _).
  - apply wp_ret. split; [done|]. left. split; [|done]. intros Ho. by apply Hchk in Ho.
  - destruct (proj1 Hchk eq_refl) as (o & -> & Hpos & Hb).
    assert (Hex : forall r w', read_result w port c rq o start size offset callback r w' ->
      exists o', valid_slice w (Sobj o) start size o' /\
        read_result w port c rq o' start size offset callback r w')
      by (intros; exists o; by repeat split).
    unfold load_vtable. destruct Huse as [vt file Hp Hu|p act rq Hp Hu]; wp_step; wp_step; wp_step; wp_step.
    + destruct (cell_vtable_fs HI _ _ _ _ _ Hp) as [-> | ->]; cbn [vtable_read];
        (eapply wp_mono; [by eapply read_fs_port_spec|]); intros r w' [HI' Hr]; split; auto.
    + destruct (proj1 (Core_stream_ok HI _ _ _ _ Hp)) as [-> | ->]; cbn [vtable_read];
        (eapply wp_mono; [by eapply read_stream_port_spec|]); intros r w' [HI' Hr]; split; auto.
Qed.

Lemma osi_write_port_spec w port c hd rq buffer start size offset callback :
  Inv w -> small_objects (objects w) -> usable w port c hd rq -> is_uint 64 start ->
  is_uint 32 size -> is_obj callback ->
  wp (osi_write_port port buffer start size offset callback) w (fun r w' => Inv w' /\
    ((~ (exists o, valid_slice w buffer start size o) /\
      r = osi_make_error_pair "osi_write_port" UV_EINVAL /\ w' = w) \/
     exists o, valid_slice w buffer start size o /\
       write_result w port c hd rq o start size offset callback r w')).
Proof.
  intros HI Hsm Huse Hs Hz Hcb. unfold osi_write_port.
  apply wp_bind, wp_slice_check.
  pose proof (slice_check w buffer start size Hsm Hs Hz) as Hchk. cbn zeta in Hchk.
  destruct (_ || _ || _).
  - apply wp_ret. split; [done|]. left. split; [|done]. intros Ho. by apply Hchk in Ho.
  - destruct (proj1 Hchk eq_refl) as (o & -> & Hpos & Hb).
    assert (Hex : forall r w', write_result w port c hd rq o start size offset callback r w' ->
      exists o', valid_slice w (Sobj o) start size o' /\
        write_result w port c hd rq o' start size offset callback r w')
      by (intros; exists o; by repeat split).
    unfold load_vtable. destruct Huse as [vt file Hp Hu|p act rq Hp Hu]; wp_step; wp_step; wp_step; wp_step.
    + destruct (cell_vtable_fs HI _ _ _ _ _ Hp) as [-> | ->]; cbn [vtable_write];
        (eapply wp_mono; [by eapply write_fs_port_spec|]); intros r w' [HI' Hr]; split; auto.
    + destruct (proj1 (Core_stream_ok HI _ _ _ _ Hp)) as [-> | ->]; cbn [vtable_write];
        (eapply wp_mono; [by eapply write_stream_port_spec|]); intros r w' [HI' Hr]; split; auto.
Qed.

(** ** Transfers on streams *)

Definition read_in_progress (w : world) (port : Z) (o : positive) (start size : Z) (callback : ptr) : Prop :=
  exists p rq, heap w !! port = Some (mkCell (StreamPort p) (HOpen (Some Cb_read_stream)) rq) /\
    read_buffer p = Sobj o /\ read_start_index p = start /\ read_size p = size /\ read_callback p = callback.
Definition write_in_progress (w : world) (port : Z) (bufs : list uv_buf) (total : Z) (bv1 bv2 callback : ptr) : Prop :=
  exists p hd, heap w !! port = Some (mkCell (StreamPort p) hd (Some (RWrite bufs))) /\
    write_size p = total /\ write_buffer p = bv1 /\ write_buffer2 p = bv2 /\ write_callback p = callback.

(** A port that does not read, or write. *)
Definition not_reading (w : world) (port : Z) : Prop :=
  exists p act rq, heap w !! port = Some (mkCell (StreamPort p) (HOpen act) rq) /\ read_callback p = NULL.
Definition not_writing (w : world) (port : Z) : Prop :=
  exists p hd, heap w !! port = Some (mkCell (StreamPort p) hd None) /\ write_callback p = NULL.

(** C17: reading from a pipe or a connection.  A read from an open stream is refused, with nothing
    locked, when the slice is not one of a bytevector, when an offset is given, when a read is in
    progress, or when libuv fails; otherwise it is in progress and libuv is given exactly the
    slice.  While it is in progress, in whatever state the rest of the program is, the slice is
    one of a bytevector; when libuv reports the read, the callback is delivered once with the number
    reported, buffer and callback are released, and the port can read again. *)
Theorem stream_read_lifecycle w port buffer start size offset callback :
  Inv w -> is_obj callback ->
  (forall p act rq, small_objects (objects w) -> heap w !! port = Some (mkCell (StreamPort p) (HOpen act) rq) ->
     unreferenced (heap w) port -> is_uint 64 start -> is_uint 32 size ->
     exists r w', osi_read_port port buffer start size offset callback w = Some (r, w') /\ Inv w' /\
       ((r = Strue /\ offset = -1 /\ not_reading w port /\ locks w' = locks w ⊎ lk buffer ⊎ lk callback /\
         exists o, valid_slice w buffer start size o /\ read_in_progress w' port o start size callback) \/
        (locks w' = locks w /\ g_callbacks w' = g_callbacks w /\
         (r = osi_make_error_pair "osi_read_port" UV_EINVAL /\ (offset <> -1 \/ ~ exists o, valid_slice w buffer start size o) \/
          r = osi_make_error_pair "osi_read_port" UV_EBUSY /\ ~ not_reading w port \/
          r = osi_make_error_pair "uv_read_start" (next_result w) /\ next_result w < 0)))) /\
  (forall o, read_in_progress w port o start size callback -> collecting w ->
     read_stream_alloc_cb port w = Some ((o, start, size), w) /\ buf_ok (objects w) (o, start, size) /\
     forall nread, exists w', read_stream_cb port nread w = Some (tt, w') /\ Inv w' /\ not_reading w' port /\
       locks w = locks w' ⊎ lk (Sobj o) ⊎ lk callback /\
       g_callbacks w' = Scons (Scons callback (Scons (Sint nread) Snil)) (g_callbacks w)).
Proof.
  intros HI Hcb. split.
  - intros p act rq Hsm Hp Hu Hs Hz.
    destruct (wp_result _ _ _ (osi_read_port_spec w port (StreamPort p) (HOpen act) rq buffer start size offset callback
      HI Hsm (usable_stream _ _ _ _ _ Hp Hu) Hs Hz Hcb)) as (r & w' & Hrun & HI' & Hr).
    exists r, w'. split; [done|]. split; [done|].
    assert (Hnr : not_reading w port <-> read_callback p = NULL).
    { split; [|intros E; by exists p, act, rq]. intros (p' & act' & rq' & Hp' & E). rewrite Hp in Hp'. by injection Hp' as <- _ _. }
    destruct Hr as [(Hno & -> & ->)|(o & Hv & Hr)]; [right; split; [done|]; split; [done|]; left; auto|].
    destruct Hr as [(Hoff & -> & ->)|[(_ & Hbusy & -> & ->)|[(_ & Hidle & Hneg & -> & Hl & Hup)|(-> & Hidle & -> & Hl & Hup)]]].
    + right. split; [done|]. split; [done|]. left; auto.
    + right. split; [done|]. split; [done|]. right; left. split; [done|]. by rewrite Hnr.
    + right. split; [done|]. split; [apply Hup|]. right; right; done.
    + left. split; [done|]. split; [done|]. rewrite Hnr. split; [done|]. split; [by destruct Hv as [-> _]|]. exists o. split; [done|].
      exists (set_reading (Sobj o) start size callback p), rq. rewrite (updated_heap _ _ _ _ Hup), lookup_insert_eq. done.
  - intros o (p & rq & Hp & Hb & Hs & Hz & Hc) Hcol.
    pose proof (Core_stream_ok HI _ _ _ _ Hp) as (_ & [[E _]|(b & Eb & _ & Hbuf & _)] & _).
    { rewrite Hc in E. destruct Hcb as [k ->]. discriminate E. }
    rewrite Hb in Eb. injection Eb as <-. rewrite Hs, Hz in Hbuf. split; [|split; [done|]].
    + unfold read_stream_alloc_cb, load_stream, load, load_cell, mbind, M_bind, mret, M_ret. cbn. rewrite Hp. cbn. by rewrite Hb, Hs, Hz.
    + intros nread. destruct (wp_result _ _ _ (read_stream_cb_spec w port p rq nread HI Hcol Hp)) as ([] & w' & Hrun & HI' & Hl & Hh & _ & Hg).
      exists w'. rewrite Hb, Hc in Hl. rewrite Hc in Hg. split; [done|]. split; [done|]. split; [|done].
      exists (set_read_callback NULL p), None, rq. rewrite Hh, lookup_insert_eq. done.
Qed.

(** The value a write reports: a negative status, or the number of bytes written. *)
Definition written (status total : Z) : ptr := if status <? 0 then Sinteger32 status else Sunsigned32 total.

(** How a write begins, with the buffers libuv is given if it is accepted. *)
Definition write_begins (who : string) (w : world) (port : Z) (accepts : list uv_buf -> Z -> Prop) (bv1 bv2 callback : ptr)
    (r : ptr) (w' : world) : Prop :=
  (r = Strue /\ not_writing w port /\ locks w' = locks w ⊎ lk bv1 ⊎ lk bv2 ⊎ lk callback /\
     exists bufs total, accepts bufs total /\ write_in_progress w' port bufs total bv1 bv2 callback) \/
  (locks w' = locks w /\ g_callbacks w' = g_callbacks w /\
     (r = osi_make_error_pair who UV_EINVAL /\ (forall bufs total, ~ accepts bufs total) \/
      r = osi_make_error_pair who UV_EBUSY /\ ~ not_writing w port \/
      r = osi_make_error_pair "uv_write" (next_result w) /\ next_result w < 0)).

Lemma not_writing_open w port p act rq : Inv w -> heap w !! port = Some (mkCell (StreamPort p) (HOpen act) rq) ->
  not_writing w port <-> write_callback p = NULL.
Proof.
  intros HI Hp. split.
  - intros (p' & hd & Hp' & E). rewrite Hp in Hp'. by injection Hp' as <- _ _.
  - intros E. pose proof (Core_stream_ok HI _ _ _ _ Hp) as (_ & _ & [[_ ->]|(b & bufs & _ & [k Hk] & _)] & _); [by exists p, (HOpen act)|].
    by rewrite Hk in E.
Qed.

Lemma write_port_begins w port p act rq buffer start size offset callback : Inv w -> is_obj callback -> small_objects (objects w) ->
  heap w !! port = Some (mkCell (StreamPort p) (HOpen act) rq) -> unreferenced (heap w) port -> is_uint 64 start -> is_uint 32 size ->
  exists r w', osi_write_port port buffer start size offset callback w = Some (r, w') /\ Inv w' /\
    write_begins "osi_write_port" w port (fun bufs total => offset = -1 /\ total = size /\
      exists o, valid_slice w buffer start size o /\ bufs = [(o, start, size)]) buffer NULL callback r w'.
Proof.
  intros HI Hcb Hsm Hp Hu Hs Hz.
  destruct (wp_result _ _ _ (osi_write_port_spec w port (StreamPort p) (HOpen act) rq buffer start size offset callback
    HI Hsm (usable_stream _ _ _ _ _ Hp Hu) Hs Hz Hcb)) as (r & w' & Hrun & HI' & Hr).
  exists r, w'. split; [done|]. split; [done|]. unfold write_begins. rewrite (not_writing_open _ _ _ _ _ HI Hp).
  destruct Hr as [(Hno & -> & ->)|(o & Hv & Hr)].
  { right. split; [done|]. split; [done|]. left. split; [done|]. intros bufs total (_ & _ & o & Ho & _). apply Hno. by exists o. }
  destruct Hr as [(Hoff & -> & ->)|[(_ & Hbusy & -> & ->)|[(_ & Hidle & Hneg & -> & Hl & Hup)|(Hoff & Hidle & -> & Hl & Hup)]]].
  - right. split; [done|]. split; [done|]. left. split; [done|]. by intros bufs total (? & _).
  - right. split; [done|]. split; [done|]. right; by left.
  - right. split; [done|]. split; [apply Hup|]. right; by right.
  - left. split; [done|]. split; [done|]. split.
    { rewrite Hl. destruct Hv as [-> _]. cbn [lk]. multiset_solver. }
    exists [(o, start, size)], size. split; [split; [done|split; [done|by exists o]]|].
    exists (set_writing (Sobj o) NULL size callback p), (HOpen act). rewrite (updated_heap _ _ _ _ Hup), lookup_insert_eq.
    by destruct Hv as [-> _].
Qed.

Lemma write2_begins w port p act rq bv1 bv2 start2 size2 callback : Inv w ->
  is_Some (Sbytevector w bv1) -> small_objects (objects w) ->
  heap w !! port = Some (mkCell (StreamPort p) (HOpen act) rq) -> unreferenced (heap w) port -> is_uint 64 start2 -> is_uint 32 size2 ->
  exists r w', osi_tcp_write2 port bv1 bv2 start2 size2 callback w = Some (r, w') /\ Inv w' /\
    write_begins "osi_tcp_write2" w port (fun bufs total => exists o1 l1 o2,
      write2_args w bv1 bv2 start2 size2 callback o1 l1 o2 /\ total = Z.of_nat (length l1) + size2 /\
      bufs = [(o1, 0, Z.of_nat (length l1)); (o2, start2, size2)]) bv1 bv2 callback r w'.
Proof.
  intros HI Hbv Hsm Hp Hu Hs Hz.
  destruct (wp_result _ _ _ (osi_tcp_write2_spec w port p act rq bv1 bv2 start2 size2 callback HI Hbv Hsm Hs Hz Hp Hu))
    as (r & w' & Hrun & HI' & Hr).
  exists r, w'. split; [done|]. split; [done|]. unfold write_begins. rewrite (not_writing_open _ _ _ _ _ HI Hp).
  destruct Hr as [(Hrej & -> & ->)|(o1 & l1 & o2 & Hargs & Hr)].
  { right. split; [done|]. split; [done|]. left. split; [done|]. intros bufs total (o1 & l1 & o2 & Ho & _).
    rewrite (proj2 (write2_check w bv1 bv2 start2 size2 callback Hsm Hs Hz)) in Hrej; [done|]. by exists o1, l1, o2. }
  destruct Hr as [(Hbusy & -> & ->)|(Hidle & [(Hneg & -> & Hl & Hup)|(-> & Hl & Hup)])].
  - right. split; [done|]. split; [done|]. right; by left.
  - right. split; [done|]. split; [apply Hup|]. right; by right.
  - left. split; [done|]. split; [done|]. split; [done|]. do 2 eexists. split; [by exists o1, l1, o2|].
    eexists _, _. by rewrite (updated_heap _ _ _ _ Hup), lookup_insert_eq.
Qed.

(** osi_tcp_write2 takes the length of [bv1] before it tests that [bv1] is a bytevector: given
    anything else the call is undefined, where the refusal of the other arguments is meant. *)
Theorem tcp_write2_undefined w port bv1 bv2 start2 size2 callback :
  Sbytevector w bv1 = None -> osi_tcp_write2 port bv1 bv2 start2 size2 callback w = None.
Proof.
  intros E. unfold osi_tcp_write2, Sbytevector_length, mbind, M_bind, get. by rewrite E.
Qed.

(** C18: writing to a pipe or a connection.  A write to an open stream, and a write of two buffers, the
    first a bytevector, to a connection, is refused, with nothing locked, when a slice is not one of a
    bytevector, an offset is given or the sum of the sizes does not fit 32 bits, when a write is in progress, or when libuv
    fails; otherwise it is in progress and libuv is given exactly the bytes asked for.
    While it is in progress its slices are those of bytevectors; when libuv reports the
    result, the callback is delivered once with the error or the number of bytes asked for, everything
    is released, and the port can write again. *)
Theorem stream_write_lifecycle w port callback : Inv w -> is_obj callback ->
  (forall p act rq, small_objects (objects w) -> heap w !! port = Some (mkCell (StreamPort p) (HOpen act) rq) ->
     unreferenced (heap w) port ->
     (forall buffer start size offset, is_uint 64 start -> is_uint 32 size ->
        exists r w', osi_write_port port buffer start size offset callback w = Some (r, w') /\ Inv w' /\
          write_begins "osi_write_port" w port (fun bufs total => offset = -1 /\ total = size /\
            exists o, valid_slice w buffer start size o /\ bufs = [(o, start, size)]) buffer NULL callback r w') /\
     (forall bv1 bv2 start2 size2, is_Some (Sbytevector w bv1) -> is_uint 64 start2 -> is_uint 32 size2 ->
        exists r w', osi_tcp_write2 port bv1 bv2 start2 size2 callback w = Some (r, w') /\ Inv w' /\
          write_begins "osi_tcp_write2" w port (fun bufs total => exists o1 l1 o2,
            write2_args w bv1 bv2 start2 size2 callback o1 l1 o2 /\ total = Z.of_nat (length l1) + size2 /\
            bufs = [(o1, 0, Z.of_nat (length l1)); (o2, start2, size2)]) bv1 bv2 callback r w')) /\
  (forall bufs total bv1 bv2, write_in_progress w port bufs total bv1 bv2 callback -> collecting w ->
     Forall (buf_ok (objects w)) bufs /\ exists c, heap w !! port = Some c /\
     forall status, exists w', write_stream_cb port status (returned port c w) = Some (tt, w') /\ Inv w' /\ not_writing w' port /\
       locks w = locks w' ⊎ lk bv1 ⊎ lk bv2 ⊎ lk callback /\
       g_callbacks w' = Scons (Scons callback (Scons (written status total) Snil)) (g_callbacks w)).
Proof.
  intros HI Hcb. split.
  - intros p act rq Hsm Hp Hu. split; intros; [by eapply write_port_begins|by eapply write2_begins].
  - intros bufs total bv1 bv2 (p & hd & Hp & Hz & Hb1 & Hb2 & Hc) Hcol.
    pose proof (Core_stream_ok HI _ _ _ _ Hp) as (_ & _ & [[_ [=]]|(b & bufs' & _ & _ & E & Hbufs & _)] & _). injection E as <-.
    split; [done|]. eexists. split; [done|]. intros status.
    destruct (wp_result _ _ _ (write_stream_cb_spec w port p hd bufs status HI Hcol Hp)) as ([] & w' & Hrun & HI' & Hl & Hh & _ & Hg).
    exists w'. rewrite Hb1, Hb2, Hc in Hl. rewrite Hc, Hz in Hg. split; [done|]. split; [done|]. split; [|done].
    exists (set_write_buffer2 NULL (set_write_callback NULL p)), hd. rewrite Hh, lookup_insert_eq. done.
Qed.

(** A pipe with nothing in progress, a bytevector of four bytes and a procedure; every call succeeds. *)
Definition example_objects : gmap positive object := {[ 1%positive := Bytevector [0; 0; 0; 0]; 2%positive := Procedure ]}.
Definition example_pipe : cell := mkCell (StreamPort (mkStreamPort pipe_vtable NULL Sundef 0 0 NULL Sundef Sundef 0 NULL)) (HOpen None) None.
Definition example_world : world := set_next 2 (set_heap {[ 1 := example_pipe ]} (empty_world example_objects (fun _ => 1))).

Lemma example_Inv : Inv example_world /\ unreferenced (heap example_world) 1 /\ small_objects (objects example_world).
Proof.
  split; [|split].
  - apply (Core_alloc (empty_Inv example_objects (fun _ => 1))); [cbn; lia|done| |done].
    split; [by left|]. split; [left; auto|]. split; [by left|]. by left.
  - intros b c. cbn. intros [<- <-]%lookup_singleton_Some. done.
  - intros o l. unfold example_world, example_objects. cbn. intros [[_ [= <-]]|[_ [_ [=]]%lookup_singleton_Some]]%lookup_insert_Some.
    cbn. lia.
Qed.

(** Reading three of the four bytes: the read is in progress; reading four bytes from the second is refused. *)
Lemma stream_read_lifecycle_witness :
  (exists w', osi_read_port 1 (Sobj 1) 1 3 (-1) (Sobj 2) example_world = Some (Strue, w') /\ read_in_progress w' 1 1 1 3 (Sobj 2)) /\
  exists w', osi_read_port 1 (Sobj 1) 1 4 (-1) (Sobj 2) example_world = Some (osi_make_error_pair "osi_read_port" UV_EINVAL, w').
Proof.
  destruct example_Inv as (HI & Hu & Hsm). split.
  - destruct (stream_read_lifecycle example_world 1 (Sobj 1) 1 3 (-1) (Sobj 2) HI (ex_intro _ _ eq_refl)) as [Hread _].
    destruct (Hread _ _ _ Hsm eq_refl Hu) as (r & w' & Hrun & _ & Hr); [unfold is_uint; lia|unfold is_uint; lia|].
    assert (Hok : match osi_read_port 1 (Sobj 1) 1 3 (-1) (Sobj 2) example_world with Some (Strue, _) => true | _ => false end = true)
      by (vm_compute; reflexivity).
    rewrite Hrun in Hok. exists w'. destruct Hr as [(-> & _ & _ & _ & o & [E _] & Hp)|(_ & _ & [[-> _]|[[-> _]|[-> _]]])]; try discriminate Hok.
    injection E as <-. split; [exact Hrun|exact Hp].
  - destruct (stream_read_lifecycle example_world 1 (Sobj 1) 1 4 (-1) (Sobj 2) HI (ex_intro _ _ eq_refl)) as [Hread _].
    destruct (Hread _ _ _ Hsm eq_refl Hu) as (r & w' & Hrun & _ & Hr); [unfold is_uint; lia|unfold is_uint; lia|].
    exists w'. rewrite Hrun. destruct Hr as [(_ & _ & _ & _ & o & [[= <-] [_ (l & Hl & _ & _ & Hle)]] & _)|(_ & _ & [[-> _]|[[_ Hn]|[_ Hn]]])].
    + exfalso. change (Some (Bytevector [0; 0; 0; 0]) = Some (Bytevector l)) in Hl. injection Hl as <-. cbn in Hle. lia.
    + done.
    + exfalso. apply Hn. by exists (mkStreamPort pipe_vtable NULL Sundef 0 0 NULL Sundef Sundef 0 NULL), None, None.
    + discriminate Hn.
Defined.

Lemma stream_write_lifecycle_witness :
  exists w', osi_write_port 1 (Sobj 1) 0 4 (-1) (Sobj 2) example_world = Some (Strue, w') /\
    write_in_progress w' 1 [(1%positive, 0, 4)] 4 (Sobj 1) NULL (Sobj 2).
Proof.
  destruct example_Inv as (HI & Hu & Hsm).
  destruct (stream_write_lifecycle example_world 1 (Sobj 2) HI (ex_intro _ _ eq_refl)) as [Hwrite _].
  destruct (Hwrite _ _ _ Hsm eq_refl Hu) as [Hport _].
  destruct (Hport (Sobj 1) 0 4 (-1)) as (r & w' & Hrun & _ & Hr); [unfold is_uint; lia|unfold is_uint; lia|].
  assert (Hok : match osi_write_port 1 (Sobj 1) 0 4 (-1) (Sobj 2) example_world with Some (Strue, _) => true | _ => false end = true)
    by (vm_compute; reflexivity).
  rewrite Hrun in Hok. exists w'.
  destruct Hr as [(-> & _ & _ & bufs & total & (_ & -> & o & [E _] & ->) & Hp)|(_ & _ & [[-> _]|[[-> _]|[-> _]]])]; try discriminate Hok.
  injection E as <-. split; [exact Hrun|exact Hp].
Defined.
