(* ===== verification/FsRequests.v ===== *)
(** * FsRequests: the life of a file-system operation

    The operations of osi.c that submit a file-system request, from the call to the delivery of
    the callback: the operations on paths, and those on the ports of files (the size, reads,
    writes and closing, with the dispatch of osi_read_port, osi_write_port and osi_close_port). *)

From S2P Require Export StreamPort.

(** ** The operations *)

Inductive fs_operation :=
| OnPath (c : fs_call)
| GetFileSize (port : Z)
| ReadFile (port : Z) (buffer : ptr) (start size offset : Z)
| WriteFile (port : Z) (buffer : ptr) (start size offset : Z)
| CloseFile (port : Z).

Definition run_fs_operation (op : fs_operation) (callback : ptr) : M ptr :=
  match op with
  | OnPath c => run_fs_call c callback
  | GetFileSize port => osi_get_file_size port callback
  | ReadFile port b start size offset => osi_read_port port b start size offset callback
  | WriteFile port b start size offset => osi_write_port port b start size offset callback
  | CloseFile port => osi_close_port port callback
  end.

(** What an operation submits in the state [w]: the names in its error pairs, the block it
    allocates, the request given to libuv and its callback.  Reads and writes are of a slice of a
    bytevector, from any port on a descriptor. *)
Inductive fs_submission (w : world) (callback : ptr) :
    fs_operation -> string -> string -> obj -> fs_op -> fs_cb -> Prop :=
| submit_path c who uv op k :
    is_obj callback -> fs_call_spec c = (who, uv, op, k) ->
    fs_submission w callback (OnPath c) who uv (UvFsReq callback) op k
| submit_size port file :
    is_obj callback -> usable w port (FsPort file_vtable file) HNone None ->
    fs_submission w callback (GetFileSize port) "osi_get_file_size" "uv_fs_fstat"
      (UvFsReq callback) (FsFstat file) Cb_get_file_size
| submit_read port vt file o start size offset :
    is_obj callback -> usable w port (FsPort vt file) HNone None ->
    is_uint 64 start -> is_uint 32 size -> 0 < size -> buf_ok (objects w) (o, start, size) ->
    fs_submission w callback (ReadFile port (Sobj o) start size offset) "osi_read_port" "uv_fs_read"
      (RwFsReq (Sobj o) callback) (FsRead file (o, start, size) offset) Cb_rw_fs
| submit_write port vt file o start size offset :
    is_obj callback -> usable w port (FsPort vt file) HNone None ->
    is_uint 64 start -> is_uint 32 size -> 0 < size -> buf_ok (objects w) (o, start, size) ->
    fs_submission w callback (WriteFile port (Sobj o) start size offset) "osi_write_port" "uv_fs_write"
      (RwFsReq (Sobj o) callback) (FsWrite file (o, start, size) offset) Cb_rw_fs
| submit_close port file :
    opt_obj callback -> usable w port (FsPort file_vtable file) HNone None ->
    fs_submission w callback (CloseFile port) "osi_close_port" "uv_fs_close"
      (CloseFsReq port callback) (FsClose file) Cb_close_fs.

(** The operations on ports that are refused before anything is allocated: the size of what is not
    a file, and reads and writes of what is not a slice of a bytevector. *)
Inductive fs_refused (w : world) : fs_operation -> string -> Prop :=
| refuse_size port o hd rq :
    usable w port o hd rq -> (forall file, o <> FsPort file_vtable file) ->
    fs_refused w (GetFileSize port) "osi_get_file_size"
| refuse_read port vt file b start size offset :
    usable w port (FsPort vt file) HNone None -> is_uint 64 start -> is_uint 32 size ->
    ~ (exists o, valid_slice w b start size o) ->
    fs_refused w (ReadFile port b start size offset) "osi_read_port"
| refuse_write port vt file b start size offset :
    usable w port (FsPort vt file) HNone None -> is_uint 64 start -> is_uint 32 size ->
    ~ (exists o, valid_slice w b start size o) ->
    fs_refused w (WriteFile port b start size offset) "osi_write_port".

(** A completed request: the block [a] is gone, what it locked is released, and the callback is
    delivered with what the request reports. *)
Record fs_completed (a : Z) (c : cell) (k : fs_cb) (callback : ptr) (r : fs_result) (w w' : world) :
    Prop := {
  fs_completed_inv : Inv w';
  fs_completed_heap : heap w' = fs_heap w a (contents c) k r;
  fs_completed_locks : locks w = locks w' ⊎ owned c;
  fs_completed_objects : objects w' = objects w;
  fs_completed_callbacks :
    g_callbacks w' = Scons (Scons callback (Scons (fs_report w k r) Snil)) (g_callbacks w)
}.

(** ** Specifications *)

Lemma completed_plain a c k callback r w w' :
  Inv w' -> completed a c callback (Scons (fs_report w k r) Snil) w w' ->
  fs_heap w a (contents c) k r = delete a (heap w) -> fs_completed a c k callback r w w'.
Proof. intros HI [Hh Hl Ho Hg _] Hf. constructor; congruence. Qed.

Lemma usable_cell {w port vt file} : usable w port (FsPort vt file) HNone None ->
  heap w !! port = Some (mkCell (FsPort vt file) HNone None) /\ unreferenced (heap w) port.
Proof. intros Hu. by inversion Hu. Qed.

(** The submissions. *)
Lemma fs_submission_spec w op callback who uv o rq k :
  Inv w -> small_objects (objects w) -> fs_submission w callback op who uv o rq k ->
  wp (run_fs_operation op callback) w (fun r w' => Inv w' /\
    submitted who uv (mkCell o HNone (Some (RFs rq k))) w r w').
Proof.
  intros HI Hsm Hs. destruct Hs as [c who uv rq k Hcb Hc|port file Hcb Hu|
    port vt file o start size offset Hcb Hu H64 H32 Hpos Hb|
    port vt file o start size offset Hcb Hu H64 H32 Hpos Hb|port file Hcb Hu]; cbn [run_fs_operation].
  - by apply run_fs_call_spec.
  - destruct (usable_cell Hu) as [Hp _]. unfold osi_get_file_size. apply wp_bind.
    eapply wp_load_vtable; [exact Hp|done|]. unfold load_fs_port.
    apply wp_bind, wp_bind. eapply wp_load; [exact Hp|]. cbn [contents].
    by apply wp_ret, fs_request_spec.
  - eapply wp_mono; [by eapply osi_read_port_spec|].
    intros r w' (HI' & [(Hno & _)|(x & (E & _) & Hr)]); [by destruct Hno; exists o|].
    injection E as <-. done.
  - eapply wp_mono; [by eapply osi_write_port_spec|].
    intros r w' (HI' & [(Hno & _)|(x & (E & _) & Hr)]); [by destruct Hno; exists o|].
    injection E as <-. done.
  - destruct (usable_cell Hu) as [Hp Hn]. unfold osi_close_port. apply wp_bind.
    eapply wp_load_vtable; [exact Hp|done|]. cbn [vtable_close]. by eapply close_fs_port_spec.
Qed.

(** The refusals. *)
Lemma fs_refused_spec w op callback who :
  Inv w -> small_objects (objects w) -> is_obj callback -> fs_refused w op who ->
  run_fs_operation op callback w = Some (osi_make_error_pair who UV_EINVAL, w).
Proof.
  intros HI Hsm Hcb Hr.
  assert (Hwp : wp (run_fs_operation op callback) w (fun r w' =>
    r = osi_make_error_pair who UV_EINVAL /\ w' = w)).
  { destruct Hr as [port o hd rq Hu Ho|port vt file b start size offset Hu H64 H32 Hno|
      port vt file b start size offset Hu H64 H32 Hno]; cbn [run_fs_operation].
    - unfold osi_get_file_size. apply wp_bind. destruct Hu as [vt file Hp Hu|p act rq Hp Hu];
        (eapply wp_load_vtable; [exact Hp|reflexivity|]).
      + destruct (cell_vtable_fs HI _ _ _ _ _ Hp) as [-> | ->]; [by apply wp_ret|by destruct (Ho file)].
      + destruct (proj1 (Core_stream_ok HI _ _ _ _ Hp)) as [-> | ->]; by apply wp_ret.
    - eapply wp_mono; [by eapply osi_read_port_spec|].
      intros r w' (_ & [(_ & Hr)|(x & Hx & _)]); [done|by destruct Hno; exists x].
    - eapply wp_mono; [by eapply osi_write_port_spec|].
      intros r w' (_ & [(_ & Hr)|(x & Hx & _)]); [done|by destruct Hno; exists x]. }
  by destruct (wp_result _ _ _ Hwp) as (r & w' & Hrun & -> & ->).
Qed.

(** The completions, in whatever state [w2] the request of the block is found. *)
Lemma fs_completion_spec w w2 op callback who uv o rq k a r :
  fs_submission w callback op who uv o rq k -> Inv w2 -> collecting w2 ->
  heap w2 !! a = Some (mkCell o HNone (Some (RFs rq k))) ->
  wp (run_fs_cb k a r) (returned a (mkCell o HNone (Some (RFs rq k))) w2)
    (fun _ w' => fs_completed a (mkCell o HNone (Some (RFs rq k))) k callback r w2 w').
Proof.
  intros Hs HI Hcol Ha. destruct Hs as [c who uv rq k Hcb Hc|port file Hcb Hu|
    port vt file o start size offset Hcb Hu H64 H32 Hpos Hb|
    port vt file o start size offset Hcb Hu H64 H32 Hpos Hb|port file Hcb Hu].
  - destruct (plain_report k) eqn:Ek.
    + eapply wp_mono; [by eapply fs_report_spec|]. intros [] w' [HI' Hc'].
      apply completed_plain; [done|done|by destruct k].
    + assert (k = Cb_open_fs) as ->.
      { destruct c; cbn [fs_call_spec] in Hc; try destruct (_ =? 0)%Z; by injection Hc as <- <- <- <-. }
      eapply wp_mono; [by eapply open_fs_cb_spec|]. cbn beta.
      intros [] w' (HI' & Hl & Ho & Hcase). constructor; try done; unfold fs_heap, fs_report.
      all: destruct Hcase as [(Hv & Hh & Hg)|[(Hv & Hm & Hh & Hg)|(Hv & Hm & Hh & Hg)]];
        destruct (Z.ltb_spec (fs_value r) 0); try lia; cbn [orb]; try done.
      all: destruct (Z.eqb_spec (answers w2 (tick w2)) 0); done.
  - eapply wp_mono; [by eapply fs_report_spec|]. intros [] w' [HI' Hc']. by apply completed_plain.
  - eapply wp_mono; [eapply rw_fs_cb_spec; [done|done|exact Ha|by eexists|done]|].
    intros [] w' [HI' Hc']. by apply completed_plain.
  - eapply wp_mono; [eapply rw_fs_cb_spec; [done|done|exact Ha|by eexists|done]|].
    intros [] w' [HI' Hc']. by apply completed_plain.
  - eapply wp_mono; [by eapply close_fs_cb_spec|]. intros [] w' (HI' & Hh & Hl & Ho & Hg).
    constructor; try done. cbn [fs_heap contents]. rewrite Hh.
    destruct (decide (a = port)) as [->|Hne]; [done|by rewrite delete_delete].
Qed.

(** C16: every file-system operation with a callback, on a path or on the port of a file.  One that
    names a port that is not a file's, or no slice of a bytevector, is refused and nothing changes.
    Any other either fails, naming the operation when memory is exhausted and the libuv
    function when libuv refuses, and leaves the heap and the locks exactly as they were, or submits
    exactly one request for what was asked, with its callback and its buffer locked.  When that
    request completes, in whatever state the program is then and whatever libuv reports, the
    callback is delivered once with the result, the block is freed and the locks are released; an
    opened file has a new port (unless memory is exhausted, which is reported), and a closed one
    none. *)
Theorem fs_operation_lifecycle w op callback :
  Inv w -> small_objects (objects w) ->
  (forall who, is_obj callback -> fs_refused w op who ->
     run_fs_operation op callback w = Some (osi_make_error_pair who UV_EINVAL, w)) /\
  (forall who uv o rq k, fs_submission w callback op who uv o rq k ->
     let c := mkCell o HNone (Some (RFs rq k)) in
     exists r w', run_fs_operation op callback w = Some (r, w') /\ Inv w' /\
       submitted who uv c w r w' /\
       (r = Strue -> heap w' !! next w = Some c) /\
       forall w2 res, Inv w2 -> collecting w2 -> heap w2 !! next w = Some c ->
         exists w3, run_fs_cb k (next w) res (returned (next w) c w2) = Some (tt, w3) /\
           fs_completed (next w) c k callback res w2 w3).
Proof.
  intros HI Hsm. split; [by intros; apply fs_refused_spec|].
  intros who uv o rq k Hs c.
  destruct (wp_result _ _ _ (fs_submission_spec w op callback who uv o rq k HI Hsm Hs))
    as (r & w' & Hrun & HI' & Hsub).
  exists r, w'. split; [done|]. split; [done|]. split; [done|]. split.
  - intros ->. destruct Hsub as [(_ & Hr & _)|[(_ & _ & Hr & _)|(_ & _ & _ & Hst)]]; try done.
    rewrite (started_heap _ _ _ _ Hst). apply lookup_insert_eq.
  - intros w2 res HI2 Hcol Ha.
    destruct (wp_result _ _ _ (fs_completion_spec w w2 op callback who uv o rq k _ res Hs HI2 Hcol Ha))
      as ([] & w3 & H3 & H3'). by exists w3.
Qed.

(** Opening a file on an empty heap, and its completion with the descriptor 9 and with an error. *)
Lemma fs_operation_lifecycle_witness :
  exists w', osi_open_file [0x61] 0 0 (Sobj 7) (empty_world ∅ (fun _ => 1)) = Some (Strue, w') /\
    locks w' = {[+ 7%positive +]} /\
    forall value, let w2 := set_callbacks Snil w' in
      exists w3, open_fs_cb 1 (mkFsResult value [] [] [] [])
          (returned 1 (mkCell (UvFsReq (Sobj 7)) HNone (Some (RFs (FsOpen [0x61] 0 0) Cb_open_fs))) w2)
        = Some (tt, w3) /\
        g_callbacks w3 = Scons (Scons (Sobj 7) (Scons
          (if value <? 0 then osi_make_error_pair "uv_fs_open" (i32 value) else Sint 2) Snil)) Snil.
Proof.
  pose (w := empty_world ∅ (fun _ => 1)).
  destruct (fs_operation_lifecycle w (OnPath (OpenFile [0x61] 0 0)) (Sobj 7) (empty_Inv _ _)
    ltac:(by intros ? ? ?)) as [_ Hsub].
  destruct (Hsub _ _ _ _ _ (submit_path w (Sobj 7) (OpenFile [0x61] 0 0) _ _ _ _
    (ex_intro _ _ eq_refl) eq_refl)) as (r & w' & H & HI' & Hs & Hin & Hdone).
  destruct Hs as [(Ha & _)|[(_ & Hrc & _)|(_ & _ & -> & Hst)]]; [done|done|].
  exists w'. split; [exact H|]. split; [by rewrite (started_locks _ _ _ _ Hst)|].
  intros value w2. vm_compute in H. injection H as <-.
  destruct (Hdone w2 (mkFsResult value [] [] [] []) HI' (conj eq_refl eq_refl) eq_refl)
    as (w3 & Hrun & Hc). exists w3. split; [exact Hrun|].
  rewrite (fs_completed_callbacks _ _ _ _ _ _ _ Hc). unfold fs_report. cbn [fs_value].
  by destruct (value <? 0).
Defined.
