(* ===== verification/Handles.v ===== *)
(** * Handles: path watchers and signals

    The handles of osi.c that carry their callback in [data]: path watchers (lines 605-610,
    642-649, 746-749, 1396-1414), and the signal handlers (lines 1016-1050), whose callback is
    the value of a Scheme variable.  The closing callback of the first is shared with TCP
    listeners and processes. *)

From S2P Require Export StreamPort.

(** ** Definitions *)

(** [handle->data]. *)
Definition load_data (a : Z) : M ptr :=
  o ← load a;
  match o with
  | UvTcp data | UvFsEvent data | UvProcess data _ _ => mret data
  | _ => undefined
  end.

Definition close_handle_data_cb (a : Z) : M unit :=
  callback ← load_data a;
  _ ← free a;
  b ← truthy callback;
  if b : bool then Sunlock_object callback else mret tt.

Definition watch_path_cb (a : Z) (filename : option (list Z)) (events status : Z) : M unit :=
  callback ← load_data a;
  if status <? 0 then osi_add_callback1 callback (Sint status) else
  osi_add_callback2 callback (match filename with Some f => Sutf8 f | None => Sfalse end) (Sint events).

Definition osi_watch_path (path : list Z) (callback : ptr) : M ptr :=
  r ← malloc (UvFsEvent Sundef);
  match r with
  | None => mret (osi_make_error_pair "osi_watch_path" UV_ENOMEM)
  | Some watcher =>
    _ ← store watcher (UvFsEvent NULL);
    rc ← uv_handle_init watcher;
    if rc <? 0 then
      _ ← free watcher;
      mret (osi_make_error_pair "uv_fs_event_init" rc) else
    _ ← Slock_object callback;
    _ ← store watcher (UvFsEvent callback);
    rc ← uv_handle_start watcher Cb_watch_path;
    if rc <? 0 then
      _ ← uv_close watcher Cb_close_handle_data;
      mret (osi_make_error_pair "uv_fs_event_start" rc)
    else mret (Sint watcher)
  end.

Definition osi_close_path_watcher (watcher : Z) : M unit :=
  _ ← uv_handle_stop watcher;
  uv_close watcher Cb_close_handle_data.

Definition fire_signal (signum : Z) : M unit :=
  w ← get;
  osi_add_callback1 (deliver_signal w) (Sint signum).

Definition close_signal_cb (a : Z) : M unit := free a.

Definition osi_start_signal (signum : Z) : M ptr :=
  r ← malloc UvSignal;
  match r with
  | None => mret (osi_make_error_pair "osi_start_signal" UV_ENOMEM)
  | Some signal =>
    rc ← uv_handle_init signal;
    if negb (rc =? 0) then
      _ ← free signal;
      mret (osi_make_error_pair "uv_signal_init" rc) else
    rc ← uv_handle_start signal Cb_fire_signal;
    if negb (rc =? 0) then
      _ ← uv_close signal Cb_close_signal;
      mret (osi_make_error_pair "uv_signal_start" rc)
    else mret (Sint signal)
  end.

Definition osi_stop_signal (handler : Z) : M ptr :=
  rc ← uv_result;
  if negb (rc =? 0) then mret (osi_make_error_pair "uv_signal_stop" rc) else
  _ ← uv_handle_stop handler;
  _ ← uv_close handler Cb_close_signal;
  mret Strue.

(** ** Specifications *)

(** How an operation that creates a handle ends: nothing left, a handle that is being closed
    and still owns the lock, or an active handle whose address is the result. *)
Definition handle_created (mk : ptr -> obj) (cb : handle_cb) (callback : ptr) (w : world) (r : ptr)
    (w' : world) : Prop :=
  (exists who rc, r = osi_make_error_pair who rc /\ rc < 0 /\ same w w') \/
  (exists who rc data, r = osi_make_error_pair who rc /\ rc < 0 /\ (data = NULL \/ data = callback) /\
     started (next w) (mkCell (mk data) (HClosing Cb_close_handle_data) None) w w') \/
  (r = Sint (next w) /\ started (next w) (mkCell (mk callback) (HOpen (Some cb)) None) w w').

Ltac created_end HI :=
  repeat split; world_norm;
  first [done | lia | solve [eapply Core_next_fresh; [exact HI|lia]] | locks_solve].

Lemma osi_watch_path_spec w path callback :
  Inv w -> is_obj callback ->
  wp (osi_watch_path path callback) w (fun r w' => Inv w' /\
    handle_created UvFsEvent Cb_watch_path callback w r w').
Proof.
  intros HI Hcb. unfold osi_watch_path. world_intro w.
  pose proof (Core_next_fresh _ _ _ _ n HI ltac:(lia)) as Hn. wp_run; heap_norm.
  - split; [core_same|]. left. do 2 eexists. created_end HI.
  - split; [core_same|]. left. do 2 eexists. created_end HI.
  - split.
    + apply (Core_alloc HI); [lia|locks_solve| |done].
      split; [done|]. right. by split; [|right].
    + right; left. do 3 eexists. split; [done|]. split; [exact Hrc0|]. split; [by right|]. created_end HI.
  - split.
    + apply (Core_alloc HI); [lia|locks_solve| |done]. split; [done|]. by left.
    + right; right. created_end HI.
Qed.

(** An active handle that carries its callback. *)
Lemma osi_close_path_watcher_spec w a data :
  Inv w -> heap w !! a = Some (mkCell (UvFsEvent data) (HOpen (Some Cb_watch_path)) None) ->
  wp (osi_close_path_watcher a) w (fun _ w' => Inv w' /\ locks w' = locks w /\
    updated a (mkCell (UvFsEvent data) (HClosing Cb_close_handle_data) None) w w').
Proof.
  intros HI Ha. unfold osi_close_path_watcher. world_intro w.
  pose proof (core_cells _ _ _ _ HI a _ Ha) as [_ [[_ Hd]|[[=] _]]]. cbn in Hd.
  wp_run. split; [|by repeat split].
  apply (Core_update HI _ _ _ _ Ha); [locks_solve| |done|done|].
  - split; [done|]. right. by split; [|right].
  - left. by apply (Core_unreferenced HI a _ Ha).
Qed.

(** Handles whose contents carry a callback the closing callback releases. *)
Definition data_of (o : obj) : option ptr :=
  match o with UvTcp d | UvFsEvent d | UvProcess d _ _ => Some d | _ => None end.

Lemma close_handle_data_cb_spec w a o data :
  Inv w -> heap w !! a = Some (mkCell o (HClosing Cb_close_handle_data) None) ->
  data_of o = Some data ->
  wp (close_handle_data_cb a) (set_heap (<[a := mkCell o HNone None]> (heap w)) w)
    (fun _ w' => Inv w' /\ heap w' = delete a (heap w) /\ locks w = locks w' ⊎ lk data /\
       objects w' = objects w /\ g_callbacks w' = g_callbacks w).
Proof.
  intros HI Ha Hd. unfold close_handle_data_cb, load_data. world_intro w.
  assert (Hu : unreferenced h a)
    by (apply (Core_unreferenced HI a _ Ha); intros; by destruct o).
  assert (Ho : opt_obj data).
  { pose proof (core_cells _ _ _ _ HI a _ Ha) as Hc. destruct o; try done; injection Hd as <-.
    - destruct Hc as [_ [[[=] _]|[_ Hc]]]. exact Hc.
    - destruct Hc as [_ [[[=] _]|[_ Hc]]]. exact Hc.
    - apply Hc. }
  destruct (Core_owned_split HI _ _ Ha) as [l0 Hl].
  assert (Ew : owned (mkCell o (HClosing Cb_close_handle_data) None) = lk data)
    by (destruct o; try done; by injection Hd as ->).
  rewrite Ew in Hl. subst l.
  assert (HD : Core (delete a h) n l0 m) by (apply (Core_free HI _ _ _ Ha); [by rewrite Ew|done]).
  destruct Ho as [->|[k ->]]; destruct o; try done; injection Hd as ->.
  all: wp_run; rewrite ?delete_insert_eq.
  all: split; [|repeat split; locks_eq].
  all: first [exact HD | apply (Core_locks_eq _ _ l0); [exact HD|locks_eq]
             | by rewrite (right_id_L ∅ (⊎)) in HD].
Qed.

Lemma watch_path_cb_spec w a data filename events status :
  collecting w -> heap w !! a = Some (mkCell (UvFsEvent data) (HOpen (Some Cb_watch_path)) None) ->
  wp (watch_path_cb a filename events status) w (fun _ w' => w' =
    set_callbacks (Scons (Scons data
      (if status <? 0 then Scons (Sint status) Snil
       else Scons (match filename with Some f => Sutf8 f | None => Sfalse end)
              (Scons (Sint events) Snil))) (g_callbacks w)) w).
Proof.
  intros Hcol Ha. unfold watch_path_cb, load_data. world_intro w.
  destruct (status <? 0); wp_run; done.
Qed.

Lemma osi_start_signal_spec w signum :
  Inv w ->
  wp (osi_start_signal signum) w (fun r w' => Inv w' /\
    ((exists who rc, r = osi_make_error_pair who rc /\ rc < 0 /\ same w w') \/
     (exists rc, r = osi_make_error_pair "uv_signal_start" rc /\ rc < 0 /\
        started (next w) (mkCell UvSignal (HClosing Cb_close_signal) None) w w') \/
     (r = Sint (next w) /\ started (next w) (mkCell UvSignal (HOpen (Some Cb_fire_signal)) None) w w'))).
Proof.
  intros HI. unfold osi_start_signal. world_intro w.
  pose proof (Core_next_fresh _ _ _ _ n HI ltac:(lia)) as Hn.
  assert (E : forall z, z < 0 -> negb (z =? 0) = true) by (intros z Hz; destruct (Z.eqb_spec z 0); lia || done).
  repeat wp_step; wp_side; rewrite ?E by done; change (negb (0 =? 0)) with false; cbv iota;
    repeat wp_step; wp_side; rewrite ?E by done; change (negb (0 =? 0)) with false; cbv iota;
    repeat wp_step; wp_side; heap_norm.
  - split; [core_same|]. left. do 2 eexists. created_end HI.
  - split; [core_same|]. left. do 2 eexists. created_end HI.
  - split; [apply (Core_alloc HI); [lia|locks_solve| |done]; split; auto|].
    right; left. eexists. split; [done|]. split; [exact Hrc0|]. created_end HI.
  - split; [apply (Core_alloc HI); [lia|locks_solve| |done]; split; auto|].
    right; right. created_end HI.
Qed.

Lemma osi_stop_signal_spec w a :
  Inv w -> heap w !! a = Some (mkCell UvSignal (HOpen (Some Cb_fire_signal)) None) ->
  wp (osi_stop_signal a) w (fun r w' => Inv w' /\
    ((r = osi_make_error_pair "uv_signal_stop" (next_result w) /\ next_result w < 0 /\ same w w') \/
     (r = Strue /\ locks w' = locks w /\
      updated a (mkCell UvSignal (HClosing Cb_close_signal) None) w w'))).
Proof.
  intros HI Ha. unfold osi_stop_signal. apply wp_bind, wp_uv_result.
  destruct (Z.eqb_spec (next_result w) 0) as [E|E]; cbn [negb].
  - world_intro w. wp_run. split; [|right; by repeat split].
    apply (Core_update HI _ _ _ _ Ha); [locks_solve| |done|done|].
    + split; auto.
    + left. by apply (Core_unreferenced HI a _ Ha).
  - apply wp_ret. split; [by destruct w|]. left. unfold next_result in *. repeat split; lia.
Qed.

Lemma close_signal_cb_spec w a :
  Inv w -> heap w !! a = Some (mkCell UvSignal (HClosing Cb_close_signal) None) ->
  wp (close_signal_cb a) (set_heap (<[a := mkCell UvSignal HNone None]> (heap w)) w)
    (fun _ w' => Inv w' /\ heap w' = delete a (heap w) /\ locks w' = locks w /\
       objects w' = objects w /\ g_callbacks w' = g_callbacks w).
Proof.
  intros HI Ha. unfold close_signal_cb. world_intro w.
  pose proof (Core_unreferenced HI a _ Ha ltac:(done) ltac:(done)) as Hu.
  wp_run. heap_norm. split; [|done]. apply (Core_free HI _ _ _ Ha); [locks_solve|done].
Qed.
