(* ===== verification/Tcp.v ===== *)
(** * Tcp: connections and listeners

    Connecting (osi.c lines 562-603 and 759-793): the name is resolved, then the addresses are
    tried one after another until one accepts; listening (lines 612-640, 755-757, 1183-1218);
    and the addresses of a connection (lines 1094-1134). *)

From S2P Require Export Handles Format.

(** ** Definitions *)

Definition load_connect (a : Z) : M (ptr * list Z * bool * Z) :=
  o ← load a;
  match o with TcpConnect cb ai info port => mret (cb, ai, info, port) | _ => undefined end.

(** [uv_tcp_connect] on the handle of [port], with the request in [p]. *)
Definition uv_tcp_connect (p port addr : Z) : M Z :=
  c ← load_cell port;
  _ ← require (is_open (handle c));
  uv_submit p (RConnect addr).

(** [uv_freeaddrinfo]: the list must be held. *)
Definition uv_freeaddrinfo (p : Z) : M unit :=
  '(cb, ai, info, port) ← load_connect p;
  _ ← require info;
  store p (TcpConnect cb ai false port).

Definition set_ai (p : Z) (ai : list Z) : M unit :=
  '(cb, _, info, port) ← load_connect p; store p (TcpConnect cb ai info port).

(** The [do] loop of [connect_tcp_cb], entered with [p->ai = ai]. *)
Fixpoint connect_tcp_next (p : Z) (ai : list Z) (status : Z) : M unit :=
  match ai with
  | [] =>
    '(callback, _, _, port) ← load_connect p;
    _ ← Sunlock_object callback;
    _ ← uv_close port Cb_close_stream;
    _ ← uv_freeaddrinfo p;
    _ ← free p;
    osi_add_callback1 callback (osi_make_error_pair "uv_tcp_connect" status)
  | addr :: rest =>
    _ ← set_ai p rest;
    '(_, _, _, port) ← load_connect p;
    status ← uv_tcp_connect p port addr;
    if status <? 0 then connect_tcp_next p rest status else mret tt
  end.

Definition connect_tcp_cb (p : Z) (status : Z) : M unit :=
  '(callback, ai, _, port) ← load_connect p;
  if status <? 0 then connect_tcp_next p ai status else
  _ ← Sunlock_object callback;
  _ ← uv_freeaddrinfo p;
  _ ← free p;
  osi_add_callback1 callback (Sint port).

(** [res] is the list of addresses; libuv has stored it in the request when [status] is 0. *)
Definition connect_tcp_addrinfo_cb (p : Z) (status : Z) (res : list Z) : M unit :=
  '(callback, _, _, port) ← load_connect p;
  if status <? 0 then
    _ ← Sunlock_object callback;
    _ ← uv_close port Cb_close_stream;
    _ ← free p;
    osi_add_callback1 callback (osi_make_error_pair "uv_getaddrinfo" status)
  else
    match res with
    | [] => undefined
    | addr :: rest =>
      _ ← set_ai p rest;
      rc ← uv_tcp_connect p port addr;
      if rc <? 0 then connect_tcp_cb p rc else mret tt
    end.

(** A stream port whose fields are set as every creator of one sets them. *)
Definition new_stream_port (vt : osi_port_vtable) : stream_port :=
  mkStreamPort vt NULL Sundef 0 0 NULL Sundef Sundef 0 NULL.
(** The same before the fields are set. *)
Definition raw_stream_port : stream_port :=
  mkStreamPort pipe_vtable Sundef Sundef 0 0 Sundef Sundef Sundef 0 Sundef.

Definition osi_connect_tcp (node service : list Z) (callback : ptr) : M ptr :=
  r ← malloc (TcpConnect Sundef [] false 0);
  match r with
  | None => mret (osi_make_error_pair "osi_connect_tcp" UV_ENOMEM)
  | Some p =>
    r ← malloc (StreamPort raw_stream_port);
    match r with
    | None =>
      _ ← free p;
      mret (osi_make_error_pair "osi_connect_tcp" UV_ENOMEM)
    | Some port =>
      _ ← store p (TcpConnect Sundef [] false port);
      rc ← uv_handle_init port;
      if rc <? 0 then
        _ ← free port;
        _ ← free p;
        mret (osi_make_error_pair "uv_tcp_init" rc) else
      _ ← store port (StreamPort (new_stream_port tcp_vtable));
      _ ← Slock_object callback;
      _ ← store p (TcpConnect callback [] false port);
      rc ← uv_submit p (RGetaddrinfo node service);
      if rc <? 0 then
        _ ← Sunlock_object callback;
        _ ← uv_close port Cb_close_stream;
        _ ← free p;
        mret (osi_make_error_pair "uv_getaddrinfo" rc)
      else mret Strue
    end
  end.

Definition listen_tcp_cb (server : Z) (status : Z) : M unit :=
  callback ← load_data server;
  if status <? 0 then osi_add_callback1 callback (osi_make_error_pair "uv_listen" status) else
  r ← malloc (StreamPort raw_stream_port);
  match r with
  | None => osi_add_callback1 callback (osi_make_error_pair "uv_listen" UV_ENOMEM)
  | Some port =>
    status ← uv_handle_init port;
    if status <? 0 then
      _ ← free port;
      osi_add_callback1 callback (osi_make_error_pair "uv_tcp_init" status) else
    _ ← store port (StreamPort (new_stream_port tcp_vtable));
    status ← uv_result;  (* uv_accept *)
    if status <? 0 then
      _ ← uv_close port Cb_close_stream;
      osi_add_callback1 callback (osi_make_error_pair "uv_accept" status)
    else osi_add_callback1 callback (Sint port)
  end.

Definition osi_close_tcp_listener (listener : Z) : M unit :=
  uv_close listener Cb_close_handle_data.

(** [strchr(address, '.')]. *)
Definition has_dot (address : list Z) : bool := existsb (Z.eqb 46) address.

Definition osi_listen_tcp (address : list Z) (port : Z) (callback : ptr) : M ptr :=
  let who := if has_dot address then "uv_ip4_addr"%string else "uv_ip6_addr"%string in
  rc ← uv_result;
  if rc <? 0 then mret (osi_make_error_pair who rc) else
  r ← malloc (UvTcp Sundef);
  match r with
  | None => mret (osi_make_error_pair "osi_listen_tcp" UV_ENOMEM)
  | Some listener =>
    _ ← store listener (UvTcp NULL);
    rc ← uv_handle_init listener;
    if rc <? 0 then
      _ ← free listener;
      mret (osi_make_error_pair "uv_tcp_init" rc) else
    rc ← uv_result;  (* uv_tcp_bind *)
    if rc <? 0 then
      _ ← uv_close listener Cb_close_handle_data;
      mret (osi_make_error_pair "uv_tcp_bind" rc) else
    _ ← Slock_object callback;
    _ ← store listener (UvTcp callback);
    rc ← uv_handle_start listener Cb_listen_tcp;
    if rc <? 0 then
      _ ← uv_close listener Cb_close_handle_data;
      mret (osi_make_error_pair "uv_listen" rc)
    else mret (Sint listener)
  end.

(** Socket addresses: the text [uv_ip4_name] or [uv_ip6_name] makes of them, and the port. *)
Inductive sockaddr :=
| Inet (name : list Z) (port : Z)
| Inet6 (name : list Z) (port : Z)
| OtherFamily.

(** [peer] is what [uv_tcp_getpeername] gives: a result and an address.  The name functions
    fail when the text and its NUL do not fit in the size they are given. *)
Definition UV_ENOSPC : Z := -28.
Definition name_result (name : list Z) (size : Z) : Z := if fits size name then 0 else UV_ENOSPC.

Definition osi_get_ip_address (port : Z) (peer : Z * sockaddr) : M ptr :=
  vt ← load_vtable port;
  match vt with
  | tcp_vtable =>
    let '(rc, addr) := peer in
    if rc <? 0 then mret (osi_make_error_pair "uv_tcp_getpeername" rc) else
    match addr with
    | Inet name sin_port =>
      let rc := name_result name (256 - 6) in
      if rc <? 0 then mret (osi_make_error_pair "uv_ip4_name" rc) else
      let len := Z.of_nat (length name) in
      mret (Sutf8 (name ++ snprintf (256 - len) (58 :: format_d sin_port)))
    | Inet6 name sin6_port =>
      let rc := name_result name (256 - 8) in
      if rc <? 0 then mret (osi_make_error_pair "uv_ip6_name" rc) else
      let name := 91 :: name in
      let len := Z.of_nat (length name) in
      mret (Sutf8 (name ++ snprintf (256 - len) (93 :: 58 :: format_d sin6_port)))
    | OtherFamily => mret (osi_make_error_pair "osi_get_ip_address" UV_EAI_FAMILY)
    end
  | _ => mret (osi_make_error_pair "osi_get_ip_address" UV_EINVAL)
  end.

Definition osi_get_tcp_listener_port (sock : Z * sockaddr) : ptr :=
  let '(rc, addr) := sock in
  if rc <? 0 then osi_make_error_pair "uv_tcp_getsockname" rc else
  match addr with
  | Inet _ port | Inet6 _ port => Sint port
  | OtherFamily => osi_make_error_pair "osi_get_tcp_listener_port" UV_EAI_FAMILY
  end.

(** ** Specifications *)

(** A port nothing is done with may be closed, without a callback. *)
Lemma idle_stream_ok m p :
  idle (mkCell (StreamPort p) (HOpen None) None) -> stream_ok m p (HClosing Cb_close_stream) None.
Proof.
  intros (q & [= <-] & Hv & Hc & Hr & Hw). split; [done|]. split; [left; auto|].
  split; [by left|]. right. rewrite Hc. split; [done|]. by left.
Qed.

Lemma idle_owned m p hd : idle (mkCell (StreamPort p) (HOpen None) None) ->
  owned (mkCell (StreamPort p) hd m) = ∅.
Proof.
  intros (q & [= <-] & Hv & Hc & Hr & Hw). unfold owned. cbn [contents]. rewrite Hc, Hr, Hw.
  cbn. multiset_solver.
Qed.

(** Abandoning a connection: its block is freed and its port closes. *)
Lemma Core_abandon {h n l m} (HC : Core h n l m) p port cb ai info rq :
  h !! p = Some (mkCell (TcpConnect cb ai info port) HNone rq) ->
  exists q, h !! port = Some (mkCell (StreamPort q) (HOpen None) None) /\ port <> p /\
    unreferenced h p /\ unreferenced (delete p h) port /\
    Core (delete p h) n (l ∖ lk cb) m /\
    Core (<[port := mkCell (StreamPort q) (HClosing Cb_close_stream) None]> (delete p h)) n
      (l ∖ lk cb) m.
Proof.
  intros Hp. destruct (core_refs _ _ _ _ HC p _ port Hp eq_refl) as (d & Hd & Hid).
  pose proof Hid as (q & -> & _). exists q. split; [done|].
  assert (Hne : port <> p) by (intros ->; rewrite Hp in Hd; discriminate). split; [done|].
  assert (Hu : unreferenced h p) by (by apply (Core_unreferenced HC p _ Hp)). split; [done|].
  assert (Hu' : unreferenced (delete p h) port).
  { intros b c [Hb1 Hb2]%lookup_delete_Some Hr.
    by pose proof (core_unique _ _ _ _ HC p b _ c port Hp Hb2 eq_refl Hr). }
  split; [done|].
  destruct (Core_owned_split HC _ _ Hp) as [l0 Hl]. unfold owned in Hl. cbn [contents] in Hl. subst l.
  assert (HD : Core (delete p h) n ((l0 ⊎ lk cb) ∖ lk cb) m)
    by (apply (Core_free HC _ _ _ Hp); [locks_solve|done]).
  split; [done|].
  apply (Core_stream HD _ q (HOpen None) None); [|done|by apply idle_stream_ok|].
  - by rewrite lookup_delete_ne.
  - by rewrite !(idle_owned _ q).
Qed.

(** How trying the addresses [ai] ends: a connection request to one of them is in flight, or
    all were refused, the port is closing and the callback is told the last error. *)
Definition connect_outcome (p port : Z) (cb : ptr) (ai : list Z) (status : Z) (w w' : world) : Prop :=
  objects w' = objects w /\
  ((exists tried addr rest, ai = tried ++ addr :: rest /\ locks w' = locks w /\
      g_callbacks w' = g_callbacks w /\
      heap w' = <[p := mkCell (TcpConnect cb rest true port) HNone (Some (RConnect addr))]> (heap w)) \/
   (exists q rc, (if ai is [] then rc = status else rc < 0) /\ locks w = locks w' ⊎ lk cb /\
      heap w !! port = Some (mkCell (StreamPort q) (HOpen None) None) /\
      heap w' = <[port := mkCell (StreamPort q) (HClosing Cb_close_stream) None]> (delete p (heap w)) /\
      g_callbacks w' = Scons (Scons cb (Scons (osi_make_error_pair "uv_tcp_connect" rc) Snil))
        (g_callbacks w))).

Lemma connect_tcp_next_spec ai : forall w p port cb ai0 info0 ai1 rq status,
  Inv w -> collecting w -> status < 0 ->
  heap w !! p = Some (mkCell (TcpConnect cb ai0 info0 port) HNone rq) -> is_obj cb ->
  wp (connect_tcp_next p ai status)
    (set_heap (<[p := mkCell (TcpConnect cb ai1 true port) HNone None]> (heap w)) w)
    (fun _ w' => Inv w' /\ connect_outcome p port cb ai status w w').
Proof.
  induction ai as [|addr ai IH]; intros w p port cb ai0 info0 ai1 rq status HI Hcol Hst Hp Hcb;
    cbn [connect_tcp_next]; unfold set_ai, uv_tcp_connect, uv_freeaddrinfo, load_connect.
  - world_intro w.
    destruct (Core_abandon HI _ _ _ _ _ _ Hp) as (q & Hq & Hne & Hu & _ & _ & HD).
    destruct (Core_owned_split HI _ _ Hp) as [l0 Hl]. unfold owned in Hl. cbn [contents] in Hl. subst l.
    wp_run; try done.
    assert (Eh : delete p (<[port := mkCell (StreamPort q) (HClosing Cb_close_stream) None]>
        (<[p := mkCell (TcpConnect cb ai1 true port) HNone None]> h)) =
      <[port := mkCell (StreamPort q) (HClosing Cb_close_stream) None]> (delete p h))
      by (by rewrite delete_insert_ne, delete_insert_eq by done).
    rewrite delete_insert_eq, Eh.
    split; [done|]. split; [done|]. right. exists q, status. repeat split; [locks_eq|exact Hq].
  - world_intro w.
    destruct (Core_abandon HI _ _ _ _ _ _ Hp) as (q & Hq & Hne & Hu & Hu' & HF & _).
    wp_run.
    + pose proof (IH (mkWorld h n l m cbs sig tm td ans (S tk)) p port cb ai0 info0 ai rq
        (Z.min 0 (ans tk)) HI Hcol Hrc Hp Hcb) as HIH.
      unfold set_heap in HIH. cbn [heap next locks objects g_callbacks deliver_signal timer
        timer_data answers tick] in HIH.
      eapply wp_mono; [exact HIH|]. intros [] w' [HI' [Ho Hout]]. split; [done|]. split; [done|].
      destruct Hout as [(tried & a & rest & -> & Hrest)|(q' & rc & Hrc' & Hrest)].
      * left. exists (addr :: tried), a, rest. split; [done|]. exact Hrest.
      * right. exists q', rc. split; [destruct ai; lia|]. exact Hrest.
    + split; [|split; [done|]; left; exists [], addr, ai; by repeat split].
      apply (Core_update HI _ _ _ _ Hp); [locks_solve| |done|done|by left].
      split; [done|]. split; [done|]. right. by exists addr.
Qed.

(** The state in which the callback of the request of [p] runs, when the addresses were
    resolved before or just now. *)
Definition connecting (p port : Z) (cb : ptr) (ai : list Z) (w : world) : world :=
  set_heap (<[p := mkCell (TcpConnect cb ai true port) HNone None]> (heap w)) w.

Lemma connect_tcp_cb_spec w p port cb ai0 info0 ai rq status :
  Inv w -> collecting w ->
  heap w !! p = Some (mkCell (TcpConnect cb ai0 info0 port) HNone rq) -> is_obj cb ->
  wp (connect_tcp_cb p status) (connecting p port cb ai w) (fun _ w' => Inv w' /\
    ((status < 0 /\ connect_outcome p port cb ai status w w') \/
     (0 <= status /\ completed p (mkCell (TcpConnect cb ai0 info0 port) HNone rq) cb
        (Scons (Sint port) Snil) w w'))).
Proof.
  intros HI Hcol Hp Hcb. unfold connect_tcp_cb, connecting. destruct (Z.ltb_spec status 0).
  - unfold load_connect. apply wp_bind, wp_bind. eapply wp_load; [apply lookup_insert_eq|].
    cbn [contents]. apply wp_ret. cbv beta iota.
    eapply wp_mono; [by eapply connect_tcp_next_spec|]. intros [] w' [HI' Ho]. auto.
  - unfold uv_freeaddrinfo, load_connect. world_intro w.
    destruct (Core_abandon HI _ _ _ _ _ _ Hp) as (q & Hq & Hne & Hu & Hu' & HF & _).
    destruct (Core_owned_split HI _ _ Hp) as [l0 Hl]. unfold owned in Hl. cbn [contents] in Hl. subst l.
    wp_run; try done. rewrite !delete_insert_eq. split; [done|]. right. split; [done|].
    constructor; world_norm; first [done | locks_solve].
Qed.

Lemma connect_tcp_addrinfo_cb_spec w p port cb ai0 info0 rq status res :
  Inv w -> collecting w ->
  heap w !! p = Some (mkCell (TcpConnect cb ai0 info0 port) HNone rq) -> is_obj cb ->
  (0 <= status -> res <> []) ->
  wp (connect_tcp_addrinfo_cb p status res)
    (set_heap (<[p := mkCell (TcpConnect cb ai0 (0 <=? status) port) HNone None]> (heap w)) w)
    (fun _ w' => Inv w' /\
      ((0 <= status /\ connect_outcome p port cb res status w w') \/
       (status < 0 /\ objects w' = objects w /\ locks w = locks w' ⊎ lk cb /\ (exists q,
          heap w !! port = Some (mkCell (StreamPort q) (HOpen None) None) /\ heap w' = <[port := mkCell (StreamPort q) (HClosing Cb_close_stream) None]>
            (delete p (heap w))) /\
        g_callbacks w' = Scons (Scons cb (Scons (osi_make_error_pair "uv_getaddrinfo" status) Snil))
          (g_callbacks w)))).
Proof.
  intros HI Hcol Hp Hcb Hres. unfold connect_tcp_addrinfo_cb. destruct (Z.ltb_spec status 0).
  - unfold load_connect. world_intro w.
    destruct (Core_abandon HI _ _ _ _ _ _ Hp) as (q & Hq & Hne & Hu & _ & _ & HD).
    destruct (Core_owned_split HI _ _ Hp) as [l0 Hl]. unfold owned in Hl. cbn [contents] in Hl. subst l.
    wp_run; try done.
    rewrite delete_insert_ne, delete_insert_eq by done. split; [done|].
    right. split; [done|]. split; [done|]. split; [locks_eq|]. split; [by exists q|done].
  - destruct res as [|addr rest]; [by destruct Hres|].
    replace (0 <=? status) with true by (symmetry; apply Z.leb_le; lia).
    unfold set_ai, uv_tcp_connect, load_connect. world_intro w.
    destruct (Core_abandon HI _ _ _ _ _ _ Hp) as (q & Hq & Hne & Hu & Hu' & HF & _).
    wp_run.
    + pose proof (connect_tcp_cb_spec (mkWorld h n l m cbs sig tm td ans (S tk)) p port cb ai0 info0
        rest rq (Z.min 0 (ans tk)) HI Hcol Hp Hcb) as HC.
      unfold connecting, set_heap in HC. cbn [heap next locks objects g_callbacks deliver_signal timer
        timer_data answers tick] in HC.
      eapply wp_mono; [exact HC|]. intros [] w' [HI' [[_ [Ho Hout]]|[? _]]]; [|lia].
      split; [done|]. left. split; [done|]. split; [done|].
      destruct Hout as [(tried & a & rest' & -> & Hrest)|(q' & rc & Hrc' & Hrest)].
      * left. exists (addr :: tried), a, rest'. split; [done|]. exact Hrest.
      * right. exists q', rc. split; [destruct rest; lia|]. exact Hrest.
    + split; [|left; split; [done|]; split; [done|]; left; exists [], addr, rest; by repeat split].
      apply (Core_update HI _ _ _ _ Hp); [locks_solve| |done|done|by left].
      split; [done|]. split; [done|]. right. by exists addr.
Qed.

Lemma new_stream_ok m vt : vt = pipe_vtable \/ vt = tcp_vtable ->
  stream_ok m (new_stream_port vt) (HOpen None) None.
Proof. intros Hv. repeat split; try done; by left; auto. Qed.

Lemma new_stream_closing m vt : vt = pipe_vtable \/ vt = tcp_vtable ->
  stream_ok m (new_stream_port vt) (HClosing Cb_close_stream) None.
Proof.
  intros Hv. split; [done|]. split; [left; auto|]. split; [by left|]. right. split; [done|]. by left.
Qed.

Lemma osi_connect_tcp_spec w node service callback :
  Inv w -> is_obj callback ->
  wp (osi_connect_tcp node service callback) w (fun r w' => Inv w' /\
    objects w' = objects w /\ g_callbacks w' = g_callbacks w /\
    ((exists who rc, r = osi_make_error_pair who rc /\ rc < 0 /\ locks w' = locks w /\
        (heap w' = heap w \/ heap w' = <[next w + 1 :=
           mkCell (StreamPort (new_stream_port tcp_vtable)) (HClosing Cb_close_stream) None]> (heap w))) \/
     (r = Strue /\ locks w' = locks w ⊎ lk callback /\ heap w' =
        <[next w + 1 := mkCell (StreamPort (new_stream_port tcp_vtable)) (HOpen None) None]>
        (<[next w := mkCell (TcpConnect callback [] false (next w + 1)) HNone
            (Some (RGetaddrinfo node service))]> (heap w))))).
Proof.
  intros HI Hcb. unfold osi_connect_tcp. world_intro w.
  pose proof (Core_next_fresh _ _ _ _ n HI ltac:(lia)) as Hn.
  pose proof (Core_next_fresh _ _ _ _ (n + 1) HI ltac:(lia)) as Hn1.
  wp_run.
  - split; [core_same|]. repeat split. left. do 2 eexists. split; [done|]. by repeat split; auto.
  - heap_is h. split; [core_same|]. repeat split. left. do 2 eexists. split; [done|]. by repeat split; auto.
  - heap_is h. split; [core_same|]. repeat split. left. do 2 eexists. split; [done|].
    split; [exact Hrc|]. by repeat split; auto.
  - heap_is (<[n + 1 := mkCell (StreamPort (new_stream_port tcp_vtable)) (HClosing Cb_close_stream) None]> h).
    split; [apply (Core_alloc HI); [lia|locks_solve|apply new_stream_closing; by right|done]|].
    repeat split. left. do 2 eexists. split; [done|]. split; [exact Hrc0|]. split; [locks_eq|by right].
  - heap_is (<[n := mkCell (TcpConnect callback [] false (n + 1)) HNone (Some (RGetaddrinfo node service))]>
      (<[n + 1 := mkCell (StreamPort (new_stream_port tcp_vtable)) (HOpen None) None]> h)).
    split; [|repeat split; right; repeat split; heap_eq].
    assert (HP : Core (<[n + 1 := mkCell (StreamPort (new_stream_port tcp_vtable)) (HOpen None) None]> h)
      (n + 1 + 1) l m) by (apply (Core_alloc HI); [lia|locks_solve|apply new_stream_ok; by right|done]).
    apply (Core_insert_ref HP); [lia|lia|by rewrite lookup_insert_ne by lia|locks_solve| |].
    + split; [done|]. split; [done|]. left. by exists node, service.
    + intros p [= <-]. split.
      * apply unreferenced_insert; [by apply (Core_unused HI)|done].
      * eexists. rewrite lookup_insert_eq. split; [done|]. eexists. repeat split. by right.
Qed.

(** A connection that arrives becomes a new port for the listener's callback, or an error for
    it; the listener stays as it is. *)
Lemma listen_tcp_cb_spec w a cb status :
  Inv w -> collecting w ->
  heap w !! a = Some (mkCell (UvTcp cb) (HOpen (Some Cb_listen_tcp)) None) ->
  wp (listen_tcp_cb a status) w (fun _ w' => Inv w' /\ locks w' = locks w /\ objects w' = objects w /\
    exists arg, g_callbacks w' = Scons (Scons cb (Scons arg Snil)) (g_callbacks w) /\
      ((exists who rc, rc < 0 /\ arg = osi_make_error_pair who rc /\
          (heap w' = heap w \/ heap w' = <[next w := mkCell (StreamPort (new_stream_port tcp_vtable))
             (HClosing Cb_close_stream) None]> (heap w))) \/
       (arg = Sint (next w) /\ heap w' =
          <[next w := mkCell (StreamPort (new_stream_port tcp_vtable)) (HOpen None) None]> (heap w)))).
Proof.
  intros HI Hcol Ha. unfold listen_tcp_cb, load_data. world_intro w.
  pose proof (Core_next_fresh _ _ _ _ n HI ltac:(lia)) as Hn.
  destruct (Z.ltb_spec status 0).
  { wp_run; try done. split; [done|]. repeat split. eexists. split; [done|]. left.
    exists "uv_listen"%string, status. by repeat split; auto. }
  wp_run; try done.
  - split; [core_same|]. repeat split. eexists. split; [done|]. left.
    exists "uv_listen"%string, UV_ENOMEM. by repeat split; auto.
  - heap_is h. split; [core_same|]. repeat split. eexists. split; [done|]. left.
    exists "uv_tcp_init"%string, (Z.min 0 (ans (S tk))). split; [done|]. split; [done|]. left. heap_eq.
  - apply wp_uv_result. world_norm.
    destruct (Z.ltb_spec (Z.min 0 (ans (S (S tk)))) 0); wp_run; try done.
    + split; [apply (Core_alloc HI); [lia|locks_solve|apply new_stream_closing; by right|done]|].
      repeat split. eexists. split; [done|]. left.
      exists "uv_accept"%string, (Z.min 0 (ans (S (S tk)))). by repeat split; auto.
    + split; [apply (Core_alloc HI); [lia|locks_solve|apply new_stream_ok; by right|done]|].
      repeat split. eexists. split; [done|]. by right.
Qed.

Lemma osi_listen_tcp_spec w address port callback :
  Inv w -> is_obj callback ->
  wp (osi_listen_tcp address port callback) w (fun r w' => Inv w' /\
    handle_created UvTcp Cb_listen_tcp callback w r w').
Proof.
  intros HI Hcb. unfold osi_listen_tcp. world_intro w.
  pose proof (Core_next_fresh _ _ _ _ n HI ltac:(lia)) as Hn.
  apply wp_bind, wp_uv_result. world_norm.
  destruct (Z.ltb_spec (Z.min 0 (ans tk)) 0).
  { apply wp_ret. split; [done|]. left. do 2 eexists. created_end HI. }
  wp_run; heap_norm.
  - split; [core_same|]. left. do 2 eexists. created_end HI.
  - split; [core_same|]. left. do 2 eexists. created_end HI.
  - apply wp_uv_result. world_norm.
    destruct (Z.ltb_spec (Z.min 0 (ans (S (S (S tk))))) 0); wp_run; heap_norm.
    + split; [apply (Core_alloc HI); [lia|locks_solve| |done]; split; [done|]; right; by split; [|left]|].
      right; left. do 3 eexists. split; [done|]. split; [done|]. split; [by left|]. created_end HI.
    + split; [apply (Core_alloc HI); [lia|locks_solve| |done]; split; [done|]; right; by split; [|right]|].
      right; left. do 3 eexists. split; [done|]. split; [exact Hrc0|]. split; [by right|]. created_end HI.
    + split; [apply (Core_alloc HI); [lia|locks_solve| |done]; split; [done|]; by left|].
      right; right. created_end HI.
Qed.

Lemma osi_close_tcp_listener_spec w a cb :
  Inv w -> heap w !! a = Some (mkCell (UvTcp cb) (HOpen (Some Cb_listen_tcp)) None) ->
  wp (osi_close_tcp_listener a) w (fun _ w' => Inv w' /\ locks w' = locks w /\
    updated a (mkCell (UvTcp cb) (HClosing Cb_close_handle_data) None) w w').
Proof.
  intros HI Ha. unfold osi_close_tcp_listener. world_intro w.
  pose proof (core_cells _ _ _ _ HI a _ Ha) as [_ [[_ Hd]|[[=] _]]]. cbn in Hd.
  wp_run. split; [|by repeat split].
  apply (Core_update HI _ _ _ _ Ha); [locks_solve| |done|done|].
  - split; [done|]. right. by split; [|right].
  - left. by apply (Core_unreferenced HI a _ Ha).
Qed.

(** ** Properties *)

(** Theorem: the text of a peer address is the name, a colon and the port (with brackets around an
    IPv6 name): the sizes passed to the name functions leave room for the rest, so that
    [snprintf] never cuts the text and the 256 bytes are never exceeded. *)
Theorem ip_address_text w port p hd rq rc addr :
  heap w !! port = Some (mkCell (StreamPort p) hd rq) -> sp_vtable p = tcp_vtable -> 0 <= rc ->
  match addr with
  | Inet name n | Inet6 name n => is_uint 16 n
  | OtherFamily => True
  end ->
  exists r, osi_get_ip_address port (rc, addr) w = Some (r, w) /\
    match addr with
    | Inet name n =>
      r = osi_make_error_pair "uv_ip4_name" UV_ENOSPC /\ 250 <= Z.of_nat (length name) \/
      exists text, r = Sutf8 text /\ text = name ++ [58] ++ format_d n /\
        Z.of_nat (length text) < 256 /\ read_d (format_d n) = n
    | Inet6 name n =>
      r = osi_make_error_pair "uv_ip6_name" UV_ENOSPC /\ 248 <= Z.of_nat (length name) \/
      exists text, r = Sutf8 text /\ text = [91] ++ name ++ [93; 58] ++ format_d n /\
        Z.of_nat (length text) < 256 /\ read_d (format_d n) = n
    | OtherFamily => r = osi_make_error_pair "osi_get_ip_address" UV_EAI_FAMILY
    end.
Proof.
  intros Ha Hv Hrc Haddr. apply wp_pure. unfold osi_get_ip_address, load_vtable.
  apply wp_bind, wp_bind. eapply wp_load; [exact Ha|]. cbn [contents]. apply wp_ret. rewrite Hv.
  destruct (Z.ltb_spec rc 0); [lia|].
  assert (Hd : forall n, is_uint 16 n -> (length (format_d n) <= 5)%nat /\ read_d (format_d n) = n).
  { intros n Hn. destruct (format_d_spec n) as [H1 _]; [width_lia|]. split; [|done].
    unfold format_d. destruct (Z.ltb_spec n 0); [unfold is_uint in Hn; lia|].
    apply length_digits; [lia|]. unfold is_uint in Hn. cbn in Hn |- *. lia. }
  destruct addr as [name n|name n|]; [| |by apply wp_ret];
    destruct (Hd n Haddr) as [Hlen Hrd]; unfold name_result; destruct (fits _ name) eqn:E.
  - change (0 <? 0) with false. cbv iota. apply wp_ret. split; [|done]. right.
    unfold fits in E. bool_to_prop. eexists. split; [done|].
    rewrite snprintf_fits by (unfold fits; apply Z.ltb_lt; cbn [length]; lia).
    split; [done|]. split; [rewrite length_app; cbn [length]; lia|done].
  - apply wp_ret. split; [|done]. left. split; [done|]. unfold fits in E. bool_to_prop. lia.
  - change (0 <? 0) with false. cbv iota zeta. apply wp_ret. split; [|done]. right.
    unfold fits in E. bool_to_prop. eexists. split; [done|].
    rewrite snprintf_fits by (unfold fits; apply Z.ltb_lt; cbn [length]; lia).
    split; [by cbn|]. split; [cbn [app length]; rewrite length_app; cbn [length]; lia|done].
  - apply wp_ret. split; [|done]. left. split; [done|]. unfold fits in E. bool_to_prop. lia.
Qed.

Lemma ip_address_text_witness :
  exists text, osi_get_ip_address 1 (0, Inet6 [58; 58; 49] 8080)
    (set_heap {[1 := mkCell (StreamPort (new_stream_port tcp_vtable)) (HOpen None) None]}
       (empty_world ∅ (fun _ => 1))) = Some (Sutf8 text, set_heap
         {[1 := mkCell (StreamPort (new_stream_port tcp_vtable)) (HOpen None) None]}
         (empty_world ∅ (fun _ => 1))) /\
    text = [91; 58; 58; 49; 93; 58; 56; 48; 56; 48].
Proof.
  destruct (ip_address_text (set_heap
    {[1 := mkCell (StreamPort (new_stream_port tcp_vtable)) (HOpen None) None]}
    (empty_world ∅ (fun _ => 1))) 1 (new_stream_port tcp_vtable) (HOpen None) None 0
    (Inet6 [58; 58; 49] 8080)) as (r & Hr & [[_ Hlen]|(text & -> & Ht & _)]);
    [reflexivity|reflexivity|lia|unfold is_uint; lia| |].
  - cbn in Hlen. lia.
  - exists text. split; [exact Hr|]. rewrite Ht. vm_compute. reflexivity.
Defined.
