(* ===== verification/Process.v ===== *)
(** * Process: child processes

    [osi_spawn] and [osi_spawn_detached] (osi.c lines 659-686 and 839-1014): the argument
    vector is built from a Scheme list by converting each string to UTF-8, three pipes are
    created for the child, and the process handle delivers the exit status to the callback. *)

From S2P Require Export Tcp.
From S2P Require Import Utf8.

(** ** Definitions *)

(** The loop of [string_list_length]: [None] is -1. *)
Fixpoint string_list_length_from (n : Z) (x : ptr) : Z :=
  match x with
  | Scons (Sstring _) d => string_list_length_from (n + 1) d
  | Scons _ _ => -1
  | Snil => n
  | _ => -1
  end.
Definition string_list_length (x : ptr) : Z := string_list_length_from 0 x.

(** The pointer [path] within an argument vector, which the vector does not own. *)
Definition path_pointer : Z := -1.
(** An element of the vector before it is written. *)
Definition garbage : Z := -2.

Definition load_argv (a : Z) : M (list Z) :=
  o ← load a; match o with Argv l => mret l | _ => undefined end.
(** [argv[i] = v]. *)
Definition argv_set (a : Z) (i : nat) (v : Z) : M unit :=
  l ← load_argv a;
  _ ← require (bool_decide (i < length l)%nat);
  store a (Argv (<[i := v]> l)).

(** [osi_string_to_utf8]: the address of the block, [None] when memory is exhausted. *)
Definition string_to_utf8 (s : ptr) : M (option Z) :=
  match s with
  | Sstring chars =>
    z ← ask;
    match osi_string_to_utf8
      (fun n => if z =? 0 then None else Some (replicate (Z.to_nat n) 0)) chars with
    | Some (Some bytes, _) =>
      w ← get;
      _ ← modify (fun w => set_next (next w + 1)
                   (set_heap (<[next w := mkCell (Chars bytes) HNone None]> (heap w)) w));
      mret (Some (next w))
    | Some (None, _) => mret None
    | None => undefined
    end
  | _ => undefined
  end.

(** The loop that fills the vector from index [i]; the index after the last written one. *)
Fixpoint fill_argv (argv : Z) (i : nat) (x : ptr) : M nat :=
  match x with
  | Scons a d =>
    r ← string_to_utf8 a;
    match r with
    | Some s => _ ← argv_set argv i s; fill_argv argv (S i) d
    | None => _ ← argv_set argv i 0; mret (S i)
    end
  | _ => mret i
  end.

Definition build_argv (argv : Z) (args : ptr) : M unit :=
  _ ← argv_set argv 0 path_pointer;
  i ← fill_argv argv 1 args;
  argv_set argv i 0.

(** The loop of [free_argv], over the vector from its second element. *)
Fixpoint free_args (l : list Z) : M unit :=
  match l with
  | [] => undefined
  | a :: l => if a =? 0 then mret tt else _ ← free a; free_args l
  end.
Definition free_argv (argv : Z) : M unit :=
  l ← load_argv argv;
  _ ← free_args (drop 1 l);
  free argv.

(** What [uv_spawn] reads: the C strings of the vector. *)
Definition load_chars (a : Z) : M (list Z) :=
  o ← load a;
  match o with
  | Chars b => match c_string b with Some s => mret s | None => undefined end
  | _ => undefined
  end.
Fixpoint read_args (path : list Z) (l : list Z) : M (list (list Z)) :=
  match l with
  | [] => undefined
  | a :: l =>
    if a =? 0 then mret [] else
    s ← (if a =? path_pointer then mret path else load_chars a);
    rest ← read_args path l;
    mret (s :: rest)
  end.

(** [uv_spawn]: the handle is initialised even when it fails; the process identifier is set
    when it succeeds. *)
Definition uv_spawn (p : Z) (path : list Z) (argv : Z) : M Z :=
  l ← load_argv argv;
  command ← read_args path l;
  c ← load_cell p;
  _ ← require (quiet c);
  rc ← uv_result;
  pid ← ask;
  match contents c with
  | UvProcess data _ _ =>
    if rc <? 0 then
      _ ← set_handle p (HOpen None); mret rc
    else
      _ ← store_cell p (mkCell (UvProcess data (i32 pid) command) (HOpen (Some Cb_process_exit)) None);
      mret rc
  | _ => undefined
  end.

Definition load_process (a : Z) : M (ptr * Z) :=
  o ← load a; match o with UvProcess data pid _ => mret (data, pid) | _ => undefined end.
Definition set_data (a : Z) (data : ptr) : M unit :=
  o ← load a;
  match o with UvProcess _ pid cmd => store a (UvProcess data pid cmd) | _ => undefined end.

Definition process_exit_cb (a : Z) (exit_status term_signal : Z) : M unit :=
  '(callback, pid) ← load_process a;
  b ← truthy callback;
  _ ← (if b : bool then
         _ ← osi_add_callback3 callback (Sinteger32 pid) (Sint exit_status) (Sinteger32 term_signal);
         _ ← Sunlock_object callback;
         set_data a NULL
       else mret tt);
  uv_close a Cb_close_handle_data.

(** One of the three pipes of a child: [cleanup] closes those created before it. *)
Definition spawn_pipe (cleanup : M unit) (k : Z -> M ptr) : M ptr :=
  r ← malloc (StreamPort raw_stream_port);
  match r with
  | None => _ ← cleanup; mret (osi_make_error_pair "osi_spawn" UV_ENOMEM)
  | Some port =>
    _ ← store port (StreamPort (new_stream_port pipe_vtable));
    rc ← uv_handle_init port;
    if rc <? 0 then
      _ ← cleanup;
      _ ← free port;
      mret (osi_make_error_pair "uv_pipe_init" rc)
    else k port
  end.

Definition close_pipe (port : Z) : M unit := uv_close port Cb_close_stream.

(** The part of [osi_spawn] after the pipes. *)
Definition spawn_process (path : list Z) (args : ptr) (argc : Z) (callback : ptr)
    (in_port out_port err_port : Z) : M ptr :=
  let close_all := (_ ← close_pipe in_port; _ ← close_pipe out_port; close_pipe err_port) in
  r ← malloc (Argv (replicate (Z.to_nat (argc + 2)) garbage));
  match r with
  | None => _ ← close_all; mret (osi_make_error_pair "osi_spawn" UV_ENOMEM)
  | Some argv =>
    _ ← build_argv argv args;
    r ← malloc (UvProcess Sundef 0 []);
    match r with
    | None =>
      _ ← close_all;
      _ ← free_argv argv;
      mret (osi_make_error_pair "osi_spawn" UV_ENOMEM)
    | Some p =>
      _ ← Slock_object callback;
      _ ← set_data p callback;
      rc ← uv_spawn p path argv;
      _ ← free_argv argv;
      if rc <? 0 then
        _ ← close_all;
        _ ← uv_close p Cb_close_handle_data;
        mret (osi_make_error_pair "uv_spawn" rc)
      else
        '(_, pid) ← load_process p;
        mret (Svector [Sint in_port; Sint out_port; Sint err_port; Sinteger32 pid])
    end
  end.

Definition osi_spawn (path : list Z) (args callback : ptr) : M ptr :=
  let argc := string_list_length args in
  if argc <? 0 then mret (osi_make_error_pair "osi_spawn" UV_EINVAL) else
  spawn_pipe (mret tt) (fun in_port =>
  spawn_pipe (close_pipe in_port) (fun out_port =>
  spawn_pipe (_ ← close_pipe in_port; close_pipe out_port) (fun err_port =>
  spawn_process path args argc callback in_port out_port err_port))).

Definition osi_spawn_detached (path : list Z) (args : ptr) : M ptr :=
  let argc := string_list_length args in
  if argc <? 0 then mret (osi_make_error_pair "osi_spawn_detached" UV_EINVAL) else
  r ← malloc (Argv (replicate (Z.to_nat (argc + 2)) garbage));
  match r with
  | None => mret (osi_make_error_pair "osi_spawn_detached" UV_ENOMEM)
  | Some argv =>
    _ ← build_argv argv args;
    r ← malloc (UvProcess Sundef 0 []);
    match r with
    | None =>
      _ ← free_argv argv;
      mret (osi_make_error_pair "osi_spawn_detached" UV_ENOMEM)
    | Some p =>
      _ ← set_data p NULL;
      rc ← uv_spawn p path argv;
      _ ← free_argv argv;
      if rc <? 0 then
        _ ← uv_close p Cb_close_handle_data;
        mret (osi_make_error_pair "uv_spawn" rc)
      else
        '(_, pid) ← load_process p;
        mret (Sinteger32 pid)
    end
  end.

Definition osi_kill (pid signum : Z) : M ptr :=
  rc ← uv_result;
  if rc <? 0 then mret (osi_make_error_pair "uv_kill" rc) else mret Strue.

(** ** Argument vectors *)

(** The strings of a proper list of strings. *)
Fixpoint scheme_strings (x : ptr) : option (list (list Z)) :=
  match x with
  | Snil => Some []
  | Scons (Sstring s) d => l ← scheme_strings d; Some (s :: l)
  | _ => None
  end.

Lemma string_list_length_from_spec x : forall n, 0 <= n ->
  string_list_length_from n x =
    match scheme_strings x with Some l => n + Z.of_nat (length l) | None => -1 end.
Proof.
  induction x as [| | | | | |a IHa d IHd| | |]; intros n Hn; try done; [cbn; lia|].
  destruct a; try done. cbn [string_list_length_from scheme_strings].
  rewrite IHd by lia. destruct (scheme_strings d) as [l|]; [|done].
  rewrite bind_Some. cbn [length]. lia.
Qed.

Lemma string_list_length_spec x : string_list_length x =
  match scheme_strings x with Some l => Z.of_nat (length l) | None => -1 end.
Proof. unfold string_list_length. by rewrite string_list_length_from_spec. Qed.

Definition c_bytes (s : list Z) : list Z := Rfc3629.encode s ++ [0].

(** The blocks of the converted strings, at consecutive addresses. *)
Fixpoint put_chars (n : Z) (strs : list (list Z)) (h : gmap Z cell) : gmap Z cell :=
  match strs with
  | [] => h
  | s :: strs => put_chars (n + 1) strs (<[n := mkCell (Chars (c_bytes s)) HNone None]> h)
  end.

Lemma put_chars_insert n strs : forall h a c, a < n ->
  put_chars n strs (<[a := c]> h) = <[a := c]> (put_chars n strs h).
Proof.
  revert n. induction strs as [|s strs IH]; intros n h a c Ha; [done|]. cbn [put_chars].
  rewrite insert_insert_ne by lia. apply IH. lia.
Qed.

Lemma lookup_put_chars_out n strs : forall h a, a < n \/ n + Z.of_nat (length strs) <= a ->
  put_chars n strs h !! a = h !! a.
Proof.
  revert n. induction strs as [|s strs IH]; intros n h a Ha; [done|]. cbn [put_chars length] in *.
  rewrite IH by lia. apply lookup_insert_ne. lia.
Qed.

Lemma lookup_put_chars_in n strs : forall h i s, strs !! i = Some s ->
  put_chars n strs h !! (n + Z.of_nat i) = Some (mkCell (Chars (c_bytes s)) HNone None).
Proof.
  revert n. induction strs as [|x strs IH]; intros n h i s Hi; [done|]. cbn [put_chars].
  destruct i as [|i]; cbn in Hi.
  - injection Hi as ->. rewrite lookup_put_chars_out by lia.
    rewrite Z.add_0_r. apply lookup_insert_eq.
  - replace (n + Z.of_nat (S i)) with (n + 1 + Z.of_nat i) by lia. by apply IH.
Qed.

(** Converting one string. *)
Lemma string_to_utf8_spec w s (Q : option Z -> world -> Prop) :
  valid_string s ->
  (answers w (tick w) = 0 -> Q None (ticked w)) ->
  (answers w (tick w) <> 0 -> Q (Some (next w)) (alloc (Chars (c_bytes s)) (ticked w))) ->
  wp (string_to_utf8 (Sstring s)) w Q.
Proof.
  intros [Hs Hl] H0 H1. unfold string_to_utf8. apply wp_bind, wp_ask.
  rewrite osi_string_to_utf8_spec; [|intros n b Hn|done|done].
  - destruct (Z.eqb_spec (answers w (tick w)) 0); [by apply H0|].
    apply wp_bind, wp_get, wp_bind, wp_modify, wp_ret. by apply H1.
  - destruct (_ =? 0); [done|]. intros [= <-]. rewrite length_replicate. lia.
Qed.

(** What a sequence of allocations leaves unchanged. *)
Record frame (w w' : world) : Prop := {
  frame_locks : locks w' = locks w;
  frame_objects : objects w' = objects w;
  frame_callbacks : g_callbacks w' = g_callbacks w;
  frame_timer : timer w' = timer w /\ timer_data w' = timer_data w;
  frame_answers : answers w' = answers w
}.

(** [k] strings are converted before memory is exhausted, if it is. *)
Definition converted (w : world) (k total : nat) : Prop :=
  (k <= total)%nat /\ (forall i, (i < k)%nat -> answers w (tick w + i)%nat <> 0) /\
  ((k < total)%nat -> answers w (tick w + k)%nat = 0).

Lemma fill_argv_spec strs : forall x w argv i l,
  scheme_strings x = Some strs -> Forall valid_string strs ->
  heap w !! argv = Some (mkCell (Argv l) HNone None) -> (i + length strs < length l)%nat ->
  argv < next w -> (forall a, next w <= a -> heap w !! a = None) ->
  wp (fill_argv argv i x) w (fun j w' => exists k,
    converted w k (length strs) /\ frame w w' /\ next w' = next w + Z.of_nat k /\
    exists rest, length rest = (length l - i - k)%nat /\
    heap w' = put_chars (next w) (take k strs)
      (<[argv := mkCell (Argv (take i l ++ seqZ (next w) (Z.of_nat k) ++ rest)) HNone None]> (heap w)) /\
    (j = (i + k)%nat \/ j = S (i + k) /\ (k < length strs)%nat /\ exists r, rest = 0 :: r)).
Proof.
  induction strs as [|s strs IH]; intros x w argv i l Hx Hv Ha Hlen Hlt Hfresh.
  - assert (x = Snil) as ->
      by (destruct x as [| | | | | |a d| | |]; try done; destruct a; try done; cbn in Hx;
          by destruct (scheme_strings d)).
    apply wp_ret. exists 0%nat. split; [split; [done|split; intros; cbn in *; lia]|].
    split; [by constructor|]. split; [lia|].
    exists (drop i l). rewrite length_drop. split; [cbn; lia|]. change (seqZ (next w) (Z.of_nat 0)) with (@nil Z).
    cbn [take put_chars app]. rewrite take_drop, insert_id by done. split; [done|]. left. lia.
  - destruct x as [| | | | | |a d| | |]; try done. destruct a; try done. cbn in Hx.
    destruct (scheme_strings d) as [strs'|] eqn:Ed; [|done]. injection Hx as -> ->.
    apply Forall_cons in Hv as [Hs Hv]. cbn [fill_argv length] in *.
    apply wp_bind, string_to_utf8_spec; [done| |]; intros Hans.
    + unfold argv_set, load_argv. apply wp_bind, wp_bind, wp_bind.
      eapply wp_load; [exact Ha|]. cbn [contents]. apply wp_ret, wp_bind, wp_require.
      { apply bool_decide_eq_true. lia. }
      eapply wp_store; [exact Ha|]. apply wp_ret. exists 0%nat.
      split; [split; [lia|split; intros; [lia|by rewrite Nat.add_0_r]]|].
      split; [by constructor|]. split; [cbn; lia|]. exists (0 :: drop (S i) l).
      split; [cbn [length]; rewrite length_drop; lia|].
      change (seqZ (next w) (Z.of_nat 0)) with (@nil Z). cbn [take put_chars app handle request].
      split; [|right; split; [lia|]; split; [lia|by eexists]].
      f_equal. do 3 f_equal. rewrite insert_take_drop by lia. done.
    + unfold argv_set, load_argv. apply wp_bind, wp_bind, wp_bind.
      assert (Ha1 : heap (alloc (Chars (c_bytes s)) (ticked w)) !! argv =
        Some (mkCell (Argv l) HNone None)) by (cbn; by rewrite lookup_insert_ne by lia).
      eapply wp_load; [exact Ha1|]. cbn [contents]. apply wp_ret, wp_bind, wp_require.
      { apply bool_decide_eq_true. lia. }
      eapply wp_store; [exact Ha1|]. cbn [handle request].
      eapply wp_mono.
      { apply (IH d _ argv (S i) (<[i := next w]> l)); [done|done| | | |].
        - cbn. apply lookup_insert_eq.
        - rewrite length_insert. lia.
        - cbn. lia.
        - cbn. intros a Han. rewrite !lookup_insert_ne by lia. apply Hfresh. lia. }
      intros j w' (k & (Hk1 & Hk2 & Hk3) & Hfr & Hnext & rest & Hrest & Hh & Hj). exists (S k).
      cbn [answers tick next heap set_heap alloc set_next ticked set_tick] in *.
      split; [|split; [|split; [lia|]]].
      * split; [lia|]. split.
        -- intros [|i'] Hi'; [by rewrite Nat.add_0_r|].
           rewrite <- Nat.add_succ_comm. apply Hk2. lia.
        -- intros Hk. rewrite <- Nat.add_succ_comm. apply Hk3. lia.
      * destruct Hfr. by constructor.
      * exists rest. rewrite length_insert in Hrest. split; [lia|].
        replace (S i + k)%nat with (i + S k)%nat in Hj by lia.
        split; [|destruct Hj as [Hj|(Hj & Hkt & Hr)]; [by left|right; split; [done|split; [lia|done]]]].
        rewrite Hh. cbn [take put_chars]. rewrite !put_chars_insert by lia.
        rewrite !(insert_insert_ne _ (next w) argv) by lia. rewrite !insert_insert_eq.
        assert (El : take (S i) (<[i := next w]> l) ++ seqZ (next w + 1) (Z.of_nat k) ++ rest =
          take i l ++ seqZ (next w) (Z.of_nat (S k)) ++ rest).
        { rewrite take_insert_snoc, <- app_assoc by lia. f_equal.
          rewrite Nat2Z.inj_succ, (seqZ_cons (next w)) by lia. cbn [app].
          replace (Z.succ (next w)) with (next w + 1) by lia.
          by replace (Z.pred (Z.succ (Z.of_nat k))) with (Z.of_nat k) by lia. }
        by rewrite El.
Qed.

(** The finished vector: the path, the addresses of the converted strings and the NULL. *)
Lemma build_argv_spec w argv args strs l :
  scheme_strings args = Some strs -> Forall valid_string strs ->
  heap w !! argv = Some (mkCell (Argv l) HNone None) -> (length strs + 2 = length l)%nat ->
  argv < next w -> (forall a, next w <= a -> heap w !! a = None) ->
  wp (build_argv argv args) w (fun _ w' => exists k rest,
    converted w k (length strs) /\ frame w w' /\ next w' = next w + Z.of_nat k /\
    heap w' = put_chars (next w) (take k strs) (<[argv := mkCell
      (Argv (path_pointer :: seqZ (next w) (Z.of_nat k) ++ 0 :: rest)) HNone None]> (heap w))).
Proof.
  intros Hx Hv Ha Hlen Hlt Hfresh. unfold build_argv. apply wp_bind. unfold argv_set at 1, load_argv.
  apply wp_bind, wp_bind. eapply wp_load; [exact Ha|]. apply wp_ret, wp_bind, wp_require.
  { apply bool_decide_eq_true. lia. }
  eapply wp_store; [exact Ha|]. cbn [handle request].
  destruct l as [|x0 l]; [cbn in Hlen; lia|]. cbn [insert list_insert length] in *.
  eapply wp_bind, wp_mono.
  { apply (fill_argv_spec strs args _ argv 1 (path_pointer :: l)); try done.
    - cbn. apply lookup_insert_eq.
    - cbn [length]. lia.
    - cbn. intros a Han. rewrite lookup_insert_ne by lia. by apply Hfresh. }
  intros j w' (k & Hconv & Hfr & Hnext & rest & Hrest & Hh & Hj).
  pose proof Hconv as (Hk1 & _ & Hk3).
  cbn [next heap set_heap length take] in *. unfold argv_set, load_argv.
  rewrite insert_insert_eq in Hh.
  assert (Ha' : heap w' !! argv = Some (mkCell (Argv (path_pointer ::
    seqZ (next w) (Z.of_nat k) ++ rest)) HNone None))
    by (rewrite Hh, put_chars_insert by lia; apply lookup_insert_eq).
  apply wp_bind, wp_bind. eapply wp_load; [exact Ha'|]. apply wp_ret, wp_bind, wp_require.
  { apply bool_decide_eq_true. cbn [length]. rewrite length_app, length_seqZ. lia. }
  eapply wp_store; [exact Ha'|]. cbn [handle request take app].
  assert (Hr : exists rest', <[j := 0]> (path_pointer :: seqZ (next w) (Z.of_nat k) ++ rest) =
    path_pointer :: seqZ (next w) (Z.of_nat k) ++ 0 :: rest').
  { destruct rest as [|r rest]; [cbn in Hrest; lia|].
    assert (Es : forall i (x v : Z) l, <[S i := v]> (x :: l) = x :: <[i := v]> l) by done.
    destruct Hj as [->|(-> & Hkt & r' & [= -> ->])];
      [change (1 + k)%nat with (S k)|change (S (1 + k)) with (S (S k))]; rewrite Es.
    - exists rest. f_equal. rewrite insert_app_r_alt by (rewrite length_seqZ; lia).
      by rewrite length_seqZ, Nat2Z.id, Nat.sub_diag.
    - destruct r' as [|r' rest]; [cbn in Hrest; lia|]. exists (0 :: rest). f_equal.
      rewrite insert_app_r_alt by (rewrite length_seqZ; lia).
      rewrite length_seqZ, Nat2Z.id, Nat.sub_succ_l, Nat.sub_diag by lia. done. }
  destruct Hr as [rest' ->]. exists k, rest'. split; [done|].
  split; [destruct Hfr; by constructor|]. split; [done|]. cbn [heap set_heap].
  rewrite Hh, !put_chars_insert, insert_insert_eq by lia. done.
Qed.

(** ** Freeing the vector *)

Fixpoint del_range (n : Z) (k : nat) (h : gmap Z cell) : gmap Z cell :=
  match k with O => h | S k => del_range (n + 1) k (delete n h) end.

Lemma lookup_del_range k : forall n h a,
  del_range n k h !! a = if decide (n <= a < n + Z.of_nat k) then None else h !! a.
Proof.
  induction k as [|k IH]; intros n h a; cbn [del_range]; [case_decide; [lia|done]|].
  rewrite IH, lookup_delete. repeat case_decide; try done; lia.
Qed.

Lemma lookup_put_chars n strs h a : put_chars n strs h !! a =
  if decide (n <= a < n + Z.of_nat (length strs))
  then (fun s => mkCell (Chars (c_bytes s)) HNone None) <$> strs !! Z.to_nat (a - n)
  else h !! a.
Proof.
  case_decide; [|by apply lookup_put_chars_out; lia].
  destruct (lookup_lt_is_Some_2 strs (Z.to_nat (a - n))) as [s Hs]; [lia|]. rewrite Hs.
  transitivity (put_chars n strs h !! (n + Z.of_nat (Z.to_nat (a - n)))); [f_equal; lia|].
  by rewrite (lookup_put_chars_in n strs h _ s Hs).
Qed.

Lemma free_args_spec k : forall n rest w,
  0 < n -> (forall i, (i < k)%nat -> exists b,
    heap w !! (n + Z.of_nat i) = Some (mkCell (Chars b) HNone None)) ->
  wp (free_args (seqZ n (Z.of_nat k) ++ 0 :: rest)) w
    (fun _ w' => w' = set_heap (del_range n k (heap w)) w).
Proof.
  induction k as [|k IH]; intros n rest w Hn Hc.
  - cbn. by destruct w.
  - rewrite Nat2Z.inj_succ, seqZ_cons by lia. cbn [app free_args].
    destruct (Z.eqb_spec n 0); [lia|]. destruct (Hc 0%nat) as [b Hb]; [lia|].
    rewrite Z.add_0_r in Hb. apply wp_bind. eapply wp_free; [exact Hb|done|].
    replace (Z.pred (Z.succ (Z.of_nat k))) with (Z.of_nat k) by lia.
    replace (Z.succ n) with (n + 1) by lia.
    eapply wp_mono; [apply IH; [lia|]|].
    + intros i Hi. destruct (Hc (S i)) as [b' Hb']; [lia|]. exists b'. cbn [heap set_heap].
      rewrite lookup_delete_ne by lia. by replace (n + 1 + Z.of_nat i) with (n + Z.of_nat (S i)) by lia.
    + intros [] w' ->. done.
Qed.

(** The vector [argv] with the strings [strs] at the addresses from [n]. *)
Record vector (h : gmap Z cell) (argv n : Z) (strs : list (list Z)) : Prop := {
  vector_cell : exists rest, h !! argv = Some (mkCell
    (Argv (path_pointer :: seqZ n (Z.of_nat (length strs)) ++ 0 :: rest)) HNone None);
  vector_strings : forall i s, strs !! i = Some s ->
    h !! (n + Z.of_nat i) = Some (mkCell (Chars (c_bytes s)) HNone None);
  vector_order : 0 < argv < n
}.

Lemma vector_insert h argv n strs a c :
  vector h argv n strs -> a <> argv -> ~ (n <= a < n + Z.of_nat (length strs)) ->
  vector (<[a := c]> h) argv n strs.
Proof.
  intros [[rest Ha] Hs Ho] Hne Hout. constructor; [| |done].
  - exists rest. by rewrite lookup_insert_ne.
  - intros i s Hi. pose proof (lookup_lt_Some _ _ _ Hi). rewrite lookup_insert_ne by lia. by apply Hs.
Qed.

Lemma free_argv_spec w argv n strs :
  vector (heap w) argv n strs ->
  wp (free_argv argv) w
    (fun _ w' => w' = set_heap (delete argv (del_range n (length strs) (heap w))) w).
Proof.
  intros [[rest Ha] Hs Ho]. unfold free_argv, load_argv. apply wp_bind, wp_bind.
  eapply wp_load; [exact Ha|]. apply wp_ret. cbn [drop]. rewrite drop_0. apply wp_bind.
  eapply wp_mono; [apply free_args_spec; [lia|]|].
  - intros i Hi. destruct (lookup_lt_is_Some_2 strs i Hi) as [s Hi']. exists (c_bytes s). by apply Hs.
  - intros [] w' ->. eapply wp_free;
      [cbn [heap set_heap]; rewrite lookup_del_range, decide_False by lia; exact Ha|done|done].
Qed.

(** What the child is given. *)
Definition command (path : list Z) (strs : list (list Z)) : list (list Z) :=
  path :: map (fun s => Rfc3629.encode (before_nul s)) strs.

Lemma read_args_spec strs : forall path n rest w,
  0 < n -> Forall valid_string strs -> (forall i s, strs !! i = Some s ->
    heap w !! (n + Z.of_nat i) = Some (mkCell (Chars (c_bytes s)) HNone None)) ->
  wp (read_args path (seqZ n (Z.of_nat (length strs)) ++ 0 :: rest)) w (fun r w' =>
    r = map (fun s => Rfc3629.encode (before_nul s)) strs /\ w' = w).
Proof.
  induction strs as [|s strs IH]; intros path n rest w Hn Hv Hs; [done|].
  apply Forall_cons in Hv as [[Hv _] Hvs]. cbn [length].
  rewrite Nat2Z.inj_succ, seqZ_cons by lia. cbn [app read_args].
  destruct (Z.eqb_spec n 0); [lia|]. destruct (Z.eqb_spec n path_pointer) as [E|_];
    [unfold path_pointer in E; lia|].
  unfold load_chars. apply wp_bind, wp_bind.
  eapply wp_load; [rewrite <- (Z.add_0_r n); by apply (Hs 0%nat)|]. cbn [contents].
  unfold c_bytes. rewrite c_string_encode by done. apply wp_ret, wp_bind.
  replace (Z.pred (Z.succ (Z.of_nat (length strs)))) with (Z.of_nat (length strs)) by lia.
  replace (Z.succ n) with (n + 1) by lia.
  eapply wp_mono; [apply IH; [lia|done|]|].
  - intros i x Hx. replace (n + 1 + Z.of_nat i) with (n + Z.of_nat (S i)) by lia. by apply Hs.
  - intros r w' [-> ->]. by apply wp_ret.
Qed.

(** Running the child and freeing the vector. *)
Lemma uv_spawn_spec w p path argv n strs data (Q : Z -> world -> Prop) :
  vector (heap w) argv n strs -> Forall valid_string strs ->
  heap w !! p = Some (mkCell (UvProcess data 0 []) HNone None) ->
  (next_result w < 0 -> Q (next_result w) (set_heap (<[p := mkCell (UvProcess data 0 []) (HOpen None) None]>
     (heap w)) (ticked (ticked w)))) ->
  (next_result w = 0 -> Q 0 (set_heap (<[p := mkCell (UvProcess data (i32 (answers w (S (tick w))))
     (command path strs)) (HOpen (Some Cb_process_exit)) None]> (heap w)) (ticked (ticked w)))) ->
  wp (uv_spawn p path argv) w Q.
Proof.
  intros [[rest Ha] Hs Ho] Hv Hp H1 H2. unfold uv_spawn, load_argv. apply wp_bind, wp_bind.
  eapply wp_load; [exact Ha|]. apply wp_ret. cbn [read_args contents].
  change (path_pointer =? 0) with false. change (path_pointer =? path_pointer) with true. cbv iota.
  apply wp_bind, wp_bind, wp_ret, wp_bind.
  eapply wp_mono; [apply read_args_spec; [lia|done|done]|]. intros r w' [-> ->]. apply wp_ret.
  fold (command path strs). apply wp_bind. eapply wp_load_cell; [exact Hp|]. cbn [contents].
  apply wp_bind, wp_require; [done|]. apply wp_bind, wp_uv_result, wp_bind, wp_ask.
  destruct (Z.ltb_spec (next_result w) 0).
  - apply wp_bind. eapply wp_set_handle; [exact Hp|]. by apply wp_ret, H1.
  - assert (E : next_result w = 0) by (unfold next_result in *; lia). rewrite E.
    apply wp_bind. eapply wp_store_cell; [exact Hp|]. by apply wp_ret, H2.
Qed.

(** ** Specifications of the operations *)

Definition pipe_open : cell := mkCell (StreamPort (new_stream_port pipe_vtable)) (HOpen None) None.
Definition pipe_closing : cell :=
  mkCell (StreamPort (new_stream_port pipe_vtable)) (HClosing Cb_close_stream) None.

Lemma Core_close_pipe {h n l m} (HC : Core h n l m) a :
  h !! a = Some pipe_open -> unreferenced h a -> Core (<[a := pipe_closing]> h) n l m.
Proof.
  intros Ha Hu. apply (Core_stream HC _ _ _ _ _ _ _ _ Ha Hu); [apply new_stream_closing; by left|done].
Qed.

(** The three pipes of a child, and the heap in which they are closing. *)
Record pipes (h : gmap Z cell) (i o e : Z) : Prop := {
  pipes_cells : h !! i = Some pipe_open /\ h !! o = Some pipe_open /\ h !! e = Some pipe_open;
  pipes_distinct : i <> o /\ i <> e /\ o <> e;
  pipes_owned : unreferenced h i /\ unreferenced h o /\ unreferenced h e
}.
Definition close3 (i o e : Z) (h : gmap Z cell) : gmap Z cell :=
  <[e := pipe_closing]> (<[o := pipe_closing]> (<[i := pipe_closing]> h)).

Lemma Core_close3 {h n l m} (HC : Core h n l m) i o e :
  pipes h i o e -> Core (close3 i o e h) n l m.
Proof.
  intros [(Hi & Ho & He) (H1 & H2 & H3) (Ui & Uo & Ue)].
  pose proof (Core_close_pipe HC i Hi Ui) as C1.
  assert (C2 : Core (<[o := pipe_closing]> (<[i := pipe_closing]> h)) n l m).
  { apply (Core_close_pipe C1); [by rewrite lookup_insert_ne|by apply unreferenced_insert]. }
  apply (Core_close_pipe C2); [by rewrite !lookup_insert_ne by done|].
  by repeat apply unreferenced_insert.
Qed.

Lemma close_pipes_spec w i o e (Q : unit -> world -> Prop) :
  heap w !! i = Some pipe_open -> heap w !! o = Some pipe_open -> heap w !! e = Some pipe_open ->
  i <> o -> i <> e -> o <> e ->
  Q tt (set_heap (close3 i o e (heap w)) w) ->
  wp (_ ← close_pipe i; _ ← close_pipe o; close_pipe e) w Q.
Proof.
  intros Hi Ho He H1 H2 H3 HQ. unfold close_pipe. apply wp_bind. eapply wp_uv_close; [exact Hi|done|].
  apply wp_bind. eapply wp_uv_close; [cbn; rewrite lookup_insert_ne by done; exact Ho|done|].
  eapply wp_uv_close; [cbn; rewrite !lookup_insert_ne by done; exact He|done|].
  exact HQ.
Qed.

(** Equality of heaps that also differ by conversions and their undoing. *)
Ltac vector_heap_eq :=
  let i := fresh "i" in
  apply map_eq; intros i; unfold close3;
  repeat first [ progress rewrite ?lookup_insert, ?lookup_delete, ?lookup_del_range, ?lookup_put_chars
               | case_decide ];
  subst; first [done | congruence | lia | symmetry; by eauto with lia | by eauto with lia].

(** The state in which the argument vector has been built. *)
Lemma built_vector h n k strs rest : 0 < n ->
  (forall a, n <= a -> h !! a = None) ->
  vector (put_chars (n + 1) (take k strs) (<[n := mkCell (Argv (path_pointer ::
     seqZ (n + 1) (Z.of_nat (length (take k strs))) ++ 0 :: rest)) HNone None]> h)) n (n + 1) (take k strs).
Proof.
  intros Hn Hf. constructor; [| |lia].
  - exists rest. rewrite lookup_put_chars_out by lia. apply lookup_insert_eq.
  - intros i s Hi. by apply lookup_put_chars_in.
Qed.

(** Memory is exhausted at some point. *)
Definition exhausted (w : world) : Prop := exists i, (tick w <= i)%nat /\ answers w i = 0.

Definition child (data : ptr) (pid : Z) (cmd : list (list Z)) : cell :=
  mkCell (UvProcess data pid cmd) (HOpen (Some Cb_process_exit)) None.
Definition failed_child (data : ptr) : cell :=
  mkCell (UvProcess data 0 []) (HClosing Cb_close_handle_data) None.

Definition spawn_result (i o e : Z) (path : list Z) (strs : list (list Z)) (callback : ptr) (w : world)
    (r : ptr) (w' : world) : Prop :=
  (exists who rc, r = osi_make_error_pair who rc /\ rc < 0 /\ locks w' = locks w /\
     heap w' = close3 i o e (heap w)) \/
  (exists rc p, r = osi_make_error_pair "uv_spawn" rc /\ rc < 0 /\ heap w !! p = None /\
     locks w' = locks w ⊎ lk callback /\
     heap w' = <[p := failed_child callback]> (close3 i o e (heap w))) \/
  (exists pid p k, r = Svector [Sint i; Sint o; Sint e; Sinteger32 pid] /\ heap w !! p = None /\
     locks w' = locks w ⊎ lk callback /\ (k <= length strs)%nat /\
     ((k < length strs)%nat -> exhausted w) /\
     heap w' = <[p := child callback pid (command path (take k strs))]> (heap w)).

(** The facts about the state after the vector was built at [n]. *)
Record built (n : Z) (strs : list (list Z)) (h h1 : gmap Z cell) (n1 : Z) : Prop := {
  built_vector_ok : vector h1 n (n + 1) strs;
  built_next : n1 = n + 1 + Z.of_nat (length strs);
  built_old : forall a, a < n -> h1 !! a = h !! a;
  built_fresh : forall a, n1 <= a -> h1 !! a = None
}.

Lemma built_restore n strs h h1 n1 :
  built n strs h h1 n1 -> (forall a, n <= a -> h !! a = None) ->
  delete n (del_range (n + 1) (length strs) h1) = h.
Proof.
  intros [_ -> Hold Hfresh] Hf. apply map_eq. intros a. rewrite lookup_delete, lookup_del_range.
  repeat case_decide; try (symmetry; apply Hf; lia).
  destruct (Z.lt_ge_cases a n); [by apply Hold|]. rewrite Hfresh, Hf by lia. done.
Qed.

Lemma restore_insert n k a c x : ~ (n <= a < n + 1 + Z.of_nat k) ->
  delete n (del_range (n + 1) k (<[a := c]> x)) = <[a := c]> (delete n (del_range (n + 1) k x)).
Proof.
  intros Ha. apply map_eq. intros b. rewrite lookup_delete, lookup_del_range, !lookup_insert,
    lookup_delete, lookup_del_range. repeat case_decide; subst; done || lia.
Qed.

(** [build_argv] on the vector that was just allocated. *)
Lemma built_spec w args strs :
  Inv w -> scheme_strings args = Some strs -> Forall valid_string strs ->
  wp (build_argv (next w) args)
    (alloc (Argv (replicate (Z.to_nat (Z.of_nat (length strs) + 2)) garbage)) (ticked w))
    (fun _ w1 => exists k, (k <= length strs)%nat /\ ((k < length strs)%nat -> exhausted w) /\
       frame w w1 /\ built (next w) (take k strs) (heap w) (heap w1) (next w1)).
Proof.
  intros HI Hx Hv.
  pose proof (core_fresh _ _ _ _ HI) as Hf. pose proof (core_next _ _ _ _ HI) as Hn.
  eapply wp_mono.
  { apply (build_argv_spec _ (next w) args strs (replicate (Z.to_nat (Z.of_nat (length strs) + 2)) garbage));
      [done|done| | | |].
    - cbn. apply lookup_insert_eq.
    - rewrite length_replicate. lia.
    - cbn. lia.
    - cbn. intros a Ha. rewrite lookup_insert_ne by lia. apply Hf. lia. }
  intros [] w1 (k & rest & (Hk1 & Hk2 & Hk3) & Hfr & Hnext & Hh). exists k.
  cbn [heap next alloc ticked set_tick set_heap set_next answers tick] in *.
  rewrite insert_insert_eq in Hh. split; [done|].
  split; [intros Hlt; exists (S (tick w) + k)%nat; split; [lia|by apply Hk3]|].
  split; [destruct Hfr; by constructor|].
  assert (Hlen : length (take k strs) = k) by (rewrite length_take; lia).
  constructor.
  - pose proof (built_vector (heap w) (next w) k strs rest Hn Hf) as HV. rewrite Hlen in HV.
    by rewrite Hh.
  - rewrite Hlen. lia.
  - intros a Ha. rewrite Hh, lookup_put_chars_out by lia. apply lookup_insert_ne. lia.
  - intros a Ha. rewrite Hh, lookup_put_chars_out by (rewrite Hlen; lia).
    rewrite lookup_insert_ne by lia. apply Hf. lia.
Qed.

(** Starting the child and releasing the vector: only the process remains. *)
Lemma run_child_spec {B} w h p path n ss data (K : Z -> M B) (Q : B -> world -> Prop) :
  built n ss h (delete p (heap w)) p -> (forall a, n <= a -> h !! a = None) -> 0 < n ->
  Forall valid_string ss -> heap w !! p = Some (mkCell (UvProcess data 0 []) HNone None) ->
  (forall w', frame w w' -> next w' = next w -> next_result w < 0 ->
     heap w' = <[p := mkCell (UvProcess data 0 []) (HOpen None) None]> h -> wp (K (next_result w)) w' Q) ->
  (forall w' pid, frame w w' -> next w' = next w ->
     heap w' = <[p := child data (i32 pid) (command path ss)]> h -> wp (K 0) w' Q) ->
  wp (rc ← uv_spawn p path n; _ ← free_argv n; K rc) w Q.
Proof.
  intros Hb Hf Hn Hv Hp H1 H2. pose proof (built_restore _ _ _ _ _ Hb Hf) as Hres.
  pose proof Hb as [Hvec Hn1 _ _].
  assert (Hd : <[p := mkCell (UvProcess data 0 []) HNone None]> (delete p (heap w)) = heap w)
    by (by rewrite insert_delete_id).
  assert (Hvw : vector (heap w) n (n + 1) ss)
    by (rewrite <- Hd; apply vector_insert; [done|lia|lia]).
  assert (Hend : forall c, delete n (del_range (n + 1) (length ss) (<[p := c]> (heap w))) = <[p := c]> h).
  { intros c. rewrite restore_insert by lia. rewrite <- Hd, restore_insert, Hres by lia.
    apply insert_insert_eq. }
  apply wp_bind. eapply uv_spawn_spec; [exact Hvw|done|exact Hp| |]; intros Hrc.
  - apply wp_bind. eapply wp_mono.
    { apply (free_argv_spec _ _ (n + 1) ss). cbn. apply vector_insert; [done|lia|lia]. }
    intros [] w2 ->. cbn [heap set_heap ticked set_tick]. rewrite Hend. apply H1; done.
  - apply wp_bind. eapply wp_mono.
    { apply (free_argv_spec _ _ (n + 1) ss). cbn. apply vector_insert; [done|lia|lia]. }
    intros [] w2 ->. cbn [heap set_heap ticked set_tick]. rewrite Hend. eapply H2; done.
Qed.

(** A new process handle, in use or closing. *)
Lemma Core_child {h n l m} (HC : Core h n l m) p data pid cmd n' l' :
  n <= p < n' -> opt_obj data -> l' = l ⊎ lk data -> Core (<[p := child data pid cmd]> h) n' l' m.
Proof.
  intros Hp Hd ->. apply (Core_alloc HC); [lia|done| |done]. split; [done|]. split; [done|by left].
Qed.

Lemma Core_failed_child {h n l m} (HC : Core h n l m) p data n' l' :
  n <= p < n' -> opt_obj data -> l' = l ⊎ lk data -> Core (<[p := failed_child data]> h) n' l' m.
Proof.
  intros Hp Hd ->. apply (Core_alloc HC); [lia|done| |done]. split; [done|]. split; [done|by right].
Qed.

Lemma spawn_process_spec w path args strs callback i o e :
  Inv w -> scheme_strings args = Some strs -> Forall valid_string strs -> is_obj callback ->
  pipes (heap w) i o e ->
  wp (spawn_process path args (Z.of_nat (length strs)) callback i o e) w (fun r w' => Inv w' /\
    objects w' = objects w /\ g_callbacks w' = g_callbacks w /\
    spawn_result i o e path strs callback w r w').
Proof.
  intros HI Hx Hv Hcb Hp. pose proof Hp as [(Hi & Ho & He) (D1 & D2 & D3) _].
  unfold spawn_process. apply wp_bind, wp_malloc; intros Hans.
  { apply wp_bind. apply close_pipes_spec; try done. apply wp_ret.
    split; [by apply Core_close3|]. repeat split. left. do 2 eexists. by repeat split. }
  apply wp_bind. eapply wp_mono; [by apply built_spec|].
  intros [] w1 (k & Hk & Hex & Hfr & Hb).
  pose proof (core_fresh _ _ _ _ HI) as Hf. pose proof (core_next _ _ _ _ HI) as Hn.
  pose proof Hb as [Hvec Hn1 Hold Hfresh].
  assert (Hlt : forall a c, heap w !! a = Some c -> a < next w).
  { intros a c Ha. destruct (Z.lt_ge_cases a (next w)); [done|]. by rewrite Hf in Ha. }
  pose proof (Hlt _ _ Hi). pose proof (Hlt _ _ Ho). pose proof (Hlt _ _ He).
  pose proof (built_restore _ _ _ _ _ Hb Hf) as Hres. set (ss := take k strs) in *.
  apply wp_bind, wp_malloc; intros Hans2.
  - apply wp_bind. apply close_pipes_spec; try done; [by cbn; rewrite Hold by lia..|].
    apply wp_bind. eapply wp_mono.
    { apply (free_argv_spec _ _ (next w + 1) ss). unfold close3. cbn [heap set_heap ticked set_tick].
      by repeat (apply vector_insert; [|lia|lia]). }
    intros [] w2 ->. cbn [heap set_heap ticked set_tick]. apply wp_ret. unfold close3.
    rewrite !restore_insert, Hres by lia. fold (close3 i o e (heap w)).
    destruct Hfr. split; [|repeat split; try done; left; do 2 eexists; by repeat split].
    unfold Inv. cbn. rewrite frame_locks0, frame_objects0.
    apply (Core_next (Core_close3 HI _ _ _ Hp)). lia.
  - apply wp_bind, wp_lock; [eauto with swish|]. unfold set_data. apply wp_bind, wp_bind.
    eapply wp_load; [apply lookup_insert_eq|]. cbn [contents].
    eapply wp_store; [apply lookup_insert_eq|]. cbn [handle request heap set_locks alloc set_next set_heap
      ticked set_tick locks]. rewrite insert_insert_eq.
    destruct Hfr.
    assert (Hpn : heap w !! next w1 = None) by (apply Hf; lia).
    eapply (run_child_spec _ (heap w) (next w1) path (next w) ss callback); try done.
    + cbn. rewrite delete_insert_id by (apply Hfresh; lia). exact Hb.
    + by apply Forall_take.
    + cbn. apply lookup_insert_eq.
    + intros w2 Hfr2 Hnext2 Hrc Hh2. rewrite (proj2 (Z.ltb_lt _ 0) Hrc).
      apply wp_bind. apply close_pipes_spec; try done; [by rewrite Hh2, lookup_insert_ne by lia..|].
      apply wp_bind. eapply wp_uv_close; [cbn; rewrite Hh2; unfold close3;
        rewrite !lookup_insert_ne by lia; apply lookup_insert_eq|done|]. apply wp_ret.
      destruct Hfr2. cbn in frame_locks1, frame_objects1, frame_callbacks1, Hnext2.
      assert (Eh : <[next w1 := failed_child callback]> (close3 i o e (heap w2)) =
        <[next w1 := failed_child callback]> (close3 i o e (heap w))).
      { rewrite Hh2. unfold close3. heap_eq. }
      unfold Inv. cbn. fold (failed_child callback). rewrite Eh.
      rewrite frame_locks1, frame_objects1, frame_callbacks1, Hnext2, frame_locks0, frame_objects0.
      split; [|repeat split; try done; right; left; do 2 eexists; repeat split; try done].
      * apply (Core_failed_child (Core_close3 HI _ _ _ Hp)); [lia|by right|done].
      * cbn. rewrite frame_locks1. by rewrite frame_locks0.
    + intros w2 pid Hfr2 Hnext2 Hh2. change (0 <? 0) with false. unfold load_process.
      apply wp_bind, wp_bind. eapply wp_load; [rewrite Hh2; apply lookup_insert_eq|].
      cbn [contents child]. apply wp_ret, wp_ret.
      destruct Hfr2. cbn in frame_locks1, frame_objects1, frame_callbacks1, Hnext2.
      unfold Inv. rewrite Hh2, frame_locks1, frame_objects1, frame_callbacks1, Hnext2, frame_locks0,
        frame_objects0. split; [apply (Core_child HI); [lia|by right|done]|].
      repeat split; try done. right; right. exists (i32 pid), (next w1), k.
      by rewrite frame_locks1, frame_locks0.
Qed.

(** What a failed [osi_spawn] may leave: only handles that are being closed. *)
Definition closing_only (h h' : gmap Z cell) : Prop :=
  (forall a c, h !! a = Some c -> h' !! a = Some c) /\
  (forall a c, h !! a = None -> h' !! a = Some c -> c = pipe_closing \/ exists data, c = failed_child data).

Lemma closing_only_insert h h' p data :
  closing_only h h' -> h !! p = None -> closing_only h (<[p := failed_child data]> h').
Proof.
  intros [H1 H2] Hp. split; intros a d Ha.
  - rewrite lookup_insert_ne by congruence. by apply H1.
  - intros [[<- <-]|[_ Hd]]%lookup_insert_Some; [right; by eexists|by eapply H2].
Qed.

(** The three pipes [osi_spawn] creates, at consecutive addresses. *)
Definition spawn_heap (n : Z) (h : gmap Z cell) : gmap Z cell :=
  <[n + 2 := pipe_open]> (<[n + 1 := pipe_open]> (<[n := pipe_open]> h)).

Lemma Core_pipe {h n l m} (HC : Core h n l m) a n' : n <= a < n' ->
  Core (<[a := pipe_open]> h) n' l m /\ Core (<[a := pipe_closing]> h) n' l m.
Proof.
  intros Ha. unfold pipe_open, pipe_closing.
  split; (apply (Core_alloc HC); [lia|locks_solve| |done]).
  - apply new_stream_ok. by left.
  - apply new_stream_closing. by left.
Qed.

Lemma spawn_heap_pipes {h n l m} (HC : Core h n l m) :
  Core (spawn_heap n h) (n + 3) l m /\ pipes (spawn_heap n h) n (n + 1) (n + 2).
Proof.
  destruct (Core_pipe HC n (n + 1)) as [C1 _]; [lia|].
  destruct (Core_pipe C1 (n + 1) (n + 2)) as [C2 _]; [lia|].
  destruct (Core_pipe C2 (n + 2) (n + 3)) as [C3 _]; [lia|]. split; [done|].
  assert (Hu : forall a, n <= a -> unreferenced h a)
    by (intros a Ha; apply (Core_unused HC), (core_fresh _ _ _ _ HC); done).
  constructor; [|lia|].
  - unfold spawn_heap. repeat split; rewrite ?lookup_insert_eq, ?lookup_insert_ne by lia;
      rewrite ?lookup_insert_eq, ?lookup_insert_ne by lia; try done; apply lookup_insert_eq.
  - repeat split; repeat apply unreferenced_insert; try done; apply Hu; lia.
Qed.

(** How [osi_spawn] ends: refused because the arguments are not a list of strings, failed with
    every pipe it created being closed, or with the child running. *)
Definition osi_spawn_result (path : list Z) (args callback : ptr) (w : world) (r : ptr) (w' : world) : Prop :=
  (scheme_strings args = None /\ r = osi_make_error_pair "osi_spawn" UV_EINVAL /\ w' = w) \/
  exists strs, scheme_strings args = Some strs /\
    ((exists who rc, r = osi_make_error_pair who rc /\ rc < 0 /\ closing_only (heap w) (heap w') /\
        (locks w' = locks w \/ who = "uv_spawn"%string /\ locks w' = locks w ⊎ lk callback)) \/
     (exists pid p k, let n := next w in
        r = Svector [Sint n; Sint (n + 1); Sint (n + 2); Sinteger32 pid] /\
        spawn_heap n (heap w) !! p = None /\ locks w' = locks w ⊎ lk callback /\ (k <= length strs)%nat /\
        ((k < length strs)%nat -> exhausted w) /\
        heap w' = <[p := child callback pid (command path (take k strs))]> (spawn_heap n (heap w)))).

Lemma closing_only_pipes h h' n k :
  (forall a, n <= a -> h !! a = None) ->
  (forall a, h' !! a = if decide (n <= a < n + k) then Some pipe_closing else h !! a) ->
  closing_only h h'.
Proof.
  intros Hf Hh. split; intros a c Ha; rewrite Hh.
  - case_decide; [by rewrite Hf in Ha by lia|done].
  - case_decide; [|congruence]. intros [= <-]. by left.
Qed.

(** Ends a failure with [k] of the pipes being closed. *)
Ltac spawn_failed Hf Hend HC X k :=
  heap_is X; split; [apply (Core_next HC); lia|]; split; [done|]; split; [done|];
  apply Hend; [do 2 eexists; split; [reflexivity|first [done|lia]]|done|];
  eapply (closing_only_pipes _ _ _ k); [exact Hf|];
  let a := fresh "a" in
  intros a; cbn [heap]; rewrite ?lookup_insert; repeat case_decide; subst; first [done|lia|idtac].

Lemma osi_spawn_spec w path args callback strs :
  Inv w -> is_obj callback -> scheme_strings args = Some strs -> Forall valid_string strs ->
  wp (osi_spawn path args callback) w (fun r w' => Inv w' /\
    objects w' = objects w /\ g_callbacks w' = g_callbacks w /\
    osi_spawn_result path args callback w r w').
Proof.
  intros HI Hcb Hx Hv. unfold osi_spawn. rewrite string_list_length_spec, Hx.
  destruct (Z.ltb_spec (Z.of_nat (length strs)) 0); [lia|].
  pose proof (core_fresh _ _ _ _ HI) as Hf. pose proof (spawn_heap_pipes HI) as [HS HP].
  destruct (Core_pipe HI (next w) (next w + 1)) as [_ K1]; [lia|].
  destruct (Core_pipe K1 (next w + 1) (next w + 2)) as [_ K2]; [lia|].
  assert (Hend : forall r w', (exists who rc, r = osi_make_error_pair who rc /\ rc < 0) ->
    locks w' = locks w -> closing_only (heap w) (heap w') -> osi_spawn_result path args callback w r w').
  { intros r w' (who & rc & -> & Hrc) Hl Hc. right. exists strs. split; [done|]. left.
    exists who, rc. repeat split; try done; try apply Hc. by left. }
  unfold spawn_pipe, close_pipe. world_intro w.
  pose proof (Hf n ltac:(lia)) as Hn. pose proof (Hf (n + 1) ltac:(lia)) as Hn1.
  pose proof (Hf (n + 1 + 1) ltac:(lia)) as Hn2. wp_run.
  - spawn_failed Hf Hend HI h 0.
  - spawn_failed Hf Hend HI h 0.
  - spawn_failed Hf Hend K1 (<[n := pipe_closing]> h) 1.
  - spawn_failed Hf Hend K1 (<[n := pipe_closing]> h) 1.
  - spawn_failed Hf Hend K2 (<[n + 1 := pipe_closing]> (<[n := pipe_closing]> h)) 2.
  - spawn_failed Hf Hend K2 (<[n + 1 := pipe_closing]> (<[n := pipe_closing]> h)) 2.
  - replace (n + 1 + 1) with (n + 2) by lia. fold pipe_open. fold (spawn_heap n h).
    replace (n + 2 + 1) with (n + 3) by lia.
    eapply wp_mono; [apply (spawn_process_spec _ path args strs callback); done|].
    intros r w' (HI' & Ho & Hg & Hres). split; [done|]. split; [done|]. split; [done|].
    cbn in Ho, Hg. right. exists strs. split; [done|].
    assert (Hcl : closing_only h (close3 n (n + 1) (n + 2) (spawn_heap n h))).
    { apply (closing_only_pipes _ _ n 3); [exact Hf|]. intros a. unfold close3, spawn_heap.
      rewrite !lookup_insert. repeat case_decide; subst; first [done|lia]. }
    cbn in Hres. unfold spawn_result in Hres. cbn [heap locks] in Hres.
    destruct Hres as [(who & rc & -> & Hr0 & Hl & Hh)|[(rc & p & -> & Hr0 & Hp & Hl & Hh)|
      (pid & p & k & -> & Hp & Hl & Hk & Hex & Hh)]].
    + left. exists who, rc. rewrite Hh. repeat split; try done; try apply Hcl. by left.
    + left. exists "uv_spawn"%string, rc. rewrite Hh. split; [done|]. split; [done|].
      split; [|by right]. apply closing_only_insert; [done|].
      unfold spawn_heap in Hp. rewrite !lookup_insert in Hp. by repeat case_decide.
    + right. exists pid, p, k. repeat split; try done. intros Hlt. destruct (Hex Hlt) as (j & Hj & Hj').
      exists j. split; [|done]. cbn [tick] in Hj |- *. lia.
Qed.

(** How [osi_spawn_detached] ends: the child has no callback. *)
Definition detached_result (path : list Z) (strs : list (list Z)) (w : world) (r : ptr) (w' : world) : Prop :=
  (exists who rc, r = osi_make_error_pair who rc /\ rc < 0 /\
     (heap w' = heap w \/ exists p, heap w !! p = None /\ heap w' = <[p := failed_child NULL]> (heap w))) \/
  (exists pid p k, r = Sinteger32 pid /\ heap w !! p = None /\ (k <= length strs)%nat /\
     ((k < length strs)%nat -> exhausted w) /\
     heap w' = <[p := child NULL pid (command path (take k strs))]> (heap w)).

Lemma osi_spawn_detached_spec w path args strs :
  Inv w -> scheme_strings args = Some strs -> Forall valid_string strs ->
  wp (osi_spawn_detached path args) w (fun r w' => Inv w' /\ locks w' = locks w /\
    objects w' = objects w /\ g_callbacks w' = g_callbacks w /\ detached_result path strs w r w').
Proof.
  intros HI Hx Hv. unfold osi_spawn_detached. rewrite string_list_length_spec, Hx.
  destruct (Z.ltb_spec (Z.of_nat (length strs)) 0); [lia|].
  apply wp_bind, wp_malloc; intros Hans.
  { apply wp_ret. split; [by destruct w|]. repeat split. left. do 2 eexists. by repeat split; auto. }
  apply wp_bind. eapply wp_mono; [by apply built_spec|].
  intros [] w1 (k & Hk & Hex & [Fl Fo Fc _ _] & Hb).
  pose proof (core_fresh _ _ _ _ HI) as Hf. pose proof (core_next _ _ _ _ HI) as Hn.
  pose proof Hb as [_ Hn1 _ Hfresh]. pose proof (built_restore _ _ _ _ _ Hb Hf) as Hres.
  assert (Hpn : heap w !! next w1 = None) by (apply Hf; lia).
  apply wp_bind, wp_malloc; intros Hans2.
  - apply wp_bind. eapply wp_mono; [by eapply free_argv_spec, Hb|]. intros [] w2 ->.
    apply wp_ret. cbn [ticked heap set_tick]. rewrite Hres. unfold Inv. cbn. rewrite Fl, Fo, Fc.
    split; [apply (Core_next HI); lia|]. repeat split. left. do 2 eexists. by repeat split; auto.
  - unfold set_data. apply wp_bind, wp_bind. eapply wp_load; [apply lookup_insert_eq|].
    cbn [contents]. eapply wp_store; [apply lookup_insert_eq|]. cbn [handle request heap alloc
      set_next set_heap ticked set_tick]. rewrite insert_insert_eq.
    eapply (run_child_spec _ (heap w) (next w1) path (next w) (take k strs) NULL); try done.
    + cbn. rewrite delete_insert_id by (apply Hfresh; lia). exact Hb.
    + by apply Forall_take.
    + cbn. apply lookup_insert_eq.
    + intros w2 [Gl Go Gc _ _] Hnext2 Hrc Hh2. cbn in Gl, Go, Gc, Hnext2.
      rewrite (proj2 (Z.ltb_lt _ 0) Hrc).
      apply wp_bind. eapply wp_uv_close; [rewrite Hh2; apply lookup_insert_eq|done|]. apply wp_ret.
      unfold Inv. cbn. rewrite Hh2, insert_insert_eq, Gl, Go, Gc, Hnext2, Fl, Fo, Fc.
      split; [apply (Core_failed_child HI); [lia|by left|locks_solve]|].
      repeat split. left. do 2 eexists. split; [done|]. split; [exact Hrc|]. right. by exists (next w1).
    + intros w2 pid [Gl Go Gc _ _] Hnext2 Hh2. cbn in Gl, Go, Gc, Hnext2.
      change (0 <? 0) with false. unfold load_process.
      apply wp_bind, wp_bind. eapply wp_load; [rewrite Hh2; apply lookup_insert_eq|].
      cbn [contents child]. apply wp_ret, wp_ret. unfold Inv.
      rewrite Hh2, Gl, Go, Gc, Hnext2, Fl, Fo, Fc.
      split; [apply (Core_child HI); [lia|by left|locks_solve]|].
      repeat split. right. by exists (i32 pid), (next w1), k.
Qed.

(** The exit of a child: the callback is delivered with the status, released, and the handle
    is closed. *)
Lemma process_exit_cb_spec w a data pid cmd exit_status term_signal :
  Inv w -> collecting w -> heap w !! a = Some (child data pid cmd) ->
  wp (process_exit_cb a exit_status term_signal) w (fun _ w' => Inv w' /\
    objects w' = objects w /\ locks w = locks w' ⊎ lk data /\
    heap w' = <[a := mkCell (UvProcess NULL pid cmd) (HClosing Cb_close_handle_data) None]> (heap w) /\
    g_callbacks w' = (if is_null data then g_callbacks w else
      Scons (Scons data (Scons (Sinteger32 pid) (Scons (Sint exit_status)
        (Scons (Sinteger32 term_signal) Snil)))) (g_callbacks w))).
Proof.
  intros HI Hcol Ha. unfold process_exit_cb, load_process, set_data. world_intro w.
  pose proof (core_cells _ _ _ _ HI a _ Ha) as (_ & Hd & _). cbn [contents child] in Hd.
  destruct (Core_owned_split HI _ _ Ha) as [l0 Hl]. unfold owned in Hl. cbn [contents child] in Hl. subst l.
  assert (Hu : unreferenced h a) by (by apply (Core_unreferenced HI a _ Ha)).
  unfold child in Ha.
  destruct Hd as [->|[k ->]]; wp_run; try done.
  all: split; [apply (Core_update HI _ _ _ _ Ha); [locks_solve| |done|done|by left]|repeat split; locks_eq].
  all: split; [done|]; split; [by left|by right].
Qed.

(** ** The theorem *)

(** What a child is started with: the path, then the arguments up to their first null character,
    encoded; all of them unless memory is exhausted, when the vector ends with the last argument
    there was memory for. *)
Definition started_with (path : list Z) (strs : list (list Z)) (w : world) (cmd : list (list Z)) : Prop :=
  exists k, cmd = path :: map (fun s => Rfc3629.encode (before_nul s)) (take k strs) /\
    ((forall i, (tick w <= i)%nat -> answers w i <> 0) -> take k strs = strs).

Lemma started_take path strs w k : (k <= length strs)%nat -> ((k < length strs)%nat -> exhausted w) ->
  started_with path strs w (command path (take k strs)).
Proof.
  intros Hk Hex. exists k. split; [done|]. intros Hne. apply take_ge.
  destruct (Nat.le_gt_cases (length strs) k) as [|Hlt]; [done|].
  destruct (Hex Hlt) as (i & Hi & Hz). by destruct (Hne i Hi).
Qed.

(** C19: child processes. For arguments that are not a list of strings osi_spawn and
    osi_spawn_detached return UV_EINVAL and do nothing.  Otherwise they return an error, and the
    handles left behind are being closed; or a child runs that was started with the path and the
    arguments, all of them if memory is not exhausted, and of the memory used only its process
    handle and, for osi_spawn, the three open pipes returned are left.  When the child exits, the
    callback of osi_spawn is delivered once with its identifier, status and signal, and unlocked. *)
Theorem spawn_starts_child w path args callback :
  Inv w -> is_obj callback ->
  (forall strs, scheme_strings args = Some strs -> Forall valid_string strs) ->
  match scheme_strings args with
  | None =>
    osi_spawn path args callback w = Some (osi_make_error_pair "osi_spawn" UV_EINVAL, w) /\
    osi_spawn_detached path args w = Some (osi_make_error_pair "osi_spawn_detached" UV_EINVAL, w)
  | Some strs =>
    (exists r w', osi_spawn path args callback w = Some (r, w') /\
      ((exists who rc, r = osi_make_error_pair who rc /\ rc < 0 /\ closing_only (heap w) (heap w')) \/
       exists pid p cmd, let n := next w in
         r = Svector [Sint n; Sint (n + 1); Sint (n + 2); Sinteger32 pid] /\
         started_with path strs w cmd /\ locks w' = locks w ⊎ lk callback /\
         heap w' = <[p := child callback pid cmd]> (<[n + 2 := pipe_open]> (<[n + 1 := pipe_open]>
           (<[n := pipe_open]> (heap w)))) /\
         forall w2 exit_status term_signal, Inv w2 -> collecting w2 ->
           heap w2 !! p = Some (child callback pid cmd) ->
           exists w3, process_exit_cb p exit_status term_signal w2 = Some (tt, w3) /\
             locks w2 = locks w3 ⊎ lk callback /\
             g_callbacks w3 = Scons (Scons callback (Scons (Sinteger32 pid) (Scons (Sint exit_status)
               (Scons (Sinteger32 term_signal) Snil)))) (g_callbacks w2))) /\
    (exists r w', osi_spawn_detached path args w = Some (r, w') /\ locks w' = locks w /\
      ((exists who rc, r = osi_make_error_pair who rc /\ rc < 0 /\ closing_only (heap w) (heap w')) \/
       exists pid p cmd, r = Sinteger32 pid /\ started_with path strs w cmd /\
         heap w !! p = None /\ heap w' = <[p := child NULL pid cmd]> (heap w)))
  end.
Proof.
  intros HI Hcb Hv. destruct (scheme_strings args) as [strs|] eqn:Hx.
  2: { unfold osi_spawn, osi_spawn_detached. by rewrite string_list_length_spec, Hx. }
  specialize (Hv strs eq_refl). split.
  - destruct (wp_result _ _ _ (osi_spawn_spec w path args callback strs HI Hcb Hx Hv))
      as (r & w' & Hrun & _ & _ & _ & Hres). exists r, w'. split; [exact Hrun|].
    destruct Hres as [[Hn _]|(strs' & Hx' & Hres)]; [by rewrite Hx in Hn|].
    rewrite Hx in Hx'. injection Hx' as <-.
    destruct Hres as [(who & rc & -> & Hrc & Hcl & _)|(pid & p & k & -> & _ & Hl & Hk & Hex & Hh)];
      [left; by exists who, rc|].
    right. exists pid, p, (command path (take k strs)). split; [done|]. split; [by apply started_take|].
    split; [done|]. split; [exact Hh|]. intros w2 st sig HI2 Hc2 Hp2.
    destruct (wp_result _ _ _ (process_exit_cb_spec w2 p callback pid _ st sig HI2 Hc2 Hp2))
      as ([] & w3 & H3 & _ & _ & Hl3 & _ & Hg3).
    exists w3. split; [done|]. split; [done|]. by rewrite is_obj_not_null in Hg3.
  - destruct (wp_result _ _ _ (osi_spawn_detached_spec w path args strs HI Hx Hv))
      as (r & w' & Hrun & _ & Hl & _ & _ & Hres). exists r, w'. split; [done|]. split; [done|].
    destruct Hres as [(who & rc & -> & Hrc & Hh)|(pid & p & k & -> & Hp & Hk & Hex & Hh)].
    + left. exists who, rc. split; [done|]. split; [done|].
      assert (Hrefl : closing_only (heap w) (heap w)) by (split; [done|intros a c Ha Ha'; congruence]).
      destruct Hh as [->|(p & Hp & ->)]; [done|]. by apply closing_only_insert.
    + right. exists pid, p, (command path (take k strs)). split; [done|]. split; [by apply started_take|done].
Qed.

(** A child with the argument "é", which exits with status 3. *)
Definition spawn_world : world := mkWorld ∅ 1 ∅ ∅ NULL (Sobj 1) false false (fun _ => 1) 0.

Lemma spawn_starts_child_witness : exists r w' p pid,
  osi_spawn [0x6C; 0x73] (Scons (Sstring [0xE9]) Snil) (Sobj 7) spawn_world = Some (r, w') /\
  r = Svector [Sint 1; Sint 2; Sint 3; Sinteger32 pid] /\
  heap w' !! p = Some (child (Sobj 7) pid [[0x6C; 0x73]; [0xC3; 0xA9]]).
Proof.
  destruct (spawn_starts_child spawn_world [0x6C; 0x73] (Scons (Sstring [0xE9]) Snil) (Sobj 7))
    as [(r & w' & Hrun & Hres) _].
  - constructor; try done; intros; cbn in *; try lia; try by rewrite lookup_empty in *.
  - by eexists.
  - intros strs [= <-]. repeat constructor; cbn; lia.
  - assert (E : match osi_spawn [0x6C; 0x73] (Scons (Sstring [0xE9]) Snil) (Sobj 7) spawn_world with
      | Some (Svector _, _) => true | _ => false end = true) by (vm_compute; reflexivity).
    rewrite Hrun in E.
    destruct Hres as [(who & rc & -> & _)|(pid & p & cmd & -> & (k & -> & Hk) & _ & Hh & _)]; [discriminate E|].
    rewrite Hk in Hh by done. eexists _, w', p, pid. split; [exact Hrun|]. split; [reflexivity|].
    rewrite Hh. apply lookup_insert_eq.
Defined.
