(* ===== verification/EventLoop.v ===== *)
(** * EventLoop: the program as a whole

    The events libuv delivers and the callback of osi.c each runs; [osi_get_callbacks] (lines
    1336-1358); and the lemmas that every event keeps the program sound and delivers exactly
    the callbacks that were waiting for it. *)

From S2P Require Export Process.

(** ** Events *)

(** What the environment may report.  [data] is what was read into a buffer. *)
Inductive event :=
| EvFs (a : Z) (r : fs_result) (data : list Z)
| EvRead (a nread : Z) (data : list Z)
| EvWrite (a status : Z)
| EvClose (a : Z)
| EvAddrinfo (a status : Z) (res : list Z)
| EvConnect (a status : Z)
| EvListen (a status : Z)
| EvFsEvent (a : Z) (filename : option (list Z)) (events status : Z)
| EvSignal (a signum : Z)
| EvAsync (a : Z)
| EvExit (a exit_status term_signal : Z)
| EvTimer.

(** libuv uses a buffer: the object must be locked, and the slice within it. *)
Definition touch (b : uv_buf) : M unit :=
  let '(o, start, len) := b in
  w ← get;
  require (bool_decide ({[+ o +]} ⊆ locks w) &&
           match objects w !! o with
           | Some (Bytevector l) => (0 <=? start) && (0 <=? len) && (start + len <=? Z.of_nat (length l))
           | _ => false
           end).
Fixpoint touch_all (bs : list uv_buf) : M unit :=
  match bs with [] => mret tt | b :: bs => _ ← touch b; touch_all bs end.

(** The bytes read replace those of the slice. *)
Definition splice (l : list Z) (start : nat) (data : list Z) : list Z :=
  take start l ++ take (length l - start) data ++ drop (start + length data) l.
Definition fill (b : uv_buf) (data : list Z) : M unit :=
  let '(o, start, len) := b in
  _ ← touch b;
  modify (fun w => set_objects (alter (fun x =>
    match x with
    | Bytevector l => Bytevector (splice l (Z.to_nat start) (take (Z.to_nat len) data))
    | x => x
    end) o (objects w)) w).

Definition run_close_cb (cb : close_cb) : Z -> M unit :=
  match cb with
  | Cb_close_stream => close_stream_cb
  | Cb_close_async => close_async_cb
  | Cb_close_handle_data => close_handle_data_cb
  | Cb_close_signal => close_signal_cb
  end.

(** [uv_getaddrinfo] stores its list in the request. *)
Definition set_addrinfo (p : Z) (b : bool) : M unit :=
  '(cb, ai, _, port) ← load_connect p; store p (TcpConnect cb ai b port).

Definition get_callbacks_timer_cb : M unit := modify (set_timer false true).

Definition op_access (op : fs_op) (data : list Z) : M unit :=
  match op with
  | FsRead _ b _ => fill b data
  | FsWrite _ b _ => touch b
  | _ => mret tt
  end.

(** One event, on the block [c] it is about; an event libuv has no reason to report does
    nothing. *)
Definition run_event (ev : event) (c : cell) : M unit :=
  match ev, handle c, request c with
  | EvFs a r data, _, Some (RFs op cb) =>
    _ ← op_access op data;
    _ ← set_request a None;
    run_fs_cb cb a r
  | EvRead a nread data, HOpen (Some Cb_read_stream), _ =>
    b ← read_stream_alloc_cb a;
    _ ← fill b data;
    read_stream_cb a nread
  | EvWrite a status, _, Some (RWrite bufs) =>
    _ ← touch_all bufs;
    _ ← set_request a None;
    write_stream_cb a status
  | EvClose a, HClosing cb, None =>
    _ ← set_handle a HNone;
    run_close_cb cb a
  | EvAddrinfo a status res, _, Some (RGetaddrinfo _ _) =>
    if (0 <=? status) && bool_decide (res = []) then mret tt else
    _ ← set_request a None;
    _ ← set_addrinfo a (0 <=? status);
    connect_tcp_addrinfo_cb a status res
  | EvConnect a status, _, Some (RConnect _) =>
    _ ← set_request a None;
    connect_tcp_cb a status
  | EvListen a status, HOpen (Some Cb_listen_tcp), _ => listen_tcp_cb a status
  | EvFsEvent a filename events status, HOpen (Some Cb_watch_path), _ =>
    watch_path_cb a filename events status
  | EvSignal a signum, HOpen (Some Cb_fire_signal), _ => fire_signal signum
  | EvAsync a, HOpen (Some Cb_close_fd), _ => close_fd_cb a
  | EvExit a status sig, HOpen (Some Cb_process_exit), _ => process_exit_cb a status sig
  | _, _, _ => mret tt
  end.

Definition event_block (ev : event) : option Z :=
  match ev with
  | EvFs a _ _ | EvRead a _ _ | EvWrite a _ | EvClose a | EvAddrinfo a _ _ | EvConnect a _
  | EvListen a _ | EvFsEvent a _ _ _ | EvSignal a _ | EvAsync a | EvExit a _ _ => Some a
  | EvTimer => None
  end.

Definition dispatch (ev : event) : M unit :=
  w ← get;
  match event_block ev with
  | None => if timer w then get_callbacks_timer_cb else mret tt
  | Some a =>
    match heap w !! a with
    | None => mret tt
    | Some c => run_event ev c
    end
  end.

(** [uv_run]: the events one call of it delivers, in order. *)
Fixpoint uv_run (evs : list event) : M unit :=
  match evs with [] => mret tt | ev :: evs => _ ← dispatch ev; uv_run evs end.

(** [evs1] and [evs2] are what the one or two calls of [uv_run] deliver. *)
Definition wait_for_events (timeout : Z) (evs1 evs2 : list event) : M unit :=
  if 0 =? timeout then uv_run evs1
  else
    _ ← modify (set_timer true false);
    _ ← uv_run evs1;
    w ← get;
    if negb (timer_data w) then
      _ ← modify (fun w => set_timer false (timer_data w) w);
      uv_run evs2
    else mret tt.

Definition osi_get_callbacks (timeout : Z) (evs1 evs2 : list event) : M ptr :=
  _ ← modify (set_callbacks Snil);
  _ ← wait_for_events timeout evs1 evs2;
  w ← get;
  _ ← modify (set_callbacks NULL);
  mret (g_callbacks w).

(** ** Callbacks accepted and callbacks delivered *)

(** The callbacks a block will deliver exactly once.  Those of listeners, path watchers and
    signal handlers are delivered any number of times. *)
Definition waiting (c : cell) : gmultiset positive :=
  match contents c with
  | RwFsReq _ cb | CloseFsReq _ cb | UvFsReq cb | TcpConnect cb _ _ _ => lk cb
  | UvAsync cb => match handle c with HOpen (Some _) => lk cb | _ => ∅ end
  | UvProcess cb _ _ => if is_open (handle c) then lk cb else ∅
  | StreamPort p => lk (close_callback p) ⊎ lk (read_callback p) ⊎ lk (write_callback p)
  | _ => ∅
  end.

Definition pending (h : gmap Z cell) : gmultiset positive := sum_over waiting h.

(** The callbacks on the list. *)
Fixpoint called (l : ptr) : gmultiset positive :=
  match l with Scons (Scons cb _) l => lk cb ⊎ called l | _ => ∅ end.

Lemma called_cons cb args l : called (Scons (Scons cb args) l) = lk cb ⊎ called l.
Proof. reflexivity. Qed.

(** What an event that keeps the program sound does: [again] are the callbacks of handles that
    fire repeatedly. *)
Record sound_event (again : gmultiset positive) (w w' : world) : Prop := {
  event_inv : Inv w';
  event_collecting : collecting w';
  event_lengths : same_lengths (objects w) (objects w');
  event_once : called (g_callbacks w') ⊎ pending (heap w') =
               called (g_callbacks w) ⊎ pending (heap w) ⊎ again
}.

Lemma same_lengths_refl m : same_lengths m m.
Proof. done. Qed.

Lemma same_lengths_trans m1 m2 m3 : same_lengths m1 m2 -> same_lengths m2 m3 -> same_lengths m1 m3.
Proof. intros H12 H23 o. by rewrite H23. Qed.

#[export] Hint Resolve same_lengths_refl : swish.

Lemma length_splice l start data : (start <= length l)%nat -> length (splice l start data) = length l.
Proof. intros Hs. unfold splice. rewrite !length_app, !length_take, length_drop. lia. Qed.

Lemma touch_spec w b (Q : unit -> world -> Prop) :
  buf_ok (objects w) b -> {[+ fst (fst b) +]} ⊆ locks w -> Q tt w -> wp (touch b) w Q.
Proof.
  destruct b as [[o s] n]. intros (l & Hl & H1 & H2 & H3) Hlk HQ. unfold touch.
  apply wp_bind, wp_get, wp_require; [|done]. cbn [fst] in Hlk. rewrite Hl.
  rewrite bool_decide_eq_true_2 by done. cbn [andb].
  apply andb_true_iff. rewrite andb_true_iff, !Z.leb_le. done.
Qed.

Lemma fill_spec w b data (Q : unit -> world -> Prop) :
  buf_ok (objects w) b -> {[+ fst (fst b) +]} ⊆ locks w ->
  (forall m', same_lengths (objects w) m' -> Q tt (set_objects m' w)) -> wp (fill b data) w Q.
Proof.
  intros Hb Hlk HQ. pose proof (touch_spec w b (fun _ w' => w' = w) Hb Hlk eq_refl) as Ht.
  destruct b as [[o s] n]. unfold fill. apply wp_bind. eapply wp_mono; [exact Ht|].
  intros [] w' ->. apply wp_modify, HQ. destruct Hb as (l & Hl & H1 & H2 & H3).
  intros o'. destruct (decide (o' = o)) as [->|Hne].
  - rewrite lookup_alter_eq, Hl. cbn. rewrite length_splice by lia. done.
  - by rewrite lookup_alter_ne.
Qed.

Lemma pending_delete h a c : h !! a = Some c -> pending h = waiting c ⊎ pending (delete a h).
Proof. apply sum_delete. Qed.

Lemma pending_insert h a c : h !! a = None -> pending (<[a := c]> h) = waiting c ⊎ pending h.
Proof. apply sum_insert. Qed.

Lemma pending_update h a c c' :
  h !! a = Some c -> waiting c ⊎ pending (<[a := c']> h) = waiting c' ⊎ pending h.
Proof. apply sum_update. Qed.

Lemma pending_replace h a c c' :
  h !! a = Some c -> waiting c' = waiting c -> pending (<[a := c']> h) = pending h.
Proof.
  intros Ha Hw. pose proof (pending_update h a c c' Ha) as H. rewrite Hw in H.
  by apply (inj (waiting c ⊎.)) in H.
Qed.

Lemma collecting_cons cb args w : collecting w ->
  defined (Scons (Scons cb args) (g_callbacks w)) = true /\
  is_null (Scons (Scons cb args) (g_callbacks w)) = false.
Proof. done. Qed.

(** A request that completes delivers its callback. *)
Lemma completed_sound w w' a c cb args m' :
  Inv w' -> completed a c cb args (set_objects m' w) w' ->
  same_lengths (objects w) m' -> heap w !! a = Some c -> waiting c = lk cb -> sound_event ∅ w w'.
Proof.
  intros HI [Hh Hl Ho Hc _] Hm Ha Hw. cbn in Hh, Ho, Hc. constructor; try done.
  - unfold collecting. by rewrite Hc.
  - by rewrite Ho.
  - rewrite Hc, called_cons, Hh, (pending_delete _ _ _ Ha), Hw. clear. multiset_solver.
Qed.

Lemma Inv_objects w m' : same_lengths (objects w) m' -> Inv w -> Inv (set_objects m' w).
Proof. intros Hm HI. by apply (Core_objects _ _ _ (objects w)). Qed.

(** The blocks with a file-system request in flight. *)
Inductive fs_block (m : gmap positive object) (op : fs_op) : fs_cb -> obj -> Prop :=
| fs_block_rw o s n cb : rw_op op = Some (o, s, n) -> buf_ok m (o, s, n) -> is_obj cb ->
    fs_block m op Cb_rw_fs (RwFsReq (Sobj o) cb)
| fs_block_close f port cb : op = FsClose f -> opt_obj cb -> fs_block m op Cb_close_fs (CloseFsReq port cb)
| fs_block_plain k cb : fs_req_ok op k = true -> is_obj cb -> fs_block m op k (UvFsReq cb).

Lemma fs_block_of m o hd op cb :
  cell_ok m (mkCell o hd (Some (RFs op cb))) -> hd = HNone /\ fs_block m op cb o.
Proof.
  unfold cell_ok. cbn [contents handle request]. destruct o; try done.
  - intros [_ Hq]. by destruct hd.
  - by intros (_ & _ & [[_ [=]]|(? & ? & _ & _ & [=] & _)] & _).
  - intros (-> & Hcb & op' & o & s & n & [= <- ->] & Hop & -> & Hb). split; [done|].
    by eapply fs_block_rw.
  - intros (-> & Hcb & f & [= -> ->]). split; [done|]. by eapply fs_block_close.
  - intros (-> & Hcb & op' & f & [= <- <-] & Hok). split; [done|]. by apply fs_block_plain.
  - by intros [[=] _].
  - by intros (_ & _ & [(? & ? & [=] & _)|(? & [=] & _)]).
  - by intros [[=] _].
  - by intros [[=] _].
  - by intros [[=] _].
  - by intros [[=] _].
Qed.

(** The buffer of a read or a write is locked by the block that owns the request. *)
Lemma op_access_spec w a o hd op cb data (Q : unit -> world -> Prop) :
  Inv w -> heap w !! a = Some (mkCell o hd (Some (RFs op cb))) ->
  (forall m', same_lengths (objects w) m' -> Q tt (set_objects m' w)) -> wp (op_access op data) w Q.
Proof.
  intros HI Ha HQ. pose proof (fs_block_of _ _ _ _ _ (core_cells _ _ _ _ HI a _ Ha)) as [-> Hblk].
  assert (Hid : Q tt w) by (specialize (HQ (objects w) (same_lengths_refl _)); by destruct w).
  pose proof (Core_owned HI a _ Ha) as Hown.
  assert (Hb : forall b, rw_op op = Some b -> buf_ok (objects w) b /\ {[+ fst (fst b) +]} ⊆ locks w).
  { intros b Hop. destruct Hblk as [o s n cb Hop' Hbuf Hcb|f port cb -> Hcb|k cb Hk Hcb].
    - rewrite Hop in Hop'. injection Hop' as ->. split; [done|]. cbn [fst].
      unfold owned in Hown. cbn [contents lk] in Hown. clear -Hown. multiset_solver.
    - done.
    - by destruct op. }
  destruct op; try exact Hid.
  - destruct (Hb buf eq_refl). by apply fill_spec.
  - destruct (Hb buf eq_refl). by apply touch_spec.
Qed.

Lemma called_one cb args g : called (Scons (Scons cb args) g) = lk cb ⊎ called g.
Proof. reflexivity. Qed.

(** The state after a delivery, when the heap lost what the callback was waiting for. *)
Lemma delivered_sound w w' cb args m' again :
  Inv w' -> same_lengths (objects w) m' -> objects w' = m' ->
  g_callbacks w' = Scons (Scons cb args) (g_callbacks w) ->
  lk cb ⊎ pending (heap w') = pending (heap w) ⊎ again -> sound_event again w w'.
Proof.
  intros HI Hm <- Hg Hp. constructor; try done.
  - unfold collecting. by rewrite Hg.
  - rewrite Hg, called_cons. rewrite <- (assoc_L (⊎)), (comm_L (⊎) (lk cb)), <- (assoc_L (⊎)).
    rewrite (comm_L (⊎) (pending (heap w')) (lk cb)), Hp. multiset_solver.
Qed.

Lemma open_sound w w' a op cb r m' :
  Inv w -> Inv w' -> same_lengths (objects w) m' ->
  heap w !! a = Some (mkCell (UvFsReq cb) HNone (Some (RFs op Cb_open_fs))) ->
  objects w' = m' ->
  (heap w' = delete a (heap w) \/
   heap w' = <[next w := mkCell (FsPort file_vtable r) HNone None]> (delete a (heap w))) ->
  (exists v, g_callbacks w' = Scons (Scons cb (Scons v Snil)) (g_callbacks w)) -> sound_event ∅ w w'.
Proof.
  intros HI HI' Hm Ha Ho Hh [v Hg]. eapply delivered_sound; [done|done|done|exact Hg|].
  assert (Hn : delete a (heap w) !! next w = None)
    by (apply lookup_delete_None; right; by apply (core_fresh _ _ _ _ HI)).
  rewrite (pending_delete _ _ _ Ha). destruct Hh as [-> | ->]; rewrite ?(pending_insert _ _ _ Hn);
    unfold waiting; cbn [contents]; clear; multiset_solver.
Qed.

Lemma fs_event_sound w a o hd op cb r data :
  Inv w -> collecting w -> heap w !! a = Some (mkCell o hd (Some (RFs op cb))) ->
  wp (_ ← op_access op data; _ ← set_request a None; run_fs_cb cb a r) w
    (fun _ w' => sound_event ∅ w w').
Proof.
  intros HI Hcol Ha. apply wp_bind. eapply op_access_spec; [done|done|].
  intros m' Hm. apply wp_bind. eapply wp_set_request; [exact Ha|].
  pose proof (Inv_objects w m' Hm HI) as HI'.
  destruct (fs_block_of _ _ _ _ _ (core_cells _ _ _ _ HI' a _ Ha)) as [-> Hblk].
  set (w1 := set_objects m' w) in *. assert (Hcol' : collecting w1) by done.
  destruct Hblk as [o s n cb Hop Hbuf Hcb|f port cb -> Hcb|k cb Hk Hcb].
  - eapply wp_mono; [eapply (rw_fs_cb_spec w1); [done|done|exact Ha|by eexists|done]|].
    intros [] w' [HI2 Hc]. by eapply completed_sound.
  - eapply wp_mono; [by eapply (close_fs_cb_spec w1)|].
    intros [] w' (HI2 & Hh & Hl & Ho & Hg). eapply delivered_sound; [done|exact Hm|done|exact Hg|].
    destruct (core_refs _ _ _ _ HI a _ port Ha eq_refl) as (d & Hd & vt & f' & Hdc).
    assert (Hne : a <> port) by (intros <-; rewrite Ha in Hd; injection Hd as <-; done).
    rewrite Hh. cbn [heap w1 set_objects]. rewrite delete_delete by done.
    rewrite (pending_delete _ _ _ Ha), (pending_delete (delete a (heap w)) port d)
      by (by rewrite lookup_delete_ne).
    unfold waiting. rewrite Hdc. cbn [contents]. clear. multiset_solver.
  - destruct (plain_report k) eqn:Ev.
    + eapply wp_mono; [by eapply (fs_report_spec w1)|].
      intros [] w' [HI2 Hc]. by eapply completed_sound.
    + assert (k = Cb_open_fs) as -> by (destruct k; try done; by destruct op).
      eapply wp_mono; [by eapply (open_fs_cb_spec w1)|].
      intros [] w' (HI2 & Hl & Ho & [(_ & Hh & Hg)|[(_ & _ & Hh & Hg)|(_ & _ & Hh & Hg)]]).
      all: eapply (open_sound w w' a op cb (i32 (fs_value r)) m'); try done; eauto.
Qed.

(** What a block must be when its handle is active, when it is closing, and when its request is
    not a file-system one. *)
Ltac block_norm Hok :=
  unfold cell_ok, data_handle_ok, quiet in Hok; cbn [contents handle request] in Hok.
Ltac absurd_block Hok := exfalso; block_norm Hok; naive_solver.

Lemma active_block m o rq cb : cell_ok m (mkCell o (HOpen (Some cb)) rq) ->
  match cb with
  | Cb_read_stream => exists p, o = StreamPort p
  | Cb_listen_tcp => exists d, o = UvTcp d /\ is_obj d /\ rq = None
  | Cb_watch_path => exists d, o = UvFsEvent d /\ is_obj d /\ rq = None
  | Cb_fire_signal => o = UvSignal /\ rq = None
  | Cb_close_fd => exists d, o = UvAsync d /\ opt_obj d /\ rq = None
  | Cb_process_exit => exists d pid cmd, o = UvProcess d pid cmd /\ opt_obj d /\ rq = None
  end.
Proof.
  intros Hok. destruct o; try (by absurd_block Hok); block_norm Hok.
  - destruct Hok as (_ & [[_ [[=]|[=]]]|(b & _ & _ & _ & [[= ->]|[=]])] & _). by eexists.
  - destruct Hok as [-> [[[= ->] Hd]|[[=]|[[[=]|[=]] _]]]]. by eexists.
  - destruct Hok as [-> [[[= ->] Hd]|[[=] _]]]. by eexists.
  - destruct Hok as [-> [[[= ->] Hd]|[[=] _]]]. by eexists.
  - destruct Hok as [-> [Hd [[= ->]|[=]]]]. by do 3 eexists.
  - by destruct Hok as [-> [[= ->]|[=]]].
Qed.

Lemma closing_block m o rq cb : cell_ok m (mkCell o (HClosing cb) rq) ->
  match cb with
  | Cb_close_stream => exists p, o = StreamPort p
  | Cb_close_async => exists d, o = UvAsync d
  | Cb_close_handle_data => exists d, data_of o = Some d
  | Cb_close_signal => o = UvSignal
  end.
Proof.
  intros Hok. destruct o; try (by absurd_block Hok); block_norm Hok.
  - destruct Hok as (_ & _ & _ & [[[=] _]|[[= ->] _]]). by eexists.
  - destruct Hok as [_ [[[=] _]|[[= ->]|[[[=]|[=]] _]]]]. by eexists.
  - destruct Hok as [_ [[[=] _]|[[= ->] _]]]. by eexists.
  - destruct Hok as [_ [[[=] _]|[[= ->] _]]]. by eexists.
  - destruct Hok as [_ [_ [[=]|[= ->]]]]. by eexists.
  - by destruct Hok as [_ [[=]|[= ->]]].
Qed.

Lemma request_block m o hd rq : cell_ok m (mkCell o hd (Some rq)) ->
  match rq with
  | RFs _ _ => True
  | RWrite _ => exists p, o = StreamPort p
  | RGetaddrinfo _ _ | RConnect _ =>
    exists cb ai info port, o = TcpConnect cb ai info port /\ is_obj cb /\ hd = HNone
  end.
Proof.
  intros Hok. destruct rq; try done; destruct o; try (by absurd_block Hok); block_norm Hok;
    try (by destruct Hok as [_ Hq]; destruct hd).
  - by eexists.
  - destruct Hok as (_ & _ & [[_ [=]]|(? & ? & _ & _ & [=] & _)] & _).
  - destruct Hok as (-> & Hcb & _). by do 4 eexists.
  - destruct Hok as (_ & _ & [[_ [=]]|(? & ? & _ & _ & [=] & _)] & _).
  - destruct Hok as (-> & Hcb & _). by do 4 eexists.
Qed.

Lemma read_event_sound w a o rq nread data :
  Inv w -> collecting w -> heap w !! a = Some (mkCell o (HOpen (Some Cb_read_stream)) rq) ->
  wp (b ← read_stream_alloc_cb a; _ ← fill b data; read_stream_cb a nread) w
    (fun _ w' => sound_event ∅ w w').
Proof.
  intros HI Hcol Ha. pose proof (core_cells _ _ _ _ HI a _ Ha) as Hok.
  destruct (active_block _ _ _ _ Hok) as [p ->].
  pose proof Hok as (_ & [[_ [[=]|[=]]]|(b & Hb & [k Hk] & Hbuf & _)] & _).
  pose proof (Core_owned HI a _ Ha) as Hown. unfold owned in Hown. cbn [contents] in Hown.
  rewrite Hk, Hb in Hown. cbn [is_null lk] in Hown.
  unfold read_stream_alloc_cb, load_stream. apply wp_bind, wp_bind, wp_bind.
  eapply wp_load; [exact Ha|]. cbn [contents]. apply wp_ret. rewrite Hb. apply wp_buf_of, wp_bind.
  apply fill_spec; [done|cbn [fst]; clear -Hown; multiset_solver|]. intros m' Hm.
  eapply wp_mono; [eapply (read_stream_cb_spec (set_objects m' w)); [by apply Inv_objects|done|exact Ha]|].
  intros [] w' (HI' & Hl & Hh & Ho & Hg). eapply delivered_sound; [done|exact Hm|done|exact Hg|].
  rewrite Hh, Hk. cbn [heap set_objects]. pose proof (pending_update (heap w) a _
    (mkCell (StreamPort (set_read_callback NULL p)) (HOpen None) rq) Ha) as Hp.
  unfold waiting in Hp. cbn [contents handle set_read_callback close_callback read_callback
    write_callback] in Hp. rewrite Hk in Hp. clear -Hp. multiset_solver.
Qed.

Lemma touch_all_spec w bs (Q : unit -> world -> Prop) :
  Forall (buf_ok (objects w)) bs -> Forall (fun b => {[+ fst (fst b) +]} ⊆ locks w) bs -> Q tt w ->
  wp (touch_all bs) w Q.
Proof.
  intros Hb Hl HQ. induction bs as [|b bs IH]; [done|].
  apply Forall_cons in Hb as [Hb1 Hb], Hl as [Hl1 Hl]. apply wp_bind, touch_spec; auto.
Qed.

Lemma write_event_sound w a o hd bufs status :
  Inv w -> collecting w -> heap w !! a = Some (mkCell o hd (Some (RWrite bufs))) ->
  wp (_ ← touch_all bufs; _ ← set_request a None; write_stream_cb a status) w
    (fun _ w' => sound_event ∅ w w').
Proof.
  intros HI Hcol Ha. pose proof (core_cells _ _ _ _ HI a _ Ha) as Hok.
  destruct (request_block _ _ _ _ Hok) as [p ->].
  pose proof Hok as (_ & _ & [[_ [=]]|(b & bufs' & Hb & [k Hk] & [= <-] & Hbufs & Hb2)] & _).
  pose proof (Core_owned HI a _ Ha) as Hown. unfold owned in Hown. cbn [contents] in Hown.
  rewrite Hk, Hb in Hown. cbn [is_null lk] in Hown.
  apply wp_bind, touch_all_spec; [done| |].
  { destruct Hb2 as [[_ (s & n & ->)]|(b2 & s & n & s2 & n2 & Hb2 & ->)].
    - apply Forall_singleton. cbn [fst]. clear -Hown. multiset_solver.
    - rewrite Hb2 in Hown. cbn [lk] in Hown.
      apply Forall_cons. split; [|apply Forall_singleton]; cbn [fst]; clear -Hown; multiset_solver. }
  apply wp_bind. eapply wp_set_request; [exact Ha|].
  eapply wp_mono; [by eapply write_stream_cb_spec|].
  intros [] w' (HI' & Hl & Hh & Ho & Hg). eapply (delivered_sound w w' _ _ (objects w)); [done|auto with swish|done|exact Hg|].
  rewrite Hh, Hk. pose proof (pending_update (heap w) a _
    (mkCell (StreamPort (set_write_buffer2 NULL (set_write_callback NULL p))) hd None) Ha) as Hp.
  unfold waiting in Hp. cbn [contents handle set_write_buffer2 set_write_callback close_callback
    read_callback write_callback] in Hp. rewrite Hk in Hp. clear -Hp. multiset_solver.
Qed.

(** Nothing is delivered, and nothing more is pending. *)
Lemma silent_sound w w' :
  Inv w' -> collecting w -> objects w' = objects w -> g_callbacks w' = g_callbacks w ->
  pending (heap w') = pending (heap w) -> sound_event ∅ w w'.
Proof.
  intros HI Hcol Ho Hg Hp. constructor; try done.
  - unfold collecting. by rewrite Hg.
  - rewrite Ho. auto with swish.
  - rewrite Hg, Hp. multiset_solver.
Qed.

Lemma called_close p cbs : opt_obj (close_callback p) -> (read_callback p = NULL \/ is_obj (read_callback p)) ->
  called (close_callbacks p cbs) = lk (close_callback p) ⊎ lk (read_callback p) ⊎ called cbs.
Proof.
  unfold close_callbacks. intros [E|[k E]] [E'|[k' E']]; rewrite E, E'; cbn [is_null Z.eqb];
    rewrite ?called_cons; cbn [lk]; clear; multiset_solver.
Qed.

Lemma close_event_sound w a o cb :
  Inv w -> collecting w -> heap w !! a = Some (mkCell o (HClosing cb) None) ->
  wp (_ ← set_handle a HNone; run_close_cb cb a) w (fun _ w' => sound_event ∅ w w').
Proof.
  intros HI Hcol Ha. pose proof (core_cells _ _ _ _ HI a _ Ha) as Hok.
  apply wp_bind. eapply wp_set_handle; [exact Ha|]. cbn [contents request].
  pose proof (closing_block _ _ _ _ Hok) as Hblk.
  pose proof (pending_delete _ _ _ Ha) as Hp. destruct cb; cbn [run_close_cb].
  - destruct Hblk as [p ->].
    destruct Hok as (_ & Hr & [[Hw _]|(? & ? & _ & _ & [=] & _)] & [[[=] _]|[_ Hcc]]).
    eapply wp_mono; [by apply close_stream_cb_spec|]. intros [] w' (HI' & Hh & Hl & Ho & Hg).
    assert (Hrc : read_callback p = NULL \/ is_obj (read_callback p))
      by (destruct Hr as [[? _]|(? & _ & ? & _)]; auto).
    constructor; [done| | |].
    + unfold collecting. rewrite Hg. unfold close_callbacks.
      by destruct (is_null (read_callback p)), (is_null (close_callback p)).
    + rewrite Ho. auto with swish.
    + rewrite Hg, Hh, called_close, Hp by done. unfold waiting. cbn [contents]. rewrite Hw.
      cbn [lk]. clear. multiset_solver.
  - destruct Hblk as [d ->]. eapply wp_mono; [by eapply close_async_cb_spec|].
    intros [] w' (HI' & Hl & Ho & Hg & Hh). apply silent_sound; try done.
    rewrite Hh, Hp. unfold waiting. cbn [contents handle]. clear. multiset_solver.
  - destruct Hblk as [d Hd]. eapply wp_mono; [by eapply close_handle_data_cb_spec|].
    intros [] w' (HI' & Hh & Hl & Ho & Hg). apply silent_sound; try done.
    rewrite Hh, Hp. unfold waiting. cbn [contents handle]. destruct o; try done; cbn [is_open];
      clear; multiset_solver.
  - subst o. eapply wp_mono; [by eapply close_signal_cb_spec|].
    intros [] w' (HI' & Hh & Hl & Ho & Hg). apply silent_sound; try done.
    rewrite Hh, Hp. unfold waiting. cbn [contents]. clear. multiset_solver.
Qed.

(** The port of a connection has no callback yet. *)
Lemma idle_waiting q hd rq : idle (mkCell (StreamPort q) (HOpen None) None) ->
  waiting (mkCell (StreamPort q) hd rq) = ∅.
Proof.
  intros (p & [= <-] & _ & Hc & Hr & Hw). unfold waiting. cbn [contents]. rewrite Hc, Hr, Hw. done.
Qed.

Lemma connect_port_cell w p cb ai info port rq :
  Inv w -> heap w !! p = Some (mkCell (TcpConnect cb ai info port) HNone rq) ->
  exists q, heap w !! port = Some (mkCell (StreamPort q) (HOpen None) None) /\ port <> p /\
    idle (mkCell (StreamPort q) (HOpen None) None).
Proof.
  intros HI Hp. destruct (core_refs _ _ _ _ HI p _ port Hp eq_refl) as (d & Hd & Hid).
  pose proof Hid as (q & -> & Hq). exists q. split; [done|]. split; [|done].
  intros ->. by rewrite Hp in Hd.
Qed.

Lemma abandoned_pending w p cb ai info port rq q :
  Inv w -> heap w !! p = Some (mkCell (TcpConnect cb ai info port) HNone rq) ->
  heap w !! port = Some (mkCell (StreamPort q) (HOpen None) None) ->
  lk cb ⊎ pending (<[port := mkCell (StreamPort q) (HClosing Cb_close_stream) None]> (delete p (heap w)))
  = pending (heap w).
Proof.
  intros HI Hp Hq. destruct (connect_port_cell _ _ _ _ _ _ _ HI Hp) as (q0 & Hq0 & Hne & Hid).
  rewrite Hq in Hq0. injection Hq0 as <-.
  assert (Hq' : delete p (heap w) !! port = Some (mkCell (StreamPort q) (HOpen None) None))
    by (by rewrite lookup_delete_ne).
  rewrite (pending_replace _ _ _ _ Hq') by (by rewrite !(idle_waiting q)).
  by rewrite (pending_delete _ _ _ Hp).
Qed.

Lemma connect_outcome_sound w w' p port cb ai0 info rq ai status :
  Inv w -> Inv w' -> collecting w ->
  heap w !! p = Some (mkCell (TcpConnect cb ai0 info port) HNone rq) ->
  connect_outcome p port cb ai status w w' -> sound_event ∅ w w'.
Proof.
  intros HI HI' Hcol Hp [Ho [(tried & addr & rest & _ & _ & Hg & Hh)|(q & rc & _ & _ & Hq & Hh & Hg)]].
  - apply silent_sound; try done. rewrite Hh. by apply (pending_replace _ _ _ _ Hp).
  - eapply (delivered_sound w w' _ _ (objects w)); [done|auto with swish|done|exact Hg|].
    rewrite Hh, (abandoned_pending _ _ _ _ _ _ _ _ HI Hp Hq). clear. multiset_solver.
Qed.

Lemma connect_event_sound w a o hd addr status :
  Inv w -> collecting w -> heap w !! a = Some (mkCell o hd (Some (RConnect addr))) ->
  wp (_ ← set_request a None; connect_tcp_cb a status) w (fun _ w' => sound_event ∅ w w').
Proof.
  intros HI Hcol Ha. pose proof (core_cells _ _ _ _ HI a _ Ha) as Hok.
  destruct (request_block _ _ _ _ Hok) as (cb & ai & info & port & -> & Hcb & ->).
  destruct Hok as (_ & _ & [(? & ? & [=] & _)|(? & _ & ->)]).
  apply wp_bind. eapply wp_set_request; [exact Ha|]. cbn [contents handle].
  eapply wp_mono; [by eapply (connect_tcp_cb_spec w a port cb ai true ai)|].
  intros [] w' [HI' [[_ Hout]|[_ Hc]]]; [by eapply connect_outcome_sound|].
  eapply (completed_sound w w' _ _ _ _ (objects w)); [done|by destruct w|auto with swish|exact Ha|done].
Qed.

Lemma addrinfo_event_sound w a o hd node service status res :
  Inv w -> collecting w -> heap w !! a = Some (mkCell o hd (Some (RGetaddrinfo node service))) ->
  (0 <= status -> res <> []) ->
  wp (_ ← set_request a None; _ ← set_addrinfo a (0 <=? status); connect_tcp_addrinfo_cb a status res) w
    (fun _ w' => sound_event ∅ w w').
Proof.
  intros HI Hcol Ha Hres. pose proof (core_cells _ _ _ _ HI a _ Ha) as Hok.
  destruct (request_block _ _ _ _ Hok) as (cb & ai & info & port & -> & Hcb & ->).
  apply wp_bind. eapply wp_set_request; [exact Ha|]. cbn [contents handle].
  unfold set_addrinfo at 1, load_connect at 1. apply wp_bind, wp_bind, wp_bind.
  eapply wp_load; [apply lookup_insert_eq|]. cbn [contents]. apply wp_ret.
  eapply wp_store; [apply lookup_insert_eq|]. cbn [contents handle request heap set_heap].
  rewrite insert_insert_eq.
  eapply wp_mono; [by eapply (connect_tcp_addrinfo_cb_spec w a port cb ai info _ status res)|].
  intros [] w' [HI' [[_ Hout]|(_ & Ho & _ & (q & Hq & Hh) & Hg)]]; [by eapply connect_outcome_sound|].
  eapply (delivered_sound w w' _ _ (objects w)); [done|auto with swish|done|exact Hg|].
  rewrite Hh, (abandoned_pending _ _ _ _ _ _ _ _ HI Ha Hq). clear. multiset_solver.
Qed.

Lemma listen_event_sound w a o rq status :
  Inv w -> collecting w -> heap w !! a = Some (mkCell o (HOpen (Some Cb_listen_tcp)) rq) ->
  exists d, o = UvTcp d /\ wp (listen_tcp_cb a status) w (fun _ w' => sound_event (lk d) w w').
Proof.
  intros HI Hcol Ha.
  destruct (active_block _ _ _ _ (core_cells _ _ _ _ HI a _ Ha)) as (d & -> & Hd & ->).
  exists d. split; [done|]. eapply wp_mono; [by apply (listen_tcp_cb_spec w a d)|].
  intros [] w' (HI' & _ & Ho & arg & Hg & Hh).
  eapply (delivered_sound w w' _ _ (objects w)); [done|auto with swish|done|exact Hg|].
  assert (Hn : heap w !! next w = None) by (apply (core_fresh _ _ _ _ HI); lia).
  destruct Hh as [(who & rc & _ & _ & [->| ->])|[_ ->]]; rewrite ?(pending_insert _ _ _ Hn);
    try change (waiting (mkCell (StreamPort _) _ _)) with (∅ ⊎ ∅ ⊎ ∅ : gmultiset positive);
    clear; multiset_solver.
Qed.

Lemma watch_event_sound w a o rq filename events status :
  Inv w -> collecting w -> heap w !! a = Some (mkCell o (HOpen (Some Cb_watch_path)) rq) ->
  exists d, o = UvFsEvent d /\
    wp (watch_path_cb a filename events status) w (fun _ w' => sound_event (lk d) w w').
Proof.
  intros HI Hcol Ha.
  destruct (active_block _ _ _ _ (core_cells _ _ _ _ HI a _ Ha)) as (d & -> & Hd & ->).
  exists d. split; [done|]. eapply wp_mono; [by apply (watch_path_cb_spec w a d)|].
  intros [] w' ->. eapply (delivered_sound w _ _ _ (objects w)); [done|auto with swish|done|done|].
  cbn. clear. multiset_solver.
Qed.

Lemma signal_event_sound w signum :
  Inv w -> collecting w ->
  wp (fire_signal signum) w (fun _ w' => sound_event (lk (deliver_signal w)) w w').
Proof.
  intros HI Hcol. unfold fire_signal. apply wp_bind, wp_get, wp_add_callback_list; [done|].
  eapply (delivered_sound w _ _ _ (objects w)); [done|auto with swish|done|done|].
  cbn. clear. multiset_solver.
Qed.

Lemma async_event_sound w a o rq :
  Inv w -> collecting w -> heap w !! a = Some (mkCell o (HOpen (Some Cb_close_fd)) rq) ->
  wp (close_fd_cb a) w (fun _ w' => sound_event ∅ w w').
Proof.
  intros HI Hcol Ha.
  destruct (active_block _ _ _ _ (core_cells _ _ _ _ HI a _ Ha)) as (d & -> & Hd & ->).
  eapply wp_mono; [by apply (close_fd_cb_spec w a d)|]. intros [] w' (HI' & _ & Ho & Hh & Hg).
  eapply (delivered_sound w w' _ _ (objects w)); [done|auto with swish|done|exact Hg|].
  pose proof (pending_update _ _ _ (mkCell (UvAsync d) (HClosing Cb_close_async) None) Ha) as Hp.
  unfold waiting in Hp. cbn [contents handle] in Hp. rewrite Hh. clear -Hp. multiset_solver.
Qed.

Lemma exit_event_sound w a o rq exit_status sig :
  Inv w -> collecting w -> heap w !! a = Some (mkCell o (HOpen (Some Cb_process_exit)) rq) ->
  wp (process_exit_cb a exit_status sig) w (fun _ w' => sound_event ∅ w w').
Proof.
  intros HI Hcol Ha.
  destruct (active_block _ _ _ _ (core_cells _ _ _ _ HI a _ Ha)) as (d & pid & cmd & -> & Hd & ->).
  eapply wp_mono; [by eapply (process_exit_cb_spec w a d)|]. intros [] w' (HI' & Ho & _ & Hh & Hg).
  pose proof (pending_update _ _ _ (mkCell (UvProcess NULL pid cmd) (HClosing Cb_close_handle_data) None) Ha) as Hp.
  unfold waiting in Hp. cbn [contents handle is_open] in Hp.
  destruct Hd as [->|[k ->]]; cbn [is_null Z.eqb] in Hg.
  - apply silent_sound; try done. rewrite Hh. cbn [lk] in Hp. clear -Hp. multiset_solver.
  - eapply (delivered_sound w w' _ _ (objects w)); [done|auto with swish|done|exact Hg|].
    rewrite Hh. clear -Hp. multiset_solver.
Qed.

(** The callback an event delivers without having been accepted for it alone. *)
Definition again (ev : event) (w : world) : gmultiset positive :=
  match event_block ev with
  | None => ∅
  | Some a =>
    match ev, heap w !! a with
    | EvListen _ _, Some (mkCell (UvTcp d) (HOpen (Some Cb_listen_tcp)) _) => lk d
    | EvFsEvent _ _ _ _, Some (mkCell (UvFsEvent d) (HOpen (Some Cb_watch_path)) _) => lk d
    | EvSignal _ _, Some (mkCell UvSignal (HOpen (Some Cb_fire_signal)) _) => lk (deliver_signal w)
    | _, _ => ∅
    end
  end.

Lemma ignored_sound w s : Inv w -> collecting w -> s = ∅ -> sound_event s w w.
Proof. intros HI Hcol ->. by apply silent_sound. Qed.

Lemma timer_sound w s : Inv w -> collecting w -> s = ∅ -> sound_event s w (set_timer false true w).
Proof. intros HI Hcol ->. by apply silent_sound; destruct w. Qed.

Lemma dispatch_sound ev w :
  Inv w -> collecting w -> wp (dispatch ev) w (fun _ w' => sound_event (again ev w) w w').
Proof.
  intros HI Hcol. unfold dispatch. apply wp_bind, wp_get. unfold again.
  destruct (event_block ev) as [a|] eqn:Eb.
  2: { destruct (timer w); [by apply wp_modify, timer_sound|by apply wp_ret, ignored_sound]. }
  destruct (heap w !! a) as [c|] eqn:Ha; [|apply wp_ret, ignored_sound; [done|done|by destruct ev]].
  destruct ev as [x r data|x nread data|x status|x|x status res|x status|x status|x fn evs status|
    x signum|x|x es sig|]; try done; injection Eb as ->; unfold run_event; destruct c as [o hd rq];
    cbn [contents handle request].
  - destruct rq as [[op cb| | |]|]; try (by apply wp_ret, ignored_sound). by eapply fs_event_sound.
  - destruct hd as [|[[]|]|]; try (by apply wp_ret, ignored_sound). by eapply read_event_sound.
  - destruct rq as [[|bufs| |]|]; try (by apply wp_ret, ignored_sound). by eapply write_event_sound.
  - destruct hd as [| |cb]; try (by apply wp_ret, ignored_sound).
    destruct rq; try (by apply wp_ret, ignored_sound). by eapply close_event_sound.
  - destruct rq as [[| |node service|]|]; try (by apply wp_ret, ignored_sound).
    destruct (_ && _) eqn:E; [by apply wp_ret, ignored_sound|].
    eapply addrinfo_event_sound; [done|done|exact Ha|]. intros Hs ->.
    apply andb_false_iff in E as [E|E]; [apply Z.leb_gt in E; lia|by apply bool_decide_eq_false in E].
  - destruct rq as [[| | |addr]|]; try (by apply wp_ret, ignored_sound). by eapply connect_event_sound.
  - destruct hd as [|[[]|]|]; try (apply wp_ret, ignored_sound; [done|done|by destruct o]).
    by destruct (listen_event_sound w a o rq status HI Hcol Ha) as (d & -> & Hs).
  - destruct hd as [|[[]|]|]; try (apply wp_ret, ignored_sound; [done|done|by destruct o]).
    by destruct (watch_event_sound w a o rq fn evs status HI Hcol Ha) as (d & -> & Hs).
  - destruct hd as [|[[]|]|]; try (apply wp_ret, ignored_sound; [done|done|by destruct o]).
    destruct (active_block _ _ _ _ (core_cells _ _ _ _ HI a _ Ha)) as [-> _].
    by apply signal_event_sound.
  - destruct hd as [|[[]|]|]; try (by apply wp_ret, ignored_sound). by eapply async_event_sound.
  - destruct hd as [|[[]|]|]; try (by apply wp_ret, ignored_sound). by eapply exit_event_sound.
Qed.

(** Events whose callbacks were accepted for them alone. *)
Definition one_shot (ev : event) : bool :=
  match ev with EvListen _ _ | EvFsEvent _ _ _ _ | EvSignal _ _ => false | _ => true end.

Lemma again_one_shot ev w : one_shot ev = true -> again ev w = ∅.
Proof. unfold again. by destruct ev; cbn; try destruct (heap w !! a). Qed.

(** The callbacks of listeners, path watchers and signal handlers that the events of a run
    deliver. *)
Fixpoint repeated (evs : list event) (w : world) : gmultiset positive :=
  match evs with
  | [] => ∅
  | ev :: evs =>
    again ev w ⊎ match dispatch ev w with Some (_, w') => repeated evs w' | None => ∅ end
  end.

Lemma repeated_one_shot evs : forall w, forallb one_shot evs = true -> repeated evs w = ∅.
Proof.
  induction evs as [|ev evs IH]; intros w; [done|]. cbn [forallb repeated].
  intros [H1 H2]%andb_true_iff. rewrite again_one_shot by done.
  destruct (dispatch ev w) as [[[] w']|]; [rewrite IH by done|]; multiset_solver.
Qed.

(** A run of the loop: everything is sound, and the callbacks delivered were waiting, or those
    of handles that fire repeatedly. *)
Record sound_run (extra : gmultiset positive) (w w' : world) : Prop := {
  run_inv : Inv w';
  run_collecting : collecting w';
  run_lengths : same_lengths (objects w) (objects w');
  run_once : called (g_callbacks w') ⊎ pending (heap w') =
    called (g_callbacks w) ⊎ pending (heap w) ⊎ extra
}.

Lemma uv_run_sound evs : forall w,
  Inv w -> collecting w -> wp (uv_run evs) w (fun _ w' => sound_run (repeated evs w) w w').
Proof.
  induction evs as [|ev evs IH]; intros w HI Hcol.
  - apply wp_ret. constructor; try done. cbn [repeated]. multiset_solver.
  - destruct (wp_result _ _ _ (dispatch_sound ev w HI Hcol)) as ([] & w1 & Hd & [HI1 Hc1 Hm1 Hone]).
    cbn [repeated]. rewrite Hd. apply wp_bind. unfold wp at 1. rewrite Hd.
    eapply wp_mono; [by apply IH|]. intros [] w2 [HI2 Hc2 Hm2 Hex].
    constructor; try done; [by eapply same_lengths_trans|].
    rewrite Hex, Hone. clear. multiset_solver.
Qed.

(** The same for one call of [osi_get_callbacks]. *)
Definition repeated_callbacks (timeout : Z) (evs1 evs2 : list event) (w : world) : gmultiset positive :=
  let w0 := set_callbacks Snil w in
  if 0 =? timeout then repeated evs1 w0 else
  let w1 := set_timer true false w0 in
  repeated evs1 w1 ⊎
  match uv_run evs1 w1 with
  | Some (_, w2) =>
    if negb (timer_data w2) then repeated evs2 (set_timer false (timer_data w2) w2) else ∅
  | None => ∅
  end.

Lemma repeated_callbacks_one_shot timeout evs1 evs2 w :
  forallb one_shot (evs1 ++ evs2) = true -> repeated_callbacks timeout evs1 evs2 w = ∅.
Proof.
  rewrite forallb_app. intros [H1 H2]%andb_true_iff. unfold repeated_callbacks.
  destruct (0 =? timeout); [by apply repeated_one_shot|]. rewrite repeated_one_shot by done.
  destruct (uv_run _ _) as [[[] w2]|]; [|multiset_solver].
  destruct (negb _); [rewrite repeated_one_shot by done|]; multiset_solver.
Qed.

Lemma wait_for_events_sound w timeout evs1 evs2 :
  Inv w -> let w0 := set_callbacks Snil w in
  wp (wait_for_events timeout evs1 evs2) w0 (fun _ w' =>
    sound_run (repeated_callbacks timeout evs1 evs2 w) w0 w').
Proof.
  intros HI w0. assert (HI0 : Inv w0) by done. unfold wait_for_events, repeated_callbacks. fold w0.
  destruct (0 =? timeout); [by apply uv_run_sound|]. apply wp_bind, wp_modify.
  set (w1 := set_timer true false w0).
  destruct (wp_result _ _ _ (uv_run_sound evs1 w1 HI0 (conj eq_refl eq_refl)))
    as ([] & w2 & Hrun & [H1 H2 H3 Hex]).
  apply wp_bind. unfold wp at 1. rewrite Hrun. apply wp_bind, wp_get.
  destruct (negb (timer_data w2)).
  - apply wp_bind, wp_modify.
    eapply wp_mono; [by apply (uv_run_sound evs2 (set_timer false (timer_data w2) w2))|].
    intros [] w3 [K1 K2 K3 Hex']. constructor; try done; [by eapply same_lengths_trans|].
    cbn in Hex, Hex' |- *. rewrite Hex', Hex. clear. multiset_solver.
  - apply wp_ret. constructor; try done. cbn in Hex |- *. rewrite Hex. clear. multiset_solver.
Qed.

Lemma get_callbacks_sound w timeout evs1 evs2 :
  Inv w -> wp (osi_get_callbacks timeout evs1 evs2) w (fun r w' =>
    Inv w' /\ g_callbacks w' = NULL /\ same_lengths (objects w) (objects w') /\
    called r ⊎ pending (heap w') =
      pending (heap w) ⊎ repeated_callbacks timeout evs1 evs2 w).
Proof.
  intros HI. unfold osi_get_callbacks. apply wp_bind, wp_modify, wp_bind.
  eapply wp_mono; [by apply (wait_for_events_sound w timeout evs1 evs2)|].
  intros [] w1 [H1 H2 H3 Hex]. apply wp_bind, wp_get, wp_bind, wp_modify, wp_ret.
  split; [done|]. split; [done|]. split; [done|].
  cbn [called] in Hex. cbn [heap set_callbacks] in *. rewrite Hex. clear. multiset_solver.
Qed.
