(* ===== verification/Program.v ===== *)
(** * Program: the program as a whole

    The operations of osi.c the Scheme program calls, with what it must respect when it calls
    them; the garbage collector; and the theorems about every interleaving of calls, turns of
    the event loop and collections. *)

From S2P Require Import Utf8.
From S2P Require Export EventLoop.

(** ** Calls of the Scheme program *)

Inductive call :=
| CallReadPort (port : Z) (buffer : ptr) (start size offset : Z) (cb : ptr)
| CallWritePort (port : Z) (buffer : ptr) (start size offset : Z) (cb : ptr)
| CallClosePort (port : Z) (cb : ptr)
| CallTcpWrite2 (port : Z) (bv1 bv2 : ptr) (start2 size2 : Z) (cb : ptr)
| CallTcpNodelay (port enable : Z)
| CallFs (c : fs_call) (cb : ptr)
| CallGetFileSize (port : Z) (cb : ptr)
| CallOpenFd (fd close : Z)
| CallWatchPath (path : list Z) (cb : ptr)
| CallClosePathWatcher (watcher : Z)
| CallConnectTcp (node service : list Z) (cb : ptr)
| CallListenTcp (address : list Z) (port : Z) (cb : ptr)
| CallCloseTcpListener (listener : Z)
| CallSpawn (path : list Z) (args cb : ptr)
| CallSpawnDetached (path : list Z) (args : ptr)
| CallStartSignal (signum : Z)
| CallStopSignal (handler : Z)
| CallKill (pid signum : Z).

(** What the foreign procedure of a [void] function returns. *)
Definition Svoid : ptr := Snil.

Definition exec (c : call) : M ptr :=
  match c with
  | CallReadPort port b s n off cb => osi_read_port port b s n off cb
  | CallWritePort port b s n off cb => osi_write_port port b s n off cb
  | CallClosePort port cb => osi_close_port port cb
  | CallTcpWrite2 port b1 b2 s n cb => osi_tcp_write2 port b1 b2 s n cb
  | CallTcpNodelay port enable => osi_tcp_nodelay port enable
  | CallFs c cb => run_fs_call c cb
  | CallGetFileSize port cb => osi_get_file_size port cb
  | CallOpenFd fd close => osi_open_fd fd close
  | CallWatchPath path cb => osi_watch_path path cb
  | CallClosePathWatcher a => _ ← osi_close_path_watcher a; mret Svoid
  | CallConnectTcp node service cb => osi_connect_tcp node service cb
  | CallListenTcp address port cb => osi_listen_tcp address port cb
  | CallCloseTcpListener a => _ ← osi_close_tcp_listener a; mret Svoid
  | CallSpawn path args cb => osi_spawn path args cb
  | CallSpawnDetached path args => osi_spawn_detached path args
  | CallStartSignal signum => osi_start_signal signum
  | CallStopSignal a => osi_stop_signal a
  | CallKill pid signum => osi_kill pid signum
  end.

(** What the program must respect: addresses are those of ports and handles it was given and
    has not closed, callbacks are procedures (or, to close a port, 0), and the integers fit the
    C types; the first buffer of osi_tcp_write2 is a bytevector, since the function takes its length
    before it tests its type ([tcp_write2_undefined]).  The other buffers may be any Scheme values,
    and argument lists are not restricted beyond the validity of strings. *)
Definition usable_port (w : world) (port : Z) : Prop := exists o hd rq, usable w port o hd rq.
Definition open_stream (w : world) (port : Z) : Prop :=
  exists p act rq, heap w !! port = Some (mkCell (StreamPort p) (HOpen act) rq) /\
    unreferenced (heap w) port.
Definition open_handle (w : world) (a : Z) (mk : ptr -> obj) (cb : handle_cb) : Prop :=
  exists d, heap w !! a = Some (mkCell (mk d) (HOpen (Some cb)) None).
Definition valid_args (args : ptr) : Prop :=
  forall strs, scheme_strings args = Some strs -> Forall valid_string strs.

Definition allowed (w : world) (c : call) : Prop :=
  match c with
  | CallReadPort port _ s n _ cb | CallWritePort port _ s n _ cb =>
    usable_port w port /\ is_uint 64 s /\ is_uint 32 n /\ is_obj cb
  | CallClosePort port cb => usable_port w port /\ opt_obj cb
  | CallTcpWrite2 port bv1 _ s n _ =>
    open_stream w port /\ is_Some (Sbytevector w bv1) /\ is_uint 64 s /\ is_uint 32 n
  | CallTcpNodelay port _ => usable_port w port
  | CallFs _ cb | CallWatchPath _ cb | CallConnectTcp _ _ cb | CallListenTcp _ _ cb => is_obj cb
  | CallGetFileSize port cb => usable_port w port /\ is_obj cb
  | CallClosePathWatcher a => open_handle w a UvFsEvent Cb_watch_path
  | CallCloseTcpListener a => open_handle w a UvTcp Cb_listen_tcp
  | CallSpawn _ args cb => is_obj cb /\ valid_args args
  | CallSpawnDetached _ args => valid_args args
  | CallStopSignal a => open_handle w a (fun _ => UvSignal) Cb_fire_signal
  | CallOpenFd _ _ | CallStartSignal _ | CallKill _ _ => True
  end.

(** The callback a call registers to be delivered once. *)
Definition callback_of (c : call) : ptr :=
  match c with
  | CallReadPort _ _ _ _ _ cb | CallWritePort _ _ _ _ _ cb | CallClosePort _ cb
  | CallTcpWrite2 _ _ _ _ _ cb | CallFs _ cb | CallGetFileSize _ cb | CallConnectTcp _ _ cb
  | CallSpawn _ _ cb => cb
  | _ => NULL
  end.

(** The results that accept it: true, and the vector of [osi_spawn]. *)
Definition accepts (r : ptr) : bool :=
  match r with Sbool true | Svector _ => true | _ => false end.

Record sound_call (c : call) (r : ptr) (w w' : world) : Prop := {
  call_inv : Inv w';
  call_objects : objects w' = objects w;
  call_callbacks : g_callbacks w' = g_callbacks w;
  call_pending : pending (heap w') = pending (heap w) ⊎ (if accepts r then lk (callback_of c) else ∅)
}.

Lemma not_accepts who rc : accepts (osi_make_error_pair who rc) = false.
Proof. reflexivity. Qed.

Lemma pending_same h : pending h = pending h ⊎ ∅.
Proof. multiset_solver. Qed.

Lemma submitted_sound c who uv o rq w r w' :
  Inv w' -> submitted who uv (mkCell o HNone rq) w r w' ->
  waiting (mkCell o HNone rq) = lk (callback_of c) -> sound_call c r w w'.
Proof.
  intros HI Hsub Hw. destruct Hsub as [(_ & -> & [Hh _ Ho Hc _])|[(_ & _ & -> & [Hh _ Ho Hc _])|
    (_ & _ & -> & [Hf Hh _ Ho Hc _])]]; constructor; try done.
  - by rewrite not_accepts, Hh, <- pending_same.
  - by rewrite not_accepts, Hh, <- pending_same.
  - rewrite Hh, (pending_insert _ _ _ Hf), Hw. cbn [accepts]. clear. multiset_solver.
Qed.

(** A change of a stream port that makes it wait for [s] more. *)
Lemma stream_pending {w port p hd rq} p' hd' rq' s :
  heap w !! port = Some (mkCell (StreamPort p) hd rq) ->
  lk (close_callback p') ⊎ lk (read_callback p') ⊎ lk (write_callback p') =
  lk (close_callback p) ⊎ lk (read_callback p) ⊎ lk (write_callback p) ⊎ s ->
  pending (<[port := mkCell (StreamPort p') hd' rq']> (heap w)) = pending (heap w) ⊎ s.
Proof.
  intros Hp Hs. pose proof (pending_update _ _ _ (mkCell (StreamPort p') hd' rq') Hp) as Hu.
  unfold waiting in Hu. cbn [contents] in Hu. rewrite Hs in Hu. clear -Hu. multiset_solver.
Qed.

Ltac stream_pending_solve Hp :=
  cbn [accepts osi_make_error_pair callback_of];
  apply (stream_pending _ _ _ _ Hp);
  cbn [set_reading set_writing set_close_callback close_callback read_callback write_callback];
  repeat match goal with H : _ = NULL |- _ => rewrite H end; cbn [lk]; clear; multiset_solver.

Lemma stream_read_sound c w port p act rq o start size offset r w' :
  heap w !! port = Some (mkCell (StreamPort p) (HOpen act) rq) -> Inv w -> Inv w' ->
  stream_read_result w port p rq o start size offset (callback_of c) r w' -> sound_call c r w w'.
Proof.
  intros Hp HI HI' [(_ & -> & ->)|[(_ & _ & -> & ->)|[(_ & Hr & _ & -> & _ & [Hh Ho Hc _])|
    (_ & Hr & -> & _ & [Hh Ho Hc _])]]]; constructor; try done; try apply pending_same;
    rewrite Hh; stream_pending_solve Hp.
Qed.

Lemma stream_write_sound c w port p hd rq o start size offset r w' :
  heap w !! port = Some (mkCell (StreamPort p) hd rq) -> Inv w -> Inv w' ->
  stream_write_result w port p hd rq o start size offset (callback_of c) r w' -> sound_call c r w w'.
Proof.
  intros Hp HI HI' [(_ & -> & ->)|[(_ & _ & -> & ->)|[(_ & Hr & _ & -> & _ & [Hh Ho Hc _])|
    (_ & Hr & -> & _ & [Hh Ho Hc _])]]]; constructor; try done; try apply pending_same;
    rewrite Hh; stream_pending_solve Hp.
Qed.

Lemma refused_sound c who rc w : Inv w -> sound_call c (osi_make_error_pair who rc) w w.
Proof. intros HI. constructor; try done. apply pending_same. Qed.

(** ** Every call keeps the program sound *)

Lemma same_sound c r w w' : Inv w' -> same w w' -> accepts r = false -> sound_call c r w w'.
Proof.
  intros HI [Hh _ Ho Hg _] Hr. constructor; try done. rewrite Hh, Hr. apply pending_same.
Qed.

Lemma started_sound c r a d w w' :
  Inv w' -> started a d w w' -> waiting d = (if accepts r then lk (callback_of c) else ∅) ->
  sound_call c r w w'.
Proof.
  intros HI [Hf Hh _ Ho Hg _] Hw. constructor; try done.
  rewrite Hh, (pending_insert _ _ _ Hf), Hw. by rewrite (comm_L (⊎)).
Qed.

(** A call that replaced one block. *)
Lemma replaced_sound c r a d d' w w' :
  Inv w' -> heap w !! a = Some d -> updated a d' w w' -> waiting d' = waiting d ->
  (if accepts r then lk (callback_of c) else ∅) = ∅ -> sound_call c r w w'.
Proof.
  intros HI Ha [Hh Ho Hg _] Hw Hr. constructor; try done.
  rewrite Hh, (pending_replace _ _ _ _ Ha Hw), Hr. apply pending_same.
Qed.

Lemma read_port_sound w port b s n off cb :
  Inv w -> small_objects (objects w) -> allowed w (CallReadPort port b s n off cb) ->
  wp (osi_read_port port b s n off cb) w (fun r w' =>
    sound_call (CallReadPort port b s n off cb) r w w').
Proof.
  intros HI Hsm ((o & hd & rq & Hu) & Hs & Hn & Hcb).
  eapply wp_mono; [by eapply osi_read_port_spec|].
  intros r w' (HI' & [(_ & -> & ->)|(x & _ & Hr)]); [by apply refused_sound|].
  destruct Hu as [vt file Hp Hu|p act rq Hp Hu]; cbn [read_result] in Hr.
  - by eapply submitted_sound.
  - by eapply stream_read_sound.
Qed.

Lemma write_port_sound w port b s n off cb :
  Inv w -> small_objects (objects w) -> allowed w (CallWritePort port b s n off cb) ->
  wp (osi_write_port port b s n off cb) w (fun r w' =>
    sound_call (CallWritePort port b s n off cb) r w w').
Proof.
  intros HI Hsm ((o & hd & rq & Hu) & Hs & Hn & Hcb).
  eapply wp_mono; [by eapply osi_write_port_spec|].
  intros r w' (HI' & [(_ & -> & ->)|(x & _ & Hr)]); [by apply refused_sound|].
  destruct Hu as [vt file Hp Hu|p act rq Hp Hu]; cbn [write_result] in Hr.
  - by eapply submitted_sound.
  - by eapply stream_write_sound.
Qed.

Lemma close_fd_sound w port vt file cb :
  Inv w -> heap w !! port = Some (mkCell (FsPort vt file) HNone None) ->
  unreferenced (heap w) port -> opt_obj cb ->
  wp (close_fd_port port cb) w (fun r w' => sound_call (CallClosePort port cb) r w w').
Proof.
  intros HI Hp Hu Hcb. eapply wp_mono; [by eapply close_fd_port_spec|].
  intros r w' (HI' & Ho & Hg & [[-> Hsame]|[(uv & rc & hd & Hrc & -> & Hst)|(-> & _ & Hh)]]).
  - by eapply same_sound.
  - eapply started_sound; [done|exact Hst|]. unfold waiting. cbn. by destruct hd as [|[]|].
  - constructor; try done. rewrite Hh.
    assert (Hn : delete port (heap w) !! next w = None)
      by (apply lookup_delete_None; right; by apply (core_fresh _ _ _ _ HI)).
    rewrite (pending_insert _ _ _ Hn), (pending_delete _ _ _ Hp). unfold waiting.
    cbn [contents handle accepts callback_of]. clear. multiset_solver.
Qed.

Lemma close_stream_sound w port p act rq cb :
  Inv w -> heap w !! port = Some (mkCell (StreamPort p) (HOpen act) rq) ->
  unreferenced (heap w) port -> opt_obj cb ->
  wp (close_stream_port port cb) w (fun r w' => sound_call (CallClosePort port cb) r w w').
Proof.
  intros HI Hp Hu Hcb. pose proof (open_closing _ _ _ _ (Core_stream_ok HI _ _ _ _ Hp)) as Hc.
  eapply wp_mono; [by eapply close_stream_port_spec|].
  intros r w' (HI' & -> & _ & [Hh Ho Hg _]). constructor; try done.
  rewrite Hh. stream_pending_solve Hp.
Qed.

Lemma close_port_sound w port cb :
  Inv w -> allowed w (CallClosePort port cb) ->
  wp (osi_close_port port cb) w (fun r w' => sound_call (CallClosePort port cb) r w w').
Proof.
  intros HI ((o & hd & rq & Huse) & Hcb). unfold osi_close_port. apply wp_bind.
  destruct Huse as [vt file Hp Hu|p act rq Hp Hu];
    (eapply wp_load_vtable; [exact Hp|reflexivity|]).
  - destruct (cell_vtable_fs HI _ _ _ _ _ Hp) as [-> | ->]; cbn [vtable_close].
    + by eapply close_fd_sound.
    + eapply wp_mono; [by eapply close_fs_port_spec|]. intros r w' [HI' Hr].
      by eapply submitted_sound.
  - destruct (proj1 (Core_stream_ok HI _ _ _ _ Hp)) as [-> | ->]; cbn [vtable_close];
      by eapply close_stream_sound.
Qed.

Lemma tcp_write2_sound w port b1 b2 s n cb :
  Inv w -> small_objects (objects w) -> allowed w (CallTcpWrite2 port b1 b2 s n cb) ->
  wp (osi_tcp_write2 port b1 b2 s n cb) w (fun r w' =>
    sound_call (CallTcpWrite2 port b1 b2 s n cb) r w w').
Proof.
  intros HI Hsm ((p & act & rq & Hp & Hu) & Hbv & Hs & Hn).
  eapply wp_mono; [by eapply osi_tcp_write2_spec|].
  intros r w' (HI' & [(_ & -> & ->)|(o1 & l1 & o2 & _ & [(_ & -> & ->)|[Hw Hr]])]).
  1,2: by apply refused_sound.
  destruct Hr as [(_ & -> & _ & [Hh Ho Hg _])|(-> & _ & [Hh Ho Hg _])];
    constructor; try done; rewrite Hh; stream_pending_solve Hp.
Qed.

Lemma tcp_nodelay_sound w port enable :
  Inv w -> allowed w (CallTcpNodelay port enable) ->
  wp (osi_tcp_nodelay port enable) w (fun r w' => sound_call (CallTcpNodelay port enable) r w w').
Proof.
  intros HI (o & hd & rq & Huse). unfold osi_tcp_nodelay. apply wp_bind.
  destruct Huse as [vt file Hp Hu|p act rq Hp Hu];
    (eapply wp_load_vtable; [exact Hp|reflexivity|]).
  - destruct (cell_vtable_fs HI _ _ _ _ _ Hp) as [-> | ->]; apply wp_ret; by apply refused_sound.
  - destruct (proj1 (Core_stream_ok HI _ _ _ _ Hp)) as [-> | ->];
      [apply wp_ret; by apply refused_sound|].
    apply wp_bind, wp_uv_result, wp_ret. constructor; try done.
    destruct (_ <? 0); apply pending_same.
Qed.

Lemma fs_call_sound w f cb :
  Inv w -> is_obj cb -> wp (run_fs_call f cb) w (fun r w' => sound_call (CallFs f cb) r w w').
Proof.
  intros HI Hcb. destruct (fs_call_spec f) as [[[who uv] op] k] eqn:E.
  eapply wp_mono; [by eapply run_fs_call_spec|]. intros r w' [HI' Hr]. by eapply submitted_sound.
Qed.

Lemma get_file_size_sound w port cb :
  Inv w -> allowed w (CallGetFileSize port cb) ->
  wp (osi_get_file_size port cb) w (fun r w' => sound_call (CallGetFileSize port cb) r w w').
Proof.
  intros HI ((o & hd & rq & Huse) & Hcb). unfold osi_get_file_size. apply wp_bind.
  destruct Huse as [vt file Hp Hu|p act rq Hp Hu];
    (eapply wp_load_vtable; [exact Hp|reflexivity|]).
  - destruct (cell_vtable_fs HI _ _ _ _ _ Hp) as [-> | ->]; [apply wp_ret; by apply refused_sound|].
    unfold load_fs_port. apply wp_bind, wp_bind. eapply wp_load; [exact Hp|]. cbn [contents].
    apply wp_ret. eapply wp_mono; [by apply fs_request_spec|].
    intros r w' [HI' Hr]. by eapply submitted_sound.
  - destruct (proj1 (Core_stream_ok HI _ _ _ _ Hp)) as [-> | ->]; apply wp_ret; by apply refused_sound.
Qed.

Lemma open_fd_sound w fd close :
  Inv w -> wp (osi_open_fd fd close) w (fun r w' => sound_call (CallOpenFd fd close) r w w').
Proof.
  intros HI. eapply wp_mono; [by apply osi_open_fd_spec|].
  intros r w' (HI' & [(_ & -> & ->)|(_ & _ & [[-> Hs]|[-> Hs]])]).
  - by apply refused_sound.
  - by eapply same_sound.
  - by eapply started_sound.
Qed.

Lemma handle_created_sound c mk cb callback w r w' :
  Inv w' -> handle_created mk cb callback w r w' ->
  (forall d hd, waiting (mkCell (mk d) hd None) = ∅) -> sound_call c r w w'.
Proof.
  intros HI Hc Hw. destruct Hc as [(? & ? & -> & _ & Hs)|[(? & ? & d & -> & _ & _ & Hs)|[-> Hs]]].
  - by eapply same_sound.
  - eapply started_sound; [done|exact Hs|apply Hw].
  - eapply started_sound; [done|exact Hs|apply Hw].
Qed.

Lemma connect_tcp_sound w node service cb :
  Inv w -> is_obj cb -> wp (osi_connect_tcp node service cb) w (fun r w' =>
    sound_call (CallConnectTcp node service cb) r w w').
Proof.
  intros HI Hcb. eapply wp_mono; [by apply osi_connect_tcp_spec|].
  intros r w' (HI' & Ho & Hg & [(? & ? & -> & _ & _ & Hh)|(-> & _ & Hh)]); constructor; try done.
  all: assert (Hf : forall a, next w <= a -> heap w !! a = None) by apply (core_fresh _ _ _ _ HI).
  - destruct Hh as [-> | ->]; [apply pending_same|].
    rewrite pending_insert by (apply Hf; lia). rewrite (comm_L (⊎)). done.
  - rewrite Hh, !pending_insert by (rewrite ?lookup_insert_ne by lia; apply Hf; lia).
    unfold waiting. cbn [contents accepts callback_of new_stream_port close_callback read_callback
      write_callback lk]. clear. multiset_solver.
Qed.

(** Only handles that are being closed appeared. *)
Lemma closing_only_pending h : forall h', closing_only h h' -> pending h' = pending h.
Proof.
  induction h as [|a c h Ha IH] using map_ind; intros h' [H1 H2].
  - assert (Hw : forall a c, h' !! a = Some c -> waiting c = ∅).
    { intros a c Hc. destruct (H2 a c) as [->|[d ->]]; try done; apply lookup_empty. }
    clear H1 H2. induction h' as [|b d h' Hb IH'] using map_ind; [done|].
    rewrite pending_insert by done. rewrite (Hw b d) by apply lookup_insert_eq.
    rewrite IH'; [multiset_solver|]. intros a c Hc. apply (Hw a).
    rewrite lookup_insert_ne by congruence. done.
  - pose proof (H1 a c (lookup_insert_eq _ _ _)) as Hc.
    rewrite (pending_delete _ _ _ Hc), (pending_insert _ _ _ Ha). f_equal. apply IH. split.
    + intros b d Hb. assert (b <> a) by congruence. rewrite lookup_delete_ne by done.
      apply H1. by rewrite lookup_insert_ne.
    + intros b d Hb Hd. apply lookup_delete_Some in Hd as [Hne Hd].
      apply (H2 b d); [by rewrite lookup_insert_ne|done].
Qed.

Lemma spawn_sound w path args cb :
  Inv w -> allowed w (CallSpawn path args cb) -> wp (osi_spawn path args cb) w (fun r w' =>
    sound_call (CallSpawn path args cb) r w w').
Proof.
  intros HI [Hcb Hargs]. destruct (scheme_strings args) as [strs|] eqn:Hx.
  - eapply wp_mono; [by apply (osi_spawn_spec w path args cb strs); auto|].
    intros r w' (HI' & Ho & Hg & [(E & _)|(s & _ & [(? & ? & -> & _ & Hh & _)|
      (pid & p & k & -> & Hp & _ & _ & _ & Hh)])]); [by rewrite Hx in E| |]; constructor; try done.
    + rewrite (closing_only_pending _ _ Hh). apply pending_same.
    + rewrite Hh, (pending_insert _ _ _ Hp). unfold spawn_heap.
      assert (Hf : forall a, next w <= a -> heap w !! a = None) by apply (core_fresh _ _ _ _ HI).
      rewrite !pending_insert by (rewrite ?lookup_insert_ne by lia; apply Hf; lia).
      change (waiting pipe_open) with (∅ ⊎ ∅ ⊎ ∅ : gmultiset positive).
      unfold waiting. cbn [contents child handle is_open accepts callback_of]. clear. multiset_solver.
  - unfold osi_spawn. rewrite string_list_length_spec, Hx. by apply refused_sound.
Qed.

Lemma spawn_detached_sound w path args :
  Inv w -> allowed w (CallSpawnDetached path args) -> wp (osi_spawn_detached path args) w (fun r w' =>
    sound_call (CallSpawnDetached path args) r w w').
Proof.
  intros HI Hargs. destruct (scheme_strings args) as [strs|] eqn:Hx.
  - eapply wp_mono; [by apply (osi_spawn_detached_spec w path args strs); auto|].
    intros r w' (HI' & _ & Ho & Hg & [(? & ? & -> & _ & [Hh|(p & Hp & Hh)])|
      (pid & p & k & -> & Hp & _ & _ & Hh)]); constructor; try done; rewrite Hh;
      rewrite ?(pending_insert _ _ _ Hp); unfold waiting;
      cbn [contents child failed_child handle is_open accepts osi_make_error_pair Sinteger32 lk];
      clear; multiset_solver.
  - unfold osi_spawn_detached. rewrite string_list_length_spec, Hx. by apply refused_sound.
Qed.

Lemma start_signal_sound w signum :
  Inv w -> wp (osi_start_signal signum) w (fun r w' => sound_call (CallStartSignal signum) r w w').
Proof.
  intros HI. eapply wp_mono; [by apply osi_start_signal_spec|].
  intros r w' (HI' & [(? & ? & -> & _ & Hs)|[(? & -> & _ & Hs)|[-> Hs]]]).
  - by eapply same_sound.
  - by eapply started_sound.
  - by eapply started_sound.
Qed.

Lemma stop_signal_sound w a :
  Inv w -> allowed w (CallStopSignal a) ->
  wp (osi_stop_signal a) w (fun r w' => sound_call (CallStopSignal a) r w w').
Proof.
  intros HI [_ Ha]. eapply wp_mono; [by apply osi_stop_signal_spec|].
  intros r w' (HI' & [(-> & _ & Hs)|(-> & _ & Hu)]); [by eapply same_sound|].
  by eapply replaced_sound.
Qed.

(** The state invariant is kept by every call the program may make, and the calls that return
    true are exactly those that registered a callback. *)
Lemma exec_sound w c :
  Inv w -> small_objects (objects w) -> allowed w c ->
  wp (exec c) w (fun r w' => sound_call c r w w').
Proof.
  intros HI Hsm Hall. destruct c; cbn [exec].
  - by apply read_port_sound.
  - by apply write_port_sound.
  - by apply close_port_sound.
  - by apply tcp_write2_sound.
  - by apply tcp_nodelay_sound.
  - by apply fs_call_sound.
  - by apply get_file_size_sound.
  - by apply open_fd_sound.
  - eapply wp_mono; [by apply osi_watch_path_spec|]. intros r w' [HI' Hr].
    by eapply handle_created_sound.
  - destruct Hall as [d Ha]. apply wp_bind. eapply wp_mono; [by eapply osi_close_path_watcher_spec|].
    intros _ w' (HI' & _ & Hu). apply wp_ret. by eapply replaced_sound.
  - by apply connect_tcp_sound.
  - eapply wp_mono; [by apply osi_listen_tcp_spec|]. intros r w' [HI' Hr].
    by eapply handle_created_sound.
  - destruct Hall as [d Ha]. apply wp_bind. eapply wp_mono; [by eapply osi_close_tcp_listener_spec|].
    intros _ w' (HI' & _ & Hu). apply wp_ret. by eapply replaced_sound.
  - by apply spawn_sound.
  - by apply spawn_detached_sound.
  - by apply start_signal_sound.
  - by apply stop_signal_sound.
  - unfold osi_kill. apply wp_bind, wp_uv_result.
    destruct (_ <? 0); apply wp_ret; constructor; try done; apply pending_same.
Qed.

(** ** The garbage collector *)

(** What happens to the Scheme heap between two calls: the collector may move or free every
    object that is not locked and the program may create and change objects, but an object
    that is locked stays where it is. *)
Definition collected (l : gmultiset positive) (m m' : gmap positive object) : Prop :=
  forall o, o ∈ l -> size <$> m' !! o = size <$> m !! o.

Lemma buf_ok_collected l m m' o s n :
  collected l m m' -> o ∈ l -> buf_ok m (o, s, n) -> buf_ok m' (o, s, n).
Proof.
  intros Hm Ho (b & Hb & H1 & H2 & H3). specialize (Hm o Ho). rewrite Hb in Hm.
  destruct (m' !! o) as [[|b']|] eqn:E; try done. injection Hm as Hlen.
  exists b'. by rewrite E, Hlen.
Qed.

(** The buffers a block refers to are among the objects it has locked. *)
Lemma cell_ok_collected c m m' : collected (owned c) m m' -> cell_ok m c -> cell_ok m' c.
Proof.
  destruct c as [o hd rq]. unfold cell_ok, owned. cbn [contents handle request].
  destruct o; try done; intros Hm.
  - intros (Hv & Hr & Hw & Hc). repeat split; try done.
    + destruct Hr as [Hr|(b & Hb & [k Hk] & Hbuf & Hh)]; [by left|]. right. exists b.
      repeat split; try done; [by exists k|]. eapply buf_ok_collected; [exact Hm| |done].
      rewrite Hb, Hk. cbn [is_null lk]. multiset_solver.
    + destruct Hw as [Hw|(b & bufs & Hb & [k Hk] & Hrq & Hbufs & Hsh)]; [by left|].
      right. exists b, bufs. repeat split; try done; [by exists k|].
      rewrite Hb, Hk in Hm. cbn [is_null Z.eqb lk] in Hm.
      destruct Hsh as [[Hn (s & n & ->)]|(b2 & s & n & s2 & n2 & Hb2 & ->)].
      * rewrite Forall_singleton in *.
        eapply buf_ok_collected; [exact Hm| |done]. multiset_solver.
      * rewrite Hb2 in Hm. cbn [lk] in Hm. rewrite Forall_cons, Forall_singleton in *.
        destruct Hbufs as [H1 H2]. split; (eapply buf_ok_collected; [exact Hm| |done]); multiset_solver.
  - intros (Hh & Hcb & op & b & s & n & Hrq & Hop & -> & Hbuf). repeat split; try done.
    exists op, b, s, n. repeat split; try done. eapply buf_ok_collected; [exact Hm| |done].
    cbn [lk]. multiset_solver.
Qed.

Lemma Inv_collected w m' : Inv w -> collected (locks w) (objects w) m' -> Inv (set_objects m' w).
Proof.
  intros HI Hm. pose proof HI as [H1 H2 H3 H4 H5 H6]. constructor; try done.
  intros a c Ha. eapply cell_ok_collected; [|by apply (H3 a)]. intros o Ho. apply Hm.
  pose proof (Core_owned HI a c Ha) as Hs. multiset_solver.
Qed.

(** ** Runs of the program *)

(** A state of a run: the world, with the callbacks accepted and delivered so far. *)
Record run := mkRun {
  state : world;
  accepted : gmultiset positive;
  delivered : gmultiset positive
}.

(** The callbacks of a listener, a path watcher or a signal handler count as accepted each time
    an event of the handle occurs. *)
Inductive step : run -> run -> Prop :=
| step_call w acc del c r w' :
    allowed w c -> exec c w = Some (r, w') ->
    step (mkRun w acc del)
         (mkRun w' (acc ⊎ (if accepts r then lk (callback_of c) else ∅)) del)
| step_callbacks w acc del timeout evs1 evs2 r w' :
    osi_get_callbacks timeout evs1 evs2 w = Some (r, w') ->
    step (mkRun w acc del)
         (mkRun w' (acc ⊎ repeated_callbacks timeout evs1 evs2 w) (del ⊎ called r))
| step_collect w acc del m' :
    collected (locks w) (objects w) m' -> small_objects m' ->
    step (mkRun w acc del) (mkRun (set_objects m' w) acc del).

(** The runs from the state in which nothing is allocated.  The answers of [malloc] and of
    libuv are arbitrary. *)
Definition reachable (s : run) : Prop :=
  exists m answers, small_objects m /\ rtc step (mkRun (empty_world m answers) ∅ ∅) s.

Definition consistent (s : run) : Prop :=
  Inv (state s) /\ small_objects (objects (state s)) /\
  accepted s = delivered s ⊎ pending (heap (state s)).

Lemma small_objects_lengths m m' : same_lengths m m' -> small_objects m -> small_objects m'.
Proof.
  intros Hm Hs o l Hl. specialize (Hm o). rewrite Hl in Hm.
  destruct (m !! o) as [[|b]|] eqn:E; try done. injection Hm as ->. by eapply Hs.
Qed.

Lemma step_consistent s s' : step s s' -> consistent s -> consistent s'.
Proof.
  intros Hstep (HI & Hsm & Hacc). destruct Hstep as [w acc del c r w' Hall Hrun|
    w acc del timeout evs1 evs2 r w' Hrun|w acc del m' Hm Hsm']; cbn [state accepted delivered] in *.
  - pose proof (exec_sound w c HI Hsm Hall) as Hs. unfold wp in Hs. rewrite Hrun in Hs.
    destruct Hs as [HI' Ho _ Hp]. unfold consistent. cbn [state accepted delivered].
    rewrite Ho, Hp, Hacc. split; [done|]. split; [done|]. clear. multiset_solver.
  - pose proof (get_callbacks_sound w timeout evs1 evs2 HI) as Hs. unfold wp in Hs. rewrite Hrun in Hs.
    destruct Hs as (HI' & _ & Hl & Hp). unfold consistent. cbn [state accepted delivered].
    split; [done|]. split; [by eapply small_objects_lengths|].
    rewrite <- (assoc_L (⊎)), Hp, Hacc. clear. multiset_solver.
  - split; [by apply Inv_collected|]. split; done.
Qed.

Lemma reachable_consistent s : reachable s -> consistent s.
Proof.
  intros (m & ans & Hsm & Hr). assert (H0 : consistent (mkRun (empty_world m ans) ∅ ∅)).
  { split; [apply empty_Inv|]. by split. }
  revert H0. induction Hr as [|s1 s2 s3 H12 _ IH]; [done|]. intros H1.
  apply IH. by eapply step_consistent.
Qed.

(** C1: in every state the program can reach, every call it is entitled to make ([allowed]) runs to the
    end, and so does every turn of the event loop whatever libuv reports: no block is used after
    it was freed or freed twice, no handle is closed twice or freed while libuv uses it, no
    buffer is accessed that is not locked or outside its bounds, and no callback is delivered
    when the list does not exist. *)
Theorem program_safe s :
  reachable s ->
  (forall c, allowed (state s) c -> exists r w', exec c (state s) = Some (r, w')) /\
  (forall timeout evs1 evs2, exists r w', osi_get_callbacks timeout evs1 evs2 (state s) = Some (r, w')).
Proof.
  intros (HI & Hsm & _)%reachable_consistent. split.
  - intros c Hc. destruct (wp_result _ _ _ (exec_sound _ c HI Hsm Hc)) as (r & w' & Hr & _). eauto.
  - intros timeout evs1 evs2.
    destruct (wp_result _ _ _ (get_callbacks_sound _ timeout evs1 evs2 HI)) as (r & w' & Hr & _). eauto.
Qed.

(** C2: no callback is lost or delivered twice: those that were accepted are exactly those that
    were delivered together with those a request or a handle still waits for. *)
Theorem callbacks_exactly_once s :
  reachable s -> accepted s = delivered s ⊎ pending (heap (state s)).
Proof. by intros (_ & _ & H)%reachable_consistent. Qed.

(** A block that holds no lock: a port nothing is done with, or a signal handler. *)
Definition at_rest (c : cell) : Prop :=
  match contents c with
  | FsPort _ _ | UvSignal => True
  | StreamPort p => close_callback p = NULL /\ read_callback p = NULL /\ write_callback p = NULL
  | _ => False
  end.

Lemma at_rest_owned c : at_rest c -> owned c = ∅.
Proof.
  destruct c as [o hd rq]. unfold at_rest, owned. cbn [contents]. destruct o; try done.
  intros (-> & -> & ->). cbn [is_null Z.eqb lk]. multiset_solver.
Qed.

Lemma total_at_rest h : (forall a c, h !! a = Some c -> at_rest c) -> total h = ∅.
Proof.
  induction h as [|a c h Ha IH] using map_ind; intros Hr; [done|].
  unfold total. rewrite (sum_insert owned h a c Ha).
  rewrite (at_rest_owned c (Hr a c (lookup_insert_eq _ _ _))).
  unfold total in IH. rewrite IH; [multiset_solver|].
  intros b d Hb. apply (Hr b). by rewrite lookup_insert_ne by congruence.
Qed.

Lemma waiting_owned c : waiting c ⊆ owned c.
Proof.
  destruct c as [o hd rq]. unfold waiting, owned. cbn [contents handle].
  destruct o; try solve [repeat case_match; multiset_solver].
  destruct (read_callback p), (write_callback p); cbn [is_null lk];
    repeat case_match; multiset_solver.
Qed.

Lemma pending_total h : pending h ⊆ total h.
Proof.
  induction h as [|a c h Ha IH] using map_ind; [done|].
  unfold pending, total in *. rewrite !(sum_insert _ h a c Ha).
  pose proof (waiting_owned c) as H. clear -H IH. multiset_solver.
Qed.

(** C3: an object is locked exactly as many times as the blocks that are still needed refer to
    it: in particular a callback stays locked until it is delivered, and a state in which
    nothing is in progress has no locks. *)
Theorem locks_balanced s :
  reachable s ->
  locks (state s) = total (heap (state s)) /\ pending (heap (state s)) ⊆ locks (state s) /\
  ((forall a c, heap (state s) !! a = Some c -> at_rest c) -> locks (state s) = ∅).
Proof.
  intros (HI & _ & _)%reachable_consistent. pose proof (core_locks _ _ _ _ HI) as Hl.
  split; [done|]. rewrite Hl. split; [apply pending_total|apply total_at_rest].
Qed.

(** ** A concrete run *)

(** The state after an action. *)
Definition after {A} (m : M A) (w : world) : world :=
  match m w with Some (_, w') => w' | None => w end.

(** A file is renamed with callback 7 while a path is watched with callback 8; then the watcher
    fires twice and the request completes. *)
Definition rename_call : call := CallFs (Rename [0x61] [0x62]) (Sobj 7).
Definition watch_call : call := CallWatchPath [0x61] (Sobj 8).
Definition example_events : list event :=
  [EvFsEvent 2 (Some [0x61]) 1 0; EvFs 1 (mkFsResult 0 [] [] [] []) []; EvFsEvent 2 None 2 0].

Definition world0 : world := empty_world ∅ (fun _ => 1).
Definition world1 : world := after (exec rename_call) world0.
Definition world2 : world := after (exec watch_call) world1.
Definition world3 : world := after (osi_get_callbacks 0 example_events []) world2.

(** In progress, and at its end. *)
Definition run2 : run := mkRun world2 (∅ ⊎ {[+ 7%positive +]} ⊎ ∅) ∅.
Definition run3 : run :=
  mkRun world3 (∅ ⊎ {[+ 7%positive +]} ⊎ ∅ ⊎ repeated_callbacks 0 example_events [] world2)
    (∅ ⊎ called (Scons (Scons (Sobj 8) Snil) (Scons (Scons (Sobj 7) Snil) (Scons (Scons (Sobj 8) Snil) Snil)))).

Lemma run2_reachable : reachable run2.
Proof.
  exists ∅, (fun _ => 1). split; [done|].
  eapply rtc_l; [eapply (step_call _ _ _ rename_call Strue world1); [by eexists|vm_compute; reflexivity]|].
  eapply rtc_l; [eapply (step_call _ _ _ watch_call (Sint 2) world2); [by eexists|vm_compute; reflexivity]|].
  apply rtc_refl.
Qed.

Lemma run3_reachable : reachable run3.
Proof.
  destruct run2_reachable as (m & ans & Hm & Hr). exists m, ans. split; [done|].
  eapply rtc_r; [exact Hr|]. unfold run2, run3.
  pose proof (step_callbacks world2 (∅ ⊎ {[+ 7%positive +]} ⊎ ∅) ∅ 0 example_events []) as H.
  destruct (osi_get_callbacks 0 example_events [] world2) as [[r w']|] eqn:E;
    [|by vm_compute in E].
  specialize (H r w' eq_refl).
  replace (called (Scons _ _)) with (called r).
  - unfold world3, after. rewrite E. exact H.
  - vm_compute in E. injection E as <- <-. reflexivity.
Qed.

Lemma program_safe_witness :
  exists r w', exec (CallClosePathWatcher 2) world3 = Some (r, w').
Proof.
  destruct (program_safe run3 run3_reachable) as [H _]. apply (H (CallClosePathWatcher 2)).
  exists (Sobj 8). vm_compute. reflexivity.
Defined.

Lemma callbacks_exactly_once_witness :
  accepted run3 = {[+ 8%positive; 7%positive; 8%positive +]} ⊎ pending (heap world3) /\
  accepted run2 = ∅ ⊎ {[+ 7%positive +]}.
Proof.
  split.
  - rewrite (callbacks_exactly_once run3 run3_reachable). vm_compute. reflexivity.
  - rewrite (callbacks_exactly_once run2 run2_reachable). vm_compute. reflexivity.
Defined.

Lemma locks_balanced_witness : locks world2 = {[+ 7%positive; 8%positive +]}.
Proof.
  destruct (locks_balanced run2 run2_reachable) as [H _].
  cbn [state run2] in H. rewrite H. vm_compute. reflexivity.
Defined.
