(* ===== verification/Service.v ===== *)
(** * Service: running Scheme, as a program and as a service

    run.c after the boot file is known: [swish_start], [swish_run], the Linux service with the
    messages of the system bus, and the Windows service with its control handler and its log
    file.  The process is a trace of what it does outside of Scheme, [g_exit] and
    [g_is_service]; it can end before the function returns.  What the system answers, and how
    Scheme ends, are fields of an environment. *)

From S2P Require Export Startup Ownership.
From S2P Require Import Format.

(** ** Standard files *)

Inductive file := Log_file | Nul_file | Other_file (n : Z).

(** The descriptors, and those of the streams [stdout], [stderr] and [stdin], if any. *)
Record files := mkFiles { descriptors : gmap Z file; so : option Z; se : option Z; si : option Z }.

(** [_dup2]: the second descriptor names the file of the first. *)
Definition dup2 (from to : Z) (d : gmap Z file) : option (gmap Z file) :=
  f ← d !! from; Some (<[to := f]> d).
(** [_wfreopen_s] on [NUL]: the descriptor of the stream, if it has one, is closed, and a free one
    opened. *)
Definition freopen_nul (stream : option Z) (new : Z) (d : gmap Z file) : option (gmap Z file) :=
  let d := match stream with Some n => delete n d | None => d end in
  match d !! new with None => Some (<[new := Nul_file]> d) | Some _ => None end.

(** The redirections of [swish_service]: [flog] is the descriptor of the log file, [o], [e] and
    [i] those the streams are given. *)
Definition redirect (flog o e i : Z) (f : files) : option files :=
  let d := <[flog := Log_file]> (descriptors f) in
  d ← dup2 flog 1 d;
  d ← dup2 flog 2 d;
  d ← freopen_nul (so f) o d;
  d ← dup2 flog o d;
  d ← freopen_nul (se f) e d;
  d ← dup2 flog e d;
  let d := delete flog d in
  d ← freopen_nul (si f) i d;
  d ← dup2 i 0 d;
  Some (mkFiles d (Some o) (Some e) (Some i)).

(** ** Processes *)

(** What the process does, newest first. *)
Inductive event :=
| Scheme_call (e : start_event)
| Sscheme_start (argc : Z) (argv : list (list Z))
| Exit_step (e : exit_event)
| Sscheme_deinit
| Sd_bus_default_system | Sd_bus_get_fd | Uv_poll_init (fd : Z)
| Sd_bus_add_match (rule : list Z) (member : string)
| Uv_poll_start (events : Z)
| Sd_notify (text : string)
| Sd_bus_unref | Uv_poll_stop | Uv_close_poll | Drop_pending | Uv_loop_close
| Perror (target : string)
| RegisterServiceCtrlHandler (name : list Z)
| SetServiceStatus (state accepted exit_code wait_hint : Z)
| Console_event (text : list Z)
| StartServiceCtrlDispatcher (name : list Z).

Record process := mkProcess { trace : list event; g_exit : jmp_t; g_is_service : bool; standard_files : files }.

(** How the process ends before the function returns: [exit] or [_exit]. *)
Inductive ending := Exit (status : Z) | Underscore_exit (status : Z).

(** A computation of the process: [inl] when it has ended, [None] for undefined behaviour. *)
Definition P (A : Type) : Type := process -> option (process * (ending + A)).
#[global] Instance P_ret : MRet P := fun A x p => Some (p, inr x).
#[global] Instance P_bind : MBind P := fun A B f m p =>
  match m p with
  | Some (p, inr x) => f x p
  | Some (p, inl e) => Some (p, inl e)
  | None => None
  end.

Definition emit (e : event) : P unit := fun p => Some (mkProcess (e :: trace p) (g_exit p) (g_is_service p) (standard_files p), inr tt).
Definition exits {A} (e : ending) : P A := fun p => Some (p, inl e).
Definition get_exit : P jmp_t := fun p => Some (p, inr (g_exit p)).
Definition set_exit (g : jmp_t) : P unit := fun p => Some (mkProcess (trace p) g (g_is_service p) (standard_files p), inr tt).
Definition set_is_service : P unit := fun p => Some (mkProcess (trace p) (g_exit p) true (standard_files p), inr tt).
Definition redirect_files (flog o e i : Z) : P unit := fun p =>
  f ← redirect flog o e i (standard_files p); Some (mkProcess (trace p) (g_exit p) (g_is_service p) f, inr tt).
Fixpoint emit_all (l : list event) : P unit :=
  match l with [] => mret tt | e :: l => _ ← emit e; emit_all l end.

Definition osi_is_service (p : process) : bool := g_is_service p.

(** ** Running Scheme *)

(** [scheme_init] of Startup.v. *)
Definition init_scheme (windows : bool) (exepath : answer) (allocated : bool) (argc : Z) (argv : list (list Z))
    (custom_init : option (list string)) : P unit := fun p =>
  match scheme_init windows exepath allocated argc argv custom_init with
  | Some (inl status) => exits (Exit status) p
  | Some (inr evs) => emit_all (Scheme_call <$> evs) p
  | None => None
  end.

(** How [Sscheme_start] ends: it returns, or calls [osi_exit] with a loop that is busy or not;
    the jump goes back to [setjmp]. *)
Definition run_scheme (argc : Z) (argv : list (list Z)) (r : scheme_run) : P unit :=
  _ ← emit (Sscheme_start argc argv);
  g ← get_exit;
  match r with
  | Scheme_returns z => set_exit (mkJmp (initialized g) z (force g))
  | Scheme_exits z busy =>
    let '(evs, result) := osi_exit g z busy in
    _ ← emit_all (Exit_step <$> evs);
    match result with inl g => set_exit g | inr z => exits (Underscore_exit z) end
  end.

Definition swish_start (argc : Z) (argv : list (list Z)) (r : scheme_run) : P Z :=
  g ← get_exit;
  _ ← set_exit (mkJmp true (status g) (force g));
  _ ← run_scheme argc argv r;
  _ ← emit Sscheme_deinit;
  g ← get_exit;
  mret (status g).

(** The answers [scheme_init] depends on, and how Scheme ends. *)
Record environment := mkEnv { exepath : answer; allocated : bool; scheme : scheme_run }.

Definition swish_run (windows : bool) (e : environment) (argc : Z) (argv : list (list Z))
    (custom_init : option (list string)) : P Z :=
  _ ← init_scheme windows (exepath e) (allocated e) argc argv custom_init;
  rc ← swish_start argc argv (scheme e);
  g ← get_exit;
  if force g then exits (Underscore_exit rc) else mret rc.

(** ** Calls of Scheme from the services *)

(** [Stop_level_value] of a symbol. *)
Section callbacks.
Variable top_level_value : string -> ptr.

Definition request_call (arg : string) : M unit :=
  let callback := top_level_value arg in
  osi_add_callback_list callback Snil.

(** ** The Linux service *)

Definition prepareForShutdown : string := "PrepareForShutdown".
Definition prepareForSleep : string := "PrepareForSleep".
Definition ENOSYS : Z := 38.

(** A message: whether its signature is one boolean, and what reading it gives.  The result of
    [handle_message] comes with the text given to [sd_notify]. *)
Record message := mkMessage { has_signature : bool; read_rc : Z; read_data : Z }.

Definition handle_message (m : message) (userdata : string) : M (Z * option string) :=
  if negb (has_signature m) then mret (- ENOSYS, None) else
  if read_rc m <? 0 then mret (read_rc m, None) else
  let data := negb (read_data m =? 0) in
  if bool_decide (userdata = prepareForShutdown) && data then
    _ ← request_call "$shutdown";
    mret (0, Some "STOPPING=1"%string)
  else if bool_decide (userdata = prepareForSleep) then
    _ ← request_call (if data then "$suspend" else "$resume");
    mret (0, None)
  else mret (0, None).

(** One [sd_bus_process]: its result, and the message it dispatched, with the member it
    matches. *)
Record bus_turn := mkTurn { turn_rc : Z; dispatched : option (message * string) }.

(** [process_sd_bus_message], [fuel] turns of its loop from turn [i] on; [None] when it has not
    ended by then. *)
Fixpoint process_sd_bus_message (fuel : nat) (bus : nat -> bus_turn) (i : nat) : M (option nat) :=
  match fuel with
  | O => mret None
  | S fuel =>
    _ ← (match dispatched (bus i) with
         | Some (m, member) => _ ← handle_message m member; mret tt
         | None => mret tt
         end);
    if turn_rc (bus i) =? 0 then mret (Some i) else process_sd_bus_message fuel bus (S i)
  end.
End callbacks.

(** [FAIL] and [CHECK]. *)
Definition FAIL {A} (target : string) : P A := _ ← emit (Perror target); exits (Exit 1).
Definition CHECK (target : string) (rc : Z) : P unit := if rc <? 0 then FAIL target else mret tt.

(** The rule of [match_login1_manager_signal]. *)
Definition match_rule (member : string) : list Z :=
  chars "type='signal',sender='org.freedesktop.login1',path='/org/freedesktop/login1',interface='org.freedesktop.login1.Manager',member='"
    ++ chars member ++ chars "'".
Definition match_login1_manager_signal (add_match : Z) (member : string) : P unit :=
  if 256 <=? Z.of_nat (length (match_rule member)) then FAIL "snprintf" else
  _ ← emit (Sd_bus_add_match (snprintf 256 (match_rule member)) member);
  CHECK "sd_bus_add_match" add_match.

Definition UV_READABLE : Z := 1.
Definition UV_DISCONNECT : Z := 4.
Definition UV_PRIORITIZED : Z := 8.

(** The results of the calls it checks, in order, and of the last [uv_loop_close]. *)
Record bus_results := mkBus {
  default_system : Z; get_fd : Z; poll_init : Z; add_shutdown : Z; add_sleep : Z; poll_start : Z;
  loop_close : Z
}.

Definition swish_service (e : environment) (b : bus_results) (argc : Z) (argv : list (list Z)) : P Z :=
  _ ← set_is_service;
  _ ← init_scheme false (exepath e) (allocated e) argc argv None;
  _ ← emit Sd_bus_default_system;
  _ ← CHECK "sd_bus_default_system" (default_system b);
  _ ← emit Sd_bus_get_fd;
  let fd := get_fd b in
  if fd <? 0 then FAIL "sd_bus_get_fd" else
  _ ← emit (Uv_poll_init fd);
  if negb (poll_init b =? 0) then FAIL "uv_poll_init" else
  _ ← match_login1_manager_signal (add_shutdown b) prepareForShutdown;
  _ ← match_login1_manager_signal (add_sleep b) prepareForSleep;
  let events := Z.lor (Z.lor UV_READABLE UV_DISCONNECT) UV_PRIORITIZED in
  _ ← emit (Uv_poll_start events);
  if negb (poll_start b =? 0) then FAIL "uv_poll_start" else
  _ ← emit (Sd_notify "READY=1");
  status ← swish_start argc argv (scheme e);
  _ ← emit Sd_bus_unref;
  _ ← emit Uv_poll_stop;
  _ ← emit Uv_close_poll;
  _ ← emit Drop_pending;
  _ ← emit Uv_loop_close;
  g ← get_exit;
  let force := negb (loop_close b =? 0) in
  _ ← set_exit (mkJmp (initialized g) (Startup.status g) force);
  if force then exits (Underscore_exit status) else mret status.

(** ** The Windows service *)

Definition SERVICE_WIN32_OWN_PROCESS : Z := 0x10.
Definition SERVICE_STOPPED : Z := 1.
Definition SERVICE_STOP_PENDING : Z := 3.
Definition SERVICE_RUNNING : Z := 4.
Definition SERVICE_ACCEPT_STOP : Z := 1.
Definition SERVICE_ACCEPT_SHUTDOWN : Z := 4.
Definition SERVICE_ACCEPT_POWEREVENT : Z := 0x40.
Definition SERVICE_CONTROL_STOP : Z := 1.
Definition SERVICE_CONTROL_INTERROGATE : Z := 4.
Definition SERVICE_CONTROL_SHUTDOWN : Z := 5.
Definition SERVICE_CONTROL_POWEREVENT : Z := 13.
Definition PBT_APMSUSPEND : Z := 4.
Definition PBT_APMRESUMEAUTOMATIC : Z := 18.
Definition NO_ERROR : Z := 0.
Definition ERROR_CALL_NOT_IMPLEMENTED : Z := 120.

(** The fields of [g_service_status] the code writes. *)
Record service_status := mkServiceStatus {
  dwServiceType : Z; dwCurrentState : Z; dwControlsAccepted : Z; dwWin32ExitCode : Z; dwWaitHint : Z
}.
Definition set_current_state (x : Z) (s : service_status) : service_status :=
  mkServiceStatus (dwServiceType s) x (dwControlsAccepted s) (dwWin32ExitCode s) (dwWaitHint s).
Definition set_wait_hint (x : Z) (s : service_status) : service_status :=
  mkServiceStatus (dwServiceType s) (dwCurrentState s) (dwControlsAccepted s) (dwWin32ExitCode s) x.
Definition set_exit_code (x : Z) (s : service_status) : service_status :=
  mkServiceStatus (dwServiceType s) (dwCurrentState s) (dwControlsAccepted s) x (dwWaitHint s).
Definition set_running (s : service_status) : service_status :=
  mkServiceStatus SERVICE_WIN32_OWN_PROCESS SERVICE_RUNNING
    (Z.lor (Z.lor SERVICE_ACCEPT_STOP SERVICE_ACCEPT_SHUTDOWN) SERVICE_ACCEPT_POWEREVENT)
    (dwWin32ExitCode s) (dwWaitHint s).

(** [service_control_handler], which the system calls in a thread of its own: its result, the new
    status, whether it is reported, and the argument of [request_call] in the request it sends
    with [osi_send_request]. *)
Definition service_control_handler (dwControl dwEventType : Z) (s : service_status) :
    Z * service_status * bool * option string :=
  if dwControl =? SERVICE_CONTROL_INTERROGATE then (NO_ERROR, s, false, None)
  else if (dwControl =? SERVICE_CONTROL_SHUTDOWN) || (dwControl =? SERVICE_CONTROL_STOP) then
    let s := set_wait_hint 60000 (set_current_state SERVICE_STOP_PENDING s) in
    (NO_ERROR, s, true, Some "$shutdown"%string)
  else if dwControl =? SERVICE_CONTROL_POWEREVENT then
    (ERROR_CALL_NOT_IMPLEMENTED, s, false,
     if PBT_APMSUSPEND =? dwEventType then Some "$suspend"%string
     else if PBT_APMRESUMEAUTOMATIC =? dwEventType then Some "$resume"%string else None)
  else (ERROR_CALL_NOT_IMPLEMENTED, s, false, None).

(** [%u]. *)
Definition format_u (z : Z) : list Z := digits 10 (u32 z).

(** The text of the event; the date and the time [console_event_handler] prints with it are those
    of the system. *)
Definition console_event_handler (event : list Z) : P unit := emit (Console_event event).

(** [sprintf_s]; a text that does not fit the buffer is an invalid parameter. *)
Definition sprintf_s (size : Z) (text : list Z) : P (list Z) := fun p =>
  if fits size text then Some (p, inr text) else None.

Definition fatal_last_error {A} (who : string) (last_error : Z) : P A :=
  msg ← sprintf_s 80 (chars "#(fatal-error " ++ chars who ++ chars " " ++ format_u last_error ++ chars ")");
  _ ← console_event_handler msg;
  exits (Exit 4).

Definition report_status (s : service_status) : P unit :=
  emit (SetServiceStatus (dwCurrentState s) (dwControlsAccepted s) (dwWin32ExitCode s) (dwWaitHint s)).

(** The status after a list of controls, each with its event type. *)
Definition handle_controls (controls : list (Z * Z)) (s : service_status) : service_status :=
  fold_left (fun s '(dwControl, dwEventType) => (service_control_handler dwControl dwEventType s).1.1.2) controls s.

(** Whether the calls of the service manager succeed, the error when one does not, and the controls
    the handler has been called with by the time Scheme ends. *)
Record manager := mkManager {
  registered : bool; starts : bool; last_error : Z; controls : list (Z * Z)
}.

(** The global variables the two functions share. *)
Record service_globals := mkGlobals { g_service_name : list Z; g_argc : Z; g_argv : list (list Z) }.

Definition service_run (e : environment) (m : manager) (g : service_globals) : P unit :=
  _ ← set_is_service;
  _ ← init_scheme true (exepath e) (allocated e) (g_argc g) (g_argv g) None;
  _ ← emit (RegisterServiceCtrlHandler (g_service_name g));
  if negb (registered m) then fatal_last_error "RegisterServiceCtrlHandlerEx" (last_error m) else
  let s := set_running (mkServiceStatus 0 0 0 0 0) in
  _ ← report_status s;
  status ← swish_start (g_argc g) (g_argv g) (scheme e);
  msg ← sprintf_s 80 (chars "#(osi_exit " ++ format_u status ++ chars ")");
  _ ← console_event_handler msg;
  let s := handle_controls (controls m) s in
  report_status (set_current_state SERVICE_STOPPED (set_exit_code (u32 status) s)).

(** ** The service itself *)

(** [swish_service] of Windows: [opened] has the descriptor of the log file, if it could be opened,
    and those the streams are given; the dispatcher runs [service_run]. *)
Definition swish_service_windows (opened : option (Z * Z * Z * Z)) (e : environment) (m : manager)
    (service_name : list Z) (argc : Z) (argv : list (list Z)) : P Z :=
  match opened with
  | None => mret 1
  | Some (flog, o, e_, i) =>
    _ ← redirect_files flog o e_ i;
    _ ← console_event_handler (chars "service-starting");
    let g := mkGlobals service_name argc argv in
    _ ← emit (StartServiceCtrlDispatcher service_name);
    if negb (starts m) then fatal_last_error "StartServiceCtrlDispatcher" (last_error m) else
    _ ← service_run e m g;
    mret 0
  end.

(** ** Running Scheme: what is done and the status *)

(** Events in the order of time. *)
Definition did (l : list event) (p : process) : process := mkProcess (rev l ++ trace p) (g_exit p) (g_is_service p) (standard_files p).

Lemma bind_emit {A} e (k : P A) p : (_ ← emit e; k) p = k (did [e] p).
Proof. done. Qed.
Lemma did_did l l' p : did l' (did l p) = did (l ++ l') p.
Proof. unfold did. cbn. by rewrite rev_app_distr, app_assoc. Qed.
Lemma emit_all_did l : forall p, emit_all l p = Some (did l p, inr tt).
Proof.
  induction l as [|e l IH]; intros p; cbn [emit_all]; [by destruct p|].
  rewrite bind_emit, IH, did_did. done.
Qed.

(** The status Scheme ends with, whether the loop was left busy, and what happens. *)
Definition scheme_status (r : scheme_run) : Z := match r with Scheme_returns z | Scheme_exits z _ => z end.
Definition left_busy (r : scheme_run) (before : bool) : bool :=
  match r with Scheme_returns _ => before | Scheme_exits _ busy => negb (busy =? 0) end.
Definition start_events (argc : Z) (argv : list (list Z)) (r : scheme_run) : list event :=
  Sscheme_start argc argv ::
  match r with Scheme_returns _ => [] | Scheme_exits _ _ => Exit_step <$> exit_events end ++ [Sscheme_deinit].

Lemma swish_start_spec argc argv r p : swish_start argc argv r p =
  Some (mkProcess (rev (start_events argc argv r) ++ trace p)
    (mkJmp true (scheme_status r) (left_busy r (force (g_exit p)))) (g_is_service p) (standard_files p), inr (scheme_status r)).
Proof. destruct r as [z|z busy], p as [t g sv fs]; reflexivity. Qed.

Lemma init_scheme_spec windows exepath allocated argc argv custom evs p :
  scheme_init windows exepath allocated argc argv custom = Some (inr evs) ->
  init_scheme windows exepath allocated argc argv custom p = Some (did (Scheme_call <$> evs) p, inr tt).
Proof. intros H. unfold init_scheme. rewrite H. apply emit_all_did. Qed.

Lemma P_bind_run {A B} (m : P A) (k : A -> P B) p p' x : m p = Some (p', inr x) -> (m ≫= k) p = k x p'.
Proof. intros H. unfold mbind, P_bind. by rewrite H. Qed.

Lemma P_bind_ends {A B} (m : P A) (k : A -> P B) p p' e : m p = Some (p', inl e) -> (m ≫= k) p = Some (p', inl e).
Proof. intros H. unfold mbind, P_bind. by rewrite H. Qed.
Lemma P_bind_assoc {A B C} (m : P A) (k : A -> P B) (k' : B -> P C) p : ((m ≫= k) ≫= k') p = (m ≫= fun x => k x ≫= k') p.
Proof. unfold mbind, P_bind. by destruct (m p) as [[q [e|x]]|]. Qed.

(** A process with its standard files. *)
Definition fresh_process (f : files) : process := mkProcess [] (mkJmp false 0 false) false f.
(** The usual ones. *)
Definition usual_files : files := mkFiles {[0 := Other_file 0; 1 := Other_file 1; 2 := Other_file 2]} (Some 1) (Some 2) (Some 0).

(** Theorem: the exit status. Once Scheme is initialised the program starts it once, with its arguments,
    and ends with the status given to [osi_exit] or returned by Scheme: it returns from
    [swish_run], or leaves by [_exit] exactly when the event loop could not be closed, which could
    make [exit] block.  When the name of the boot file cannot be made it exits with status 1 and
    does nothing; and [osi_exit] leaves by [_exit] when Scheme has not been started. *)
Theorem exit_status_travels f windows e argc argv custom evs :
  scheme_init windows (exepath e) (allocated e) argc argv custom = Some (inr evs) ->
  (exists p, swish_run windows e argc argv custom (fresh_process f) = Some (p,
      if left_busy (scheme e) false then inl (Underscore_exit (scheme_status (scheme e)))
      else inr (scheme_status (scheme e))) /\
    rev (trace p) = (Scheme_call <$> evs) ++ start_events argc argv (scheme e)) /\
  (forall e', (exepath e').1 < 0 \/ allocated e' = false ->
    swish_run windows e' argc argv custom (fresh_process f) = Some (fresh_process f, inl (Exit 1))) /\
  (forall g z busy, initialized g = false -> (osi_exit g z busy).2 = inr z).
Proof.
  intros Hi. split; [|split].
  - unfold swish_run. rewrite (P_bind_run _ _ _ _ _ (init_scheme_spec _ _ _ _ _ _ _ (fresh_process f) Hi)).
    rewrite (P_bind_run _ _ _ _ _ (swish_start_spec _ _ _ _)). cbn [did g_exit fresh_process force].
    unfold get_exit, mbind, P_bind. cbn [g_exit force]. set (p := mkProcess _ _ _ _). exists p.
    split; [by destruct (left_busy (scheme e) false)|]. unfold p. cbn [trace did fresh_process]. rewrite app_nil_r.
    by rewrite rev_app_distr, !rev_involutive.
  - intros e' He. unfold swish_run, init_scheme, scheme_init, get_boot_fn, mbind, P_bind.
    destruct (exepath e') as [rc l]. cbn [fst] in He. destruct (Z.ltb_spec rc 0) as [|Hge]; [done|].
    destruct He as [?| ->]; [lia|done].
  - intros g z busy Hg. unfold osi_exit. cbn. by rewrite Hg.
Qed.

(** *** The Linux service *)

(** The steps that prepare the message handler, in order: the call, whether it succeeds, and the name
    of the function the process says has failed when it does not. *)
Record step := mkStep { step_call : event; step_ok : bool; step_name : string }.
Definition service_steps (b : bus_results) : list step :=
  [mkStep Sd_bus_default_system (0 <=? default_system b) "sd_bus_default_system";
   mkStep Sd_bus_get_fd (0 <=? get_fd b) "sd_bus_get_fd";
   mkStep (Uv_poll_init (get_fd b)) (poll_init b =? 0) "uv_poll_init";
   mkStep (Sd_bus_add_match (match_rule prepareForShutdown) prepareForShutdown) (0 <=? add_shutdown b) "sd_bus_add_match";
   mkStep (Sd_bus_add_match (match_rule prepareForSleep) prepareForSleep) (0 <=? add_sleep b) "sd_bus_add_match";
   mkStep (Uv_poll_start 13) (poll_start b =? 0) "uv_poll_start"].

(** Everything before Scheme is started. *)
Definition service_start_events (b : bus_results) : list event :=
  (step_call <$> service_steps b) ++ [Sd_notify "READY=1"].
Definition service_end_events : list event := [Sd_bus_unref; Uv_poll_stop; Uv_close_poll; Drop_pending; Uv_loop_close].

Lemma match_rule_spec add_match member p : (length (match_rule member) < 256)%nat ->
  match_login1_manager_signal add_match member p =
    CHECK "sd_bus_add_match" add_match (did [Sd_bus_add_match (match_rule member) member] p).
Proof.
  intros Hl. unfold match_login1_manager_signal. destruct (Z.leb_spec 256 (Z.of_nat (length (match_rule member)))); [lia|].
  rewrite bind_emit. rewrite snprintf_fits; [done|]. unfold fits. apply Z.ltb_lt. lia.
Qed.

Lemma check_spec target rc p :
  CHECK target rc p = if 0 <=? rc then Some (p, inr tt) else Some (did [Perror target] p, inl (Exit 1)).
Proof. unfold CHECK, FAIL. destruct (Z.ltb_spec rc 0), (Z.leb_spec 0 rc); try lia; [|done]. by destruct p. Qed.

(** A call that is checked: the process goes on, or ends having said which one failed. *)
Lemma bind_check {A} target rc (k : P A) p : (_ ← CHECK target rc; k) p =
  if 0 <=? rc then k p else Some (did [Perror target] p, inl (Exit 1)).
Proof. unfold mbind, P_bind. rewrite check_spec. by destruct (0 <=? rc). Qed.
Lemma bind_match {A} add_match member (k : P A) p : (length (match_rule member) < 256)%nat ->
  (_ ← match_login1_manager_signal add_match member; k) p =
    let p := did [Sd_bus_add_match (match_rule member) member] p in
    if 0 <=? add_match then k p else Some (did [Perror "sd_bus_add_match"] p, inl (Exit 1)).
Proof. intros Hl. unfold mbind at 1, P_bind. rewrite match_rule_spec, check_spec by done. by destruct (0 <=? add_match). Qed.
Lemma run_fail {A} target p : FAIL (A := A) target p = Some (did [Perror target] p, inl (Exit 1)).
Proof. by destruct p. Qed.

(** The steps one after the other, up to one that fails; then [k]. *)
Fixpoint run_steps {A} (l : list step) (k : P A) (p : process) : option (process * (ending + A)) :=
  match l with
  | [] => k p
  | s :: l =>
    let p := did [step_call s] p in
    if step_ok s then run_steps l k p else Some (did [Perror (step_name s)] p, inl (Exit 1))
  end.

Lemma run_steps_ok {A} l (k : P A) : forall p, Forall (fun s => step_ok s = true) l -> run_steps l k p = k (did (step_call <$> l) p).
Proof.
  induction l as [|s l IH]; intros p Hl; cbn [run_steps fmap list_fmap]; [by destruct p|].
  apply Forall_cons in Hl as [-> Hl]. by rewrite IH, did_did.
Qed.

Lemma run_steps_failed {A} before s after (k : P A) : forall p, Forall (fun s => step_ok s = true) before -> step_ok s = false ->
  run_steps (before ++ s :: after) k p = Some (did ((step_call <$> before) ++ [step_call s; Perror (step_name s)]) p, inl (Exit 1)).
Proof.
  induction before as [|x before IH]; intros p Hl Hs; cbn [app run_steps fmap list_fmap]; [by rewrite Hs, did_did|].
  apply Forall_cons in Hl as [-> Hl]. by rewrite IH, did_did.
Qed.

Lemma first_failing l : ~ Forall (fun s => step_ok s = true) l ->
  exists before s after, l = before ++ s :: after /\ Forall (fun s => step_ok s = true) before /\ step_ok s = false.
Proof.
  induction l as [|s l IH]; intros Hl; [by destruct Hl|]. destruct (step_ok s) eqn:Hs; [|by exists [], s, l].
  destruct IH as (before & x & after & -> & Hbefore & Hx); [intros H; apply Hl; by constructor|].
  exists (s :: before), x, after. split_and!; [done|by constructor|done].
Qed.

(** What follows the steps. *)
Definition service_main (e : environment) (b : bus_results) (argc : Z) (argv : list (list Z)) : P Z :=
  _ ← emit (Sd_notify "READY=1");
  status ← swish_start argc argv (scheme e);
  _ ← emit Sd_bus_unref;
  _ ← emit Uv_poll_stop;
  _ ← emit Uv_close_poll;
  _ ← emit Drop_pending;
  _ ← emit Uv_loop_close;
  g ← get_exit;
  let force := negb (loop_close b =? 0) in
  _ ← set_exit (mkJmp (initialized g) (Startup.status g) force);
  if force then exits (Underscore_exit status) else mret status.

Lemma service_by_steps f e b argc argv evs :
  scheme_init false (exepath e) (allocated e) argc argv None = Some (inr evs) ->
  swish_service e b argc argv (fresh_process f) =
    run_steps (service_steps b) (service_main e b argc argv) (did (Scheme_call <$> evs) (mkProcess [] (mkJmp false 0 false) true f)).
Proof.
  intros Hi. unfold swish_service. set (p0 := mkProcess [] (mkJmp false 0 false) true f).
  change ((_ ← set_is_service; ?k) (fresh_process f)) with (k p0).
  rewrite (P_bind_run _ _ _ _ _ (init_scheme_spec _ _ _ _ _ _ _ p0 Hi)).
  cbn [run_steps service_steps step_call step_ok step_name].
  rewrite bind_emit, bind_check. destruct (0 <=? default_system b); [|done].
  rewrite bind_emit, Z.ltb_antisym. destruct (0 <=? get_fd b); cbn [negb]; [|by rewrite run_fail].
  rewrite bind_emit. destruct (poll_init b =? 0); cbn [negb]; [|by rewrite run_fail].
  rewrite bind_match by (vm_compute; lia). cbv zeta. destruct (0 <=? add_shutdown b); [|done].
  rewrite bind_match by (vm_compute; lia). cbv zeta. destruct (0 <=? add_sleep b); [|done].
  rewrite bind_emit. by destruct (poll_start b =? 0); cbn [negb]; [|by rewrite run_fail].
Qed.

(** C40: the Linux service. When every call that prepares the message handler succeeds, the service
    initialises Scheme, opens the system bus, asks for the two signals with rules that fit their
    buffer, tells the manager it is ready and only then starts Scheme; afterwards it closes all it
    has opened and ends with the status of Scheme, by [_exit] exactly when the loop cannot be
    closed.  When one of them fails, the calls before it have been made and none after it: the process
    prints the name of the function that failed and exits with status 1, and Scheme is not
    started.  In either case [osi_is_service] holds from the start. *)
Theorem linux_service f e b argc argv evs :
  scheme_init false (exepath e) (allocated e) argc argv None = Some (inr evs) ->
  exists p r, swish_service e b argc argv (fresh_process f) = Some (p, r) /\ osi_is_service p = true /\
    (Forall (fun s => step_ok s = true) (service_steps b) ->
      r = (if loop_close b =? 0 then inr (scheme_status (scheme e)) else inl (Underscore_exit (scheme_status (scheme e)))) /\
      rev (trace p) = (Scheme_call <$> evs) ++ service_start_events b ++ start_events argc argv (scheme e) ++
        service_end_events) /\
    (forall before s after, service_steps b = before ++ s :: after ->
      Forall (fun s => step_ok s = true) before -> step_ok s = false ->
      r = inl (Exit 1) /\
      rev (trace p) = (Scheme_call <$> evs) ++ (step_call <$> before) ++ [step_call s; Perror (step_name s)]).
Proof.
  intros Hi. rewrite (service_by_steps f e b argc argv evs Hi). set (p0 := mkProcess [] _ true f).
  destruct (decide (Forall (fun s => step_ok s = true) (service_steps b))) as [Hok|Hno].
  - rewrite run_steps_ok by done. rewrite did_did. unfold service_main. rewrite bind_emit, did_did.
    rewrite (P_bind_run _ _ _ _ _ (swish_start_spec _ _ _ _)). rewrite !bind_emit, !did_did.
    set (t := rev (start_events _ _ _) ++ _). unfold get_exit, set_exit, mbind, P_bind.
    assert (Htrace : rev (rev ([Sd_bus_unref] ++ [Uv_poll_stop] ++ [Uv_close_poll] ++ [Drop_pending] ++ [Uv_loop_close]) ++ t) =
      (Scheme_call <$> evs) ++ service_start_events b ++ start_events argc argv (scheme e) ++ service_end_events).
    { unfold t. cbn [did trace p0]. rewrite app_nil_r, rev_app_distr, rev_app_distr, !rev_involutive.
      unfold service_start_events. by rewrite <- !app_assoc. }
    assert (Hfail : forall before s after, service_steps b = before ++ s :: after -> step_ok s = false -> False).
    { intros before s after Hl Hs. rewrite Hl, Forall_app, Forall_cons in Hok. destruct Hok as (_ & Ht & _). congruence. }
    destruct (loop_close b =? 0); (eexists _, _; split; [reflexivity|]; split; [done|]; split; [by split|]);
      intros before s after Hl _ Hs; by destruct (Hfail before s after Hl Hs).
  - destruct (first_failing (service_steps b) Hno) as (before & s & after & Hl & Hbefore & Hs).
    set (k := service_main e b argc argv). set (p1 := did (Scheme_call <$> evs) p0).
    assert (Hrun : run_steps (service_steps b) k p1 = Some (did ((step_call <$> before) ++ [step_call s; Perror (step_name s)]) p1, inl (Exit 1)))
      by (rewrite Hl; by apply run_steps_failed).
    eexists _, _. split; [exact Hrun|]. split; [done|]. split; [done|].
    intros before' s' after' Hl' Hbefore' Hs'. split; [done|].
    rewrite Hl', run_steps_failed in Hrun by done. apply (f_equal (fmap fst)) in Hrun as [= Ht].
    cbn [trace p1 p0 did] in *. rewrite <- Ht. by rewrite app_nil_r, <- rev_app_distr, rev_involutive.
Qed.

(** *** Messages of the system bus *)

Section messages.
Variable top : string -> ptr.

(** The procedures a message calls. *)
Definition message_calls (m : message) (member : string) : list string :=
  if negb (has_signature m) || (read_rc m <? 0) then []
  else if bool_decide (member = prepareForShutdown) && negb (read_data m =? 0) then ["$shutdown"%string]
  else if bool_decide (member = prepareForSleep) then [if read_data m =? 0 then "$resume"%string else "$suspend"%string]
  else [].
Definition turn_calls (t : bus_turn) : list string :=
  match dispatched t with Some (m, member) => message_calls m member | None => [] end.
(** The list of callbacks with these added in order. *)
Definition with_calls (l : list string) (cbs : ptr) : ptr :=
  fold_left (fun cbs name => Scons (Scons (top name) Snil) cbs) l cbs.

Lemma handle_message_spec m member w : collecting w ->
  exists r, handle_message top m member w = Some (r, set_callbacks (with_calls (message_calls m member) (g_callbacks w)) w).
Proof.
  intros Hc. unfold handle_message, message_calls, request_call.
  assert (Hid : set_callbacks (g_callbacks w) w = w) by (by destruct w).
  assert (Hcall : forall name A (k : M A), (_ ← osi_add_callback_list (top name) Snil; k) w =
    k (set_callbacks (Scons (Scons (top name) Snil) (g_callbacks w)) w)).
  { intros name A k. pose proof (wp_result _ _ _ (wp_add_callback_list (top name) Snil w (fun _ w' =>
      w' = add_callback (top name) Snil w) Hc eq_refl)) as ([] & w' & Hrun & ->).
    unfold mbind. unfold M_bind. by rewrite Hrun. }
  destruct (has_signature m); cbn [negb orb]; [|eexists; cbn; by rewrite Hid].
  destruct (read_rc m <? 0); [eexists; cbn; by rewrite Hid|].
  destruct (bool_decide (member = prepareForShutdown) && negb (read_data m =? 0)); [rewrite Hcall; by eexists|].
  destruct (bool_decide (member = prepareForSleep)); [rewrite Hcall; eexists; by destruct (read_data m =? 0)|].
  eexists. cbn. by rewrite Hid.
Qed.

Lemma with_calls_app l l' cbs : with_calls (l ++ l') cbs = with_calls l' (with_calls l cbs).
Proof. apply fold_left_app. Qed.
Lemma collecting_calls l w : collecting w -> collecting (set_callbacks (with_calls l (g_callbacks w)) w).
Proof.
  intros Hc. destruct l as [|name l] using rev_ind; [by destruct w|]. rewrite with_calls_app. done.
Qed.

(** The dispatch of one turn. *)
Lemma turn_spec {A} t (k : M A) w : collecting w ->
  (_ ← (match dispatched t with
        | Some (m, member) => _ ← handle_message top m member; mret tt
        | None => mret tt
        end); k) w = k (set_callbacks (with_calls (turn_calls t) (g_callbacks w)) w).
Proof.
  intros Hc. unfold turn_calls. destruct (dispatched t) as [[m member]|]; [|by destruct w].
  destruct (handle_message_spec m member w Hc) as [r Hr]. unfold mbind, M_bind at 1 2. by rewrite Hr.
Qed.

(** [n] turns before the one that ends the loop. *)
Lemma process_turns bus n : forall i fuel w, collecting w -> turn_rc (bus (i + n)%nat) = 0 ->
  (forall j, (j < n)%nat -> turn_rc (bus (i + j)%nat) <> 0) -> (n < fuel)%nat ->
  process_sd_bus_message top fuel bus i w = Some (Some (i + n)%nat,
    set_callbacks (with_calls (concat (map (fun j => turn_calls (bus j)) (seq i (S n)))) (g_callbacks w)) w).
Proof.
  induction n as [|n IH]; intros i fuel w Hc Hn Hbefore Hf; (destruct fuel as [|fuel]; [lia|]);
    cbn [process_sd_bus_message]; rewrite turn_spec by done.
  - rewrite Nat.add_0_r in *. rewrite Hn. cbn [Z.eqb seq map concat]. by rewrite app_nil_r.
  - rewrite (proj2 (Z.eqb_neq (turn_rc (bus i)) 0)) by (rewrite <- (Nat.add_0_r i); apply Hbefore; lia).
    rewrite IH; [|by apply collecting_calls|by replace (S i + n)%nat with (i + S n)%nat by lia|
      intros j Hj; rewrite Nat.add_succ_l, <- Nat.add_succ_r; apply Hbefore; lia|lia].
    rewrite Nat.add_succ_l, <- Nat.add_succ_r. f_equal. f_equal.
    change (seq i (S (S n))) with (i :: seq (S i) (S n)). cbn [map concat]. rewrite with_calls_app. by destruct w.
Qed.

Lemma process_endless bus : (forall i, turn_rc (bus i) <> 0) -> forall fuel i w, collecting w ->
  exists w', process_sd_bus_message top fuel bus i w = Some (None, w').
Proof.
  intros Hne. induction fuel as [|fuel IH]; intros i w Hc; cbn [process_sd_bus_message]; [by eexists|].
  rewrite turn_spec by done. rewrite (proj2 (Z.eqb_neq _ 0)) by done. by apply IH, collecting_calls.
Qed.

(** Theorem (finding): the messages of the system bus. The loop ends at the first [sd_bus_process] that
    returns 0, and by then each shutdown or sleep message read before has added one callback, in
    their order, and nothing else has changed.  It takes an error for a message, so when the bus
    keeps failing, as it does once it is disconnected, the loop never ends. *)
Theorem bus_loop bus w : collecting w ->
  (forall n, turn_rc (bus n) = 0 -> (forall i, (i < n)%nat -> turn_rc (bus i) <> 0) ->
     forall fuel, (n < fuel)%nat -> process_sd_bus_message top fuel bus 0 w = Some (Some n,
       set_callbacks (with_calls (concat (map (fun i => turn_calls (bus i)) (seq 0 (S n)))) (g_callbacks w)) w)) /\
  ((forall i, turn_rc (bus i) <> 0) -> forall fuel, exists w', process_sd_bus_message top fuel bus 0 w = Some (None, w')).
Proof.
  intros Hc. split.
  - intros n Hn Hbefore fuel Hf. by apply (process_turns bus n 0 fuel w).
  - intros Hne fuel. by apply process_endless.
Qed.
End messages.

(** *** The Windows service *)

Lemma format_u_length z : (length (format_u z) <= 10)%nat.
Proof.
  unfold format_u. pose proof (u32_bounds z) as Hz. unfold is_uint in Hz.
  destruct (digits_spec 10 (u32 z)) as (_ & _ & H & _); [lia|exact H].
Qed.

Lemma bind_sprintf {A} text (k : list Z -> P A) p : (length text < 80)%nat -> (msg ← sprintf_s 80 text; k msg) p = k text p.
Proof. intros Hl. unfold mbind, P_bind, sprintf_s, fits. by rewrite (proj2 (Z.ltb_lt _ _)) by lia. Qed.

Definition osi_exit_text (z : Z) : list Z := chars "#(osi_exit " ++ format_u z ++ chars ")".
Definition fatal_text (who : string) (error : Z) : list Z :=
  chars "#(fatal-error " ++ chars who ++ chars " " ++ format_u error ++ chars ")".

Lemma fatal_spec {A} who error p : (length (chars who) <= 28)%nat ->
  fatal_last_error (A := A) who error p = Some (did [Console_event (fatal_text who error)] p, inl (Exit 4)).
Proof.
  intros Hw. unfold fatal_last_error. rewrite bind_sprintf; [done|].
  pose proof (format_u_length error). rewrite !length_app.
  change (length (chars "#(fatal-error ")) with 14%nat. change (length (chars " ")) with 1%nat.
  change (length (chars ")")) with 1%nat. lia.
Qed.

(** What the controls leave of the status: they change its state and hint only. *)
Definition stopping (controls : list (Z * Z)) : bool :=
  existsb (fun c => (c.1 =? SERVICE_CONTROL_SHUTDOWN) || (c.1 =? SERVICE_CONTROL_STOP)) controls.
Lemma handle_controls_spec cs : forall s, handle_controls cs s =
  if stopping cs then mkServiceStatus (dwServiceType s) SERVICE_STOP_PENDING (dwControlsAccepted s) (dwWin32ExitCode s) 60000
  else s.
Proof.
  unfold handle_controls, stopping. induction cs as [|[c t] cs IH]; intros s; cbn [fold_left existsb fst]; [done|].
  rewrite IH. unfold service_control_handler.
  destruct (Z.eqb_spec c SERVICE_CONTROL_INTERROGATE) as [->|]; [done|].
  destruct ((c =? SERVICE_CONTROL_SHUTDOWN) || (c =? SERVICE_CONTROL_STOP)); [by destruct (existsb _ cs)|].
  by destruct (c =? SERVICE_CONTROL_POWEREVENT).
Qed.

(** Theorem: the Windows service. It does nothing when its log file cannot be opened.  With its standard
    files redirected, when the dispatcher or the control handler is refused it says so with the error
    and exits with status 4 without starting Scheme.  Otherwise it reports that it runs, accepting the controls it handles, before
    Scheme starts, and that it has stopped, with the status of Scheme, at the very end, whatever
    controls were handled; every text fits its buffer.  A stop or shutdown control reports that the
    service is stopping and asks Scheme to shut down; suspend and resume are passed on. *)
Theorem windows_service f flog o e_ i f' e m name argc argv evs :
  scheme_init true (exepath e) (allocated e) argc argv None = Some (inr evs) ->
  redirect flog o e_ i f = Some f' ->
  let z := scheme_status (scheme e) in
  let start := [Console_event (chars "service-starting"); StartServiceCtrlDispatcher name] in
  let register := (Scheme_call <$> evs) ++ [RegisterServiceCtrlHandler name] in
  swish_service_windows None e m name argc argv (fresh_process f) = Some (fresh_process f, inr 1) /\
  (exists p r, swish_service_windows (Some (flog, o, e_, i)) e m name argc argv (fresh_process f) = Some (p, r) /\
    standard_files p = f' /\ osi_is_service p = starts m /\
    if negb (starts m) then
      r = inl (Exit 4) /\ rev (trace p) = start ++ [Console_event (fatal_text "StartServiceCtrlDispatcher" (last_error m))]
    else if negb (registered m) then
      r = inl (Exit 4) /\ rev (trace p) = start ++ register ++
        [Console_event (fatal_text "RegisterServiceCtrlHandlerEx" (last_error m))]
    else
      r = inr 0 /\ rev (trace p) = start ++ register ++ [SetServiceStatus SERVICE_RUNNING 0x45 0 0] ++
        start_events argc argv (scheme e) ++ [Console_event (osi_exit_text z);
          SetServiceStatus SERVICE_STOPPED 0x45 (u32 z) (if stopping (controls m) then 60000 else 0)]) /\
  (forall c t s, c = SERVICE_CONTROL_STOP \/ c = SERVICE_CONTROL_SHUTDOWN -> exists s',
     service_control_handler c t s = (NO_ERROR, s', true, Some "$shutdown"%string) /\
     dwCurrentState s' = SERVICE_STOP_PENDING /\ dwWaitHint s' = 60000) /\
  (forall t s, service_control_handler SERVICE_CONTROL_POWEREVENT t s = (ERROR_CALL_NOT_IMPLEMENTED, s, false,
     if t =? PBT_APMSUSPEND then Some "$suspend"%string else if t =? PBT_APMRESUMEAUTOMATIC then Some "$resume"%string else None)).
Proof.
  intros Hi Hf z start register. split; [done|]. split; [|split].
  2: { intros c t s [->| ->]; by eexists. }
  2: { intros t s. unfold service_control_handler. cbn [Z.eqb]. rewrite !(Z.eqb_sym t). done. }
  unfold swish_service_windows, console_event_handler. 
  set (fresh := mkProcess [] (mkJmp false 0 false) false f').
  assert (Hr : redirect_files flog o e_ i (fresh_process f) = Some (fresh, inr tt)) by (unfold redirect_files; cbn; by rewrite Hf).
  rewrite (P_bind_run _ _ _ _ _ Hr), !bind_emit, did_did.
  destruct (starts m); cbn [negb].
  2: { rewrite fatal_spec by (vm_compute; lia). eexists _, _. split; [done|]. split; [done|]. split; [done|]. split; done. }
  unfold service_run. cbn [g_argc g_argv g_service_name]. rewrite P_bind_assoc.
  set (p0 := mkProcess (rev start) (mkJmp false 0 false) true f').
  change ((set_is_service ≫= ?k) (did _ fresh)) with (k tt p0). cbv beta.
  rewrite P_bind_assoc.
  rewrite (P_bind_run _ _ _ _ _ (init_scheme_spec _ _ _ _ _ _ _ p0 Hi)).
  rewrite P_bind_assoc.
  rewrite bind_emit, did_did. destruct (registered m); cbn [negb].
  2: { rewrite (P_bind_ends _ _ _ _ _ (fatal_spec "RegisterServiceCtrlHandlerEx" (last_error m) _ ltac:(vm_compute; lia))).
    rewrite did_did. eexists _, _. split; [done|]. split; [done|]. split; [done|]. split; [done|].
    unfold did. cbn [trace]. rewrite rev_app_distr, !rev_involutive. unfold register. by rewrite <- !app_assoc. }
  unfold report_status, console_event_handler. rewrite P_bind_assoc, bind_emit, did_did, P_bind_assoc.
  rewrite (P_bind_run _ _ _ _ _ (swish_start_spec _ _ _ _)), P_bind_assoc.
  rewrite bind_sprintf.
  2: { pose proof (format_u_length (scheme_status (scheme e))). rewrite !length_app.
    change (length (chars "#(osi_exit ")) with 11%nat. change (length (chars ")")) with 1%nat. lia. }
  rewrite P_bind_assoc, bind_emit, handle_controls_spec, bind_emit, did_did.
  destruct (stopping (controls m)).
  all: eexists _, _; split; [reflexivity|]; split; [done|]; split; [done|]; split; [done|].
  all: unfold did, register; cbn [trace app p0]; rewrite !rev_app_distr, !rev_involutive.
  all: by rewrite <- !app_assoc.
Qed.

(** *** The standard files *)

(** A stream that is not open, as in a service without a console, is given a new descriptor; the
    standard one keeps its own. *)
Definition standard_stream (n : Z) (stream : option Z) (new : Z) : Prop := stream = None \/ stream = Some n /\ new = n.

Lemma freopen_spec n stream new d d' : standard_stream n stream new -> freopen_nul stream new d = Some d' ->
  d' = <[new := Nul_file]> d /\ (stream = None -> d !! new = None).
Proof.
  unfold freopen_nul. intros [->|[-> ->]].
  - destruct (d !! new) eqn:E; [done|]. intros [= <-]. done.
  - rewrite lookup_delete_eq. intros [= <-]. by rewrite insert_delete_eq.
Qed.
Lemma dup2_log flog to d d' : d !! flog = Some Log_file -> dup2 flog to d = Some d' -> d' = <[to := Log_file]> d.
Proof. unfold dup2. intros ->. by intros [= <-]. Qed.

(** A stream reopened and redirected to the log file. *)
Lemma reopen_log flog n stream new d r (k : gmap Z file -> option r) x :
  d !! flog = Some Log_file -> standard_stream n stream new -> n <> flog ->
  (d ← freopen_nul stream new d; d ← dup2 flog new d; k d) = Some x ->
  k (<[new := Log_file]> d) = Some x /\ (new = n \/ d !! new = None).
Proof.
  intros Hd Hs Hn (d1 & H1 & (d2 & H2 & H)%option.bind_Some)%option.bind_Some.
  destruct (freopen_spec _ _ _ _ _ Hs H1) as [-> Hfree].
  assert (Hnew : new = n \/ d !! new = None) by (destruct Hs as [Hs|[_ Hs]]; [right; by apply Hfree|by left]).
  apply dup2_log in H2.
  2: { rewrite lookup_insert_ne; [done|]. intros ->. destruct Hnew as [?|?]; congruence. }
  subst d2. by rewrite insert_insert_eq in H.
Qed.

(** The descriptors once the output is redirected. *)
Lemma redirect_output {r} flog o e f f0 (k : gmap Z file -> option r) x :
  2 < flog -> descriptors f !! 0 = Some f0 -> standard_stream 1 (so f) o -> standard_stream 2 (se f) e ->
  (d ← dup2 flog 1 (<[flog := Log_file]> (descriptors f)); d ← dup2 flog 2 d;
   d ← freopen_nul (so f) o d; d ← dup2 flog o d; d ← freopen_nul (se f) e d; d ← dup2 flog e d; k (delete flog d)) = Some x ->
  exists d, k d = Some x /\ o <> 0 /\ e <> 0 /\ d !! 0 = Some f0 /\ Forall (fun n => d !! n = Some Log_file) [1; 2; o; e] /\
    d !! flog = None /\ (forall n, n ∉ [0; 1; 2; o; e; flog] -> d !! n = descriptors f !! n).
Proof.
  intros Hflog H0 Ho He. set (d0 := <[flog := Log_file]> (descriptors f)).
  assert (Hlog : d0 !! flog = Some Log_file) by (unfold d0; apply lookup_insert_eq).
  intros (d1 & H1%(dup2_log _ _ _ _ Hlog) & (d2 & H2%dup2_log & H)%option.bind_Some)%option.bind_Some.
  2: { subst d1. by rewrite lookup_insert_ne by lia. }
  assert (H20 : d2 !! 0 = Some f0) by (subst d2 d1; unfold d0; by rewrite !lookup_insert_ne by lia).
  assert (H21 : d2 !! 1 = Some Log_file) by (subst d2 d1; by rewrite lookup_insert_ne, lookup_insert_eq by lia).
  assert (H22 : d2 !! 2 = Some Log_file) by (subst d2; by rewrite lookup_insert_eq).
  assert (H2l : d2 !! flog = Some Log_file) by (subst d2 d1; by rewrite !lookup_insert_ne by lia).
  apply (reopen_log flog 1) in H as [H Ho']; [|done..|lia].
  assert (Ho0 : o <> 0 /\ o <> 2 /\ o <> flog) by (split_and!; intros ->; destruct Ho'; congruence || lia).
  apply (reopen_log flog 2) in H as [H He']; [|by rewrite lookup_insert_ne by tauto|done|lia].
  rewrite lookup_insert_None in He'.
  assert (He0 : e <> 0 /\ e <> flog /\ e <> 1) by (destruct He' as [?|[He' ?]]; split_and!; try lia; congruence).
  eexists. split; [exact H|]. split; [tauto|]. split; [tauto|].
  rewrite !Forall_cons, Forall_nil, lookup_delete_eq, !lookup_delete_ne, lookup_insert_eq by lia.
  rewrite (lookup_insert_ne _ e 0), (lookup_insert_ne _ e 1), (lookup_insert_ne _ o 0) by lia.
  split_and!; try done; [by rewrite !lookup_insert; repeat case_decide..|].
  intros n Hn. rewrite !not_elem_of_cons in Hn. subst d2 d1. unfold d0. by rewrite lookup_delete_ne, !lookup_insert_ne by lia.
Qed.

(** Theorem: the standard files of the Windows service. With or without a console, once they are
    redirected the descriptors 1 and 2 and those of [stdout] and [stderr] name the log file, the
    descriptor 0 and that of [stdin] the null device, the descriptor the log file was opened with is
    closed unless it has been given to [stdin], and every other descriptor is as it was. *)
Theorem service_files flog o e i f f' : 2 < flog -> is_Some (descriptors f !! 0) ->
  standard_stream 1 (so f) o -> standard_stream 2 (se f) e -> standard_stream 0 (si f) i ->
  redirect flog o e i f = Some f' ->
  so f' = Some o /\ se f' = Some e /\ si f' = Some i /\
  Forall (fun n => descriptors f' !! n = Some Log_file) [1; 2; o; e] /\
  Forall (fun n => descriptors f' !! n = Some Nul_file) [0; i] /\
  (flog <> i -> descriptors f' !! flog = None) /\
  (forall n, n ∉ [0; 1; 2; o; e; i; flog] -> descriptors f' !! n = descriptors f !! n).
Proof.
  intros Hflog [f0 H0] Ho He Hi H. unfold redirect in H. cbv zeta in H.
  apply (redirect_output flog o e f f0 (fun d => d ← freopen_nul (si f) i d; d ← dup2 i 0 d; Some (mkFiles d (Some o) (Some e) (Some i))))
    in H as (d & H & Ho0 & He0 & Hd0 & Hlog & Hflog' & Hother); [|done..].
  apply option.bind_Some in H as (d1 & H1 & (d2 & H2 & [= <-])%option.bind_Some).
  destruct (freopen_spec _ _ _ _ _ Hi H1) as [-> Hfree]. rewrite !Forall_cons, Forall_nil in Hlog.
  assert (Hi0 : i <> 1 /\ i <> 2 /\ i <> o /\ i <> e) by
    (destruct Hi as [Hi|[_ ->]]; [specialize (Hfree Hi)|]; split_and!; try lia; intros ->; intuition congruence).
  unfold dup2 in H2. rewrite lookup_insert_eq in H2. injection H2 as <-. cbn [so se si descriptors].
  rewrite !Forall_cons, Forall_nil, lookup_insert_eq. split_and!; try done; try (rewrite !lookup_insert_ne by lia; tauto).
  - rewrite lookup_insert. case_decide; [done|]. by rewrite lookup_insert_eq.
  - intros Hne. by rewrite !lookup_insert_ne by lia.
  - intros n Hn. rewrite !not_elem_of_cons in Hn. rewrite !lookup_insert_ne by lia. apply Hother.
    rewrite !not_elem_of_cons. tauto.
Qed.

(** ** Examples *)

Definition example_argv : list (list Z) := [chars "swish"; chars "app"].

Definition example_env (r : scheme_run) : environment := mkEnv (0, chars "/bin/swish") true r.

Lemma exit_status_travels_witness : exists evs p,
  scheme_init false (0, chars "/bin/swish") true 2 example_argv None = Some (inr evs) /\
  swish_run false (example_env (Scheme_exits 3 (-16))) 2 example_argv None (fresh_process usual_files) = Some (p, inl (Underscore_exit 3)) /\
  rev (trace p) = (Scheme_call <$> evs) ++ Sscheme_start 2 example_argv :: (Exit_step <$> exit_events) ++ [Sscheme_deinit].
Proof.
  destruct (scheme_init false (0, chars "/bin/swish") true 2 example_argv None) as [[st|evs]|] eqn:E; [discriminate E| |discriminate E].
  destruct (proj1 (exit_status_travels usual_files false (example_env (Scheme_exits 3 (-16))) 2 example_argv None evs E)) as (p & Hp & Ht).
  exists evs, p. split; [reflexivity|]. split; [exact Hp|exact Ht].
Defined.

(** A service that runs, and one for which the poll handle cannot be made. *)
Lemma linux_service_witness : exists evs p q,
  scheme_init false (0, chars "/bin/swish") true 2 example_argv None = Some (inr evs) /\
  swish_service (example_env (Scheme_returns 7)) (mkBus 0 5 0 1 1 0 0) 2 example_argv (fresh_process usual_files) = Some (p, inr 7) /\
  rev (trace p) = (Scheme_call <$> evs) ++ service_start_events (mkBus 0 5 0 1 1 0 0) ++
    [Sscheme_start 2 example_argv; Sscheme_deinit] ++ service_end_events /\
  swish_service (example_env (Scheme_returns 7)) (mkBus 0 5 (-22) 1 1 0 0) 2 example_argv (fresh_process usual_files) = Some (q, inl (Exit 1)) /\
  rev (trace q) = (Scheme_call <$> evs) ++ [Sd_bus_default_system; Sd_bus_get_fd; Uv_poll_init 5; Perror "uv_poll_init"].
Proof.
  destruct (scheme_init false (0, chars "/bin/swish") true 2 example_argv None) as [[st|evs]|] eqn:E; [discriminate E| |discriminate E].
  destruct (linux_service usual_files (example_env (Scheme_returns 7)) (mkBus 0 5 0 1 1 0 0) 2 example_argv evs E) as (p & r & Hr & _ & Hq & _).
  destruct Hq as [Hr' Ht]; [by repeat constructor|].
  destruct (linux_service usual_files (example_env (Scheme_returns 7)) (mkBus 0 5 (-22) 1 1 0 0) 2 example_argv evs E) as (q & r2 & Hr2 & _ & _ & Hq2).
  destruct (Hq2 [mkStep Sd_bus_default_system true "sd_bus_default_system"; mkStep Sd_bus_get_fd true "sd_bus_get_fd"]
    (mkStep (Uv_poll_init 5) false "uv_poll_init") _ eq_refl) as [Hr2' Ht2]; [by repeat constructor|done|].
  exists evs, p, q. split; [reflexivity|]. split; [rewrite Hr; by rewrite Hr'|]. split; [exact Ht|]. split; [rewrite Hr2; by rewrite Hr2'|exact Ht2].
Defined.

Definition redirected : files := mkFiles {[0 := Nul_file; 1 := Log_file; 2 := Log_file]} (Some 1) (Some 2) (Some 0).

Lemma windows_service_witness : exists evs p,
  scheme_init true (0, chars "C:\swish.exe") true 2 example_argv None = Some (inr evs) /\
  swish_service_windows (Some (3, 1, 2, 0)) (mkEnv (0, chars "C:\swish.exe") true (Scheme_returns 7))
    (mkManager true true 0 [(4, 0); (5, 0)]) (chars "app") 2 example_argv (fresh_process usual_files) = Some (p, inr 0) /\
  last (rev (trace p)) = Some (SetServiceStatus SERVICE_STOPPED 0x45 7 60000) /\
  standard_files p = redirected.
Proof.
  destruct (scheme_init true (0, chars "C:\swish.exe") true 2 example_argv None) as [[st|evs]|] eqn:E; [discriminate E| |discriminate E].
  destruct (proj1 (proj2 (windows_service usual_files 3 1 2 0
    redirected
    (mkEnv (0, chars "C:\swish.exe") true (Scheme_returns 7))
    (mkManager true true 0 [(4, 0); (5, 0)]) (chars "app") 2 example_argv evs E ltac:(vm_compute; reflexivity)))) as (p & r & Hr & Hfs & _ & Hq).
  destruct Hq as [Hr' Ht]. exists evs, p. split; [reflexivity|]. split; [rewrite Hr; by rewrite Hr'|].
  split; [|exact Hfs]. rewrite Ht. rewrite !app_assoc. by rewrite last_app.
Defined.

(** A message that the system goes to sleep, then nothing more. *)
Lemma bus_loop_witness :
  let w := mkWorld ∅ 1 ∅ ∅ Snil (Sobj 1) false false (fun _ => 0) 0 in
  let bus i := if (i =? 0)%nat then mkTurn 1 (Some (mkMessage true 1 1, prepareForSleep)) else mkTurn 0 None in
  process_sd_bus_message Ssymbol 5 bus 0 w =
    Some (Some 1%nat, set_callbacks (Scons (Scons (Ssymbol "$suspend") Snil) Snil) w) /\
  exists w', process_sd_bus_message Ssymbol 5 (fun _ => mkTurn (-107) None) 0 w = Some (None, w').
Proof.
  intros w bus. assert (Hc : collecting w) by (split; reflexivity). split.
  - apply (proj1 (bus_loop Ssymbol bus w Hc) 1%nat); [done| |lia].
    intros [|i] Hi; [done|lia].
  - apply (proj2 (bus_loop Ssymbol (fun _ => mkTurn (-107) None) w Hc)). done.
Defined.

Lemma service_files_witness :
  let f := mkFiles {[0 := Other_file 0; 5 := Other_file 5]} None None None in
  exists f', redirect 3 4 6 3 f = Some f' /\
    descriptors f' = {[0 := Nul_file; 1 := Log_file; 2 := Log_file; 3 := Nul_file; 4 := Log_file; 5 := Other_file 5; 6 := Log_file]} /\
    descriptors f' !! 5 = Some (Other_file 5).
Proof.
  intros f. eexists. split; [reflexivity|]. split; [reflexivity|].
  rewrite (proj2 (proj2 (proj2 (proj2 (proj2 (proj2 (service_files 3 4 6 3 f _ ltac:(lia) ltac:(by eexists)
    ltac:(by left) ltac:(by left) ltac:(by left) eq_refl)))))) 5); [done|].
  rewrite !not_elem_of_cons. split_and!; try done. apply not_elem_of_nil.
Defined.
