(* ===== verification/Bits.v ===== *)
(** * Bits: unsigned integers as lists of bits

    [of_bits] reads a list of bits, least significant first.  The operations of C on unsigned
    integers become operations on the lists, which compute on lists of known length with unknown
    bits; two expressions of such integers are then compared by computing both lists. *)

From S2P Require Export Prelude.

Fixpoint of_bits (l : list bool) : Z :=
  match l with [] => 0 | b :: l => Z.b2z b + 2 * of_bits l end.

(** The bits of a positive constant. *)
Fixpoint pos_bits (p : positive) : list bool :=
  match p with xH => [true] | xO p => false :: pos_bits p | xI p => true :: pos_bits p end.

Fixpoint land_bits (l m : list bool) : list bool :=
  match l, m with x :: l, y :: m => (x && y) :: land_bits l m | _, _ => [] end.
Fixpoint lor_bits (l m : list bool) : list bool :=
  match l, m with x :: l, y :: m => (x || y) :: lor_bits l m | [], m => m | l, [] => l end.

(** ** The operations *)

Lemma of_bits_bounds l : 0 <= of_bits l < 2 ^ Z.of_nat (length l).
Proof.
  induction l as [|b l IH]; cbn [of_bits length]; [lia|].
  rewrite Nat2Z.inj_succ, Z.pow_succ_r by lia. destruct b; cbn [Z.b2z]; lia.
Qed.

Lemma of_bits_app l m : of_bits (l ++ m) = of_bits l + of_bits m * 2 ^ Z.of_nat (length l).
Proof.
  induction l as [|b l IH]; cbn [of_bits app length]; [lia|].
  rewrite IH, Nat2Z.inj_succ, Z.pow_succ_r by lia. lia.
Qed.

Lemma of_bits_testbit l : forall i, 0 <= i -> Z.testbit (of_bits l) i = nth (Z.to_nat i) l false.
Proof.
  induction l as [|b l IH]; intros i Hi; cbn [of_bits].
  - rewrite Z.testbit_0_l. by destruct (Z.to_nat i).
  - rewrite Z.add_comm. destruct (decide (i = 0)) as [->|]; [by rewrite Z.testbit_0_r|].
    replace i with (Z.succ (i - 1)) at 1 by lia. rewrite Z.testbit_succ_r, IH by lia.
    replace (Z.to_nat i) with (S (Z.to_nat (i - 1))) by lia. done.
Qed.

Lemma nth_land_bits l : forall m n, nth n (land_bits l m) false = nth n l false && nth n m false.
Proof.
  induction l as [|x l IH]; intros [|y m] [|n]; cbn; try done; try apply IH; by rewrite andb_false_r.
Qed.
Lemma nth_lor_bits l : forall m n, nth n (lor_bits l m) false = nth n l false || nth n m false.
Proof.
  induction l as [|x l IH]; intros [|y m] [|n]; cbn; try done; try apply IH; by rewrite orb_false_r.
Qed.

Lemma of_bits_land l m : Z.land (of_bits l) (of_bits m) = of_bits (land_bits l m).
Proof. apply Z.bits_inj'. intros i Hi. by rewrite Z.land_spec, !of_bits_testbit, nth_land_bits by done. Qed.
Lemma of_bits_lor l m : Z.lor (of_bits l) (of_bits m) = of_bits (lor_bits l m).
Proof. apply Z.bits_inj'. intros i Hi. by rewrite Z.lor_spec, !of_bits_testbit, nth_lor_bits by done. Qed.

Lemma of_pos_bits p : of_bits (pos_bits p) = Zpos p.
Proof. induction p as [p IH|p IH|]; cbn [pos_bits of_bits Z.b2z]; rewrite ?IH; lia. Qed.
Lemma of_bits_land_pos l p : Z.land (of_bits l) (Zpos p) = of_bits (land_bits l (pos_bits p)).
Proof. by rewrite <- of_pos_bits, of_bits_land. Qed.
Lemma of_bits_lor_pos l p : Z.lor (of_bits l) (Zpos p) = of_bits (lor_bits l (pos_bits p)).
Proof. by rewrite <- of_pos_bits, of_bits_lor. Qed.

Lemma of_bits_replicate n : of_bits (replicate n false) = 0.
Proof. induction n as [|n IH]; cbn [replicate of_bits]; [done|]. rewrite IH. done. Qed.

Lemma of_bits_shiftl l p : Z.shiftl (of_bits l) (Zpos p) = of_bits (replicate (Pos.to_nat p) false ++ l).
Proof.
  rewrite of_bits_app, of_bits_replicate, length_replicate, positive_nat_Z, Z.shiftl_mul_pow2 by lia. lia.
Qed.

Lemma of_bits_drop n : forall l, of_bits (drop n l) = of_bits l / 2 ^ Z.of_nat n.
Proof.
  induction n as [|n IH]; intros [|b l]; cbn [drop of_bits]; try (by rewrite ?Z.div_1_r, ?Z.div_0_l by lia).
  - rewrite Nat2Z.inj_succ, Z.pow_succ_r, <- Z.div_div, IH by lia. f_equal.
    destruct b; cbn [Z.b2z]; rewrite ?(Z.mul_comm 2), Z.div_add by lia; change (1 / 2) with 0; change (0 / 2) with 0; lia.
Qed.
Lemma of_bits_shiftr l p : Z.shiftr (of_bits l) (Zpos p) = of_bits (drop (Pos.to_nat p) l).
Proof. by rewrite of_bits_drop, positive_nat_Z, Z.shiftr_div_pow2 by lia. Qed.

Lemma of_bits_take n : forall l, of_bits (take n l) = of_bits l mod 2 ^ Z.of_nat n.
Proof.
  induction n as [|n IH]; intros [|b l]; cbn [take of_bits]; try (by rewrite ?Z.mod_1_r, ?Z.mod_0_l by lia).
  rewrite IH, Nat2Z.inj_succ, Z.pow_succ_r by lia.
  assert (Hp : 0 < 2 ^ Z.of_nat n) by lia. pose proof (Z.div_mod (of_bits l) (2 ^ Z.of_nat n) ltac:(lia)) as Hdiv.
  pose proof (Z.mod_pos_bound (of_bits l) _ Hp) as Hmod.
  apply (Z.mod_unique_pos _ _ (of_bits l / 2 ^ Z.of_nat n)); destruct b; cbn [Z.b2z]; lia.
Qed.
Lemma of_bits_wrap l w : wrap (Zpos w) (of_bits l) = of_bits (take (Pos.to_nat w) l).
Proof. unfold wrap. by rewrite of_bits_take, positive_nat_Z. Qed.

Lemma of_bits_eq_0 l : (of_bits l =? 0) = forallb negb l.
Proof.
  induction l as [|b l IH]; cbn [of_bits forallb]; [done|]. rewrite <- IH. pose proof (of_bits_bounds l).
  destruct b; cbn [Z.b2z negb andb]; [apply Z.eqb_neq; lia|].
  destruct (Z.eqb_spec (of_bits l) 0), (Z.eqb_spec (0 + 2 * of_bits l) 0); lia.
Qed.

(** ** Bytes *)

(** A byte has eight bits. *)
Lemma byte_bits c : is_byte c -> exists b0 b1 b2 b3 b4 b5 b6 b7, c = of_bits [b0; b1; b2; b3; b4; b5; b6; b7].
Proof.
  intros Hc. set (b i := Z.testbit c i). exists (b 0), (b 1), (b 2), (b 3), (b 4), (b 5), (b 6), (b 7).
  apply Z.bits_inj'. intros i Hi. rewrite of_bits_testbit by done.
  destruct (decide (i < 8)) as [Hlt|].
  - assert (i = 0 \/ i = 1 \/ i = 2 \/ i = 3 \/ i = 4 \/ i = 5 \/ i = 6 \/ i = 7) as Hcases by lia.
    by repeat destruct Hcases as [->|Hcases]; subst.
  - rewrite (is_uint_bits_high 8) by (done || lia). rewrite nth_overflow; [done|]. cbn. lia.
Qed.

(** The sign of a byte as a [signed char]. *)
Lemma signed_char_bits b0 b1 b2 b3 b4 b5 b6 b7 :
  (0 <=? swrap 8 (of_bits [b0; b1; b2; b3; b4; b5; b6; b7])) = negb b7.
Proof. by destruct b0, b1, b2, b3, b4, b5, b6, b7. Qed.
