(* ===== verification/Varint.v ===== *)
(** * Varint: the variable-length integers of SQLite's files

    sqlite3.c, util.c part: writing and reading a 64-bit integer in one to nine bytes.  Memory is
    a list of bytes from the pointer on; a read past its end is undefined ([None]). *)

From S2P Require Export Bits.

(** ** Writing *)

(** The loop of [putVarint64] that fills [buf], which has ten bytes, from the least significant
    group on. *)
Fixpoint buf_loop (room : nat) (v : Z) : option (list Z) :=
  match room with
  | O => None
  | S room =>
    let byte := u8 (Z.lor (Z.land v 0x7f) 0x80) in
    let v := Z.shiftr v 7 in
    if negb (v =? 0) then buf ← buf_loop room v; Some (byte :: buf) else Some [byte]
  end.

(** The loop over [i] from [n - 1] down to 0: the bytes [p[0]] to [p[n - 1]]. *)
Fixpoint high_loop (n : nat) (v : Z) (p : list Z) : list Z :=
  match n with
  | O => p
  | S n => high_loop n (Z.shiftr v 7) (u8 (Z.lor (Z.land v 0x7f) 0x80) :: p)
  end.

Definition putVarint64 (v : Z) : option (list Z) :=
  if negb (Z.land v (Z.shiftl 0xff000000 32) =? 0) then
    let p8 := u8 v in
    let v := Z.shiftr v 8 in
    Some (high_loop 8 v [p8])
  else
    buf ← buf_loop 10 v;
    match buf with
    | buf0 :: rest => Some (rev (Z.land buf0 0x7f :: rest))
    | [] => None
    end.

(** The bytes written; their number is the result. *)
Definition sqlite3PutVarint (v : Z) : option (list Z) :=
  if v <=? 0x7f then Some [Z.land v 0x7f]
  else if v <=? 0x3fff then Some [Z.lor (Z.land (Z.shiftr v 7) 0x7f) 0x80; Z.land v 0x7f]
  else putVarint64 v.

(** [for(i=1; (v >>= 7)!=0; i++)]. *)
Fixpoint varint_len_loop (fuel : nat) (i v : Z) : Z :=
  match fuel with
  | O => i
  | S fuel => let v := Z.shiftr v 7 in if negb (v =? 0) then varint_len_loop fuel (i + 1) v else i
  end.
Definition sqlite3VarintLen (v : Z) : Z := varint_len_loop 10 1 v.

(** ** Reading *)

Definition SLOT_2_0 : Z := 0x001fc07f.
Definition SLOT_4_2_0 : Z := 0xf01fc07f.

(** A bit test of C. *)
Definition test (a mask : Z) : bool := negb (Z.land a mask =? 0).
(** A shift of a [u32]. *)
Definition shl32 (a n : Z) : Z := u32 (Z.shiftl a n).
(** [((u64)s)<<32 | a]. *)
Definition join (s a : Z) : Z := Z.lor (u64 (Z.shiftl s 32)) a.

(** The number of bytes read and the value. *)
Definition sqlite3GetVarint (p : list Z) : option (Z * Z) :=
  p0 ← p !! 0%nat;
  if 0 <=? swrap 8 p0 then Some (1, p0) else
  p1 ← p !! 1%nat;
  if 0 <=? swrap 8 p1 then Some (2, Z.lor (shl32 (Z.land p0 0x7f) 7) p1) else
  let a := shl32 p0 14 in
  let b := p1 in
  p2 ← p !! 2%nat;
  let a := Z.lor a p2 in
  if negb (test a 0x80) then
    let a := Z.land a SLOT_2_0 in
    let b := Z.land b 0x7f in
    let b := shl32 b 7 in
    Some (3, Z.lor a b)
  else
  let a := Z.land a SLOT_2_0 in
  p3 ← p !! 3%nat;
  let b := Z.lor (shl32 b 14) p3 in
  if negb (test b 0x80) then
    let b := Z.land b SLOT_2_0 in
    let a := shl32 a 7 in
    Some (4, Z.lor a b)
  else
  let b := Z.land b SLOT_2_0 in
  let s := a in
  p4 ← p !! 4%nat;
  let a := Z.lor (shl32 a 14) p4 in
  if negb (test a 0x80) then
    let b := shl32 b 7 in
    let a := Z.lor a b in
    let s := Z.shiftr s 18 in
    Some (5, join s a)
  else
  let s := Z.lor (shl32 s 7) b in
  p5 ← p !! 5%nat;
  let b := Z.lor (shl32 b 14) p5 in
  if negb (test b 0x80) then
    let a := Z.land a SLOT_2_0 in
    let a := shl32 a 7 in
    let a := Z.lor a b in
    let s := Z.shiftr s 18 in
    Some (6, join s a)
  else
  p6 ← p !! 6%nat;
  let a := Z.lor (shl32 a 14) p6 in
  if negb (test a 0x80) then
    let a := Z.land a SLOT_4_2_0 in
    let b := Z.land b SLOT_2_0 in
    let b := shl32 b 7 in
    let a := Z.lor a b in
    let s := Z.shiftr s 11 in
    Some (7, join s a)
  else
  let a := Z.land a SLOT_2_0 in
  p7 ← p !! 7%nat;
  let b := Z.lor (shl32 b 14) p7 in
  if negb (test b 0x80) then
    let b := Z.land b SLOT_4_2_0 in
    let a := shl32 a 7 in
    let a := Z.lor a b in
    let s := Z.shiftr s 4 in
    Some (8, join s a)
  else
  p8 ← p !! 8%nat;
  let a := Z.lor (shl32 a 15) p8 in
  let b := Z.land b SLOT_2_0 in
  let b := shl32 b 8 in
  let a := Z.lor a b in
  let s := shl32 s 4 in
  let b := p4 in
  let b := Z.land b 0x7f in
  let b := Z.shiftr b 3 in
  let s := Z.lor s b in
  Some (9, join s a).

Definition sqlite3GetVarint32 (p : list Z) : option (Z * Z) :=
  p0 ← p !! 0%nat;
  p1 ← p !! 1%nat;
  if negb (test p1 0x80) then Some (2, Z.lor (Z.shiftl (Z.land p0 0x7f) 7) p1) else
  p2 ← p !! 2%nat;
  if negb (test p2 0x80) then
    Some (3, Z.lor (Z.lor (Z.shiftl (Z.land p0 0x7f) 14) (Z.shiftl (Z.land p1 0x7f) 7)) p2)
  else
  '(n, v64) ← sqlite3GetVarint p;
  if negb (Z.land v64 0xffffffff =? v64) then Some (n, 0xffffffff) else Some (n, u32 v64).

(** The macro [getVarint32]. *)
Definition getVarint32 (p : list Z) : option (Z * Z) :=
  p0 ← p !! 0%nat;
  if p0 <? 0x80 then Some (1, p0) else sqlite3GetVarint32 p.

(** ** The format *)

(** A varint has seven bits in each byte with the top bit set and in the last one, most significant
    first, and eight in the ninth: the bytes [p] after [n] others whose bits are [acc]. *)
Fixpoint decode_varint (more : nat) (acc : Z) (p : list Z) : option (Z * Z) :=
  match p with
  | [] => None
  | c :: p =>
    match more with
    | O => Some (9, acc * 256 + c)
    | S more => if c <? 128 then Some (8 - Z.of_nat more, acc * 128 + c) else decode_varint more (acc * 128 + (c - 128)) p
    end
  end.

Lemma decode_more b0 b1 b2 b3 b4 b5 b6 b7 more l p :
  decode_varint (S more) (of_bits l) (of_bits [b0; b1; b2; b3; b4; b5; b6; b7] :: p) =
  if b7 then decode_varint more (of_bits ([b0; b1; b2; b3; b4; b5; b6] ++ l)) p
  else Some (8 - Z.of_nat more, of_bits ([b0; b1; b2; b3; b4; b5; b6] ++ l)).
Proof.
  cbn [decode_varint]. rewrite of_bits_app. change (length [b0; b1; b2; b3; b4; b5; b6]) with 7%nat.
  change (2 ^ Z.of_nat 7) with 128. set (low := of_bits [b0; b1; b2; b3; b4; b5; b6]).
  assert (Hlow : of_bits [b0; b1; b2; b3; b4; b5; b6; b7] = low + (if b7 then 128 else 0)).
  { unfold low. cbn [of_bits]. destruct b7; cbn [Z.b2z]; lia. }
  pose proof (of_bits_bounds [b0; b1; b2; b3; b4; b5; b6]) as Hb. change (2 ^ Z.of_nat (length _)) with 128 in Hb.
  fold low in Hb. rewrite Hlow. destruct b7.
  - destruct (Z.ltb_spec (low + 128) 128); [lia|]. f_equal. lia.
  - destruct (Z.ltb_spec (low + 0) 128); [|lia]. do 2 f_equal. lia.
Qed.
Lemma decode_last b l p : length b = 8%nat ->
  decode_varint 0 (of_bits l) (of_bits b :: p) = Some (9, of_bits (b ++ l)).
Proof. intros Hb. cbn [decode_varint]. rewrite of_bits_app, Hb. change (2 ^ Z.of_nat 8) with 256. do 2 f_equal. lia. Qed.

(** ** Reading follows the format *)

(** Words of known width with unknown bits. *)
Ltac bits_step :=
  first [rewrite of_bits_land_pos | rewrite of_bits_lor_pos | rewrite of_bits_land | rewrite of_bits_lor
        | rewrite of_bits_shiftl | rewrite of_bits_shiftr | rewrite of_bits_wrap].
Lemma if_true_false (b : bool) : (if b then true else false) = b.
Proof. by destruct b. Qed.
Ltac bits_compute :=
  cbv [Pos.to_nat Pos.iter_op Init.Nat.add Nat.add replicate app take drop land_bits lor_bits pos_bits forallb];
  rewrite ?andb_true_r, ?andb_false_r, ?orb_false_r; cbv [orb andb negb]; rewrite ?if_true_false.
Ltac bits :=
  unfold test, join, shl32, u32, u64, SLOT_2_0, SLOT_4_2_0; repeat (bits_step; bits_compute);
  rewrite ?of_bits_eq_0; bits_compute.

(** The next byte of [p], which both sides read. *)
Ltac next_byte p Hp b :=
  destruct p as [|? p]; [done|];
  let H := fresh in
  apply Forall_cons in Hp as [H Hp]; apply byte_bits in H as (? & ? & ? & ? & ? & ? & ? & b & ->);
  cbn [lookup list_lookup]; rewrite bind_Some.

Ltac read_more p Hp b :=
  next_byte p Hp b; rewrite decode_more; bits; destruct b; cbn [negb app]; [|by bits].

Lemma get_varint_decodes p : Forall is_byte p -> sqlite3GetVarint p = decode_varint 8 0 p.
Proof.
  intros Hp. change 0 with (of_bits []). unfold sqlite3GetVarint.
  do 2 (next_byte p Hp b; rewrite signed_char_bits, decode_more; destruct b; cbn [negb app]; [|by bits]).
  do 6 read_more p Hp b. next_byte p Hp b. rewrite decode_last by done. by bits.
Qed.

(** ** Writing follows the format *)

Definition flagged (c : Z) : Prop := 128 <= c < 256.
(** The value of groups of seven bits, most significant first. *)
Definition groups (acc : Z) (l : list Z) : Z := fold_left (fun acc c => acc * 128 + (c - 128)) l acc.

Lemma decode_flagged l : Forall flagged l -> forall more acc p,
  decode_varint (length l + more) acc (l ++ p) = decode_varint more (groups acc l) p.
Proof.
  induction 1 as [|c l Hc Hl IH]; intros more acc p; [done|]. unfold flagged in Hc.
  change (decode_varint (S (length l + more)) acc (c :: l ++ p) = decode_varint more (groups acc (c :: l)) p).
  cbn [decode_varint]. destruct (Z.ltb_spec c 128); [lia|]. by rewrite IH.
Qed.

Lemma land_ones7 v : Z.land v 0x7f = v mod 128.
Proof. change 0x7f with (Z.ones 7). by rewrite Z.land_ones by lia. Qed.
(** A group with its flag. *)
Lemma lor_flag x : 0 <= x < 128 -> Z.lor x 0x80 = x + 128.
Proof.
  intros Hx. rewrite Z.lor_comm. change 0x80 with (Z.shiftl 1 7) at 1.
  rewrite lor_shiftl_add; [|lia|unfold is_uint; lia]. lia.
Qed.
Lemma group_byte v : u8 (Z.lor (Z.land v 0x7f) 0x80) = v mod 128 + 128.
Proof.
  pose proof (Z.mod_pos_bound v 128 ltac:(lia)). rewrite land_ones7, lor_flag by done.
  apply u8_small. unfold is_byte, is_uint. lia.
Qed.

Lemma buf_loop_spec room : forall v buf, 0 <= v -> buf_loop room v = Some buf ->
  Forall flagged buf /\ groups 0 (rev buf) = v /\ (length buf <= room)%nat /\
  (forall fuel i, (length buf <= fuel)%nat -> varint_len_loop fuel i v = i + Z.of_nat (length buf) - 1) /\
  exists c rest, buf = c :: rest /\ c = v mod 128 + 128.
Proof.
  induction room as [|room IH]; intros v buf Hv; cbn [buf_loop]; [done|].
  rewrite group_byte, Z.shiftr_div_pow2 by lia. change (2 ^ 7) with 128.
  pose proof (Z.mod_pos_bound v 128 ltac:(lia)) as Hm. pose proof (Z.div_mod v 128 ltac:(lia)) as Hd.
  pose proof (Z.div_pos v 128 Hv ltac:(lia)) as Hq.
  destruct (Z.eqb_spec (v / 128) 0) as [Hz|Hnz]; cbn [negb].
  - intros [= <-]. split; [constructor; [unfold flagged; lia|done]|]. split; [cbn; lia|]. split; [cbn; lia|].
    split; [|by eexists _, _]. intros [|fuel] i Hf; cbn [length] in *; [lia|]. cbn [varint_len_loop].
    rewrite Z.shiftr_div_pow2 by lia. change (2 ^ 7) with 128. rewrite Hz. cbn. lia.
  - intros (buf' & Hb & [= <-])%option.bind_Some. destruct (IH _ _ Hq Hb) as (Hf & Hg & Hl & Hlen & c & rest & -> & Hc).
    split; [constructor; [unfold flagged; lia|done]|]. split.
    { cbn [rev]. unfold groups in *. rewrite fold_left_app. cbn [rev] in Hg. rewrite Hg. cbn. lia. }
    split; [cbn [length] in *; lia|]. split; [|by eexists _, _].
    intros [|fuel] i Hf'; cbn [length] in *; [lia|]. cbn [varint_len_loop]. rewrite Z.shiftr_div_pow2 by lia.
    change (2 ^ 7) with 128. rewrite (proj2 (Z.eqb_neq _ _) Hnz). cbn [negb]. rewrite Hlen by (cbn; lia). lia.
Qed.

Lemma buf_loop_mono room : forall room' v buf, (room <= room')%nat -> buf_loop room v = Some buf -> buf_loop room' v = Some buf.
Proof.
  induction room as [|room IH]; intros [|room'] v buf Hr; cbn [buf_loop]; try done; try lia.
  destruct (negb _); [|done]. intros (buf' & Hb & Heq)%option.bind_Some. by rewrite (IH room' _ buf') by (done || lia).
Qed.
(** The buffer is long enough. *)
Lemma buf_loop_some room : forall v, 0 <= v < 128 ^ Z.of_nat room -> (0 < room)%nat -> exists buf, buf_loop room v = Some buf.
Proof.
  induction room as [|room IH]; intros v Hv Hr; [lia|]. cbn [buf_loop].
  rewrite Z.shiftr_div_pow2 by lia. change (2 ^ 7) with 128.
  destruct (Z.eqb_spec (v / 128) 0) as [Hz|Hnz]; cbn [negb]; [by eexists|].
  rewrite Nat2Z.inj_succ, Z.pow_succ_r in Hv by lia.
  destruct (IH (v / 128)) as [buf ->]; [|destruct room; [exfalso; apply Hnz, Z.div_small; cbn in Hv; lia|lia]|by eexists].
  split; [apply Z.div_pos; lia|]. apply Z.div_lt_upper_bound; lia.
Qed.

Lemma high_loop_spec n : forall v p, 0 <= v < 128 ^ Z.of_nat n ->
  exists l, high_loop n v p = l ++ p /\ length l = n /\ Forall flagged l /\ forall acc, groups acc l = acc * 128 ^ Z.of_nat n + v.
Proof.
  induction n as [|n IH]; intros v p Hv; cbn [high_loop].
  - exists []. split_and!; [done..|]. intros acc. cbn in *. lia.
  - rewrite group_byte, Z.shiftr_div_pow2 by lia. change (2 ^ 7) with 128.
    rewrite Nat2Z.inj_succ, Z.pow_succ_r in * by lia.
    pose proof (Z.mod_pos_bound v 128 ltac:(lia)) as Hm. pose proof (Z.div_mod v 128 ltac:(lia)) as Hd.
    destruct (IH (v / 128) (v mod 128 + 128 :: p)) as (l & -> & Hl & Hf & Hg).
    { split; [apply Z.div_pos; lia|]. apply Z.div_lt_upper_bound; lia. }
    exists (l ++ [v mod 128 + 128]). split; [by rewrite <- app_assoc|]. split; [rewrite length_app, Hl; cbn; lia|].
    split; [apply Forall_app; split; [done|]; constructor; [unfold flagged; lia|done]|].
    intros acc. unfold groups in *. rewrite fold_left_app, Hg. cbn. lia.
Qed.

Lemma varint_len_spec n : forall v fuel i, 128 ^ Z.of_nat n <= v < 128 ^ (Z.of_nat n + 1) -> (n < fuel)%nat ->
  varint_len_loop fuel i v = i + Z.of_nat n.
Proof.
  induction n as [|n IH]; intros v [|fuel] i Hv Hf; try lia; cbn [varint_len_loop];
    rewrite Z.shiftr_div_pow2 by lia; change (2 ^ 7) with 128.
  - rewrite Z.div_small by (cbn in Hv; lia). cbn. lia.
  - rewrite Z.pow_add_r, Nat2Z.inj_succ, Z.pow_succ_r in Hv by lia. change (128 ^ 1) with 128 in Hv.
    assert (Hq : 128 ^ Z.of_nat n <= v / 128 < 128 ^ (Z.of_nat n + 1)).
    { rewrite Z.pow_add_r by lia. change (128 ^ 1) with 128.
      split; [apply Z.div_le_lower_bound; lia|apply Z.div_lt_upper_bound; lia]. }
    assert (0 < 128 ^ Z.of_nat n) by lia.
    rewrite (proj2 (Z.eqb_neq (v / 128) 0)) by lia. cbn [negb]. rewrite (IH _ _ _ Hq) by lia. lia.
Qed.

(** The test for nine bytes. *)
Lemma land_top v : is_uint 64 v -> (Z.land v (Z.shiftl 0xff000000 32) =? 0) = negb (2 ^ 56 <=? v).
Proof.
  unfold is_uint. intros Hv. change (Z.shiftl 0xff000000 32) with (Z.shiftl (Z.ones 8) 56).
  assert (Heq : Z.land v (Z.shiftl (Z.ones 8) 56) = Z.shiftl (Z.shiftr v 56) 56).
  { apply Z.bits_inj'. intros i Hi. rewrite Z.land_spec. destruct (decide (i < 56)).
    - by rewrite !Z.shiftl_spec_low, andb_false_r by lia.
    - rewrite !Z.shiftl_spec, Z.shiftr_spec by lia. replace (i - 56 + 56) with i by lia.
      destruct (decide (i < 64)); [rewrite Z.ones_spec_low by lia; apply andb_true_r|].
      by rewrite (is_uint_bits_high 64 v i) by (done || lia). }
  rewrite Heq, Z.shiftl_mul_pow2, Z.shiftr_div_pow2 by lia.
  destruct (Z.leb_spec (2 ^ 56) v); cbn [negb].
  - apply Z.eqb_neq. assert (0 < v / 2 ^ 56) by (apply Z.div_str_pos; lia). lia.
  - by rewrite Z.div_small by lia.
Qed.

(** A written integer is a list of flagged bytes and a last byte. *)
Lemma put_varint_spec v : is_uint 64 v -> exists l c, sqlite3PutVarint v = Some (l ++ [c]) /\ Forall flagged l /\
  (length l <= 8)%nat /\
  (if decide (length l = 8%nat) then v = groups 0 l * 256 + c /\ is_byte c /\ 2 ^ 56 <= v
   else v = groups 0 l * 128 + c /\ 0 <= c < 128 /\ v < 2 ^ 56) /\
  (v < 2 ^ 63 -> sqlite3VarintLen v = Z.of_nat (length l) + 1).
Proof.
  unfold is_uint. intros Hv. unfold sqlite3PutVarint, sqlite3VarintLen.
  destruct (Z.leb_spec v 0x7f).
  { exists [], v. rewrite land_ones7, Z.mod_small by lia. split; [done|]. split; [done|]. split; [cbn; lia|].
    split; [rewrite decide_False by (cbn; lia); change (groups 0 []) with 0; lia|]. intros _. cbn [varint_len_loop].
    by rewrite Z.shiftr_div_pow2, Z.div_small by lia. }
  destruct (Z.leb_spec v 0x3fff).
  { rewrite Z.shiftr_div_pow2 by lia. change (2 ^ 7) with 128.
    pose proof (Z.mod_pos_bound v 128 ltac:(lia)) as Hm. pose proof (Z.div_mod v 128 ltac:(lia)) as Hd.
    assert (0 < v / 128 < 128) by (split; [apply Z.div_str_pos; lia|apply Z.div_lt_upper_bound; lia]).
    rewrite !land_ones7, (Z.mod_small (v / 128)), lor_flag by lia.
    exists [v / 128 + 128], (v mod 128). split; [done|]. split; [by constructor; [unfold flagged; lia|]|].
    split; [cbn; lia|]. split; [rewrite decide_False by (cbn; lia); cbn; lia|].
    intros _. cbn [varint_len_loop]. rewrite !Z.shiftr_div_pow2 by lia. change (2 ^ 7) with 128.
    rewrite (proj2 (Z.eqb_neq (v / 128) 0)) by lia. cbn [negb]. by rewrite Z.div_small by lia. }
  unfold putVarint64. rewrite (land_top v) by exact Hv. destruct (Z.leb_spec (2 ^ 56) v) as [Hbig|Hsmall]; cbn [negb].
  - pose proof (Z.mod_pos_bound v 256 ltac:(lia)) as Hm. pose proof (Z.div_mod v 256 ltac:(lia)) as Hd.
    rewrite Z.shiftr_div_pow2 by lia. change (2 ^ 8) with 256.
    destruct (high_loop_spec 8 (v / 256) [u8 v]) as (l & -> & Hl & Hf & Hg).
    { split; [apply Z.div_pos; lia|]. change (128 ^ Z.of_nat 8) with (2 ^ 56). apply Z.div_lt_upper_bound; lia. }
    change (128 ^ Z.of_nat 8) with (2 ^ 56) in Hg. exists l, (u8 v). split; [done|]. split; [done|]. split; [lia|]. change (u8 v) with (v mod 256) in *.
    rewrite decide_True by done. split.
    { rewrite Hg. split; [lia|]. split; [unfold is_byte, is_uint; lia|done]. }
    intros H63. rewrite Hl. rewrite (varint_len_spec 8); [done| |lia].
    change (128 ^ Z.of_nat 8) with (2 ^ 56). change (128 ^ (Z.of_nat 8 + 1)) with (2 ^ 63). lia.
  - destruct (buf_loop_some 8 v) as [buf Hb]; [change (128 ^ Z.of_nat 8) with (2 ^ 56); lia|lia|].
    rewrite (buf_loop_mono 8 10 v buf), bind_Some by (done || lia).
    destruct (buf_loop_spec 8 v buf ltac:(lia) Hb) as (Hf & Hg & Hl & Hlen & c & rest & -> & ->).
    pose proof (Z.mod_pos_bound v 128 ltac:(lia)) as Hm. inversion_clear Hf as [|? ? _ Hrest].
    exists (rev rest), (v mod 128). rewrite land_ones7, length_rev.
    assert (Hlow : (v mod 128 + 128) mod 128 = v mod 128) by (symmetry; apply (Z.mod_unique_pos _ _ 1); lia).
    rewrite Hlow. split; [done|]. split; [by apply Forall_rev|]. cbn [length] in Hl. split; [lia|].
    rewrite decide_False by lia. cbn [rev] in Hg. unfold groups in *. rewrite fold_left_app in Hg. cbn in Hg.
    split; [lia|]. intros _. rewrite Hlen by (cbn; lia). cbn [length]. lia.
Qed.

Lemma decode_nonneg more : forall acc p n v, Forall is_byte p -> 0 <= acc -> decode_varint more acc p = Some (n, v) -> 0 <= v.
Proof.
  induction more as [|more IH]; intros acc [|c p] n v Hp Hacc; cbn [decode_varint]; try done;
    apply Forall_cons in Hp as [Hc Hp]; unfold is_byte, is_uint in Hc.
  - intros [= _ <-]. lia.
  - destruct (Z.ltb_spec c 128); [intros [= _ <-]; lia|]. apply IH; [done|lia].
Qed.

Lemma saturate v : 0 <= v -> (if negb (Z.land v 0xffffffff =? v) then 0xffffffff else u32 v) = Z.min v (2 ^ 32 - 1).
Proof.
  intros Hv. change 0xffffffff with (Z.ones 32). rewrite Z.land_ones by lia. unfold u32, wrap.
  pose proof (Z.mod_pos_bound v (2 ^ 32) ltac:(lia)). pose proof (Z.div_mod v (2 ^ 32) ltac:(lia)).
  change (Z.ones 32) with (2 ^ 32 - 1). destruct (Z.eqb_spec (v mod 2 ^ 32) v) as [He|Hne]; cbn [negb]; [lia|].
  destruct (decide (v < 2 ^ 32)); [rewrite Z.mod_small in * by lia; lia|lia].
Qed.

(** The saturated value of a varint. *)
Definition saturated (r : Z * Z) : Z * Z := (r.1, Z.min r.2 (2 ^ 32 - 1)).

Lemma small_bits l : (length l <= 31)%nat -> of_bits l `min` (2 ^ 32 - 1) = of_bits l.
Proof.
  intros Hl. pose proof (of_bits_bounds l). assert (2 ^ Z.of_nat (length l) <= 2 ^ 31) by (apply Z.pow_le_mono_r; lia). lia.
Qed.

Lemma small_byte_bits b0 b1 b2 b3 b4 b5 b6 b7 : (of_bits [b0; b1; b2; b3; b4; b5; b6; b7] <? 0x80) = negb b7.
Proof. by destruct b0, b1, b2, b3, b4, b5, b6, b7. Qed.

Lemma get_varint32_decodes p : Forall is_byte p -> getVarint32 p = saturated <$> decode_varint 8 0 p.
Proof.
  intros Hp. pose proof (get_varint_decodes p Hp) as Hget.
  assert (Hrest : ('(n, v64) ← sqlite3GetVarint p;
    if negb (Z.land v64 0xffffffff =? v64) then Some (n, 0xffffffff) else Some (n, u32 v64)) = saturated <$> decode_varint 8 0 p).
  { rewrite Hget. destruct (decode_varint 8 0 p) as [[n v]|] eqn:E; [|done]. cbn. unfold saturated. cbn [fst snd].
    rewrite <- saturate by (by eapply decode_nonneg). by destruct (negb _). }
  unfold getVarint32, sqlite3GetVarint32. rewrite Hrest. clear Hget Hrest.
  set (slow := saturated <$> decode_varint 8 0 p). assert (Hslow : slow = saturated <$> decode_varint 8 (of_bits []) p) by done.
  clearbody slow. next_byte p Hp b. rewrite small_byte_bits. rewrite decode_more in Hslow. destruct b; cbn [negb app] in *.
  2: { rewrite Hslow. cbn [fmap option_fmap option_map]. unfold saturated. cbn [fst snd]. rewrite small_bits by (cbn; lia). by rewrite ?if_true_false. }
  rewrite bind_Some. next_byte p Hp b. rewrite decode_more in Hslow. bits. destruct b; cbn [negb app] in *.
  2: { rewrite Hslow. cbn [fmap option_fmap option_map]. unfold saturated. cbn [fst snd]. rewrite small_bits by (cbn; lia). by rewrite ?if_true_false. }
  next_byte p Hp b. rewrite decode_more in Hslow. bits. destruct b; cbn [negb app] in *; [done|].
  rewrite Hslow. cbn [fmap option_fmap option_map]. unfold saturated. cbn [fst snd]. rewrite small_bits by (cbn; lia). by rewrite ?if_true_false.
Qed.

(** What is written reads back. *)
Lemma get_after_put v rest bs : is_uint 64 v -> Forall is_byte rest -> sqlite3PutVarint v = Some bs ->
  Forall is_byte bs /\ decode_varint 8 0 (bs ++ rest) = Some (Z.of_nat (length bs), v).
Proof.
  intros Hv Hrest Hput. destruct (put_varint_spec v Hv) as (l & c & Hput' & Hf & Hl & Hlast & _).
  rewrite Hput' in Hput. injection Hput as <-. split.
  { apply Forall_app. split.
    - eapply Forall_impl; [exact Hf|]. unfold flagged, is_byte, is_uint. lia.
    - constructor; [|done]. destruct (decide _); unfold is_byte, is_uint in *; lia. }
  rewrite <- app_assoc. replace 8%nat with (length l + (8 - length l))%nat at 1 by lia.
  rewrite (decode_flagged l Hf), length_app. cbn [app length]. destruct (decide (length l = 8%nat)) as [H8|Hn].
  - rewrite H8. cbn [Nat.sub decode_varint]. do 2 f_equal. lia.
  - destruct (8 - length l)%nat as [|k] eqn:E; [lia|]. cbn [decode_varint].
    destruct (Z.ltb_spec c 128); [|lia]. do 2 f_equal; lia.
Qed.

(** C33 (finding): variable-length integers. The bytes written for a 64-bit integer, followed by any
    others, read back as the integer and their number, which is between one and nine; reading is
    exactly decoding the format, wherever the list of bytes ends.  [sqlite3GetVarint32] reads the
    same bytes and gives 2^32-1 for integers that do not fit.  [sqlite3VarintLen] is the number of
    bytes for integers below 2^63; above, it is ten, although nine are written. *)
Theorem varint_roundtrip v rest : is_uint 64 v -> Forall is_byte rest ->
  exists bs, sqlite3PutVarint v = Some bs /\ Forall is_byte bs /\ (1 <= length bs <= 9)%nat /\
    sqlite3GetVarint (bs ++ rest) = Some (Z.of_nat (length bs), v) /\
    getVarint32 (bs ++ rest) = Some (Z.of_nat (length bs), Z.min v (2 ^ 32 - 1)) /\
    sqlite3VarintLen v = (if v <? 2 ^ 63 then Z.of_nat (length bs) else 10) /\
    (2 ^ 56 <= v -> length bs = 9%nat) /\
  (forall p, Forall is_byte p -> sqlite3GetVarint p = decode_varint 8 0 p).
Proof.
  intros Hv Hrest. destruct (put_varint_spec v Hv) as (l & c & Hput & _ & Hl & Hlast & Hlen).
  exists (l ++ [c]). destruct (get_after_put v rest _ Hv Hrest Hput) as [Hb Hget].
  assert (Hall : Forall is_byte ((l ++ [c]) ++ rest)) by (by apply Forall_app).
  split; [done|]. split; [done|]. rewrite get_varint_decodes, get_varint32_decodes, Hget by done.
  rewrite length_app in *. cbn [length] in *. split; [lia|]. split; [done|]. split; [done|].
  split; [|split; [|exact get_varint_decodes]].
  - destruct (Z.ltb_spec v (2 ^ 63)); [rewrite Hlen by done; lia|]. unfold sqlite3VarintLen. unfold is_uint in Hv.
    rewrite (varint_len_spec 9); [done| |lia].
    change (128 ^ Z.of_nat 9) with (2 ^ 63). change (128 ^ (Z.of_nat 9 + 1)) with (2 ^ 70). lia.
  - intros Hbig. destruct (decide _); lia.
Qed.

(** 2^63 takes nine bytes. *)
Lemma varint_roundtrip_witness : exists bs, sqlite3PutVarint (2 ^ 63) = Some bs /\ length bs = 9%nat /\
  sqlite3GetVarint (bs ++ [7]) = Some (9, 2 ^ 63) /\ sqlite3VarintLen (2 ^ 63) = 10.
Proof.
  destruct (varint_roundtrip (2 ^ 63) [7]) as (bs & Hput & _ & _ & Hget & _ & Hlen & H9 & _);
    [unfold is_uint; lia|by repeat constructor|].
  exists bs. assert (Hl : length bs = 9%nat) by (apply H9; lia). rewrite Hl in Hget. split_and!; done.
Defined.
