(* ===== verification/RecordFormat.v ===== *)
(** * RecordFormat: the rows of SQLite's tables as bytes

    sqlite3.c, vdbe.c and vdbeaux.c parts: how a row of values becomes a record
    ([OP_MakeRecord], after the affinities have been applied) and how a record is taken apart
    ([sqlite3VdbeRecordUnpack], [sqlite3VdbeSerialGet]).  A record has a header, with its own size
    and a serial type for each value as varints, and then the bytes of the values. *)

From S2P Require Export Varint.

(** ** Values *)

(** A [Mem]: its flags and contents; [Mem_blob z (Some n)] has [MEM_Zero] with [u.nZero = n], and
    [Mem_null true] is the null of an unchanged column.  A real number is its 64 bits. *)
Inductive mem :=
| Mem_null (nochng : bool)
| Mem_int (i : Z)
| Mem_intreal (i : Z)
| Mem_real (r : Z)
| Mem_str (z : list Z)
| Mem_blob (z : list Z) (nZero : option Z).

Definition zeros (n : Z) : list Z := replicate (Z.to_nat n) 0.
Definition size (z : list Z) : Z := Z.of_nat (length z).

(** [sqlite3VdbeMemExpandBlob], which fails when there is no memory. *)
Definition sqlite3VdbeMemExpandBlob (available : bool) (z : list Z) (nZero : Z) : option mem :=
  if available then Some (Mem_blob (z ++ zeros nZero) None) else None.

(** The sizes for serial types less than 128. *)
Definition sqlite3SmallTypeSizes : list Z :=
  [0; 1; 2; 3; 4; 6; 8; 8; 0; 0; 0; 0] ++ flat_map (fun n => [Z.of_nat n; Z.of_nat n]) (seq 0 58).

Definition sqlite3VdbeSerialTypeLen (serial_type : Z) : option Z :=
  if 128 <=? serial_type then Some ((serial_type - 12) / 2) else sqlite3SmallTypeSizes !! Z.to_nat serial_type.

(** ** The space a record needs *)

Section records.
(** [(double)i], as bits. *)
Variable double_bits : Z -> Z.

Record space := mkSpace { nData : Z; nHdr : Z; nZero : Z }.
Definition add_data (n : Z) (s : space) : space := mkSpace (nData s + n) (nHdr s) (nZero s).
Definition add_hdr (n : Z) (s : space) : space := mkSpace (nData s) (nHdr s + n) (nZero s).
Definition add_zero (n : Z) (s : space) : space := mkSpace (nData s) (nHdr s) (nZero s + n).

(** An integer: its serial type and the space of its bytes. *)
Definition integer_space (minWriteFileFormat : Z) (intreal : bool) (i : Z) (s : space) : mem * Z * space :=
  let m := if intreal then Mem_intreal i else Mem_int i in
  let uu := if i <? 0 then Z.lnot i else i in
  let s := add_hdr 1 s in
  if uu <=? 127 then
    if (Z.land i 1 =? i) && (4 <=? minWriteFileFormat) then (m, 8 + uu, s) else (m, 1, add_data 1 s)
  else if uu <=? 32767 then (m, 2, add_data 2 s)
  else if uu <=? 8388607 then (m, 3, add_data 3 s)
  else if uu <=? 2147483647 then (m, 4, add_data 4 s)
  else if uu <=? 140737488355327 then (m, 5, add_data 6 s)
  else
    let s := add_data 8 s in
    if intreal then (Mem_real (double_bits i), 7, s) else (m, 6, s).

(** One turn of the loop over the values: the value, which the loop may change, its serial type
    ([uTemp]) and the space so far; [None] when there is no memory. *)
Definition field_space (minWriteFileFormat : Z) (available : bool) (pRec : mem) (s : space) : option (mem * Z * space) :=
  match pRec with
  | Mem_null nochng => Some (pRec, if nochng then 10 else 0, add_hdr 1 s)
  | Mem_int i => Some (integer_space minWriteFileFormat false i s)
  | Mem_intreal i => Some (integer_space minWriteFileFormat true i s)
  | Mem_real _ => Some (pRec, 7, add_data 8 (add_hdr 1 s))
  | Mem_str z =>
    let len := u32 (size z) in
    let serial_type := u32 (len * 2 + 12 + 1) in
    Some (pRec, serial_type, add_hdr (sqlite3VarintLen serial_type) (add_data len s))
  | Mem_blob z None =>
    let len := u32 (size z) in
    let serial_type := u32 (len * 2 + 12) in
    Some (pRec, serial_type, add_hdr (sqlite3VarintLen serial_type) (add_data len s))
  | Mem_blob z (Some n) =>
    let len := u32 (size z) in
    let serial_type := u32 (len * 2 + 12) in
    let serial_type := u32 (serial_type + n * 2) in
    if negb (nData s =? 0) then
      m ← sqlite3VdbeMemExpandBlob available z n;
      let len := u32 (len + n) in
      Some (m, serial_type, add_hdr (sqlite3VarintLen serial_type) (add_data len s))
    else
      let s := add_zero n s in
      Some (pRec, serial_type, add_hdr (sqlite3VarintLen serial_type) (add_data len s))
  end.

(** The loop, from the last value to the first; [available] says of each blob that has to be expanded
    whether there is memory for it, by the number of values after it. *)
Fixpoint record_space (minWriteFileFormat : Z) (available : nat -> bool) (values : list mem) :
    option (list (mem * Z) * space) :=
  match values with
  | [] => Some ([], mkSpace 0 0 0)
  | pRec :: rest =>
    '(fields, s) ← record_space minWriteFileFormat available rest;
    '(m, uTemp, s) ← field_space minWriteFileFormat (available (length rest)) pRec s;
    Some ((m, uTemp) :: fields, s)
  end.

(** The size of the header with the varint of its size. *)
Definition header_size (nHdr : Z) : Z :=
  if nHdr <=? 126 then nHdr + 1
  else
    let nVarint := sqlite3VarintLen nHdr in
    let nHdr := nHdr + nVarint in
    if nVarint <? sqlite3VarintLen nHdr then nHdr + 1 else nHdr.

(** ** Writing *)

(** The bytes of the record; a write outside them is undefined. *)
Definition write (at_ : nat) (bytes : list Z) (z : list (option Z)) : option (list (option Z)) :=
  if (at_ + length bytes <=? length z)%nat then
    Some (take at_ z ++ (Some <$> bytes) ++ drop (at_ + length bytes) z)
  else None.

(** The [switch] on [len]: the low bytes of [v], most significant first. *)
Fixpoint integer_bytes (len : nat) (v : Z) (p : list Z) : list Z :=
  match len with
  | O => p
  | S len => integer_bytes len (Z.shiftr v 8) (u8 (Z.land v 0xff) :: p)
  end.

(** One value of the loop that writes: [zHdr] and [zPayload] are offsets in [z]. *)
Definition write_field (pRec : mem) (serial_type : Z) (zHdr zPayload : nat) (z : list (option Z)) :
    option (nat * nat * list (option Z)) :=
  let contents := match pRec with Mem_str z | Mem_blob z _ => z | _ => [] end in
  if serial_type <=? 7 then
    z ← write zHdr [serial_type] z;
    if serial_type =? 0 then Some (S zHdr, zPayload, z)
    else
      v ← (if serial_type =? 7 then match pRec with Mem_real r => Some r | _ => None end
           else match pRec with Mem_int i | Mem_intreal i => Some (u64 i) | _ => None end);
      len ← sqlite3SmallTypeSizes !! Z.to_nat serial_type;
      z ← write zPayload (integer_bytes (Z.to_nat len) v []) z;
      Some (S zHdr, (zPayload + Z.to_nat len)%nat, z)
  else if serial_type <? 0x80 then
    z ← write zHdr [serial_type] z;
    if (14 <=? serial_type) && (0 <? size contents) then
      z ← write zPayload contents z;
      Some (S zHdr, (zPayload + length contents)%nat, z)
    else Some (S zHdr, zPayload, z)
  else
    bytes ← sqlite3PutVarint serial_type;
    z ← write zHdr bytes z;
    let zHdr := (zHdr + length bytes)%nat in
    if negb (size contents =? 0) then
      z ← write zPayload contents z;
      Some (zHdr, (zPayload + length contents)%nat, z)
    else Some (zHdr, zPayload, z).

Fixpoint write_fields (fields : list (mem * Z)) (zHdr zPayload : nat) (z : list (option Z)) :
    option (nat * nat * list (option Z)) :=
  match fields with
  | [] => Some (zHdr, zPayload, z)
  | (pRec, uTemp) :: fields =>
    '(zHdr, zPayload, z) ← write_field pRec uTemp zHdr zPayload z;
    write_fields fields zHdr zPayload z
  end.

(** The output register: the bytes of its buffer, the limit on the length of a value, and whether
    there is memory for a new buffer. *)
Record out_register := mkOut { szMalloc : Z; limit : Z; resize : bool }.

(** The record, of [pOut->n] bytes, and [u.nZero] if it has [MEM_Zero]. *)
Inductive made := Record_made (z : list (option Z)) (nZero : option Z) | Too_big | No_mem.

Definition OP_MakeRecord (minWriteFileFormat : Z) (available : nat -> bool) (pOut : out_register) (values : list mem) :
    option made :=
  match record_space minWriteFileFormat available values with
  | None => Some No_mem
  | Some (fields, s) =>
    let nHdr := header_size (nHdr s) in
    let nByte := nHdr + nData s in
    let larger := negb (nByte + nZero s <=? szMalloc pOut) in
    if larger && (limit pOut <? nByte + nZero s) then Some Too_big
    else if larger && negb (resize pOut) then Some No_mem
    else
      let z := replicate (Z.to_nat nByte) None in
      bytes ← (if nHdr <? 0x80 then Some [nHdr] else sqlite3PutVarint nHdr);
      z ← write 0 bytes z;
      '(_, _, z) ← write_fields fields (length bytes) (Z.to_nat nHdr) z;
      Some (Record_made z (if negb (nZero s =? 0) then Some (nZero s) else None))
  end.
End records.

(** ** Reading *)

Definition EXP754 : Z := Z.shiftl 0x7ff 52.
Definition MAN754 : Z := Z.shiftl 1 52 - 1.
Definition IsNaN (x : Z) : bool := (Z.land x EXP754 =? EXP754) && negb (Z.land x MAN754 =? 0).

Definition i8 (z : Z) : Z := swrap 8 z.
Definition ONE_BYTE_INT (x0 : Z) : Z := i8 x0.
Definition TWO_BYTE_INT (x0 x1 : Z) : Z := Z.lor (256 * i8 x0) x1.
Definition THREE_BYTE_INT (x0 x1 x2 : Z) : Z := Z.lor (Z.lor (65536 * i8 x0) (Z.shiftl x1 8)) x2.
Definition FOUR_BYTE_UINT (x0 x1 x2 x3 : Z) : Z :=
  Z.lor (Z.lor (Z.lor (u32 (Z.shiftl x0 24)) (Z.shiftl x1 16)) (Z.shiftl x2 8)) x3.
Definition FOUR_BYTE_INT (x0 x1 x2 x3 : Z) : Z :=
  Z.lor (Z.lor (Z.lor (16777216 * i8 x0) (Z.shiftl x1 16)) (Z.shiftl x2 8)) x3.

(** Eight bytes, as an integer or a real number. *)
Definition serialGet (buf : list Z) (serial_type : Z) : option mem :=
  match buf with
  | x0 :: x1 :: x2 :: x3 :: x4 :: x5 :: x6 :: x7 :: _ =>
    let x := FOUR_BYTE_UINT x0 x1 x2 x3 in
    let y := FOUR_BYTE_UINT x4 x5 x6 x7 in
    let x := u64 (u64 (Z.shiftl x 32) + y) in
    Some (if serial_type =? 6 then Mem_int (i64 x) else if IsNaN x then Mem_null false else Mem_real x)
  | _ => None
  end.

(** [buf] is the memory from the pointer on; a string or blob is the bytes the value points to. *)
Definition sqlite3VdbeSerialGet (buf : list Z) (serial_type : Z) : option mem :=
  if serial_type =? 10 then Some (Mem_null true)
  else if (serial_type =? 11) || (serial_type =? 0) then Some (Mem_null false)
  else if serial_type =? 1 then
    match buf with x0 :: _ => Some (Mem_int (ONE_BYTE_INT x0)) | _ => None end
  else if serial_type =? 2 then
    match buf with x0 :: x1 :: _ => Some (Mem_int (TWO_BYTE_INT x0 x1)) | _ => None end
  else if serial_type =? 3 then
    match buf with x0 :: x1 :: x2 :: _ => Some (Mem_int (THREE_BYTE_INT x0 x1 x2)) | _ => None end
  else if serial_type =? 4 then
    match buf with x0 :: x1 :: x2 :: x3 :: _ => Some (Mem_int (FOUR_BYTE_INT x0 x1 x2 x3)) | _ => None end
  else if serial_type =? 5 then
    match buf with
    | x0 :: x1 :: x2 :: x3 :: x4 :: x5 :: _ =>
      Some (Mem_int (FOUR_BYTE_UINT x2 x3 x4 x5 + Z.shiftl 1 32 * TWO_BYTE_INT x0 x1))
    | _ => None
    end
  else if (serial_type =? 6) || (serial_type =? 7) then serialGet buf serial_type
  else if (serial_type =? 8) || (serial_type =? 9) then Some (Mem_int (serial_type - 8))
  else
    let z := take (Z.to_nat ((serial_type - 12) / 2)) buf in
    Some (if Z.land serial_type 1 =? 0 then Mem_blob z None else Mem_str z).

(** The loop of [sqlite3VdbeRecordUnpack]: [u] values have been read, of at most [nField] (at least
    one); the result ends with the offset after the last one.  [fuel] bounds the turns, which read
    at least a byte each. *)
Fixpoint unpack_loop (fuel : nat) (nField : nat) (aKey : list Z) (szHdr idx d : Z) : option (list mem * Z) :=
  match fuel with
  | O => None
  | S fuel =>
    if (idx <? szHdr) && (d <=? size aKey) then
      '(n, serial_type) ← getVarint32 (drop (Z.to_nat idx) aKey);
      let idx := u32 (idx + n) in
      m ← sqlite3VdbeSerialGet (drop (Z.to_nat d) aKey) serial_type;
      len ← sqlite3VdbeSerialTypeLen serial_type;
      let d := u32 (d + len) in
      match nField with
      | O | 1%nat => Some ([m], d)
      | S nField => '(l, d) ← unpack_loop fuel nField aKey szHdr idx d; Some (m :: l, d)
      end
    else Some ([], d)
  end.

(** The values; their number is [p->nField] afterwards. *)
Definition sqlite3VdbeRecordUnpack (nField : nat) (aKey : list Z) : option (list mem) :=
  '(idx, szHdr) ← getVarint32 aKey;
  '(l, d) ← unpack_loop (S (length aKey)) nField aKey szHdr idx szHdr;
  Some (if size aKey <? d then
          match rev l with [] => [] | _ :: l => rev (Mem_null false :: l) end
        else l).

(** ** Bytes of integers *)

(** Bytes, most significant first, after [acc]. *)
Definition big_endian (acc : Z) (l : list Z) : Z := fold_left (fun acc c => acc * 256 + c) l acc.

Lemma lor_add n a y : 0 <= n -> is_uint n y -> Z.lor (a * 2 ^ n) y = a * 2 ^ n + y.
Proof. intros Hn Hy. rewrite <- Z.shiftl_mul_pow2 by done. rewrite lor_shiftl_add by done. by rewrite Z.shiftl_mul_pow2. Qed.

Lemma byte_range c : is_byte c -> 0 <= c < 256.
Proof. done. Qed.

Section bytes.
Context (x0 x1 x2 x3 : Z) (H0 : is_byte x0) (H1 : is_byte x1) (H2 : is_byte x2) (H3 : is_byte x3).

Lemma two_byte_int : TWO_BYTE_INT x0 x1 = big_endian (i8 x0) [x1].
Proof. unfold TWO_BYTE_INT. replace (256 * i8 x0) with (i8 x0 * 2 ^ 8) by lia. rewrite lor_add by done. unfold big_endian. cbn [fold_left]. lia. Qed.
Lemma three_byte_int : THREE_BYTE_INT x0 x1 x2 = big_endian (i8 x0) [x1; x2].
Proof.
  apply byte_range in H1. unfold THREE_BYTE_INT. rewrite Z.shiftl_mul_pow2 by lia.
  replace (65536 * i8 x0) with (i8 x0 * 2 ^ 16) by lia.
  rewrite lor_add by (unfold is_uint; lia). replace (i8 x0 * 2 ^ 16 + x1 * 2 ^ 8) with ((i8 x0 * 256 + x1) * 2 ^ 8) by lia.
  rewrite lor_add by done. unfold big_endian. cbn [fold_left]. lia.
Qed.
(** The last three of four bytes. *)
Lemma lor_bytes a : Z.lor (Z.lor (Z.lor (a * 2 ^ 24) (Z.shiftl x1 16)) (Z.shiftl x2 8)) x3 = big_endian a [x1; x2; x3].
Proof.
  apply byte_range in H1. apply byte_range in H2. rewrite !Z.shiftl_mul_pow2 by lia.
  rewrite (lor_add 24) by (unfold is_uint; lia).
  replace (a * 2 ^ 24 + x1 * 2 ^ 16) with ((a * 256 + x1) * 2 ^ 16) by lia.
  rewrite lor_add by (unfold is_uint; lia).
  replace ((a * 256 + x1) * 2 ^ 16 + x2 * 2 ^ 8) with (((a * 256 + x1) * 256 + x2) * 2 ^ 8) by lia.
  rewrite lor_add by done. unfold big_endian. cbn [fold_left]. lia.
Qed.
Lemma four_byte_int : FOUR_BYTE_INT x0 x1 x2 x3 = big_endian (i8 x0) [x1; x2; x3].
Proof. unfold FOUR_BYTE_INT. replace (16777216 * i8 x0) with (i8 x0 * 2 ^ 24) by lia. apply lor_bytes. Qed.
Lemma four_byte_uint : FOUR_BYTE_UINT x0 x1 x2 x3 = big_endian 0 [x0; x1; x2; x3].
Proof.
  apply byte_range in H0. unfold FOUR_BYTE_UINT. rewrite (Z.shiftl_mul_pow2 x0), u32_small by (unfold is_uint; lia).
  rewrite lor_bytes. unfold big_endian. cbn [fold_left]. f_equal.
Qed.
End bytes.

Lemma integer_bytes_spec n : forall v p, exists l, integer_bytes n v p = l ++ p /\ length l = n /\ Forall is_byte l /\
  forall acc, big_endian acc l = acc * 256 ^ Z.of_nat n + v mod 256 ^ Z.of_nat n.
Proof.
  induction n as [|n IH]; intros v p; cbn [integer_bytes].
  - exists []. split_and!; [done..|]. intros acc. cbn. rewrite Z.mod_1_r. lia.
  - destruct (IH (Z.shiftr v 8) (u8 (Z.land v 0xff) :: p)) as (l & -> & Hl & Hb & Hv).
    change 0xff with (Z.ones 8). rewrite Z.land_ones by lia. change (2 ^ 8) with 256.
    assert (Hu : u8 (v mod 256) = v mod 256) by (apply u8_small; unfold is_byte, is_uint; pose proof (Z.mod_pos_bound v 256); lia).
    rewrite Hu. exists (l ++ [v mod 256]). split; [by rewrite <- app_assoc|]. split; [rewrite length_app, Hl; cbn; lia|].
    split; [apply Forall_app; split; [done|]; constructor; [|done]; rewrite <- Hu; apply u8_bounds|].
    intros acc. unfold big_endian in *. rewrite fold_left_app, Hv. cbn [fold_left].
    rewrite Z.shiftr_div_pow2, Nat2Z.inj_succ, Z.pow_succ_r by lia. change (2 ^ 8) with 256.
    rewrite Z.rem_mul_r by lia. lia.
Qed.

Lemma big_endian_acc l : forall a, Forall is_byte l ->
  big_endian a l = a * 256 ^ Z.of_nat (length l) + big_endian 0 l /\ 0 <= big_endian 0 l < 256 ^ Z.of_nat (length l).
Proof.
  induction l as [|c l IH]; intros a Hl; [cbn; lia|]. apply Forall_cons in Hl as [Hc Hl]. apply byte_range in Hc.
  change (big_endian a (c :: l)) with (big_endian (a * 256 + c) l). change (big_endian 0 (c :: l)) with (big_endian (0 * 256 + c) l).
  cbn [length]. rewrite Nat2Z.inj_succ, Z.pow_succ_r by lia.
  destruct (IH (a * 256 + c) Hl) as [-> Hb], (IH (0 * 256 + c) Hl) as [-> _]. nia.
Qed.

Lemma i8_cases x : is_byte x -> i8 x = if x <? 128 then x else x - 256.
Proof.
  intros Hx%byte_range. unfold i8, swrap. change (2 ^ (8 - 1)) with 128. change (2 ^ 8) with 256.
  destruct (Z.ltb_spec x 128); [rewrite Z.mod_small by lia; lia|].
  rewrite <- (Z.mod_unique_pos (x + 128) 256 1 (x - 128)) by lia. lia.
Qed.

(** The bytes of a signed integer that fits in them. *)
Lemma signed_bytes n i : is_sint (8 * Z.of_nat (S n)) i -> (n < 8)%nat ->
  exists x0 l, integer_bytes (S n) (u64 i) [] = x0 :: l /\ length l = n /\ is_byte x0 /\ Forall is_byte l /\
    big_endian (i8 x0) l = i.
Proof.
  unfold is_sint. intros Hi Hn. destruct (integer_bytes_spec (S n) (u64 i) []) as (l' & -> & Hl & Hb & Hv). rewrite app_nil_r.
  destruct l' as [|x0 l]; [done|]. exists x0, l. apply Forall_cons in Hb as [Hx0 Hb]. injection Hl as Hl.
  split; [done|]. split; [done|]. split; [done|]. split; [done|].
  specialize (Hv 0). change (big_endian 0 (x0 :: l)) with (big_endian (0 * 256 + x0) l) in Hv.
  destruct (big_endian_acc l (0 * 256 + x0) Hb) as [Ha Hr]. rewrite Ha in Hv. destruct (big_endian_acc l (i8 x0) Hb) as [-> _].
  rewrite i8_cases by done. apply byte_range in Hx0. rewrite Hl in *. unfold u64, wrap in Hv.
  generalize (big_endian 0 l) Hv Hr. clear - Hi Hn Hx0. intros r Hv Hr.
  do 8 (destruct n as [|n]; [cbn -[Z.mul Z.add Z.sub Z.modulo] in *; destruct (Z.ltb_spec x0 128); Z.to_euclidean_division_equations; lia|]). lia.
Qed.

(** ** One value *)

(** Eight bytes read as two words. *)
Lemma eight_bytes x0 x1 x2 x3 x4 x5 x6 x7 :
  is_byte x0 -> is_byte x1 -> is_byte x2 -> is_byte x3 -> is_byte x4 -> is_byte x5 -> is_byte x6 -> is_byte x7 ->
  u64 (u64 (Z.shiftl (FOUR_BYTE_UINT x0 x1 x2 x3) 32) + FOUR_BYTE_UINT x4 x5 x6 x7) = big_endian 0 [x0; x1; x2; x3; x4; x5; x6; x7].
Proof.
  intros H0 H1 H2 H3 H4 H5 H6 H7. rewrite !four_byte_uint by done. rewrite Z.shiftl_mul_pow2 by lia.
  unfold big_endian. cbn [fold_left]. unfold is_byte, is_uint in *. unfold u64.
  rewrite (wrap_small 64 (_ * 2 ^ 32)), wrap_small by (unfold is_uint; lia). lia.
Qed.

Lemma i64_big_endian x0 l i : is_byte x0 -> Forall is_byte l -> is_sint 64 i -> big_endian (i8 x0) l = i -> length l = 7%nat ->
  i64 (big_endian 0 (x0 :: l)) = i.
Proof.
  intros H0 Hl Hi Hv Hlen. change (big_endian 0 (x0 :: l)) with (big_endian (0 * 256 + x0) l).
  destruct (big_endian_acc l (0 * 256 + x0) Hl) as [-> Hr]. destruct (big_endian_acc l (i8 x0) Hl) as [Ha _]. rewrite Ha in Hv.
  rewrite Hlen in *. rewrite i8_cases in Hv by done. unfold is_sint in Hi. apply byte_range in H0.
  generalize (big_endian 0 l) Hv Hr. intros r. unfold i64, swrap. clear - Hi H0. intros Hv Hr. cbn -[Z.mul Z.add Z.sub Z.modulo] in *.
  destruct (Z.ltb_spec x0 128); Z.to_euclidean_division_equations; lia.
Qed.

(** The fixed sizes of integers. *)
Lemma get_int t n i rest : (t, n) ∈ [(1, 1%nat); (2, 2%nat); (3, 3%nat); (4, 4%nat); (5, 6%nat); (6, 8%nat)] ->
  is_sint (8 * Z.of_nat n) i ->
  sqlite3VdbeSerialGet (integer_bytes n (u64 i) [] ++ rest) t = Some (Mem_int i).
Proof.
  intros Ht Hi. rewrite !elem_of_cons in Ht.
  destruct Ht as [[= -> ->]|[[= -> ->]|[[= -> ->]|[[= -> ->]|[[= -> ->]|[[= -> ->]|[]%elem_of_nil]]]]]].
  all: let k := match goal with |- context [integer_bytes (S ?k)] => k end in
    destruct (signed_bytes k i Hi ltac:(lia)) as (x0 & l & -> & Hl & H0 & Hb & Hv);
    repeat (destruct l as [|? l]; try done); rewrite ?Forall_cons in Hb; destruct_and?; cbn [app].
  - cbn in Hv. change (Some (Mem_int (ONE_BYTE_INT x0)) = Some (Mem_int i)). unfold ONE_BYTE_INT. by rewrite Hv.
  - change (Some (Mem_int (TWO_BYTE_INT x0 z)) = Some (Mem_int i)). by rewrite two_byte_int, Hv.
  - change (Some (Mem_int (THREE_BYTE_INT x0 z z0)) = Some (Mem_int i)). by rewrite three_byte_int, Hv.
  - change (Some (Mem_int (FOUR_BYTE_INT x0 z z0 z1)) = Some (Mem_int i)). by rewrite four_byte_int, Hv.
  - change (Some (Mem_int (FOUR_BYTE_UINT z0 z1 z2 z3 + 2 ^ 32 * TWO_BYTE_INT x0 z)) = Some (Mem_int i)).
    rewrite two_byte_int, four_byte_uint by done. do 2 f_equal. rewrite <- Hv. unfold big_endian. cbn [fold_left]. lia.
  - change (Some (Mem_int (i64 (u64 (u64 (Z.shiftl (FOUR_BYTE_UINT x0 z z0 z1) 32) + FOUR_BYTE_UINT z2 z3 z4 z5)))) = Some (Mem_int i)).
    rewrite eight_bytes by done. do 2 f_equal. apply i64_big_endian; [done|by rewrite !Forall_cons|exact Hi|exact Hv|done].
Qed.

Lemma get_real r rest : is_uint 64 r ->
  sqlite3VdbeSerialGet (integer_bytes 8 r [] ++ rest) 7 = Some (if IsNaN r then Mem_null false else Mem_real r).
Proof.
  intros Hr. destruct (integer_bytes_spec 8 r []) as (l & -> & Hl & Hb & Hv). rewrite app_nil_r.
  do 8 (destruct l as [|? l]; [done|]). destruct l; [|done]. rewrite !Forall_cons in Hb. destruct_and?. cbn [app].
  match goal with |- sqlite3VdbeSerialGet (?a :: ?b :: ?c :: ?d :: ?e :: ?f :: ?g :: ?h :: _) 7 = _ =>
    change (Some (let x := u64 (u64 (Z.shiftl (FOUR_BYTE_UINT a b c d) 32) + FOUR_BYTE_UINT e f g h) in
      if IsNaN x then Mem_null false else Mem_real x) = Some (if IsNaN r then Mem_null false else Mem_real r)) end.
  rewrite eight_bytes by done. rewrite (Hv 0). cbv zeta. change (256 ^ Z.of_nat 8) with (2 ^ 64).
  unfold is_uint in Hr. rewrite Z.mod_small by lia. done.
Qed.

(** ** The layout *)

(** Writing over as many bytes. *)
Lemma write_over at_ bytes H M R : at_ = length H -> length M = length bytes ->
  write at_ bytes (H ++ M ++ R) = Some (H ++ (Some <$> bytes) ++ R).
Proof.
  intros -> HM. unfold write. rewrite !length_app, HM.
  rewrite (proj2 (Nat.leb_le _ _)) by lia. rewrite take_app_length. f_equal. f_equal. f_equal.
  rewrite app_assoc. by rewrite drop_app_length' by (rewrite length_app; lia).
Qed.

Definition blank (n : nat) : list (option Z) := replicate n None.

(** A record with [hdr] written in its header, [body] after it, and blanks left for [a] and [b]
    bytes. *)
Definition layout (hdr : list Z) (a : nat) (body : list Z) (b : nat) : list (option Z) :=
  (Some <$> hdr) ++ blank a ++ (Some <$> body) ++ blank b.

Lemma write_hdr hdr a body b bytes at_ : at_ = length hdr ->
  write at_ bytes (layout hdr (length bytes + a) body b) = Some (layout (hdr ++ bytes) a body b).
Proof.
  intros ->. unfold layout, blank. rewrite replicate_add, <- app_assoc.
  rewrite (write_over _ bytes) by (by rewrite ?length_fmap, ?length_replicate). by rewrite fmap_app, <- app_assoc.
Qed.
Lemma write_body hdr a body b bytes at_ : at_ = (length hdr + a + length body)%nat ->
  write at_ bytes (layout hdr a body (length bytes + b)) = Some (layout hdr a (body ++ bytes) b).
Proof.
  intros ->. unfold layout, blank. rewrite replicate_add, !app_assoc.
  rewrite <- (app_assoc _ (replicate (length bytes) None)).
  rewrite (write_over _ bytes); [|by rewrite !length_app, !length_fmap, length_replicate|by rewrite length_replicate].
  by rewrite fmap_app, <- !app_assoc.
Qed.

(** What a value becomes in the header and the body: writing it adds [hdr] and [body]. *)
Definition writes (m : mem) (t : Z) (hdr body : list Z) : Prop := forall done_hdr a done_body b,
  write_field m t (length done_hdr) (length done_hdr + (length hdr + a) + length done_body)
    (layout done_hdr (length hdr + a) done_body (length body + b)) =
  Some ((length done_hdr + length hdr)%nat, (length done_hdr + (length hdr + a) + length done_body + length body)%nat,
        layout (done_hdr ++ hdr) a (done_body ++ body) b).

(** Reading them back. *)
Definition reads (m : mem) (t : Z) (hdr body : list Z) (n : Z) : Prop :=
  (forall rest, Forall is_byte rest -> getVarint32 (hdr ++ rest) = Some (Z.of_nat (length hdr), t)) /\
  sqlite3VdbeSerialTypeLen t = Some (size body + n) /\
  forall rest, sqlite3VdbeSerialGet (body ++ zeros n ++ rest) t = Some m.

(** *** Fixed sizes *)

Lemma small_varint t rest : 0 <= t < 128 -> Forall is_byte rest -> getVarint32 (t :: rest) = Some (1, t).
Proof. intros Ht Hr. unfold getVarint32. cbn [lookup list_lookup]. rewrite bind_Some. by rewrite (proj2 (Z.ltb_lt _ _)) by lia. Qed.

Lemma offsets (a a' b b' : nat) (z : list (option Z)) : a = a' -> b = b' -> Some (a, b, z) = Some (a', b', z).
Proof. by intros -> ->. Qed.

Lemma writes_nothing m t : t = 0 \/ 8 <= t <= 13 -> writes m t [t] [].
Proof.
  intros Ht done_hdr a done_body b. unfold write_field. rewrite app_nil_r.
  change (length [t]) with 1%nat. rewrite (write_hdr done_hdr a done_body _ [t]), bind_Some by done.
  destruct (Z.leb_spec t 7).
  - rewrite (proj2 (Z.eqb_eq t 0)) by lia. apply offsets; cbn [length]; lia.
  - rewrite (proj2 (Z.ltb_lt t 128)) by lia. rewrite (proj2 (Z.leb_gt 14 t)) by lia. cbn [andb]. apply offsets; cbn [length]; lia.
Qed.

Lemma writes_number m t n v : (t, n) ∈ [(1, 1%nat); (2, 2%nat); (3, 3%nat); (4, 4%nat); (5, 6%nat); (6, 8%nat); (7, 8%nat)] ->
  (if t =? 7 then m = Mem_real v else exists i, v = u64 i /\ (m = Mem_int i \/ m = Mem_intreal i)) ->
  writes m t [t] (integer_bytes n v []).
Proof.
  intros Ht Hm done_hdr a done_body b.
  destruct (integer_bytes_spec n v []) as (l & Hb & Hl & _). rewrite app_nil_r in Hb. rewrite Hb.
  assert (Hn : sqlite3SmallTypeSizes !! Z.to_nat t = Some (Z.of_nat n) /\ 1 <= t <= 7).
  { rewrite !elem_of_cons in Ht. by destruct Ht as [[= -> ->]|[[= -> ->]|[[= -> ->]|[[= -> ->]|[[= -> ->]|[[= -> ->]|[[= -> ->]|[]%elem_of_nil]]]]]]]. }
  destruct Hn as [Hn Ht7]. unfold write_field. rewrite (proj2 (Z.leb_le t 7)) by lia. rewrite (proj2 (Z.eqb_neq t 0)) by lia.
  change (length [t]) with 1%nat. rewrite (write_hdr done_hdr a done_body _ [t]), bind_Some by done.
  assert (Hv : (if t =? 7 then match m with Mem_real r => Some r | _ => None end
    else match m with Mem_int i | Mem_intreal i => Some (u64 i) | _ => None end) = Some v).
  { destruct (t =? 7); [by subst|]. by destruct Hm as (i & -> & [-> | ->]). }
  rewrite Hv, bind_Some, Hn, bind_Some, Nat2Z.id, Hb.
  rewrite (write_body (done_hdr ++ [t]) a done_body), bind_Some by (rewrite length_app; cbn; lia).
  apply offsets; cbn [length]; lia.
Qed.

(** *** Texts and blobs *)

Lemma writes_contents m z t hdr : (m = Mem_str z \/ exists n, m = Mem_blob z n) -> 12 <= t < 2 ^ 32 -> 2 * size z + 12 <= t ->
  sqlite3PutVarint t = Some hdr -> writes m t hdr z.
Proof.
  intros Hm Ht Hz Hput done_hdr a done_body b.
  assert (Hc : match m with Mem_str z | Mem_blob z _ => z | _ => [] end = z) by (by destruct Hm as [->|[n ->]]).
  unfold write_field. rewrite Hc. rewrite (proj2 (Z.leb_gt t 7)) by lia. unfold size in *. destruct (Z.ltb_spec t 0x80).
  - assert (Hh : hdr = [t]).
    { unfold sqlite3PutVarint in Hput. rewrite (proj2 (Z.leb_le _ _)) in Hput by lia.
      rewrite land_ones7, Z.mod_small in Hput by lia. by injection Hput as <-. }
    subst hdr. rewrite (write_hdr done_hdr), bind_Some by done. destruct z as [|c z].
    { rewrite andb_false_r, app_nil_r. apply offsets; cbn [length]; lia. }
    rewrite (proj2 (Z.leb_le 14 t)), (proj2 (Z.ltb_lt _ _)) by (cbn [length] in *; lia). cbn [andb].
    rewrite (write_body (done_hdr ++ [t])), bind_Some by (rewrite length_app; cbn; lia). apply offsets; cbn [length]; lia.
  - rewrite Hput, bind_Some, (write_hdr done_hdr), bind_Some by done. destruct z as [|c z].
    { rewrite app_nil_r. apply offsets; cbn [length]; lia. }
    rewrite (proj2 (Z.eqb_neq _ _)) by (cbn [length]; lia). cbn [negb].
    rewrite (write_body (done_hdr ++ hdr)), bind_Some by (rewrite length_app; lia). apply offsets; lia.
Qed.

Lemma type_len t : 12 <= t -> sqlite3VdbeSerialTypeLen t = Some ((t - 12) / 2).
Proof.
  intros Ht. unfold sqlite3VdbeSerialTypeLen. destruct (Z.leb_spec 128 t); [done|].
  assert (Hall : forallb (fun n => bool_decide (sqlite3SmallTypeSizes !! n = Some ((Z.of_nat n - 12) / 2))) (seq 12 116) = true)
    by (vm_compute; done).
  rewrite forallb_forall in Hall. specialize (Hall (Z.to_nat t)). rewrite bool_decide_eq_true, Z2Nat.id in Hall by lia.
  apply Hall, in_seq. lia.
Qed.

Lemma get_contents t buf : 12 <= t ->
  sqlite3VdbeSerialGet buf t = Some (let z := take (Z.to_nat ((t - 12) / 2)) buf in
    if Z.land t 1 =? 0 then Mem_blob z None else Mem_str z).
Proof.
  intros Ht. unfold sqlite3VdbeSerialGet.
  repeat match goal with |- context [t =? ?k] => rewrite (proj2 (Z.eqb_neq t k)) by lia end. done.
Qed.

Lemma reads_contents (str : bool) z n t hdr m : 0 <= n -> t = (size z + n) * 2 + 12 + Z.b2z str -> t < 2 ^ 32 - 1 ->
  sqlite3PutVarint t = Some hdr ->
  m = (if str then Mem_str (z ++ zeros n) else Mem_blob (z ++ zeros n) None) -> reads m t hdr z n.
Proof.
  intros Hn Ht Ht32 Hput ->. pose proof (Nat2Z.is_nonneg (length z)) as Hz. fold (size z) in Hz.
  assert (Hdiv : (t - 12) / 2 = size z + n).
  { rewrite Ht. replace ((size z + n) * 2 + 12 + Z.b2z str - 12) with (Z.b2z str + (size z + n) * 2) by lia.
    rewrite Z.div_add by lia. by destruct str. }
  split; [|split].
  - intros rest Hr. assert (Hu : is_uint 64 t) by (unfold is_uint; destruct str; cbn [Z.b2z] in Ht; lia).
    destruct (get_after_put t rest hdr Hu Hr Hput) as [Hb Hget].
    rewrite get_varint32_decodes, Hget by (by apply Forall_app). cbn. unfold saturated. cbn [fst snd]. do 2 f_equal. lia.
  - rewrite type_len by (destruct str; cbn [Z.b2z] in Ht; lia). by rewrite Hdiv.
  - intros rest. rewrite get_contents, Hdiv by (destruct str; cbn [Z.b2z] in Ht; lia). cbv zeta.
    assert (Htake : take (Z.to_nat (size z + n)) (z ++ zeros n ++ rest) = z ++ zeros n).
    { rewrite app_assoc. apply take_app_length'. unfold zeros, size. rewrite length_app, length_replicate. lia. }
    rewrite Htake. change 1 with (Z.ones 1). rewrite Z.land_ones by lia. change (2 ^ 1) with 2.
    assert (Hmod : t mod 2 = Z.b2z str).
    { rewrite Ht. replace ((size z + n) * 2 + 12 + Z.b2z str) with (Z.b2z str + (size z + n + 6) * 2) by lia.
      rewrite Z.mod_add by lia. by destruct str. }
    rewrite Hmod. by destruct str.
Qed.

(** *** The loop over the values *)

Definition valid_mem (m : mem) : Prop :=
  match m with
  | Mem_null _ => True
  | Mem_int i | Mem_intreal i => is_sint 64 i
  | Mem_real r => is_uint 64 r
  | Mem_str z | Mem_blob z None => Forall is_byte z /\ size z <= 1000000000
  | Mem_blob z (Some n) => Forall is_byte z /\ 0 <= n /\ size z + n <= 1000000000
  end.

Section stored.
Variable double_bits : Z -> Z.
Hypothesis double_bits_range : forall i, is_uint 64 (double_bits i) /\ IsNaN (double_bits i) = false.

(** What a value reads back as: an integer to be stored as a real number is one only when it takes
    eight bytes, a number that is not one is null, and the zeros of a blob are bytes. *)
Definition stored (m : mem) : mem :=
  match m with
  | Mem_intreal i => if (if i <? 0 then Z.lnot i else i) <=? 140737488355327 then Mem_int i else Mem_real (double_bits i)
  | Mem_real r => if IsNaN r then Mem_null false else Mem_real r
  | Mem_blob z (Some n) => Mem_blob (z ++ zeros n) None
  | m => m
  end.

(** One value: its place in the record, and [n] zeros after it. *)
Definition placed (m m' : mem) (t : Z) (hdr body : list Z) (n : Z) : Prop :=
  writes m' t hdr body /\ reads (stored m) t hdr body n /\ Forall is_byte hdr /\ Forall is_byte body /\ 0 <= n /\
  (1 <= length hdr <= 5)%nat /\ sqlite3PutVarint t = Some hdr.

Lemma put_small t : 0 <= t < 128 -> sqlite3PutVarint t = Some [t].
Proof. intros Ht. unfold sqlite3PutVarint. rewrite (proj2 (Z.leb_le _ _)) by lia. by rewrite land_ones7, Z.mod_small by lia. Qed.

Lemma placed_fixed m m' t body k : 0 <= t < 12 -> writes m' t [t] body -> Forall is_byte body ->
  sqlite3SmallTypeSizes !! Z.to_nat t = Some (Z.of_nat k) -> length body = k ->
  (forall rest, sqlite3VdbeSerialGet (body ++ rest) t = Some (stored m)) -> placed m m' t [t] body 0.
Proof.
  intros Ht Hw Hb Hs Hl Hg. split; [done|]. split.
  - split; [intros rest Hr; cbn [app length]; apply small_varint; [lia|done]|]. split; [|done].
    unfold sqlite3VdbeSerialTypeLen. rewrite (proj2 (Z.leb_gt 128 t)) by lia. rewrite Hs. unfold size. f_equal. lia.
  - split; [constructor; [|done]; unfold is_byte, is_uint; lia|]. split; [done|]. split; [lia|]. split; [cbn; lia|]. apply put_small. lia.
Qed.

(** The space of a value is what it takes. *)
Definition grows (s s' : space) (hdr body : list Z) (n : Z) : Prop :=
  nHdr s' = nHdr s + size hdr /\ nData s' = nData s + size body /\ nZero s' = nZero s + n /\ (n <> 0 -> nData s = 0).

Lemma grows_fixed t body k s : length body = k -> grows s (add_data (Z.of_nat k) (add_hdr 1 s)) [t] body 0.
Proof. intros <-. unfold grows, size. cbn. split_and!; try done; lia. Qed.

Lemma number_bytes n v : Forall is_byte (integer_bytes n v []) /\ length (integer_bytes n v []) = n.
Proof. destruct (integer_bytes_spec n v []) as (l & -> & Hl & Hb & _). by rewrite app_nil_r. Qed.

(** An integer in [n] bytes. *)
Lemma placed_int (intreal : bool) i t n : (t, n) ∈ [(1, 1%nat); (2, 2%nat); (3, 3%nat); (4, 4%nat); (5, 6%nat); (6, 8%nat)] ->
  is_sint (8 * Z.of_nat n) i -> (intreal = true -> (if i <? 0 then Z.lnot i else i) <= 140737488355327) ->
  let m := if intreal then Mem_intreal i else Mem_int i in placed m m t [t] (integer_bytes n (u64 i) []) 0.
Proof.
  intros Ht Hi Hreal m. destruct (number_bytes n (u64 i)) as [Hb Hl].
  assert (H7 : (t =? 7) = false /\ 0 <= t < 12 /\ sqlite3SmallTypeSizes !! Z.to_nat t = Some (Z.of_nat n)).
  { rewrite !elem_of_cons in Ht. by destruct Ht as [[= -> ->]|[[= -> ->]|[[= -> ->]|[[= -> ->]|[[= -> ->]|[[= -> ->]|[]%elem_of_nil]]]]]]. }
  destruct H7 as (H7 & Htr & Hs). apply (placed_fixed _ _ _ _ n); try done.
  - apply writes_number.
    + rewrite !elem_of_cons in *. tauto.
    + rewrite H7. exists i. split; [done|]. destruct intreal; [by right|by left].
  - intros rest. rewrite (get_int t n i rest Ht Hi). unfold m, stored. destruct intreal; [|done].
    by rewrite (proj2 (Z.leb_le _ _)) by (by apply Hreal).
Qed.

(** The integers 0 and 1 have types of their own. *)
Lemma placed_constant (intreal : bool) i s : Z.land i 1 = i ->
  let m := if intreal then Mem_intreal i else Mem_int i in let uu := if i <? 0 then Z.lnot i else i in
  exists hdr body, placed m m (8 + uu) hdr body 0 /\ grows s (add_hdr 1 s) hdr body 0.
Proof.
  intros H01 m uu. assert (Hi : i = 0 \/ i = 1).
  { change 1 with (Z.ones 1) in H01. rewrite Z.land_ones in H01 by lia. pose proof (Z.mod_pos_bound i 2 ltac:(lia)).
    change (2 ^ 1) with 2 in H01. lia. }
  exists [8 + uu], []. split.
  - apply (placed_fixed _ _ _ _ 0); [by destruct Hi as [-> | ->]|apply writes_nothing; by destruct Hi as [-> | ->]; cbn; lia
      |done|by destruct Hi as [-> | ->]|done|].
    intros rest. by destruct Hi as [-> | ->], intreal.
  - unfold grows, size. destruct s. cbn. split_and!; try done; lia.
Qed.

Lemma placed_real m r s : is_uint 64 r -> stored m = (if IsNaN r then Mem_null false else Mem_real r) ->
  exists hdr body, placed m (Mem_real r) 7 hdr body 0 /\ grows s (add_data 8 (add_hdr 1 s)) hdr body 0.
Proof.
  intros Hr Hm. destruct (number_bytes 8 r) as [Hb Hl]. exists [7], (integer_bytes 8 r []). split.
  - apply (placed_fixed _ _ _ _ 8); try done; [apply writes_number; [set_solver|done]|].
    intros rest. by rewrite get_real, Hm.
  - by apply (grows_fixed 7 _ 8).
Qed.

Lemma integer_space_spec wff (intreal : bool) i s m' t s' : is_sint 64 i ->
  integer_space double_bits wff intreal i s = (m', t, s') ->
  exists hdr body, placed (if intreal then Mem_intreal i else Mem_int i) m' t hdr body 0 /\ grows s s' hdr body 0.
Proof.
  unfold integer_space. intros Hi. set (uu := if i <? 0 then Z.lnot i else i).
  assert (Hu : uu = (if i <? 0 then - i - 1 else i)) by (unfold uu; destruct (i <? 0); [unfold Z.lnot; lia|done]).
  assert (Hfit : forall w, 0 < w -> uu <= 2 ^ (w - 1) - 1 -> is_sint w i).
  { intros w Hw Hle. unfold is_sint. destruct (Z.ltb_spec i 0); lia. }
  assert (Hplace : forall t' n, (t', n) ∈ [(1, 1%nat); (2, 2%nat); (3, 3%nat); (4, 4%nat); (5, 6%nat); (6, 8%nat)] ->
    is_sint (8 * Z.of_nat n) i -> (intreal = true -> uu <= 140737488355327) ->
    (if intreal then Mem_intreal i else Mem_int i, t', add_data (Z.of_nat n) (add_hdr 1 s)) = (m', t, s') ->
    exists hdr body, placed (if intreal then Mem_intreal i else Mem_int i) m' t hdr body 0 /\ grows s s' hdr body 0).
  { intros t' n Ht Hs Hr [= <- <- <-]. exists [t'], (integer_bytes n (u64 i) []). split; [by apply placed_int|].
    apply grows_fixed, number_bytes. }
  destruct (Z.leb_spec uu 127) as [H7|H7].
  { destruct (Z.eqb_spec (Z.land i 1) i) as [H01|_]; cbn [andb]; [destruct (4 <=? wff)|];
      [|apply (Hplace 1 1%nat); [set_solver|apply Hfit; lia|lia]..].
    intros [= <- <- <-]. by apply placed_constant. }
  destruct (Z.leb_spec uu 32767); [apply (Hplace 2 2%nat); [set_solver|apply Hfit; lia|lia]|].
  destruct (Z.leb_spec uu 8388607); [apply (Hplace 3 3%nat); [set_solver|apply Hfit; lia|lia]|].
  destruct (Z.leb_spec uu 2147483647); [apply (Hplace 4 4%nat); [set_solver|apply Hfit; lia|lia]|].
  destruct (Z.leb_spec uu 140737488355327) as [H48|H48]; [apply (Hplace 5 6%nat); [set_solver|apply Hfit; lia|lia]|].
  destruct intreal; [|apply (Hplace 6 8%nat); [set_solver|done|done]].
  intros [= <- <- <-]. apply placed_real; [apply double_bits_range|]. unfold stored. fold uu.
  rewrite (proj2 (Z.leb_gt _ _)) by lia. by destruct (double_bits_range i) as [_ ->].
Qed.

Lemma grows_nothing t s : grows s (add_hdr 1 s) [t] [] 0.
Proof. unfold grows, size. destruct s. cbn. split_and!; try done; lia. Qed.

(** A text or blob, with [n] zeros that are not written. *)
Lemma placed_contents (str : bool) m m' z n t s : (m' = Mem_str z \/ exists n, m' = Mem_blob z n) -> Forall is_byte z ->
  0 <= n -> size z + n <= 1000000000 -> t = (size z + n) * 2 + 12 + Z.b2z str -> (n <> 0 -> nData s = 0) ->
  stored m = (if str then Mem_str (z ++ zeros n) else Mem_blob (z ++ zeros n) None) ->
  exists hdr body, placed m m' t hdr body n /\
    grows s (add_hdr (sqlite3VarintLen t) (add_data (size z) (add_zero n s))) hdr body n.
Proof.
  intros Hm' Hz Hn Hsize Ht Hzero Hm. pose proof (Nat2Z.is_nonneg (length z)) as Hz0. fold (size z) in Hz0.
  assert (Htr : 12 <= t < 2 ^ 31 /\ 2 * size z + 12 <= t) by (destruct str; cbn [Z.b2z] in Ht; lia).
  assert (Hu : is_uint 64 t) by (unfold is_uint; lia).
  destruct (put_varint_spec t Hu) as (l & c & Hput & _ & Hl & Hlast & Hlen).
  assert (Hl4 : (length l <= 4)%nat).
  { specialize (Hlen ltac:(lia)). unfold sqlite3VarintLen in Hlen.
    assert (Hv : exists k, (k <= 4)%nat /\ 128 ^ Z.of_nat k <= t < 128 ^ (Z.of_nat k + 1)).
    { destruct (decide (t < 128)); [exists 0%nat; cbn; lia|]. destruct (decide (t < 128 ^ 2)); [exists 1%nat; cbn; lia|].
      destruct (decide (t < 128 ^ 3)); [exists 2%nat; cbn; lia|]. destruct (decide (t < 128 ^ 4)); [exists 3%nat; cbn; lia|].
      exists 4%nat. cbn. lia. }
    destruct Hv as (k & Hk & Hkt). rewrite (varint_len_spec k t 10 1 Hkt) in Hlen by lia. lia. }
  exists (l ++ [c]), z. split.
  - split; [apply (writes_contents _ z); try done; lia|]. split; [apply (reads_contents str); try done; lia|].
    split; [by apply (get_after_put t [] _ Hu)|]. split; [done|]. split; [done|]. split; [rewrite length_app; cbn; lia|done].
  - rewrite Hlen by lia. unfold grows, size. rewrite length_app. destruct s. cbn [nHdr nData nZero add_hdr add_data add_zero length] in *.
    split_and!; try done; lia.
Qed.

Lemma add_zero_0 s : add_zero 0 s = s.
Proof. destruct s as [d h z]. unfold add_zero. cbn. by rewrite Z.add_0_r. Qed.

(** One whose bytes are all written. *)
Lemma placed_contents0 (str : bool) m m' z t s : (m' = Mem_str z \/ exists n, m' = Mem_blob z n) -> Forall is_byte z ->
  size z <= 1000000000 -> t = size z * 2 + 12 + Z.b2z str ->
  stored m = (if str then Mem_str z else Mem_blob z None) ->
  exists hdr body, placed m m' t hdr body 0 /\ grows s (add_hdr (sqlite3VarintLen t) (add_data (size z) s)) hdr body 0.
Proof.
  intros Hm' Hz Hsize Ht Hm. pose proof (placed_contents str m m' z 0 t s Hm' Hz) as H. rewrite add_zero_0 in H.
  apply H; try done; try lia. unfold zeros. cbn. by rewrite app_nil_r.
Qed.

Lemma field_space_spec wff available m s m' t s' : valid_mem m -> field_space double_bits wff available m s = Some (m', t, s') ->
  exists hdr body n, placed m m' t hdr body n /\ grows s s' hdr body n.
Proof.
  intros Hm. assert (H0 : (exists hdr body, placed m m' t hdr body 0 /\ grows s s' hdr body 0) ->
    exists hdr body n, placed m m' t hdr body n /\ grows s s' hdr body n) by naive_solver.
  unfold field_space. destruct m as [nochng|i|i|r|z|z [n|]]; cbn [valid_mem] in Hm.
  - intros [= <- <- <-]. apply H0. exists [if nochng then 10 else 0], []. split; [|apply grows_nothing].
    apply (placed_fixed _ _ _ _ 0); destruct nochng; try done; apply writes_nothing; lia.
  - intros [= Heq]. apply H0. by apply (integer_space_spec wff false).
  - intros [= Heq]. apply H0. by apply (integer_space_spec wff true).
  - intros [= <- <- <-]. apply H0. by apply placed_real.
  - destruct Hm as [Hz Hsize]. pose proof (Nat2Z.is_nonneg (length z)) as Hz0. fold (size z) in Hz0.
    rewrite !u32_small by (unfold is_uint; rewrite ?u32_small by (unfold is_uint; lia); lia).
    intros [= <- <- <-]. apply H0. eapply (placed_contents0 true); try done; by left.
  - destruct Hm as (Hz & Hn & Hsize). pose proof (Nat2Z.is_nonneg (length z)) as Hz0. fold (size z) in Hz0.
    rewrite (u32_small (size z)) by (unfold is_uint; lia). rewrite (u32_small (size z * 2 + 12)) by (unfold is_uint; lia).
    rewrite !u32_small by (unfold is_uint; lia). destruct (Z.eqb_spec (nData s) 0) as [Hd|Hd]; cbn [negb].
    + intros [= <- <- <-]. destruct (placed_contents false (Mem_blob z (Some n)) (Mem_blob z (Some n)) z n
        (size z * 2 + 12 + n * 2) s) as (hdr & body & Hp & Hg); try done; [right; by eexists|cbn; lia|].
      by exists hdr, body, n.
    + unfold sqlite3VdbeMemExpandBlob. destruct available; cbn [mbind option_bind]; [|done]. intros [= <- <- <-]. apply H0.
      assert (Hsz : size (z ++ zeros n) = size z + n).
      { unfold size, zeros. rewrite length_app, length_replicate. lia. }
      rewrite <- Hsz. apply (placed_contents0 false); try done; [right; by eexists| |lia|cbn; lia].
      apply Forall_app. split; [done|]. apply Forall_replicate. done.
  - destruct Hm as [Hz Hsize]. pose proof (Nat2Z.is_nonneg (length z)) as Hz0. fold (size z) in Hz0.
    rewrite !u32_small by (unfold is_uint; rewrite ?u32_small by (unfold is_uint; lia); lia).
    intros [= <- <- <-]. apply H0. apply (placed_contents0 false); try done; [right; by eexists|cbn; lia].
Qed.

(** The serial types of a value. *)
Definition serial_type_of (m : mem) (t : Z) : Prop :=
  match m with
  | Mem_null nochng => t = if nochng then 10 else 0
  | Mem_int _ => 1 <= t <= 9 /\ t <> 7
  | Mem_intreal _ => 1 <= t <= 9
  | Mem_real _ => t = 7
  | Mem_str _ | Mem_blob _ _ => 12 <= t < 2 ^ 31
  end.

Lemma integer_type wff (intreal : bool) i s m' t s' : integer_space double_bits wff intreal i s = (m', t, s') ->
  1 <= t <= 9 /\ (intreal = false -> t <> 7).
Proof.
  unfold integer_space. intros H. destruct (_ <=? 127).
  { destruct (_ && _) eqn:E; injection H as <- <- <-; [|lia]. apply andb_true_iff in E as [E _]. apply Z.eqb_eq in E.
    change 1 with (Z.ones 1) in E. rewrite Z.land_ones in E by lia. pose proof (Z.mod_pos_bound i 2 ltac:(lia)).
    change (2 ^ 1) with 2 in E. rewrite (proj2 (Z.ltb_ge i 0)) by lia. lia. }
  repeat (destruct (_ <=? _); [injection H as <- <- <-; lia|]). destruct intreal; injection H as <- <- <-; lia.
Qed.

Lemma contents_type n : 0 <= n <= 1000000000 -> (12 <= u32 (u32 n * 2 + 12) < 2 ^ 31) /\ (12 <= u32 (u32 n * 2 + 12 + 1) < 2 ^ 31).
Proof. intros Hn. rewrite (u32_small n), !u32_small by (unfold is_uint; lia). lia. Qed.

Lemma field_type wff available m s m' t s' : valid_mem m -> field_space double_bits wff available m s = Some (m', t, s') -> serial_type_of m t.
Proof.
  intros Hm. unfold field_space. destruct m as [nochng|i|i|r|z|z [n|]]; cbn [serial_type_of valid_mem] in *.
  - by intros [= <- <- <-].
  - intros [= H]. apply integer_type in H as [H1 H2]. split; [done|by apply H2].
  - intros [= H]. by apply integer_type in H as [H1 _].
  - by intros [= <- <- <-].
  - intros [= <- <- <-]. apply contents_type. unfold size in *. lia.
  - intros H. assert (Ht : 12 <= u32 (u32 (u32 (size z) * 2 + 12) + n * 2) < 2 ^ 31).
    { rewrite (u32_small (size z)), (u32_small (_ + 12)), u32_small by (unfold is_uint, size in *; lia). unfold size in *. lia. }
    destruct (negb _); [|by injection H as <- <- <-]. destruct (sqlite3VdbeMemExpandBlob _ _ _); [|done]. by injection H as <- <- <-.
  - intros [= <- <- <-]. apply contents_type. unfold size in *. lia.
Qed.

(** *** All values *)

Record row := mkRow { row_value : mem; row_mem : mem; row_type : Z; row_hdr : list Z; row_body : list Z; row_zeros : Z }.
Definition row_placed (r : row) : Prop :=
  placed (row_value r) (row_mem r) (row_type r) (row_hdr r) (row_body r) (row_zeros r) /\
  serial_type_of (row_value r) (row_type r).
Definition headers (L : list row) : list Z := flat_map row_hdr L.
Definition bodies (L : list row) : list Z := flat_map row_body L.
Definition all_zeros (L : list row) : Z := foldr (fun r n => row_zeros r + n) 0 L.
(** The bytes the values are read from. *)
Definition contents (L : list row) : list Z := flat_map (fun r => row_body r ++ zeros (row_zeros r)) L.

Lemma zeros_add n m : 0 <= n -> 0 <= m -> zeros (n + m) = zeros n ++ zeros m.
Proof. intros Hn Hm. unfold zeros. rewrite Z2Nat.inj_add by done. apply replicate_add. Qed.

Lemma size_app l m : size (l ++ m) = size l + size m.
Proof. unfold size. rewrite length_app. lia. Qed.
Lemma size_nonneg l : 0 <= size l.
Proof. unfold size. lia. Qed.
Lemma size_zeros n : 0 <= n -> size (zeros n) = n.
Proof. intros Hn. unfold size, zeros. rewrite length_replicate. lia. Qed.
Lemma size_nil l : size l = 0 -> l = [].
Proof. unfold size. destruct l; cbn; [done|lia]. Qed.

Lemma record_space_spec wff available values : forall fields s, Forall valid_mem values ->
  record_space double_bits wff available values = Some (fields, s) ->
  exists L, values = row_value <$> L /\ fields = (fun r => (row_mem r, row_type r)) <$> L /\ Forall row_placed L /\
    nHdr s = size (headers L) /\ nData s = size (bodies L) /\ nZero s = all_zeros L /\ 0 <= all_zeros L /\
    contents L = bodies L ++ zeros (all_zeros L).
Proof.
  induction values as [|m values IH]; intros fields s Hv; cbn [record_space].
  { intros [= <- <-]. by exists []. }
  apply Forall_cons in Hv as [Hm Hv]. intros ([fs s0] & H0 & ([[m' t] s1] & H1 & [= <- <-])%option.bind_Some)%option.bind_Some.
  destruct (IH fs s0 Hv H0) as (L & -> & -> & HL & Hh & Hd & Hz & Hz0 & Hc).
  destruct (field_space_spec _ _ _ _ _ _ _ Hm H1) as (hdr & body & n & Hp & Hgh & Hgd & Hgz & Hgn).
  exists (mkRow m m' t hdr body n :: L). split; [done|]. split; [done|].
  split; [constructor; [split; [done|by eapply field_type]|done]|]. assert (Hn : 0 <= n) by apply Hp.
  cbn [headers bodies contents all_zeros flat_map foldr row_hdr row_body row_zeros].
  fold (headers L) (bodies L) (all_zeros L) (contents L). rewrite !size_app. split; [lia|]. split; [lia|]. split; [lia|]. split; [lia|].
  rewrite Hc. destruct (decide (n = 0)) as [->|Hne]; [by rewrite app_nil_r, Z.add_0_l, app_assoc|].
  assert (Hb : bodies L = []) by (apply size_nil; rewrite <- Hd; by apply Hgn).
  rewrite Hb, zeros_add by done. cbn [app]. by rewrite app_nil_r, <- app_assoc.
Qed.

Lemma write_fields_spec L : Forall row_placed L -> forall done_hdr a done_body b zHdr zPayload hn bn,
  zHdr = length done_hdr -> zPayload = (length done_hdr + hn + length done_body)%nat ->
  hn = (length (headers L) + a)%nat -> bn = (length (bodies L) + b)%nat ->
  exists zHdr' zPayload', write_fields ((fun r => (row_mem r, row_type r)) <$> L) zHdr zPayload (layout done_hdr hn done_body bn) =
    Some (zHdr', zPayload', layout (done_hdr ++ headers L) a (done_body ++ bodies L) b).
Proof.
  induction 1 as [|r L Hr HL IH]; intros done_hdr a done_body b zHdr zPayload hn bn -> -> -> ->.
  - cbn. rewrite !app_nil_r. by eexists _, _.
  - cbn [headers bodies flat_map fmap list_fmap write_fields]. fold (headers L) (bodies L). rewrite !length_app.
    destruct Hr as [[Hw _] _].
    specialize (Hw done_hdr (length (headers L) + a)%nat done_body (length (bodies L) + b)%nat).
    rewrite <- !(Nat.add_assoc (length (row_hdr r))), <- !(Nat.add_assoc (length (row_body r))). rewrite Hw, bind_Some.
    rewrite !app_assoc. apply IH; rewrite ?length_app; lia.
Qed.

(** The bytes of the header and of the contents. *)
Lemma rows_bytes L : Forall row_placed L -> Forall is_byte (headers L) /\ Forall is_byte (contents L) /\
  (length L <= length (headers L) <= 5 * length L)%nat.
Proof.
  induction 1 as [|r L ((Hw & Hr & Hh & Hb & Hn & Hl & _) & _) HL (IHh & IHc & IHl)]; [by split_and!|].
  cbn [headers contents flat_map]. fold (headers L) (contents L). rewrite !Forall_app, length_app.
  split; [done|]. split; [|cbn [length]; lia]. split; [|done]. split; [done|]. by apply Forall_replicate.
Qed.

(** The loop reads a value from each row, up to [nField] of them. *)
Lemma unpack_loop_spec aKey szHdr L : Forall row_placed L -> Forall is_byte aKey -> size aKey < 2 ^ 31 ->
  forall fuel nField idx d x y, (length L < fuel)%nat -> (0 < nField)%nat -> 0 <= idx -> 0 <= d ->
  drop (Z.to_nat idx) aKey = headers L ++ x -> drop (Z.to_nat d) aKey = contents L ++ y ->
  idx + size (headers L) = szHdr -> d + size (contents L) <= size aKey -> szHdr <= size aKey ->
  exists d', unpack_loop fuel nField aKey szHdr idx d = Some (take nField (stored <$> (row_value <$> L)), d') /\ d' <= size aKey.
Proof.
  intros HL Hkey Hsize. induction HL as [|r L Hr HL IH]; intros fuel nField idx d x y Hf Hn Hi Hd Hx Hy Hidx Hdd Hsz;
    (destruct fuel as [|fuel]; [cbn in Hf; lia|]); cbn [unpack_loop].
  { cbn in Hidx. unfold size in Hidx. cbn in Hidx. rewrite (proj2 (Z.ltb_ge _ _)) by lia. cbn [andb]. exists d.
    split; [by destruct nField|]. cbn in Hdd. unfold size in Hdd at 1. cbn in Hdd. lia. }
  cbn [headers contents flat_map] in *. fold (headers L) (contents L) in *.
  destruct Hr as ((Hw & (Hget & Hlen & Hread) & Hh & Hb & Hz & Hl & _) & _).
  rewrite !size_app in *. pose proof (size_nonneg (headers L)). pose proof (size_nonneg (contents L)).
  assert (Hhdr : 1 <= size (row_hdr r)) by (unfold size; lia).
  assert (Hzeros : size (zeros (row_zeros r)) = row_zeros r) by (by apply size_zeros).
  pose proof (size_nonneg (row_body r)).
  rewrite (proj2 (Z.ltb_lt idx szHdr)), (proj2 (Z.leb_le d (size aKey))) by lia. cbn [andb].
  assert (Hrest : Forall is_byte (row_hdr r ++ headers L ++ x)) by (rewrite app_assoc, <- Hx; by apply Forall_drop).
  apply Forall_app in Hrest as [_ Hrest]. rewrite Hx, <- app_assoc, Hget, bind_Some by done.
  rewrite Hy, <- !app_assoc, Hread, bind_Some, Hlen, bind_Some.
  rewrite !u32_small by (unfold is_uint, size in *; lia).
  assert (Hd' : d + (size (row_body r) + row_zeros r) <= size aKey) by (rewrite Hzeros in Hdd; lia).
  destruct nField as [|[|nField]]; [lia|by eexists|].
  destruct (IH fuel (S nField) (idx + Z.of_nat (length (row_hdr r))) (d + (size (row_body r) + row_zeros r)) x y)
    as (d' & -> & Hle); try (unfold size in *; cbn [length] in *; lia).
  - rewrite Z2Nat.inj_add, <- drop_drop, Hx, Nat2Z.id, <- app_assoc by lia. by rewrite drop_app_length.
  - rewrite Z2Nat.inj_add, <- drop_drop, Hy, <- !app_assoc, app_assoc by lia.
    apply drop_app_length'. rewrite length_app. unfold size in *. lia.
  - rewrite bind_Some. exists d'. split; [done|done].
Qed.

(** *** The header *)

Lemma varint_len_range v : 1 <= v < 2 ^ 28 ->
  sqlite3VarintLen v = if v <? 2 ^ 7 then 1 else if v <? 2 ^ 14 then 2 else if v <? 2 ^ 21 then 3 else 4.
Proof.
  intros Hv. unfold sqlite3VarintLen. destruct (Z.ltb_spec v (2 ^ 7)); [by rewrite (varint_len_spec 0) by (cbn in *; lia)|].
  destruct (Z.ltb_spec v (2 ^ 14)); [by rewrite (varint_len_spec 1) by (cbn in *; lia)|].
  destruct (Z.ltb_spec v (2 ^ 21)); [by rewrite (varint_len_spec 2) by (cbn in *; lia)|].
  by rewrite (varint_len_spec 3) by (cbn in *; lia).
Qed.

Lemma header_size_range h : 0 <= h < 2 ^ 27 -> 1 <= header_size h < 2 ^ 28 /\ sqlite3VarintLen (header_size h) + h = header_size h.
Proof.
  intros Hh. unfold header_size. destruct (Z.leb_spec h 126).
  { rewrite varint_len_range, (proj2 (Z.ltb_lt _ (2 ^ 7))) by lia. lia. }
  rewrite (varint_len_range h) by lia.
  destruct (Z.ltb_spec h (2 ^ 7)), (Z.ltb_spec h (2 ^ 14)), (Z.ltb_spec h (2 ^ 21)); try lia;
    rewrite (varint_len_range (h + _)) by lia; repeat case_match; bool_to_prop; try lia;
    rewrite varint_len_range by lia; repeat case_match; bool_to_prop; lia.
Qed.

(** The varint of the size of the header is as long as the size allows for. *)
Lemma header_size_spec h : 0 <= h < 2 ^ 27 -> exists hb,
  (if header_size h <? 0x80 then Some [header_size h] else sqlite3PutVarint (header_size h)) = Some hb /\
  header_size h = size hb + h /\ Forall is_byte hb /\
  forall rest, Forall is_byte rest -> getVarint32 (hb ++ rest) = Some (size hb, header_size h).
Proof.
  intros Hh. destruct (header_size_range h Hh) as [Hr Heq].
  destruct (Z.ltb_spec (header_size h) 0x80) as [Hs|Hs].
  { rewrite varint_len_range, (proj2 (Z.ltb_lt _ (2 ^ 7))) in Heq by lia.
    exists [header_size h]. split; [done|]. split; [unfold size; cbn; lia|].
    split; [constructor; [unfold is_byte, is_uint; lia|done]|].
    intros rest Hrest. apply small_varint; [lia|done]. }
  assert (Hu : is_uint 64 (header_size h)) by (unfold is_uint; lia).
  destruct (put_varint_spec _ Hu) as (l & c & Hput & _ & _ & _ & Hlen). exists (l ++ [c]).
  specialize (Hlen ltac:(lia)). split; [done|]. split; [unfold size; rewrite length_app; cbn; lia|].
  split; [by apply (get_after_put _ [] _ Hu)|]. intros rest Hrest.
  destruct (get_after_put _ rest _ Hu Hrest Hput) as [Hb Hget].
  rewrite get_varint32_decodes, Hget by (by apply Forall_app). cbn. unfold saturated, size. cbn [fst snd]. do 2 f_equal. lia.
Qed.

(** *** Records *)

(** The bytes of a record: the space computed for it is filled exactly. *)
Lemma make_record_spec wff available values fields s : Forall valid_mem values -> Z.of_nat (length values) <= 2 ^ 15 ->
  record_space double_bits wff available values = Some (fields, s) ->
  exists hb L, values = row_value <$> L /\ Forall row_placed L /\ nZero s = all_zeros L /\ 0 <= all_zeros L /\
    contents L = bodies L ++ zeros (all_zeros L) /\ size hb + size (headers L) = header_size (nHdr s) /\
    Forall is_byte hb /\
    (if header_size (nHdr s) <? 0x80 then Some [header_size (nHdr s)] else sqlite3PutVarint (header_size (nHdr s))) = Some hb /\
    (forall rest, Forall is_byte rest -> getVarint32 (hb ++ rest) = Some (size hb, header_size (nHdr s))) /\
    forall pOut, OP_MakeRecord double_bits wff available pOut values =
      let n := size (hb ++ headers L ++ bodies L) + nZero s in
      let larger := negb (n <=? szMalloc pOut) in
      if larger && (limit pOut <? n) then Some Too_big
      else if larger && negb (resize pOut) then Some No_mem
      else Some (Record_made (Some <$> (hb ++ headers L ++ bodies L)) (if negb (nZero s =? 0) then Some (nZero s) else None)).
Proof.
  intros Hv Hlen Hspace.
  destruct (record_space_spec _ _ _ _ _ Hv Hspace) as (L & -> & -> & HL & Hh & Hd & Hz & Hz0 & Hc).
  destruct (rows_bytes L HL) as (HhL & HcL & HlL). rewrite length_fmap in Hlen.
  destruct (header_size_spec (nHdr s)) as (hb & Hhb & Hhs & Hbytes & Hget); [rewrite Hh; unfold size; lia|].
  exists hb, L. split; [done|]. split; [done|]. split; [done|]. split; [done|]. split; [done|]. split; [lia|].
  split; [done|]. split; [done|]. split; [done|]. intros pOut. unfold OP_MakeRecord. rewrite Hspace.
  assert (Hn : header_size (nHdr s) + nData s = size (hb ++ headers L ++ bodies L)) by (rewrite !size_app; lia).
  rewrite Hn. cbv zeta. destruct (_ && (limit pOut <? _)); [done|]. destruct (_ && negb (resize pOut)); [done|]. rewrite Hhb, bind_Some.
  assert (Hblank : replicate (Z.to_nat (size (hb ++ headers L ++ bodies L))) None =
    layout [] (length hb + length (headers L)) [] (length (bodies L))).
  { unfold layout, blank, size. rewrite Nat2Z.id, !length_app, Nat.add_assoc, replicate_add. done. }
  rewrite Hblank, write_hdr, bind_Some by done.
  destruct (write_fields_spec L HL ([] ++ hb) 0 [] 0 (length hb) (Z.to_nat (header_size (nHdr s))) (length (headers L))
    (length (bodies L))) as (zH & zP & Hw); [done|unfold size in *; cbn; lia|lia|lia|].
  rewrite Hw, bind_Some. do 2 f_equal. unfold layout, blank. cbn [replicate app]. by rewrite app_nil_r, !fmap_app, <- app_assoc.
Qed.

(** Taking a record apart. *)
Lemma unpack_spec hb L h nField : Forall row_placed L -> Forall is_byte hb -> size hb + size (headers L) = h ->
  (forall rest, Forall is_byte rest -> getVarint32 (hb ++ rest) = Some (size hb, h)) ->
  size (hb ++ headers L ++ contents L) < 2 ^ 31 -> (0 < nField)%nat ->
  sqlite3VdbeRecordUnpack nField (hb ++ headers L ++ contents L) = Some (take nField (stored <$> (row_value <$> L))).
Proof.
  intros HL Hhb Hh Hget Hsize Hn. destruct (rows_bytes L HL) as (HhL & HcL & HlL).
  unfold sqlite3VdbeRecordUnpack. rewrite Hget, bind_Some by (by apply Forall_app).
  rewrite !size_app in Hsize. pose proof (size_nonneg hb). pose proof (size_nonneg (headers L)). pose proof (size_nonneg (contents L)).
  destruct (unpack_loop_spec (hb ++ headers L ++ contents L) h L HL) with
    (fuel := S (length (hb ++ headers L ++ contents L))) (nField := nField) (idx := size hb) (d := h) (x := contents L) (y := @nil Z)
    as (d' & -> & Hd); rewrite ?size_app; try lia; try done.
  - by rewrite !Forall_app.
  - rewrite !length_app. lia.
  - unfold size. rewrite Nat2Z.id. by rewrite drop_app_length.
  - rewrite app_nil_r, app_assoc. apply drop_app_length'. rewrite <- Hh. unfold size. rewrite length_app. lia.
  - rewrite !size_app in Hd. rewrite bind_Some. by rewrite (proj2 (Z.ltb_ge _ _)) by lia.
Qed.

(** There is no space only when there is no memory. *)
Lemma record_space_none wff available values : record_space double_bits wff available values = None ->
  exists n, available n = false.
Proof.
  induction values as [|m values IH]; cbn [record_space]; [done|].
  destruct (record_space _ _ _ values) as [[fs s]|]; [|intros _; by apply IH].
  rewrite bind_Some. destruct (field_space _ _ _ m s) as [[[m' t] s']|] eqn:E; [done|intros _].
  exists (length values). unfold field_space in E. destruct m as [| | | | |z [n|]]; try done.
  destruct (negb _); [|done]. unfold sqlite3VdbeMemExpandBlob in E. by destruct (available _).
Qed.
End stored.

(** C32: rows and records. Making a record of at most 2^15 values never writes outside the space
    computed for it and fills it, and it gives up only when the record is longer than the limit or
    memory is exhausted.  Read with a key of [nField] columns the record, with the zeros that follow
    it, gives the first [nField] values back: the same nulls, integers, texts and blobs, whatever
    their number and size; a real number that is not a number becomes null. *)
Theorem record_roundtrip double_bits wff available pOut values :
  (forall i, is_uint 64 (double_bits i) /\ IsNaN (double_bits i) = false) ->
  Forall valid_mem values -> Z.of_nat (length values) <= 2 ^ 15 -> szMalloc pOut < 2 ^ 31 -> limit pOut < 2 ^ 31 ->
  exists r, OP_MakeRecord double_bits wff available pOut values = Some r /\
    match r with
    | Record_made z nZero => exists bytes, z = Some <$> bytes /\ forall nField, (0 < nField)%nat ->
        sqlite3VdbeRecordUnpack nField (bytes ++ zeros (default 0 nZero)) = Some (take nField (stored double_bits <$> values))
    | Too_big => exists larger z nZero,
        OP_MakeRecord double_bits wff available (mkOut 0 larger true) values = Some (Record_made z nZero) /\
        limit pOut < Z.of_nat (length z) + default 0 nZero
    | No_mem => resize pOut = false \/ exists n, available n = false
    end.
Proof.
  intros Hdb Hv Hlen Hmalloc Hlimit.
  destruct (record_space double_bits wff available values) as [[fields s]|] eqn:Hspace.
  2: { exists No_mem. unfold OP_MakeRecord. rewrite Hspace. split; [done|]. right. by eapply record_space_none. }
  destruct (make_record_spec double_bits Hdb wff available values fields s Hv Hlen Hspace)
    as (hb & L & -> & HL & Hz & Hz0 & Hc & Hhs & Hhb & _ & Hget & Hmake).
  rewrite (Hmake pOut). cbv zeta. set (bytes := hb ++ headers L ++ bodies L) in *. set (n := size bytes + nZero s) in *.
  set (nz := if negb (nZero s =? 0) then Some (nZero s) else None).
  assert (Hnz : default 0 nz = nZero s) by (unfold nz; by destruct (Z.eqb_spec (nZero s) 0)).
  assert (Hmade : n < 2 ^ 31 -> exists bytes', Some <$> bytes = Some <$> bytes' /\ forall nField, (0 < nField)%nat ->
    sqlite3VdbeRecordUnpack nField (bytes' ++ zeros (default 0 nz)) = Some (take nField (stored double_bits <$> (row_value <$> L)))).
  { intros Hn. exists bytes. split; [done|]. intros nField HnF. rewrite Hnz, Hz. unfold bytes. rewrite <- !app_assoc, <- Hc.
    apply (unpack_spec double_bits hb L (header_size (nHdr s))); try done.
    rewrite Hc, !size_app. unfold n, bytes in Hn. rewrite !size_app in Hn.
    rewrite size_zeros by done. lia. }
  destruct (Z.leb_spec n (szMalloc pOut)) as [Hfit|Hnofit]; cbn [negb andb].
  { eexists. split; [done|]. apply Hmade. lia. }
  destruct (Z.ltb_spec (limit pOut) n) as [Hbig|Hsmall]; cbn [andb].
  { eexists. split; [done|]. exists n, (Some <$> bytes), nz. rewrite Hmake. cbn [szMalloc limit resize]. cbv zeta. fold bytes n nz.
    rewrite Z.ltb_irrefl, !andb_false_r. split; [done|]. rewrite Hnz, length_fmap. done. }
  destruct (resize pOut) eqn:Hr; cbn [negb]; eexists; (split; [done|]); [apply Hmade; lia|by left].
Qed.

(** A row with a value of every kind, and zeros at the end. *)
Definition example_row : list mem :=
  [Mem_null false; Mem_int 1; Mem_int (-129); Mem_intreal (2 ^ 47); Mem_real 0x7ff8000000000000; Mem_str [104; 105];
   Mem_blob [7] (Some 2); Mem_int 300; Mem_blob [] (Some 3)].

Lemma record_roundtrip_witness : exists bytes,
  OP_MakeRecord (fun _ => 0) 4 (fun _ => true) (mkOut 0 1000 true) example_row = Some (Record_made (Some <$> bytes) (Some 3)) /\
  sqlite3VdbeRecordUnpack 9 (bytes ++ [0; 0; 0]) = Some [Mem_null false; Mem_int 1; Mem_int (-129); Mem_real 0; Mem_null false;
    Mem_str [104; 105]; Mem_blob [7; 0; 0] None; Mem_int 300; Mem_blob [0; 0; 0] None].
Proof.
  destruct (record_roundtrip (fun _ => 0) 4 (fun _ => true) (mkOut 0 1000 true) example_row) as (r & Hr & Hspec).
  - intros _. split; [unfold is_uint; lia|reflexivity].
  - unfold example_row. rewrite !Forall_cons. cbn [valid_mem]. unfold is_sint, is_uint. rewrite !Forall_cons.
    unfold is_byte, is_uint. split_and!; try done; cbn; lia.
  - cbn. lia.
  - cbn. lia.
  - cbn. lia.
  - assert (Hz : match OP_MakeRecord (fun _ => 0) 4 (fun _ => true) (mkOut 0 1000 true) example_row with
      | Some (Record_made _ (Some 3)) => true | _ => false end = true) by (vm_compute; reflexivity).
    rewrite Hr in Hz. destruct r as [z [[|[[p|p|]|p|]|]|]| |]; try discriminate Hz.
    destruct Hspec as (bytes & -> & Hread). exists bytes. split; [exact Hr|]. exact (Hread 9%nat ltac:(lia)).
Defined.
