(* ===== verification/Doubles.v ===== *)
(** * Doubles: the floating-point numbers of C

    A double is a [spec_float] of 53 bits and a long double one of 64 bits (the extended format
    of x86); a C expression that compares two of them compares their values.  The values of a
    format are the multiples of its least positive number, so a finite number is an integer
    here, [scaled]; the theorems of the components that compare doubles are about these. *)

From S2P Require Export Prelude.
From Stdlib Require Export SpecFloat.

(** ** Operations *)

Notation double := spec_float.
Definition fadd : double -> double -> double := SFadd 53 1024.
Definition fsub : double -> double -> double := SFsub 53 1024.
Definition fmul : double -> double -> double := SFmul 53 1024.
Definition fdiv : double -> double -> double := SFdiv 53 1024.
Definition of_int (i : Z) : double := binary_normalize 53 1024 i 0 false.
(** The integral part. *)
Definition truncated (r : double) : Z :=
  match r with
  | S754_finite s m e => let n := if 0 <=? e then Zpos m * 2 ^ e else Zpos m / 2 ^ (- e) in if s then - n else n
  | _ => 0
  end.
Definition is_nan (r : double) : bool := match r with S754_nan => true | _ => false end.

(** The conversions to [long double]. *)
Definition long_of_int (i : Z) : spec_float := binary_normalize 64 16384 i 0 false.
Definition long_of_double (r : double) : spec_float :=
  match r with S754_finite s m e => binary_round 64 16384 s m e | r => r end.

(** The double of 64 bits. *)
Definition double_of_bits (x : Z) : double :=
  let s := Z.testbit x 63 in
  let e := (x / 2 ^ 52) mod 2 ^ 11 in
  let m := x mod 2 ^ 52 in
  if e =? 2047 then if m =? 0 then S754_infinity s else S754_nan
  else if e =? 0 then match m with Zpos m => S754_finite s m (-1074) | _ => S754_zero s end
  else match m + 2 ^ 52 with Zpos m => S754_finite s m (e - 1075) | _ => S754_nan end.

(** ** Digits *)

Lemma digits_bounds m : 2 ^ (Zpos (digits2_pos m) - 1) <= Zpos m < 2 ^ Zpos (digits2_pos m).
Proof.
  induction m as [m IH|m IH|]; cbn [digits2_pos]; [..|done];
    rewrite Pos2Z.inj_succ; unfold Z.succ; rewrite Z.pow_add_r by lia;
    replace (Zpos (digits2_pos m) + 1 - 1) with (Zpos (digits2_pos m) - 1 + 1) by lia;
    rewrite (Z.pow_add_r 2 (_ - 1)) by lia; change (2 ^ 1) with 2; lia.
Qed.
Lemma digits_unique m d : 2 ^ (d - 1) <= Zpos m < 2 ^ d -> Zpos (digits2_pos m) = d.
Proof.
  intros Hd. pose proof (digits_bounds m) as Hm.
  assert (Hd0 : 0 < d) by (apply Z.nle_gt; intros Hneg; rewrite (Z.pow_neg_r 2 (d - 1)) in Hd by lia;
    destruct (Z.eq_dec d 0) as [->|]; [lia|rewrite Z.pow_neg_r in Hd by lia; lia]).
  assert (Zpos (digits2_pos m) - 1 < d /\ d - 1 < Zpos (digits2_pos m)); [|lia].
  split; apply (Z.pow_lt_mono_r_iff 2); lia.
Qed.
Lemma digits_shift m p k : 0 <= k -> Zpos p = Zpos m * 2 ^ k -> Zpos (digits2_pos p) = Zpos (digits2_pos m) + k.
Proof.
  intros Hk Hp. apply digits_unique. rewrite Hp. pose proof (digits_bounds m) as Hm.
  replace (Zpos (digits2_pos m) + k - 1) with (Zpos (digits2_pos m) - 1 + k) by lia.
  rewrite !Z.pow_add_r by lia. nia.
Qed.

(** Shifting zeros out is exact. *)
Lemma shr_exact p : forall m, iter_pos shr_1 p (Build_shr_record (Zpos m * 2 ^ Zpos p) false false) = Build_shr_record (Zpos m) false false.
Proof.
  assert (Hone : forall m, shr_1 (Build_shr_record (Zpos m * 2) false false) = Build_shr_record (Zpos m) false false)
    by (intros m; rewrite Z.mul_comm; done).
  assert (Hpos : forall m q, exists m', Zpos m * 2 ^ Zpos q = Zpos m').
  { intros m q. exists (m * 2 ^ q)%positive. by rewrite Pos2Z.inj_mul, Pos2Z.inj_pow. }
  induction p as [p IH|p IH|]; intros m; cbn [iter_pos].
  - rewrite (Pos2Z.inj_xI p). replace (2 * Zpos p + 1) with (Zpos p + Zpos p + 1) by lia.
    rewrite !Z.pow_add_r, !Z.mul_assoc by lia. destruct (Hpos m p) as [m' Hm'], (Hpos m' p) as [m'' Hm''].
    rewrite Hm', Hm''. change (2 ^ 1) with 2. by rewrite Hone, <- Hm'', IH, <- Hm', IH.
  - rewrite (Pos2Z.inj_xO p). replace (2 * Zpos p) with (Zpos p + Zpos p) by lia.
    rewrite Z.pow_add_r, Z.mul_assoc by lia. destruct (Hpos m p) as [m' Hm']. by rewrite Hm', IH, <- Hm', IH.
  - apply Hone.
Qed.

Lemma iter_xO m p : Zpos (Pos.iter xO m p) = Zpos m * 2 ^ Zpos p.
Proof.
  induction p as [|p IH] using Pos.peano_ind; [cbn; lia|].
  rewrite Pos.iter_succ, Pos2Z.inj_xO, IH, Pos2Z.inj_succ, Z.pow_succ_r by lia. lia.
Qed.

(** ** A format *)

Section format.
Context (prec emax : Z) (Hprec : 0 < prec) (Hemax : prec < emax).

(** The value, in units of the least positive number; an infinity is the first number out of range. *)
Definition scaled (x : spec_float) : Z :=
  match x with
  | S754_finite s m e => cond_Zopp s (Zpos m * 2 ^ (e - emin prec emax))
  | S754_infinity s => cond_Zopp s (2 ^ (emax - emin prec emax))
  | _ => 0
  end.

Lemma bounded_spec m e : bounded prec emax m e = true <->
  e <= emax - prec /\ emin prec emax <= e /\ Zpos (digits2_pos m) <= prec /\ (e = emin prec emax \/ Zpos (digits2_pos m) = prec).
Proof. unfold bounded, canonical_mantissa, fexp. rewrite andb_true_iff, Z.eqb_eq, Z.leb_le. lia. Qed.

(** The value of a number of the format determines it, and the other way round. *)
Lemma round_exact s m e M E k : bounded prec emax M E = true -> 0 <= k ->
  (e = E + k /\ Zpos M = Zpos m * 2 ^ k) \/ (E = e + k /\ Zpos m = Zpos M * 2 ^ k) -> binary_round prec emax s m e = S754_finite s M E.
Proof.
  intros HB Hk Hm. apply bounded_spec in HB as HB'.
  assert (Hfexp : fexp prec emax (Zpos (digits2_pos M) + E) = E) by (unfold fexp; lia).
  assert (Haux : forall mz, 0 <= E - mz.2 -> Zpos mz.1 = Zpos M * 2 ^ (E - mz.2) ->
    binary_round_aux prec emax s (Zpos mz.1) mz.2 loc_Exact = S754_finite s M E).
  { intros [m' e'] Hk' Hm'. cbn [fst snd] in *. unfold binary_round_aux, shr_fexp at 1. cbn [Zdigits2 shr_record_of_loc].
    rewrite (digits_shift M m' (E - e')) by done. replace (Zpos (digits2_pos M) + (E - e') + e') with (Zpos (digits2_pos M) + E) by lia.
    rewrite Hfexp, Hm'. assert (Hshr : shr {| shr_m := Zpos M * 2 ^ (E - e'); shr_r := false; shr_s := false |} e' (E - e') =
      ({| shr_m := Zpos M; shr_r := false; shr_s := false |}, E)).
    { unfold shr. destruct (E - e') as [|n|n] eqn:He; [rewrite Z.mul_1_r; f_equal; lia|by rewrite shr_exact, <- He, Zplus_minus|lia]. }
    rewrite Hshr. cbn [shr_m loc_of_shr_record round_nearest_even]. unfold shr_fexp. cbn [Zdigits2 shr_record_of_loc].
    rewrite Hfexp, Z.sub_diag. cbn [shr shr_m]. by rewrite (proj2 (Z.leb_le _ _)) by lia. }
  unfold binary_round, shl_align. destruct Hm as [[-> Hm]|[-> Hm]].
  - rewrite (digits_shift m M k) in Hfexp by done. replace (Zpos (digits2_pos m) + (E + k)) with (Zpos (digits2_pos m) + k + E) by lia.
    rewrite Hfexp. replace (E - (E + k)) with (- k) by lia. destruct k as [|k|k]; [|cbn [Z.opp]|lia].
    + apply (Haux (m, E + 0)); cbn [fst snd]; [lia|]. rewrite Hm. replace (E - (E + 0)) with 0 by lia. lia.
    + apply (Haux (Pos.iter xO m k, E)); cbn [fst snd]; [lia|]. rewrite iter_xO, Hm, Z.sub_diag. lia.
  - rewrite (digits_shift M m k) by done. replace (Zpos (digits2_pos M) + k + e) with (Zpos (digits2_pos M) + (e + k)) by lia.
    rewrite Hfexp. replace (e + k - e) with k by lia. destruct k as [|k|k]; [|cbn [Z.opp]|lia];
      (apply (Haux (m, e)); cbn [fst snd]; [lia|]; rewrite Hm; f_equal; f_equal; lia).
Qed.

(** A number with few digits is one of the format. *)
Lemma round_fits s m e : Zpos (digits2_pos m) <= prec -> emin prec emax <= e + Zpos (digits2_pos m) - prec -> e <= emax - prec ->
  valid_binary prec emax (binary_round prec emax s m e) = true /\
  scaled (binary_round prec emax s m e) = cond_Zopp s (Zpos m * 2 ^ (e - emin prec emax)).
Proof.
  intros Hd He Hmax. set (k := prec - Zpos (digits2_pos m)).
  assert (HM : exists M, Zpos M = Zpos m * 2 ^ k).
  { destruct k as [|p|p] eqn:Hk; [exists m; lia| |unfold k in Hk; lia]. exists (m * 2 ^ p)%positive.
    by rewrite Pos2Z.inj_mul, Pos2Z.inj_pow. }
  destruct HM as [M HM]. pose proof (digits_shift m M k ltac:(lia) HM) as HdM.
  assert (HB : bounded prec emax M (e - k) = true) by (apply bounded_spec; lia).
  rewrite (round_exact s m e M (e - k) k HB); [|lia|left; split; [lia|exact HM]].
  split; [exact HB|]. cbn [scaled]. rewrite HM. f_equal.
  replace (e - emin prec emax) with (k + (e - k - emin prec emax)) by lia. rewrite Z.pow_add_r by lia. lia.
Qed.

(** *** Comparisons *)

Definition number (x : spec_float) : Prop := valid_binary prec emax x = true /\ x <> S754_nan.

Lemma scaled_below m e : bounded prec emax m e = true -> 0 < Zpos m * 2 ^ (e - emin prec emax) < 2 ^ (emax - emin prec emax).
Proof.
  intros HB%bounded_spec. pose proof (digits_bounds m) as Hm. split; [apply Z.mul_pos_pos; [done|lia]|].
  replace (emax - emin prec emax) with (emax - e + (e - emin prec emax)) by lia. rewrite (Z.pow_add_r 2 (emax - e)) by lia.
  apply Z.mul_lt_mono_pos_r; [lia|]. eapply Z.lt_le_trans; [apply Hm|]. apply Z.pow_le_mono_r; lia.
Qed.

(** A number with a greater exponent is greater. *)
Lemma exponent_order m1 e1 m2 e2 : bounded prec emax m1 e1 = true -> bounded prec emax m2 e2 = true -> e1 < e2 ->
  Zpos m1 * 2 ^ (e1 - emin prec emax) < Zpos m2 * 2 ^ (e2 - emin prec emax).
Proof.
  intros H1%bounded_spec H2%bounded_spec He. pose proof (digits_bounds m1) as Hm1. pose proof (digits_bounds m2) as Hm2.
  assert (Hd2 : Zpos (digits2_pos m2) = prec) by lia. rewrite Hd2 in Hm2.
  assert (Hm1' : Zpos m1 < 2 ^ prec) by (eapply Z.lt_le_trans; [apply Hm1|]; apply Z.pow_le_mono_r; lia).
  replace (e2 - emin prec emax) with (e2 - e1 - 1 + 1 + (e1 - emin prec emax)) by lia.
  rewrite (Z.pow_add_r 2 (_ + 1)), (Z.pow_add_r 2 _ 1) by lia. change (2 ^ 1) with 2.
  replace prec with (prec - 1 + 1) in Hm1' by lia. rewrite Z.pow_add_r in Hm1' by lia. change (2 ^ 1) with 2 in Hm1'.
  assert (1 <= 2 ^ (e2 - e1 - 1)) by (pose proof (Z.pow_pos_nonneg 2 (e2 - e1 - 1)); lia).
  rewrite Z.mul_assoc. apply Z.mul_lt_mono_pos_r; [apply Z.pow_pos_nonneg; lia|]. nia.
Qed.

Lemma magnitude_compare m1 e1 m2 e2 : bounded prec emax m1 e1 = true -> bounded prec emax m2 e2 = true ->
  match Z.compare e1 e2 with Lt => Lt | Gt => Gt | Eq => Pos.compare_cont Eq m1 m2 end =
  (Zpos m1 * 2 ^ (e1 - emin prec emax) ?= Zpos m2 * 2 ^ (e2 - emin prec emax)).
Proof.
  intros H1 H2. symmetry. destruct (Z.compare_spec e1 e2) as [->|He|He].
  - apply bounded_spec in H2. by rewrite <- Zmult_compare_compat_r by (apply Z.lt_gt, Z.pow_pos_nonneg; lia).
  - apply Z.compare_lt_iff. by apply exponent_order.
  - apply Z.compare_gt_iff. by apply exponent_order.
Qed.

Lemma signed_compare (s1 s2 : bool) m1 e1 m2 e2 : bounded prec emax m1 e1 = true -> bounded prec emax m2 e2 = true ->
  SFcompare (S754_finite s1 m1 e1) (S754_finite s2 m2 e2) =
  Some (cond_Zopp s1 (Zpos m1 * 2 ^ (e1 - emin prec emax)) ?= cond_Zopp s2 (Zpos m2 * 2 ^ (e2 - emin prec emax))).
Proof.
  intros H1 H2. pose proof (magnitude_compare m1 e1 m2 e2 H1 H2) as Hm. pose proof (scaled_below m1 e1 H1) as Hb1. pose proof (scaled_below m2 e2 H2) as Hb2.
  cbn [SFcompare]. f_equal. destruct s1, s2; cbn [cond_Zopp].
  - rewrite Z.compare_opp, (Z.compare_antisym (Zpos m1 * _) (Zpos m2 * _)), <- Hm. by destruct (e1 ?= e2).
  - symmetry. apply Z.compare_lt_iff. lia.
  - symmetry. apply Z.compare_gt_iff. lia.
  - exact Hm.
Qed.

(** C's comparison is that of the values. *)
Lemma compare_scaled x y : number x -> number y -> SFcompare x y = Some (scaled x ?= scaled y).
Proof.
  intros [Hx Hxn] [Hy Hyn].
  destruct x as [sx|sx| |sx mx ex]; try done; destruct y as [sy|sy| |sy my ey]; try done; cbn [valid_binary] in *; try by apply signed_compare.
  all: try pose proof (scaled_below mx ex Hx); try pose proof (scaled_below my ey Hy).
  all: assert (0 < 2 ^ (emax - emin prec emax)) by (apply Z.pow_pos_nonneg; unfold emin; lia).
  all: cbn [SFcompare scaled]; try destruct sx; try destruct sy; cbn [cond_Zopp]; f_equal; symmetry;
    first [apply Z.compare_lt_iff; lia|apply Z.compare_gt_iff; lia|apply Z.compare_eq_iff; lia].
Qed.

Lemma ltb_scaled x y : number x -> number y -> SFltb x y = (scaled x <? scaled y).
Proof. intros Hx Hy. unfold SFltb. rewrite compare_scaled by done. unfold Z.ltb. by destruct (_ ?= _). Qed.
Lemma leb_scaled x y : number x -> number y -> SFleb x y = (scaled x <=? scaled y).
Proof. intros Hx Hy. unfold SFleb. rewrite compare_scaled by done. unfold Z.leb. by destruct (_ ?= _). Qed.

(** *** Integers *)

(** An integer with few digits is a number of the format. *)
Lemma normalize_fits i : Z.abs i < 2 ^ prec -> prec <= 1 - emin prec emax ->
  number (binary_normalize prec emax i 0 false) /\ scaled (binary_normalize prec emax i 0 false) = i * 2 ^ (- emin prec emax).
Proof.
  intros Hi He. assert (Hfit : forall s m, Zpos m < 2 ^ prec -> number (binary_round prec emax s m 0) /\
    scaled (binary_round prec emax s m 0) = cond_Zopp s (Zpos m * 2 ^ (- emin prec emax))).
  { intros s m Hm. pose proof (digits_bounds m) as Hb. destruct (round_fits s m 0) as [Hv Hs].
    - assert (Zpos (digits2_pos m) - 1 < prec); [|lia]. apply (Z.pow_lt_mono_r_iff 2); lia.
    - lia.
    - lia.
    - split; [|exact Hs]. split; [done|]. intros Heq. rewrite Heq in Hs. cbn in Hs.
      pose proof (Z.pow_pos_nonneg 2 (0 - emin prec emax)). destruct s; cbn [cond_Zopp] in Hs; lia. }
  unfold binary_normalize. destruct i as [|m|m]; [done|..].
  - by apply Hfit.
  - destruct (Hfit true m Hi) as [Hn ->]. split; [done|]. cbn [cond_Zopp]. lia.
Qed.
End format.

(** ** Doubles and long doubles *)

Notation double_value := (scaled 53 1024).
Notation is_double := (number 53 1024).
Definition is_finite (r : double) : Prop := match r with S754_finite _ _ _ | S754_zero _ => True | _ => False end.

Lemma cond_Zopp_mul s a b : cond_Zopp s (a * b) = cond_Zopp s a * b.
Proof. destruct s; cbn [cond_Zopp]; lia. Qed.

Lemma truncated_spec r : is_double r -> is_finite r -> truncated r = Z.quot (double_value r) (2 ^ 1074).
Proof.
  intros [Hv _] Hf. destruct r as [s|s| |s m e]; try done. cbn [valid_binary] in Hv. apply bounded_spec in Hv as (_ & He & _).
  change (emin 53 1024) with (-1074) in *. cbn [truncated scaled]. change (emin 53 1024) with (-1074).
  replace (e - -1074) with (e + 1074) by lia. assert (H0 : 2 ^ 1074 <> 0) by (apply Z.pow_nonzero; lia).
  assert (Hquot : (if 0 <=? e then Zpos m * 2 ^ e else Zpos m / 2 ^ (- e)) = Z.quot (Zpos m * 2 ^ (e + 1074)) (2 ^ 1074)).
  { destruct (Z.leb_spec 0 e).
    - rewrite Z.pow_add_r, Z.mul_assoc, Z.quot_mul by lia. done.
    - rewrite Z.quot_div_nonneg by (try apply Z.mul_nonneg_nonneg; try lia; try apply Z.pow_nonneg; lia).
      assert (Hp : 2 ^ 1074 = 2 ^ (- e) * 2 ^ (e + 1074)) by (rewrite <- Z.pow_add_r by lia; f_equal; lia).
      rewrite Hp, Z.div_mul_cancel_r; [done|apply Z.pow_nonzero; lia..]. }
  destruct s; cbn [cond_Zopp]; [|done]. by rewrite Hquot, Z.quot_opp_l.
Qed.

(** The integral part of a double is one. *)
Lemma of_int_truncated r : is_double r -> is_finite r ->
  is_double (of_int (truncated r)) /\ double_value (of_int (truncated r)) = truncated r * 2 ^ 1074.
Proof.
  intros [Hv _] Hf. destruct r as [s|s| |s m e]; try done. cbn [valid_binary] in Hv.
  destruct (Z.leb_spec 0 e) as [He|He].
  - assert (Hi : of_int (truncated (S754_finite s m e)) = S754_finite s m e).
    { assert (Hm : exists p, Zpos p = Zpos m * 2 ^ e).
      { destruct e as [|e|e]; [exists m; lia| |lia]. exists (m * 2 ^ e)%positive. by rewrite Pos2Z.inj_mul, Pos2Z.inj_pow. }
      destruct Hm as [p Hp]. cbn [truncated]. rewrite (proj2 (Z.leb_le 0 e) He), <- Hp.
      assert (Hr : forall s, binary_round 53 1024 s p 0 = S754_finite s m e)
        by (intros s'; apply (round_exact 53 1024 s' p 0 m e e Hv He); right; split; [lia|exact Hp]).
      unfold of_int, binary_normalize. destruct s; apply Hr. }
    rewrite Hi. split; [done|]. cbn [truncated scaled]. rewrite (proj2 (Z.leb_le 0 e) He). change (emin 53 1024) with (-1074).
    replace (e - -1074) with (e + 1074) by lia. rewrite Z.pow_add_r, Z.mul_assoc, cond_Zopp_mul by lia. by destruct s.
  - apply bounded_spec in Hv. pose proof (digits_bounds m) as Hm.
    assert (Hi : Z.abs (truncated (S754_finite s m e)) < 2 ^ 53).
    { cbn [truncated]. rewrite (proj2 (Z.leb_gt 0 e) He). assert (0 <= Zpos m / 2 ^ (- e) <= Zpos m)
        by (split; [apply Z.div_pos; [lia|apply Z.pow_pos_nonneg; lia]|apply Z.div_le_upper_bound; [apply Z.pow_pos_nonneg; lia|];
          pose proof (Z.pow_pos_nonneg 2 (- e)); nia]).
      assert (Zpos m < 2 ^ 53) by (eapply Z.lt_le_trans; [apply Hm|]; apply Z.pow_le_mono_r; lia). destruct s; lia. }
    apply (normalize_fits 53 1024 eq_refl eq_refl); [done|]. unfold emin. lia.
Qed.

Lemma long_of_int_exact i : Z.abs i < 2 ^ 64 ->
  number 64 16384 (long_of_int i) /\ scaled 64 16384 (long_of_int i) = i * 2 ^ 16445.
Proof. intros Hi. apply (normalize_fits 64 16384 eq_refl eq_refl); [done|]. unfold emin. lia. Qed.

Lemma long_of_double_exact r : is_double r ->
  number 64 16384 (long_of_double r) /\ (is_finite r -> scaled 64 16384 (long_of_double r) = double_value r * 2 ^ (16445 - 1074)).
Proof.
  intros [Hv Hn]. destruct r as [s|s| |s m e]; try done. cbn [valid_binary] in Hv. apply bounded_spec in Hv as HB.
  change (emin 53 1024) with (-1074) in HB. pose proof (Pos2Z.is_pos (digits2_pos m)).
  destruct (round_fits 64 16384 s m e) as [Hv' Hs]; [lia|unfold emin; lia|lia|].
  cbn [long_of_double]. assert (Hval : cond_Zopp s (Zpos m * 2 ^ (e - emin 64 16384)) = double_value (S754_finite s m e) * 2 ^ (16445 - 1074)).
  { cbn [scaled]. rewrite <- cond_Zopp_mul, <- Z.mul_assoc, <- Z.pow_add_r by (unfold emin; lia). do 3 f_equal. unfold emin. lia. }
  rewrite Hs, Hval. split; [split; [done|]|done]. intros Heq. rewrite Heq in Hs. rewrite Hval in Hs. cbn [scaled] in Hs.
  destruct (scaled_below 53 1024 eq_refl m e Hv) as [Hpos _]. assert (HP : 0 < 2 ^ (16445 - 1074)) by (clear; apply Z.pow_pos_nonneg; lia).
  revert Hs HP. clear - Hpos. generalize (2 ^ (16445 - 1074)). intros P Hs HP. destruct s; cbn [cond_Zopp] in Hs; nia.
Qed.

(** Both in the same unit: [u] units are the least positive double. *)
Lemma long_values i r : Z.abs i < 2 ^ 64 -> is_double r -> exists u, 0 < u /\
  number 64 16384 (long_of_int i) /\ number 64 16384 (long_of_double r) /\
  scaled 64 16384 (long_of_int i) = i * 2 ^ 1074 * u /\
  match r with
  | S754_infinity s => exists v, Z.abs (i * 2 ^ 1074 * u) < v /\ scaled 64 16384 (long_of_double r) = cond_Zopp s v
  | _ => scaled 64 16384 (long_of_double r) = double_value r * u
  end.
Proof.
  intros Hi Hr. destruct (long_of_int_exact i Hi) as [Hx Hvx]. destruct (long_of_double_exact r Hr) as [Hy Hvy].
  exists (2 ^ (16445 - 1074)). assert (Hp : 2 ^ 1074 * 2 ^ (16445 - 1074) = 2 ^ 16445) by (clear; rewrite <- Z.pow_add_r by lia; f_equal).
  rewrite <- Z.mul_assoc, Hp. split; [clear; apply Z.pow_pos_nonneg; lia|]. split; [done|]. split; [done|]. split; [done|].
  destruct Hr as [_ Hn]. destruct r as [s|s| |s m e]; [by apply Hvy| |by destruct Hn|by apply Hvy].
  exists (2 ^ (16384 + 16445)). split; [|reflexivity].
  rewrite Z.pow_add_r by (clear; lia). assert (H0 : 0 < 2 ^ 16445) by (clear; apply Z.pow_pos_nonneg; lia).
  assert (HV : Z.abs i < 2 ^ 16384) by (eapply Z.lt_le_trans; [exact Hi|]; clear; apply Z.pow_le_mono_r; lia).
  revert H0 HV. clear. generalize (2 ^ 16445) (2 ^ 16384). intros U V HU HV. nia.
Qed.

(** ** Bits *)

Lemma double_of_bits_number x : is_uint 64 x -> double_of_bits x = S754_nan \/ is_double (double_of_bits x).
Proof.
  intros Hx. unfold double_of_bits. cbv zeta. set (e := (x / 2 ^ 52) mod 2 ^ 11). set (m := x mod 2 ^ 52).
  assert (He : 0 <= e < 2048) by (apply Z.mod_pos_bound; lia). assert (Hm : 0 <= m < 2 ^ 52) by (apply Z.mod_pos_bound; lia). clearbody e m.
  assert (Hnum : forall p e', bounded 53 1024 p e' = true -> is_double (S754_finite (Z.testbit x 63) p e')) by done.
  destruct (Z.eqb_spec e 2047); [destruct (m =? 0); [by right|by left]|]. right.
  destruct (Z.eqb_spec e 0).
  - destruct m as [|p|p]; [done| |done]. apply Hnum, bounded_spec. change (emin 53 1024) with (-1074). pose proof (digits_bounds p).
    assert (Zpos (digits2_pos p) - 1 < 52) by (apply (Z.pow_lt_mono_r_iff 2); lia). lia.
  - destruct (m + 2 ^ 52) as [|p|p] eqn:Hp; [lia| |lia]. apply Hnum, bounded_spec. change (emin 53 1024) with (-1074).
    rewrite (digits_unique p 53) by lia. lia.
Qed.
