(* ===== verification/Compare.v ===== *)
(** * Compare: the order of SQLite's values

    sqlite3.c, vdbeaux.c part: the comparison of two values, which decides the order of an index.
    Nulls come first, then numbers by their values, texts by a collating sequence and blobs by
    their bytes.  A collating sequence is the function of two texts behind
    [vdbeCompareMemString]; no sequence is the comparison of bytes.  C's [memcmp] is the
    difference of the first bytes that differ.  [None] is a read outside the memory given. *)

From S2P Require Export Doubles RecordFormat.

(** ** Comparing *)

Definition less_greater (less greater : bool) : Z := if less then -1 else if greater then 1 else 0.

Fixpoint memcmp (n : nat) (z1 z2 : list Z) : option Z :=
  match n with
  | O => Some 0
  | S n =>
    match z1, z2 with
    | x :: z1, y :: z2 => if x =? y then memcmp n z1 z2 else Some (x - y)
    | _, _ => None
    end
  end.

Definition isAllZero (z : list Z) : bool := forallb (fun c => c =? 0) z.

(** Two blobs, each its bytes or, with [MEM_Zero], a number of zeros. *)
Definition sqlite3BlobCompare (z1 : list Z) (nZero1 : option Z) (z2 : list Z) (nZero2 : option Z) : option Z :=
  let n1 := size z1 in
  let n2 := size z2 in
  match nZero1, nZero2 with
  | Some nZero1, Some nZero2 => Some (nZero1 - nZero2)
  | Some nZero1, None => Some (if negb (isAllZero z2) then -1 else nZero1 - n2)
  | None, Some nZero2 => Some (if negb (isAllZero z1) then 1 else n1 - nZero2)
  | None, None =>
    c ← memcmp (Z.to_nat (if n2 <? n1 then n2 else n1)) z1 z2;
    Some (if negb (c =? 0) then c else n1 - n2)
  end.

(** [bUseLongDouble] is the field of [sqlite3Config]. *)
Definition sqlite3IntFloatCompare (bUseLongDouble : bool) (i : Z) (r : double) : Z :=
  if is_nan r then 1
  else if bUseLongDouble then
    let x := long_of_int i in
    less_greater (SFltb x (long_of_double r)) (SFltb (long_of_double r) x)
  else if SFltb r (of_int (-9223372036854775808)) then 1
  else if SFleb (of_int 9223372036854775808) r then -1
  else
    let y := truncated r in
    if i <? y then -1
    else if y <? i then 1
    else let s := of_int i in less_greater (SFltb s r) (SFltb r s).

Notation coll := (list Z -> list Z -> Z).

Definition sqlite3MemCompare (bUseLongDouble : bool) (pMem1 pMem2 : mem) (pColl : option coll) : option Z :=
  match pMem1, pMem2 with
  | Mem_null _, Mem_null _ => Some 0
  | Mem_null _, _ => Some (-1)
  | _, Mem_null _ => Some 1
  | (Mem_int i1 | Mem_intreal i1), (Mem_int i2 | Mem_intreal i2) => Some (less_greater (i1 <? i2) (i2 <? i1))
  | Mem_real r1, Mem_real r2 =>
    let r1 := double_of_bits r1 in
    let r2 := double_of_bits r2 in
    Some (less_greater (SFltb r1 r2) (SFltb r2 r1))
  | (Mem_int i1 | Mem_intreal i1), Mem_real r2 => Some (sqlite3IntFloatCompare bUseLongDouble i1 (double_of_bits r2))
  | (Mem_int _ | Mem_intreal _), _ => Some (-1)
  | Mem_real r1, (Mem_int i2 | Mem_intreal i2) => Some (- sqlite3IntFloatCompare bUseLongDouble i2 (double_of_bits r1))
  | Mem_real _, _ => Some (-1)
  | _, (Mem_int _ | Mem_intreal _ | Mem_real _) => Some 1
  | Mem_str z1, Mem_str z2 =>
    match pColl with Some xCmp => Some (xCmp z1 z2) | None => sqlite3BlobCompare z1 None z2 None end
  | Mem_blob _ _, Mem_str _ => Some 1
  | Mem_str _, Mem_blob _ _ => Some (-1)
  | Mem_blob z1 nZero1, Mem_blob z2 nZero2 => sqlite3BlobCompare z1 nZero1 z2 nZero2
  end.

(** ** Orders *)

(** A comparison by sign: a total preorder. *)
Class Ordering {A} (P : A -> Prop) (f : A -> A -> Z) : Prop := {
  ordering_sym a b : P a -> P b -> Z.sgn (f b a) = - Z.sgn (f a b);
  ordering_trans a b c : P a -> P b -> P c -> f a b <= 0 -> f b c <= 0 -> f a c <= 0
}.

(** Bytes, the first difference first, and a prefix first. *)
Fixpoint lex (z1 z2 : list Z) : Z :=
  match z1, z2 with
  | [], [] => 0
  | [], _ => -1
  | _, [] => 1
  | x :: z1, y :: z2 => if x =? y then lex z1 z2 else Z.sgn (x - y)
  end.

#[export] Instance lex_ordering : Ordering (fun _ => True) lex.
Proof.
  constructor.
  - intros a b _ _. revert b. induction a as [|x a IH]; intros [|y b]; cbn [lex]; try done.
    destruct (Z.eqb_spec x y) as [->|]; [rewrite Z.eqb_refl; apply IH|]. rewrite (proj2 (Z.eqb_neq y x)), !Z.sgn_sgn by done. lia.
  - intros a b c _ _ _. revert b c. induction a as [|x a IH]; intros [|y b] [|z c]; cbn [lex]; try lia; try done.
    destruct (Z.eqb_spec x y) as [->|], (Z.eqb_spec y z) as [->|]; rewrite ?Z.eqb_refl; intros Hab Hbc.
    + by apply (IH b).
    + done.
    + rewrite (proj2 (Z.eqb_neq x z)) by lia. lia.
    + rewrite (proj2 (Z.eqb_neq x z)) by lia. lia.
Qed.

Lemma lex_sgn z1 z2 : Z.sgn (lex z1 z2) = lex z1 z2.
Proof. revert z2. induction z1 as [|x z1 IH]; intros [|y z2]; cbn [lex]; [done..|]. destruct (x =? y); [done|apply Z.sgn_sgn]. Qed.

(** ** Numbers *)

Lemma less_greater_sgn a b : less_greater (a <? b) (b <? a) = Z.sgn (a - b).
Proof. unfold less_greater. destruct (Z.ltb_spec a b), (Z.ltb_spec b a); lia. Qed.

Lemma exponent_bits x : Z.land x EXP754 = Z.shiftl ((x / 2 ^ 52) mod 2 ^ 11) 52.
Proof.
  unfold EXP754. rewrite <- Z.shiftr_div_pow2, <- Z.land_ones by lia. apply Z.bits_inj'. intros n Hn.
  rewrite Z.land_spec, !Z.shiftl_spec, Z.land_spec by lia.
  destruct (Z.ltb_spec n 52); [rewrite !(Z.testbit_neg_r _ (n - 52)) by lia; by rewrite andb_false_r|].
  rewrite Z.shiftr_spec by lia. by replace (n - 52 + 52) with n by lia.
Qed.

Lemma IsNaN_spec x : IsNaN x = is_nan (double_of_bits x).
Proof.
  unfold IsNaN, double_of_bits. cbv zeta. rewrite exponent_bits. change MAN754 with (Z.ones 52). rewrite Z.land_ones by lia.
  set (e := (x / 2 ^ 52) mod 2 ^ 11). set (m := x mod 2 ^ 52). change EXP754 with (2047 * 2 ^ 52). rewrite Z.shiftl_mul_pow2 by lia.
  assert (Hm : 0 <= m) by (apply Z.mod_pos_bound; lia). assert (He : (e * 2 ^ 52 =? 2047 * 2 ^ 52) = (e =? 2047)) by lia. rewrite He.
  destruct (e =? 2047); cbn [andb]; [by destruct (m =? 0)|]. destruct (e =? 0); [by destruct m|].
  destruct (m + 2 ^ 52) eqn:E; [lia|done|lia].
Qed.

Lemma sgn_scale a b p : 0 < p -> Z.sgn (a * p - b * p) = Z.sgn (a - b).
Proof. intros Hp. rewrite <- Z.mul_sub_distr_r, Z.sgn_mul, (Z.sgn_pos p) by done. lia. Qed.

(** An integer and a double, by their values. *)
Definition exact_order (i : Z) (r : double) : Z := Z.sgn (i * 2 ^ 1074 - double_value r).

Section exact.
Context (i : Z) (Hi : is_sint 64 i).

(** Beyond any integer. *)
Lemma exact_infinity s : exact_order i (S754_infinity s) = if s then 1 else -1.
Proof.
  unfold exact_order. cbn [scaled]. change (1024 - emin 53 1024) with (1024 + 1074). rewrite Z.pow_add_r by lia.
  assert (HU : 0 < 2 ^ 1074) by (clear; apply Z.pow_pos_nonneg; lia). revert HU. generalize (2 ^ 1074). intros U HU.
  assert (Z.abs i < 2 ^ 1024) by (unfold is_sint in Hi; assert (2 ^ 64 <= 2 ^ 1024) by (apply Z.pow_le_mono_r; lia); lia).
  revert H. generalize (2 ^ 1024). intros V HV. destruct s; cbn [cond_Zopp]; nia.
Qed.

Lemma long_compare r : is_double r ->
  less_greater (SFltb (long_of_int i) (long_of_double r)) (SFltb (long_of_double r) (long_of_int i)) = exact_order i r.
Proof.
  intros Hr. assert (Hi64 : Z.abs i < 2 ^ 64) by (unfold is_sint in Hi; lia).
  destruct (long_values i r Hi64 Hr) as (u & Hu & Hx & Hy & Hvx & Hvy).
  rewrite !(ltb_scaled 64 16384), less_greater_sgn, Hvx by done. destruct Hr as [_ Hnan].
  destruct r as [s|s| |s m e]; try done; [rewrite Hvy; by apply sgn_scale| |rewrite Hvy; by apply sgn_scale].
  destruct Hvy as (v & Hv & ->). rewrite exact_infinity. revert Hv. generalize (i * 2 ^ 1074 * u). clear. intros z Hz.
  destruct s; cbn [cond_Zopp]; lia.
Qed.

(** The integral part decides, unless it is the integer. *)
Lemma quot_order u a : 0 < u -> let y := Z.quot a u in (i < y -> i * u < a) /\ (y < i -> a < i * u).
Proof.
  clear Hi. intros Hu y. pose proof (Z.quot_rem a u ltac:(lia)) as Hq. fold y in Hq. destruct (Z.leb_spec 0 a).
  - pose proof (Z.rem_bound_pos a u ltac:(lia) Hu). split; intros; nia.
  - pose proof (Z.rem_bound_pos (- a) u ltac:(lia) Hu) as Hb. rewrite Z.rem_opp_l in Hb by lia. split; intros; nia.
Qed.

Lemma limit_values : is_double (of_int (-9223372036854775808)) /\ is_double (of_int 9223372036854775808) /\
  double_value (of_int (-9223372036854775808)) = - 2 ^ 63 * 2 ^ 1074 /\ double_value (of_int 9223372036854775808) = 2 ^ 63 * 2 ^ 1074.
Proof. split_and!; [split; [by vm_compute|done]..|by vm_compute|by vm_compute]. Qed.

Lemma short_compare r : is_double r ->
  (if SFltb r (of_int (-9223372036854775808)) then 1
   else if SFleb (of_int 9223372036854775808) r then -1
   else let y := truncated r in
     if i <? y then -1 else if y <? i then 1
     else less_greater (SFltb (of_int i) r) (SFltb r (of_int i))) = exact_order i r.
Proof.
  intros Hr. destruct limit_values as (Hmin & Hmax & Hvmin & Hvmax). cbv zeta.
  rewrite (ltb_scaled 53 1024), (leb_scaled 53 1024), Hvmin, Hvmax by done.
  assert (HU : 0 < 2 ^ 1074) by (clear; apply Z.pow_pos_nonneg; lia).
  assert (Hrange : - 2 ^ 63 * 2 ^ 1074 <= i * 2 ^ 1074 < 2 ^ 63 * 2 ^ 1074).
  { unfold is_sint in Hi. revert HU Hi. generalize (2 ^ 1074). clear. intros; nia. }
  assert (Hf : is_finite r \/ double_value r < - 2 ^ 63 * 2 ^ 1074 \/ 2 ^ 63 * 2 ^ 1074 <= double_value r).
  { destruct Hr as [_ Hn]. destruct r as [s|s| |s m e]; [by left| |done|by left]. right. destruct s; [left|right]; by vm_compute. }
  unfold exact_order. destruct (Z.ltb_spec (double_value r) (- 2 ^ 63 * 2 ^ 1074)); [symmetry; apply Z.sgn_pos_iff; lia|].
  destruct (Z.leb_spec (2 ^ 63 * 2 ^ 1074) (double_value r)); [symmetry; apply Z.sgn_neg_iff; lia|].
  assert (Hfin : is_finite r) by (destruct Hf as [|[|]]; [done|lia|lia]).
  destruct (quot_order (2 ^ 1074) (double_value r) HU) as [Hlt Hgt]. rewrite <- truncated_spec in Hlt, Hgt by done.
  destruct (Z.ltb_spec i (truncated r)) as [Hy|Hy]; [symmetry; apply Z.sgn_neg_iff; specialize (Hlt Hy); lia|].
  destruct (Z.ltb_spec (truncated r) i) as [Hy'|Hy']; [symmetry; apply Z.sgn_pos_iff; specialize (Hgt Hy'); lia|].
  assert (Heq : i = truncated r) by lia. destruct (of_int_truncated r Hr Hfin) as [Hx Hvx]. rewrite <- Heq in Hx, Hvx.
  by rewrite !(ltb_scaled 53 1024), less_greater_sgn, Hvx by done.
Qed.
End exact.

Lemma int_float_exact bUseLongDouble i r : is_sint 64 i -> is_double r ->
  sqlite3IntFloatCompare bUseLongDouble i r = exact_order i r.
Proof.
  intros Hi Hr. unfold sqlite3IntFloatCompare. destruct (is_nan r) eqn:Hn.
  { destruct Hr as [_ Hr]. by destruct r. }
  destruct bUseLongDouble; cbv zeta; [by apply long_compare|by apply short_compare].
Qed.

(** C31: an integer and a double compared.  Whichever way the library is configured, through a long
    double or through the integral part, the result is the order of the two values, with no rounding:
    a double stands for [double_value] units of 2^-1074 and an infinity is beyond every integer. *)
Theorem int_float_compare_exact bUseLongDouble i x : is_sint 64 i -> is_uint 64 x ->
  sqlite3IntFloatCompare bUseLongDouble i (double_of_bits x) = if IsNaN x then 1 else exact_order i (double_of_bits x).
Proof.
  intros Hi Hx. rewrite IsNaN_spec. destruct (double_of_bits_number x Hx) as [->|Hr]; [done|].
  rewrite int_float_exact by done. destruct Hr as [_ Hr]. by destruct (double_of_bits x).
Qed.

(** 2^53 + 1 is above the double 2^53, to which it rounds. *)
Lemma int_float_compare_exact_witness :
  sqlite3IntFloatCompare false (2 ^ 53 + 1) (double_of_bits 0x4340000000000000) = 1.
Proof.
  rewrite int_float_compare_exact; [vm_compute; reflexivity|unfold is_sint; lia|unfold is_uint; lia].
Defined.

(** ** Texts and blobs *)

Lemma memcmp_spec n z1 z2 : (n <= length z1)%nat -> (n <= length z2)%nat ->
  exists c, memcmp n z1 z2 = Some c /\ lex z1 z2 = if c =? 0 then lex (drop n z1) (drop n z2) else Z.sgn c.
Proof.
  revert z1 z2. induction n as [|n IH]; intros z1 z2 H1 H2; [by exists 0|].
  destruct z1 as [|x z1], z2 as [|y z2]; cbn [length] in *; try lia. cbn [memcmp lex drop].
  destruct (Z.eqb_spec x y) as [->|]; [apply IH; lia|]. exists (x - y). split; [done|]. by rewrite (proj2 (Z.eqb_neq _ _)) by lia.
Qed.

(** The comparison of the bytes both have, and then of the lengths. *)
Lemma memcmp_lex n z1 z2 : n = Z.to_nat (if size z2 <? size z1 then size z2 else size z1) ->
  exists c, memcmp n z1 z2 = Some c /\ Z.sgn (if negb (c =? 0) then c else size z1 - size z2) = lex z1 z2.
Proof.
  intros ->. unfold size. destruct (memcmp_spec (Z.to_nat (if Z.of_nat (length z2) <? Z.of_nat (length z1) then Z.of_nat (length z2) else Z.of_nat (length z1))) z1 z2)
    as (c & Hc & ->); [destruct (Z.ltb_spec (Z.of_nat (length z2)) (Z.of_nat (length z1))); lia..|].
  exists c. split; [done|]. destruct (Z.eqb_spec c 0) as [->|]; cbn [negb]; [|done].
  destruct (Z.ltb_spec (Z.of_nat (length z2)) (Z.of_nat (length z1))); rewrite Nat2Z.id, drop_all.
  - destruct (drop (length z2) z1) eqn:E; [apply (f_equal length) in E; rewrite length_drop in E; cbn in E; lia|cbn; lia].
  - destruct (drop (length z1) z2) eqn:E; apply (f_equal length) in E; rewrite length_drop in E; cbn [lex length] in *; lia.
Qed.

(** Zeros against the bytes of a blob. *)
Lemma lex_zeros n z : 0 <= n -> Forall is_byte z -> lex (zeros n) z = if isAllZero z then Z.sgn (n - size z) else -1.
Proof.
  intros Hn Hz. unfold zeros. rewrite <- (Z2Nat.id n Hn) at 2. generalize (Z.to_nat n). clear n Hn. unfold size.
  induction Hz as [|c z Hc Hz IH]; intros n; cbn [isAllZero forallb]; [destruct n; cbn; lia|].
  fold (isAllZero z). destruct n as [|n]; cbn [replicate lex].
  { destruct (_ && _); cbn [length]; lia. }
  destruct (Z.eqb_spec c 0) as [->|Hne]; cbn [Z.eqb andb].
  - rewrite IH. destruct (isAllZero z); [|done]. f_equal. cbn [length]. lia.
  - destruct c as [|c|c]; [done|done|]. unfold is_byte, is_uint in Hc. lia.
Qed.

(** The bytes a blob stands for. *)
Definition expanded (z : list Z) (nZero : option Z) : list Z := z ++ zeros (default 0 nZero).
(** A blob as it is compared: it has bytes or a number of zeros, not both. *)
Definition blob_ok (z : list Z) (nZero : option Z) : Prop :=
  Forall is_byte z /\ match nZero with Some n => z = [] /\ 0 <= n | None => True end.

Lemma zeros_lex n m : 0 <= n -> 0 <= m -> lex (zeros n) (zeros m) = Z.sgn (n - m).
Proof.
  intros Hn Hm. rewrite lex_zeros, size_zeros by (try done; by apply Forall_replicate).
  assert (Hall : isAllZero (zeros m) = true); [|by rewrite Hall].
  unfold isAllZero, zeros. apply forallb_forall. intros x Hx%list_elem_of_In. by apply elem_of_replicate in Hx as [-> _].
Qed.

Lemma blob_compare_lex z1 nZero1 z2 nZero2 : blob_ok z1 nZero1 -> blob_ok z2 nZero2 ->
  exists c, sqlite3BlobCompare z1 nZero1 z2 nZero2 = Some c /\ Z.sgn c = lex (expanded z1 nZero1) (expanded z2 nZero2).
Proof.
  intros [H1 Hn1] [H2 Hn2]. unfold sqlite3BlobCompare, expanded. destruct nZero1 as [n1|], nZero2 as [n2|]; cbn [default from_option id].
  - destruct Hn1 as [-> Hn1], Hn2 as [-> Hn2]. eexists. split; [done|]. cbn [app]. by rewrite zeros_lex.
  - destruct Hn1 as [-> Hn1]. eexists. split; [done|]. rewrite app_nil_r. cbn [app]. rewrite lex_zeros by done. by destruct (isAllZero z2).
  - destruct Hn2 as [-> Hn2]. eexists. split; [done|]. rewrite app_nil_r. cbn [app].
    pose proof (ordering_sym (f := lex) (zeros n2) z1 I I) as Hsym. rewrite lex_zeros in Hsym by done.
    assert (Hl : Z.sgn (lex z1 (zeros n2)) = lex z1 (zeros n2)) by apply lex_sgn. rewrite <- Hl, Hsym.
    destruct (isAllZero z1); cbn [negb]; lia.
  - rewrite !app_nil_r. destruct (memcmp_lex _ z1 z2 eq_refl) as (c & -> & Hc). rewrite bind_Some. by eexists.
Qed.

(** ** Values *)

(** A value that is compared: a number is one, and a blob has no bytes before zeros. *)
Definition mem_ok (m : mem) : Prop :=
  match m with
  | Mem_null _ => True
  | Mem_int i | Mem_intreal i => is_sint 64 i
  | Mem_real r => is_uint 64 r /\ IsNaN r = false
  | Mem_str z => Forall is_byte z
  | Mem_blob z nZero => blob_ok z nZero
  end.

Definition rank (m : mem) : Z :=
  match m with Mem_null _ => 0 | Mem_int _ | Mem_intreal _ | Mem_real _ => 1 | Mem_str _ => 2 | Mem_blob _ _ => 3 end.
(** The value of a number, in units of 2^-1074. *)
Definition number_value (m : mem) : Z :=
  match m with
  | Mem_int i | Mem_intreal i => i * 2 ^ 1074
  | Mem_real r => double_value (double_of_bits r)
  | _ => 0
  end.

(** The order of two values. *)
Definition value_order (pColl : option coll) (v w : mem) : Z :=
  match v, w with
  | Mem_str z1, Mem_str z2 => match pColl with Some xCmp => xCmp z1 z2 | None => lex z1 z2 end
  | Mem_blob z1 nZero1, Mem_blob z2 nZero2 => lex (expanded z1 nZero1) (expanded z2 nZero2)
  | _, _ => if rank v =? rank w then number_value v - number_value w else rank v - rank w
  end.

Lemma mem_compare_order bUseLongDouble pColl v w : mem_ok v -> mem_ok w ->
  exists c, sqlite3MemCompare bUseLongDouble v w pColl = Some c /\ Z.sgn c = Z.sgn (value_order pColl v w).
Proof.
  assert (Hdouble : forall r, is_uint 64 r /\ IsNaN r = false -> is_double (double_of_bits r)).
  { intros r [Hr Hn]. destruct (double_of_bits_number r Hr) as [Hd|]; [|done]. by rewrite IsNaN_spec, Hd in Hn. }
  assert (HU : 0 < 2 ^ 1074) by (clear; apply Z.pow_pos_nonneg; lia).
  intros Hv Hw. destruct v as [|i|i|r|z|z n], w as [|i'|i'|r'|z'|z' n']; cbn [mem_ok] in *; cbn [sqlite3MemCompare value_order rank Z.eqb];
    try (eexists; split; [done|done]).
  all: try (eexists; split; [done|]; rewrite less_greater_sgn, Z.sgn_sgn; symmetry; by apply sgn_scale).
  all: try (rewrite int_float_exact by auto; eexists; split; [done|]; unfold exact_order; cbn [Pos.eqb number_value]; lia).
  - rewrite !(ltb_scaled 53 1024), less_greater_sgn by auto. eexists. split; [done|]. cbn [Pos.eqb number_value]. lia.
  - destruct pColl as [xCmp|]; [by eexists|]. destruct (blob_compare_lex z None z' None) as (c & -> & Hc); [done..|].
    unfold expanded in Hc. rewrite !app_nil_r in Hc. exists c. by rewrite Hc, lex_sgn.
  - destruct (blob_compare_lex z n z' n') as (c & -> & Hc); [done..|]. exists c. by rewrite Hc, lex_sgn.
Qed.

(** A collating sequence orders texts. *)
Definition collates (pColl : option coll) : Prop := match pColl with Some xCmp => Ordering (Forall is_byte) xCmp | None => True end.

#[export] Instance value_ordering pColl : collates pColl -> Ordering mem_ok (value_order pColl).
Proof.
  intros Hc. assert (HxCmp : forall xCmp, pColl = Some xCmp -> Ordering (Forall is_byte) xCmp) by (by intros xCmp ->). constructor.
  - intros v w Hv Hw. unfold value_order. destruct v as [|i|i|r|z|z n], w as [|i'|i'|r'|z'|z' n']; cbn [mem_ok rank Z.eqb Pos.eqb] in *; try lia.
    + destruct pColl as [xCmp|]; [by apply (@ordering_sym _ _ _ (HxCmp xCmp eq_refl))|by apply (ordering_sym (f := lex))].
    + by apply (ordering_sym (f := lex)).
  - intros u v w Hu Hv Hw. unfold value_order.
    destruct u as [|i|i|r|z|z n], v as [|i'|i'|r'|z'|z' n'], w as [|i2|i2|r2|z2|z2 n2]; cbn [mem_ok rank Z.eqb Pos.eqb] in *; try lia.
    + destruct pColl as [xCmp|]; [by eapply (@ordering_trans _ _ _ (HxCmp xCmp eq_refl))|by eapply (ordering_trans (f := lex))].
    + by eapply (ordering_trans (f := lex)).
Qed.

#[export] Instance ordering_map {A B} (g : A -> B) (P : A -> Prop) f : Ordering (fun _ => True) f -> Ordering P (fun a b => f (g a) (g b)).
Proof. intros Hf. constructor; intros; [by apply (@ordering_sym _ _ _ Hf)|by eapply (@ordering_trans _ _ _ Hf)]. Qed.

Lemma sgn_nonpos_of x y : Z.sgn x = Z.sgn y -> y <= 0 -> x <= 0.
Proof. intros. lia. Qed.
Lemma sgn_neg_of x y : Z.sgn x = Z.sgn y -> y < 0 -> x < 0.
Proof. intros. lia. Qed.

(** C30: values are in order. For a collating sequence that orders texts, or none, the comparison of
    two values has the sign of [value_order]: nulls, numbers by their exact values, texts, blobs by
    all their bytes.  It is a total preorder: exchanging the values exchanges the sign, and it is
    transitive, also between integers and doubles. *)
Theorem mem_compare_total_preorder bUseLongDouble pColl u v w : collates pColl -> mem_ok u -> mem_ok v -> mem_ok w ->
  exists uv vu vw uw,
    sqlite3MemCompare bUseLongDouble u v pColl = Some uv /\ sqlite3MemCompare bUseLongDouble v u pColl = Some vu /\
    sqlite3MemCompare bUseLongDouble v w pColl = Some vw /\ sqlite3MemCompare bUseLongDouble u w pColl = Some uw /\
    Z.sgn uv = Z.sgn (value_order pColl u v) /\ (rank u < rank v -> uv < 0) /\
    Z.sgn vu = - Z.sgn uv /\ (uv <= 0 -> vw <= 0 -> uw <= 0).
Proof.
  intros Hc Hu Hv Hw. pose proof (value_ordering pColl Hc) as Hord.
  destruct (mem_compare_order bUseLongDouble pColl u v) as (uv & Huv & Suv), (mem_compare_order bUseLongDouble pColl v u) as (vu & Hvu & Svu),
    (mem_compare_order bUseLongDouble pColl v w) as (vw & Hvw & Svw), (mem_compare_order bUseLongDouble pColl u w) as (uw & Huw & Suw); try done.
  exists uv, vu, vw, uw. split; [done|]. split; [done|]. split; [done|]. split; [done|]. split; [done|].
  pose proof (ordering_sym u v Hu Hv) as Hsym. pose proof (ordering_trans u v w Hu Hv Hw) as Htrans.
  assert (Hrank : rank u < rank v -> value_order pColl u v < 0)
    by (clear; intros Hr; destruct u, v; cbn [rank value_order Z.eqb Pos.eqb] in *; lia).
  split; [intros Hr; by apply (sgn_neg_of _ _ Suv), Hrank|]. split; [by rewrite Svu, Suv|].
  intros Huv0 Hvw0. apply (sgn_nonpos_of _ _ Suw), Htrans; [by apply (sgn_nonpos_of _ uv)|by apply (sgn_nonpos_of _ vw)].
Qed.

(** Texts compared from their ends; 2^53 + 1 and the doubles next to it. *)
Lemma mem_compare_total_preorder_witness : let pColl := Some (fun z1 z2 => lex (rev z1) (rev z2)) in
  exists uv, sqlite3MemCompare false (Mem_str [98; 97]) (Mem_str [97; 98]) pColl = Some uv /\ uv < 0 /\
  exists uv, sqlite3MemCompare false (Mem_int (2 ^ 53 + 1)) (Mem_real 0x4340000000000001) pColl = Some uv /\ uv < 0.
Proof.
  intros pColl. assert (Hc : collates pColl) by (cbn; apply _).
  destruct (mem_compare_total_preorder false pColl (Mem_str [98; 97]) (Mem_str [97; 98]) (Mem_str []) Hc)
    as (uv & _ & _ & _ & Huv & _ & _ & _ & Suv & _);
    [cbn; rewrite !Forall_cons; unfold is_byte, is_uint; split_and!; try done; lia..|by cbn|].
  exists uv. split; [exact Huv|]. split; [apply (sgn_neg_of _ _ Suv); vm_compute; reflexivity|].
  destruct (mem_compare_total_preorder false pColl (Mem_int (2 ^ 53 + 1)) (Mem_real 0x4340000000000001) (Mem_null false) Hc)
    as (uv' & _ & _ & _ & Huv' & _ & _ & _ & Suv' & _);
    [cbn; unfold is_sint; lia|cbn; unfold is_uint; split; [lia|reflexivity]|done|].
  exists uv'. split; [exact Huv'|]. apply (sgn_neg_of _ _ Suv'). vm_compute. reflexivity.
Defined.
