(* ===== verification/RecordCompare.v ===== *)
(** * RecordCompare: finding a key in an index of SQLite

    sqlite3.c, vdbeaux.c part: a record, as bytes, compared with a key that has been taken apart.
    [sqlite3VdbeRecordCompareWithSkip] reads the values of the record one by one and decodes only
    what a comparison needs; [vdbeRecordCompareInt] and [vdbeRecordCompareString] are faster for
    keys that begin with an integer or a text, and [vdbeRecordCompareDebug] is the definition that
    the assertions of the code compare them with.  A pointer into the record is an offset in the
    memory from the record on; [None] is a read past that memory or past the arrays of the key. *)

From S2P Require Export Compare.

(** ** Keys *)

Record KeyInfo := mkKeyInfo { nAllField : Z; aSortFlags : list Z; aColl : list (option coll) }.
Definition KEYINFO_ORDER_DESC : Z := 0x01.
Definition KEYINFO_ORDER_BIGNULL : Z := 0x02.

(** The union [u] with [n]. *)
Inductive cache := U_none | U_i (i : Z) | U_z (z : list Z) (n : Z).

Record UnpackedRecord := mkUnpacked {
  pKeyInfo : KeyInfo; aMem : list mem; nField : nat; default_rc : Z; r1 : Z; r2 : Z; u : cache; errCode : Z; eqSeen : bool }.

Definition SQLITE_CORRUPT : Z := 11.
Definition set_corrupt (p : UnpackedRecord) : UnpackedRecord :=
  mkUnpacked (pKeyInfo p) (aMem p) (nField p) (default_rc p) (r1 p) (r2 p) (u p) SQLITE_CORRUPT (eqSeen p).
Definition set_eqSeen (p : UnpackedRecord) : UnpackedRecord :=
  mkUnpacked (pKeyInfo p) (aMem p) (nField p) (default_rc p) (r1 p) (r2 p) (u p) (errCode p) true.
Definition set_results (a b : Z) (c : cache) (p : UnpackedRecord) : UnpackedRecord :=
  mkUnpacked (pKeyInfo p) (aMem p) (nField p) (default_rc p) a b c (errCode p) (eqSeen p).

(** The memory from an offset on. *)
Definition from (d : Z) (aKey1 : list Z) : list Z := drop (Z.to_nat d) aKey1.

(** The [n] bytes at the beginning of it: there must be as many. *)
Definition bytes (n : Z) (z : list Z) : option (list Z) :=
  if n <=? size z then Some (take (Z.to_nat n) z) else None.

(** ** Values of a record *)

(** A real number, and whether it is not one. *)
Definition serialGet7 (buf : list Z) : option (bool * Z) :=
  match buf with
  | x0 :: x1 :: x2 :: x3 :: x4 :: x5 :: x6 :: x7 :: _ =>
    let x := u64 (u64 (Z.shiftl (FOUR_BYTE_UINT x0 x1 x2 x3) 32) + FOUR_BYTE_UINT x4 x5 x6 x7) in
    Some (IsNaN x, x)
  | _ => None
  end.

Definition vdbeRecordDecodeInt (serial_type : Z) (aKey : list Z) : option Z :=
  if (serial_type =? 0) || (serial_type =? 1) then
    match aKey with x0 :: _ => Some (ONE_BYTE_INT x0) | _ => None end
  else if serial_type =? 2 then
    match aKey with x0 :: x1 :: _ => Some (TWO_BYTE_INT x0 x1) | _ => None end
  else if serial_type =? 3 then
    match aKey with x0 :: x1 :: x2 :: _ => Some (THREE_BYTE_INT x0 x1 x2) | _ => None end
  else if serial_type =? 4 then
    match aKey with x0 :: x1 :: x2 :: x3 :: _ => Some (i32 (FOUR_BYTE_UINT x0 x1 x2 x3)) | _ => None end
  else if serial_type =? 5 then
    match aKey with
    | x0 :: x1 :: x2 :: x3 :: x4 :: x5 :: _ => Some (FOUR_BYTE_UINT x2 x3 x4 x5 + Z.shiftl 1 32 * TWO_BYTE_INT x0 x1)
    | _ => None
    end
  else if serial_type =? 6 then
    match aKey with
    | x0 :: x1 :: x2 :: x3 :: x4 :: x5 :: x6 :: x7 :: _ =>
      Some (i64 (Z.lor (u64 (Z.shiftl (FOUR_BYTE_UINT x0 x1 x2 x3) 32)) (FOUR_BYTE_UINT x4 x5 x6 x7)))
    | _ => None
    end
  else Some (u32 (serial_type - 8)).

(** ** The general comparison *)

Section compare.
Context (bUseLongDouble : bool).

(** One value: [rc] and the serial type, or a record that is corrupt. *)
Inductive compared := Compared (rc serial_type : Z) | Corrupt.

Definition is_null (m : mem) : bool := match m with Mem_null _ => true | _ => false end.

Definition compare_int (i : Z) (aKey1 : list Z) (idx1 d1 : Z) : option compared :=
  serial_type ← aKey1 !! Z.to_nat idx1;
  rc ← (if 10 <=? serial_type then Some (if serial_type =? 10 then -1 else 1)
        else if serial_type =? 0 then Some (-1)
        else if serial_type =? 7 then
          '(_, x) ← serialGet7 (from d1 aKey1);
          Some (- sqlite3IntFloatCompare bUseLongDouble i (double_of_bits x))
        else
          lhs ← vdbeRecordDecodeInt serial_type (from d1 aKey1);
          Some (less_greater (lhs <? i) (i <? lhs)));
  Some (Compared rc serial_type).

Definition compare_real (r : Z) (aKey1 : list Z) (idx1 d1 : Z) : option compared :=
  serial_type ← aKey1 !! Z.to_nat idx1;
  rc ← (if 10 <=? serial_type then Some (if serial_type =? 10 then -1 else 1)
        else if serial_type =? 0 then Some (-1)
        else if serial_type =? 7 then
          '(nan, x) ← serialGet7 (from d1 aKey1);
          let a := double_of_bits x in
          let b := double_of_bits r in
          Some (if nan : bool then -1 else less_greater (SFltb a b) (SFltb b a))
        else
          m ← sqlite3VdbeSerialGet (from d1 aKey1) serial_type;
          match m with
          | Mem_int i => Some (sqlite3IntFloatCompare bUseLongDouble i (double_of_bits r))
          | _ => None
          end);
  Some (Compared rc serial_type).

Definition compare_str (z : list Z) (k : KeyInfo) (i : nat) (nKey1 : Z) (aKey1 : list Z) (idx1 d1 : Z) : option compared :=
  '(_, serial_type) ← getVarint32 (from idx1 aKey1);
  if serial_type <? 12 then Some (Compared (-1) serial_type)
  else if Z.land serial_type 0x01 =? 0 then Some (Compared 1 serial_type)
  else
    let n := (serial_type - 12) / 2 in
    if (nKey1 <? u32 (d1 + n)) || (nAllField k <=? Z.of_nat i) then Some Corrupt
    else
      pColl ← aColl k !! i;
      match pColl with
      | Some xCmp =>
        z1 ← bytes n (from d1 aKey1);
        Some (Compared (xCmp z1 z) serial_type)
      | None =>
        rc ← memcmp (Z.to_nat (if n <? size z then n else size z)) (from d1 aKey1) z;
        Some (Compared (if rc =? 0 then n - size z else rc) serial_type)
      end.

Definition compare_blob (z : list Z) (nZero : option Z) (nKey1 : Z) (aKey1 : list Z) (idx1 d1 : Z) : option compared :=
  '(_, serial_type) ← getVarint32 (from idx1 aKey1);
  if (serial_type <? 12) || negb (Z.land serial_type 0x01 =? 0) then Some (Compared (-1) serial_type)
  else
    let nStr := (serial_type - 12) / 2 in
    if nKey1 <? u32 (d1 + nStr) then Some Corrupt
    else
      match nZero with
      | Some nZero =>
        z1 ← bytes nStr (from d1 aKey1);
        Some (Compared (if negb (isAllZero z1) then 1 else nStr - nZero) serial_type)
      | None =>
        rc ← memcmp (Z.to_nat (if nStr <? size z then nStr else size z)) (from d1 aKey1) z;
        Some (Compared (if rc =? 0 then nStr - size z else rc) serial_type)
      end.

Definition compare_null (aKey1 : list Z) (idx1 d1 : Z) : option compared :=
  serial_type ← aKey1 !! Z.to_nat idx1;
  null ← (if (serial_type =? 0) || (serial_type =? 10) then Some true
          else if serial_type =? 7 then '(nan, _) ← serialGet7 (from d1 aKey1); Some (nan : bool) else Some false);
  Some (Compared (if null : bool then 0 else 1) serial_type).

Definition compare_value (pRhs : mem) (k : KeyInfo) (i : nat) (nKey1 : Z) (aKey1 : list Z) (idx1 d1 : Z) : option compared :=
  match pRhs with
  | Mem_int v | Mem_intreal v => compare_int v aKey1 idx1 d1
  | Mem_real r => compare_real r aKey1 idx1 d1
  | Mem_str z => compare_str z k i nKey1 aKey1 idx1 d1
  | Mem_blob z nZero => compare_blob z nZero nKey1 aKey1 idx1 d1
  | Mem_null _ => compare_null aKey1 idx1 d1
  end.

(** The result in the order of the column. *)
Definition in_order (sortFlags rc serial_type : Z) (pRhs : mem) : Z :=
  if negb (sortFlags =? 0) &&
     ((Z.land sortFlags KEYINFO_ORDER_BIGNULL =? 0) ||
      negb (Z.land sortFlags KEYINFO_ORDER_DESC =? c_bool ((serial_type =? 0) || is_null pRhs)))
  then - rc else rc.

(** The loop; [fields] are the values of the key from [pRhs] on, the [i]-th. *)
Fixpoint compare_loop (fields : list mem) (i : nat) (nKey1 : Z) (aKey1 : list Z) (szHdr1 idx1 d1 : Z) (p : UnpackedRecord) :
    option (Z * UnpackedRecord) :=
  match fields with
  | [] => None
  | pRhs :: fields =>
    c ← compare_value pRhs (pKeyInfo p) i nKey1 aKey1 idx1 d1;
    match c with
    | Corrupt => Some (0, set_corrupt p)
    | Compared rc serial_type =>
      if negb (rc =? 0) then
        sortFlags ← aSortFlags (pKeyInfo p) !! i;
        Some (in_order sortFlags rc serial_type pRhs, p)
      else if (S i =? nField p)%nat then Some (default_rc p, set_eqSeen p)
      else
        len ← sqlite3VdbeSerialTypeLen serial_type;
        let d1 := u32 (d1 + len) in
        if nKey1 <? d1 then Some (default_rc p, set_eqSeen p)
        else
          let idx1 := u32 (idx1 + sqlite3VarintLen serial_type) in
          if szHdr1 <=? idx1 then Some (0, set_corrupt p)
          else compare_loop fields (S i) nKey1 aKey1 szHdr1 idx1 d1 p
    end
  end.

Definition sqlite3VdbeRecordCompareWithSkip (nKey1 : Z) (aKey1 : list Z) (p : UnpackedRecord) (bSkip : bool) :
    option (Z * UnpackedRecord) :=
  '(szHdr1, idx1, d1) ← (if bSkip then
      s1 ← aKey1 !! 1%nat;
      '(idx1, s1) ← (if s1 <? 0x80 then Some (2, s1) else '(n, s1) ← sqlite3GetVarint32 (from 1 aKey1); Some (1 + n, s1));
      szHdr1 ← aKey1 !! 0%nat;
      len ← sqlite3VdbeSerialTypeLen s1;
      Some (szHdr1, idx1, u32 (szHdr1 + len))
    else
      szHdr1 ← aKey1 !! 0%nat;
      '(idx1, szHdr1) ← (if szHdr1 <? 0x80 then Some (1, szHdr1) else sqlite3GetVarint32 aKey1);
      Some (szHdr1, idx1, szHdr1));
  let i := if bSkip then 1%nat else 0%nat in
  if nKey1 <? d1 then Some (0, set_corrupt p)
  else compare_loop (drop i (aMem p)) i nKey1 aKey1 szHdr1 idx1 d1 p.

Definition sqlite3VdbeRecordCompare (nKey1 : Z) (aKey1 : list Z) (p : UnpackedRecord) : option (Z * UnpackedRecord) :=
  sqlite3VdbeRecordCompareWithSkip nKey1 aKey1 p false.

(** ** The fast comparisons *)

(** When the first values are equal. *)
Definition first_equal (nKey1 : Z) (aKey1 : list Z) (p : UnpackedRecord) : option (Z * UnpackedRecord) :=
  if (1 <? nField p)%nat then sqlite3VdbeRecordCompareWithSkip nKey1 aKey1 p true else Some (default_rc p, set_eqSeen p).

(** The cases of its [switch] that decode an integer are those of [vdbeRecordDecodeInt]. *)
Definition vdbeRecordCompareInt (nKey1 : Z) (pKey1 : list Z) (p : UnpackedRecord) : option (Z * UnpackedRecord) :=
  k0 ← pKey1 !! 0%nat;
  let aKey := from (Z.land k0 0x3F) pKey1 in
  serial_type ← pKey1 !! 1%nat;
  if ((1 <=? serial_type) && (serial_type <=? 6)) || (serial_type =? 8) || (serial_type =? 9) then
    lhs ← vdbeRecordDecodeInt serial_type aKey;
    match u p with
    | U_i v => if lhs <? v then Some (r1 p, p) else if v <? lhs then Some (r2 p, p) else first_equal nKey1 pKey1 p
    | _ => None
    end
  else sqlite3VdbeRecordCompare nKey1 pKey1 p.

(** From [vrcs_restart], when the serial type is at least 12. *)
Definition compare_first_str (serial_type nKey1 : Z) (aKey1 : list Z) (p : UnpackedRecord) : option (Z * UnpackedRecord) :=
  if Z.land serial_type 0x01 =? 0 then Some (r2 p, p)
  else
    szHdr ← aKey1 !! 0%nat;
    let nStr := Z.quot (serial_type - 12) 2 in
    if nKey1 <? szHdr + nStr then Some (0, set_corrupt p)
    else
      match u p with
      | U_z z n =>
        res ← memcmp (Z.to_nat (if n <? nStr then n else nStr)) (from szHdr aKey1) z;
        if 0 <? res then Some (r2 p, p)
        else if res <? 0 then Some (r1 p, p)
        else
          let res := nStr - n in
          if res =? 0 then first_equal nKey1 aKey1 p else if 0 <? res then Some (r2 p, p) else Some (r1 p, p)
      | _ => None
      end.

Definition vdbeRecordCompareString (nKey1 : Z) (aKey1 : list Z) (p : UnpackedRecord) : option (Z * UnpackedRecord) :=
  t ← aKey1 !! 1%nat;
  let serial_type := i8 t in
  if serial_type <? 12 then
    if serial_type <? 0 then
      '(_, t) ← sqlite3GetVarint32 (from 1 aKey1);
      let serial_type := i32 t in
      if 12 <=? serial_type then compare_first_str serial_type nKey1 aKey1 p else Some (r1 p, p)
    else Some (r1 p, p)
  else compare_first_str serial_type nKey1 aKey1 p.

Inductive RecordCompare := Compare_any | Compare_int | Compare_string.

(** The function to call, and the key with the fields it needs. *)
Definition sqlite3VdbeFindCompare (p : UnpackedRecord) : option (RecordCompare * UnpackedRecord) :=
  let k := pKeyInfo p in
  if nAllField k <=? 13 then
    m ← aMem p !! 0%nat;
    f ← aSortFlags k !! 0%nat;
    if negb (f =? 0) && negb (Z.land f KEYINFO_ORDER_BIGNULL =? 0) then Some (Compare_any, p)
    else
      let '(a, b) := if negb (f =? 0) then (1, -1) else (-1, 1) in
      match m with
      | Mem_int i => Some (Compare_int, set_results a b (U_i i) p)
      | Mem_str z =>
        pColl ← aColl k !! 0%nat;
        match pColl with
        | None => Some (Compare_string, set_results a b (U_z z (size z)) p)
        | Some _ => Some (Compare_any, set_results a b (u p) p)
        end
      | _ => Some (Compare_any, set_results a b (u p) p)
      end
  else Some (Compare_any, p).

Definition call (f : RecordCompare) (nKey1 : Z) (aKey1 : list Z) (p : UnpackedRecord) : option (Z * UnpackedRecord) :=
  match f with
  | Compare_any => sqlite3VdbeRecordCompare nKey1 aKey1 p
  | Compare_int => vdbeRecordCompareInt nKey1 aKey1 p
  | Compare_string => vdbeRecordCompareString nKey1 aKey1 p
  end.

(** ** The reference *)

(** What a debugging build compares the result with: the rest of the loop, with the result, or
    [None] for a record too corrupt to say. *)
Definition sorted_result (sortFlags : Z) (null : bool) (rc : Z) : Z :=
  let rc := if negb (Z.land sortFlags KEYINFO_ORDER_BIGNULL =? 0) && null then - rc else rc in
  if negb (Z.land sortFlags KEYINFO_ORDER_DESC =? 0) then - rc else rc.

Fixpoint debug_loop (corrupt_db : bool) (fields : list mem) (i : nat) (nKey1 : Z) (aKey1 : list Z) (szHdr1 idx1 d1 : Z)
    (p : UnpackedRecord) : option (option Z) :=
  match fields with
  | [] => None
  | m2 :: fields =>
    '(n, serial_type1) ← getVarint32 (from idx1 aKey1);
    let idx1 := u32 (idx1 + n) in
    len ← sqlite3VdbeSerialTypeLen serial_type1;
    if (nKey1 <? d1 + serial_type1 + 2) && (nKey1 <? d1 + len) then
      if (1 <=? serial_type1) && (serial_type1 <=? 7) && (d1 + len <=? nKey1 + 8) && corrupt_db then Some None
      else Some (Some (default_rc p))
    else
      mem1 ← sqlite3VdbeSerialGet (from d1 aKey1) serial_type1;
      let d1 := u32 (d1 + len) in
      pColl ← (if Z.of_nat i <? nAllField (pKeyInfo p) then aColl (pKeyInfo p) !! i else Some None);
      rc ← sqlite3MemCompare bUseLongDouble mem1 m2 pColl;
      if negb (rc =? 0) then
        sortFlags ← aSortFlags (pKeyInfo p) !! i;
        Some (Some (sorted_result sortFlags (is_null mem1 || is_null m2) rc))
      else if (idx1 <? szHdr1) && (S i <? nField p)%nat then debug_loop corrupt_db fields (S i) nKey1 aKey1 szHdr1 idx1 d1 p
      else Some (Some (default_rc p))
  end.

Definition vdbeRecordCompareDebug (db corrupt_db mallocFailed : bool) (nKey1 : Z) (aKey1 : list Z) (p : UnpackedRecord) (desiredResult : Z) :
    option bool :=
  if negb db then Some true
  else
    '(idx1, szHdr1) ← getVarint32 aKey1;
    if 98307 <? szHdr1 then Some true
    else
      r ← debug_loop corrupt_db (aMem p) 0 nKey1 aKey1 szHdr1 idx1 szHdr1 p;
      Some (match r with
        | None => true
        | Some rc =>
          ((desiredResult =? 0) && (rc =? 0)) || ((desiredResult <? 0) && (rc <? 0)) || ((0 <? desiredResult) && (0 <? rc)) ||
          corrupt_db || mallocFailed
        end).

(** The order of two rows of values by a key: the first difference, in the order of its column. *)
Definition field_order (k : KeyInfo) (i : nat) (v w : mem) : option Z :=
  pColl ← aColl k !! i;
  rc ← sqlite3MemCompare bUseLongDouble v w pColl;
  sortFlags ← aSortFlags k !! i;
  Some (sorted_result sortFlags (is_null v || is_null w) rc).

Fixpoint record_order (k : KeyInfo) (i : nat) (vs ws : list mem) : option Z :=
  match vs, ws with
  | v :: vs, w :: ws =>
    rc ← field_order k i v w;
    if rc =? 0 then record_order k (S i) vs ws else Some rc
  | _, _ => Some 0
  end.

(** ** Well-formed keys *)

(** A key has [nField] values at least one, each with a collating sequence and sort flags. *)
Record key_ok (p : UnpackedRecord) : Prop := {
  key_fields : (0 < nField p <= length (aMem p))%nat;
  key_all : Z.of_nat (nField p) <= nAllField (pKeyInfo p);
  key_colls i : (i < nField p)%nat -> is_Some (aColl (pKeyInfo p) !! i);
  key_flags i : (i < nField p)%nat -> exists f, aSortFlags (pKeyInfo p) !! i = Some f /\ 0 <= f < 4
}.

Lemma in_order_sorted f rc t v w : 0 <= f < 4 -> (t =? 0) = is_null v ->
  in_order f rc t w = sorted_result f (is_null v || is_null w) rc.
Proof.
  intros Hf Ht. unfold in_order, sorted_result, KEYINFO_ORDER_BIGNULL, KEYINFO_ORDER_DESC. rewrite Ht.
  assert (f = 0 \/ f = 1 \/ f = 2 \/ f = 3) as [-> |[-> |[-> | ->]]] by lia; destruct (is_null v || is_null w); lazy -[Z.opp]; lia.
Qed.

Lemma sorted_result_zero f null rc : sorted_result f null rc = 0 <-> rc = 0.
Proof. unfold sorted_result. destruct (_ && _), (negb _); lia. Qed.

(** ** The values of a placed row *)

(** A value an index holds: a real number is one, and nothing is an unchanged column. *)
Definition indexed (m : mem) : Prop :=
  match m with Mem_null nochng => nochng = false | Mem_real r => IsNaN r = false | _ => True end.

(** The integer behind the bytes. *)
Lemma i32_big_endian x0 x1 x2 x3 : is_byte x0 -> is_byte x1 -> is_byte x2 -> is_byte x3 ->
  i32 (FOUR_BYTE_UINT x0 x1 x2 x3) = FOUR_BYTE_INT x0 x1 x2 x3.
Proof.
  intros H0 H1 H2 H3. rewrite four_byte_uint, four_byte_int, i8_cases by done. unfold big_endian. cbn [fold_left].
  apply byte_range in H0, H1, H2, H3. unfold i32, swrap. change (2 ^ (32 - 1)) with 2147483648. change (2 ^ 32) with 4294967296.
  destruct (Z.ltb_spec x0 128); Z.to_euclidean_division_equations; lia.
Qed.

Lemma two_words a b : is_uint 32 a -> is_uint 32 b -> Z.lor (u64 (Z.shiftl a 32)) b = u64 (u64 (Z.shiftl a 32) + b).
Proof.
  intros Ha Hb. unfold is_uint in *. rewrite Z.shiftl_mul_pow2 by lia. unfold u64.
  rewrite (wrap_small 64 (a * 2 ^ 32)), wrap_small by (unfold is_uint; lia). by rewrite lor_add.
Qed.

Lemma decode_int t buf i : 1 <= t <= 9 -> t <> 7 -> Forall is_byte buf ->
  sqlite3VdbeSerialGet buf t = Some (Mem_int i) -> vdbeRecordDecodeInt t buf = Some i.
Proof.
  intros Ht H7 Hb. assert (t = 1 \/ t = 2 \/ t = 3 \/ t = 4 \/ t = 5 \/ t = 6 \/ t = 8 \/ t = 9) as Hcases by lia.
  destruct Hcases as [-> |[-> |[-> |[-> |[-> |[-> |[-> | ->]]]]]]]; unfold sqlite3VdbeSerialGet, vdbeRecordDecodeInt, serialGet; cbn [Z.eqb Pos.eqb orb].
  all: repeat match goal with |- match ?l with [] => _ | _ => _ end = Some _ -> _ => destruct l; [done|] end.
  all: rewrite ?Forall_cons in Hb; destruct_and?; try (intros [= <-]; done).
  - rewrite i32_big_endian by done. by intros [= <-].
  - assert (Hw : forall x0 x1 x2 x3, is_byte x0 -> is_byte x1 -> is_byte x2 -> is_byte x3 -> is_uint 32 (FOUR_BYTE_UINT x0 x1 x2 x3)).
    { intros x0 x1 x2 x3 H0' H1' H2' H3'. rewrite four_byte_uint by done.
      apply (big_endian_acc [x0; x1; x2; x3] 0). by rewrite !Forall_cons. }
    rewrite two_words by auto. by intros [= <-].
Qed.

Lemma get7 buf m : sqlite3VdbeSerialGet buf 7 = Some m -> exists nan x, serialGet7 buf = Some (nan, x) /\ m = if nan : bool then Mem_null false else Mem_real x.
Proof.
  unfold sqlite3VdbeSerialGet, serialGet7, serialGet; cbn [Z.eqb Pos.eqb orb].
  repeat match goal with |- match ?l with [] => _ | _ => _ end = Some _ -> _ => destruct l; [done|] end.
  intros [= <-]. by do 2 eexists.
Qed.

(** The first byte of the header of a value. *)
Lemma header_byte t hdr x : 0 <= t < 2 ^ 32 -> sqlite3PutVarint t = Some hdr ->
  exists b, (hdr ++ x) !! 0%nat = Some b /\ if t <? 128 then b = t else 128 <= b.
Proof.
  intros Ht Hput. destruct (Z.ltb_spec t 128) as [Hs|Hs]; [rewrite put_small in Hput by lia; injection Hput as <-; by exists t|].
  destruct (put_varint_spec t) as (l & c & Hput' & Hl & _ & Hv & _); [unfold is_uint; lia|]. rewrite Hput in Hput'. injection Hput' as ->.
  destruct l as [|b l].
  - rewrite decide_False in Hv by done. cbn in Hv. lia.
  - exists b. split; [done|]. apply Forall_cons in Hl as [Hb _]. unfold flagged in Hb. lia.
Qed.

Lemma memcmp_app n z y w : (n <= length z)%nat -> memcmp n (z ++ y) w = memcmp n z w.
Proof.
  revert z w. induction n as [|n IH]; intros z w Hn; [done|]. destruct z as [|a z]; [cbn in Hn; lia|]. destruct w as [|b w]; [done|].
  cbn [memcmp app]. destruct (a =? b); [|done]. apply IH. cbn in Hn. lia.
Qed.

Section rows.
Variable double_bits : Z -> Z.
Hypothesis double_bits_range : forall i, is_uint 64 (double_bits i) /\ IsNaN (double_bits i) = false.
Notation stored := (stored double_bits).
Notation row_placed := (row_placed double_bits).

Definition row_bytes (r : row) : list Z := row_body r ++ zeros (row_zeros r).

(** How a value is found from its serial type. *)
Inductive found : mem -> Z -> list Z -> Prop :=
| found_null : found (Mem_null false) 0 []
| found_int i t z : 1 <= t <= 9 -> t <> 7 -> (forall rest, sqlite3VdbeSerialGet (z ++ rest) t = Some (Mem_int i)) -> found (Mem_int i) t z
| found_real x z : (forall rest, sqlite3VdbeSerialGet (z ++ rest) 7 = Some (Mem_real x)) -> found (Mem_real x) 7 z
| found_contents z t : 12 <= t < 2 ^ 31 -> (t - 12) / 2 = size z -> found (if Z.land t 1 =? 0 then Mem_blob z None else Mem_str z) t z.

Lemma get_number buf t m : 1 <= t <= 9 -> sqlite3VdbeSerialGet buf t = Some m -> if t =? 7 then forall i, m <> Mem_int i else exists i, m = Mem_int i.
Proof.
  intros Ht. assert (t = 1 \/ t = 2 \/ t = 3 \/ t = 4 \/ t = 5 \/ t = 6 \/ t = 7 \/ t = 8 \/ t = 9) as Hcases by lia.
  destruct Hcases as [-> |[-> |[-> |[-> |[-> |[-> |[-> |[-> | ->]]]]]]]]; unfold sqlite3VdbeSerialGet, serialGet; cbn [Z.eqb Pos.eqb orb].
  all: repeat match goal with |- match ?l with [] => _ | _ => _ end = Some _ -> _ => destruct l; [done|] end.
  all: intros [= <-]; try (by eexists). intros i. by destruct (IsNaN _).
Qed.

Lemma row_found r : row_placed r -> indexed (row_value r) -> found (stored (row_value r)) (row_type r) (row_bytes r).
Proof.
  intros [(_ & (_ & Hlen & Hget) & _ & _ & Hz & _) Ht] Hi. unfold row_bytes.
  assert (Hg : forall rest, sqlite3VdbeSerialGet ((row_body r ++ zeros (row_zeros r)) ++ rest) (row_type r) = Some (stored (row_value r)))
    by (intros rest; by rewrite <- app_assoc).
  assert (Hsize : size (row_body r ++ zeros (row_zeros r)) = size (row_body r) + row_zeros r) by (by rewrite size_app, size_zeros).
  rewrite <- Hsize in Hlen. revert Hg Hlen. generalize (row_body r ++ zeros (row_zeros r)). clear Hget Hz Hsize. intros z Hg Hlen.
  assert (Hcontents : 12 <= row_type r < 2 ^ 31 -> found (stored (row_value r)) (row_type r) z).
  { intros Htr. specialize (Hg []). rewrite get_contents, app_nil_r in Hg by lia. rewrite type_len in Hlen by lia. injection Hlen as Hlen.
    rewrite Hlen in Hg. unfold size in Hg. rewrite Nat2Z.id, firstn_all in Hg. cbv zeta in Hg. injection Hg as <-. by constructor. }
  destruct (row_value r) as [b|i|i|x|z'|z' n]; cbn [serial_type_of indexed RecordFormat.stored] in *.
  - subst b. rewrite Ht in *. injection Hlen as Hlen. rewrite (size_nil z) by lia. constructor.
  - destruct Ht. by constructor.
  - destruct (_ <=? 140737488355327).
    + constructor; [done| |done]. intros E. pose proof (get_number _ _ _ Ht (Hg [])) as Hn. rewrite E in Hn. by apply (Hn i).
    + pose proof (get_number _ _ _ Ht (Hg [])) as Hn. destruct (Z.eqb_spec (row_type r) 7) as [E|E]; [|by destruct Hn].
      rewrite E in *. by constructor.
  - rewrite Ht, Hi in *. by constructor.
  - by apply Hcontents.
  - by apply Hcontents.
Qed.
Lemma type_range v t z : found v t z -> 0 <= t < 2 ^ 32.
Proof. destruct 1; lia. Qed.

Lemma found_cases v t z : found v t z ->
  (v = Mem_null false /\ t = 0) \/
  (exists j, v = Mem_int j /\ 1 <= t <= 9 /\ t <> 7 /\ forall rest, sqlite3VdbeSerialGet (z ++ rest) t = Some (Mem_int j)) \/
  (exists r, v = Mem_real r /\ t = 7 /\ forall rest, sqlite3VdbeSerialGet (z ++ rest) 7 = Some (Mem_real r)) \/
  (12 <= t < 2 ^ 31 /\ (t - 12) / 2 = size z /\ v = if Z.land t 1 =? 0 then Mem_blob z None else Mem_str z).
Proof. destruct 1 as [|j|r|]; [by left|right; left; by exists j|do 2 right; left; by exists r|by do 3 right]. Qed.

Lemma found_null_type v t z : found v t z -> (t =? 0) = is_null v.
Proof.
  intros Hf. destruct (found_cases _ _ _ Hf) as [(-> & ->)|[(j & -> & Ht & _)|[(r & -> & -> & _)|(Ht & _ & ->)]]]; try done; rewrite (proj2 (Z.eqb_neq _ _)) by lia;
    [done|by destruct (_ =? 0)].
Qed.

(** One value of the record, where it is found. *)
Section value.
Context (v : mem) (t : Z) (z hdr : list Z) (Hf : found v t z) (Hput : sqlite3PutVarint t = Some hdr).
Context (k : KeyInfo) (i : nat) (nKey1 : Z) (aKey1 : list Z) (idx1 d1 : Z) (x y : list Z).
Context (Hbytes : Forall is_byte aKey1) (Hidx : from idx1 aKey1 = hdr ++ x) (Hd : from d1 aKey1 = z ++ y).
Context (Hd0 : 0 <= d1) (Hend : d1 + size z <= nKey1) (Hmax : nKey1 < 2 ^ 31).

Lemma first_byte : exists b, aKey1 !! Z.to_nat idx1 = Some b /\ if t <? 128 then b = t else 128 <= b.
Proof.
  destruct (header_byte t hdr x (type_range _ _ _ Hf) Hput) as (b & Hb & Hbt). exists b. split; [|done].
  rewrite <- Hidx in Hb. unfold from in Hb. by rewrite lookup_drop, Nat.add_0_r in Hb.
Qed.

Lemma full_type : getVarint32 (from idx1 aKey1) = Some (Z.of_nat (length hdr), t).
Proof.
  rewrite Hidx. assert (Hx : Forall is_byte (hdr ++ x)) by (rewrite <- Hidx; by apply Forall_drop).
  rewrite get_varint32_decodes by done. apply Forall_app in Hx as [_ Hx]. pose proof (type_range _ _ _ Hf).
  destruct (get_after_put t x hdr) as [_ ->]; [unfold is_uint; lia|done|done|]. cbn. unfold saturated. cbn [fst snd]. do 2 f_equal. lia.
Qed.

(** The comparison agrees with that of the value; [t'] is the serial type or, for a long one, its first byte. *)
Definition agrees (w : mem) (pColl : option coll) (r : option compared) : Prop := exists rc t',
  r = Some (Compared rc t') /\ sqlite3MemCompare bUseLongDouble v w pColl = Some rc /\
  (rc = 0 -> t' = t) /\ (t' =? 0) = is_null v.

Lemma agrees_type w pColl rc : sqlite3MemCompare bUseLongDouble v w pColl = Some rc -> agrees w pColl (Some (Compared rc t)).
Proof. intros Hc. exists rc, t. split; [done|]. split; [done|]. split; [done|by apply (found_null_type _ _ z)]. Qed.

Lemma agrees_byte b w pColl rc : (if t <? 128 then b = t else 128 <= b) -> (rc = 0 -> t < 128) ->
  sqlite3MemCompare bUseLongDouble v w pColl = Some rc -> agrees w pColl (Some (Compared rc b)).
Proof.
  intros Hb Hrc Hc. destruct (Z.ltb_spec t 128) as [Ht|Ht]; [rewrite Hb; by apply agrees_type|].
  exists rc, b. split; [done|]. split; [done|]. split; [intros H0; specialize (Hrc H0); lia|].
  rewrite <- (found_null_type _ _ _ Hf), !(proj2 (Z.eqb_neq _ _)) by lia. done.
Qed.

Lemma value_bytes : Forall is_byte (z ++ y).
Proof. rewrite <- Hd. by apply Forall_drop. Qed.

(** Decides the comparisons of the type [b]. *)
#[local] Ltac types b :=
  repeat match goal with
  | |- context [?n <=? b] => first [rewrite (proj2 (Z.leb_le n b)) by lia|rewrite (proj2 (Z.leb_gt n b)) by lia]
  | |- context [b =? ?n] => first [rewrite (proj2 (Z.eqb_eq b n)) by lia|rewrite (proj2 (Z.eqb_neq b n)) by lia]
  end; cbn [orb].

(** A number or null has a type of one byte. *)
Lemma short_byte b : t < 128 -> (if t <? 128 then b = t else 128 <= b) -> b = t.
Proof. intros Ht. by rewrite (proj2 (Z.ltb_lt _ _)) by lia. Qed.
Lemma large_byte b : 12 <= t -> (if t <? 128 then b = t else 128 <= b) -> 12 <= b.
Proof. destruct (t <? 128); lia. Qed.

(** A text or blob is above every number. *)
Lemma contents_above w pColl : 12 <= t -> rank w < 2 -> sqlite3MemCompare bUseLongDouble v w pColl = Some 1.
Proof.
  intros Ht Hw. destruct (found_cases _ _ _ Hf) as [(_ & ?)|[(j & _ & ? & _)|[(r & _ & ? & _)|(_ & _ & ->)]]]; [lia..|]. by destruct (_ =? 0), w.
Qed.

Lemma above_agrees b w pColl : 12 <= t -> (if t <? 128 then b = t else 128 <= b) -> rank w < 2 ->
  agrees w pColl (Some (Compared 1 b)).
Proof. intros Ht Hb Hw. eapply agrees_byte; [done|done|by apply contents_above]. Qed.

Lemma compare_int_agrees w n pColl : w = Mem_int n \/ w = Mem_intreal n -> agrees w pColl (compare_int n aKey1 idx1 d1).
Proof.
  intros Hw. destruct first_byte as (b & Hb & Hbt). unfold compare_int. rewrite Hb, bind_Some, Hd.
  assert (Hrank : rank w < 2) by (by destruct Hw as [-> | ->]). pose proof value_bytes as Hzy.
  destruct (found_cases _ _ _ Hf) as [(Hv & Ht)|[(j & Hv & Ht & H7 & Hg)|[(r & Hv & Ht & Hg)|(Ht & Hz & Hv)]]].
  - rewrite (short_byte b ltac:(lia) Hbt) in *. types t. apply agrees_type. rewrite Hv. by destruct Hw as [-> | ->].
  - rewrite (short_byte b ltac:(lia) Hbt) in *. types t.
    rewrite (decode_int t (z ++ y) j) by auto. apply agrees_type. rewrite Hv. by destruct Hw as [-> | ->].
  - rewrite (short_byte b ltac:(lia) Hbt) in *. types t.
    destruct (get7 (z ++ y) (Mem_real r) (Hg y)) as (nan & x' & -> & Hx). destruct nan; [done|]. injection Hx as <-.
    apply agrees_type. rewrite Hv. by destruct Hw as [-> | ->].
  - pose proof (large_byte b ltac:(lia) Hbt). types b. by apply above_agrees; [lia|..].
Qed.

Lemma compare_real_agrees n pColl : IsNaN n = false -> agrees (Mem_real n) pColl (compare_real n aKey1 idx1 d1).
Proof.
  intros Hn. destruct first_byte as (b & Hb & Hbt). unfold compare_real. rewrite Hb, bind_Some, Hd. pose proof value_bytes as Hzy.
  destruct (found_cases _ _ _ Hf) as [(Hv & Ht)|[(j & Hv & Ht & H7 & Hg)|[(r & Hv & Ht & Hg)|(Ht & Hz & Hv)]]].
  - rewrite (short_byte b ltac:(lia) Hbt) in *. types t. apply agrees_type. by rewrite Hv.
  - rewrite (short_byte b ltac:(lia) Hbt) in *. types t.
    rewrite Hg, bind_Some. apply agrees_type. by rewrite Hv.
  - rewrite (short_byte b ltac:(lia) Hbt) in *. types t.
    destruct (get7 (z ++ y) (Mem_real r) (Hg y)) as (nan & x' & -> & Hx). destruct nan; [done|]. injection Hx as <-. apply agrees_type. by rewrite Hv.
  - pose proof (large_byte b ltac:(lia) Hbt). types b. by apply above_agrees; [lia|..].
Qed.

Lemma compare_null_agrees c pColl : agrees (Mem_null c) pColl (compare_null aKey1 idx1 d1).
Proof.
  destruct first_byte as (b & Hb & Hbt). unfold compare_null. rewrite Hb, bind_Some, Hd. pose proof value_bytes as Hzy.
  destruct (found_cases _ _ _ Hf) as [(Hv & Ht)|[(j & Hv & Ht & H7 & Hg)|[(r & Hv & Ht & Hg)|(Ht & Hz & Hv)]]].
  - rewrite (short_byte b ltac:(lia) Hbt) in *. types t. apply agrees_type. by rewrite Hv.
  - rewrite (short_byte b ltac:(lia) Hbt) in *. types t.
    apply agrees_type. by rewrite Hv.
  - rewrite (short_byte b ltac:(lia) Hbt) in *. types t.
    destruct (get7 (z ++ y) (Mem_real r) (Hg y)) as (nan & x' & -> & Hx). destruct nan; [done|]. apply agrees_type. by rewrite Hv.
  - pose proof (large_byte b ltac:(lia) Hbt). types b. by apply above_agrees; [lia|..].
Qed.

(** The bytes of a text or blob are all there. *)
Lemma contents_fit : 12 <= t -> (t - 12) / 2 = size z -> nKey1 <? u32 (d1 + (t - 12) / 2) = false.
Proof.
  intros Ht ->. pose proof (size_nonneg z). rewrite u32_small by (unfold is_uint; lia). lia.
Qed.
Lemma bytes_contents : bytes (size z) (z ++ y) = Some z.
Proof.
  unfold bytes, size. rewrite (proj2 (Z.leb_le _ _)) by (rewrite length_app; lia).
  rewrite Nat2Z.id. f_equal. apply take_app_length.
Qed.
(** The shorter of two, as two pieces of code say it. *)
Lemma shorter a b : (if a <? b then a else b) = (if b <? a then b else a).
Proof. destruct (Z.ltb_spec a b), (Z.ltb_spec b a); lia. Qed.

(** The comparison of bytes is that of blobs. *)
Lemma bytes_compare w : exists rc, memcmp (Z.to_nat (if size z <? size w then size z else size w)) (z ++ y) w = Some rc /\
  sqlite3BlobCompare z None w None = Some (if rc =? 0 then size z - size w else rc).
Proof.
  destruct (memcmp_lex _ z w eq_refl) as (c & Hc & _). exists c. rewrite shorter. split.
  - rewrite memcmp_app; [done|]. unfold size. destruct (Z.ltb_spec (Z.of_nat (length w)) (Z.of_nat (length z))); lia.
  - unfold sqlite3BlobCompare. rewrite Hc, bind_Some. by destruct (c =? 0).
Qed.

Lemma compare_str_agrees w pColl : Z.of_nat i < nAllField k -> aColl k !! i = Some pColl ->
  agrees (Mem_str w) pColl (compare_str w k i nKey1 aKey1 idx1 d1).
Proof.
  intros Hi Hc. unfold compare_str. rewrite full_type, bind_Some. rewrite Hd.
  assert (Hsmall : t < 12 -> agrees (Mem_str w) pColl (Some (Compared (-1) t))).
  { intros Ht. apply agrees_type. destruct (found_cases _ _ _ Hf) as [(-> & _)|[(j & -> & _)|[(r & -> & _)|(? & _)]]]; [done..|lia]. }
  destruct (Z.ltb_spec t 12) as [Ht|Ht]; [by apply Hsmall|]. change 0x01 with 1. 
  destruct (found_cases _ _ _ Hf) as [(_ & ?)|[(j & _ & ? & _)|[(r & _ & ? & _)|(Ht' & Hz & Hv)]]]; [lia..|].
  rewrite contents_fit by done. rewrite (proj2 (Z.leb_gt _ _)) by lia. cbn [orb]. rewrite Hc, bind_Some, Hz, bytes_contents.
  destruct (Z.land t 1 =? 0) eqn:E; [apply agrees_type; by rewrite Hv|].
  destruct pColl as [xCmp|]; [rewrite bind_Some; apply agrees_type; by rewrite Hv|]. destruct (bytes_compare w) as (rc & -> & Hrc). rewrite bind_Some.
  apply agrees_type. by rewrite Hv.
Qed.

Lemma compare_blob_agrees w n pColl : agrees (Mem_blob w n) pColl (compare_blob w n nKey1 aKey1 idx1 d1).
Proof.
  unfold compare_blob. rewrite full_type, bind_Some. rewrite Hd.
  destruct (Z.ltb_spec t 12) as [Ht|Ht]; cbn [orb].
  { apply agrees_type. destruct (found_cases _ _ _ Hf) as [(-> & _)|[(j & -> & _)|[(r & -> & _)|(? & _)]]]; [done..|lia]. }
  change 0x01 with 1. destruct (found_cases _ _ _ Hf) as [(_ & ?)|[(j & _ & ? & _)|[(r & _ & ? & _)|(Ht' & Hz & Hv)]]]; [lia..|].
  destruct (Z.land t 1 =? 0) eqn:E; cbn [negb]; [|apply agrees_type; by rewrite Hv].
  rewrite contents_fit by done. rewrite Hz. destruct n as [n|].
  - rewrite bytes_contents, bind_Some. apply agrees_type. by rewrite Hv.
  - destruct (bytes_compare w) as (rc & -> & Hrc). rewrite bind_Some. apply agrees_type. by rewrite Hv.
Qed.

Lemma compare_value_agrees w pColl : mem_ok w -> Z.of_nat i < nAllField k -> aColl k !! i = Some pColl ->
  agrees w pColl (compare_value w k i nKey1 aKey1 idx1 d1).
Proof.
  intros Hw Hi Hc. destruct w as [c|n|n|n|w|w n]; cbn [compare_value].
  - apply compare_null_agrees.
  - apply compare_int_agrees. by left.
  - apply compare_int_agrees. by right.
  - apply compare_real_agrees, Hw.
  - by apply compare_str_agrees.
  - apply compare_blob_agrees.
Qed.
End value.
(** ** The whole record *)

Lemma put_length t hdr : 0 <= t < 2 ^ 32 -> sqlite3PutVarint t = Some hdr -> sqlite3VarintLen t = size hdr.
Proof.
  intros Ht Hput. destruct (put_varint_spec t) as (l & c & Hput' & _ & _ & _ & Hlen); [unfold is_uint; lia|].
  rewrite Hput in Hput'. injection Hput' as ->. rewrite Hlen by lia. unfold size. rewrite length_app. cbn [length]. lia.
Qed.

(** What a comparison returns and leaves in the key: the first difference; if there is none, [default_rc]
    when the record has all the values of the key, and otherwise the record is taken for corrupt. *)
Definition outcome (p : UnpackedRecord) (complete : bool) (c : Z) : Z * UnpackedRecord :=
  if c =? 0 then if complete then (default_rc p, set_eqSeen p) else (0, set_corrupt p) else (c, p).

Definition row_ok (r : row) : Prop := row_placed r /\ indexed (row_value r).
Definition row_values (L : list row) : list mem := stored <$> (row_value <$> L).

Section loop.
Context (p : UnpackedRecord) (Hp : key_ok p) (nKey1 : Z) (aKey1 : list Z) (h : Z).
Context (Hbytes : Forall is_byte aKey1) (Hmax : nKey1 < 2 ^ 31) (Hh : h <= nKey1).

(** The comparison of one value and the order of its column. *)
Lemma field_agrees r w i idx d x y : row_ok r -> mem_ok w -> (i < nField p)%nat -> 0 <= d ->
  from idx aKey1 = row_hdr r ++ x -> from d aKey1 = row_bytes r ++ y -> d + size (row_bytes r) <= nKey1 ->
  exists rc t c f, compare_value w (pKeyInfo p) i nKey1 aKey1 idx d = Some (Compared rc t) /\
    field_order (pKeyInfo p) i (stored (row_value r)) w = Some c /\ (rc = 0 <-> c = 0) /\ (rc = 0 -> t = row_type r) /\
    aSortFlags (pKeyInfo p) !! i = Some f /\ in_order f rc t w = c.
Proof.
  intros [Hr Hi] Hw Hlt Hd Hx Hy Hend. pose proof (row_found r Hr Hi) as Hfound. destruct Hr as ((_ & _ & _ & _ & _ & _ & Hput) & _).
  destruct (key_colls p Hp i Hlt) as [pColl Hcoll]. destruct (key_flags p Hp i Hlt) as (f & Hflag & Hf). pose proof (key_all p Hp).
  destruct (compare_value_agrees (stored (row_value r)) (row_type r) (row_bytes r) (row_hdr r) Hfound Hput (pKeyInfo p) i nKey1 aKey1 idx d x y
    Hbytes Hx Hy Hd Hend Hmax w pColl Hw ltac:(lia) Hcoll) as (rc & t & Hc & Hm & Ht & Hnull).
  exists rc, t, (sorted_result f (is_null (stored (row_value r)) || is_null w) rc), f. split; [done|]. split.
  { unfold field_order. by rewrite Hcoll, bind_Some, Hm, bind_Some, Hflag, bind_Some. }
  split; [symmetry; apply sorted_result_zero|]. split; [done|]. split; [done|]. by apply in_order_sorted.
Qed.

Lemma headers_nil L : Forall row_ok L -> size (headers L) = 0 -> L = [].
Proof.
  destruct 1 as [|r L [((_ & _ & _ & _ & _ & Hl & _) & _) _] _]; [done|]. cbn [headers flat_map]. fold (headers L).
  rewrite size_app. pose proof (size_nonneg (headers L)). unfold size in *. lia.
Qed.

Lemma from_app idx l rest : 0 <= idx -> from idx aKey1 = l ++ rest -> from (idx + size l) aKey1 = rest.
Proof.
  intros Hidx Hl. unfold from, size in *. rewrite Z2Nat.inj_add, <- drop_drop, Hl, Nat2Z.id by lia. by rewrite drop_app_length.
Qed.

Lemma record_loop_spec L : Forall row_ok L -> forall fields i idx d x y, L <> [] -> Forall mem_ok fields ->
  (i < nField p <= i + length fields)%nat -> 0 <= idx -> 0 <= d ->
  from idx aKey1 = headers L ++ x -> from d aKey1 = contents L ++ y ->
  idx + size (headers L) = h -> d + size (contents L) = nKey1 ->
  exists c, record_order (pKeyInfo p) i (row_values L) (take (nField p - i) fields) = Some c /\
    compare_loop fields i nKey1 aKey1 h idx d p = Some (outcome p (nField p - i <=? length L)%nat c).
Proof.
  induction 1 as [|r L Hr HL IH]; intros fields i idx d x y Hne Hfields Hi Hidx Hd Hx Hy Hhdr Hend; [done|].
  destruct fields as [|w fields]; [cbn in Hi; lia|]. apply Forall_cons in Hfields as [Hw Hfields].
  cbn [headers contents flat_map] in Hx, Hy, Hhdr, Hend. fold (headers L) (contents L) in *. fold (row_bytes r) in Hy, Hend.
  rewrite <- app_assoc in Hx, Hy. rewrite size_app in Hhdr, Hend.
  pose proof (size_nonneg (headers L)). pose proof (size_nonneg (contents L)). pose proof (size_nonneg (row_bytes r)). pose proof (size_nonneg (row_hdr r)).
  destruct (field_agrees r w i idx d _ _ Hr Hw ltac:(lia) Hd Hx Hy ltac:(lia)) as (rc & t & c & f & Hc & Hord & Hzero & Ht & Hflag & Hin).
  replace (nField p - i)%nat with (S (nField p - S i)) by lia.
  cbn [row_values fmap list_fmap take record_order compare_loop]. fold (row_values L). rewrite Hc, Hord, !bind_Some.
  destruct (Z.eqb_spec rc 0) as [Hrc|Hrc]; cbn [negb].
  2: { exists c. rewrite Hflag, bind_Some, Hin. rewrite (proj2 (Z.eqb_neq c 0)) by tauto. split; [done|].
    unfold outcome. by rewrite (proj2 (Z.eqb_neq c 0)) by tauto. }
  rewrite (proj2 (Z.eqb_eq c 0)) by tauto. rewrite Ht by done. destruct Hr as [Hr Hri].
  pose proof (row_found r Hr Hri) as Hfound. destruct Hr as ((_ & (_ & Hlen & _) & _ & _ & Hz & _ & Hput) & _).
  assert (Hsz : size (row_body r) + row_zeros r = size (row_bytes r)) by (unfold row_bytes; by rewrite size_app, size_zeros).
  destruct (Nat.eqb_spec (S i) (nField p)) as [Hlast|Hmore].
  { exists 0. replace (nField p - S i)%nat with 0%nat by lia. cbn [take]. split; [by destruct (row_values L)|]. by rewrite (proj2 (Nat.leb_le _ _)) by (cbn; lia). }
  rewrite Hlen, bind_Some, Hsz, (put_length _ (row_hdr r) (type_range _ _ _ Hfound) Hput).
  rewrite !u32_small by (unfold is_uint; lia). rewrite (proj2 (Z.ltb_ge nKey1 _)) by lia. destruct (Z.leb_spec h (idx + size (row_hdr r))) as [He|He].
  - assert (L = []) as -> by (apply headers_nil; [done|lia]).
    exists 0. split; [by destruct (take _ fields)|]. unfold outcome. cbn [Z.eqb length]. by rewrite (proj2 (Nat.leb_gt _ _)) by lia.
  - destruct (IH fields (S i) (idx + size (row_hdr r)) (d + size (row_bytes r)) x y) as (c' & Hord' & Hloop); try done; try lia.
    + intros ->. cbn in Hhdr. unfold size at 2 in Hhdr. cbn in Hhdr. lia.
    + cbn [length] in Hi. lia.
    + by apply from_app.
    + by apply from_app.
    + exists c'. by split.
Qed.
(** The reference finds the same difference. *)
Lemma debug_loop_spec corrupt_db L : Forall row_ok L -> forall fields i idx d x y, L <> [] -> Forall mem_ok fields ->
  (i < nField p <= i + length fields)%nat -> 0 <= idx -> 0 <= d ->
  from idx aKey1 = headers L ++ x -> from d aKey1 = contents L ++ y ->
  idx + size (headers L) = h -> d + size (contents L) = nKey1 ->
  exists c, record_order (pKeyInfo p) i (row_values L) (take (nField p - i) fields) = Some c /\
    debug_loop corrupt_db fields i nKey1 aKey1 h idx d p = Some (Some (if c =? 0 then default_rc p else c)).
Proof.
  induction 1 as [|r L Hr HL IH]; intros fields i idx d x y Hne Hfields Hi Hidx Hd Hx Hy Hhdr Hend; [done|].
  destruct fields as [|w fields]; [cbn in Hi; lia|]. apply Forall_cons in Hfields as [Hw Hfields].
  cbn [headers contents flat_map] in Hx, Hy, Hhdr, Hend. fold (headers L) (contents L) in *. fold (row_bytes r) in Hy, Hend.
  rewrite <- app_assoc in Hx, Hy. rewrite size_app in Hhdr, Hend.
  pose proof (size_nonneg (headers L)). pose proof (size_nonneg (contents L)). pose proof (size_nonneg (row_bytes r)). pose proof (size_nonneg (row_hdr r)).
  destruct (field_agrees r w i idx d _ _ Hr Hw ltac:(lia) Hd Hx Hy ltac:(lia)) as (_ & _ & c & _ & _ & Hord & _).
  destruct Hr as [Hr Hri]. pose proof (type_range _ _ _ (row_found r Hr Hri)) as Ht. destruct Hr as ((_ & (Hget & Hlen & Hread) & _ & _ & Hz & _) & _).
  replace (nField p - i)%nat with (S (nField p - S i)) by lia.
  cbn [row_values fmap list_fmap take record_order debug_loop]. fold (row_values L). rewrite Hord, Hx, Hget, !bind_Some
    by (apply (Forall_app _ (row_hdr r)); rewrite <- Hx; by apply Forall_drop).
  assert (Hsz : size (row_body r) + row_zeros r = size (row_bytes r)) by (unfold row_bytes; by rewrite size_app, size_zeros).
  assert (Hread' : forall rest, sqlite3VdbeSerialGet (row_bytes r ++ rest) (row_type r) = Some (stored (row_value r)))
    by (intros rest; unfold row_bytes; by rewrite <- app_assoc).
  rewrite Hlen, Hsz, bind_Some, (proj2 (Z.ltb_ge nKey1 (d + size (row_bytes r)))), andb_false_r by lia.
  rewrite Hy, (Hread' _), bind_Some.
  unfold field_order in Hord. pose proof (key_all p Hp). rewrite (proj2 (Z.ltb_lt (Z.of_nat i) (nAllField (pKeyInfo p)))) by lia.
  apply option.bind_Some in Hord as (pColl & HpColl & (rc & Hmem & (f & Hflag & [= Hord])%option.bind_Some)%option.bind_Some).
  rewrite HpColl, bind_Some, Hmem, bind_Some, Hflag.
  pose proof (sorted_result_zero f (is_null (stored (row_value r)) || is_null w) rc) as Hzero. rewrite Hord in Hzero.
  destruct (Z.eqb_spec rc 0) as [Hrc|Hrc]; cbn [negb].
  2: { exists c. rewrite !(proj2 (Z.eqb_neq c 0)) by tauto. by rewrite bind_Some, Hord. }
  rewrite (proj2 (Z.eqb_eq c 0)) by tauto. fold (size (row_hdr r)). rewrite !u32_small by (unfold is_uint; lia).
  destruct (Z.ltb_spec (idx + size (row_hdr r)) h) as [Hmore|Hlast]; cbn [andb].
  2: { exists 0. split; [|done]. by rewrite (headers_nil L HL) by lia. }
  destruct (Nat.ltb_spec (S i) (nField p)) as [Hn|Hn]; [|exists 0; replace (nField p - S i)%nat with 0%nat by lia; by destruct (row_values L)].
  apply (IH fields (S i) (idx + size (row_hdr r)) (d + size (row_bytes r)) x y); try done; try lia.
  - intros ->. cbn in Hhdr. unfold size at 2 in Hhdr. cbn in Hhdr. lia.
  - cbn [length] in Hi. lia.
  - by apply from_app.
  - by apply from_app.
Qed.
End loop.
(** A record: its header with the size [h], written as [hb], and the values. *)
Record recorded (key hb : list Z) (L : list row) (h : Z) : Prop := {
  rec_key : key = hb ++ headers L ++ contents L;
  rec_rows : Forall row_ok L;
  rec_header : size hb + size (headers L) = h;
  rec_put : (if h <? 0x80 then Some [h] else sqlite3PutVarint h) = Some hb;
  rec_get rest : Forall is_byte rest -> getVarint32 (hb ++ rest) = Some (size hb, h);
  rec_bytes : Forall is_byte key;
  rec_size : size key < 2 ^ 31
}.

(** What [OP_MakeRecord] makes is one. *)
Lemma made_recorded wff available pOut values z nZero : Forall valid_mem values -> Forall indexed values ->
  Z.of_nat (length values) <= 2 ^ 15 -> szMalloc pOut < 2 ^ 31 -> limit pOut < 2 ^ 31 ->
  OP_MakeRecord double_bits wff available pOut values = Some (Record_made z nZero) ->
  exists bytes hb L h, z = Some <$> bytes /\ recorded (bytes ++ zeros (default 0 nZero)) hb L h /\ values = row_value <$> L.
Proof.
  intros Hv Hi Hlen Hmalloc Hlimit Hmade. destruct (record_space double_bits wff available values) as [[fields s]|] eqn:Hspace;
    [|unfold OP_MakeRecord in Hmade; by rewrite Hspace in Hmade].
  destruct (make_record_spec double_bits double_bits_range wff available values fields s Hv Hlen Hspace)
    as (hb & L & HvL & HL & Hz & Hz0 & Hc & Hhs & Hhb & Hput & Hget & Hmake).
  rewrite Hmake in Hmade. cbv zeta in Hmade. set (n := size (hb ++ headers L ++ bodies L) + RecordFormat.nZero s) in *.
  assert (Hfits : n < 2 ^ 31 /\ z = Some <$> (hb ++ headers L ++ bodies L) /\ default 0 nZero = RecordFormat.nZero s).
  { destruct (Z.leb_spec n (szMalloc pOut)); cbn [negb andb] in Hmade; [|destruct (Z.ltb_spec (limit pOut) n); [done|]; destruct (resize pOut); [|done]];
      cbn [andb negb] in Hmade; injection Hmade as <- <-; (split; [lia|]; split; [done|]); by destruct (Z.eqb_spec (RecordFormat.nZero s) 0). }
  destruct Hfits as (Hn & -> & ->). exists (hb ++ headers L ++ bodies L), hb, L, (header_size (nHdr s)). split; [done|].
  assert (Hkey : (hb ++ headers L ++ bodies L) ++ zeros (RecordFormat.nZero s) = hb ++ headers L ++ contents L)
    by (by rewrite <- !app_assoc, Hz, <- Hc).
  destruct (rows_bytes _ L HL) as (HhL & HcL & _). split; [|done]. constructor; try done; rewrite ?Hkey.
  - rewrite HvL, Forall_fmap in Hi. apply Forall_and. by split.
  - by rewrite !Forall_app.
  - rewrite <- Hkey, size_app, size_zeros by lia. done.
Qed.

Lemma recorded_length key hb L h : recorded key hb L h -> (length L <= length (headers L) <= 5 * length L)%nat /\ Forall row_placed L.
Proof.
  intros Hrec. assert (HL : Forall row_placed L) by (eapply Forall_impl; [apply (rec_rows _ _ _ _ Hrec)|]; by intros r []).
  by destruct (rows_bytes _ L HL) as (_ & _ & Hl).
Qed.

(** The record in memory, with [pad] after it. *)
Section memory.
Context (key hb : list Z) (L : list row) (h : Z) (pad : list Z) (Hrec : recorded key hb L h) (Hne : L <> []) (Hpad : Forall is_byte pad).

Lemma recorded_offsets : Forall is_byte (key ++ pad) /\
  from (size hb) (key ++ pad) = headers L ++ contents L ++ pad /\ from h (key ++ pad) = contents L ++ pad /\
  getVarint32 (key ++ pad) = Some (size hb, h) /\ h + size (contents L) = size key /\ h <= size key < 2 ^ 31.
Proof.
  pose proof (rec_key _ _ _ _ Hrec) as Hkey. pose proof (rec_header _ _ _ _ Hrec) as Hh. pose proof (rec_size _ _ _ _ Hrec) as Hsize.
  pose proof (size_nonneg hb). pose proof (size_nonneg (headers L)). pose proof (size_nonneg (contents L)).
  assert (Hbytes : Forall is_byte (key ++ pad)) by (apply Forall_app; split; [apply (rec_bytes _ _ _ _ Hrec)|done]).
  assert (Happ : key ++ pad = hb ++ headers L ++ contents L ++ pad) by (by rewrite Hkey, <- !app_assoc).
  assert (Hx : from (size hb) (key ++ pad) = headers L ++ contents L ++ pad).
  { unfold from, size. rewrite Nat2Z.id, Happ. by rewrite drop_app_length. }
  assert (Hsz : size key = size hb + (size (headers L) + size (contents L))) by (by rewrite Hkey, !size_app).
  split; [done|]. split; [done|]. split.
  { rewrite <- Hh. apply from_app; [lia|done]. }
  split; [|lia]. rewrite Happ. apply (rec_get _ _ _ _ Hrec). rewrite Happ in Hbytes. by apply Forall_app in Hbytes as [_ ?].
Qed.

Context (p : UnpackedRecord) (Hp : key_ok p) (Hm : Forall mem_ok (aMem p)).
#[local] Notation nKey1 := (size key).
#[local] Notation aKey1 := (key ++ pad).

(** The comparison from the first value on. *)
Lemma compare_general : exists c, record_order (pKeyInfo p) 0 (row_values L) (take (nField p) (aMem p)) = Some c /\
  sqlite3VdbeRecordCompare nKey1 aKey1 p = Some (outcome p (nField p <=? length L)%nat c).
Proof.
  destruct recorded_offsets as (Hbytes & Hx & Hy & Hget & Hend & Hsize). destruct (key_fields p Hp) as [Hf0 Hf]. pose proof (size_nonneg hb).
  destruct (record_loop_spec p Hp nKey1 aKey1 h Hbytes (proj2 Hsize) (proj1 Hsize) L (rec_rows _ _ _ _ Hrec) (aMem p) 0 (size hb) h _ _
    Hne Hm ltac:(lia) ltac:(lia) ltac:(pose proof (size_nonneg (headers L)); pose proof (rec_header _ _ _ _ Hrec); lia) Hx Hy (rec_header _ _ _ _ Hrec) Hend)
    as (c & Hord & Hloop).
  rewrite Nat.sub_0_r in Hord, Hloop. exists c. split; [done|].
  unfold sqlite3VdbeRecordCompare, sqlite3VdbeRecordCompareWithSkip. unfold getVarint32 in Hget.
  destruct (aKey1 !! 0%nat) as [b|]; [|done]. rewrite bind_Some in Hget. rewrite bind_Some, Hget, bind_Some.
  cbn [drop]. by rewrite bind_Some, (proj2 (Z.ltb_ge _ _)) by lia.
Qed.

(** The assertion of the code. *)
Lemma debug_holds db corrupt_db mallocFailed c : record_order (pKeyInfo p) 0 (row_values L) (take (nField p) (aMem p)) = Some c ->
  vdbeRecordCompareDebug db corrupt_db mallocFailed nKey1 aKey1 p (outcome p true c).1 = Some true.
Proof.
  intros Hc. destruct recorded_offsets as (Hbytes & Hx & Hy & Hget & Hend & Hsize). destruct (key_fields p Hp) as [Hf0 Hf]. pose proof (size_nonneg hb).
  destruct (debug_loop_spec p Hp nKey1 aKey1 h Hbytes (proj2 Hsize) (proj1 Hsize) corrupt_db L (rec_rows _ _ _ _ Hrec) (aMem p) 0 (size hb) h _ _
    Hne Hm ltac:(lia) ltac:(lia) ltac:(pose proof (size_nonneg (headers L)); pose proof (rec_header _ _ _ _ Hrec); lia) Hx Hy (rec_header _ _ _ _ Hrec) Hend)
    as (c' & Hord & Hloop).
  rewrite Nat.sub_0_r in Hord. rewrite Hc in Hord. injection Hord as <-. unfold vdbeRecordCompareDebug. destruct db; [|done]. cbn [negb]. rewrite Hget, bind_Some.
  destruct (98307 <? h); [done|]. rewrite Hloop, bind_Some. f_equal. unfold outcome.
  assert (Hsame : forall x, ((x =? 0) && (x =? 0)) || ((x <? 0) && (x <? 0)) || ((0 <? x) && (0 <? x)) = true).
  { intros x. rewrite !andb_diag. destruct (Z.eqb_spec x 0), (Z.ltb_spec x 0), (Z.ltb_spec 0 x); done || lia. }
  by destruct (c =? 0); cbn [fst]; rewrite Hsame.
Qed.
(** *** The fast comparisons *)

(** With few values the size of the header is one byte. *)
Lemma short_header : (length L <= 13)%nat -> hb = [h] /\ aKey1 = h :: headers L ++ contents L ++ pad /\ 0 <= h < 0x80.
Proof.
  intros HL. destruct (recorded_length _ _ _ _ Hrec) as [Hl _]. pose proof (rec_header _ _ _ _ Hrec) as Hh. pose proof (rec_put _ _ _ _ Hrec) as Hput.
  assert (Hsmall : h < 0x80).
  { destruct (Z.ltb_spec h 0x80) as [|Hbig]; [done|]. destruct recorded_offsets as (_ & _ & _ & _ & _ & Hsize).
    destruct (put_varint_spec h) as (l & c & Hput' & _ & Hl8 & _); [unfold is_uint; lia|]. rewrite Hput in Hput'. injection Hput' as ->.
    unfold size in Hh. rewrite length_app in Hh. cbn [length] in Hh. lia. }
  rewrite (proj2 (Z.ltb_lt _ _)) in Hput by done. injection Hput as <-. split; [done|].
  split; [by rewrite (rec_key _ _ _ _ Hrec), <- !app_assoc|]. unfold size in Hh. lia.
Qed.

Section fast.
Context (r : row) (L' : list row) (HrL : L = r :: L') (Hshort : (length L <= 13)%nat) (Hfields : (nField p <= length L)%nat).
Context (w : mem) (ws : list mem) (HwM : aMem p = w :: ws).
#[local] Notation k := (pKeyInfo p).

Lemma fast_row : row_ok r /\ Forall row_ok L' /\ mem_ok w /\ Forall mem_ok ws.
Proof.
  pose proof (rec_rows _ _ _ _ Hrec) as HL. rewrite HrL in HL. apply Forall_cons in HL as [Hr HL].
  pose proof Hm as Hm'. rewrite HwM in Hm'. by apply Forall_cons in Hm' as [? ?].
Qed.

(** The first value in memory. *)
Lemma fast_first : aKey1 !! 0%nat = Some h /\ from 1 aKey1 = row_hdr r ++ headers L' ++ contents L ++ pad /\
  from h aKey1 = row_bytes r ++ contents L' ++ pad /\ h + (size (row_bytes r) + size (contents L')) = nKey1 /\
  1 + (size (row_hdr r) + size (headers L')) = h.
Proof.
  destruct (short_header Hshort) as (Hhb & Hkey & _). destruct recorded_offsets as (_ & Hx & Hy & _ & Hend & _).
  pose proof (rec_header _ _ _ _ Hrec) as Hh. rewrite Hhb in Hh, Hx. change (size [h]) with 1 in Hh, Hx.
  rewrite Hkey at 1. split; [done|]. rewrite HrL in Hx, Hy, Hend, Hh. cbn [headers contents flat_map] in Hx, Hy, Hend, Hh.
  fold (headers L') (contents L') (row_bytes r) in Hx, Hy, Hend, Hh. rewrite <- app_assoc in Hx, Hy. rewrite size_app in Hend, Hh.
  rewrite Hx, Hy, HrL. cbn [contents flat_map]. fold (contents L') (row_bytes r). done.
Qed.

(** Skipping the first value. *)
Lemma compare_skip : (1 < nField p)%nat -> exists c, record_order k 1 (row_values L') (take (nField p - 1) ws) = Some c /\
  sqlite3VdbeRecordCompareWithSkip nKey1 aKey1 p true = Some (outcome p true c).
Proof.
  intros Hn. destruct fast_first as (H0 & Hx & Hy & Hend & Hh). destruct fast_row as ([Hr Hri] & HL' & _ & Hws).
  destruct recorded_offsets as (Hbytes & _ & _ & _ & _ & Hsize). destruct (key_fields p Hp) as [_ Hf]. rewrite HwM in Hf. cbn [length] in Hf.
  pose proof (row_found r Hr Hri) as Hfound. pose proof (type_range _ _ _ Hfound) as Htr. pose proof Hr as ((_ & (_ & Hlen & _) & _ & _ & Hz & _ & Hput) & _).
  assert (Hsz : size (row_body r) + row_zeros r = size (row_bytes r)) by (unfold row_bytes; by rewrite size_app, size_zeros). rewrite Hsz in Hlen.
  pose proof (size_nonneg (row_hdr r)). pose proof (size_nonneg (row_bytes r)). pose proof (size_nonneg (contents L')).
  pose proof (size_nonneg (headers L')). rewrite HrL in Hfields. cbn [length] in Hfields.
  destruct (record_loop_spec p Hp nKey1 aKey1 h Hbytes (proj2 Hsize) (proj1 Hsize) L' HL' ws 1 (1 + size (row_hdr r)) (h + size (row_bytes r))
    (contents L ++ pad) pad) as (c & Hord & Hloop); try done; try lia.
  1: by intros ->; cbn in Hfields; lia.
  1, 2: (apply from_app; [lia|done]).
  exists c. split; [done|]. unfold sqlite3VdbeRecordCompareWithSkip.
  destruct (header_byte (row_type r) (row_hdr r) (headers L' ++ contents L ++ pad) Htr Hput) as (b & Hb & Hbt).
  rewrite <- Hx in Hb. unfold from in Hb. rewrite lookup_drop in Hb. change (Z.to_nat 1 + 0)%nat with 1%nat in Hb. rewrite Hb, bind_Some.
  assert (Hs1 : (if b <? 0x80 then Some (2, b) else '(n, s1) ← sqlite3GetVarint32 (from 1 aKey1); Some (1 + n, s1)) = Some (1 + size (row_hdr r), row_type r)).
  { destruct (Z.ltb_spec (row_type r) 128) as [Hs|Hs].
    - rewrite Hbt, (proj2 (Z.ltb_lt _ _)) by lia. rewrite put_small in Hput by lia. by injection Hput as <-.
    - rewrite (proj2 (Z.ltb_ge _ _)) by lia.
      pose proof (full_type _ _ _ _ Hfound Hput aKey1 1 _ Hbytes Hx) as Hget. unfold getVarint32 in Hget.
      assert (Hb1 : from 1 aKey1 !! 0%nat = Some b) by (unfold from; by rewrite lookup_drop).
      rewrite Hb1, bind_Some, (proj2 (Z.ltb_ge _ _)) in Hget by lia. by rewrite Hget. }
  rewrite Hs1, bind_Some, H0, bind_Some, Hlen, bind_Some, bind_Some. rewrite u32_small by (unfold is_uint; lia).
  rewrite (proj2 (Z.ltb_ge _ _)) by lia. rewrite HwM. cbn [drop]. rewrite drop_0, Hloop. do 2 f_equal. apply Nat.leb_le. lia.
Qed.

Lemma take_first : take (nField p) (w :: ws) = w :: take (nField p - 1) ws.
Proof. destruct (key_fields p Hp) as [Hn _]. destruct (nField p) as [|n]; [lia|]. cbn [take Nat.sub]. by rewrite Nat.sub_0_r. Qed.

(** The rest of the comparison, when the first values are equal. *)
Lemma first_equal_spec : field_order k 0 (stored (row_value r)) w = Some 0 -> exists c,
  record_order k 0 (row_values L) (take (nField p) (aMem p)) = Some c /\ first_equal nKey1 aKey1 p = Some (outcome p true c).
Proof.
  intros H0. destruct (key_fields p Hp) as [Hn _]. unfold first_equal. rewrite HrL, HwM.
  rewrite take_first. cbn [row_values fmap list_fmap record_order]. fold (row_values L').
  rewrite H0, bind_Some. cbn [Z.eqb]. destruct (Nat.ltb_spec 1 (nField p)) as [H1|H1]; [by apply compare_skip|].
  exists 0. replace (nField p - 1)%nat with 0%nat by lia. cbn [take]. by split; [destruct (row_values L')|].
Qed.

(** The results the key was given for a first value below or above. *)
Definition results_ok : Prop := exists f, aSortFlags k !! 0%nat = Some f /\ (f = 0 /\ r1 p = -1 /\ r2 p = 1 \/ f = 1 /\ r1 p = 1 /\ r2 p = -1).

(** A first value that decides. *)
Lemma first_decides pColl rc : results_ok -> aColl k !! 0%nat = Some pColl ->
  sqlite3MemCompare bUseLongDouble (stored (row_value r)) w pColl = Some rc -> rc <> 0 -> exists c,
  record_order k 0 (row_values L) (take (nField p) (aMem p)) = Some c /\ c <> 0 /\ Z.sgn (if rc <? 0 then r1 p else r2 p) = Z.sgn c.
Proof.
  intros (f & Hf & Hr) Hcoll Hrc Hne0. destruct (key_fields p Hp) as [Hn _]. exists (if f =? 0 then rc else - rc).
  rewrite HrL, HwM, take_first. cbn [row_values fmap list_fmap record_order].
  unfold field_order. rewrite Hcoll, bind_Some, Hrc, bind_Some, Hf, bind_Some, bind_Some.
  assert (Hs : sorted_result f (is_null (stored (row_value r)) || is_null w) rc = if f =? 0 then rc else - rc)
    by (by destruct Hr as [(-> & _)|(-> & _)]).
  rewrite Hs. rewrite (proj2 (Z.eqb_neq _ 0)) by (destruct (f =? 0); lia). split; [done|].
  destruct Hr as [(-> & -> & ->)|(-> & -> & ->)]; cbn [Z.eqb]; destruct (Z.ltb_spec rc 0); lia.
Qed.

(** The result of a fast comparison: that of the general one, by sign. *)
Definition same_outcome (result : option (Z * UnpackedRecord)) : Prop := exists c rc,
  record_order k 0 (row_values L) (take (nField p) (aMem p)) = Some c /\
  result = Some (rc, (outcome p true c).2) /\ Z.sgn rc = Z.sgn (outcome p true c).1.

Lemma decides_same pColl rc : results_ok -> aColl k !! 0%nat = Some pColl ->
  sqlite3MemCompare bUseLongDouble (stored (row_value r)) w pColl = Some rc -> rc <> 0 ->
  same_outcome (Some (if rc <? 0 then r1 p else r2 p, p)).
Proof.
  intros Hr Hcoll Hrc Hne0. destruct (first_decides pColl rc Hr Hcoll Hrc Hne0) as (c & Hc & Hc0 & Hs). exists c, (if rc <? 0 then r1 p else r2 p).
  unfold outcome. by rewrite (proj2 (Z.eqb_neq c 0)).
Qed.

Lemma equal_same pColl : results_ok -> aColl k !! 0%nat = Some pColl ->
  sqlite3MemCompare bUseLongDouble (stored (row_value r)) w pColl = Some 0 -> same_outcome (first_equal nKey1 aKey1 p).
Proof.
  intros (f & Hf & Hr) Hcoll Hrc. destruct first_equal_spec as (c & Hc & ->).
  - unfold field_order. rewrite Hcoll, bind_Some, Hrc, bind_Some, Hf, bind_Some. f_equal. by apply sorted_result_zero.
  - exists c. destruct (outcome p true c) as [rc q]. by exists rc.
Qed.
Lemma general_same : same_outcome (sqlite3VdbeRecordCompare nKey1 aKey1 p).
Proof.
  destruct compare_general as (c & Hc & Hr). exists c, (outcome p true c).1. split; [done|]. rewrite Hr.
  rewrite (proj2 (Nat.leb_le _ _)) by done. by destruct (outcome p true c).
Qed.

(** The first byte of the header of the first value. *)
Lemma fast_type : exists b, aKey1 !! 1%nat = Some b /\ if row_type r <? 128 then b = row_type r else 128 <= b.
Proof.
  destruct fast_first as (_ & Hx & _). destruct fast_row as ([Hr Hri] & _).
  pose proof (type_range _ _ _ (row_found r Hr Hri)) as Htr. destruct Hr as ((_ & _ & _ & _ & _ & _ & Hput) & _).
  destruct (header_byte (row_type r) (row_hdr r) (headers L' ++ contents L ++ pad) Htr Hput) as (b & Hb & Hbt). exists b. split; [|done].
  rewrite <- Hx in Hb. unfold from in Hb. by rewrite lookup_drop in Hb.
Qed.

Lemma compare_int_same v pColl : w = Mem_int v -> u p = U_i v -> results_ok -> aColl k !! 0%nat = Some pColl ->
  same_outcome (vdbeRecordCompareInt nKey1 aKey1 p).
Proof.
  intros Hw Hu Hres Hcoll. destruct fast_first as (H0 & Hx & Hy & Hend & Hh). destruct fast_type as (b & Hb & Hbt).
  destruct fast_row as ([Hr Hri] & HL' & _). pose proof (row_found r Hr Hri) as Hfound. destruct recorded_offsets as (Hbytes & _).
  unfold vdbeRecordCompareInt. rewrite H0, bind_Some, Hb, bind_Some.
  destruct (((1 <=? b) && (b <=? 6)) || (b =? 8) || (b =? 9)) eqn:Hint; [|apply general_same].
  assert (Hb9 : 1 <= b <= 9 /\ b <> 7) by lia. assert (Ht : b = row_type r) by (destruct (row_type r <? 128); lia). subst b.
  pose proof Hr as ((_ & _ & _ & _ & _ & _ & Hput) & _). rewrite put_small in Hput by lia. injection Hput as Hhdr.
  rewrite <- Hhdr in Hh. change (size [row_type r]) with 1 in Hh.
  assert (Hl : (length (headers L') <= 5 * length L')%nat) by (apply (rows_bytes double_bits); eapply Forall_impl; [exact HL'|by intros ? []]).
  pose proof Hshort as Hs. rewrite HrL in Hs. cbn [length] in Hs. pose proof (size_nonneg (headers L')).
  assert (Hland : Z.land h 0x3F = h) by (change 0x3F with (Z.ones 6); rewrite Z.land_ones, Z.mod_small by (unfold size in *; lia); done).
  rewrite Hland, Hy. assert (Hzy : Forall is_byte (row_bytes r ++ contents L' ++ pad)) by (rewrite <- Hy; by apply Forall_drop).
  destruct (found_cases _ _ _ Hfound) as [(_ & ?)|[(j & Hv & _ & _ & Hg)|[(x & _ & ? & _)|(? & _)]]]; try lia.
  rewrite (decode_int (row_type r) _ j), bind_Some, Hu by (tauto || by auto).
  assert (Hc : sqlite3MemCompare bUseLongDouble (stored (row_value r)) w pColl = Some (less_greater (j <? v) (v <? j))) by (by rewrite Hv, Hw).
  unfold less_greater in Hc. destruct (j <? v); [by apply (decides_same pColl (-1))|]. destruct (v <? j); [by apply (decides_same pColl 1)|].
  by apply (equal_same pColl).
Qed.
Lemma compare_first_str_same z : w = Mem_str z -> u p = U_z z (size z) -> results_ok -> aColl k !! 0%nat = Some None -> 12 <= row_type r ->
  row_type r < 2 ^ 31 -> same_outcome (compare_first_str (row_type r) nKey1 aKey1 p).
Proof.
  intros Hw Hu Hres Hcoll Ht Hti. destruct fast_first as (H0 & Hx & Hy & Hend & Hh). destruct fast_row as ([Hr Hri] & HL' & Hwok & _).
  destruct (found_cases _ _ _ (row_found r Hr Hri)) as [(_ & ?)|[(j & _ & ? & _)|[(x & _ & ? & _)|(_ & Hz & Hv)]]]; try lia.
  unfold compare_first_str. change 0x01 with 1. destruct (Z.land (row_type r) 1 =? 0) eqn:Hodd.
  { apply (decides_same None 1); try done. by rewrite Hv, Hw. }
  rewrite H0, bind_Some, Z.quot_div_nonneg, Hz, (proj2 (Z.ltb_ge _ _)), Hu, Hy by (pose proof (size_nonneg (contents L')); lia).
  destruct (memcmp_lex _ (row_bytes r) z eq_refl) as (c & Hc & _).
  rewrite memcmp_app by (unfold size; destruct (Z.ltb_spec (Z.of_nat (length z)) (Z.of_nat (length (row_bytes r)))); lia).
  rewrite Hc, bind_Some. assert (Hm' : sqlite3MemCompare bUseLongDouble (stored (row_value r)) w None =
    Some (if negb (c =? 0) then c else size (row_bytes r) - size z)) by (rewrite Hv, Hw; cbn; by rewrite Hc, bind_Some).
  destruct (Z.ltb_spec 0 c), (Z.ltb_spec c 0); try lia.
  - rewrite (proj2 (Z.eqb_neq c 0)) in Hm' by lia. pose proof (decides_same None c Hres Hcoll Hm' ltac:(lia)) as Hd. by rewrite (proj2 (Z.ltb_ge c 0)) in Hd by lia.
  - rewrite (proj2 (Z.eqb_neq c 0)) in Hm' by lia. pose proof (decides_same None c Hres Hcoll Hm' ltac:(lia)) as Hd. by rewrite (proj2 (Z.ltb_lt c 0)) in Hd by lia.
  - rewrite (proj2 (Z.eqb_eq c 0)) in Hm' by lia. cbn [negb] in Hm'. destruct (Z.eqb_spec (size (row_bytes r) - size z) 0) as [E|E].
    + rewrite E in Hm'. by apply (equal_same None).
    + pose proof (decides_same None _ Hres Hcoll Hm' E) as Hd. destruct (Z.ltb_spec (size (row_bytes r) - size z) 0), (Z.ltb_spec 0 (size (row_bytes r) - size z)); done || lia.
Qed.

Lemma compare_string_same z : w = Mem_str z -> u p = U_z z (size z) -> results_ok -> aColl k !! 0%nat = Some None ->
  same_outcome (vdbeRecordCompareString nKey1 aKey1 p).
Proof.
  intros Hw Hu Hres Hcoll. destruct fast_first as (H0 & Hx & Hy & Hend & Hh). destruct fast_type as (b & Hb & Hbt).
  destruct fast_row as ([Hr Hri] & HL' & _). pose proof (row_found r Hr Hri) as Hfound. destruct recorded_offsets as (Hbytes & _ & _ & _ & _ & Hsize).
  pose proof (type_range _ _ _ Hfound) as Htr. assert (Hbyte : is_byte b) by (apply (Forall_lookup_1 _ _ _ _ Hbytes Hb)).
  assert (Hlow : row_type r < 12 -> same_outcome (Some (r1 p, p))).
  { intros Ht. apply (decides_same None (-1)); try done. 
    by destruct (found_cases _ _ _ Hfound) as [(-> & _)|[(j & -> & _)|[(x & -> & _)|(? & _)]]]; [rewrite Hw..|lia]. }
  assert (Hti : row_type r < 2 ^ 31) by (destruct (found_cases _ _ _ Hfound) as [(_ & ?)|[(j & _ & ? & _)|[(x & _ & ? & _)|(? & _)]]]; lia).
  unfold vdbeRecordCompareString. rewrite Hb, bind_Some, i8_cases by done. apply byte_range in Hbyte. destruct (Z.ltb_spec b 128) as [Hb128|Hb128].
  - assert (Hbr : b = row_type r) by (destruct (row_type r <? 128); lia). rewrite Hbr. destruct (Z.ltb_spec (row_type r) 12).
    + rewrite (proj2 (Z.ltb_ge (row_type r) 0)) by lia. by apply Hlow.
    + by apply (compare_first_str_same z).
  - rewrite (proj2 (Z.ltb_lt (b - 256) 12)), (proj2 (Z.ltb_lt (b - 256) 0)) by lia.
    assert (Hlong : 128 <= row_type r) by (destruct (Z.ltb_spec (row_type r) 128); lia).
    pose proof Hr as ((_ & _ & _ & _ & _ & _ & Hput) & _). pose proof (full_type _ _ _ _ Hfound Hput aKey1 1 _ Hbytes Hx) as Hget. unfold getVarint32 in Hget.
    assert (Hb1 : from 1 aKey1 !! 0%nat = Some b) by (unfold from; by rewrite lookup_drop).
    rewrite Hb1, bind_Some, (proj2 (Z.ltb_ge _ _)) in Hget by lia. rewrite Hget, bind_Some.
    rewrite i32_small by (unfold is_sint; lia). rewrite (proj2 (Z.leb_le _ _)) by lia. apply (compare_first_str_same z); try done. lia.
Qed.
End fast.
End memory.

(** The function that is chosen for a key. *)
Lemma find_compare_spec p : key_ok p -> exists f p', sqlite3VdbeFindCompare p = Some (f, p') /\
  (pKeyInfo p' = pKeyInfo p /\ aMem p' = aMem p /\ nField p' = nField p) /\
  (default_rc p' = default_rc p /\ errCode p' = errCode p /\ eqSeen p' = eqSeen p) /\
  match f with
  | Compare_any => True
  | Compare_int => nAllField (pKeyInfo p) <= 13 /\ exists v ws, aMem p' = Mem_int v :: ws /\ u p' = U_i v /\ results_ok p'
  | Compare_string => nAllField (pKeyInfo p) <= 13 /\ aColl (pKeyInfo p) !! 0%nat = Some None /\
    exists z ws, aMem p' = Mem_str z :: ws /\ u p' = U_z z (size z) /\ results_ok p'
  end.
Proof.
  intros Hp. destruct (key_fields p Hp) as [Hn0 Hn]. destruct (key_flags p Hp 0 Hn0) as (f & Hflag & Hf). destruct (key_colls p Hp 0 Hn0) as [pColl Hcoll].
  unfold sqlite3VdbeFindCompare. destruct (Z.leb_spec (nAllField (pKeyInfo p)) 13); [|by exists Compare_any, p].
  destruct (aMem p) as [|m ws] eqn:HM; [cbn in Hn; lia|]. cbn [lookup list_lookup]. rewrite bind_Some, Hflag, bind_Some, Hcoll.
  assert (Hfs : f = 0 \/ f = 1 \/ f = 2 \/ f = 3) by lia.
  assert (Hres : forall c, f = 0 \/ f = 1 -> let '(a, b) := if negb (f =? 0) then (1, -1) else (-1, 1) in results_ok (set_results a b c p)).
  { intros c [-> | ->]; cbn; [exists 0|exists 1]; by auto. }
  destruct Hfs as [-> |[-> |[-> | ->]]]; cbn -[set_results results_ok]; try by exists Compare_any, p.
  all: destruct m as [n|v|v|x|z|z n]; try destruct pColl as [xCmp|];
    try (by eexists Compare_any, _); do 2 eexists; (split; [done|]); rewrite <- HM; (split; [done|]); (split; [done|]).
  all: (split; [done|]); try (split; [done|]); cbn [set_results aMem u]; rewrite HM; do 2 eexists; (split; [done|]); (split; [done|]).
  all: first [apply (Hres _ (or_introl eq_refl))|apply (Hres _ (or_intror eq_refl))].
Qed.
End rows.
(** ** Any bytes *)

(** A comparison of [nKey1] bytes with 74 more after them, as the code allocates: nothing is read past those. *)
Section safety.
Context (nKey1 : Z) (aKey1 : list Z) (Hbytes : Forall is_byte aKey1) (HnKey : 0 <= nKey1 < 2 ^ 31) (Hroom : nKey1 + 74 <= size aKey1).

Lemma decode_some more : (more <= 8)%nat -> forall acc z, (more < length z)%nat -> exists n v, decode_varint more acc z = Some (n, v) /\ 1 <= n <= 9.
Proof.
  induction more as [|more IH]; intros Hm acc z Hz; (destruct z as [|c z]; [cbn in Hz; lia|]); cbn [decode_varint]; [by do 2 eexists|].
  destruct (c <? 128); [do 2 eexists; split; [done|lia]|]. apply IH; [lia|cbn in Hz; lia].
Qed.

Lemma varint_some idx : 0 <= idx -> idx + 9 <= size aKey1 -> exists n v, getVarint32 (from idx aKey1) = Some (n, v) /\ 0 <= v < 2 ^ 32 /\ 1 <= n <= 9.
Proof.
  intros H0 Hidx. assert (Hb : Forall is_byte (from idx aKey1)) by (by apply Forall_drop). rewrite get_varint32_decodes by done.
  destruct (decode_some 8 ltac:(lia) 0 (from idx aKey1)) as (n & v & Hd & Hn); [unfold from, size in *; rewrite length_drop; lia|]. rewrite Hd.
  pose proof (decode_nonneg 8 0 _ n v Hb ltac:(lia) Hd). exists n, (Z.min v (2 ^ 32 - 1)). split; [done|]. lia.
Qed.

Lemma byte_some idx : 0 <= idx < size aKey1 -> exists b, aKey1 !! Z.to_nat idx = Some b /\ 0 <= b < 256.
Proof.
  intros Hidx. destruct (lookup_lt_is_Some_2 aKey1 (Z.to_nat idx)) as [b Hb]; [unfold size in Hidx; lia|].
  exists b. split; [done|]. apply byte_range. by eapply Forall_lookup_1 in Hb.
Qed.

(** The varint at a byte with the top bit, as the code reads it directly. *)
Lemma long_varint_some idx b : 0 <= idx -> idx + 9 <= size aKey1 -> from idx aKey1 !! 0%nat = Some b -> 0x80 <= b ->
  exists n v, sqlite3GetVarint32 (from idx aKey1) = Some (n, v) /\ 0 <= v < 2 ^ 32 /\ 1 <= n <= 9.
Proof.
  intros H0 Hidx Hb Hlong. destruct (varint_some idx H0 Hidx) as (n & v & Hget & Hr). unfold getVarint32 in Hget.
  rewrite Hb, bind_Some, (proj2 (Z.ltb_ge _ _)) in Hget by done. by exists n, v.
Qed.

Lemma type_len_some t : 0 <= t < 2 ^ 32 -> exists n, sqlite3VdbeSerialTypeLen t = Some n /\ 0 <= n < 2 ^ 31.
Proof.
  intros Ht. unfold sqlite3VdbeSerialTypeLen. destruct (Z.leb_spec 128 t).
  - exists ((t - 12) / 2). split; [done|]. split; [apply Z.div_pos; lia|apply Z.div_lt_upper_bound; lia].
  - assert (Hall : forallb (fun n => match sqlite3SmallTypeSizes !! n with Some k => (0 <=? k) && (k <? 128) | None => false end) (seq 0 128) = true) by (vm_compute; done).
    rewrite forallb_forall in Hall. specialize (Hall (Z.to_nat t)). destruct (sqlite3SmallTypeSizes !! Z.to_nat t) as [k|].
    + exists k. split; [done|]. specialize (Hall ltac:(apply in_seq; lia)). lia.
    + by discriminate (Hall ltac:(apply in_seq; lia)).
Qed.

Lemma eight_bytes_some d : 0 <= d <= nKey1 + 63 -> exists x0 x1 x2 x3 x4 x5 x6 x7 rest, from d aKey1 = x0 :: x1 :: x2 :: x3 :: x4 :: x5 :: x6 :: x7 :: rest.
Proof.
  intros Hd. assert (Hlen : (8 <= length (from d aKey1))%nat) by (unfold from, size in *; rewrite length_drop; lia).
  destruct (from d aKey1) as [|x0 [|x1 [|x2 [|x3 [|x4 [|x5 [|x6 [|x7 rest]]]]]]]]; cbn [length] in Hlen; try lia. by do 9 eexists.
Qed.

Lemma memcmp_some n d z : 0 <= d -> d + n <= nKey1 -> exists c, memcmp (Z.to_nat (if n <? size z then n else size z)) (from d aKey1) z = Some c.
Proof.
  intros Hd Hn. destruct (memcmp_spec (Z.to_nat (if n <? size z then n else size z)) (from d aKey1) z) as (c & Hc & _);
    [unfold from, size in *; rewrite ?length_drop; destruct (Z.ltb_spec n (Z.of_nat (length z))); lia..|by exists c].
Qed.

Lemma bytes_some n d : 0 <= d -> 0 <= n -> d + n <= nKey1 -> exists z, bytes n (from d aKey1) = Some z.
Proof.
  intros Hd H0 Hn. unfold bytes. rewrite (proj2 (Z.leb_le _ _)); [by eexists|].
  unfold from, size in *. rewrite length_drop. lia.
Qed.

Lemma decode_some_int t d : 0 <= d <= nKey1 + 63 -> exists i, vdbeRecordDecodeInt t (from d aKey1) = Some i.
Proof.
  intros Hd. destruct (eight_bytes_some d Hd) as (x0 & x1 & x2 & x3 & x4 & x5 & x6 & x7 & rest & ->). unfold vdbeRecordDecodeInt.
  by repeat case_match; eexists.
Qed.

Lemma get_int_some t d : 1 <= t <= 9 -> t <> 7 -> 0 <= d <= nKey1 + 63 -> exists i, sqlite3VdbeSerialGet (from d aKey1) t = Some (Mem_int i).
Proof.
  intros Ht H7 Hd. destruct (eight_bytes_some d Hd) as (x0 & x1 & x2 & x3 & x4 & x5 & x6 & x7 & rest & ->).
  assert (Hcases : t = 1 \/ t = 2 \/ t = 3 \/ t = 4 \/ t = 5 \/ t = 6 \/ t = 8 \/ t = 9) by lia.
  by destruct Hcases as [-> |[-> |[-> |[-> |[-> |[-> |[-> | ->]]]]]]]; eexists.
Qed.

Lemma get7_some d : 0 <= d <= nKey1 + 63 -> exists nan x, serialGet7 (from d aKey1) = Some (nan, x).
Proof. intros Hd. destruct (eight_bytes_some d Hd) as (x0 & x1 & x2 & x3 & x4 & x5 & x6 & x7 & rest & ->). by do 2 eexists. Qed.

(** A comparison that ends, with the key as it was, an equal key or a corrupt record. *)
Definition ends (p : UnpackedRecord) (r : option (Z * UnpackedRecord)) : Prop := exists rc q, r = Some (rc, q) /\
  (q = p \/ q = set_eqSeen p \/ rc = 0 /\ q = set_corrupt p).
Definition value_ends (r : option compared) : Prop :=
  r = Some Corrupt \/ exists rc t, r = Some (Compared rc t) /\ 0 <= t < 2 ^ 32.

Lemma value_ends_intro rc t : 0 <= t < 2 ^ 32 -> value_ends (Some (Compared rc t)).
Proof. intros Ht. right. by exists rc, t. Qed.

Section value_safety.
Context (k : KeyInfo) (i : nat) (idx1 d1 : Z) (Hidx : 0 <= idx1) (Hroom1 : idx1 + 9 <= size aKey1) (Hd : 0 <= d1 <= nKey1).

(** The comparisons that read one byte of the header. *)
Lemma byte_ends (f : Z -> option Z) : (forall t, 0 <= t < 256 -> is_Some (f t)) ->
  value_ends (serial_type ← aKey1 !! Z.to_nat idx1; rc ← f serial_type; Some (Compared rc serial_type)).
Proof.
  intros Hf. destruct (byte_some idx1) as (t & -> & Ht); [lia|]. rewrite bind_Some. destruct (Hf t Ht) as [rc ->].
  rewrite bind_Some. apply value_ends_intro. lia.
Qed.

Lemma compare_int_ends n : value_ends (compare_int n aKey1 idx1 d1).
Proof.
  apply byte_ends. intros t Ht. destruct (10 <=? t); [done|]. destruct (t =? 0); [done|]. destruct (t =? 7).
  - by destruct (get7_some d1 ltac:(lia)) as (nan & x & ->).
  - by destruct (decode_some_int t d1 ltac:(lia)) as (j & ->).
Qed.
Lemma compare_real_ends n : value_ends (compare_real n aKey1 idx1 d1).
Proof.
  apply byte_ends. intros t Ht. destruct (Z.leb_spec 10 t); [done|]. destruct (Z.eqb_spec t 0); [done|]. destruct (Z.eqb_spec t 7).
  - by destruct (get7_some d1 ltac:(lia)) as (nan & x & ->).
  - by destruct (get_int_some t d1 ltac:(lia) ltac:(lia) ltac:(lia)) as (j & ->).
Qed.
Lemma compare_null_ends : value_ends (compare_null aKey1 idx1 d1).
Proof.
  unfold compare_null. destruct (byte_some idx1) as (t & -> & Ht); [lia|]. rewrite bind_Some.
  assert (Hnull : is_Some (if (t =? 0) || (t =? 10) then Some true else if t =? 7 then '(nan, _) ← serialGet7 (from d1 aKey1); Some (nan : bool) else Some false)).
  { destruct (_ || _); [done|]. destruct (t =? 7); [|done]. by destruct (get7_some d1 ltac:(lia)) as (nan & x & ->). }
  destruct Hnull as [b ->]. rewrite bind_Some. apply value_ends_intro. lia.
Qed.

Lemma compare_str_ends z : is_Some (aColl k !! i) -> value_ends (compare_str z k i nKey1 aKey1 idx1 d1).
Proof.
  intros [pColl Hcoll]. unfold compare_str. destruct (varint_some idx1 Hidx Hroom1) as (n & t & -> & Ht & _). rewrite bind_Some.
  destruct (Z.ltb_spec t 12); [by apply value_ends_intro|]. destruct (_ =? 0); [by apply value_ends_intro|].
  assert (Hn : 0 <= (t - 12) / 2 < 2 ^ 31) by (split; [apply Z.div_pos; lia|apply Z.div_lt_upper_bound; lia]).
  rewrite u32_small by (unfold is_uint; lia). destruct (Z.ltb_spec nKey1 (d1 + (t - 12) / 2)); cbn [orb]; [by left|].
  destruct (_ <=? _); [by left|]. rewrite Hcoll, bind_Some. destruct pColl as [xCmp|].
  { destruct (bytes_some ((t - 12) / 2) d1) as (z1 & ->); [lia..|]. rewrite bind_Some. by apply value_ends_intro. }
  destruct (memcmp_some ((t - 12) / 2) d1 z) as (c & ->); [lia|lia|]. rewrite bind_Some. by apply value_ends_intro.
Qed.

Lemma compare_blob_ends z nZero : value_ends (compare_blob z nZero nKey1 aKey1 idx1 d1).
Proof.
  unfold compare_blob. destruct (varint_some idx1 Hidx Hroom1) as (n & t & -> & Ht & _). rewrite bind_Some.
  destruct (Z.ltb_spec t 12); cbn [orb]; [by apply value_ends_intro|]. destruct (negb _); [by apply value_ends_intro|].
  assert (Hn : 0 <= (t - 12) / 2 < 2 ^ 31) by (split; [apply Z.div_pos; lia|apply Z.div_lt_upper_bound; lia]).
  rewrite u32_small by (unfold is_uint; lia). destruct (Z.ltb_spec nKey1 (d1 + (t - 12) / 2)); [by left|].
  destruct nZero as [nZero|].
  { destruct (bytes_some ((t - 12) / 2) d1) as (z1 & ->); [lia..|]. rewrite bind_Some. by apply value_ends_intro. }
  destruct (memcmp_some ((t - 12) / 2) d1 z) as (c & ->); [lia|lia|]. rewrite bind_Some. by apply value_ends_intro.
Qed.

Lemma compare_value_ends w : is_Some (aColl k !! i) -> value_ends (compare_value w k i nKey1 aKey1 idx1 d1).
Proof.
  intros Hcoll. destruct w; cbn [compare_value]; auto using compare_null_ends, compare_int_ends, compare_real_ends, compare_str_ends, compare_blob_ends.
Qed.
End value_safety.

Section key_safety.
Context (p : UnpackedRecord) (Hp : key_ok p).

Lemma ends_same rc : ends p (Some (rc, p)).
Proof. exists rc, p. auto. Qed.
Lemma ends_equal rc : ends p (Some (rc, set_eqSeen p)).
Proof. exists rc, (set_eqSeen p). auto. Qed.
Lemma ends_corrupt : ends p (Some (0, set_corrupt p)).
Proof. exists 0, (set_corrupt p). auto. Qed.

Lemma compare_loop_ends fields : forall i szHdr1 idx1 d1, 0 <= idx1 -> idx1 + 9 <= size aKey1 -> 0 <= d1 <= nKey1 -> szHdr1 <= nKey1 ->
  (i < nField p <= i + length fields)%nat -> ends p (compare_loop fields i nKey1 aKey1 szHdr1 idx1 d1 p).
Proof.
  induction fields as [|w fields IH]; intros i szHdr1 idx1 d1 Hidx Hroom1 Hd Hh Hi; [cbn in Hi; lia|]. cbn [compare_loop length] in *.
  destruct (key_flags p Hp i ltac:(lia)) as (f & Hf & _).
  destruct (compare_value_ends (pKeyInfo p) i idx1 d1 Hidx Hroom1 Hd w (key_colls p Hp i ltac:(lia))) as [->|(rc & t & -> & Ht)]; rewrite bind_Some;
    [apply ends_corrupt|]. destruct (negb _); [rewrite Hf, bind_Some; apply ends_same|].
  destruct (Nat.eqb_spec (S i) (nField p)); [apply ends_equal|]. destruct (type_len_some t Ht) as (len & -> & Hlen). rewrite bind_Some.
  rewrite (u32_small (d1 + len)) by (unfold is_uint; lia). destruct (Z.ltb_spec nKey1 (d1 + len)); [apply ends_equal|].
  pose proof (u32_bounds (idx1 + sqlite3VarintLen t)) as [Hu _]. destruct (Z.leb_spec szHdr1 (u32 (idx1 + sqlite3VarintLen t))); [apply ends_corrupt|].
  apply IH; lia.
Qed.

Lemma compare_with_skip_ends bSkip : (bSkip = true -> (1 < nField p)%nat) -> ends p (sqlite3VdbeRecordCompareWithSkip nKey1 aKey1 p bSkip).
Proof.
  intros Hskip. destruct (key_fields p Hp) as [Hn0 Hn]. destruct (byte_some 0 ltac:(lia)) as (b0 & H0 & Hb0). destruct (byte_some 1 ltac:(lia)) as (b1 & H1 & Hb1).
  change (Z.to_nat 0) with 0%nat in H0. change (Z.to_nat 1) with 1%nat in H1.
  unfold sqlite3VdbeRecordCompareWithSkip. rewrite H0. destruct bSkip.
  - specialize (Hskip eq_refl). rewrite H1, bind_Some.
    assert (Hs1 : exists idx1 s1, (if b1 <? 0x80 then Some (2, b1) else '(n, s1) ← sqlite3GetVarint32 (from 1 aKey1); Some (1 + n, s1)) = Some (idx1, s1) /\
      0 <= s1 < 2 ^ 32 /\ 2 <= idx1 <= 10).
    { destruct (Z.ltb_spec b1 0x80) as [|Hl]; [exists 2, b1; split; [done|lia]|].
      destruct (long_varint_some 1 b1) as (n & v & -> & Hv & Hr); [lia|lia|unfold from; by rewrite lookup_drop|done|].
      exists (1 + n), v. split; [done|lia]. }
    destruct Hs1 as (idx1 & s1 & -> & Hs1 & Hidx). rewrite !bind_Some. destruct (type_len_some s1 Hs1) as (n & -> & Hlen). rewrite bind_Some.
    rewrite u32_small by (unfold is_uint; lia). rewrite bind_Some. destruct (Z.ltb_spec nKey1 (b0 + n)); [apply ends_corrupt|].
    apply compare_loop_ends; try lia. rewrite length_drop. lia.
  - rewrite bind_Some. assert (Hs : exists idx1 szHdr1, (if b0 <? 0x80 then Some (1, b0) else sqlite3GetVarint32 aKey1) = Some (idx1, szHdr1) /\
      0 <= szHdr1 < 2 ^ 32 /\ 1 <= idx1 <= 9).
    { destruct (Z.ltb_spec b0 0x80) as [|Hl]; [exists 1, b0; split; [done|lia]|].
      destruct (long_varint_some 0 b0) as (n & v & Hget & Hv & Hr); [lia|lia|done|done|]. exists n, v. done. }
    destruct Hs as (idx1 & h & -> & Hh & Hidx). rewrite !bind_Some. destruct (Z.ltb_spec nKey1 h); [apply ends_corrupt|].
    apply compare_loop_ends; try lia. rewrite drop_0. lia.
Qed.

Lemma first_equal_ends : ends p (first_equal nKey1 aKey1 p).
Proof. unfold first_equal. destruct (Nat.ltb_spec 1 (nField p)); [by apply compare_with_skip_ends|apply ends_equal]. Qed.

Lemma compare_int_key_ends v : u p = U_i v -> ends p (vdbeRecordCompareInt nKey1 aKey1 p).
Proof.
  intros Hu. destruct (byte_some 0 ltac:(lia)) as (b0 & H0 & Hb0). destruct (byte_some 1 ltac:(lia)) as (b1 & H1 & Hb1).
  change (Z.to_nat 0) with 0%nat in H0. change (Z.to_nat 1) with 1%nat in H1.
  unfold vdbeRecordCompareInt. rewrite H0, bind_Some, H1, bind_Some. destruct (_ || _); [|by apply compare_with_skip_ends].
  change 0x3F with (Z.ones 6). rewrite Z.land_ones by lia. pose proof (Z.mod_pos_bound b0 (2 ^ 6) ltac:(lia)).
  destruct (decode_some_int b1 (b0 mod 2 ^ 6)) as (lhs & ->); [lia|]. rewrite bind_Some, Hu.
  destruct (lhs <? v); [apply ends_same|]. destruct (v <? lhs); [apply ends_same|]. apply first_equal_ends.
Qed.

Lemma compare_first_str_ends t z : 12 <= t -> u p = U_z z (size z) -> ends p (compare_first_str t nKey1 aKey1 p).
Proof.
  intros Ht Hu. unfold compare_first_str. destruct (_ =? 0); [apply ends_same|]. destruct (byte_some 0 ltac:(lia)) as (b0 & H0 & Hb0).
  change (Z.to_nat 0) with 0%nat in H0. rewrite H0, bind_Some. pose proof (Z.quot_pos (t - 12) 2 ltac:(lia) ltac:(lia)).
  destruct (Z.ltb_spec nKey1 (b0 + Z.quot (t - 12) 2)); [apply ends_corrupt|]. rewrite Hu.
  destruct (memcmp_some (Z.quot (t - 12) 2) b0 z) as (c & Hc); [lia|lia|]. rewrite <- shorter, Hc, bind_Some.
  destruct (0 <? c); [apply ends_same|]. destruct (c <? 0); [apply ends_same|]. destruct (_ - _ =? 0); [apply first_equal_ends|].
  destruct (0 <? _); apply ends_same.
Qed.

Lemma compare_string_key_ends z : u p = U_z z (size z) -> ends p (vdbeRecordCompareString nKey1 aKey1 p).
Proof.
  intros Hu. destruct (byte_some 1 ltac:(lia)) as (b1 & H1 & Hb1). change (Z.to_nat 1) with 1%nat in H1.
  unfold vdbeRecordCompareString. rewrite H1, bind_Some, i8_cases by done. destruct (Z.ltb_spec b1 128).
  - destruct (Z.ltb_spec b1 12); [|by apply (compare_first_str_ends _ z)]. destruct (_ <? 0) eqn:E; [lia|apply ends_same].
  - rewrite (proj2 (Z.ltb_lt (b1 - 256) 12)), (proj2 (Z.ltb_lt (b1 - 256) 0)) by lia.
    destruct (long_varint_some 1 b1) as (n & v & -> & Hv & Hr); [lia|lia|unfold from; by rewrite lookup_drop|done|]. rewrite bind_Some.
    destruct (Z.leb_spec 12 (i32 v)); [by apply (compare_first_str_ends _ z)|apply ends_same].
Qed.
End key_safety.
End safety.
End compare.

(** ** Records of an index *)

(** The bytes [OP_MakeRecord] makes of values of an index. *)
Definition index_record (double_bits : Z -> Z) (values : list mem) (key : list Z) : Prop :=
  (forall i, is_uint 64 (double_bits i) /\ IsNaN (double_bits i) = false) /\
  Forall valid_mem values /\ Forall indexed values /\ values <> [] /\ Z.of_nat (length values) <= 2 ^ 15 /\
  exists wff available pOut bytes nZero, szMalloc pOut < 2 ^ 31 /\ limit pOut < 2 ^ 31 /\
    OP_MakeRecord double_bits wff available pOut values = Some (Record_made (Some <$> bytes) nZero) /\
    key = bytes ++ zeros (default 0 nZero).

Lemma index_recorded double_bits values key : index_record double_bits values key ->
  (forall i, is_uint 64 (double_bits i) /\ IsNaN (double_bits i) = false) /\
  exists hb L h, recorded double_bits key hb L h /\ values = row_value <$> L /\ L <> [].
Proof.
  intros (Hdb & Hv & Hi & Hne & Hlen & wff & available & pOut & bytes & nZero & Hm & Hl & Hmade & ->). split; [done|].
  destruct (made_recorded double_bits Hdb wff available pOut values _ nZero Hv Hi Hlen Hm Hl Hmade) as (bytes' & hb & L & h & Hz & Hrec & Hvalues).
  apply (inj (fmap Some)) in Hz as <-. exists hb, L, h. split; [done|]. split; [done|]. by intros ->.
Qed.

(** C25: a key is found where it belongs. For the record of any values of an index and any key,
    the comparison of the bytes of the record with the key gives the first difference of the values and
    the key, each column in its collating sequence and sort order, and nothing is read outside the record.
    If there is no difference it returns [default_rc] and sets [eqSeen], or reports a corrupt index when
    the record has fewer values than the key.  The assertion that compares the result with a comparison
    of decoded values, [vdbeRecordCompareDebug], holds. *)
Theorem record_compare_is_order bUseLongDouble double_bits values key pad p : index_record double_bits values key ->
  key_ok p -> Forall mem_ok (aMem p) -> Forall is_byte pad ->
  exists c, record_order bUseLongDouble (pKeyInfo p) 0 (stored double_bits <$> values) (take (nField p) (aMem p)) = Some c /\
    sqlite3VdbeRecordCompare bUseLongDouble (size key) (key ++ pad) p = Some (outcome p (nField p <=? length values)%nat c) /\
    forall db corrupt_db mallocFailed,
      vdbeRecordCompareDebug bUseLongDouble db corrupt_db mallocFailed (size key) (key ++ pad) p (outcome p true c).1 = Some true.
Proof.
  intros Hrow Hp Hm Hpad. destruct (index_recorded _ _ _ Hrow) as (Hdb & hb & L & h & Hrec & -> & Hne).
  destruct (compare_general bUseLongDouble double_bits key hb L h pad Hrec Hne Hpad p Hp Hm) as (c & Hc & Hr).
  exists c. split; [done|]. split; [by rewrite length_fmap|]. intros db corrupt_db mallocFailed. by eapply debug_holds.
Qed.

(** C26: the fast comparisons are the general one. The function [sqlite3VdbeFindCompare] chooses for a
    key gives, on the record of any values of the index with all those of the key, a result of the same
    sign as the general comparison, and leaves the same [eqSeen] and [errCode]. *)
Theorem find_compare_equivalent bUseLongDouble double_bits values key pad p : index_record double_bits values key ->
  key_ok p -> Forall mem_ok (aMem p) -> Forall is_byte pad ->
  (nField p <= length values)%nat -> Z.of_nat (length values) <= nAllField (pKeyInfo p) ->
  exists f p' rc q rc' q', sqlite3VdbeFindCompare p = Some (f, p') /\
    sqlite3VdbeRecordCompare bUseLongDouble (size key) (key ++ pad) p = Some (rc, q) /\
    call bUseLongDouble f (size key) (key ++ pad) p' = Some (rc', q') /\
    Z.sgn rc' = Z.sgn rc /\ eqSeen q' = eqSeen q /\ errCode q' = errCode q.
Proof.
  intros Hrow Hp Hm Hpad Hfields Hall. destruct (index_recorded _ _ _ Hrow) as (Hdb & hb & L & h & Hrec & -> & Hne). rewrite length_fmap in Hfields, Hall.
  destruct (find_compare_spec p Hp) as (f & p' & Hfind & (Hk & HM & Hn) & (Hdef & Herr & Heq) & Hchosen).
  destruct (compare_general bUseLongDouble double_bits key hb L h pad Hrec Hne Hpad p Hp Hm) as (c & Hc & Hr).
  rewrite (proj2 (Nat.leb_le _ _)) in Hr by done.
  assert (Hp' : key_ok p') by (destruct Hp; constructor; rewrite ?Hk, ?HM, ?Hn; done).
  assert (Hm' : Forall mem_ok (aMem p')) by (by rewrite HM). destruct L as [|r L']; [done|].
  assert (Hsame : same_outcome bUseLongDouble double_bits (r :: L') p' (call bUseLongDouble f (size key) (key ++ pad) p')).
  { assert (Hn' : (nField p' <= length (r :: L'))%nat) by (by rewrite Hn). destruct f; cbn [call].
    - by eapply general_same.
    - destruct Hchosen as (H13 & v & ws & HMv & Hu & Hres). destruct (key_colls p' Hp' 0) as [pColl Hcoll]; [apply Hp'|].
      eapply compare_int_same; try done. lia.
    - destruct Hchosen as (H13 & Hcoll & z & ws & HMz & Hu & Hres). rewrite <- Hk in Hcoll. eapply compare_string_same; try done. lia. }
  destruct Hsame as (c' & rc' & Hc' & Hcall & Hsgn). rewrite Hk, HM, Hn, Hc in Hc'. injection Hc' as <-.
  exists f, p', (outcome p true c).1, (outcome p true c).2, rc', (outcome p' true c).2. split; [done|]. split; [by destruct (outcome p true c)|].
  split; [done|]. rewrite Hsgn. unfold outcome, set_eqSeen. destruct (c =? 0); cbn [fst snd errCode eqSeen]; by rewrite ?Hdef.
Qed.

(** C27: no bytes can harm a comparison. Whatever [nKey1] bytes are compared with a key, the
    chosen function and the general one end, and read nothing past the 74 bytes that the code
    leaves after a record: the result stands, or the record is reported as corrupt with the result 0. *)
Theorem compare_any_bytes bUseLongDouble nKey1 aKey1 p : Forall is_byte aKey1 -> 0 <= nKey1 < 2 ^ 31 -> nKey1 + 74 <= size aKey1 ->
  key_ok p -> ends p (sqlite3VdbeRecordCompare bUseLongDouble nKey1 aKey1 p) /\
  exists f p', sqlite3VdbeFindCompare p = Some (f, p') /\ ends p' (call bUseLongDouble f nKey1 aKey1 p').
Proof.
  intros Hb Hn Hroom Hp. split; [by apply compare_with_skip_ends|].
  destruct (find_compare_spec p Hp) as (f & p' & Hfind & (Hk & HM & HnF) & _ & Hchosen). exists f, p'. split; [done|].
  assert (Hp' : key_ok p') by (destruct Hp; constructor; rewrite ?Hk, ?HM, ?HnF; done).
  destruct f; cbn [call]; [by apply compare_with_skip_ends|..].
  - destruct Hchosen as (_ & v & ws & _ & Hu & _). by eapply compare_int_key_ends.
  - destruct Hchosen as (_ & _ & z & ws & _ & Hu & _). by eapply compare_string_key_ends.
Qed.

(** ** An index on three columns, the first in descending order *)

Definition example_values : list mem := [Mem_int 7; Mem_str [97; 98]; Mem_null false].
Definition example_bytes : list Z := [4; 1; 17; 0; 7; 97; 98].
Definition example_key : UnpackedRecord :=
  mkUnpacked (mkKeyInfo 4 [1; 0; 2] [None; None; None]) [Mem_int 7; Mem_str [98]] 2 0 0 0 U_none 0 false.

Lemma example_index_record : index_record (fun _ => 0) example_values example_bytes.
Proof.
  split; [intros _; split; [unfold is_uint; lia|done]|]. split.
  { unfold example_values. rewrite !Forall_cons. cbn [valid_mem]. unfold is_sint. rewrite !Forall_cons. unfold is_byte, is_uint, size. cbn [length]. split_and!; try done; lia. }
  split; [by repeat constructor|]. split; [done|]. split; [cbn; lia|].
  exists 4, (fun _ => true), (mkOut 0 1000 true), example_bytes, None. split; [cbn; lia|]. split; [cbn; lia|]. split; [by vm_compute|done].
Qed.

Lemma example_key_ok : key_ok example_key.
Proof.
  constructor; cbn.
  - lia.
  - lia.
  - intros [|[|i]] Hi; [by eexists..|lia].
  - intros [|[|i]] Hi; [exists 1; split; [done|lia]|exists 0; split; [done|lia]|lia].
Qed.

Lemma example_mems : Forall mem_ok (aMem example_key).
Proof. cbn. rewrite !Forall_cons. cbn. rewrite !Forall_cons. unfold is_sint, is_byte, is_uint. split_and!; done || lia. Qed.

Lemma record_compare_is_order_witness : sqlite3VdbeRecordCompare false 7 (example_bytes ++ [1; 2]) example_key = Some (-1, example_key).
Proof.
  destruct (record_compare_is_order false (fun _ => 0) example_values example_bytes [1; 2] example_key
    example_index_record example_key_ok example_mems) as (c & Hc & Hr & _).
  - rewrite !Forall_cons. unfold is_byte, is_uint. split_and!; done || lia.
  - vm_compute in Hc. injection Hc as <-. exact Hr.
Defined.

(** The function for keys that begin with an integer. *)
Lemma find_compare_equivalent_witness : exists p' rc q, sqlite3VdbeFindCompare example_key = Some (Compare_int, p') /\
  vdbeRecordCompareInt false 7 (example_bytes ++ [1; 2]) p' = Some (rc, q) /\ rc < 0.
Proof.
  destruct (find_compare_equivalent false (fun _ => 0) example_values example_bytes [1; 2] example_key
    example_index_record example_key_ok example_mems) as (f & p' & rc & q & rc' & q' & Hfind & Hgen & Hcall & Hsgn & _).
  - rewrite !Forall_cons. unfold is_byte, is_uint. split_and!; done || lia.
  - cbn. lia.
  - cbn. lia.
  - assert (Hf : f = Compare_int) by (vm_compute in Hfind; congruence). subst f. exists p', rc', q'. split; [exact Hfind|]. split; [exact Hcall|].
    assert (Hrc : rc = -1) by (vm_compute in Hgen; congruence). subst rc. cbn in Hsgn. lia.
Defined.

(** A header that says the first value is an integer of eight bytes, in a record of one byte. *)
Lemma compare_any_bytes_witness : exists f p', sqlite3VdbeFindCompare example_key = Some (f, p') /\
  ends p' (call false f 1 ([0x3f; 6] ++ replicate 73 0xff) p').
Proof.
  apply (compare_any_bytes false 1 ([0x3f; 6] ++ replicate 73 0xff) example_key).
  - apply Forall_app. split; [|apply Forall_replicate]; rewrite ?Forall_cons; unfold is_byte, is_uint; split_and?; done || lia.
  - lia.
  - vm_compute. discriminate.
  - exact example_key_ok.
Defined.

(** A record of one value for a key of two: the general comparison finds it corrupt, and the one for
    integers reads the bytes of the value as a header. *)
Example skip_past_header : let p := set_results (-1) 1 (U_i 7) (mkUnpacked (mkKeyInfo 3 [0; 0] [None; None]) [Mem_int 7; Mem_int 1] 2 0 0 0 U_none 0 false) in
  let bytes := [2; 1; 7] ++ replicate 74 0 in
  sqlite3VdbeRecordCompare false 3 bytes p = Some (0, set_corrupt p) /\ vdbeRecordCompareInt false 3 bytes p = Some (-1, p).
Proof. by vm_compute. Qed.
