(* ===== verification/Allocation.v ===== *)
(** * Allocation: memory that the allocator may refuse

    The functions of sqlite3.c that allocate are functions of the number of allocations made
    before, and which of them succeed is a parameter, so that a theorem is about every way in
    which memory can run out.  [None] is undefined behaviour. *)

From S2P Require Export Prelude.

Definition M (A : Type) : Type := nat -> option (A * nat).
#[global] Instance M_ret : MRet M := fun A x n => Some (x, n).
#[global] Instance M_bind : MBind M := fun A B f m n => match m n with Some (x, n) => f x n | None => None end.
Definition lift {A} (o : option A) : M A := fun n => match o with Some x => Some (x, n) | None => None end.

(** Whether the next allocation succeeds. *)
Definition allocates (malloc : nat -> bool) : M bool := fun n => Some (malloc n, S n).

Definition SQLITE_OK : Z := 0.
Definition SQLITE_NOMEM : Z := 7.

(** ** What a call does *)

(** Called after [n] allocations, [m] returns [x] after [n']. *)
Definition returns {A} (m : M A) (n : nat) (x : A) (n' : nat) : Prop := m n = Some (x, n').

Lemma returns_ret {A} (x : A) n : returns (mret x) n x n.
Proof. done. Qed.
Lemma returns_bind {A B} (m : M A) (f : A -> M B) n x n1 y n2 : returns m n x n1 -> returns (f x) n1 y n2 -> returns (m ≫= f) n y n2.
Proof. unfold returns, mbind, M_bind. by intros ->. Qed.
Lemma returns_lift {A} (o : option A) x n : o = Some x -> returns (lift o) n x n.
Proof. unfold returns, lift. by intros ->. Qed.
Lemma returns_allocates malloc n : returns (allocates malloc) n (malloc n) (S n).
Proof. done. Qed.

(** An allocation is refused between [n] and [n']. *)
Definition refused (malloc : nat -> bool) (n n' : nat) : Prop := exists m, (n <= m < n')%nat /\ malloc m = false.

Lemma refused_weaken malloc n1 n2 n1' n2' : (n1' <= n1)%nat -> (n2 <= n2')%nat -> refused malloc n1 n2 -> refused malloc n1' n2'.
Proof. intros H1 H2 (m & Hm & Hf). exists m. split; [lia|done]. Qed.
