(* ===== verification/StrAccum.v ===== *)
(** * StrAccum: SQLite's strings that grow

    sqlite3.c, printf.c part: a string to which text is appended, in memory that grows with it up to
    a limit.  The functions here are those of a string without a database connection
    ([db] is null), as the aggregate functions use them, so that its memory comes from
    [sqlite3Realloc] and an error is recorded in the string only.  [zText] holds the first
    [nChar] bytes of the [nAlloc] bytes at the pointer; a pointer of its own that is not from
    the allocator ([malloced] is false) has [nAlloc] bytes as well. *)

From S2P Require Export Allocation RecordFormat.

Definition SQLITE_TOOBIG : Z := 18.

Record StrAccum := mkStr { zText : option (list Z); nAlloc : Z; mxAlloc : Z; accError : Z; malloced : bool }.

Definition text (p : StrAccum) : list Z := default [] (zText p).
Definition nChar (p : StrAccum) : Z := size (text p).
Definition set_text (z : list Z) (p : StrAccum) : StrAccum := mkStr ((fun _ => z) <$> zText p) (nAlloc p) (mxAlloc p) (accError p) (malloced p).
Definition set_mxAlloc (mx : Z) (p : StrAccum) : StrAccum := mkStr (zText p) (nAlloc p) mx (accError p) (malloced p).
Definition set_accError (e : Z) (p : StrAccum) : StrAccum := mkStr (zText p) (nAlloc p) (mxAlloc p) e (malloced p).

(** What a function leaves as its result. *)
Inductive result := Result_null | Result_text (z : list Z) | Result_error (code : Z).

Definition sqlite3_str_reset (p : StrAccum) : StrAccum := mkStr None 0 (mxAlloc p) (accError p) false.

Definition sqlite3StrAccumSetError (eError : Z) (p : StrAccum) : StrAccum :=
  let p := set_accError eError p in
  if negb (mxAlloc p =? 0) then sqlite3_str_reset p else p.

Section strings.
(** Whether an allocation succeeds, and the bytes it gives when so many are asked for
    ([sqlite3MallocSize]). *)
Variable malloc : nat -> bool.
Variable usable : nat -> Z -> Z.

Definition sqlite3Realloc (n : Z) : M (option Z) := fun k => Some (if malloc k then Some (usable k n) else None, S k).

Definition sqlite3StrAccumEnlarge (N : Z) (p : StrAccum) : M (Z * StrAccum) :=
  if negb (accError p =? 0) then mret (0, p)
  else if mxAlloc p =? 0 then
    let p := sqlite3StrAccumSetError SQLITE_TOOBIG p in
    mret (i32 (u32 (nAlloc p - nChar p - 1)), p)
  else
    let szNew := nChar p + N + 1 in
    let szNew := if szNew + nChar p <=? mxAlloc p then szNew + nChar p else szNew in
    if mxAlloc p <? szNew then mret (0, sqlite3StrAccumSetError SQLITE_TOOBIG (sqlite3_str_reset p))
    else
      zNew ← sqlite3Realloc szNew;
      match zNew with
      | Some size => mret (i32 N, mkStr (Some (text p)) size (mxAlloc p) (accError p) true)
      | None => mret (0, sqlite3StrAccumSetError SQLITE_NOMEM (sqlite3_str_reset p))
      end.

(** Writing bytes after the text. *)
Definition store (z : list Z) (p : StrAccum) : option StrAccum :=
  match zText p with
  | Some old => if size old + size z <=? nAlloc p then Some (set_text (old ++ z) p) else None
  | None => if size z =? 0 then Some p else None
  end.

Definition sqlite3_str_appendchar (N c : Z) (p : StrAccum) : M StrAccum :=
  if nAlloc p <=? nChar p + N then
    '(N, p) ← sqlite3StrAccumEnlarge N p;
    if N <=? 0 then mret p else lift (store (replicate (Z.to_nat N) c) p)
  else lift (store (replicate (Z.to_nat N) c) p).

Definition enlargeAndAppend (z : list Z) (p : StrAccum) : M StrAccum :=
  '(N, p) ← sqlite3StrAccumEnlarge (size z) p;
  if 0 <? N then lift (if N <=? size z then store (take (Z.to_nat N) z) p else None) else mret p.

(** The [N] bytes at [z] are [z]. *)
Definition sqlite3_str_append (z : list Z) (p : StrAccum) : M StrAccum :=
  if nAlloc p <=? nChar p + size z then enlargeAndAppend z p
  else if negb (size z =? 0) then lift (store z p)
  else mret p.

(** The text at the pointer, which is terminated first, and null for no text. *)
Definition sqlite3_str_value (p : StrAccum) : option (option (list Z)) :=
  if nChar p =? 0 then Some None
  else z ← zText p; if nChar p <? nAlloc p then Some (Some z) else None.

(** The result, and the string afterwards: its memory is the result's, or released. *)
Definition sqlite3ResultStrAccum (p : StrAccum) : option (result * StrAccum) :=
  if negb (accError p =? 0) then Some (Result_error (accError p), sqlite3_str_reset p)
  else if malloced p then z ← zText p; Some (Result_text z, p)
  else Some (Result_text [], sqlite3_str_reset p).

(** ** Well-formed strings *)

Section laws.
Hypothesis usable_enough : forall k n, n <= usable k n.
Variable limit : Z.
Hypothesis limit_positive : 0 < limit < 2 ^ 31 - 1.

(** A string has the memory of its text and a terminator, or none; after an error it has no text. *)
Record str_ok (p : StrAccum) : Prop := {
  ok_limit : mxAlloc p = 0 \/ mxAlloc p = limit;
  ok_error : accError p = 0 \/ accError p = SQLITE_NOMEM \/ accError p = SQLITE_TOOBIG;
  ok_memory : match zText p with Some z => malloced p = true /\ size z < nAlloc p /\ accError p = 0 | None => malloced p = false /\ nAlloc p = 0 end;
}.

(** What appending [z] gives: the text with [z] after it, or an error, which has a reason. *)
Definition appended (z : list Z) (p p' : StrAccum) (n n' : nat) : Prop :=
  (n <= n')%nat /\ str_ok p' /\ mxAlloc p' = mxAlloc p /\ (accError p <> 0 -> accError p' = accError p) /\
  (accError p' = 0 -> text p' = text p ++ z) /\
  (accError p = 0 -> accError p' <> 0 -> (accError p' = SQLITE_NOMEM /\ refused malloc n n') \/ (accError p' = SQLITE_TOOBIG /\ limit <= size (text p ++ z))).

Lemma reset_ok e p : str_ok p -> e = SQLITE_NOMEM \/ e = SQLITE_TOOBIG -> str_ok (sqlite3StrAccumSetError e (sqlite3_str_reset p)).
Proof.
  intros Hp He. unfold sqlite3StrAccumSetError, sqlite3_str_reset, set_accError. cbn [mxAlloc zText].
  case_if; constructor; cbn; first [by right|done|by apply Hp].
Qed.

(** The memory that an enlarged string has. *)
Lemma enlarge_spec N p n : str_ok p -> mxAlloc p = limit -> 0 <= N < 2 ^ 31 ->
  exists r p' n', returns (sqlite3StrAccumEnlarge N p) n (r, p') n' /\ (n <= n')%nat /\ str_ok p' /\ mxAlloc p' = limit /\
    ((r = N /\ accError p = 0 /\ accError p' = 0 /\ zText p' = Some (text p) /\ nChar p + N < nAlloc p') \/
     (r = 0 /\ accError p' <> 0 /\ (accError p <> 0 -> accError p' = accError p) /\ (accError p = 0 -> (accError p' = SQLITE_NOMEM /\ refused malloc n n') \/ (accError p' = SQLITE_TOOBIG /\ limit <= nChar p + N)))).
Proof.
  intros Hp Hmx HN. unfold sqlite3StrAccumEnlarge. destruct (Z.eqb_spec (accError p) 0) as [He|He]; cbn [negb].
  2: { exists 0, p, n. split_and!; [done|lia|done|done|]. right. by split_and!. }
  rewrite Hmx. rewrite (proj2 (Z.eqb_neq limit 0)) by lia. set (sz := if _ <=? limit then _ else _).
  assert (Hsz : nChar p + N < sz) by (unfold sz, nChar; pose proof (size_nonneg (text p)); case_if; lia).
  destruct (Z.ltb_spec limit sz) as [Hbig|Hfit].
  - exists 0, (sqlite3StrAccumSetError SQLITE_TOOBIG (sqlite3_str_reset p)), n. split_and!; [done|lia|by apply reset_ok; auto| |].
    + unfold sqlite3StrAccumSetError. case_if; done.
    + right. split; [done|]. unfold sqlite3StrAccumSetError, set_accError, sqlite3_str_reset. cbn [mxAlloc]. rewrite Hmx, (proj2 (Z.eqb_neq limit 0)) by lia.
      cbn. split_and!; [done|done|]. right. split; [done|]. unfold sz in Hbig. revert Hbig. case_if; lia.
  - unfold sqlite3Realloc. destruct (malloc n) eqn:Hm.
    + exists (i32 N), (mkStr (Some (text p)) (usable n sz) limit (accError p) true), (S n).
      split_and!; [unfold returns, mbind, M_bind; by rewrite Hm|lia| |done|].
      * constructor; cbn; [by right|by left|]. pose proof (usable_enough n sz). unfold nChar in Hsz. split_and!; [done|lia|done].
      * left. pose proof (usable_enough n sz). cbn. rewrite i32_small by (unfold is_sint; lia). split_and!; [done..|lia].
    + exists 0, (sqlite3StrAccumSetError SQLITE_NOMEM (sqlite3_str_reset p)), (S n).
      split_and!; [unfold returns, mbind, M_bind; by rewrite Hm|lia|by apply reset_ok; auto| |].
      * unfold sqlite3StrAccumSetError. case_if; done.
      * right. split; [done|]. unfold sqlite3StrAccumSetError, set_accError, sqlite3_str_reset. cbn [mxAlloc]. rewrite Hmx, (proj2 (Z.eqb_neq limit 0)) by lia.
        cbn. split_and!; [done|done|]. left. split; [done|]. exists n. split; [lia|done].
Qed.

Lemma text_some p z : zText p = Some z -> text p = z.
Proof. unfold text. by intros ->. Qed.

Lemma store_spec z p : str_ok p -> is_Some (zText p) -> nChar p + size z < nAlloc p ->
  exists p', store z p = Some p' /\ str_ok p' /\ mxAlloc p' = mxAlloc p /\ accError p' = accError p /\ text p' = text p ++ z.
Proof.
  intros Hp [old Hold] Hfit. pose proof (ok_memory p Hp) as Hm. unfold nChar in Hfit. rewrite Hold in Hm. destruct Hm as (H1 & H2 & H3).
  rewrite (text_some p old Hold) in *. exists (set_text (old ++ z) p). unfold store, set_text. rewrite Hold.
  destruct (Z.leb_spec (size old + size z) (nAlloc p)); [|lia]. split_and!; [done| |done|done|done].
  constructor; cbn; [apply Hp|by left|]. split_and!; [done|by rewrite size_app|done].
Qed.

(** No error: the text is stored. *)
Lemma appended_store z p p1 n n1 : str_ok p1 -> (n <= n1)%nat -> mxAlloc p1 = mxAlloc p -> accError p = 0 -> zText p1 = Some (text p) ->
  nChar p + size z < nAlloc p1 -> exists p', store z p1 = Some p' /\ appended z p p' n n1.
Proof.
  intros H1 Hn Hmx He Ht Hfit. assert (Htext : text p1 = text p) by (unfold text at 1; by rewrite Ht).
  destruct (store_spec z p1) as (p' & Hs & Hok & Hmx' & He' & Ht'); [done|by rewrite Ht|unfold nChar; by rewrite Htext|].
  pose proof (ok_memory p1 H1) as Hm. rewrite Ht in Hm. destruct Hm as (_ & _ & He1).
  exists p'. split; [done|]. unfold appended. split_and!; [done|done|by rewrite Hmx'|done| |]; intros; [by rewrite Ht', Htext|congruence].
Qed.

Lemma appended_error z p p' n n' : (n <= n')%nat -> str_ok p' -> mxAlloc p' = mxAlloc p -> accError p' <> 0 -> (accError p <> 0 -> accError p' = accError p) ->
  (accError p = 0 -> (accError p' = SQLITE_NOMEM /\ refused malloc n n') \/ (accError p' = SQLITE_TOOBIG /\ limit <= nChar p + size z)) ->
  appended z p p' n n'.
Proof. intros. unfold appended. rewrite size_app. split_and!; [done..|]. auto. Qed.

(** A string with room has memory. *)
Lemma room p k : str_ok p -> 0 <= k -> nChar p + k < nAlloc p -> zText p = Some (text p) /\ accError p = 0.
Proof.
  intros Hp Hk Hroom. pose proof (ok_memory p Hp) as Hm. pose proof (size_nonneg (text p)). unfold nChar in Hroom.
  destruct (zText p) as [z|] eqn:Hz; [rewrite (text_some p z Hz); by destruct Hm as (_ & _ & He)|lia].
Qed.

Lemma append_spec z p n : str_ok p -> mxAlloc p = limit -> size z < 2 ^ 31 ->
  exists p' n', returns (sqlite3_str_append z p) n p' n' /\ appended z p p' n n'.
Proof.
  intros Hp Hmx Hz. pose proof (size_nonneg z) as Hz0. unfold sqlite3_str_append. destruct (Z.leb_spec (nAlloc p) (nChar p + size z)) as [Hfull|Hroom].
  - destruct (enlarge_spec (size z) p n Hp Hmx) as (r & p1 & n1 & Hr & Hn & Hok & Hmx1 & Hcase); [lia|]. rewrite <- Hmx in Hmx1.
    unfold enlargeAndAppend. destruct Hcase as [(-> & He & _ & Ht & Hfit)|(-> & He & Hsame & Hwhy)].
    + destruct (appended_store z p p1 n n1) as (p' & Hs & Happ); [done..|]. destruct (Z.ltb_spec 0 (size z)) as [Hpos|Hzero].
      * exists p', n1. split; [|done]. eapply returns_bind; [exact Hr|]. cbn beta iota. rewrite (proj2 (Z.ltb_lt 0 (size z)) Hpos), Z.leb_refl.
        apply returns_lift. by rewrite take_ge by (unfold size; lia).
      * exists p1, n1. split; [eapply returns_bind; [exact Hr|]; cbn beta iota; by rewrite (proj2 (Z.ltb_ge _ _)) by lia|].
        assert (z = []) as -> by (destruct z; [done|unfold size in Hzero; cbn [length] in Hzero; lia]).
        unfold store in Hs. rewrite Ht, app_nil_r in Hs. destruct (_ <=? _); [|done]. injection Hs as <-. unfold set_text in Happ. rewrite Ht in Happ.
        destruct p1; cbn in *. by rewrite Ht in *.
    + exists p1, n1. split; [by eapply returns_bind; [exact Hr|]|]. by apply appended_error.
  - destruct (room p (size z)) as [Ht He]; [done..|]. destruct (Z.eqb_spec (size z) 0) as [Hzero|Hpos]; cbn [negb].
    + exists p, n. split; [done|]. assert (z = []) as -> by (destruct z; [done|unfold size in Hzero; cbn [length] in Hzero; lia]).
      unfold appended. rewrite app_nil_r. split_and!; [lia|done..|]. by intros _ [].
    + destruct (appended_store z p p n n) as (p' & Hs & Happ); [done..|]. exists p', n. split; [by apply returns_lift|done].
Qed.

Lemma appendchar_spec c p n : str_ok p -> mxAlloc p = limit ->
  exists p' n', returns (sqlite3_str_appendchar 1 c p) n p' n' /\ appended [c] p p' n n'.
Proof.
  intros Hp Hmx. unfold sqlite3_str_appendchar. change (replicate (Z.to_nat 1) c) with [c]. change 1 with (size [c]) at 1 2.
  destruct (Z.leb_spec (nAlloc p) (nChar p + size [c])) as [Hfull|Hroom].
  - destruct (enlarge_spec (size [c]) p n Hp Hmx) as (r & p1 & n1 & Hr & Hn & Hok & Hmx1 & Hcase); [done|]. rewrite <- Hmx in Hmx1.
    destruct Hcase as [(-> & He & _ & Ht & Hfit)|(-> & He & Hsame & Hwhy)].
    + destruct (appended_store [c] p p1 n n1) as (p' & Hs & Happ); [done..|]. exists p', n1. split; [|done].
      eapply returns_bind; [exact Hr|]. cbn. by apply returns_lift.
    + exists p1, n1. split; [by eapply returns_bind; [exact Hr|]|]. by apply appended_error.
  - destruct (room p (size [c])) as [Ht He]; [done..|]. destruct (appended_store [c] p p n n) as (p' & Hs & Happ); [done..|].
    exists p', n. split; [by apply returns_lift|done].
Qed.

Lemma set_mxAlloc_ok mx p : str_ok p -> mx = 0 \/ mx = limit -> str_ok (set_mxAlloc mx p).
Proof. intros Hp Hmx. constructor; [done|apply Hp|apply Hp]. Qed.

(** Another text that is no longer than the one there. *)
Lemma set_text_ok z p : str_ok p -> size z <= nChar p -> str_ok (set_text z p) /\ text (set_text z p) = z.
Proof.
  intros Hp Hz. pose proof (ok_memory p Hp) as Hm. unfold nChar in Hz. unfold set_text, text at 1. destruct (zText p) as [old|] eqn:Hold; cbn.
  - rewrite (text_some p old Hold) in Hz. destruct Hm as (H1 & H2 & H3). split; [|done].
    constructor; cbn; [apply Hp|by left|]. split_and!; [done|lia|done].
  - unfold text in Hz. rewrite Hold in Hz. cbn in Hz. destruct z; [|unfold size in Hz; cbn [length] in Hz; lia]. split; [|done].
    constructor; cbn; [apply Hp|apply Hp|done].
Qed.

Lemma set_error_ok e p : str_ok p -> mxAlloc p = limit -> e = SQLITE_NOMEM \/ e = SQLITE_TOOBIG ->
  str_ok (sqlite3StrAccumSetError e p) /\ accError (sqlite3StrAccumSetError e p) = e /\ mxAlloc (sqlite3StrAccumSetError e p) = limit.
Proof.
  intros Hp Hmx He. unfold sqlite3StrAccumSetError, set_accError, sqlite3_str_reset. cbn [mxAlloc]. rewrite Hmx, (proj2 (Z.eqb_neq limit 0)) by lia. cbn.
  split; [|done]. constructor; cbn; [by right|by right|done].
Qed.

Lemma value_spec p : str_ok p -> sqlite3_str_value p = Some (if bool_decide (text p = []) then None else Some (text p)).
Proof.
  intros Hp. unfold sqlite3_str_value. case_bool_decide as Ht; [unfold nChar; by rewrite Ht|].
  pose proof (ok_memory p Hp) as Hm. unfold nChar. destruct (zText p) as [z|] eqn:Hz; [|unfold text in Ht; by rewrite Hz in Ht].
  rewrite (text_some p z Hz) in *. destruct Hm as (_ & Hm & _). cbn [mbind option_bind]. rewrite (proj2 (Z.ltb_lt _ _) Hm).
  destruct (Z.eqb_spec (size z) 0) as [H0|]; [|done]. destruct z; [done|]. unfold size in H0. cbn [length] in H0. lia.
Qed.

Lemma result_spec p : str_ok p -> exists p', sqlite3ResultStrAccum p = Some (if accError p =? 0 then Result_text (text p) else Result_error (accError p), p').
Proof.
  intros Hp. unfold sqlite3ResultStrAccum. destruct (accError p =? 0); cbn [negb]; [|by eexists]. pose proof (ok_memory p Hp) as Hm.
  destruct (zText p) as [z|] eqn:Hz.
  - destruct Hm as (-> & _ & _). cbn [mbind option_bind]. rewrite (text_some p z Hz). by eexists.
  - destruct Hm as (-> & _). unfold text. rewrite Hz. by eexists.
Qed.
End laws.
End strings.
