(* ===== verification/GroupConcat.v ===== *)
(** * GroupConcat: SQLite's group_concat, over a group and over a window

    sqlite3.c, func.c part: the texts of a group, one after the other with separators between
    them.  As a window function, the texts of a frame: rows enter at the end and leave in the
    order in which they entered, and a text that leaves takes the separator after it along, so that
    the lengths of the separators are remembered once they differ. *)

From S2P Require Export StrAccum.

(** The value of an argument: null; a value whose text is at hand (a text, or a blob, whose bytes are
    taken for one); a number, whose text is made in memory of the connection; and a blob of zeros,
    which needs such memory to be expanded. *)
Inductive value := Null | Text (z : list Z) | Number (z : list Z) | Zeroblob (n : nat).

(** The arguments of a call; no second argument is [None]. *)
Record args := mkArgs { val : value; sep : option value }.

Record GroupConcatCtx := mkCtx { str : StrAccum; nAccum : Z; nFirstSepLength : Z; pnSepLengths : option (list (option Z)) }.
(** The context that [sqlite3_aggregate_context] clears. *)
Definition no_context : GroupConcatCtx := mkCtx (mkStr None 0 0 0 false) 0 0 None.

(** What a call works on: the accumulator, which is not an aggregate context yet ([None]), or one that
    has its memory or had none; and [db->mallocFailed], set when the connection is refused
    memory. *)
Record aggregate := mkAggregate { pMem : option (option GroupConcatCtx); mallocFailed : bool }.
Definition no_aggregate : aggregate := mkAggregate None false.

Definition set_str (s : StrAccum) (p : GroupConcatCtx) : GroupConcatCtx := mkCtx s (nAccum p) (nFirstSepLength p) (pnSepLengths p).
Definition set_nAccum (n : Z) (p : GroupConcatCtx) : GroupConcatCtx := mkCtx (str p) n (nFirstSepLength p) (pnSepLengths p).
Definition set_nFirstSepLength (n : Z) (p : GroupConcatCtx) : GroupConcatCtx := mkCtx (str p) (nAccum p) n (pnSepLengths p).
Definition set_pnSepLengths (l : option (list (option Z))) (p : GroupConcatCtx) : GroupConcatCtx := mkCtx (str p) (nAccum p) (nFirstSepLength p) l.

(** ** Arrays of integers, with [None] for a cell that is not initialised *)

Definition store_cell (i x : Z) (l : list (option Z)) : option (list (option Z)) :=
  if (0 <=? i) && (i <? Z.of_nat (length l)) then Some (<[Z.to_nat i := Some x]> l) else None.
Fixpoint fill (k : nat) (i x : Z) (l : list (option Z)) : option (list (option Z)) :=
  match k with O => Some l | S k => l ← store_cell i x l; fill k (i + 1) x l end.
Definition new_cells (n : Z) : list (option Z) := replicate (Z.to_nat n) None.
Definition resize_cells (n : Z) (l : list (option Z)) : list (option Z) :=
  take (Z.to_nat n) l ++ new_cells (n - Z.of_nat (length l)).
(** [memmove] of [n] cells from the second on to the first. *)
Definition move_down (n : Z) (l : list (option Z)) : option (list (option Z)) :=
  if n <=? 0 then Some l
  else if n + 1 <=? Z.of_nat (length l) then Some (take (Z.to_nat n) (drop 1 l) ++ drop (Z.to_nat n) l) else None.

(** A value of type [int]. *)
Definition int (z : Z) : option Z := if (- 2 ^ 31 <=? z) && (z <? 2 ^ 31) then Some z else None.

Section group_concat.
Variable malloc : nat -> bool.
Variable usable : nat -> Z -> Z.
(** [db->aLimit[SQLITE_LIMIT_LENGTH]]. *)
Variable limit : Z.

(** Remembering the length of a separator. *)
Definition separator_lengths (nSep : Z) (p : GroupConcatCtx) : M GroupConcatCtx :=
  if negb (nSep =? nFirstSepLength p) || bool_decide (is_Some (pnSepLengths p)) then
    ok ← allocates malloc;
    pnsl ← match ok, pnSepLengths p with
      | false, _ => mret None
      | true, None => l ← lift (fill (Z.to_nat (nAccum p - 1)) 0 (nFirstSepLength p) (new_cells (nAccum p + 1))); mret (Some l)
      | true, Some l => mret (Some (resize_cells (nAccum p) l))
      end;
    match pnsl with
    | Some l =>
      l ← lift (if 0 <? nAccum p then store_cell (nAccum p - 1) nSep l else Some l);
      mret (set_pnSepLengths (Some l) p)
    | None => mret (set_str (sqlite3StrAccumSetError SQLITE_NOMEM (str p)) p)
    end
  else mret p.

(** Memory from the connection: once it has been refused, no more is asked for. *)
Definition db_allocates (failed : bool) : M bool := if failed then mret false else allocates malloc.

(** [sqlite3_value_text] of an argument: the text, or null when the value is null or there is no
    memory; and the argument, which has become the text. *)
Definition sqlite3_value_text (v : value) (failed : bool) : M (option (list Z) * value * bool) :=
  let convert z :=
    ok ← db_allocates failed;
    mret (match ok with true => (Some z, Text z, false) | false => (None, v, true) end) in
  match v with
  | Null => mret (None, v, failed)
  | Text z => mret (Some z, v, failed)
  | Number z => convert z
  | Zeroblob n => convert (replicate n 0)
  end.

Definition sqlite3_value_bytes (v : value) (failed : bool) : M (Z * bool) :=
  match v with
  | Null => mret (0, failed)
  | Text z => mret (size z, failed)
  | Number _ =>
    '(z, _, failed) ← sqlite3_value_text v failed;
    mret (match z with Some z => size z | None => 0 end, failed)
  | Zeroblob n => mret (Z.of_nat n, failed)
  end.

(** [sqlite3_aggregate_context] with the size of the context; [no_context] is all zeros. *)
Definition sqlite3_aggregate_context (g : aggregate) : M aggregate :=
  match pMem g with
  | Some _ => mret g
  | None =>
    ok ← db_allocates (mallocFailed g);
    mret (match ok with
          | true => mkAggregate (Some (Some no_context)) (mallocFailed g)
          | false => mkAggregate (Some None) true
          end)
  end.
(** And with the size 0, which makes no context. *)
Definition sqlite3_aggregate_context_0 (g : aggregate) : option GroupConcatCtx :=
  match pMem g with Some p => p | None => None end.

(** The separator [zSep] of [nSep] bytes after the first text. *)
Definition append_separator (zSep : option (list Z)) (nSep : Z) (p : GroupConcatCtx) : M GroupConcatCtx :=
  s ← match zSep with Some z => sqlite3_str_append malloc usable z (str p) | None => mret (str p) end;
  separator_lengths (match zSep with Some _ => nSep | None => 0 end) (set_str s p).

(** The separator before the text of [a], when it is not the first. *)
Definition add_separator (a : args) (firstTerm : bool) (p : GroupConcatCtx) (failed : bool) : M (GroupConcatCtx * bool) :=
  match sep a with
  | None =>
    if negb firstTerm then s ← sqlite3_str_appendchar malloc usable 1 44 (str p); mret (set_str s p, failed)
    else mret (set_nFirstSepLength 1 p, failed)
  | Some v =>
    if negb firstTerm then
      '(zSep, v, failed) ← sqlite3_value_text v failed;
      '(nSep, failed) ← sqlite3_value_bytes v failed;
      p ← append_separator zSep nSep p;
      mret (p, failed)
    else
      '(nSep, failed) ← sqlite3_value_bytes v failed;
      mret (set_nFirstSepLength nSep p, failed)
  end.

(** The text of the argument after the separator. *)
Definition append_value (v : value) (p : GroupConcatCtx) (failed : bool) : M (GroupConcatCtx * bool) :=
  '(zVal, _, failed) ← sqlite3_value_text v failed;
  s ← match zVal with Some z => sqlite3_str_append malloc usable z (str p) | None => mret (str p) end;
  mret (set_str s p, failed).

Definition is_null (v : value) : bool := match v with Null => true | _ => false end.

Definition groupConcatStep (a : args) (g : aggregate) : M aggregate :=
  if is_null (val a) then mret g else
  g ← sqlite3_aggregate_context g;
  match pMem g with
  | Some (Some pGCC) =>
    let firstTerm := mxAlloc (str pGCC) =? 0 in
    let p := set_str (set_mxAlloc limit (str pGCC)) pGCC in
    '(p, failed) ← add_separator a firstTerm p (mallocFailed g);
    count ← lift (int (nAccum p + 1));
    '(p, failed) ← append_value (val a) (set_nAccum count p) failed;
    mret (mkAggregate (Some (Some p)) failed)
  | _ => mret g
  end.

(** The length of the text of [n] bytes that leaves and of the separator after it. *)
Definition leaving (n : Z) (p : GroupConcatCtx) : option (Z * GroupConcatCtx) :=
  match pnSepLengths p with
  | Some l =>
    if 0 <? nAccum p then
      first ← l !! 0%nat;
      first ← first;
      l ← move_down (nAccum p - 1) l;
      nVS ← int (n + first);
      Some (nVS, set_pnSepLengths (Some l) p)
    else Some (n, p)
  | None => nVS ← int (n + nFirstSepLength p); Some (nVS, p)
  end.

(** [memmove] of what is left of the text when its first [nVS] bytes go. *)
Definition remove_front (nVS : Z) (s : StrAccum) : option StrAccum :=
  if (0 <=? nVS) && (nVS <=? nChar s) then Some (set_text (drop (Z.to_nat nVS) (text s)) s) else None.

Definition groupConcatInverse (a : args) (g : aggregate) : M aggregate :=
  if is_null (val a) then mret g else
  g ← sqlite3_aggregate_context g;
  match pMem g with
  | Some (Some pGCC) =>
    '(_, v, failed) ← sqlite3_value_text (val a) (mallocFailed g);
    '(n, failed) ← sqlite3_value_bytes v failed;
    '(nVS, p) ← lift (leaving n (set_nAccum (nAccum pGCC - 1) pGCC));
    s ← lift (if nChar (str p) <=? nVS then Some (set_text [] (str p)) else remove_front nVS (str p));
    let p := if nChar s =? 0 then set_pnSepLengths None (set_str (set_mxAlloc 0 s) p) else set_str s p in
    mret (mkAggregate (Some (Some p)) failed)
  | _ => mret g
  end.

(** The result of the group; no context is no row that is not null. *)
Definition groupConcatFinalize (g : aggregate) : option result :=
  match sqlite3_aggregate_context_0 g with
  | Some p => '(r, _) ← sqlite3ResultStrAccum (str p); Some r
  | None => Some Result_null
  end.

(** The result for the frame, while rows come and go. *)
Definition groupConcatValue (g : aggregate) : option result :=
  match sqlite3_aggregate_context_0 g with
  | Some p =>
    if accError (str p) =? SQLITE_TOOBIG then Some (Result_error SQLITE_TOOBIG)
    else if accError (str p) =? SQLITE_NOMEM then Some (Result_error SQLITE_NOMEM)
    else zText ← sqlite3_str_value (str p); Some (match zText with Some z => Result_text z | None => Result_null end)
  | None => Some Result_null
  end.

(** ** Groups and windows *)

Fixpoint group (rows : list args) (g : aggregate) : M aggregate :=
  match rows with [] => mret g | a :: rows => g ← groupConcatStep a g; group rows g end.

Inductive move := Enter (a : args) | Leave.

(** The rows of the frame, and the aggregate. *)
Fixpoint slide (moves : list move) (w : list args) (g : aggregate) : M (list args * aggregate) :=
  match moves with
  | [] => mret (w, g)
  | Enter a :: moves => g ← groupConcatStep a g; slide moves (w ++ [a]) g
  | Leave :: moves =>
    match w with
    | a :: w => g ← groupConcatInverse a g; slide moves w g
    | [] => slide moves w g
    end
  end.

(** ** Terms *)

(** A text and the separator before it. *)
Notation term := (list Z * list Z)%type.
Definition text_of (v : value) : option (list Z) :=
  match v with Null => None | Text z | Number z => Some z | Zeroblob n => Some (replicate n 0) end.
Definition separator (a : args) : list Z :=
  match sep a with None => [44] | Some v => default [] (text_of v) end.
Definition terms (w : list args) : list term := omap (fun a => v ← text_of (val a); Some (v, separator a)) w.
(** The separator of the first text is not part of it. *)
Definition joined (l : list term) : list Z :=
  match l with [] => [] | (v, _) :: l => v ++ concat (map (fun '(v, s) => s ++ v) l) end.
Definition lengths (l : list term) : list Z := map (fun t => size t.2) (tail l).

Lemma terms_app w1 w2 : terms (w1 ++ w2) = terms w1 ++ terms w2.
Proof. apply omap_app. Qed.

Lemma terms_length w : (length (terms w) <= length w)%nat.
Proof. unfold terms. induction w as [|a w IH]; [done|]. cbn. destruct (text_of (val a)); cbn; lia. Qed.

Lemma joined_snoc l v s : joined (l ++ [(v, s)]) = joined l ++ (match l with [] => [] | _ => s end) ++ v.
Proof.
  destruct l as [|[v0 s0] l]; cbn; [by rewrite app_nil_r|]. by rewrite map_app, concat_app, <- app_assoc; cbn; rewrite app_nil_r.
Qed.
Lemma joined_cons v s t l : joined ((v, s) :: t :: l) = (v ++ t.2) ++ joined (t :: l).
Proof. destruct t as [v' s']. cbn. by rewrite <- !app_assoc. Qed.
Lemma joined_grows l t : size (joined l) <= size (joined (l ++ [t])).
Proof. destruct t as [v s]. rewrite joined_snoc, !size_app. pose proof (size_nonneg v). destruct l; [|pose proof (size_nonneg s)]; unfold size; cbn; lia. Qed.
Lemma lengths_snoc l t : l <> [] -> lengths (l ++ [t]) = lengths l ++ [size t.2].
Proof. intros Hl. destruct l as [|t0 l]; [done|]. unfold lengths. cbn. by rewrite map_app. Qed.
Lemma lengths_length l : l <> [] -> length l = S (length (lengths l)).
Proof. intros Hl. destruct l; [done|]. unfold lengths. cbn. by rewrite length_map. Qed.

(** ** The lengths of the separators *)

(** What [p] says of the lengths [seps] of the separators after the first text. *)
Definition lengths_ok (p : GroupConcatCtx) (seps : list Z) : Prop :=
  match pnSepLengths p with
  | None => Forall (fun x => x = nFirstSepLength p) seps
  | Some l => (length seps <= length l)%nat /\ take (length seps) l = Some <$> seps
  end.

Lemma store_cell_in i x l : 0 <= i < Z.of_nat (length l) -> store_cell i x l = Some (<[Z.to_nat i := Some x]> l).
Proof. intros Hi. unfold store_cell. by rewrite (proj2 (Z.leb_le 0 i)), (proj2 (Z.ltb_lt i _)) by lia. Qed.

Lemma fill_cells_spec x k : forall (i : nat) l, (i + k <= length l)%nat ->
  exists l', fill k (Z.of_nat i) x l = Some l' /\ length l' = length l /\ take (i + k) l' = take i l ++ replicate k (Some x).
Proof.
  induction k as [|k IH]; intros i l Hl; cbn [fill].
  - exists l. by rewrite Nat.add_0_r, app_nil_r.
  - rewrite store_cell_in by lia. rewrite Nat2Z.id. cbn [mbind option_bind]. replace (Z.of_nat i + 1) with (Z.of_nat (S i)) by lia.
    destruct (IH (S i) (<[i := Some x]> l)) as (l' & -> & Hlen & Ht); [rewrite length_insert; lia|]. exists l'.
    rewrite length_insert in Hlen. split_and!; [done|done|]. replace (i + S k)%nat with (S i + k)%nat by lia. rewrite Ht, take_insert_snoc by lia.
    by rewrite <- app_assoc.
Qed.

Lemma stored_lengths (seps : list Z) x l : (length seps < length l)%nat -> take (length seps) l = Some <$> seps ->
  exists l', store_cell (Z.of_nat (length seps)) x l = Some l' /\ (length (seps ++ [x]) <= length l')%nat /\ take (length (seps ++ [x])) l' = Some <$> (seps ++ [x]).
Proof.
  intros Hl Ht. exists (<[length seps := Some x]> l). rewrite store_cell_in, Nat2Z.id, length_app, length_insert by lia. cbn [length].
  split_and!; [done|lia|]. rewrite Nat.add_1_r, take_insert_snoc, Ht by lia. by rewrite fmap_app.
Qed.

Lemma new_cells_length n : 0 <= n -> Z.of_nat (length (new_cells n)) = n.
Proof. intros Hn. unfold new_cells. rewrite length_replicate. lia. Qed.
Lemma resize_cells_length n l : 0 <= n -> Z.of_nat (length (resize_cells n l)) = n.
Proof. intros Hn. unfold resize_cells. rewrite length_app, length_take. unfold new_cells. rewrite length_replicate. lia. Qed.

(** The table of [nAccum] lengths into which the next is stored. *)
Definition table (p : GroupConcatCtx) : option (list (option Z)) :=
  match pnSepLengths p with
  | None => fill (Z.to_nat (nAccum p - 1)) 0 (nFirstSepLength p) (new_cells (nAccum p + 1))
  | Some l => Some (resize_cells (nAccum p) l)
  end.

Lemma table_spec p : 0 <= nAccum p -> exists l, table p = Some l /\ nAccum p <= Z.of_nat (length l) /\
  forall seps, nAccum p = Z.of_nat (S (length seps)) -> lengths_ok p seps -> take (length seps) l = Some <$> seps.
Proof.
  intros Hn. unfold table, lengths_ok. destruct (pnSepLengths p) as [l|].
  - exists (resize_cells (nAccum p) l). rewrite resize_cells_length by lia. split_and!; [done|lia|].
    intros seps Hc [Hl Ht]. unfold resize_cells. rewrite take_app_le by (rewrite length_take; lia). by rewrite take_take, Nat.min_l by lia.
  - pose proof (new_cells_length (nAccum p + 1)) as Hcells.
    destruct (fill_cells_spec (nFirstSepLength p) (Z.to_nat (nAccum p - 1)) 0 (new_cells (nAccum p + 1))) as (l & Hfill & Hlen & Ht); [lia|].
    change (Z.of_nat 0) with 0 in Hfill. rewrite Hfill. exists l. split_and!; [done|lia|]. intros seps Hc Hseps. rewrite take_0 in Ht. cbn [Nat.add app] in Ht.
    replace (Z.to_nat (nAccum p - 1)) with (length seps) in Ht by lia. rewrite Ht. clear - Hseps. induction Hseps as [|x seps -> _ IH]; [done|]. cbn [length replicate]. by rewrite IH.
Qed.

Lemma separator_lengths_spec nSep p n : 0 <= nAccum p ->
  exists p' n', returns (separator_lengths nSep p) n p' n' /\ (n <= n')%nat /\ nAccum p' = nAccum p /\ nFirstSepLength p' = nFirstSepLength p /\
    ((str p' = str p /\ forall seps, nAccum p = Z.of_nat (S (length seps)) -> lengths_ok p seps -> lengths_ok p' (seps ++ [nSep])) \/
     (str p' = sqlite3StrAccumSetError SQLITE_NOMEM (str p) /\ refused malloc n n')).
Proof.
  intros Hn. unfold separator_lengths. destruct (negb (nSep =? nFirstSepLength p) || bool_decide (is_Some (pnSepLengths p))) eqn:Hdiff.
  2: { exists p, n. split_and!; [done|lia|done|done|]. left. split; [done|]. apply orb_false_iff in Hdiff as [Hsame Hnone].
    apply negb_false_iff, Z.eqb_eq in Hsame. apply bool_decide_eq_false in Hnone. rewrite <- eq_None_not_Some in Hnone.
    intros seps _. unfold lengths_ok. rewrite Hnone. intros Hs. apply Forall_app. split; [done|]. by apply Forall_singleton. }
  destruct (malloc n) eqn:Hm.
  - destruct (table_spec p Hn) as (l & Htable & Hlen & Hl).
    assert (Hstored : exists l', (if 0 <? nAccum p then store_cell (nAccum p - 1) nSep l else Some l) = Some l' /\
      forall seps, nAccum p = Z.of_nat (S (length seps)) -> lengths_ok p seps -> lengths_ok (set_pnSepLengths (Some l') p) (seps ++ [nSep])).
    { destruct (Z.ltb_spec 0 (nAccum p)) as [Hpos|]; [|exists l; split; [done|lia]].
      rewrite store_cell_in by lia. eexists. split; [done|]. intros seps Hc Hseps. specialize (Hl seps Hc Hseps).
      destruct (stored_lengths seps nSep l) as (l' & Hs & Hlen' & Ht); [lia|done|]. rewrite store_cell_in in Hs by lia. injection Hs as Hs.
      replace (nAccum p - 1) with (Z.of_nat (length seps)) by lia. by rewrite Hs. }
    destruct Hstored as (l' & Hs & Hok). exists (set_pnSepLengths (Some l') p), (S n). split_and!; [|lia|done|done|by left].
    eapply returns_bind; [apply returns_allocates|]. rewrite Hm. eapply returns_bind; [instantiate (2 := Some l)|].
    + unfold table in Htable. destruct (pnSepLengths p); [by injection Htable as <-|]. eapply returns_bind; [by apply returns_lift|done].
    + cbn beta iota. eapply returns_bind; [by apply returns_lift|done].
  - exists (set_str (sqlite3StrAccumSetError SQLITE_NOMEM (str p)) p), (S n). split_and!; [|lia|done|done|].
    + eapply returns_bind; [apply returns_allocates|]. rewrite Hm. by destruct (pnSepLengths p).
    + right. split; [done|]. exists n. split; [lia|done].
Qed.

(** ** Arguments *)

Lemma db_allocates_spec failed n : exists ok n', returns (db_allocates failed) n ok n' /\ (n <= n')%nat /\
  (ok = true -> failed = false) /\ (ok = false -> failed = true \/ refused malloc n n').
Proof.
  destruct failed; [exists false, n; by split_and!; auto|]. exists (malloc n), (S n). split_and!; [done|lia|done|].
  intros Hm. right. exists n. split; [lia|done].
Qed.

(** [value] has its text, or memory has been refused. *)
Lemma value_text_spec v failed n : exists z v' failed' n', returns (sqlite3_value_text v failed) n (z, v', failed') n' /\ (n <= n')%nat /\
  (failed' = false -> failed = false /\ z = text_of v) /\ (failed' = true -> failed = true \/ refused malloc n n') /\
  text_of v' = text_of v /\ match z with Some t => v' = Text t /\ text_of v = Some t | None => True end.
Proof.
  assert (Hconvert : forall t, text_of v = Some t ->
    exists z v' failed' n', returns (ok ← db_allocates failed;
      mret (match ok with true => (Some t, Text t, false) | false => (None, v, true) end)) n (z, v', failed') n' /\ (n <= n')%nat /\
    (failed' = false -> failed = false /\ z = text_of v) /\ (failed' = true -> failed = true \/ refused malloc n n') /\
    text_of v' = text_of v /\ match z with Some t => v' = Text t /\ text_of v = Some t | None => True end).
  { intros t Ht. destruct (db_allocates_spec failed n) as ([] & n' & Hr & Hn & Hok & Hno).
    - exists (Some t), (Text t), false, n'. split; [by eapply returns_bind; [exact Hr|]|]. rewrite (Hok eq_refl), Ht. by split_and!.
    - exists None, v, true, n'. split; [by eapply returns_bind; [exact Hr|]|]. split_and!; auto; done. }
  destruct v as [|t|t|k]; cbn [sqlite3_value_text text_of].
  - exists None, Null, failed, n. split_and!; auto; done.
  - exists (Some t), (Text t), failed, n. split_and!; auto; done.
  - by apply Hconvert.
  - by apply Hconvert.
Qed.

(** The bytes of the text; no more while the text cannot be made. *)
Lemma value_bytes_spec v failed n : exists b failed' n', returns (sqlite3_value_bytes v failed) n (b, failed') n' /\ (n <= n')%nat /\
  (failed' = false -> failed = false /\ b = size (default [] (text_of v))) /\ (failed' = true -> failed = true \/ refused malloc n n') /\
  0 <= b <= size (default [] (text_of v)) /\ (forall t, v = Text t -> b = size t).
Proof.
  destruct v as [|t|t|k]; cbn [sqlite3_value_bytes].
  - exists 0, failed, n. split_and!; auto; done.
  - exists (size t), failed, n. pose proof (size_nonneg t). cbn [text_of default from_option id]. split_and!; [done|lia|done|by left|lia|lia|by intros ? [= ->]].
  - destruct (value_text_spec (Number t) failed n) as (z & v' & f' & n' & Hr & Hn & Hok & Hno & _ & Hz).
    exists (match z with Some z => size z | None => 0 end), f', n'. split; [by eapply returns_bind; [exact Hr|]|].
    pose proof (size_nonneg t) as H0. cbn [text_of default from_option id] in *. split_and!; [done| |done|destruct z; [destruct Hz as [_ [= ->]]|]; lia..|done].
    intros Hf. destruct (Hok Hf) as [? ->]. done.
  - exists (Z.of_nat k), failed, n. cbn [text_of default from_option id]. unfold size. rewrite length_replicate. split_and!; [done|lia|done|by left|lia|lia|done].
Qed.

(** ** What the context says of its terms *)

Hypothesis usable_enough : forall k n, n <= usable k n.
Hypothesis limit_range : 0 < limit <= 10 ^ 9.
(** Whether there is a second argument. *)
Variable two : bool.

Lemma limit_positive : 0 < limit < 2 ^ 31 - 1.
Proof using limit_range. lia. Qed.
Notation str_ok := (str_ok limit).

(** The context of the terms [l]. *)
Record good (p : GroupConcatCtx) (l : list term) : Prop := {
  good_text : text (str p) = joined l;
  good_mx : mxAlloc (str p) = 0 <-> l = [];
  good_empty : l = [] -> pnSepLengths p = None;
  good_lengths : l <> [] -> lengths_ok p (lengths l);
  good_first : 0 <= nFirstSepLength p <= 10 ^ 9;
  good_one : two = false -> pnSepLengths p = None /\ (l <> [] -> nFirstSepLength p = 1);
}.

(** Why the error [e] has come up by the terms [l]. *)
Definition failure (e : Z) (l : list term) (n0 n : nat) : Prop :=
  (e = SQLITE_NOMEM /\ refused malloc n0 n) \/ (e = SQLITE_TOOBIG /\ limit <= size (joined l)).

Definition state (p : GroupConcatCtx) (l : list term) (n0 n : nat) : Prop :=
  str_ok (str p) /\ nAccum p = Z.of_nat (length l) /\ if accError (str p) =? 0 then good p l else failure (accError (str p)) l n0 n.

(** The string that has [z] of the text of [l] so far, or an error. *)
Definition status (s : StrAccum) (z : list Z) (l : list term) (n0 n : nat) : Prop :=
  str_ok s /\ mxAlloc s = limit /\ if accError s =? 0 then text s = z else failure (accError s) l n0 n.

Lemma failure_weaken e l n0 n t n' : failure e l n0 n -> (n <= n')%nat -> failure e (l ++ [t]) n0 n'.
Proof.
  intros [[-> Hr]|[-> Hl]] Hn; [left; split; [done|by apply (refused_weaken malloc n0 n)]|right; split; [done|]].
  pose proof (joined_grows l t). lia.
Qed.

Lemma state_weaken p l n0 n n' : state p l n0 n -> (n <= n')%nat -> state p l n0 n'.
Proof.
  intros (H1 & H2 & H3) Hn. split_and!; [done|done|]. destruct (accError (str p) =? 0); [done|].
  destruct H3 as [[-> H3]|]; [left|by right]. split; [done|]. by apply (refused_weaken malloc n0 n).
Qed.
Lemma status_weaken s z l n0 n n' : status s z l n0 n -> (n <= n')%nat -> status s z l n0 n'.
Proof.
  intros (H1 & H2 & H3) Hn. split_and!; [done|done|]. destruct (accError s =? 0); [done|].
  destruct H3 as [[-> H3]|]; [left|by right]. split; [done|]. by apply (refused_weaken malloc n0 n).
Qed.

Lemma status_append s z z' s' l n0 n n' : status s z l n0 n -> (n0 <= n)%nat -> appended malloc limit z' s s' n n' ->
  (accError s = 0 -> size (z ++ z') <= size (joined l)) -> status s' (z ++ z') l n0 n'.
Proof.
  intros (Hok & Hmx & Hs) Hn0 (Hn & Hok' & Hmx' & Hkeep & Htext & Hwhy) Hsize. unfold status. rewrite Hmx'. split_and!; [done|done|].
  destruct (Z.eqb_spec (accError s) 0) as [He|He].
  - destruct (Z.eqb_spec (accError s') 0) as [He'|He']; [by rewrite Htext, Hs|]. specialize (Hsize He).
    destruct (Hwhy He He') as [[-> Hr]|[-> Hbig]]; [left; split; [done|by apply (refused_weaken malloc n n')]|right; split; [done|]]. rewrite Hs in Hbig. lia.
  - rewrite Hkeep by done. rewrite (proj2 (Z.eqb_neq _ _) He). destruct Hs as [[Hc Hr]|]; [left|by right]. split; [done|by apply (refused_weaken malloc n0 n)].
Qed.

Lemma status_text s z z' l n0 n : status s z l n0 n -> (accError s = 0 -> z = z') -> status s z' l n0 n.
Proof. intros (Hok & Hmx & Hs) Hz. split_and!; [done|done|]. destruct (Z.eqb_spec (accError s) 0); [by rewrite <- Hz|done]. Qed.

Lemma status_refused s z z' l n0 n n' : status s z l n0 n -> (n0 <= n)%nat -> refused malloc n n' -> status (sqlite3StrAccumSetError SQLITE_NOMEM s) z' l n0 n'.
Proof using limit_range.
  intros (Hok & Hmx & _) Hn0 Hr. destruct (set_error_ok limit limit_positive SQLITE_NOMEM s) as (Hok' & He & Hmx'); [done|done|by left|].
  unfold status. rewrite He. split_and!; [done|done|]. left. split; [done|by apply (refused_weaken malloc n n')].
Qed.

Lemma accError_back s s' z n n' : appended malloc limit z s s' n n' -> accError s' = 0 -> accError s = 0.
Proof. intros (_ & _ & _ & Hkeep & _) He'. destruct (Z.eq_dec (accError s) 0) as [|He]; [done|]. by rewrite Hkeep in He'. Qed.

(** ** A row enters *)

Definition small (t : term) : Prop := size t.1 <= 10 ^ 9 /\ size t.2 <= 10 ^ 9.

(** With the separator of [t] added. *)
Definition separated (p : GroupConcatCtx) (l : list term) (t : term) (n0 n : nat) : Prop :=
  nAccum p = Z.of_nat (length l) /\ status (str p) (joined l ++ match l with [] => [] | _ => t.2 end) (l ++ [t]) n0 n /\
  (accError (str p) = 0 -> lengths_ok p (lengths (l ++ [t])) /\ 0 <= nFirstSepLength p <= 10 ^ 9 /\ (two = false -> pnSepLengths p = None /\ nFirstSepLength p = 1)).

Lemma joined_prefix l t : size (joined l ++ match l with [] => [] | _ => t.2 end) <= size (joined (l ++ [t])).
Proof. destruct t as [v s]. rewrite joined_snoc, app_assoc, (size_app (_ ++ _)). pose proof (size_nonneg v). cbn [snd]. lia. Qed.

Lemma state_status p l t n0 n : state p l n0 n -> status (set_mxAlloc limit (str p)) (joined l) (l ++ [t]) n0 n.
Proof.
  intros (Hok & _ & Hp). unfold status. split_and!; [apply set_mxAlloc_ok; auto|done|]. cbn [accError set_mxAlloc].
  destruct (accError (str p) =? 0); [by apply Hp|by apply failure_weaken with n].
Qed.

Lemma first_separated p l n0 n t k : state p l n0 n -> mxAlloc (str p) = 0 -> (two = false -> k = 1) -> 0 <= k <= 10 ^ 9 ->
  separated (set_nFirstSepLength k (set_str (set_mxAlloc limit (str p)) p)) l t n0 n.
Proof.
  intros Hp Hmx Hk Hk0. pose proof (state_status p l t n0 n Hp) as (Hok & Hmx' & Hs). destruct Hp as (_ & Hc & Hp). cbn [accError set_mxAlloc] in Hs.
  unfold separated, status. cbn [str set_nFirstSepLength set_str accError set_mxAlloc nAccum pnSepLengths nFirstSepLength] in *.
  destruct (Z.eqb_spec (accError (str p)) 0) as [He|He].
  - pose proof (proj1 (good_mx p l Hp) Hmx) as ->. split_and!; [done|done|done|by rewrite app_nil_r|]. intros _.
    unfold lengths_ok. cbn. rewrite (good_empty p [] Hp eq_refl). split_and!; [done|lia|lia|auto].
  - split_and!; done.
Qed.

(** A separator that is not the first, converted or not given: [[44]] is the comma. *)
Definition sep_text (zSep : option (option (list Z))) : list Z := match zSep with None => [44] | Some z => default [] z end.
Definition add_later (zSep : option (option (list Z))) (p : GroupConcatCtx) : M GroupConcatCtx :=
  match zSep with
  | None => s ← sqlite3_str_appendchar malloc usable 1 44 (str p); mret (set_str s p)
  | Some z => append_separator z (size (default [] z)) p
  end.

(** The separator in the string. *)
Lemma separator_appended zSep s n : str_ok s -> mxAlloc s = limit -> size (sep_text zSep) <= 10 ^ 9 ->
  exists s' n', appended malloc limit (sep_text zSep) s s' n n' /\
    match zSep with
    | None => returns (sqlite3_str_appendchar malloc usable 1 44 s) n s' n'
    | Some z => returns (match z with Some z => sqlite3_str_append malloc usable z s | None => mret s end) n s' n'
    end.
Proof using usable_enough limit_range.
  intros Hok Hmx Hsize. unfold sep_text in *. destruct zSep as [[z|]|]; cbn [default from_option id] in *.
  - destruct (append_spec malloc usable usable_enough limit limit_positive z s n) as (s' & n' & Hr & Happ); [done|done|lia|]. by exists s', n'.
  - exists s, n. split; [|done]. unfold appended. rewrite app_nil_r. split_and!; [lia|done|done|done|done|done].
  - destruct (appendchar_spec malloc usable usable_enough limit limit_positive 44 s n) as (s' & n' & Hr & Happ); [done|done|]. by exists s', n'.
Qed.

Lemma later_separated zSep p l n0 n v : state p l n0 n -> (n0 <= n)%nat -> small (v, sep_text zSep) -> bool_decide (is_Some zSep) = two ->
  mxAlloc (str p) <> 0 ->
  exists p' n', returns (add_later zSep (set_str (set_mxAlloc limit (str p)) p)) n p' n' /\
    (n <= n')%nat /\ separated p' l (v, sep_text zSep) n0 n'.
Proof using usable_enough limit_range.
  intros Hp Hn0 [_ Hsmall] Htwo Hmx. cbn [snd] in Hsmall. unfold add_later.
  set (t := (v, sep_text zSep)) in *. pose proof (state_status p l t n0 n Hp) as Hs. destruct Hp as (_ & Hc & Hp).
  set (p1 := set_str _ p). change (set_mxAlloc limit (str p)) with (str p1) in Hs. change (accError (str p)) with (accError (str p1)) in Hp.
  destruct (separator_appended zSep (str p1) n) as (s & n1 & Happ & Hr); [apply Hs|apply Hs|done|]. pose proof (proj1 Happ) as Hn1.
  assert (Hgood : accError s = 0 -> l <> [] /\ good p l).
  { intros He. rewrite (proj2 (Z.eqb_eq _ _) (accError_back _ _ _ _ _ Happ He)) in Hp. split; [|done]. intros Hl. by apply Hmx, (good_mx p l Hp). }
  assert (Hs1 : status s (joined l ++ match l with [] => [] | _ => t.2 end) (l ++ [t]) n0 n1).
  { assert (Hne : accError (str p1) = 0 -> l <> []).
    { intros He. rewrite (proj2 (Z.eqb_eq _ _) He) in Hp. intros Hl. by apply Hmx, (good_mx p l Hp). }
    apply status_text with (joined l ++ t.2); [|intros He; destruct l; [by destruct (proj1 (Hgood He))|done]].
    apply (status_append (str p1) _ _ s _ n0 n); [done|done|done|]. intros He. pose proof (joined_prefix l t). by destruct l; [destruct (Hne He)|]. }
  destruct zSep as [z|] eqn:Hsep.
  - destruct (separator_lengths_spec (size (default [] z)) (set_str s p1) n1) as (p' & n' & Hr' & Hn' & Hc' & Hf' & Hcase); [cbn; lia|].
    exists p', n'. split; [|split; [lia|]].
    + eapply returns_bind; [exact Hr|]. by destruct z.
    + split; [by rewrite Hc'|]. destruct Hcase as [[Hstr Hlen]|[Hstr Href]]; rewrite Hstr; cbn [str set_str].
      * split; [by apply (status_weaken _ _ _ n0 n1)|].
        intros He. destruct (Hgood He) as [Hl Hg]. split; [|split; [rewrite Hf'; exact (good_first p l Hg)|intros H2; by rewrite H2 in Htwo]]. rewrite lengths_snoc by done. apply Hlen; [|by apply (good_lengths p l Hg)].
        cbn [nAccum set_str p1]. rewrite Hc, (lengths_length l Hl). done.
      * split; [apply (status_refused s (joined l ++ match l with [] => [] | _ => t.2 end) _ _ n0 n1); [done|lia|done]|]. intros He.
        destruct (set_error_ok limit limit_positive SQLITE_NOMEM s) as (_ & He' & _); [apply Hs1|apply Hs1|by left|]. by rewrite He' in He.
  - exists (set_str s p1), n1. split; [by eapply returns_bind; [exact Hr|]|]. split; [lia|]. split; [done|]. split; [done|]. intros He.
    destruct (Hgood He) as [Hl Hg]. destruct (good_one p l Hg) as [Hnone Hone]; [by rewrite <- Htwo|]. pose proof (good_lengths p l Hg Hl) as Hlen.
    unfold lengths_ok in *. cbn [pnSepLengths set_str p1 nFirstSepLength] in *. rewrite Hnone in *. pose proof (good_first p l Hg). split_and!; [|lia|lia|auto].
    rewrite lengths_snoc by done. apply Forall_app. split; [done|]. apply Forall_singleton. by rewrite Hone.
Qed.

(** Unless memory is refused, the separator is that of [a]. *)
Lemma add_separator_spec a p l n0 n v : state p l n0 n -> (n0 <= n)%nat -> small (v, separator a) -> bool_decide (is_Some (sep a)) = two ->
  exists p' failed s n', returns (add_separator a (mxAlloc (str p) =? 0) (set_str (set_mxAlloc limit (str p)) p) false) n (p', failed) n' /\
    (n <= n')%nat /\ separated p' l (v, s) n0 n' /\ (failed = false -> s = separator a) /\ (failed = true -> refused malloc n n').
Proof using usable_enough limit_range.
  intros Hp Hn0 [Hsv Hsmall] Htwo. cbn [fst snd] in *. unfold add_separator, separator in *.
  destruct (Z.eqb_spec (mxAlloc (str p)) 0) as [Hmx|Hmx]; cbn [negb].
  - destruct (sep a) as [w|] eqn:Hsep.
    + destruct (value_bytes_spec w false n) as (b & f & n' & Hr & Hn & _ & Hno & Hb & _).
      eexists _, f, _, n'. split; [by eapply returns_bind; [exact Hr|]|]. split; [done|]. split; [|split; [by intros _|intros Hf; by destruct (Hno Hf)]].
      apply first_separated; [by apply (state_weaken p l n0 n)|done|intros H2; by rewrite H2 in Htwo|lia].
    + eexists _, false, _, n. split; [done|]. split; [lia|]. split; [|by split]. by apply first_separated.
  - destruct (sep a) as [w|] eqn:Hsep.
    + destruct (value_text_spec w false n) as (z & w' & f & n1 & Hr1 & Hn1 & Hok1 & Hno1 & Hsame & Hz).
      destruct (value_bytes_spec w' f n1) as (b & f' & n2 & Hr2 & Hn2 & Hok2 & Hno2 & Hb & Hbt). rewrite Hsame in *.
      assert (Hsz : size (default [] z) <= size (default [] (text_of w))).
      { destruct z as [t|]; [by destruct Hz as [_ ->]|]. apply size_nonneg. }
      assert (Hp2 : state p l n0 n2) by (apply (state_weaken p l n0 n); [done|lia]).
      destruct (later_separated (Some z) p l n0 n2 v) as (p' & n' & Hr & Hn & Hs); [done|lia|by split; cbn; lia|done|done|].
      exists p', f', (default [] z), n'. split; [|split; [lia|split; [exact Hs|]]].
      * eapply returns_bind; [exact Hr1|]. cbn beta iota. eapply returns_bind; [exact Hr2|]. cbn beta iota. eapply returns_bind; [|done].
        cbn [add_later] in Hr. destruct z as [t|]; [|exact Hr]. destruct Hz as [Hw' _]. by rewrite (Hbt t Hw').
      * split.
        -- intros Hf. destruct (Hok2 Hf) as [Hf1 _]. by destruct (Hok1 Hf1) as [_ ->].
        -- intros Hf. destruct (Hno2 Hf) as [Hf1|Href]; [destruct (Hno1 Hf1) as [|Href]; [done|]|]; eapply refused_weaken; [| |exact Href| | |exact Href]; lia.
    + destruct (later_separated None p l n0 n v) as (p' & n' & Hr & Hn & Hs); [done|done|by split|done|done|].
      exists p', false, [44], n'. split; [|by split_and!]. cbn [add_later] in Hr. unfold returns, mbind, M_bind in *.
      destruct (sqlite3_str_appendchar _ _ _ _ _ n) as [[s' k']|]; [|done]. by injection Hr as <- <-.
Qed.

Lemma int_in z : is_sint 32 z -> int z = Some z.
Proof. intros Hz. unfold int, is_sint in *. cbn in Hz. destruct (Z.leb_spec (- 2 ^ 31) z), (Z.ltb_spec z (2 ^ 31)); [done|lia..]. Qed.

(** The text after the separator. *)
Lemma append_value_spec w p failed n v : str_ok (str p) -> mxAlloc (str p) = limit -> text_of w = Some v -> size v <= 10 ^ 9 ->
  exists s failed' n', returns (append_value w p failed) n (set_str s p, failed') n' /\ (n <= n')%nat /\ str_ok s /\
    (failed' = false -> failed = false /\ exists n1, (n <= n1)%nat /\ appended malloc limit v (str p) s n1 n') /\
    (failed' = true -> failed = true \/ refused malloc n n').
Proof using usable_enough limit_range.
  intros Hok Hmx Hv Hsize. destruct (value_text_spec w failed n) as (z & w' & f & n1 & Hr1 & Hn1 & Hok1 & Hno1 & _ & Hz).
  unfold append_value. destruct z as [t|].
  - destruct Hz as [_ Ht]. rewrite Hv in Ht. injection Ht as <-.
    destruct (append_spec malloc usable usable_enough limit limit_positive v (str p) n1) as (s & n2 & Hr2 & Happ); [done|done|lia|].
    pose proof (proj1 Happ) as Hn2. exists s, f, n2. split_and!; [|lia|apply Happ|intros Hf|intros Hf].
    + eapply returns_bind; [exact Hr1|]. cbn beta iota. by eapply returns_bind; [exact Hr2|].
    + split; [by apply Hok1|]. by exists n1.
    + destruct (Hno1 Hf) as [|Href]; [by left|right]. eapply refused_weaken; [| |exact Href]; lia.
  - exists (str p), f, n1. split_and!; [|done|done|intros Hf|done].
    + eapply returns_bind; [exact Hr1|]. by destruct p.
    + destruct (Hok1 Hf) as [_ Ht]. by rewrite Hv in Ht.
Qed.

Lemma concat_step_spec a p l n0 n v : state p l n0 n -> (n0 <= n)%nat -> text_of (val a) = Some v -> small (v, separator a) ->
  bool_decide (is_Some (sep a)) = two -> Z.of_nat (length l) + 1 < 2 ^ 31 ->
  exists p' failed n', returns (groupConcatStep a (mkAggregate (Some (Some p)) false)) n (mkAggregate (Some (Some p')) failed) n' /\ (n <= n')%nat /\
    (failed = false -> state p' (l ++ [(v, separator a)]) n0 n') /\ (failed = true -> refused malloc n n' /\ str_ok (str p')).
Proof using usable_enough limit_range.
  intros Hp Hn0 Hv Hsmall Htwo Hlen. unfold groupConcatStep. replace (is_null (val a)) with false by (by destruct (val a)).
  destruct (add_separator_spec a p l n0 n v Hp Hn0 Hsmall Htwo) as (p1 & f1 & s1 & n1 & Hr1 & Hn1 & (Hc & Hs & Hok) & Hsep & Href1).
  pose proof (append_value_spec (val a) (set_nAccum (Z.of_nat (length l) + 1) p1) f1 n1 v) as Happend.
  destruct Happend as (s & f & n2 & Hr2 & Hn2 & Hoks & Happ & Href2); [apply Hs|apply Hs|done|apply Hsmall|].
  exists (set_str s (set_nAccum (Z.of_nat (length l) + 1) p1)), f, n2. split; [|split; [lia|split]].
  - eapply returns_bind; [done|]. cbn beta iota. eapply returns_bind; [exact Hr1|]. cbn beta iota. rewrite Hc.
    eapply returns_bind; [apply returns_lift, int_in; unfold is_sint; lia|]. cbn beta. by eapply returns_bind; [exact Hr2|].
  - intros Hf. destruct (Happ Hf) as [Hf1 (n1' & Hn1' & Happ')]. rewrite (Hsep Hf1) in *. clear Hsep Happ Href2.
    pose proof (proj1 Happ') as Hn2'.
    assert (Hs1 : status (str p1) (joined l ++ match l with [] => [] | _ => separator a end) (l ++ [(v, separator a)]) n0 n1')
      by (by apply (status_weaken _ _ _ n0 n1)).
    assert (Hs2 : status s (joined (l ++ [(v, separator a)])) (l ++ [(v, separator a)]) n0 n2).
    { rewrite (joined_snoc l) at 1. rewrite app_assoc. apply (status_append (str p1) _ _ s _ n0 n1'); [done|lia|done|]. by rewrite joined_snoc, app_assoc. }
    destruct Hs2 as (H1 & H2 & H3). split; [done|]. cbn [str set_str nAccum set_nAccum]. split; [rewrite length_app; cbn; lia|].
    destruct (Z.eqb_spec (accError s) 0) as [He|]; [|done]. destruct (Hok (accError_back _ _ _ _ _ Happ' He)) as (Hl & Hfirst & Hone).
    constructor; cbn [str set_str].
    + done.
    + rewrite H2. split; [lia|]. by destruct l.
    + by destruct l.
    + by intros _.
    + done.
    + intros H0. destruct (Hone H0). by split.
  - intros Hf. split; [|done]. destruct (Href2 Hf) as [Hf1|Href]; [apply Href1 in Hf1 as Href|]; (eapply refused_weaken; [| |exact Href]; lia).
Qed.

(** ** A row leaves *)

Lemma drop_joined v s l : drop (Z.to_nat (size v + match l with [] => 0 | t :: _ => size t.2 end)) (joined ((v, s) :: l)) = joined l.
Proof.
  destruct l as [|t l].
  - cbn. rewrite app_nil_r, drop_ge; [done|]. unfold size. lia.
  - rewrite joined_cons. rewrite <- size_app. unfold size. by rewrite Nat2Z.id, drop_app_length.
Qed.

(** The length of the text that leaves, with the separator after it. *)
Lemma leaving_length p l (x : Z) seps : lengths_ok p (x :: seps) -> pnSepLengths p = Some l ->
  exists l', l !! 0%nat = Some (Some x) /\ move_down (Z.of_nat (length seps)) l = Some l' /\ lengths_ok (set_pnSepLengths (Some l') p) seps.
Proof.
  unfold lengths_ok. cbn. intros Hl Hp. rewrite Hp in Hl. destruct Hl as [Hlen Ht]. destruct l as [|y l]; [cbn in Hlen; lia|].
  rewrite firstn_cons in Ht. injection Ht as -> Ht. cbn [length] in Hlen. unfold move_down. cbn [drop lookup list_lookup]. destruct (Z.leb_spec (Z.of_nat (length seps)) 0) as [H0|H0].
  - eexists. split_and!; [done|done|cbn; lia|]. assert (length seps = 0%nat) as H0' by lia. destruct seps; [done|cbn in H0'; lia].
  - cbn [length]. destruct (Z.leb_spec (Z.of_nat (length seps) + 1) (Z.of_nat (S (length l)))); [|lia]. rewrite Nat2Z.id.
    rewrite drop_0. eexists. split_and!; [done|done|rewrite length_app, length_take; lia|]. rewrite take_app_le by (rewrite length_take; lia). by rewrite take_take, Nat.min_id.
Qed.

Lemma good_accError p l n0 n : state p l n0 n -> accError (str p) = 0 -> good p l.
Proof. intros (_ & _ & Hp) He. by rewrite He in Hp. Qed.

Lemma leaving_spec p v s l n : good p ((v, s) :: l) -> Forall small ((v, s) :: l) -> nAccum p = Z.of_nat (S (length l)) -> 0 <= n <= size v ->
  exists nVS p', leaving n (set_nAccum (nAccum p - 1) p) = Some (nVS, p') /\ str p' = str p /\ nAccum p' = Z.of_nat (length l) /\
    nFirstSepLength p' = nFirstSepLength p /\ (pnSepLengths p = None -> pnSepLengths p' = None) /\ n <= nVS /\
    (l <> [] -> nVS = n + match l with [] => 0 | t :: _ => size t.2 end /\ lengths_ok p' (lengths l)).
Proof.
  intros Hg Hsmall Hc Hn. apply Forall_cons in Hsmall as [[Hsv Hss] Hsl]. cbn [fst snd] in *.
  pose proof (good_lengths _ _ Hg ltac:(done)) as Hlen. unfold lengths in Hlen. cbn [tail] in Hlen. unfold leaving. cbn [pnSepLengths set_nAccum nAccum nFirstSepLength].
  replace (nAccum p - 1) with (Z.of_nat (length l)) by lia. destruct (pnSepLengths p) as [cells|] eqn:Hcells.
  - destruct l as [|t l]; cbn [length]; [exists n, (set_nAccum 0 p); by split_and!|].
    cbn [map] in Hlen. destruct (leaving_length p cells (size t.2) (map (fun t => size t.2) l)) as (cells' & H0 & Hmove & Hok); [done..|].
    rewrite (proj2 (Z.ltb_lt 0 _)), H0 by lia. cbn [mbind option_bind]. rewrite length_map in Hmove.
    replace (Z.of_nat (S (length l)) - 1) with (Z.of_nat (length l)) by lia. rewrite Hmove. cbn [mbind option_bind].
    apply Forall_cons in Hsl as [[_ Hst] _]. pose proof (size_nonneg t.2). rewrite int_in by (unfold is_sint; lia).
    eexists _, _. split_and!; [done|done|done|done|done|lia|]. done.
  - pose proof (good_first p _ Hg).
    rewrite int_in by (unfold is_sint; lia). eexists _, _. split_and!; [done|done|done|done|done|lia|].
    intros Hl. unfold lengths_ok in *. cbn [pnSepLengths set_nAccum nFirstSepLength]. rewrite Hcells in *. destruct l as [|t l]; [done|].
    apply Forall_cons in Hlen as [-> Hlen]. by split.
Qed.

(** The text without its first [nVS] bytes. *)
Lemma remove_front_spec s nVS : str_ok s -> 0 <= nVS ->
  exists s', (if nChar s <=? nVS then Some (set_text [] s) else remove_front nVS s) = Some s' /\ str_ok s' /\
    text s' = drop (Z.to_nat nVS) (text s) /\ accError s' = accError s /\ mxAlloc s' = mxAlloc s.
Proof.
  intros Hs Hn. unfold remove_front. destruct (Z.leb_spec (nChar s) nVS) as [Hall|Hsome].
  - destruct (set_text_ok limit [] s) as [H1 H2]; [done|apply size_nonneg|]. eexists. split_and!; [done|done| |done|done].
    rewrite H2, drop_ge; [done|]. unfold nChar, size in Hall. lia.
  - rewrite (proj2 (Z.leb_le 0 _)), (proj2 (Z.leb_le nVS _)) by lia. cbn [andb].
    destruct (set_text_ok limit (drop (Z.to_nat nVS) (text s)) s) as [H1 H2]; [done| |by eexists].
    unfold nChar, size. rewrite length_drop. lia.
Qed.

(** The text that leaves, and its bytes: no more when memory is refused. *)
Lemma value_leaving w n v : text_of w = Some v -> exists z w' f n1 b f' n2, returns (sqlite3_value_text w false) n (z, w', f) n1 /\
  returns (sqlite3_value_bytes w' f) n1 (b, f') n2 /\ (n <= n2)%nat /\ 0 <= b <= size v /\
  (f' = false -> b = size v) /\ (f' = true -> refused malloc n n2).
Proof.
  intros Hv. destruct (value_text_spec w false n) as (z & w' & f & n1 & Hr1 & Hn1 & Hok1 & Hno1 & Hsame & _).
  destruct (value_bytes_spec w' f n1) as (b & f' & n2 & Hr2 & Hn2 & Hok2 & Hno2 & Hb & _). rewrite Hsame, Hv in *.
  exists z, w', f, n1, b, f', n2. split_and!; [done|done|lia|apply Hb|apply Hb|intros Hf; by apply Hok2|].
  intros Hf. destruct (Hno2 Hf) as [Hf1|Href]; [destruct (Hno1 Hf1) as [|Href]; [done|]|]; (eapply refused_weaken; [| |exact Href]; lia).
Qed.

Lemma inverse_spec a p l n0 n v : state p ((v, separator a) :: l) n0 n -> accError (str p) = 0 -> text_of (val a) = Some v ->
  Forall small ((v, separator a) :: l) -> joined l <> [] \/ l = [] ->
  exists p' failed n', returns (groupConcatInverse a (mkAggregate (Some (Some p)) false)) n (mkAggregate (Some (Some p')) failed) n' /\ (n <= n')%nat /\
    str_ok (str p') /\ (failed = false -> accError (str p') = 0 /\ state p' l n0 n') /\ (failed = true -> refused malloc n n').
Proof using limit_range.
  intros Hp He Hv Hsmall Hvis. pose proof (good_accError _ _ _ _ Hp He) as Hg. destruct Hp as (Hok & Hc & _). cbn [length] in Hc.
  destruct (value_leaving (val a) n v Hv) as (z & w' & f & n1 & b & f' & n2 & Hr1 & Hr2 & Hn2 & Hb & Hbv & Href).
  destruct (leaving_spec p v _ l b Hg Hsmall Hc Hb) as (nVS & p1 & Hl & Hstr & Hc1 & Hf1 & Hnone & HnVS & Hlen).
  destruct (remove_front_spec (str p) nVS Hok ltac:(lia)) as (s & Hremove & Hs & Ht & Hes & Hmxs).
  set (p' := if nChar s =? 0 then set_pnSepLengths None (set_str (set_mxAlloc 0 s) p1) else set_str s p1).
  exists p', f', n2. split.
  { unfold groupConcatInverse. replace (is_null (val a)) with false by (by destruct (val a)).
    eapply returns_bind; [done|]. cbn beta iota. eapply returns_bind; [exact Hr1|]. cbn beta iota. eapply returns_bind; [exact Hr2|]. cbn beta iota.
    eapply returns_bind; [by apply returns_lift|]. cbn beta iota. rewrite Hstr. by eapply returns_bind; [by apply returns_lift|]. }
  split; [done|]. split; [unfold p'; destruct (nChar s =? 0); [apply set_mxAlloc_ok; auto|done]|]. split; [|done].
  intros Hf. rewrite (Hbv Hf) in *.
  assert (Hdrop : text s = joined l).
  { rewrite Ht, (good_text _ _ Hg). destruct l as [|t l]; [cbn; rewrite app_nil_r, drop_ge; [done|unfold size in HnVS; lia]|].
    destruct (Hlen ltac:(done)) as [-> _]. exact (drop_joined v (separator a) (t :: l)). }
  assert (Hmx : mxAlloc s = limit) by (rewrite Hmxs; destruct (ok_limit _ _ Hok) as [Hm|]; [by apply (good_mx _ _ Hg) in Hm|done]).
  unfold p', nChar. rewrite Hdrop. destruct (Z.eqb_spec (size (joined l)) 0) as [H0|H0].
  - assert (joined l = []) as Hj by (destruct (joined l); [done|unfold size in H0; cbn [length] in H0; lia]).
    destruct Hvis as [| ->]; [done|]. cbn [str set_pnSepLengths set_str accError set_mxAlloc]. split; [congruence|]. split; [apply set_mxAlloc_ok; auto|]. split; [done|].
    cbn [accError set_mxAlloc str set_pnSepLengths set_str]. rewrite Hes, He. constructor; cbn; [exact Hdrop|done|done|done|rewrite Hf1; apply (good_first _ _ Hg)|by intros _].
  - assert (l <> []) as Hne by (by intros ->). cbn [str set_str]. split; [congruence|]. split; [done|]. split; [done|]. cbn [str set_str]. rewrite Hes, He. destruct (Hlen Hne) as [_ Hok1].
    constructor; cbn [str set_str pnSepLengths nFirstSepLength]; [done|rewrite Hmx; split; [lia|done]|done|done|rewrite Hf1; apply (good_first _ _ Hg)|].
    intros H2. destruct (good_one _ _ Hg H2) as [Hp1 Hone]. rewrite Hf1. split; [by apply Hnone|intros _; by apply Hone].
Qed.

(** ** Groups *)

Definition row_ok (a : args) : Prop := bool_decide (is_Some (sep a)) = two /\ Forall small (terms [a]).

(** The aggregate of the terms [l]: no context while there are none, and a string that can be
    finished, whatever it is, once the connection has been refused memory. *)
Definition context (g : aggregate) (l : list term) (n0 n : nat) : Prop :=
  if mallocFailed g then refused malloc n0 n /\ forall p, pMem g = Some (Some p) -> str_ok (str p)
  else match pMem g with None => l = [] | Some None => False | Some (Some p) => state p l n0 n end.

Lemma context_failed p n0 n : refused malloc n0 n -> (forall q, p = Some (Some q) -> str_ok (str q)) ->
  forall l, context (mkAggregate p true) l n0 n.
Proof. intros Hr Hp l. by split. Qed.

Lemma no_context_state n0 n : state no_context [] n0 n.
Proof. split; [constructor; cbn; auto|]. split; [done|]. by constructor; cbn. Qed.

(** The context of a call: there, made, or refused. *)
Lemma aggregate_context_spec g l n0 n : context g l n0 n -> mallocFailed g = false -> (n0 <= n)%nat ->
  exists g' n', returns (sqlite3_aggregate_context g) n g' n' /\ (n <= n')%nat /\
    ((exists p, g' = mkAggregate (Some (Some p)) false /\ state p l n0 n') \/ (g' = mkAggregate (Some None) true /\ refused malloc n n')).
Proof.
  intros Hg Hf Hn0. unfold context in Hg. destruct g as [p f]. cbn in Hf. subst f. cbn [mallocFailed pMem] in Hg. unfold sqlite3_aggregate_context. cbn [pMem mallocFailed].
  destruct p as [[p|]|]; [|done|].
  - exists (mkAggregate (Some (Some p)) false), n. split_and!; [done|lia|]. left. by exists p.
  - subst l. destruct (db_allocates_spec false n) as ([] & n' & Hr & Hn & _ & Hno).
    + exists (mkAggregate (Some (Some no_context)) false), n'. split_and!; [by eapply returns_bind; [exact Hr|]|done|]. left.
      exists no_context. split; [done|apply no_context_state].
    + exists (mkAggregate (Some None) true), n'. split_and!; [by eapply returns_bind; [exact Hr|]|done|]. right. split; [done|]. by destruct (Hno eq_refl).
Qed.

(** With the context there, a call goes on as with it. *)
Lemma step_made a g p n n1 g' n' : is_null (val a) = false -> returns (sqlite3_aggregate_context g) n (mkAggregate (Some (Some p)) false) n1 ->
  returns (groupConcatStep a (mkAggregate (Some (Some p)) false)) n1 g' n' -> returns (groupConcatStep a g) n g' n'.
Proof. intros Ha Hr Hs. unfold groupConcatStep in *. rewrite Ha in *. by eapply returns_bind; [exact Hr|]. Qed.

Lemma terms_snoc w a : terms (w ++ [a]) = terms w ++ match text_of (val a) with Some v => [(v, separator a)] | None => [] end.
Proof. rewrite terms_app. unfold terms at 2. cbn. by destruct (text_of (val a)). Qed.

Lemma context_step a g w n0 n : context g (terms w) n0 n -> mallocFailed g = false -> (n0 <= n)%nat -> row_ok a -> Z.of_nat (length w) + 1 < 2 ^ 31 ->
  exists g' n', returns (groupConcatStep a g) n g' n' /\ (n <= n')%nat /\ context g' (terms (w ++ [a])) n0 n' /\
    (mallocFailed g' = false -> is_Some (pMem g') -> is_Some (pMem g) \/ terms (w ++ [a]) <> []).
Proof using usable_enough limit_range.
  intros Hg Hf Hn0 [Htwo Hsmall] Hlen. rewrite terms_snoc. unfold terms in Hsmall. cbn in Hsmall.
  destruct (text_of (val a)) as [v|] eqn:Hv.
  2: { exists g, n. rewrite app_nil_r. split_and!; [|lia|done|auto]. unfold groupConcatStep. by destruct (val a). }
  assert (Hnull : is_null (val a) = false) by (by destruct (val a)). cbn in Hsmall. rewrite Forall_singleton in Hsmall. pose proof (terms_length w) as Hle.
  destruct (aggregate_context_spec g (terms w) n0 n Hg Hf Hn0) as (g1 & n1 & Hr1 & Hn1 & [(p & -> & Hp)|[-> Href]]).
  - destruct (concat_step_spec a p (terms w) n0 n1 v) as (p' & f & n' & Hr & Hn & Hok & Hno); [done|lia|done..|lia|].
    exists (mkAggregate (Some (Some p')) f), n'. split_and!; [by eapply step_made|lia| |intros _ _; right; by destruct (terms w)].
    unfold context. cbn [mallocFailed pMem]. destruct f; [|by apply Hok]. destruct (Hno eq_refl) as [Href Hs]. split; [|by intros ? [= <-]].
    eapply refused_weaken; [| |exact Href]; lia.
  - exists (mkAggregate (Some None) true), n1. split_and!; [|done| |done].
    + unfold groupConcatStep. rewrite Hnull. by eapply returns_bind; [exact Hr1|].
    + apply context_failed; [|done]. eapply refused_weaken; [| |exact Href]; lia.
Qed.

(** The result of the terms [l], or why there is an error. *)
Definition concatenation (r : result) (l : list term) (n0 n : nat) : Prop :=
  r = (if bool_decide (l = []) then Result_null else Result_text (joined l)) \/ exists e, r = Result_error e /\ failure e l n0 n.

Lemma group_spec rows : forall w g n0 n, context g (terms w) n0 n -> mallocFailed g = false -> (is_Some (pMem g) -> terms w <> []) -> (n0 <= n)%nat -> Forall row_ok rows ->
  Z.of_nat (length w) + Z.of_nat (length rows) < 2 ^ 31 ->
  exists k g' n', returns (group (take k rows) g) n g' n' /\ (k <= length rows)%nat /\ (n <= n')%nat /\ context g' (terms (w ++ take k rows)) n0 n' /\
    (mallocFailed g' = true \/ k = length rows /\ mallocFailed g' = false /\ (is_Some (pMem g') -> terms (w ++ rows) <> [])).
Proof using usable_enough limit_range.
  induction rows as [|a rows IH]; intros w g n0 n Hg Hf Hne Hn0 Hrows Hlen; [exists 0%nat, g, n; cbn; rewrite app_nil_r; split_and!; auto; done|].
  apply Forall_cons in Hrows as [Ha Hrows]. cbn [length] in Hlen.
  destruct (context_step a g w n0 n) as (g1 & n1 & Hr1 & Hn1 & Hg1 & Hsome); [done|done|done|done|lia|].
  destruct (mallocFailed g1) eqn:Hf1.
  { exists 1%nat, g1, n1. cbn [take length group]. split_and!; [by eapply returns_bind; [exact Hr1|]|lia|done|done|by left]. }
  destruct (IH (w ++ [a]) g1 n0 n1) as (k & g' & n' & Hr & Hk & Hn & Hg' & Hend); [done|done| |lia|done|rewrite length_app; cbn [length]; lia|].
  { intros H1. destruct (Hsome eq_refl H1) as [H0|]; [|done]. specialize (Hne H0). rewrite terms_app. by destruct (terms w). }
  rewrite <- app_assoc in *. cbn [app] in *. exists (S k), g', n'. cbn [take length group].
  split_and!; [by eapply returns_bind|lia|lia|done|]. destruct Hend as [|(-> & ? & ?)]; [by left|right; by split_and!].
Qed.

(** An aggregate that has failed can still be finished. *)
Lemma failed_finish g l n0 n : context g l n0 n -> mallocFailed g = true -> is_Some (groupConcatFinalize g) /\ is_Some (groupConcatValue g) /\ refused malloc n0 n.
Proof.
  unfold context. intros Hg Hf. rewrite Hf in Hg. destruct Hg as [Href Hg]. unfold groupConcatFinalize, groupConcatValue, sqlite3_aggregate_context_0.
  destruct (pMem g) as [[p|]|]; [|done..]. specialize (Hg p eq_refl). destruct (result_spec limit (str p) Hg) as [s ->]. split; [done|]. split; [|done].
  destruct (_ =? SQLITE_TOOBIG); [done|]. destruct (_ =? SQLITE_NOMEM); [done|]. rewrite (value_spec limit) by done. by eexists.
Qed.

(** Theorem: GROUP_CONCAT of a group. Whatever allocations fail, rows are added without undefined behaviour
    until the connection is refused memory, when the statement ends with SQLITE_NOMEM; otherwise
    the result is null for no text, the texts with the separators between them, or an error:
    SQLITE_NOMEM only when an allocation was refused, and SQLITE_TOOBIG only when the text
    reaches the limit on lengths. *)
Theorem group_concat_group rows n : Forall row_ok rows -> Z.of_nat (length rows) < 2 ^ 31 ->
  exists k g n' r, returns (group (take k rows) no_aggregate) n g n' /\ groupConcatFinalize g = Some r /\
    ((k = length rows /\ mallocFailed g = false /\ concatenation r (terms rows) n n') \/
     ((k <= length rows)%nat /\ mallocFailed g = true /\ refused malloc n n')).
Proof using usable_enough limit_range.
  intros Hrows Hlen. destruct (group_spec rows [] no_aggregate n n) as (k & g & n' & Hr & Hk & _ & Hg & Hend); [done|done|by intros []|done|done|done|]. cbn [app] in *.
  exists k, g, n'. destruct Hend as [Hf|(-> & Hf & Hne)].
  - destruct (failed_finish g _ _ _ Hg Hf) as ([r Hfin] & _ & Href). exists r. split; [done|]. split; [done|]. by right.
  - rewrite firstn_all in Hg. unfold context in Hg. rewrite Hf in Hg. unfold groupConcatFinalize, sqlite3_aggregate_context_0.
    destruct (pMem g) as [[p|]|]; [|done|].
    + destruct Hg as (Hok & _ & Hp). destruct (result_spec limit (str p)) as [s Hs]; [done|].
      eexists. split; [done|]. rewrite Hs. cbn [mbind option_bind]. split; [done|]. left. split_and!; [done|done|].
      destruct (accError (str p) =? 0); [left|right; by eexists]. rewrite bool_decide_eq_false_2 by (by apply Hne). by rewrite (good_text _ _ Hp).
    + exists Result_null. split_and!; [done|done|]. left. split_and!; [done|done|]. left. by rewrite Hg.
Qed.

(** ** Windows *)

(** The rows of the frame. *)
Fixpoint frame (moves : list move) (w : list args) : list args :=
  match moves with
  | [] => w
  | Enter a :: moves => frame moves (w ++ [a])
  | Leave :: moves => frame moves (tail w)
  end.

(** No text is empty. *)
Definition visible (a : args) : Prop := row_ok a /\ text_of (val a) <> Some [].
Definition move_ok (m : move) : Prop := match m with Enter a => visible a | Leave => True end.

Lemma visible_joined w : Forall visible w -> joined (terms w) <> [] \/ terms w = [].
Proof.
  induction 1 as [|a w [_ Ha] _ IH]; [by right|]. unfold terms. cbn. destruct (text_of (val a)) as [v|] eqn:Hv; [|exact IH]. left. cbn. by destruct v.
Qed.

Lemma visible_small w : Forall visible w -> Forall small (terms w).
Proof.
  induction 1 as [|b w [[_ Hb] _] _ IH]; [done|]. change (b :: w) with ([b] ++ w). rewrite terms_app. by apply Forall_app.
Qed.

Definition no_error (g : aggregate) : Prop :=
  mallocFailed g = false /\ match pMem g with Some (Some p) => accError (str p) = 0 | _ => True end.

Lemma no_error_dec g : no_error g \/ ~ no_error g.
Proof. unfold no_error. destruct (mallocFailed g); [by right; intros []|]. destruct (pMem g) as [[p|]|]; [|by left..]. destruct (decide (accError (str p) = 0)); [by left|by right; intros []]. Qed.

Lemma context_leave a w g n0 n : context g (terms (a :: w)) n0 n -> no_error g -> Forall visible (a :: w) -> (n0 <= n)%nat ->
  exists g' n', returns (groupConcatInverse a g) n g' n' /\ (n <= n')%nat /\ context g' (terms w) n0 n' /\ (mallocFailed g' = false -> no_error g').
Proof using limit_range.
  intros Hg [Hf He] Hw Hn0. pose proof (visible_small _ Hw) as Hsmall. apply Forall_cons in Hw as [_ Hw]. unfold context in Hg. rewrite Hf in Hg.
  destruct g as [p f]. cbn [mallocFailed pMem] in *. subst f. unfold terms in Hg, Hsmall. cbn in Hg, Hsmall. destruct (text_of (val a)) as [v|] eqn:Hv.
  2: { exists (mkAggregate p false), n. split_and!; [unfold groupConcatInverse; by destruct (val a)|lia|done|done]. }
  destruct p as [[p|]|]; cbn in Hg; [|done..]. cbn in Hsmall.
  destruct (inverse_spec a p (terms w) n0 n v) as (p' & f & n' & Hr & Hn & Hs & Hok & Href); [done..|by apply visible_joined|].
  exists (mkAggregate (Some (Some p')) f), n'. split; [done|]. split; [done|]. unfold context. cbn [mallocFailed pMem]. destruct f.
  - split; [|done]. split; [|by intros ? [= <-]]. eapply refused_weaken; [| |by apply Href]; lia.
  - destruct (Hok eq_refl) as [He' Hst]. split; [done|]. by split.
Qed.

Lemma slide_spec moves : forall w g n0 n, context g (terms w) n0 n -> no_error g -> (n0 <= n)%nat -> Forall visible w -> Forall move_ok moves ->
  Z.of_nat (length w) + Z.of_nat (length moves) < 2 ^ 31 ->
  exists k g' n', returns (slide (take k moves) w g) n (frame (take k moves) w, g') n' /\ (k <= length moves)%nat /\
    context g' (terms (frame (take k moves) w)) n0 n' /\ Forall visible (frame (take k moves) w) /\ (k = length moves /\ no_error g' \/ ~ no_error g').
Proof using usable_enough limit_range.
  induction moves as [|m moves IH]; intros w g n0 n Hg He Hn0 Hw Hmoves Hlen; [exists 0%nat, g, n; cbn; split_and!; auto; done|].
  apply Forall_cons in Hmoves as [Hm Hmoves]. cbn [length] in Hlen.
  set (w1 := match m with Enter a => w ++ [a] | Leave => tail w end).
  assert (Hnext : exists g1 n1, (forall k x n', returns (slide (take k moves) w1 g1) n1 x n' -> returns (slide (m :: take k moves) w g) n x n') /\
    (n <= n1)%nat /\ context g1 (terms w1) n0 n1 /\ Forall visible w1 /\ (length w1 <= S (length w))%nat).
  { unfold w1. destruct m as [a|].
    - destruct (context_step a g w n0 n) as (g1 & n1 & Hr1 & Hn1 & Hg1 & _); [done|apply He|done|apply Hm|lia|].
      exists g1, n1. split_and!; [intros; by eapply returns_bind|done|done| |rewrite length_app; cbn; lia].
      apply Forall_app. split; [done|by apply Forall_singleton].
    - destruct w as [|a w]; [by exists g, n; split_and!; auto|].
      destruct (context_leave a w g n0 n) as (g1 & n1 & Hr1 & Hn1 & Hg1 & _); [done..|].
      exists g1, n1. split_and!; [intros; by eapply returns_bind|done|done|by inversion Hw|cbn; lia]. }
  destruct Hnext as (g1 & n1 & Hsame & Hn1 & Hg1 & Hw1 & Hlen1).
  assert (Hframe : forall k, frame (m :: take k moves) w = frame (take k moves) w1) by (intros; by destruct m).
  destruct (no_error_dec g1) as [He1|He1].
  - destruct (IH w1 g1 n0 n1) as (k & g' & n' & Hr & Hk & H1 & H2 & H3); [done|done|lia|done|done|lia|].
    exists (S k), g', n'. cbn [take length]. rewrite Hframe. split_and!; [by apply Hsame|lia|done|done|]. destruct H3 as [[-> ?]|]; auto.
  - exists 1%nat, g1, n1. cbn [take length]. rewrite Hframe. split_and!; [by apply Hsame|lia|done|done|auto].
Qed.

End group_concat.

(** ** Examples *)

Definition always (_ : nat) : bool := true.
Definition exactly (_ : nat) (n : Z) : Z := n.
Definition row (v s : list Z) : args := mkArgs (Text v) (Some (Text s)).

(** [a], then the number 7 after [-], then [c] after [::]. *)
Definition example_rows : list args := [row [97] [43]; mkArgs Null (Some (Text [45])); mkArgs (Number [55]) (Some (Text [45])); row [99] [58; 58]].

Lemma row_visible v s : v <> [] -> size v <= 10 ^ 9 -> size s <= 10 ^ 9 -> visible true (row v s).
Proof. intros Hv Hsv Hs. split; [|by intros [= ->]]. split; [done|]. unfold terms. cbn. by apply Forall_singleton. Qed.
Lemma example_visible : Forall (visible true) example_rows.
Proof.
  unfold example_rows. rewrite !Forall_cons. split_and!; first [by apply row_visible|done|split].
  all: try done; (split; [done|]); unfold terms; cbn; by first [apply Forall_nil|apply Forall_singleton].
Qed.

Lemma group_concat_group_witness : Forall (row_ok true) example_rows /\
  exists k g n' r, returns (group always exactly 1000 (take k example_rows) no_aggregate) 0 g n' /\ groupConcatFinalize g = Some r /\
    ((k = length example_rows /\ mallocFailed g = false /\ concatenation always 1000 r (terms example_rows) 0 n') \/
     ((k <= length example_rows)%nat /\ mallocFailed g = true /\ refused always 0 n')).
Proof.
  assert (H : Forall (row_ok true) example_rows) by (eapply Forall_impl; [exact example_visible|]; by intros a []).
  split; [exact H|]. apply (group_concat_group always exactly 1000) with (two := true); [done|done|exact H|done].
Defined.

Definition example_moves : list move := map Enter example_rows ++ [Leave; Leave].


(** What is the value after each of the moves? *)
Definition value_after (moves : list move) : option result :=
  match slide always exactly 1000 moves [] no_aggregate 0%nat with Some ((_, g), _) => groupConcatValue g | None => None end.

(** [7::c] is left of [a-7::c] when the first row that is not null leaves. *)
Example window_example : value_after (map Enter example_rows) = Some (Result_text [97; 45; 55; 58; 58; 99]) /\
  value_after example_moves = Some (Result_text [55; 58; 58; 99]).
Proof. by vm_compute. Qed.

(** Theorem (finding): a text is lost next to an empty one. In a frame of two rows the first, [a], leaves; the second,
    an empty text, is left, and the context is reset as for an empty frame.  The next row, [x],
    is then added without a separator, and when the empty text leaves, the separator it is
    thought to have takes [x] along: the value for the frame of the row [x] alone is null. *)
Theorem window_text_lost : let moves := [Enter (mkArgs (Text [97]) None); Enter (mkArgs (Text []) None); Leave; Enter (mkArgs (Text [120]) None)] in
  value_after moves = Some (Result_text [120]) /\ joined (terms (frame moves [])) = [44; 120] /\
  value_after (moves ++ [Leave]) = Some Result_null /\ joined (terms (frame (moves ++ [Leave]) [])) = [120].
Proof. by vm_compute. Qed.

(** Theorem (finding): an empty text is an empty text for a group, and null for a frame. *)
Theorem empty_text_is_null : let row := mkArgs (Text []) None in
  value_after [Enter row] = Some Result_null /\
  (g ← group always exactly 1000 [row] no_aggregate; lift (groupConcatFinalize g)) 0%nat = Some (Result_text [], 2%nat).
Proof. by vm_compute. Qed.

(** Theorem (finding): when the table of lengths cannot be enlarged the string has the error, but the row is counted all the
    same: the table then has too few cells, and a row that leaves, before the value is
    asked for, moves a cell from after its end. *)
Theorem refused_table_overread : let rows := [row [97] [45]; row [98] [43; 43]; row [99] [43; 43]; row [100] [43; 43]] in
  match group (fun n => negb (n =? 6)%nat) exactly 1000 rows no_aggregate 0%nat with
  | Some (mkAggregate (Some (Some p)) false as g, n) => accError (str p) = SQLITE_NOMEM /\ groupConcatInverse always (row [97] [45]) g n = None
  | _ => False
  end.
Proof. by vm_compute. Qed.
