(* ===== verification/Aggregates.v ===== *)
(** * Aggregates: SQLite's count, min and max

    sqlite3.c, func.c part: the aggregate functions over the values of a column.  For min and max
    the values are in the order of Compare.v; a step also says whether the other columns of the
    row are to be remembered ([sqlite3SkipAccumulatorLoad] says that they are not), so that a
    query finds them for the row of the least or greatest value. *)

From S2P Require Export Compare.

Definition is_null (v : mem) : bool := match v with Mem_null _ => true | _ => false end.

(** ** Counting *)

(** The rows; no argument is [None], for count of all rows. *)
Definition countStep (v : option mem) (n : Z) : Z :=
  match v with Some v => if negb (is_null v) then n + 1 else n | None => n + 1 end.
Definition countInverse (v : option mem) (n : Z) : Z :=
  match v with Some v => if negb (is_null v) then n - 1 else n | None => n - 1 end.
(** [p] is the context, which the first step makes. *)
Definition countFinalize (p : option Z) : Z := match p with Some n => n | None => 0 end.

(** ** Least and greatest *)

Section min_max.
(** [sqlite3_config] and the collating sequence of the function. *)
Variable bUseLongDouble : bool.
Variable pColl : option coll.
(** [sqlite3_user_data]: whether the function is max. *)
Variable max : bool.

(** [pBest] has no flags, [None], before a value.  The result has [true] where the
    accumulator is not loaded. *)
Definition minmaxStep (pArg : mem) (pBest : option mem) : option (option mem * bool) :=
  match is_null pArg, pBest with
  | true, _ => Some (pBest, bool_decide (is_Some pBest))
  | false, Some best =>
    cmp ← sqlite3MemCompare bUseLongDouble best pArg pColl;
    if (max && (cmp <? 0)) || (negb max && (0 <? cmp)) then Some (Some pArg, false) else Some (Some best, true)
  | false, None => Some (Some pArg, false)
  end.

(** The result, null for no value, and what [bValue] leaves of the context. *)
Definition minMaxValueFinalize (bValue : bool) (pRes : option mem) : mem * option mem :=
  (default (Mem_null false) pRes, if bValue then pRes else None).
Definition minMaxValue (pRes : option mem) : mem * option mem := minMaxValueFinalize true pRes.
Definition minMaxFinalize (pRes : option mem) : mem * option mem := minMaxValueFinalize false pRes.

(** The rows of a group; [loaded] is the number of the row whose columns are in the accumulator. *)
Fixpoint min_max (rows : list mem) (i : nat) (pBest : option mem) (loaded : option nat) : option (option mem * option nat) :=
  match rows with
  | [] => Some (pBest, loaded)
  | v :: rows => '(pBest, skip) ← minmaxStep v pBest; min_max rows (S i) pBest (if skip : bool then loaded else Some i)
  end.

(** ** What they promise *)

Hypothesis coll_ok : collates pColl.

(** [v] is before [w] in the order of the function. *)
Definition order (v w : mem) : Z := if max then - value_order pColl v w else value_order pColl v w.

(** [b] is the row [i] of [rows], the first of the best. *)
Definition first_best (rows : list mem) (i : nat) (b : mem) : Prop :=
  rows !! i = Some b /\ is_null b = false /\
  forall j v, rows !! j = Some v -> is_null v = false -> order b v <= 0 /\ ((j < i)%nat -> order b v < 0).

#[local] Instance order_ordering : Ordering mem_ok order.
Proof using coll_ok.
  pose proof (value_ordering pColl coll_ok) as Hord. constructor; unfold order.
  - intros a b Ha Hb. pose proof (ordering_sym a b Ha Hb). destruct max; lia.
  - intros a b c Ha Hb Hc. pose proof (ordering_trans a b c Ha Hb Hc) as H. pose proof (ordering_trans c b a Hc Hb Ha) as H'.
    pose proof (ordering_sym a b Ha Hb). pose proof (ordering_sym b c Hb Hc). pose proof (ordering_sym a c Ha Hc). destruct max; lia.
Qed.

Lemma order_refl v : mem_ok v -> order v v = 0.
Proof using coll_ok. intros Hv. pose proof (ordering_sym v v Hv Hv). lia. Qed.

Lemma first_best_snoc rows i b v : first_best rows i b -> (is_null v = true \/ order b v <= 0) -> first_best (rows ++ [v]) i b.
Proof.
  intros (Hi & Hb & Hbest) Hv. split; [by apply lookup_app_l_Some|]. split; [done|].
  intros j w [Hj|[Hj Hw]]%lookup_app_Some Hnull; [by apply Hbest|]. pose proof (lookup_lt_Some _ _ _ Hi).
  destruct (j - length rows)%nat; [injection Hw as <-|done]. destruct Hv as [Hv|Hv]; [congruence|]. split; [done|lia].
Qed.

Lemma new_best_snoc rows v : is_null v = false -> mem_ok v -> (forall j w, rows !! j = Some w -> is_null w = false -> order v w < 0) ->
  first_best (rows ++ [v]) (length rows) v.
Proof using coll_ok.
  intros Hv Hok Hall. split; [by apply list_lookup_middle|]. split; [done|].
  intros j w [Hj|[Hj Hw]]%lookup_app_Some Hnull; [pose proof (Hall j w Hj Hnull); lia|].
  destruct (j - length rows)%nat eqn:Hjl; [injection Hw as <-|done]. rewrite order_refl by done. lia.
Qed.

(** What the context and the accumulator are after [rows]: without a value, the last row is loaded. *)
Definition best_of (rows : list mem) (pBest : option mem) (loaded : option nat) : Prop :=
  match pBest with
  | Some b => exists i, loaded = Some i /\ first_best rows i b
  | None => Forall (fun v => is_null v = true) rows /\ loaded = match length rows with O => None | S n => Some n end
  end.

Lemma better_spec best v : mem_ok best -> mem_ok v ->
  exists cmp, sqlite3MemCompare bUseLongDouble best v pColl = Some cmp /\ ((max && (cmp <? 0)) || (negb max && (0 <? cmp))) = (0 <? order best v).
Proof.
  intros Hb Hv. destruct (mem_compare_order bUseLongDouble pColl best v Hb Hv) as (cmp & -> & Hs). exists cmp. split; [done|]. unfold order.
  destruct max; cbn [andb orb negb]; destruct (Z.ltb_spec 0 (- value_order pColl best v)), (Z.ltb_spec 0 (value_order pColl best v)),
    (Z.ltb_spec cmp 0), (Z.ltb_spec 0 cmp); cbn; done || lia.
Qed.

Lemma minmax_step_spec rows v pBest loaded : Forall mem_ok rows -> mem_ok v -> best_of rows pBest loaded ->
  exists pBest' skip, minmaxStep v pBest = Some (pBest', skip) /\ best_of (rows ++ [v]) pBest' (if skip : bool then loaded else Some (length rows)).
Proof using coll_ok.
  intros Hrows Hv Hbest. unfold minmaxStep. destruct (is_null v) eqn:Hnull.
  - exists pBest, (bool_decide (is_Some pBest)). split; [done|]. destruct pBest as [b|]; cbn.
    + destruct Hbest as (i & -> & Hbest). exists i. split; [done|]. apply first_best_snoc; auto.
    + destruct Hbest as [Hall _]. split; [apply Forall_app; split; [done|by apply Forall_singleton]|]. rewrite length_app. cbn. by rewrite Nat.add_1_r.
  - destruct pBest as [b|].
    + destruct Hbest as (i & -> & Hbest). assert (Hb : mem_ok b) by (apply (proj1 (Forall_lookup _ _) Hrows i b), Hbest).
      destruct (better_spec b v Hb Hv) as (cmp & -> & Hcmp). cbn [mbind option_bind]. rewrite Hcmp. destruct (Z.ltb_spec 0 (order b v)) as [Hbetter|Hkeep].
      * exists (Some v), false. split; [done|]. exists (length rows). split; [done|]. apply new_best_snoc; [done|done|]. intros j w Hj Hw.
        destruct Hbest as (_ & _ & Hbest). destruct (Hbest j w Hj Hw) as [Hbw _]. pose proof (proj1 (Forall_lookup _ _) Hrows j w Hj) as Hwok.
        pose proof (ordering_sym b v Hb Hv). pose proof (ordering_sym w v Hwok Hv). pose proof (ordering_trans b w v Hb Hwok Hv Hbw). lia.
      * exists (Some b), true. split; [done|]. exists i. split; [done|]. apply first_best_snoc; auto.
    + exists (Some v), false. split; [done|]. exists (length rows). split; [done|]. apply new_best_snoc; [done|done|].
      intros j w Hj Hw. destruct Hbest as [Hall _]. by rewrite (proj1 (Forall_lookup _ _) Hall j w Hj) in Hw.
Qed.

Lemma min_max_from rows : forall before pBest loaded, Forall mem_ok before -> Forall mem_ok rows -> best_of before pBest loaded ->
  exists pBest' loaded', min_max rows (length before) pBest loaded = Some (pBest', loaded') /\ best_of (before ++ rows) pBest' loaded'.
Proof using coll_ok.
  induction rows as [|v rows IH]; intros before pBest loaded Hbefore Hrows Hbest; cbn [min_max]; [rewrite app_nil_r; by exists pBest, loaded|].
  apply Forall_cons in Hrows as [Hv Hrows]. destruct (minmax_step_spec before v pBest loaded) as (p & skip & -> & Hp); [done..|]. cbn [mbind option_bind].
  destruct (IH (before ++ [v]) p (if skip then loaded else Some (length before))) as (p' & loaded' & H & Hbest'); [apply Forall_app; split; [done|by apply Forall_singleton]|done|done|].
  rewrite length_app, Nat.add_1_r in H. rewrite <- app_assoc in Hbest'. by exists p', loaded'.
Qed.

(** C29: MIN and MAX. When the collating sequence orders texts, the result is the least or greatest of
    the values that are not null, in the order of values, and null when there is none; the
    accumulator is loaded from the row of the first such value. *)
Theorem min_max_result rows : Forall mem_ok rows ->
  exists pBest loaded, min_max rows 0 None None = Some (pBest, loaded) /\
    match pBest with
    | Some b => (minMaxFinalize pBest).1 = b /\ exists i, loaded = Some i /\ rows !! i = Some b /\ is_null b = false /\
      forall j v, rows !! j = Some v -> is_null v = false ->
        (if max then 0 <= value_order pColl b v else value_order pColl b v <= 0) /\ ((j < i)%nat -> value_order pColl b v <> 0)
    | None => (minMaxFinalize pBest).1 = Mem_null false /\ Forall (fun v => is_null v = true) rows
    end.
Proof using coll_ok.
  intros Hrows. destruct (min_max_from rows [] None None) as (p & loaded & H & Hbest); [done|done|by split|]. cbn [app length] in *.
  exists p, loaded. split; [done|]. destruct p as [b|]; [|by destruct Hbest]. destruct Hbest as (i & -> & Hi & Hb & Hbest).
  split; [done|]. exists i. split_and!; [done|done|done|]. intros j v Hj Hv. specialize (Hbest j v Hj Hv). unfold order in Hbest. destruct max; lia.
Qed.
End min_max.

Definition example_column : list mem := [Mem_null false; Mem_int 7; Mem_str [97]; Mem_int (-3); Mem_real 0xC008000000000000].

(** -3 is the least, first of the two equal values; the text is the greatest. *)
Lemma min_max_result_witness : Forall mem_ok example_column /\
  exists pBest loaded, min_max false None false example_column 0 None None = Some (pBest, loaded) /\
    match pBest with
    | Some b => (minMaxFinalize pBest).1 = b /\ exists i, loaded = Some i /\ example_column !! i = Some b /\ is_null b = false /\
      forall j v, example_column !! j = Some v -> is_null v = false ->
        (if false then 0 <= value_order None b v else value_order None b v <= 0) /\ ((j < i)%nat -> value_order None b v <> 0)
    | None => (minMaxFinalize pBest).1 = Mem_null false /\ Forall (fun v => is_null v = true) example_column
    end.
Proof.
  assert (H : Forall mem_ok example_column).
  { unfold example_column. rewrite !Forall_cons. split_and!; cbn [mem_ok]; unfold is_sint, is_uint, is_byte; try done; try lia.
    apply Forall_singleton. unfold is_uint. lia. }
  split; [exact H|]. apply (min_max_result false None false); [exact I|exact H].
Defined.

Example min_max_examples : min_max false None false example_column 0 None None = Some (Some (Mem_int (-3)), Some 3%nat) /\
  min_max false None true example_column 0 None None = Some (Some (Mem_str [97]), Some 2%nat).
Proof. by vm_compute. Qed.

(** ** Counts *)

(** The rows that count counts. *)
Definition counted (rows : list (option mem)) : list (option mem) :=
  List.filter (fun v => match v with Some v => negb (is_null v) | None => true end) rows.

Lemma count_from rows : forall n, foldl (fun n v => countStep v n) n rows = n + Z.of_nat (length (counted rows)).
Proof.
  induction rows as [|v rows IH]; intros n; [cbn; lia|]. cbn [foldl]. rewrite IH. clear IH.
  unfold countStep, counted. destruct v as [v|]; [cbn [List.filter]; destruct (negb (is_null v))|cbn [List.filter]]; cbn [length]; lia.
Qed.

Lemma uncount_from rows : forall n, foldl (fun n v => countInverse v n) n rows = n - Z.of_nat (length (counted rows)).
Proof.
  induction rows as [|v rows IH]; intros n; [cbn; lia|]. cbn [foldl]. rewrite IH. clear IH.
  unfold countInverse, counted. destruct v as [v|]; [cbn [List.filter]; destruct (negb (is_null v))|cbn [List.filter]]; cbn [length]; lia.
Qed.

(** Theorem: COUNT. The result is the number of rows, or of values that are not null, and what rows
    have added to it they take back when they leave the frame. *)
Theorem count_rows rows gone : let n := foldl (fun n v => countStep v n) 0 (gone ++ rows) in
  countFinalize (Some n) = Z.of_nat (length (counted (gone ++ rows))) /\
  (foldl (fun n v => countInverse v n) n gone) = Z.of_nat (length (counted rows)).
Proof.
  cbn zeta. rewrite uncount_from, count_from. unfold counted. rewrite List.filter_app, length_app. cbn [countFinalize]. lia.
Qed.
