(* ===== verification/Bitvec.v ===== *)
(** * Bitvec: SQLite's sets of page numbers

    sqlite3.c, bitvec.c part: a set of integers from 1 to a size, as a bitmap, a hash table with
    open addressing, or an array of smaller sets.  The three share the memory of a union, which is
    cleared when the representation changes; a pointer takes [pointer_size] bytes. *)

From S2P Require Export Allocation.

Section bitvec.
Variable pointer_size : Z.

(** [BITVEC_USIZE] and the sizes derived from it. *)
Definition BITVEC_SZ : Z := 512.
Definition BITVEC_USIZE : Z := (BITVEC_SZ - 3 * 4) / pointer_size * pointer_size.
Definition BITVEC_SZELEM : Z := 8.
Definition BITVEC_NELEM : Z := BITVEC_USIZE / 1.
Definition BITVEC_NBIT : Z := BITVEC_NELEM * BITVEC_SZELEM.
Definition BITVEC_NINT : Z := BITVEC_USIZE / 4.
Definition BITVEC_MXHASH : Z := BITVEC_NINT / 2.
Definition BITVEC_HASH (x : Z) : Z := u32 (x * 1) mod BITVEC_NINT.
Definition BITVEC_NPTR : Z := BITVEC_USIZE / pointer_size.
(** Arithmetic with these sizes is that of [size_t], which is as wide as a pointer. *)
Definition size_t (x : Z) : Z := wrap (8 * pointer_size) x.

(** The union [u]; a null pointer of [apSub] is [None]. *)
Inductive contents (B : Type) := Zeroed | aBitmap (l : list Z) | aHash (l : list Z) | apSub (l : list (option B)).
#[global] Arguments Zeroed {B}.
#[global] Arguments aBitmap {B}.
#[global] Arguments aHash {B}.
#[global] Arguments apSub {B}.
Inductive bitvec := Bitvec (iSize nSet iDivisor : Z) (u : contents bitvec).

Definition iSize (p : bitvec) : Z := let '(Bitvec n _ _ _) := p in n.
Definition nSet (p : bitvec) : Z := let '(Bitvec _ n _ _) := p in n.
Definition iDivisor (p : bitvec) : Z := let '(Bitvec _ _ n _) := p in n.
Definition u (p : bitvec) : contents bitvec := let '(Bitvec _ _ _ u) := p in u.
Definition set_u (x : contents bitvec) (p : bitvec) : bitvec := Bitvec (iSize p) (nSet p) (iDivisor p) x.

(** The members of the union; a cleared union has zeros or null pointers in all of them. *)
Definition bitmap (p : bitvec) : option (list Z) :=
  match u p with Zeroed => Some (replicate (Z.to_nat BITVEC_NELEM) 0) | aBitmap l => Some l | _ => None end.
Definition hash (p : bitvec) : option (list Z) :=
  match u p with Zeroed => Some (replicate (Z.to_nat BITVEC_NINT) 0) | aHash l => Some l | _ => None end.
Definition subs (p : bitvec) : option (list (option bitvec)) :=
  match u p with Zeroed => Some (replicate (Z.to_nat BITVEC_NPTR) None) | apSub l => Some l | _ => None end.

(** Whether the [n]th allocation succeeds. *)
Variable malloc : nat -> bool.

Definition sqlite3BitvecCreate (size : Z) : M (option bitvec) :=
  ok ← allocates malloc;
  mret (match ok with true => Some (Bitvec size 0 0 Zeroed) | false => None end).

(** ** Tests *)

(** The loop that follows the chain from [h]: at most all of the table. *)
Fixpoint probe (fuel : nat) (l : list Z) (h i : Z) : option bool :=
  match fuel with
  | O => None
  | S fuel =>
    x ← l !! Z.to_nat h;
    if x =? 0 then Some false
    else if x =? i then Some true
    else probe fuel l ((h + 1) mod BITVEC_NINT) i
  end.

(** From [i--] on, for [fuel] levels of smaller sets. *)
Fixpoint test_index (fuel : nat) (p : bitvec) (i : Z) : option bool :=
  match fuel with
  | O => None
  | S fuel =>
    if negb (iDivisor p =? 0) then
      l ← subs p;
      sub ← l !! Z.to_nat (i / iDivisor p);
      match sub with
      | None => Some false
      | Some sub => test_index fuel sub (i mod iDivisor p)
      end
    else if iSize p <=? BITVEC_NBIT then
      l ← bitmap p;
      x ← l !! Z.to_nat (i / BITVEC_SZELEM);
      Some (negb (Z.land x (Z.shiftl 1 (Z.land i (BITVEC_SZELEM - 1))) =? 0))
    else
      l ← hash p;
      probe (S (Z.to_nat BITVEC_NINT)) l (BITVEC_HASH i) (u32 (i + 1))
  end.

Definition sqlite3BitvecTestNotNull (fuel : nat) (p : bitvec) (i : Z) : option bool :=
  let i := u32 (i - 1) in
  if iSize p <=? i then Some false else test_index fuel p i.
Definition sqlite3BitvecTest (fuel : nat) (p : option bitvec) (i : Z) : option bool :=
  match p with Some p => sqlite3BitvecTestNotNull fuel p i | None => Some false end.

(** ** Setting a bit *)

(** The loops over occupied cells: the cell of [i], or the first free one. *)
Fixpoint find_cell (fuel : nat) (l : list Z) (h i : Z) : option (Z * bool) :=
  match fuel with
  | O => None
  | S fuel =>
    x ← l !! Z.to_nat h;
    if x =? i then Some (h, true)
    else
      let h := h + 1 in
      let h := if BITVEC_NINT <=? h then 0 else h in
      x ← l !! Z.to_nat h;
      if x =? 0 then Some (h, false) else find_cell fuel l h i
  end.

(** The assignments [p->u.aHash[h] = i] and [p->u.apSub[bin] = sub]. *)
Definition set_hash (h i : Z) (p : bitvec) : option bitvec :=
  l ← hash p;
  if (Z.to_nat h <? length l)%nat then Some (set_u (aHash (<[Z.to_nat h := i]> l)) p) else None.
Definition set_sub (bin : Z) (sub : bitvec) (p : bitvec) : option bitvec :=
  l ← subs p;
  if (Z.to_nat bin <? length l)%nat then Some (set_u (apSub (<[Z.to_nat bin := Some sub]> l)) p) else None.

(** [bitvec_set_end]. *)
Definition set_end (h i : Z) (p : bitvec) : option bitvec :=
  set_hash h i (Bitvec (iSize p) (nSet p + 1) (iDivisor p) (u p)).

(** The loop over the values of the table that is being subdivided; [set] sets a bit counted from 0. *)
Fixpoint set_values (set : bitvec -> Z -> M (Z * bitvec)) (aiValues : list Z) (rc : Z) (p : bitvec) : M (Z * bitvec) :=
  match aiValues with
  | [] => mret (rc, p)
  | v :: aiValues =>
    if negb (v =? 0) then
      '(rc', p) ← set p (u32 (v - 1));
      set_values set aiValues (Z.lor rc rc') p
    else set_values set aiValues rc p
  end.

(** The result code and the set, from [i--] on, for [fuel] levels of smaller sets and changes of
    representation. *)
Fixpoint set_index (fuel : nat) (p : bitvec) (i : Z) : M (Z * bitvec) :=
  match fuel with
  | O => lift None
  | S fuel =>
    if (BITVEC_NBIT <? iSize p) && negb (iDivisor p =? 0) then
      let bin := i / iDivisor p in
      let i := i mod iDivisor p in
      l ← lift (subs p);
      sub ← lift (l !! Z.to_nat bin);
      sub ← (match sub with Some sub => mret (Some sub) | None => sqlite3BitvecCreate (iDivisor p) end);
      match sub with
      | None => mret (SQLITE_NOMEM, p)
      | Some sub =>
        '(rc, sub) ← set_index fuel sub i;
        p ← lift (set_sub bin sub p);
        mret (rc, p)
      end
    else if iSize p <=? BITVEC_NBIT then
      l ← lift (bitmap p);
      x ← lift (l !! Z.to_nat (i / BITVEC_SZELEM));
      let x := u8 (Z.lor x (Z.shiftl 1 (Z.land i (BITVEC_SZELEM - 1)))) in
      mret (SQLITE_OK, set_u (aBitmap (<[Z.to_nat (i / BITVEC_SZELEM) := x]> l)) p)
    else
      let h := BITVEC_HASH i in
      let i := u32 (i + 1) in
      l ← lift (hash p);
      x ← lift (l !! Z.to_nat h);
      if (x =? 0) && (nSet p <? BITVEC_NINT - 1) then p ← lift (set_end h i p); mret (SQLITE_OK, p)
      else
        '(h, found) ← lift (if x =? 0 then Some (h, false) else find_cell (Z.to_nat BITVEC_NINT) l h i);
        match found with true => mret (SQLITE_OK, p) | false =>
        if BITVEC_MXHASH <=? nSet p then
          available ← allocates malloc;
          match available with false => mret (SQLITE_NOMEM, p) | true =>
          let aiValues := l in
          let p := Bitvec (iSize p) (nSet p) (u32 (size_t (iSize p + BITVEC_NPTR - 1) / BITVEC_NPTR)) Zeroed in
          '(rc, p) ← set_index fuel p (u32 (i - 1));
          set_values (set_index fuel) aiValues rc p
          end
        else p ← lift (set_end h i p); mret (SQLITE_OK, p)
        end
  end.

Definition sqlite3BitvecSet (fuel : nat) (p : option bitvec) (i : Z) : M (Z * option bitvec) :=
  match p with
  | None => mret (SQLITE_OK, p)
  | Some p => '(rc, p) ← set_index fuel p (u32 (i - 1)); mret (rc, Some p)
  end.

(** ** Clearing a bit *)

(** The loop to a free cell. *)
Fixpoint free_cell (fuel : nat) (l : list Z) (h : Z) : option Z :=
  match fuel with
  | O => None
  | S fuel =>
    x ← l !! Z.to_nat h;
    if x =? 0 then Some h
    else
      let h := h + 1 in
      free_cell fuel l (if BITVEC_NINT <=? h then 0 else h)
  end.

(** The loop over the values of the table: all but [i] are entered in the new table. *)
Fixpoint rebuild (aiValues : list Z) (i : Z) (n : Z) (l : list Z) : option (Z * list Z) :=
  match aiValues with
  | [] => Some (n, l)
  | v :: aiValues =>
    if negb (v =? 0) && negb (v =? i) then
      h ← free_cell (Z.to_nat BITVEC_NINT) l (BITVEC_HASH (u32 (v - 1)));
      rebuild aiValues i (n + 1) (<[Z.to_nat h := v]> l)
    else rebuild aiValues i n l
  end.

Fixpoint clear_index (fuel : nat) (p : bitvec) (i : Z) : option bitvec :=
  match fuel with
  | O => None
  | S fuel =>
    if negb (iDivisor p =? 0) then
      let bin := i / iDivisor p in
      l ← subs p;
      sub ← l !! Z.to_nat bin;
      match sub with
      | None => Some p
      | Some sub => sub ← clear_index fuel sub (i mod iDivisor p); set_sub bin sub p
      end
    else if iSize p <=? BITVEC_NBIT then
      l ← bitmap p;
      x ← l !! Z.to_nat (i / BITVEC_SZELEM);
      let x := u8 (Z.land x (Z.lnot (Z.shiftl 1 (Z.land i (BITVEC_SZELEM - 1))))) in
      Some (set_u (aBitmap (<[Z.to_nat (i / BITVEC_SZELEM) := x]> l)) p)
    else
      aiValues ← hash p;
      '(n, l) ← rebuild aiValues (u32 (i + 1)) 0 (replicate (Z.to_nat BITVEC_NINT) 0);
      Some (Bitvec (iSize p) n (iDivisor p) (aHash l))
  end.

Definition sqlite3BitvecClear (fuel : nat) (p : option bitvec) (i : Z) : option (option bitvec) :=
  match p with
  | None => Some None
  | Some p => p ← clear_index fuel p (u32 (i - 1)); Some (Some p)
  end.

Definition sqlite3BitvecSize (p : bitvec) : Z := iSize p.
End bitvec.

(** ** Sizes *)

Section specs.
Context (P : Z) (HP : P = 4 \/ P = 8).

Local Notation N := (BITVEC_NINT P).
Local Notation NBIT := (BITVEC_NBIT P).
Local Notation NPTR := (BITVEC_NPTR P).
Local Notation NELEM := (BITVEC_NELEM P).

(** The largest size whose parts can be computed: that of a [u32], less what the addition that
    rounds up takes when [size_t] has no more than 32 bits. *)
Definition max_size : Z := Z.min (2 ^ 32 - 1) (2 ^ (8 * P) - NPTR).
Local Notation LIMIT := max_size.

Lemma sizes : 124 <= N <= 125 /\ BITVEC_MXHASH P = 62 /\ NBIT = 8 * NELEM /\ 496 <= NELEM <= 500 /\
  2 ^ 31 < LIMIT < 2 ^ 32 /\ (NBIT = 4000 /\ NPTR = 125 \/ NBIT = 3968 /\ NPTR = 62).
Proof. unfold max_size. destruct HP as [-> | ->]; vm_compute; repeat split; try discriminate; by (left + right). Qed.

Lemma divisor_exact n : 0 <= n <= LIMIT -> u32 (size_t P (n + NPTR - 1) / NPTR) = (n + NPTR - 1) / NPTR.
Proof.
  intros Hn. pose proof sizes as Hs. unfold size_t. rewrite wrap_small by (unfold is_uint, max_size in *; lia).
  apply u32_small. split; [apply Z.div_pos; lia|apply Z.div_lt_upper_bound; lia].
Qed.

(** ** Tables with open addressing *)

(** The [d]th cell after [h], around the table. *)
Definition at_ (h : Z) (d : nat) : Z := (h + Z.of_nat d) mod N.
Definition start (v : Z) : Z := BITVEC_HASH P (v - 1).
Definition cell (l : list Z) (h : Z) : Z := default 0 (l !! Z.to_nat h).

Lemma at_bounds h d : 0 <= at_ h d < N.
Proof. pose proof sizes. apply Z.mod_pos_bound. lia. Qed.
Lemma start_bounds v : 0 <= start v < N.
Proof. pose proof sizes. apply Z.mod_pos_bound. lia. Qed.
Lemma at_0 h : 0 <= h < N -> at_ h 0 = h.
Proof. intros Hh. unfold at_. rewrite Z.add_0_r. by apply Z.mod_small. Qed.
Lemma at_succ h d : (at_ h d + 1) mod N = at_ h (S d).
Proof. unfold at_. rewrite Z.add_mod_idemp_l by (pose proof sizes; lia). f_equal. lia. Qed.
Lemma at_step h d : (if N <=? at_ h d + 1 then 0 else at_ h d + 1) = at_ h (S d).
Proof.
  rewrite <- at_succ. pose proof (at_bounds h d) as Hb. destruct (Z.leb_spec N (at_ h d + 1)).
  - replace (at_ h d + 1) with N by lia. rewrite Z.mod_same; [done|pose proof sizes; lia].
  - by rewrite Z.mod_small by lia.
Qed.
(** Every cell is at some distance. *)
Lemma at_distance h k : 0 <= k < N -> at_ h (Z.to_nat ((k - h) mod N)) = k.
Proof.
  intros Hk. unfold at_. pose proof (Z.mod_pos_bound (k - h) N ltac:(lia)). rewrite Z2Nat.id by lia.
  rewrite Z.add_mod_idemp_r by lia. replace (h + (k - h)) with k by lia. by apply Z.mod_small.
Qed.
Lemma distance_bound h k : 0 <= k < N -> (Z.to_nat ((k - h) mod N) < Z.to_nat N)%nat.
Proof. intros Hk. pose proof (Z.mod_pos_bound (k - h) N ltac:(lia)). lia. Qed.

(** A table: each value is reached from its start through occupied cells. *)
Record table (l : list Z) : Prop := {
  table_length : length l = Z.to_nat N;
  table_chain : forall k, 0 <= k < N -> cell l k <> 0 ->
    forall d, (d < Z.to_nat ((k - start (cell l k)) mod N))%nat -> cell l (at_ (start (cell l k)) d) <> 0
}.
Definition holds (l : list Z) (v : Z) : Prop := exists k, 0 <= k < N /\ cell l k = v.
Definition has_room (l : list Z) : Prop := holds l 0.

Lemma cell_lookup l h : table l -> 0 <= h < N -> l !! Z.to_nat h = Some (cell l h).
Proof.
  intros Hl Hh. unfold cell. destruct (lookup_lt_is_Some_2 l (Z.to_nat h)) as [x Hx].
  - rewrite (table_length l Hl). lia.
  - by rewrite Hx.
Qed.

Lemma least (Q : nat -> Prop) `{forall n, Decision (Q n)} n : Q n -> exists e, (e <= n)%nat /\ Q e /\ forall d, (d < e)%nat -> ~ Q d.
Proof.
  induction n as [n IH] using lt_wf_ind. intros Hn.
  destruct (decide (Exists Q (seq 0 n))) as [(m & Hm%elem_of_seq & HQ)%Exists_exists|Hno].
  - destruct (IH m ltac:(lia) HQ) as (e & He & HQe & Hmin). exists e. split; [lia|done].
  - exists n. split; [done|]. split; [done|]. intros d Hd HQ. apply Hno, Exists_exists. exists d. rewrite elem_of_seq. split; [lia|done].
Qed.

(** The first free cell from [h] on. *)
Lemma first_free l h : table l -> has_room l -> 0 <= h < N -> exists e, (e < Z.to_nat N)%nat /\ cell l (at_ h e) = 0 /\
  forall d, (d < e)%nat -> cell l (at_ h d) <> 0.
Proof.
  intros Hl (k & Hk & H0) Hh.
  destruct (least (fun d => cell l (at_ h d) = 0) (Z.to_nat ((k - h) mod N))) as (e & He & H0e & Hmin).
  - by rewrite at_distance.
  - exists e. split; [pose proof (distance_bound h k Hk); lia|done].
Qed.

(** A value is found before the first free cell, or nowhere. *)
Lemma holds_before l v e : table l -> v <> 0 -> (e < Z.to_nat N)%nat -> cell l (at_ (start v) e) = 0 ->
  holds l v <-> exists d, (d < e)%nat /\ cell l (at_ (start v) d) = v.
Proof.
  intros Hl Hv He H0. split.
  - intros (k & Hk & Hc). exists (Z.to_nat ((k - start v) mod N)). rewrite at_distance by done. split; [|done].
    destruct (decide (Z.to_nat ((k - start v) mod N) < e)%nat) as [|Hge]; [done|]. exfalso.
    destruct (decide (Z.to_nat ((k - start v) mod N) = e)) as [Heq|Hne].
    + rewrite <- Heq, at_distance in H0 by done. congruence.
    + apply (table_chain l Hl k Hk ltac:(congruence) e); rewrite Hc; [lia|done].
  - intros (d & _ & Hd). exists (at_ (start v) d). split; [apply at_bounds|done].
Qed.

(** *** Searching *)

Definition between (l : list Z) (h : Z) (d e : nat) (v : Z) : Prop := exists d', (d <= d' < e)%nat /\ cell l (at_ h d') = v.

Lemma between_step l h d e v : (d < e)%nat -> between l h d e v <-> cell l (at_ h d) = v \/ between l h (S d) e v.
Proof.
  intros Hde. split.
  - intros (d' & Hd' & Hc). destruct (decide (d' = d)) as [->|]; [by left|]. right. exists d'. split; [lia|done].
  - intros [Hc|(d' & Hd' & Hc)]; [exists d|exists d']; (split; [lia|done]).
Qed.

Lemma probe_loop l h v e : table l -> v <> 0 -> cell l (at_ h e) = 0 -> forall fuel d, (d <= e)%nat -> (e - d < fuel)%nat ->
  (forall d', (d' < e)%nat -> cell l (at_ h d') <> 0) ->
  exists b, probe P fuel l (at_ h d) v = Some b /\ (b = true <-> between l h d e v).
Proof.
  intros Hl Hv H0 fuel. induction fuel as [|fuel IH]; intros d Hd Hf Hfull; [lia|]. cbn [probe].
  rewrite (cell_lookup l _ Hl (at_bounds h d)). cbn [mbind option_bind]. destruct (Z.eqb_spec (cell l (at_ h d)) 0) as [Hz|Hnz].
  { exists false. split; [done|]. split; [done|]. intros (d' & Hd' & _). exfalso.
    destruct (decide (d = e)) as [->|]; [lia|]. by apply (Hfull d ltac:(lia)). }
  assert (Hde : (d < e)%nat) by (destruct (decide (d = e)) as [->|]; [done|lia]).
  pose proof (between_step l h d e v Hde) as Hstep. destruct (Z.eqb_spec (cell l (at_ h d)) v) as [Heq|Hne].
  { exists true. split; [done|]. tauto. }
  rewrite at_succ. destruct (IH (S d) Hde ltac:(lia) Hfull) as (b & Hb & Hiff). exists b. split; [done|]. tauto.
Qed.

Lemma probe_spec l v : table l -> has_room l -> v <> 0 ->
  exists b, probe P (S (Z.to_nat N)) l (start v) v = Some b /\ (b = true <-> holds l v).
Proof.
  intros Hl Hroom Hv. destruct (first_free l (start v) Hl Hroom (start_bounds v)) as (e & He & H0 & Hfull).
  destruct (probe_loop l (start v) v e Hl Hv H0 (S (Z.to_nat N)) 0) as (b & Hb & Hiff); [lia|lia|done|].
  rewrite at_0 in Hb by apply start_bounds. exists b. split; [done|]. rewrite Hiff, (holds_before l v e) by done.
  unfold between. split; intros (d & Hd & Hc); exists d; (split; [lia|done]).
Qed.

Lemma find_loop l h v e : table l -> cell l (at_ h e) = 0 -> (forall d', (d' < e)%nat -> cell l (at_ h d') <> 0) ->
  forall fuel d, (d < e)%nat -> (e - d <= fuel)%nat ->
  exists h' b, find_cell P fuel l (at_ h d) v = Some (h', b) /\ (b = true <-> between l h d e v) /\ (b = false -> h' = at_ h e).
Proof.
  intros Hl H0 Hfull fuel. induction fuel as [|fuel IH]; intros d Hd Hf; [lia|]. cbn [find_cell].
  rewrite (cell_lookup l _ Hl (at_bounds h d)). cbn [mbind option_bind]. pose proof (between_step l h d e v Hd) as Hstep.
  destruct (Z.eqb_spec (cell l (at_ h d)) v) as [Heq|Hne].
  { exists (at_ h d), true. split; [done|]. split; [tauto|done]. }
  rewrite at_step, (cell_lookup l _ Hl (at_bounds h (S d))). cbn [mbind option_bind].
  destruct (Z.eqb_spec (cell l (at_ h (S d))) 0) as [Hz|Hnz].
  { assert (He : e = S d) by (destruct (decide (e = S d)); [done|]; exfalso; by apply (Hfull (S d) ltac:(lia))). subst e.
    eexists _, false. split; [done|]. split; [|done]. split; [done|]. rewrite Hstep. intros [?|(d' & Hd' & _)]; [done|lia]. }
  assert (S d <> e) by (intros Heq; by rewrite Heq in Hnz). destruct (IH (S d) ltac:(lia) ltac:(lia)) as (h' & b & Hb & Hiff & Hh).
  exists h', b. split; [done|]. split; [|done]. tauto.
Qed.

Lemma free_loop l h e : table l -> cell l (at_ h e) = 0 -> (forall d', (d' < e)%nat -> cell l (at_ h d') <> 0) ->
  forall fuel d, (d <= e)%nat -> (e - d < fuel)%nat -> free_cell P fuel l (at_ h d) = Some (at_ h e).
Proof.
  intros Hl H0 Hfull fuel. induction fuel as [|fuel IH]; intros d Hd Hf; [lia|]. cbn [free_cell].
  rewrite (cell_lookup l _ Hl (at_bounds h d)). cbn [mbind option_bind].
  destruct (Z.eqb_spec (cell l (at_ h d)) 0) as [Hz|Hnz].
  - destruct (decide (d = e)) as [->|]; [done|]. exfalso. by apply (Hfull d ltac:(lia)).
  - rewrite at_step. assert (d <> e) by (intros Heq; by rewrite Heq in Hnz). apply IH; lia.
Qed.

(** *** Entering a value *)

Definition occupied (l : list Z) : Z := Z.of_nat (length (filter (fun x => x <> 0) l)).

Lemma occupied_insert l i v : l !! i = Some 0 -> v <> 0 -> occupied (<[i := v]> l) = occupied l + 1.
Proof.
  intros Hi Hv. unfold occupied. revert i Hi. induction l as [|x l IH]; intros [|i] Hi; cbn in Hi; try done.
  - injection Hi as ->. cbn [insert list_insert]. rewrite !filter_cons.
    destruct (decide (v <> 0)); [|done]. destruct (decide (0 <> 0)); [done|]. cbn [length]. lia.
  - change (<[S i:=v]> (x :: l)) with (x :: <[i:=v]> l). rewrite !filter_cons. specialize (IH i Hi). destruct (decide (x <> 0)); cbn [length]; lia.
Qed.

Lemma occupied_room l : length l = Z.to_nat N -> occupied l < N -> has_room l.
Proof.
  intros Hl Ho. destruct (decide (Exists (fun x => x = 0) l)) as [Hex|Hno].
  - apply Exists_exists in Hex as (x & (k & Hk)%list_elem_of_lookup & ->). exists (Z.of_nat k).
    split; [apply lookup_lt_Some in Hk; lia|]. unfold cell. by rewrite Nat2Z.id, Hk.
  - exfalso. assert (Hall : Forall (fun x => x <> 0) l) by (apply Forall_Exists_neg in Hno; done).
    assert (Hfull : occupied l = Z.of_nat (length l)); [|lia]. clear - Hall. unfold occupied.
    induction Hall as [|x l Hx _ IH]; [done|]. rewrite filter_cons_True by done. cbn [length]. lia.
Qed.

Lemma at_inj h d e : (d < Z.to_nat N)%nat -> (e < Z.to_nat N)%nat -> at_ h d = at_ h e -> d = e.
Proof.
  intros Hd He Heq. unfold at_ in Heq. pose proof sizes.
  pose proof (Z.div_mod (h + Z.of_nat d) N ltac:(lia)). pose proof (Z.div_mod (h + Z.of_nat e) N ltac:(lia)).
  assert ((h + Z.of_nat d) / N = (h + Z.of_nat e) / N) by nia. lia.
Qed.

Lemma cell_insert l h v k : table l -> 0 <= h < N -> 0 <= k < N -> cell (<[Z.to_nat h := v]> l) k = if k =? h then v else cell l k.
Proof.
  intros Hl Hh Hk. unfold cell. destruct (Z.eqb_spec k h) as [->|Hne].
  - rewrite list_lookup_insert_eq; [done|]. rewrite (table_length l Hl). lia.
  - by rewrite list_lookup_insert_ne by lia.
Qed.

(** A value entered in the first free cell from its start. *)
Lemma table_insert l v e : table l -> v <> 0 -> (e < Z.to_nat N)%nat -> cell l (at_ (start v) e) = 0 ->
  (forall d, (d < e)%nat -> cell l (at_ (start v) d) <> 0) ->
  let l' := <[Z.to_nat (at_ (start v) e) := v]> l in
  table l' /\ occupied l' = occupied l + 1 /\ forall w, w <> 0 -> holds l' w <-> w = v \/ holds l w.
Proof.
  intros Hl Hv He H0 Hfull l'. set (h := at_ (start v) e) in *. assert (Hh : 0 <= h < N) by apply at_bounds.
  assert (Hcell : forall k, 0 <= k < N -> cell l' k = if k =? h then v else cell l k) by (intros; by apply cell_insert).
  assert (Hkeep : forall k, 0 <= k < N -> cell l k <> 0 -> cell l' k <> 0).
  { intros k Hk Hc. rewrite Hcell by done. by destruct (k =? h). }
  split; [split|split].
  - unfold l'. rewrite length_insert. apply Hl.
  - intros k Hk Hc d Hd. rewrite Hcell in Hc, Hd by done. rewrite (Hcell k Hk). apply Hkeep; [apply at_bounds|].
    destruct (Z.eqb_spec k h) as [->|Hne]; [|by apply (table_chain l Hl k Hk Hc)].
    apply Hfull. destruct (decide (d < e)%nat) as [|Hge]; [done|exfalso].
    assert (Hdist : Z.to_nat ((h - start v) mod N) = e) by
      (apply (at_inj (start v)); [by apply distance_bound|done|by rewrite at_distance]).
    lia.
  - apply occupied_insert; [|done]. rewrite (cell_lookup l h Hl Hh). by rewrite H0.
  - intros w Hw. split.
    + intros (k & Hk & Hc). rewrite Hcell in Hc by done. destruct (k =? h); [by left|]. right. by exists k.
    + intros [->|(k & Hk & Hc)].
      * exists h. split; [done|]. rewrite Hcell by done. by rewrite Z.eqb_refl.
      * exists k. split; [done|]. rewrite Hcell by done. destruct (Z.eqb_spec k h) as [->|]; [congruence|done].
Qed.

Lemma occupied_zeros n : occupied (replicate n 0) = 0.
Proof.
  unfold occupied. induction n as [|n IH]; [done|]. cbn [replicate]. rewrite filter_cons.
  by destruct (decide (0 <> 0)).
Qed.

Lemma empty_table : table (replicate (Z.to_nat N) 0) /\ occupied (replicate (Z.to_nat N) 0) = 0 /\
  forall w, w <> 0 -> ~ holds (replicate (Z.to_nat N) 0) w.
Proof.
  assert (Hcell : forall k, cell (replicate (Z.to_nat N) 0) k = 0).
  { intros k. unfold cell. destruct (replicate _ _ !! _) as [x|] eqn:E; [|done]. by apply lookup_replicate in E as [-> _]. }
  split; [split|split].
  - apply length_replicate.
  - intros k Hk Hc. by rewrite Hcell in Hc.
  - apply occupied_zeros.
  - intros w Hw (k & _ & Hk). by rewrite Hcell in Hk.
Qed.

(** *** Rebuilding *)

Lemma start_u32 v : 1 <= v < 2 ^ 32 -> BITVEC_HASH P (u32 (v - 1)) = start v.
Proof. intros Hv. unfold start. by rewrite u32_small by (unfold is_uint; lia). Qed.

Lemma rebuild_spec vals i : Forall (fun v => 0 <= v < 2 ^ 32) vals -> forall n l, table l -> occupied l = n ->
  n + occupied vals < N ->
  exists n' l', rebuild P vals i n l = Some (n', l') /\ table l' /\ occupied l' = n' /\ n' <= n + occupied vals /\
    forall w, w <> 0 -> holds l' w <-> holds l w \/ (In w vals /\ w <> i).
Proof.
  induction 1 as [|v vals Hv Hvals IH]; intros n l Hl Hn Hroom; cbn [rebuild].
  { exists n, l. split; [done|]. split; [done|]. split; [done|]. split; [unfold occupied; cbn; lia|]. intros w Hw. cbn. tauto. }
  assert (Hocc : occupied (v :: vals) = (if decide (v <> 0) then 1 else 0) + occupied vals).
  { unfold occupied. rewrite filter_cons. destruct (decide (v <> 0)); cbn [length]; lia. }
  assert (Hpos : 0 <= occupied vals) by (unfold occupied; lia).
  destruct (Z.eqb_spec v 0) as [->|Hv0]; cbn [negb andb].
  { destruct (IH n l Hl Hn) as (n' & l' & Hr & Hl' & Hn' & Hle & Hw); [destruct (decide _); lia|].
    exists n', l'. split; [done|]. split; [done|]. split; [done|]. split; [destruct (decide _); lia|].
    intros w Hw0. rewrite Hw by done. cbn [In]. naive_solver. }
  rewrite decide_True in Hocc by done. destruct (Z.eqb_spec v i) as [->|Hvi]; cbn [negb].
  { destruct (IH n l Hl Hn) as (n' & l' & Hr & Hl' & Hn' & Hle & Hw); [lia|].
    exists n', l'. split; [done|]. split; [done|]. split; [done|]. split; [lia|].
    intros w Hw0. rewrite Hw by done. cbn [In]. naive_solver. }
  rewrite start_u32 by lia. assert (Hfree : has_room l) by (apply occupied_room; [apply Hl|lia]).
  destruct (first_free l (start v) Hl Hfree (start_bounds v)) as (e & He & H0 & Hfull).
  pose proof (free_loop l (start v) e Hl H0 Hfull (Z.to_nat N) 0 ltac:(lia) ltac:(lia)) as Hf.
  rewrite at_0 in Hf by apply start_bounds. rewrite Hf. cbn [mbind option_bind].
  destruct (table_insert l v e Hl Hv0 He H0 Hfull) as (Hl1 & Ho1 & Hh1).
  destruct (IH (n + 1) _ Hl1) as (n' & l' & Hr & Hl' & Hn' & Hle & Hw); [lia|lia|].
  exists n', l'. split; [done|]. split; [done|]. split; [done|]. split; [lia|].
  intros w Hw0. rewrite Hw, Hh1 by done. cbn [In]. naive_solver.
Qed.

(** ** Well-formed sets *)

Definition capacity (k : nat) : Z := NBIT * NPTR ^ Z.of_nat k.

Definition bitmap_ok (p : bitvec) (l : list Z) : Prop :=
  iSize p <= NBIT /\ iDivisor p = 0 /\ bitmap P p = Some l /\ length l = Z.to_nat NELEM /\ Forall is_byte l.
Definition hash_ok (p : bitvec) (l : list Z) : Prop :=
  NBIT < iSize p /\ iDivisor p = 0 /\ hash P p = Some l /\ table l /\ nSet p = occupied l /\ occupied l < N /\
  Forall (fun v => 0 <= v <= iSize p) l.
Definition node_ok (W : bitvec -> Prop) (p : bitvec) (l : list (option bitvec)) : Prop :=
  NBIT < iSize p /\ iDivisor p = (iSize p + NPTR - 1) / NPTR /\ subs P p = Some l /\ length l = Z.to_nat NPTR /\
  forall j q, l !! j = Some (Some q) -> W q /\ iSize q = iDivisor p.

(** Sets of at most [k] levels. *)
Fixpoint wf (k : nat) (p : bitvec) : Prop :=
  0 < iSize p <= capacity k /\ iSize p <= LIMIT /\
  ((exists l, bitmap_ok p l) \/ (exists l, hash_ok p l) \/
   match k with O => False | S k => exists l, node_ok (wf k) p l end).

(** Membership of an index counted from 0. *)
Definition has (k : nat) (p : bitvec) (j : Z) : bool := default false (test_index P (S k) p j).

(** *** Bitmaps *)

Lemma test_bit x b : 0 <= b -> negb (Z.land x (Z.shiftl 1 b) =? 0) = Z.testbit x b.
Proof.
  intros Hb. destruct (Z.testbit x b) eqn:E.
  - apply negb_true_iff, Z.eqb_neq. intros H0.
    assert (Hbit : Z.testbit (Z.land x (Z.shiftl 1 b)) b = true).
    { rewrite Z.land_spec, E, Z.shiftl_spec by done. by rewrite Z.sub_diag. }
    by rewrite H0, Z.bits_0 in Hbit.
  - apply negb_false_iff, Z.eqb_eq. apply Z.bits_inj'. intros i Hi. rewrite Z.land_spec, Z.bits_0, Z.shiftl_spec by done.
    destruct (decide (i = b)) as [->|]; [by rewrite E|]. destruct (decide (i < b)).
    + rewrite (Z.testbit_neg_r 1) by lia. apply andb_false_r.
    + rewrite (Z.bits_above_log2 1) by (cbn; lia). apply andb_false_r.
Qed.

Lemma low_bits j : 0 <= j -> Z.land j (8 - 1) = j mod 8.
Proof. intros Hj. change (8 - 1) with (Z.ones 3). by rewrite Z.land_ones by lia. Qed.

Definition bit (l : list Z) (j : Z) : bool := Z.testbit (default 0 (l !! Z.to_nat (j / 8))) (j mod 8).

Lemma bit_lookup l j : length l = Z.to_nat NELEM -> 0 <= j < NBIT ->
  l !! Z.to_nat (j / 8) = Some (default 0 (l !! Z.to_nat (j / 8))).
Proof.
  intros Hl Hj. pose proof sizes as Hs. destruct (lookup_lt_is_Some_2 l (Z.to_nat (j / 8))) as [x Hx]; [|by rewrite Hx].
  rewrite Hl. assert (0 <= j / 8 < NELEM); [|lia]. split; [apply Z.div_pos; lia|apply Z.div_lt_upper_bound; lia].
Qed.

(** The bits after one byte has been changed at one bit. *)
Lemma bit_insert l i j x (b : bool) : length l = Z.to_nat NELEM -> 0 <= i < NBIT -> 0 <= j < NBIT ->
  (forall m, 0 <= m < 8 -> Z.testbit x m = if m =? i mod 8 then b else Z.testbit (default 0 (l !! Z.to_nat (i / 8))) m) ->
  bit (<[Z.to_nat (i / 8) := x]> l) j = if j =? i then b else bit l j.
Proof.
  intros Hl Hi Hj Hx. unfold bit. pose proof (Z.mod_pos_bound i 8 ltac:(lia)). pose proof (Z.mod_pos_bound j 8 ltac:(lia)).
  pose proof (Z.div_mod i 8 ltac:(lia)). pose proof (Z.div_mod j 8 ltac:(lia)).
  pose proof (Z.div_pos i 8 ltac:(lia) ltac:(lia)). pose proof (Z.div_pos j 8 ltac:(lia) ltac:(lia)).
  destruct (decide (j / 8 = i / 8)) as [Heq|Hne].
  - rewrite Heq, list_lookup_insert_eq by (by eapply lookup_lt_Some, bit_lookup). cbn [default from_option]. rewrite Hx by done.
    destruct (Z.eqb_spec (j mod 8) (i mod 8)), (Z.eqb_spec j i); try done; lia.
  - rewrite list_lookup_insert_ne by lia. destruct (Z.eqb_spec j i); [congruence|done].
Qed.

Lemma has_bitmap k p l j : bitmap_ok p l -> 0 <= j < iSize p -> test_index P (S k) p j = Some (bit l j).
Proof.
  intros (Hsz & Hd & Hl & Hlen & _) Hj. cbn [test_index]. rewrite Hd, Z.eqb_refl. cbn [negb].
  rewrite (proj2 (Z.leb_le _ _)) by done. rewrite Hl. cbn [mbind option_bind]. change BITVEC_SZELEM with 8.
  rewrite (bit_lookup l j) by (done || lia). cbn [mbind option_bind]. rewrite low_bits by lia.
  by rewrite test_bit by (apply Z.mod_pos_bound; lia).
Qed.

Lemma has_hash k p l j : hash_ok p l -> 0 <= j < iSize p -> iSize p < 2 ^ 32 ->
  exists b, test_index P (S k) p j = Some b /\ (b = true <-> holds l (j + 1)).
Proof.
  intros (Hsz & Hd & Hl & Ht & Hn & Hroom & _) Hj H32. cbn [test_index]. rewrite Hd, Z.eqb_refl. cbn [negb].
  rewrite (proj2 (Z.leb_gt _ _)) by lia. rewrite Hl. cbn [mbind option_bind].
  rewrite u32_small by (unfold is_uint; lia).
  replace (BITVEC_HASH P j) with (start (j + 1)) by (unfold start; f_equal; lia).
  apply probe_spec; [done| |lia]. apply occupied_room; [apply Ht|done].
Qed.

Lemma test_node fuel p j l : iDivisor p <> 0 -> subs P p = Some l -> test_index P (S fuel) p j =
  (sub ← l !! Z.to_nat (j / iDivisor p);
   match sub with None => Some false | Some sub => test_index P fuel sub (j mod iDivisor p) end).
Proof. intros Hd Hl. cbn [test_index]. rewrite (proj2 (Z.eqb_neq _ _)) by done. cbn [negb]. by rewrite Hl. Qed.

Lemma has_node k p l j : node_ok (wf k) p l -> 0 <= j < iSize p ->
  exists q, l !! Z.to_nat (j / iDivisor p) = Some q /\ 0 <= j mod iDivisor p < iDivisor p /\
    test_index P (S (S k)) p j = match q with Some q => test_index P (S k) q (j mod iDivisor p) | None => Some false end.
Proof.
  intros (Hsz & Hd & Hl & Hlen & _) Hj. pose proof sizes as Hs.
  assert (Hdp : 0 < iDivisor p) by (rewrite Hd; apply Z.div_str_pos; lia).
  assert (Hbin : 0 <= j / iDivisor p < NPTR).
  { split; [apply Z.div_pos; lia|]. apply Z.div_lt_upper_bound; [done|]. rewrite Hd.
    pose proof (Z.div_mod (iSize p + NPTR - 1) NPTR ltac:(lia)). pose proof (Z.mod_pos_bound (iSize p + NPTR - 1) NPTR ltac:(lia)). lia. }
  destruct (lookup_lt_is_Some_2 l (Z.to_nat (j / iDivisor p))) as [q Hq]; [rewrite Hlen; lia|].
  exists q. split; [done|]. split; [by apply Z.mod_pos_bound|].
  rewrite (test_node (S k) p j l ltac:(lia) Hl), Hq. by destruct q.
Qed.

Lemma leaf_total k p j : (exists l, bitmap_ok p l) \/ (exists l, hash_ok p l) -> iSize p < 2 ^ 32 -> 0 <= j < iSize p ->
  exists b, test_index P (S k) p j = Some b.
Proof.
  intros [[l Hl]|[l Hl]] H32 Hj; [eexists; by apply (has_bitmap _ p l)|].
  destruct (has_hash k p l j Hl Hj H32) as (b & Hb & _). by exists b.
Qed.

(** A set is a leaf or has smaller ones. *)
Lemma wf_cases k p : wf k p -> 0 < iSize p <= capacity k /\ iSize p <= LIMIT /\
  ((exists l, bitmap_ok p l) \/ (exists l, hash_ok p l) \/ exists k' l, k = S k' /\ node_ok (wf k') p l).
Proof.
  destruct k as [|k]; intros (Hcap & H32 & Hp); (split; [done|]; split; [done|]).
  - destruct Hp as [?|[?|[]]]; tauto.
  - destruct Hp as [?|[?|[l Hl]]]; [tauto|tauto|]. right. right. by exists k, l.
Qed.
Lemma wf_intro k p : 0 < iSize p <= capacity k -> iSize p <= LIMIT ->
  (exists l, bitmap_ok p l) \/ (exists l, hash_ok p l) -> wf k p.
Proof. intros Hcap H32 Hp. destruct k; (split; [done|]; split; [done|]; tauto). Qed.

Lemma test_total k : forall p j, wf k p -> 0 <= j < iSize p -> exists b, test_index P (S k) p j = Some b.
Proof.
  induction k as [|k IH]; intros p j (_ & H32 & Hp)%wf_cases Hj; pose proof sizes as Hs;
    (destruct Hp as [Hp|[Hp|(k' & l & Hk & Hl)]]; [apply leaf_total; [tauto|lia|done]..|]); [done|].
  injection Hk as <-. destruct (has_node k p l j Hl Hj) as (q & Hq & Hm & ->). destruct q as [q|]; [|by eexists].
  destruct Hl as (_ & _ & _ & _ & Hall). destruct (Hall _ _ Hq) as [Hwf Hiq]. apply IH; [done|by rewrite Hiq].
Qed.

Lemma test_has k p j : wf k p -> 0 <= j < iSize p -> test_index P (S k) p j = Some (has k p j).
Proof. intros Hp Hj. destruct (test_total k p j Hp Hj) as [b Hb]. unfold has. by rewrite Hb. Qed.

(** *** New sets *)

Lemma wf_new k size : 0 < size <= capacity k -> size <= LIMIT -> wf k (Bitvec size 0 0 Zeroed).
Proof.
  intros Hcap H32. pose proof sizes as Hs.
  destruct (decide (size <= NBIT)) as [Hsmall|Hbig].
  - assert (Hb : bitmap_ok (Bitvec size 0 0 Zeroed) (replicate (Z.to_nat NELEM) 0)).
    { split; [done|]. split; [done|]. split; [done|]. split; [apply length_replicate|]. by apply Forall_replicate. }
    apply wf_intro; [done|done|]. left. by eexists.
  - assert (Hh : hash_ok (Bitvec size 0 0 Zeroed) (replicate (Z.to_nat N) 0)).
    { destruct empty_table as (Ht & Ho & _). split; [cbn; lia|]. split; [done|]. split; [done|]. split; [done|].
      split; [by rewrite Ho|]. split; [rewrite Ho; lia|]. apply Forall_replicate. cbn. lia. }
    apply wf_intro; [done|done|]. right. by eexists.
Qed.

Lemma has_new k size j : 0 < size <= capacity k -> size <= LIMIT -> 0 <= j < size ->
  has k (Bitvec size 0 0 Zeroed) j = false.
Proof.
  intros Hcap H32 Hj. pose proof (wf_new k size Hcap H32) as Hwf.
  assert (Hcases : (exists l, bitmap_ok (Bitvec size 0 0 Zeroed) l) \/ exists l, hash_ok (Bitvec size 0 0 Zeroed) l).
  { destruct (wf_cases _ _ Hwf) as (_ & _ & [?|[?|(k' & l & _ & Hbig & Hd & _)]]); [by left|by right|]. exfalso. pose proof sizes. cbn in Hbig, Hd.
    assert (0 < (size + NPTR - 1) / NPTR) by (apply Z.div_str_pos; lia). lia. }
  pose proof sizes. unfold has. destruct Hcases as [[l Hl]|[l Hl]].
  - rewrite (has_bitmap _ _ _ _ Hl Hj). destruct Hl as (_ & _ & [= <-] & _). cbn [default]. unfold bit, from_option.
    destruct (replicate _ _ !! _) as [x|] eqn:E; [|apply Z.bits_0]. apply lookup_replicate in E as [-> _]. apply Z.bits_0.
  - destruct (has_hash k _ _ _ Hl Hj) as (b & -> & Hb); [cbn; lia|]. destruct Hl as (_ & _ & [= <-] & _). cbn.
    destruct b; [|done]. exfalso. destruct empty_table as (_ & _ & He). apply (He (j + 1)); [lia|by apply Hb].
Qed.

(** *** Smaller sets *)

Lemma node_wf k p l : 0 < iSize p <= capacity (S k) -> iSize p <= LIMIT -> node_ok (wf k) p l -> wf (S k) p.
Proof. intros Hcap H32 Hl. split; [done|]. split; [done|]. right. right. by exists l. Qed.

Lemma divisor_bounds k p l : 0 < iSize p <= capacity (S k) -> iSize p <= LIMIT -> node_ok (wf k) p l ->
  0 < iDivisor p <= capacity k /\ iDivisor p <= LIMIT.
Proof.
  intros Hcap H32 (Hsz & Hd & _). pose proof sizes as Hs. rewrite Hd. unfold capacity in *.
  rewrite Nat2Z.inj_succ, Z.pow_succ_r in Hcap by lia.
  split; [split|].
  - apply Z.div_str_pos. lia.
  - apply Z.lt_succ_r, Z.div_lt_upper_bound; lia.
  - apply Z.lt_succ_r, Z.div_lt_upper_bound; lia.
Qed.

Lemma node_has k p l j : node_ok (wf k) p l -> 0 <= j < iSize p ->
  has (S k) p j = match l !! Z.to_nat (j / iDivisor p) with Some (Some q) => has k q (j mod iDivisor p) | _ => false end.
Proof.
  intros Hl Hj. destruct (has_node k p l j Hl Hj) as (q & Hq & Hm & Ht). unfold has at 1. rewrite Ht, Hq. by destruct q.
Qed.

(** Two indexes are the same when they have the same place. *)
Lemma same_index i j d : 0 < d -> 0 <= i -> 0 <= j -> (j =? i) = (j / d =? i / d) && (j mod d =? i mod d).
Proof.
  intros Hd Hi Hj. pose proof (Z.div_mod i d ltac:(lia)). pose proof (Z.div_mod j d ltac:(lia)).
  apply eq_true_iff_eq. rewrite andb_true_iff, !Z.eqb_eq. split; [by intros ->|]. intros [H1 H2]. rewrite H1, H2 in *. lia.
Qed.

(** A smaller set replaced. *)
Lemma node_replace k p l i q' : 0 < iSize p <= capacity (S k) -> iSize p <= LIMIT ->
  node_ok (wf k) p l -> 0 <= i < iSize p -> wf k q' -> iSize q' = iDivisor p -> is_Some (l !! Z.to_nat (i / iDivisor p)) ->
  exists p' l', set_sub P (i / iDivisor p) q' p = Some p' /\ node_ok (wf k) p' l' /\ wf (S k) p' /\ iSize p' = iSize p /\
    forall j, 0 <= j < iSize p -> has (S k) p' j = if j / iDivisor p =? i / iDivisor p then has k q' (j mod iDivisor p) else has (S k) p j.
Proof.
  intros Hcap H32 Hok Hi Hq' Hqs' Hlook. pose proof Hok as (Hsz & Hd & Hl & Hlen & Hall).
  destruct (divisor_bounds k p l Hcap H32 Hok) as [Hdb _].
  set (bin := Z.to_nat (i / iDivisor p)) in *. set (l' := <[bin := Some q']> l). apply lookup_lt_is_Some in Hlook as Hbin.
  assert (Hok' : node_ok (wf k) (set_u (apSub l') p) l').
  { split; [done|]. split; [done|]. split; [done|]. split; [unfold l'; by rewrite length_insert|].
    intros j x Hx. unfold l' in Hx. apply list_lookup_insert_Some in Hx as [(_ & Hx & _)|[_ Hx]]; [|by apply (Hall j)].
    by injection Hx as <-. }
  exists (set_u (apSub l') p), l'. split.
  { unfold set_sub. rewrite Hl. cbn [mbind option_bind]. by rewrite (proj2 (Nat.ltb_lt _ _)) by done. }
  split; [done|]. split; [by apply node_wf with l'|]. split; [done|].
  intros j Hj. rewrite (node_has k p l j Hok Hj), (node_has k _ l' j Hok' Hj).
  change (iDivisor (set_u (apSub l') p)) with (iDivisor p).
  pose proof (Z.div_pos i (iDivisor p) ltac:(lia) ltac:(lia)). pose proof (Z.div_pos j (iDivisor p) ltac:(lia) ltac:(lia)).
  destruct (Z.eqb_spec (j / iDivisor p) (i / iDivisor p)) as [->|Hne].
  - fold bin. unfold l'. by rewrite list_lookup_insert_eq.
  - unfold l'. by rewrite list_lookup_insert_ne by (unfold bin; lia).
Qed.

(** ** Setting a bit *)

Section setting.
Variable malloc : nat -> bool.

(** What setting the index [i] gives: unless an allocation fails the set has [i] more; if one does,
    indexes may have been lost, but none has appeared. *)
Definition sets_bit (k : nat) (p p' : bitvec) (i rc : Z) (n n' : nat) : Prop :=
  wf k p' /\ iSize p' = iSize p /\ (n <= n')%nat /\ (rc <> 0 -> exists m, (n <= m < n')%nat /\ malloc m = false) /\
  forall j, 0 <= j < iSize p -> (rc = 0 -> has k p' j = (j =? i) || has k p j) /\
    (has k p' j = true -> (j =? i) || has k p j = true).

Lemma sets_exactly k p p' i n : wf k p' -> iSize p' = iSize p ->
  (forall j, 0 <= j < iSize p -> has k p' j = (j =? i) || has k p j) -> sets_bit k p p' i 0 n n.
Proof. intros Hwf Hsz Hj. split; [done|]. split; [done|]. split; [lia|]. split; [done|]. intros j Hb. rewrite (Hj j Hb). done. Qed.

Lemma sets_nothing k p i n n' : wf k p -> (n < n')%nat -> malloc n = false -> sets_bit k p p i SQLITE_NOMEM n n'.
Proof.
  intros Hwf Hn Hm. split; [done|]. split; [done|]. split; [lia|]. split; [intros _; exists n; split; [lia|done]|].
  intros j Hj. split; [done|]. intros ->. apply orb_true_r.
Qed.

(** A byte with a bit more. *)
Lemma set_byte x b m : is_byte x -> 0 <= b < 8 -> 0 <= m < 8 ->
  Z.testbit (u8 (Z.lor x (Z.shiftl 1 b))) m = if m =? b then true else Z.testbit x m.
Proof.
  intros Hx Hb Hm. rewrite u8_small.
  - rewrite Z.lor_spec, Z.shiftl_spec by lia. destruct (Z.eqb_spec m b) as [->|Hne].
    + rewrite Z.sub_diag. apply orb_true_r.
    + destruct (decide (m < b)); [rewrite (Z.testbit_neg_r 1) by lia|rewrite (Z.bits_above_log2 1) by (cbn; lia)];
        apply orb_false_r.
  - apply is_uint_lor; [lia|done|]. unfold is_uint. rewrite Z.shiftl_mul_pow2 by lia.
    assert (2 ^ b <= 2 ^ 7) by (apply Z.pow_le_mono_r; lia). lia.
Qed.

Lemma bitmap_has k p l : wf k p -> bitmap_ok p l -> forall j, 0 <= j < iSize p -> has k p j = bit l j.
Proof. intros _ Hl j Hj. unfold has. by rewrite (has_bitmap k p l j Hl Hj). Qed.

(** A bitmap with one byte changed. *)
Lemma bitmap_update k p l x i : wf k p -> bitmap_ok p l -> 0 <= i < iSize p -> is_byte x ->
  let p' := set_u (aBitmap (<[Z.to_nat (i / 8) := x]> l)) p in
  bitmap_ok p' (<[Z.to_nat (i / 8) := x]> l) /\ wf k p' /\ iSize p' = iSize p.
Proof.
  intros (Hcap & H32 & _)%wf_cases (Hsz & Hd & Hl & Hlen & Hb) Hi Hx p'.
  assert (Hok : bitmap_ok p' (<[Z.to_nat (i / 8) := x]> l)).
  { split; [done|]. split; [done|]. split; [done|]. split; [by rewrite length_insert|]. by apply Forall_insert. }
  split; [done|]. split; [|done]. apply wf_intro; [done|done|]. left. by eexists.
Qed.

Lemma set_bitmap fuel k p l i n : wf k p -> bitmap_ok p l -> 0 <= i < iSize p ->
  exists p', set_index P malloc (S fuel) p i n = Some ((0, p'), n) /\ sets_bit k p p' i 0 n n.
Proof.
  intros Hwf Hok Hi. pose proof Hok as (Hsz & Hd & Hl & Hlen & Hb). pose proof sizes as Hs. cbn [set_index].
  rewrite (proj2 (Z.ltb_ge _ _)) by done. cbn [andb]. rewrite (proj2 (Z.leb_le _ _)) by done. rewrite Hl.
  change BITVEC_SZELEM with 8. unfold mbind, M_bind, lift. rewrite (bit_lookup l i) by (done || lia). cbn [mret M_ret].
  set (x := default 0 (l !! Z.to_nat (i / 8))). rewrite low_bits by lia.
  assert (Hx : is_byte x).
  { unfold x. rewrite Forall_lookup in Hb. eapply Hb. by apply bit_lookup; [done|lia]. }
  eexists. split; [reflexivity|]. destruct (bitmap_update k p l (u8 (Z.lor x (Z.shiftl 1 (i mod 8)))) i Hwf Hok Hi (u8_bounds _))
    as (Hok' & Hwf' & Hsz'). apply sets_exactly; [done|done|]. intros j Hj.
  rewrite (bitmap_has k _ _ Hwf' Hok'), (bitmap_has k p l Hwf Hok) by (by rewrite ?Hsz').
  rewrite (bit_insert l i j _ true); [by destruct (j =? i)|done|lia|lia|].
  intros m Hm. by apply set_byte; [|apply Z.mod_pos_bound; lia|].
Qed.

Lemma hash_has k p l j : wf k p -> hash_ok p l -> 0 <= j < iSize p -> has k p j = true <-> holds l (j + 1).
Proof.
  intros (_ & H32 & _)%wf_cases Hl Hj. pose proof sizes. destruct (has_hash k p l j Hl Hj ltac:(lia)) as (b & Hb & Hiff).
  unfold has. by rewrite Hb.
Qed.

(** A value entered in the table. *)
Lemma set_entry k p l i e n : wf k p -> hash_ok p l -> 0 <= i < iSize p -> (e < Z.to_nat N)%nat ->
  cell l (at_ (start (i + 1)) e) = 0 -> (forall d, (d < e)%nat -> cell l (at_ (start (i + 1)) d) <> 0) -> occupied l < N - 1 ->
  exists p', set_end P (at_ (start (i + 1)) e) (i + 1) p = Some p' /\ sets_bit k p p' i 0 n n.
Proof.
  intros Hwf Hok Hi He H0 Hfull Hroom. pose proof Hok as (Hsz & Hd & Hl & Ht & Hn & Hlt & Hv).
  destruct (table_insert l (i + 1) e Ht ltac:(lia) He H0 Hfull) as (Ht' & Ho' & Hh').
  pose proof (at_bounds (start (i + 1)) e) as Hb. unfold set_end, set_hash.
  assert (Hl' : hash P (Bitvec (iSize p) (nSet p + 1) (iDivisor p) (u p)) = Some l) by (unfold hash in *; done).
  rewrite Hl'. cbn [mbind option_bind]. rewrite (proj2 (Nat.ltb_lt _ _)) by (rewrite (table_length l Ht); lia).
  eexists. split; [done|]. set (l' := <[Z.to_nat (at_ (start (i + 1)) e) := i + 1]> l) in *.
  set (p' := set_u _ _). destruct (wf_cases _ _ Hwf) as (Hcap & H32 & _).
  assert (Hok' : hash_ok p' l').
  { split; [done|]. split; [done|]. split; [done|]. split; [done|]. split; [cbn; lia|]. split; [lia|].
    apply Forall_insert; [done|]. cbn. lia. }
  assert (Hwf' : wf k p') by (apply wf_intro; [done|done|]; right; by eexists).
  apply sets_exactly; [done|done|]. intros j Hj.
  apply eq_true_iff_eq. rewrite (hash_has k p' l' j Hwf' Hok' Hj), orb_true_iff, Z.eqb_eq, (hash_has k p l j Hwf Hok Hj).
  rewrite Hh' by lia. assert (j + 1 = i + 1 <-> j = i) as -> by lia. done.
Qed.

(** A smaller set changed at one index. *)
Lemma node_update k p l i q q' rc n n' : 0 < iSize p <= capacity (S k) -> iSize p <= LIMIT ->
  node_ok (wf k) p l -> 0 <= i < iSize p -> wf k q -> iSize q = iDivisor p ->
  (l !! Z.to_nat (i / iDivisor p) = Some (Some q) \/
   l !! Z.to_nat (i / iDivisor p) = Some None /\ forall j, 0 <= j < iDivisor p -> has k q j = false) ->
  sets_bit k q q' (i mod iDivisor p) rc n n' ->
  exists p' l', set_sub P (i / iDivisor p) q' p = Some p' /\ node_ok (wf k) p' l' /\ sets_bit (S k) p p' i rc n n'.
Proof.
  intros Hcap H32 Hok Hi Hq Hqs Hlook (Hq' & Hqs' & Hn & Hrc & Hhas).
  destruct (divisor_bounds k p l Hcap H32 Hok) as [Hdb _].
  assert (Hbin : is_Some (l !! Z.to_nat (i / iDivisor p))) by (destruct Hlook as [->|[-> _]]; by eexists).
  destruct (node_replace k p l i q' Hcap H32 Hok Hi Hq' ltac:(by rewrite Hqs', Hqs) Hbin) as (p' & l' & Hset & Hok' & Hwf' & Hsz' & Hp').
  exists p', l'. split; [done|]. split; [done|]. split; [done|]. split; [done|]. split; [done|]. split; [done|].
  intros j Hj. rewrite (Hp' j Hj), (same_index i j (iDivisor p)) by lia. destruct (Z.eqb_spec (j / iDivisor p) (i / iDivisor p)) as [Heq|Hne].
  - cbn [andb]. rewrite (node_has k p l j Hok Hj), Heq.
    pose proof (Z.mod_pos_bound j (iDivisor p) ltac:(lia)) as Hmj. specialize (Hhas (j mod iDivisor p) ltac:(lia)).
    destruct Hlook as [-> | [-> Hempty]]; [done|]. by rewrite <- (Hempty _ Hmj).
  - by split.
Qed.

Definition sets_well (fuel k : nat) : Prop := forall q i n, wf k q -> 0 <= i < iSize q ->
  exists rc q' n', set_index P malloc fuel q i n = Some ((rc, q'), n') /\ sets_bit k q q' i rc n n'.

Lemma set_node fuel k p l i n : sets_well fuel k -> 0 < iSize p <= capacity (S k) -> iSize p <= LIMIT ->
  node_ok (wf k) p l -> 0 <= i < iSize p ->
  exists rc p' l' n', set_index P malloc (S fuel) p i n = Some ((rc, p'), n') /\ node_ok (wf k) p' l' /\ sets_bit (S k) p p' i rc n n'.
Proof.
  intros IH Hcap H32 Hok Hi. pose proof Hok as (Hsz & Hd & Hl & Hlen & Hall).
  destruct (divisor_bounds k p l Hcap H32 Hok) as [Hdb Hd32]. cbn [set_index].
  rewrite (proj2 (Z.ltb_lt _ _)), (proj2 (Z.eqb_neq _ _)) by lia. cbn [andb negb]. rewrite Hl.
  destruct (has_node k p l i Hok Hi) as (sub & Hsub & Hm & _).
  unfold mbind, M_bind, lift. rewrite Hsub. destruct sub as [q|]; cbn [mret M_ret].
  - destruct (Hall _ _ Hsub) as [Hq Hqs].
    destruct (IH q (i mod iDivisor p) n Hq ltac:(lia)) as (rc & q' & n' & Hrun & Hset). rewrite Hrun.
    destruct (node_update k p l i q q' rc n n') as (p' & l' & -> & Hok' & Hset'); try done; [by left|].
    by exists rc, p', l', n'.
  - unfold sqlite3BitvecCreate, mbind, M_bind, allocates. destruct (malloc n) eqn:Hmal; cbn [mret M_ret].
    + set (q := Bitvec (iDivisor p) 0 0 Zeroed). assert (Hq : wf k q) by (by apply wf_new).
      destruct (IH q (i mod iDivisor p) (S n) Hq ltac:(done)) as (rc & q' & n' & Hrun & Hset). rewrite Hrun.
      destruct (node_update k p l i q q' rc (S n) n') as (p' & l' & -> & Hok' & Hset'); try done.
      { right. split; [done|]. intros j Hj. by apply has_new. }
      exists rc, p', l', n'. split; [done|]. split; [done|].
      destruct Hset' as (? & ? & ? & Hf & ?). split; [done|]. split; [done|]. split; [lia|]. split; [|done].
      intros Hrc. destruct (Hf Hrc) as (m & Hm' & Hm''). exists m. split; [lia|done].
    + exists SQLITE_NOMEM, p, l, (S n). split; [done|]. split; [done|]. apply sets_nothing; [by apply node_wf with l|lia|done].
Qed.

(** *** Subdividing *)

Lemma holds_In l w : table l -> holds l w <-> In w l.
Proof.
  intros Hl. rewrite <- list_elem_of_In, list_elem_of_lookup. split.
  - intros (k & Hk & <-). exists (Z.to_nat k). by apply cell_lookup.
  - intros (k & Hk). exists (Z.of_nat k). pose proof (lookup_lt_Some _ _ _ Hk) as Hlt. rewrite (table_length l Hl) in Hlt.
    split; [lia|]. unfold cell. by rewrite Nat2Z.id, Hk.
Qed.

(** The values of the old table, into smaller sets. *)
Lemma set_values_spec fuel k vals : sets_well fuel k -> forall rc0 p l n,
  0 < iSize p <= capacity (S k) -> iSize p <= LIMIT -> node_ok (wf k) p l -> Forall (fun v => 0 <= v <= iSize p) vals ->
  exists rc p' n', set_values (set_index P malloc (S fuel)) vals rc0 p n = Some ((rc, p'), n') /\
    wf (S k) p' /\ iSize p' = iSize p /\ (n <= n')%nat /\ (rc <> 0 -> rc0 <> 0 \/ exists m, (n <= m < n')%nat /\ malloc m = false) /\
    (rc = 0 -> rc0 = 0) /\
    forall j, 0 <= j < iSize p -> (rc = 0 -> has (S k) p j = true \/ In (j + 1) vals -> has (S k) p' j = true) /\
      (has (S k) p' j = true -> has (S k) p j = true \/ In (j + 1) vals).
Proof.
  intros IHset. induction vals as [|v vals IH]; intros rc0 p l n Hcap H32 Hok Hv; cbn [set_values].
  { exists rc0, p, n. split; [done|]. split; [by apply node_wf with l|]. split; [done|]. split; [lia|]. split; [by left|].
    split; [done|]. intros j Hj. cbn [In]. tauto. }
  apply Forall_cons in Hv as [Hv Hvals]. pose proof sizes as Hs. destruct (Z.eqb_spec v 0) as [->|Hne]; cbn [negb].
  { destruct (IH rc0 p l n Hcap H32 Hok Hvals) as (rc & p' & n' & Hrun & Hwf & Hsz & Hn & Hf & Hz & Hhas).
    exists rc, p', n'. split; [done|]. do 5 (split; [done|]). intros j Hj. destruct (Hhas j Hj) as [H1 H2]. cbn [In].
    split; [intros Hrc [?|[?|?]]; [by apply H1; [|left]|lia|by apply H1; [|right]]|]. intros H. destruct (H2 H); tauto. }
  rewrite u32_small by (unfold is_uint; lia).
  destruct (set_node fuel k p l (v - 1) n IHset Hcap H32 Hok ltac:(lia)) as (rc1 & p1 & l1 & n1 & Hrun1 & Hok1 & Hset1).
  destruct Hset1 as (Hwf1 & Hsz1 & Hn1 & Hf1 & Hhas1). unfold mbind, M_bind. rewrite Hrun1.
  destruct (IH (Z.lor rc0 rc1) p1 l1 n1) as (rc & p' & n' & Hrun & Hwf & Hsz & Hn & Hf & Hz & Hhas);
    [by rewrite Hsz1|by rewrite Hsz1|done|by rewrite Hsz1|].
  exists rc, p', n'. split; [done|]. split; [done|]. split; [congruence|]. split; [lia|].
  assert (Hlor : Z.lor rc0 rc1 = 0 -> rc0 = 0 /\ rc1 = 0) by (intros H; by apply Z.lor_eq_0_iff).
  split; [|split].
  - intros Hrc. destruct (Hf Hrc) as [Hl|(m & Hm & Hm')]; [|right; exists m; split; [lia|done]].
    destruct (decide (rc0 = 0)) as [->|]; [|by left]. right. destruct (Hf1) as (m & Hm & Hm'); [by intros ->|].
    exists m. split; [lia|done].
  - intros Hrc. by apply Hlor, Hz.
  - intros j Hj. destruct (Hhas j ltac:(by rewrite Hsz1)) as [H1 H2], (Hhas1 j Hj) as [H3 H4]. cbn [In]. split.
    + intros Hrc Hor. destruct (Hlor (Hz Hrc)) as [_ Hrc1]. apply (H1 Hrc).
      destruct Hor as [Hp|[Hvj|Hin]]; [left|left|by right]; rewrite (H3 Hrc1).
      * rewrite Hp. apply orb_true_r.
      * rewrite (proj2 (Z.eqb_eq j (v - 1))) by lia. done.
    + intros Hp'. destruct (H2 Hp') as [Hp1|?]; [|tauto]. specialize (H4 Hp1). apply orb_true_iff in H4 as [Heq|?]; [|tauto].
      right. left. apply Z.eqb_eq in Heq. lia.
Qed.

(** The set that replaces a table. *)
Lemma empty_node k p : NBIT < iSize p <= capacity (S k) -> iSize p <= LIMIT ->
  let p1 := Bitvec (iSize p) (nSet p) (u32 (size_t P (iSize p + NPTR - 1) / NPTR)) Zeroed in
  node_ok (wf k) p1 (replicate (Z.to_nat NPTR) None) /\ forall j, 0 <= j < iSize p -> has (S k) p1 j = false.
Proof.
  intros Hcap H32 p1. pose proof sizes as Hs.
  assert (Hok : node_ok (wf k) p1 (replicate (Z.to_nat NPTR) None)).
  { split; [cbn; lia|]. split; [apply (divisor_exact (iSize p)); lia|]. split; [done|].
    split; [apply length_replicate|]. intros j q Hq. by apply lookup_replicate in Hq as [? _]. }
  split; [done|]. intros j Hj. rewrite (node_has k p1 _ j Hok Hj).
  destruct (replicate _ _ !! _) as [q|] eqn:E; [|done]. by apply lookup_replicate in E as [-> _].
Qed.

Lemma subdivide fuel k p l i n : sets_well fuel k -> wf (S k) p -> hash_ok p l -> 0 <= i < iSize p ->
  exists rc p' n', (available ← allocates malloc;
    match available with false => mret (SQLITE_NOMEM, p) | true =>
    let p := Bitvec (iSize p) (nSet p) (u32 (size_t P (iSize p + NPTR - 1) / NPTR)) Zeroed in
    '(rc, p) ← set_index P malloc (S fuel) p i; set_values (set_index P malloc (S fuel)) l rc p end) n = Some ((rc, p'), n') /\
  sets_bit (S k) p p' i rc n n'.
Proof.
  intros IHset Hwf Hok Hi. destruct (wf_cases _ _ Hwf) as (Hcap & H32 & _). pose proof Hok as (Hsz & _ & _ & Ht & _ & _ & Hv).
  unfold mbind, M_bind, allocates. destruct (malloc n) eqn:Hm.
  2: { exists SQLITE_NOMEM, p, (S n). split; [done|]. apply sets_nothing; [done|lia|done]. }
  cbv zeta. destruct (empty_node k p ltac:(lia) H32) as [Hok1 Hempty]. set (p1 := Bitvec _ _ _ _) in *.
  destruct (set_node fuel k p1 _ i (S n) IHset Hcap H32 Hok1 Hi) as (rc1 & p2 & l2 & n2 & Hrun & Hok2 & Hset).
  destruct Hset as (_ & Hsz2 & Hn2 & Hf2 & Hhas2). rewrite Hrun.
  destruct (set_values_spec fuel k l IHset rc1 p2 l2 n2) as (rc & p' & n' & Hrun' & Hwf' & Hsz' & Hn' & Hf' & Hz' & Hhas');
    [by rewrite Hsz2|by rewrite Hsz2|done|by rewrite Hsz2|].
  exists rc, p', n'. split; [done|]. split; [done|]. split; [by rewrite Hsz', Hsz2|]. split; [lia|]. split.
  - intros Hrc. destruct (Hf' Hrc) as [Hr|(m & Hmm & Hmm')]; [destruct (Hf2 Hr) as (m & Hmm & Hmm')|]; exists m; (split; [lia|done]).
  - intros j Hj. destruct (Hhas2 j Hj) as [H1 H2], (Hhas' j ltac:(by rewrite Hsz2)) as [H3 H4].
    rewrite (Hempty j Hj), orb_false_r in *. rewrite <- (holds_In l (j + 1) Ht), <- (hash_has (S k) p l j Hwf Hok Hj) in *.
    assert (Hsub : has (S k) p' j = true -> (j =? i) || has (S k) p j = true).
    { intros Hp. rewrite orb_true_iff. destruct (H4 Hp) as [Hp2|?]; [left; by apply H2|by right]. }
    split; [|done]. intros Hrc. apply eq_true_iff_eq. split; [done|]. rewrite orb_true_iff. intros [Hji|Hp]; apply (H3 Hrc).
    + left. by rewrite (H1 (Hz' Hrc)).
    + by right.
Qed.

(** A value that is there already. *)
Lemma sets_found k p l i n : wf k p -> hash_ok p l -> 0 <= i < iSize p -> holds l (i + 1) -> sets_bit k p p i 0 n n.
Proof.
  intros Hwf Hok Hi Hin. apply sets_exactly; [done|done|]. intros j Hj. destruct (Z.eqb_spec j i) as [->|]; [|done].
  cbn [orb]. by apply (hash_has k p l).
Qed.

Lemma set_hash_spec fuel k p l i n : sets_well fuel k -> wf (S k) p -> hash_ok p l -> 0 <= i < iSize p ->
  exists rc p' n', set_index P malloc (S (S fuel)) p i n = Some ((rc, p'), n') /\ sets_bit (S k) p p' i rc n n'.
Proof.
  intros IHset Hwf Hok Hi. destruct (wf_cases _ _ Hwf) as (Hcap & H32 & _).
  pose proof Hok as (Hsz & Hd & Hl & Ht & Hn & Hlt & Hv). pose proof sizes as Hs.
  destruct (subdivide fuel k p l i n IHset Hwf Hok Hi) as (rcs & ps & ns & Hsub & Hsubset).
  assert (Hroom : has_room l) by (apply occupied_room; [apply Ht|done]).
  destruct (first_free l (start (i + 1)) Ht Hroom (start_bounds _)) as (e & He & H0 & Hfull).
  remember (S fuel) as f eqn:Hf. cbn [set_index]. rewrite Hd. cbn [Z.eqb negb]. rewrite andb_false_r.
  rewrite (proj2 (Z.leb_gt _ _)) by lia. rewrite (u32_small (i + 1)) by (unfold is_uint; lia).
  replace (i + 1 - 1) with i by lia. rewrite (u32_small i) by (unfold is_uint; lia).
  replace (BITVEC_HASH P i) with (start (i + 1)) by (unfold start; f_equal; lia).
  rewrite Hl. unfold mbind at 1, M_bind at 1, lift at 1. unfold mbind at 1, M_bind at 1, lift at 1.
  rewrite (cell_lookup l _ Ht (start_bounds _)).
  assert (Hat0 : at_ (start (i + 1)) 0 = start (i + 1)) by apply at_0, start_bounds.
  assert (Hentry : occupied l < N - 1 -> exists p', lift (set_end P (at_ (start (i + 1)) e) (i + 1) p) n = Some (p', n) /\
    sets_bit (S k) p p' i 0 n n).
  { intros Ho. destruct (set_entry (S k) p l i e n Hwf Hok Hi He H0 Hfull Ho) as (p' & Hset & Hbit).
    exists p'. unfold lift. by rewrite Hset. }
  assert (Hfull62 : BITVEC_MXHASH P <=? nSet p = true -> exists rc p' n', (if BITVEC_MXHASH P <=? nSet p then
      available ← allocates malloc;
      match available with false => mret (SQLITE_NOMEM, p) | true =>
      let p := Bitvec (iSize p) (nSet p) (u32 (size_t P (iSize p + NPTR - 1) / NPTR)) Zeroed in
      '(rc, p) ← set_index P malloc f p i; set_values (set_index P malloc f) l rc p end
    else p0 ← lift (set_end P (at_ (start (i + 1)) e) (i + 1) p); mret (SQLITE_OK, p0)) n = Some ((rc, p'), n') /\
    sets_bit (S k) p p' i rc n n').
  { intros ->. by exists rcs, ps, ns. }
  destruct (Z.eqb_spec (cell l (start (i + 1))) 0) as [Hz|Hnz]; cbn [andb].
  - assert (e = 0%nat) as ->.
    { destruct e as [|e]; [done|]. exfalso. apply (Hfull 0%nat ltac:(lia)). by rewrite Hat0. }
    rewrite Hat0 in Hentry. rewrite Hat0 in Hfull62. destruct (Z.ltb_spec (nSet p) (N - 1)) as [Hlow|Hhigh].
    + destruct (Hentry ltac:(lia)) as (p' & Hset & Hbit). exists 0, p', n. split; [|done].
      unfold mbind, M_bind. by rewrite Hset.
    + apply Hfull62. apply Z.leb_le. lia.
  - assert (He0 : (0 < e)%nat) by (destruct e; [by rewrite Hat0 in H0|lia]).
    destruct (find_loop l (start (i + 1)) (i + 1) e Ht H0 Hfull (Z.to_nat N) 0 He0 ltac:(lia)) as (h' & b & Hfind & Hb & Hh).
    rewrite Hat0 in Hfind. rewrite Hfind. unfold mbind at 1, M_bind at 1, lift at 1. destruct b.
    + exists 0, p, n. split; [done|]. apply (sets_found _ p l); try done.
      apply (holds_before l (i + 1) e Ht); [lia|done|done|]. destruct (proj1 Hb eq_refl) as (d & Hd' & Hc).
      exists d. split; [lia|done].
    + rewrite (Hh eq_refl). destruct (BITVEC_MXHASH P <=? nSet p) eqn:Hmx; [by apply Hfull62|].
      destruct (Hentry) as (p' & Hset & Hbit); [apply Z.leb_gt in Hmx; lia|]. exists 0, p', n. split; [|done].
      unfold mbind, M_bind. by rewrite Hset.
Qed.

Lemma set_well k : forall fuel, (2 * k + 1 <= fuel)%nat -> sets_well fuel k.
Proof.
  induction k as [|k IH]; intros fuel Hf q i n Hq Hi; pose proof sizes as Hs;
    destruct (wf_cases _ _ Hq) as (Hcap & H32 & Hcases); (destruct fuel as [|fuel]; [lia|]).
  - destruct Hcases as [[l Hl]|[[l Hl]|(k' & l & Hk & _)]]; [| |done].
    + destruct (set_bitmap fuel 0 q l i n Hq Hl Hi) as (p' & Hrun & Hset). by exists 0, p', n.
    + destruct Hl as (Hbig & _). unfold capacity in Hcap. cbn in Hcap. lia.
  - destruct Hcases as [[l Hl]|[[l Hl]|(k' & l & [= <-] & Hl)]].
    + destruct (set_bitmap fuel (S k) q l i n Hq Hl Hi) as (p' & Hrun & Hset). by exists 0, p', n.
    + destruct fuel as [|fuel]; [lia|]. apply (set_hash_spec fuel k q l); [apply IH; lia|done..].
    + destruct (set_node fuel k q l i n (IH fuel ltac:(lia)) Hcap H32 Hl Hi) as (rc & p' & l' & n' & Hrun & _ & Hset).
      by exists rc, p', n'.
Qed.
End setting.

(** ** Clearing a bit *)

Definition clears_bit (k : nat) (p p' : bitvec) (i : Z) : Prop :=
  wf k p' /\ iSize p' = iSize p /\ forall j, 0 <= j < iSize p -> has k p' j = negb (j =? i) && has k p j.

Lemma clear_byte x b m : is_byte x -> 0 <= b < 8 -> 0 <= m < 8 ->
  Z.testbit (u8 (Z.land x (Z.lnot (Z.shiftl 1 b)))) m = if m =? b then false else Z.testbit x m.
Proof.
  intros Hx Hb Hm. unfold u8, wrap. rewrite Z.mod_pow2_bits_low by lia. rewrite Z.land_spec, Z.lnot_spec, Z.shiftl_spec by lia.
  destruct (Z.eqb_spec m b) as [->|Hne].
  - rewrite Z.sub_diag. apply andb_false_r.
  - destruct (decide (m < b)); [rewrite (Z.testbit_neg_r 1) by lia|rewrite (Z.bits_above_log2 1) by (cbn; lia)]; apply andb_true_r.
Qed.

Lemma clear_bitmap fuel k p l i : wf k p -> bitmap_ok p l -> 0 <= i < iSize p ->
  exists p', clear_index P (S fuel) p i = Some p' /\ clears_bit k p p' i.
Proof.
  intros Hwf Hok Hi. pose proof Hok as (Hsz & Hd & Hl & Hlen & Hb). pose proof sizes as Hs. cbn [clear_index].
  rewrite Hd. cbn [Z.eqb negb]. rewrite (proj2 (Z.leb_le _ _)) by done. rewrite Hl. cbn [mbind option_bind].
  change BITVEC_SZELEM with 8. rewrite (bit_lookup l i) by (done || lia). cbn [mbind option_bind].
  set (x := default 0 (l !! Z.to_nat (i / 8))). rewrite low_bits by lia.
  assert (Hx : is_byte x).
  { unfold x. rewrite Forall_lookup in Hb. eapply Hb. by apply bit_lookup; [done|lia]. }
  eexists. split; [reflexivity|].
  destruct (bitmap_update k p l (u8 (Z.land x (Z.lnot (Z.shiftl 1 (i mod 8))))) i Hwf Hok Hi (u8_bounds _)) as (Hok' & Hwf' & Hsz').
  split; [done|]. split; [done|]. intros j Hj.
  rewrite (bitmap_has k _ _ Hwf' Hok'), (bitmap_has k p l Hwf Hok) by (by rewrite ?Hsz').
  rewrite (bit_insert l i j _ false); [by destruct (j =? i)|done|lia|lia|].
  intros m Hm. by apply clear_byte; [|apply Z.mod_pos_bound; lia|].
Qed.

Lemma clear_hash fuel k p l i : wf k p -> hash_ok p l -> 0 <= i < iSize p ->
  exists p', clear_index P (S fuel) p i = Some p' /\ clears_bit k p p' i.
Proof.
  intros Hwf Hok Hi. pose proof Hok as (Hsz & Hd & Hl & Ht & Hn & Hlt & Hv). pose proof sizes as Hs.
  destruct (wf_cases _ _ Hwf) as (Hcap & H32 & _). cbn [clear_index]. rewrite Hd. cbn [Z.eqb negb].
  rewrite (proj2 (Z.leb_gt _ _)) by lia. rewrite Hl. cbn [mbind option_bind]. rewrite u32_small by (unfold is_uint; lia).
  destruct empty_table as (Ht0 & Ho0 & He0).
  destruct (rebuild_spec l (i + 1)) with (n := 0) (l := replicate (Z.to_nat N) 0) as (n' & l' & -> & Ht' & Hn' & Hle & Hw);
    [eapply Forall_impl; [exact Hv|cbn; lia]|done|done|lia|].
  cbn [mbind option_bind]. eexists. split; [done|]. set (p' := Bitvec _ _ _ _).
  assert (Hok' : hash_ok p' l').
  { split; [done|]. split; [done|]. split; [done|]. split; [done|]. split; [by cbn|]. split; [lia|].
    apply Forall_forall. intros w Hin. cbn. destruct (decide (w = 0)) as [->|Hw0]; [lia|].
    rewrite Forall_forall in Hv. apply list_elem_of_In, (holds_In l' w Ht'), Hw in Hin; [|done].
    destruct Hin as [Hin|[Hin _]]; [by apply He0 in Hin|]. by apply Hv, list_elem_of_In. }
  assert (Hwf' : wf k p') by (apply wf_intro; [done|done|]; right; by eexists).
  split; [done|]. split; [done|]. intros j Hj. apply eq_true_iff_eq.
  rewrite (hash_has k p' l' j Hwf' Hok' Hj), andb_true_iff, negb_true_iff, Z.eqb_neq, (hash_has k p l j Hwf Hok Hj).
  rewrite Hw, (holds_In l _ Ht) by lia. split.
  - intros [Hin|[Hin Hne]]; [by apply He0 in Hin; [|lia]|]. split; [lia|done].
  - intros [Hne Hin]. right. split; [done|lia].
Qed.

Lemma clear_well k : forall fuel p i, (k < fuel)%nat -> wf k p -> 0 <= i < iSize p ->
  exists p', clear_index P fuel p i = Some p' /\ clears_bit k p p' i.
Proof.
  induction k as [|k IH]; intros [|fuel] p i Hf Hwf Hi; try lia;
    destruct (wf_cases _ _ Hwf) as (Hcap & H32 & [[l Hl]|[[l Hl]|(k' & l & Hk & Hl)]]);
    try (by apply (clear_bitmap fuel _ p l)); try (by apply (clear_hash fuel _ p l)); [done|].
  injection Hk as <-. pose proof Hl as (Hsz & Hd & Hsubs & Hlen & Hall).
  destruct (divisor_bounds k p l Hcap H32 Hl) as [Hdb _]. cbn [clear_index].
  rewrite (proj2 (Z.eqb_neq _ _)) by lia. cbn [negb]. rewrite Hsubs. cbn [mbind option_bind].
  destruct (has_node k p l i Hl Hi) as (sub & Hsub & Hm & _). rewrite Hsub. cbn [mbind option_bind].
  destruct sub as [q|].
  - destruct (Hall _ _ Hsub) as [Hq Hqs]. destruct (IH fuel q (i mod iDivisor p)) as (q' & Hrun & Hq' & Hqs' & Hhas); [lia|done|lia|].
    rewrite Hrun. cbn [mbind option_bind].
    destruct (node_replace k p l i q' Hcap H32 Hl Hi Hq' ltac:(by rewrite Hqs', Hqs) ltac:(by rewrite Hsub))
      as (p' & l' & Hset & _ & Hwf' & Hsz' & Hp'). exists p'. split; [done|]. split; [done|]. split; [done|].
    intros j Hj. rewrite (Hp' j Hj), (same_index i j (iDivisor p)) by lia.
    destruct (Z.eqb_spec (j / iDivisor p) (i / iDivisor p)) as [Heq|Hne]; [|done]. cbn [andb].
    rewrite (node_has k p l j Hl Hj), Heq, Hsub. apply Hhas. pose proof (Z.mod_pos_bound j (iDivisor p) ltac:(lia)). lia.
  - exists p. split; [done|]. split; [done|]. split; [done|]. intros j Hj. destruct (Z.eqb_spec j i) as [->|]; [|done].
    cbn [negb andb]. by rewrite (node_has k p l i Hl Hi), Hsub.
Qed.
End specs.

(** ** The abstract set *)

(** Levels that are enough for 32 bits, and with them the fuel of the loops. *)
Definition levels : nat := 4.
Definition test_fuel : nat := S levels.
Definition set_fuel : nat := S (2 * levels).

(** A [Bitvec] stands for a set of integers from 1 to its size: it is well-formed and tests, of any
    32-bit integer, are those of the set. *)
Definition represents (P : Z) (p : bitvec) (s : gset Z) : Prop :=
  wf P levels p /\ (forall i, i ∈ s -> 1 <= i <= iSize p) /\
  forall i, is_uint 32 i -> sqlite3BitvecTest P test_fuel (Some p) i = Some (bool_decide (i ∈ s)).

Section sets.
Context (P : Z) (HP : P = 4 \/ P = 8).

Lemma capacity_levels : 2 ^ 32 <= capacity P levels.
Proof. destruct HP as [-> | ->]; vm_compute; discriminate. Qed.

Lemma test_spec p i : wf P levels p -> is_uint 32 i ->
  sqlite3BitvecTest P test_fuel (Some p) i = Some (bool_decide (1 <= i <= iSize p) && has P levels p (i - 1)).
Proof.
  unfold is_uint. intros Hwf Hi. pose proof (wf_cases P HP levels p Hwf) as (Hcap & H32 & _).
  pose proof (sizes P HP) as Hs. cbn [sqlite3BitvecTest]. unfold sqlite3BitvecTestNotNull.
  destruct (decide (i = 0)) as [->|Hne].
  { change (u32 (0 - 1)) with (2 ^ 32 - 1). rewrite (proj2 (Z.leb_le _ _)) by lia. by rewrite bool_decide_false by lia. }
  rewrite u32_small by (unfold is_uint; lia). destruct (Z.leb_spec (iSize p) (i - 1)).
  - by rewrite bool_decide_false by lia.
  - rewrite bool_decide_true by lia. cbn [andb]. apply test_has; [done|done|lia].
Qed.

Lemma represents_intro p (s : gset Z) : wf P levels p -> (forall i, i ∈ s -> 1 <= i <= iSize p) ->
  (forall j, 0 <= j < iSize p -> has P levels p j = bool_decide (j + 1 ∈ s)) -> represents P p s.
Proof.
  intros Hwf Hs Hhas. split; [done|]. split; [done|]. intros i Hi. rewrite test_spec by done. f_equal.
  destruct (decide (1 <= i <= iSize p)) as [Hr|Hr].
  - rewrite bool_decide_true by done. cbn [andb]. rewrite Hhas by lia. by replace (i - 1 + 1) with i by lia.
  - rewrite bool_decide_false by done. cbn [andb]. rewrite bool_decide_false; [done|]. intros Hin. by apply Hr, Hs.
Qed.

Lemma represents_has p s j : represents P p s -> 0 <= j < iSize p -> has P levels p j = bool_decide (j + 1 ∈ s).
Proof.
  intros (Hwf & Hs & Ht) Hj. pose proof (wf_cases P HP levels p Hwf) as (_ & H32 & _). pose proof (sizes P HP) as Hsz.
  specialize (Ht (j + 1) ltac:(unfold is_uint; lia)). rewrite test_spec in Ht by (done || unfold is_uint; lia).
  rewrite bool_decide_true in Ht by lia. cbn [andb] in Ht. replace (j + 1 - 1) with j in Ht by lia. by injection Ht.
Qed.

Lemma size_fits size : 0 < size < 2 ^ 32 -> (P = 4 -> size <= 2 ^ 32 - BITVEC_NPTR P) -> size <= max_size P.
Proof.
  intros Hs H4. destruct HP as [-> | ->].
  - specialize (H4 eq_refl). unfold max_size. change (2 ^ (8 * 4)) with (2 ^ 32). lia.
  - change (max_size 8) with (2 ^ 32 - 1). lia.
Qed.

(** C23: sets of page numbers. A [Bitvec] of any 32-bit size (where a pointer has only 4 bytes, up to
    2^32 less the number of pointers it holds) is a set of integers: empty when created; setting an integer of its range adds it, unless an
    allocation fails, when it may lose integers but gains none; clearing one removes it; and tests
    answer for every 32-bit integer.  All of this whatever the mixture of bitmaps, tables and
    smaller sets, and without ever reading or writing outside an array. *)
Theorem bitvec_refines_set malloc n :
  (forall size, 0 < size < 2 ^ 32 -> (P = 4 -> size <= 2 ^ 32 - BITVEC_NPTR P) -> malloc n = true ->
     exists p, sqlite3BitvecCreate malloc size n = Some (Some p, S n) /\ sqlite3BitvecSize p = size /\ represents P p ∅) /\
  (forall p s i, represents P p s -> 1 <= i <= iSize p ->
     (exists rc p' n', sqlite3BitvecSet P malloc set_fuel (Some p) i n = Some ((rc, Some p'), n') /\ iSize p' = iSize p /\
        (rc = SQLITE_OK -> represents P p' ({[i]} ∪ s)) /\
        (rc <> SQLITE_OK -> (exists m, (n <= m < n')%nat /\ malloc m = false) /\ exists s', s' ⊆ {[i]} ∪ s /\ represents P p' s')) /\
     (exists p', sqlite3BitvecClear P test_fuel (Some p) i = Some (Some p') /\ iSize p' = iSize p /\
        represents P p' (s ∖ {[i]}))).
Proof.
  pose proof (sizes P HP) as Hsz. split.
  - intros size Hsize H4 Hm. pose proof (size_fits size Hsize H4) as Hfit. unfold sqlite3BitvecCreate, mbind, M_bind, allocates. rewrite Hm. cbn [mret M_ret].
    eexists. split; [reflexivity|]. split; [done|].
    pose proof capacity_levels.
    apply represents_intro; [apply wf_new; [done|lia|lia]|set_solver|]. intros j Hj. cbn [iSize] in Hj. rewrite has_new; [|done|lia|lia|done].
    by rewrite bool_decide_false by set_solver.
  - intros p s i Hp Hi. pose proof Hp as (Hwf & Hs & _). pose proof (wf_cases P HP levels p Hwf) as (_ & H32 & _).
    assert (Hunion : forall x, x ∈ {[i]} ∪ s -> 1 <= x <= iSize p).
    { intros x [->%elem_of_singleton|Hx]%elem_of_union; [done|by apply Hs]. }
    split.
    + cbn [sqlite3BitvecSet]. rewrite u32_small by (unfold is_uint; lia).
      destruct (set_well P HP malloc levels set_fuel ltac:(done) p (i - 1) n Hwf ltac:(lia)) as (rc & p' & n' & Hrun & Hset).
      unfold mbind, M_bind. rewrite Hrun. exists rc, p', n'. split; [done|].
      destruct Hset as (Hwf' & Hsz' & Hn & Hf & Hhas). split; [done|]. split.
      * intros Hrc. apply represents_intro; [done|by rewrite Hsz'|]. intros j Hj. rewrite Hsz' in Hj.
        rewrite (proj1 (Hhas j Hj) Hrc), (represents_has p s j Hp Hj). apply eq_true_iff_eq.
        rewrite orb_true_iff, Z.eqb_eq, !bool_decide_eq_true, elem_of_union, elem_of_singleton. split; (intros [?|?]; [left; lia|by right]).
      * intros Hrc. split; [by apply Hf|].
        exists (filter (fun x => has P levels p' (x - 1) = true) ({[i]} ∪ s)). split; [by intros x [_ Hx]%elem_of_filter|].
        apply represents_intro; [done|rewrite Hsz'; intros x [_ Hx]%elem_of_filter; by apply Hunion|].
        intros j Hj. rewrite Hsz' in Hj. apply eq_true_iff_eq. rewrite bool_decide_eq_true, elem_of_filter.
        replace (j + 1 - 1) with j by lia. split; [|tauto]. intros Hj'. split; [done|].
        pose proof (proj2 (Hhas j Hj) Hj') as Hor. rewrite (represents_has p s j Hp Hj), orb_true_iff, Z.eqb_eq, bool_decide_eq_true in Hor.
        rewrite elem_of_union, elem_of_singleton. destruct Hor; [left; lia|by right].
    + cbn [sqlite3BitvecClear]. rewrite u32_small by (unfold is_uint; lia).
      destruct (clear_well P HP levels test_fuel p (i - 1)) as (p' & -> & Hwf' & Hsz' & Hhas); [unfold test_fuel; lia|done|lia|].
      cbn [mbind option_bind]. exists p'. split; [done|]. split; [done|].
      apply represents_intro; [done|rewrite Hsz'; intros x [Hx _]%elem_of_difference; by apply Hs|]. intros j Hj. rewrite Hsz' in Hj.
      rewrite (Hhas j Hj), (represents_has p s j Hp Hj). apply eq_true_iff_eq.
      rewrite andb_true_iff, negb_true_iff, Z.eqb_neq, !bool_decide_eq_true, elem_of_difference, elem_of_singleton.
      split; (intros [? ?]; split; [first [done|lia]|first [done|lia]]).
Qed.
End sets.

(** ** Sizes close to 2^32, where a pointer has 4 bytes *)

Section large.
Context (P : Z) (HP4 : P = 4) (malloc : nat -> bool) (size : Z).
Let HP : P = 4 \/ P = 8 := or_introl HP4.
Hypothesis always : forall n, malloc n = true.
Hypothesis large : 2 ^ 32 - BITVEC_NPTR P < size < 2 ^ 32.

(** The number of integers of each smaller set wraps around to 0. *)
Lemma large_divisor : u32 (size_t P (size + BITVEC_NPTR P - 1) / BITVEC_NPTR P) = 0.
Proof.
  pose proof (sizes P HP) as Hs. unfold size_t, wrap. replace (2 ^ (8 * P)) with (2 ^ 32) by (by rewrite HP4).
  rewrite <- (Z.mod_unique_pos (size + BITVEC_NPTR P - 1) (2 ^ 32) 1 (size + BITVEC_NPTR P - 1 - 2 ^ 32)) by lia.
  by rewrite Z.div_small by lia.
Qed.

(** A table with one value, in its first cell. *)
Definition single (v : Z) : list Z := <[0%nat := v]> (replicate (Z.to_nat (BITVEC_NINT P)) 0).

Lemma single_cons v : exists rest, single v = v :: 0 :: rest.
Proof. pose proof (sizes P HP) as Hs. unfold single. destruct (Z.to_nat (BITVEC_NINT P)) as [|[|n]] eqn:E; [lia|lia|by eexists]. Qed.

(** A table that has to be subdivided is replaced by an empty one. *)
Lemma large_step fuel m x l h i n : BITVEC_NBIT P < size -> 0 <= i < size -> BITVEC_MXHASH P <= m ->
  hash P (Bitvec size m 0 x) = Some l -> l !! Z.to_nat (BITVEC_HASH P i) = Some h ->
  (if h =? 0 then BITVEC_NINT P - 1 <= m else exists c, find_cell P (Z.to_nat (BITVEC_NINT P)) l (BITVEC_HASH P i) (i + 1) = Some (c, false)) ->
  set_index P malloc (S fuel) (Bitvec size m 0 x) i n =
    match set_index P malloc fuel (Bitvec size m 0 Zeroed) i (S n) with
    | Some ((rc, p), n) => set_values (set_index P malloc fuel) l rc p n
    | None => None
    end.
Proof.
  intros Hbig Hi Hm Hl Hx Hc. cbn [set_index iSize iDivisor nSet]. cbn [Z.eqb negb]. rewrite andb_false_r.
  rewrite (proj2 (Z.leb_gt _ _)) by lia. rewrite (u32_small (i + 1)) by (unfold is_uint; lia).
  replace (i + 1 - 1) with i by lia. rewrite (u32_small i) by (unfold is_uint; lia).
  unfold mbind, M_bind, lift. rewrite Hl, Hx, large_divisor. rewrite (proj2 (Z.leb_le _ _) Hm).
  destruct (h =? 0); cbn [andb].
  - rewrite (proj2 (Z.ltb_ge _ _)) by lia. unfold allocates. rewrite always.
    by destruct (set_index P malloc fuel _ i (S n)) as [[[rc p] n']|].
  - destruct Hc as [c ->]. unfold allocates. rewrite always. by destruct (set_index P malloc fuel _ i (S n)) as [[[rc p] n']|].
Qed.

Lemma large_full fuel : forall m i n, BITVEC_NBIT P < size -> 0 <= i < size -> BITVEC_NINT P - 1 <= m ->
  set_index P malloc fuel (Bitvec size m 0 Zeroed) i n = None.
Proof.
  pose proof (sizes P HP) as Hs. induction fuel as [|fuel IH]; intros m i n Hbig Hi Hm; [done|].
  pose proof (start_bounds P HP (i + 1)) as Hh. unfold start in Hh. replace (i + 1 - 1) with i in Hh by lia.
  rewrite (large_step fuel m Zeroed (replicate (Z.to_nat (BITVEC_NINT P)) 0) 0 i n); try done; try lia.
  - by rewrite IH.
  - by rewrite lookup_replicate_2 by lia.
Qed.

(** A value entered in the empty table. *)
Lemma large_enter fuel m w n : BITVEC_NBIT P < size -> 1 <= w <= size -> BITVEC_HASH P (w - 1) = 0 -> m < BITVEC_NINT P - 1 ->
  set_index P malloc (S fuel) (Bitvec size m 0 Zeroed) (w - 1) n = Some ((SQLITE_OK, Bitvec size (m + 1) 0 (aHash (single w))), n).
Proof.
  pose proof (sizes P HP) as Hs. intros Hbig Hw H0 Hm.
  cbn [set_index iSize iDivisor nSet]. cbn [Z.eqb negb]. rewrite andb_false_r. rewrite (proj2 (Z.leb_gt _ _)) by lia.
  rewrite H0. replace (w - 1 + 1) with w by lia. rewrite (u32_small w) by (unfold is_uint; lia).
  unfold mbind, M_bind, lift. cbn [hash u]. rewrite lookup_replicate_2 by lia. rewrite (proj2 (Z.ltb_lt _ _)) by lia.
  cbn [andb Z.eqb]. unfold set_end, set_hash. cbn [hash u mbind option_bind iSize nSet iDivisor].
  rewrite length_replicate, (proj2 (Nat.ltb_lt _ _)) by lia. done.
Qed.

(** The second of two values with the same start. *)
Lemma large_loop fuel : forall m v w n, BITVEC_NBIT P < size -> 1 <= v <= size -> 1 <= w <= size -> v <> w ->
  start P v = 0 -> start P w = 0 -> BITVEC_MXHASH P <= m ->
  set_index P malloc fuel (Bitvec size m 0 (aHash (single v))) (w - 1) n = None.
Proof.
  pose proof (sizes P HP) as Hs. induction fuel as [|fuel IH]; intros m v w n Hbig Hv Hw Hne H0v H0w Hm; [done|].
  unfold start in H0v, H0w. destruct (single_cons v) as [rest Hrest].
  rewrite (large_step fuel m (aHash (single v)) (single v) v (w - 1) n); try done; try lia.
  - destruct (decide (BITVEC_NINT P - 1 <= m)) as [Hfull|Hroom]; [by rewrite large_full by lia|].
    destruct fuel as [|fuel]; [done|].
    rewrite large_enter by (done || lia). rewrite Hrest. cbn [set_values]. rewrite (proj2 (Z.eqb_neq v 0)) by lia. cbn [negb].
    rewrite (u32_small (v - 1)) by (unfold is_uint; lia). unfold mbind, M_bind. by rewrite (IH (m + 1) w v) by (done || lia).
  - by rewrite H0w, Hrest.
  - rewrite (proj2 (Z.eqb_neq v 0)) by lia. exists 1. rewrite H0w, Hrest.
    destruct (Z.to_nat (BITVEC_NINT P)) as [|k] eqn:E; [lia|]. cbn [find_cell].
    rewrite (proj2 (Z.leb_gt (BITVEC_NINT P) (0 + 1))) by lia. change ((v :: 0 :: rest) !! Z.to_nat 0) with (Some v).
    change ((v :: 0 :: rest) !! Z.to_nat (0 + 1)) with (Some 0). cbn [mbind option_bind].
    by rewrite (proj2 (Z.eqb_neq v (w - 1 + 1))) by lia.
Qed.

(** Theorem (finding): where a pointer has 4 bytes, a [Bitvec] larger than 2^32 less the number of its
    pointers cannot subdivide its table, because the size of the parts is computed as 0: setting an integer that collides with
    the first of 62 or more others calls itself without end. *)
Theorem bitvec_large_diverges p l v rest w : iSize p = size -> hash_ok P p l -> BITVEC_MXHASH P <= nSet p ->
  l = v :: rest -> 1 <= v -> 1 <= w <= size -> v <> w -> ~ holds P l w -> start P v = 0 -> start P w = 0 ->
  forall fuel n, sqlite3BitvecSet P malloc fuel (Some p) w n = None.
Proof.
  intros Hsz Hok Hm Hl Hv Hw Hne Hnot H0v H0w fuel n. pose proof (sizes P HP) as Hs.
  pose proof Hok as (Hbig & Hd & Hhash & Ht & Hocc & Hroom & Hvals). destruct p as [size' m d x]. cbn in Hsz, Hd, Hm, Hbig, Hvals. subst size' d.
  cbn [sqlite3BitvecSet]. rewrite u32_small by (unfold is_uint; lia). unfold mbind, M_bind.
  assert (Hv' : 1 <= v <= size) by (rewrite Hl, Forall_cons in Hvals; lia).
  destruct fuel as [|fuel]; [done|].
  destruct (first_free P l (start P w)) as (e & He & H0 & Hfull);
    [done|by apply occupied_room; [apply Ht|]|by apply start_bounds|].
  assert (Hat0 : at_ P (start P w) 0 = 0) by (rewrite at_0; [done|by apply start_bounds]).
  assert (He0 : (0 < e)%nat).
  { destruct e; [|lia]. rewrite Hat0, Hl in H0. change (v = 0) in H0. lia. }
  destruct (find_loop P HP l (start P w) w e Ht H0 Hfull (Z.to_nat (BITVEC_NINT P)) 0 He0 ltac:(lia)) as (c & b & Hfind & Hb & _).
  assert (b = false) as ->.
  { destruct b; [|done]. exfalso. apply Hnot, (holds_before P HP l w e Ht); [lia|done|done|].
    destruct (proj1 Hb eq_refl) as (d & Hd' & Hc). exists d. split; [lia|done]. }
  rewrite Hat0 in Hfind. unfold start in H0w, H0v. rewrite (large_step fuel m x l v (w - 1) n Hbig ltac:(lia) Hm Hhash).
  - destruct (decide (BITVEC_NINT P - 1 <= m)) as [Hf|Hr]; [by rewrite large_full by lia|].
    destruct fuel as [|fuel]; [done|]. rewrite large_enter by (done || lia). rewrite Hl. cbn [set_values].
    rewrite (proj2 (Z.eqb_neq v 0)) by lia. cbn [negb]. rewrite (u32_small (v - 1)) by (unfold is_uint; lia).
    unfold mbind, M_bind. by rewrite (large_loop (S fuel) (m + 1) w v) by (done || lia).
  - by rewrite H0w, Hl.
  - rewrite (proj2 (Z.eqb_neq v 0)) by lia. exists c. rewrite H0w. by replace (w - 1 + 1) with w by lia.
Qed.
End large.

(** ** Examples *)

Lemma bitvec_refines_set_witness : exists p p' n', sqlite3BitvecCreate (fun _ => true) 5000 0%nat = Some (Some p, 1%nat) /\
  sqlite3BitvecSet 8 (fun _ => true) set_fuel (Some p) 4321 1%nat = Some ((SQLITE_OK, Some p'), n') /\
  represents 8 p' {[4321]}.
Proof.
  destruct (bitvec_refines_set 8 (or_intror eq_refl) (fun _ => true) 0%nat) as [Hcreate _].
  destruct (Hcreate 5000) as (p & Hp & Hsize & Hrep); [lia|done|done|].
  destruct (bitvec_refines_set 8 (or_intror eq_refl) (fun _ => true) 1%nat) as [_ Hops].
  destruct (Hops p ∅ 4321 Hrep) as [(rc & p' & n' & Hset & _ & Hok & Hfail) _]; [unfold sqlite3BitvecSize in Hsize; lia|].
  destruct (decide (rc = SQLITE_OK)) as [->|Hne]; [|by destruct (Hfail Hne) as [(m & _ & Hm) _]].
  exists p, p', n'. split; [exact Hp|]. split; [exact Hset|]. specialize (Hok eq_refl). by rewrite union_empty_r_L in Hok.
Defined.

(** The integers 1 to 62 in a set of the largest size, and then 126, with 4-byte pointers. *)
Definition large_values : list Z := Z.of_nat <$> seq 1 62.
Definition large_table : list Z := large_values ++ replicate 63 0.
Definition large_set : bitvec := Bitvec (2 ^ 32 - 1) 62 0 (aHash large_table).

Lemma large_table_ok : hash_ok 4 large_set large_table /\ ~ holds 4 large_table 126.
Proof.
  assert (Hcells : forallb (fun k => (cell large_table (Z.of_nat k) =? 0) ||
    (start 4 (cell large_table (Z.of_nat k)) =? Z.of_nat k) && negb (cell large_table (Z.of_nat k) =? 126)) (seq 0 125) = true)
    by (vm_compute; reflexivity).
  rewrite forallb_forall in Hcells.
  assert (Hcell : forall k, 0 <= k < BITVEC_NINT 4 -> cell large_table k = 0 \/
    start 4 (cell large_table k) = k /\ cell large_table k <> 126).
  { change (BITVEC_NINT 4) with 125. intros k Hk. specialize (Hcells (Z.to_nat k)). rewrite Z2Nat.id in Hcells by lia.
    rewrite in_seq in Hcells. specialize (Hcells ltac:(lia)).
    rewrite orb_true_iff, andb_true_iff, negb_true_iff, !Z.eqb_eq, Z.eqb_neq in Hcells. done. }
  split.
  - split; [by vm_compute|]. split; [done|]. split; [done|]. split; [|split; [by vm_compute|split; [by vm_compute|]]].
    + split; [by vm_compute|]. intros k Hk Hc d Hd. destruct (Hcell k Hk) as [|[Hs _]]; [done|].
      rewrite Hs, Z.sub_diag in Hd. rewrite Z.mod_0_l in Hd by (vm_compute; discriminate). cbn in Hd. lia.
    + apply Forall_app. split; [|apply Forall_replicate; cbn; lia].
      apply Forall_forall. intros v Hv. apply list_elem_of_fmap in Hv as (n & -> & Hn%elem_of_seq). cbn. lia.
  - intros (k & Hk & Hc). destruct (Hcell k Hk) as [H0|[_ Hne]]; [congruence|done].
Qed.

Lemma bitvec_large_diverges_witness : exists n,
  set_values (set_index 4 (fun _ => true) set_fuel) large_values 0 (Bitvec (2 ^ 32 - 1) 0 0 Zeroed) 1%nat
    = Some ((SQLITE_OK, large_set), n) /\
  forall fuel, sqlite3BitvecSet 4 (fun _ => true) fuel (Some large_set) 126 n = None.
Proof.
  exists 1%nat. split; [vm_compute; reflexivity|]. destruct large_table_ok as [Hok Hnot]. intros fuel.
  apply (bitvec_large_diverges 4 eq_refl (fun _ => true) (2 ^ 32 - 1) (fun _ => eq_refl)
    ltac:(vm_compute; split; reflexivity) large_set large_table 1 (tail large_table) 126); try done; vm_compute; done.
Defined.
