(* ===== verification/RowEntries.v ===== *)
(** * RowEntries: the lists and trees of SQLite's sets of row numbers

    sqlite3.c, rowset.c part: merging, sorting and the conversions between lists and trees, which
    work in place on entries linked by pointers. *)

From S2P Require Export State.
From Stdlib Require Export Sorted.

(** ** Entries *)

(** An entry is in a chunk, at an index.  The fields of an entry that were never written are
    [None]; a null pointer is [Some None]. *)
Definition loc : Type := nat * nat.
Definition ptr : Type := option loc.
Record RowSetEntry := Entry { v : option Z; pRight : option ptr; pLeft : option ptr }.
Notation heap := (gmap loc RowSetEntry).

Notation get field x := (get_field (K := loc) (E := RowSetEntry) field x).
Notation put f x := (put_field (K := loc) (E := RowSetEntry) f x).
Definition set_v (a : Z) (e : RowSetEntry) : RowSetEntry := Entry (Some a) (pRight e) (pLeft e).
Definition set_right (q : ptr) (e : RowSetEntry) : RowSetEntry := Entry (v e) (Some q) (pLeft e).
Definition set_left (q : ptr) (e : RowSetEntry) : RowSetEntry := Entry (v e) (pRight e) (Some q).

(** More steps than there are entries. *)
Definition bound : St heap nat := h ← look; mret (S (size h)).

(** More steps than a balanced tree of the entries has levels. *)
Definition levels : St heap nat := h ← look; mret (S (S (Nat.log2 (size h)))).

(** A variable that is assigned through a pointer: a local one or the [pRight] of an entry.  The
    result of an assignment is the value of the local variable. *)
Inductive place := Local | Right (x : loc).
Definition assign (to : place) (q : ptr) (local : ptr) : St heap ptr :=
  match to with Local => mret q | Right x => _ ← put (set_right q) x; mret local end.

(** ** Merging and sorting *)

Definition assert_sorted (p : loc) : St heap unit :=
  q ← get pRight p;
  match q with
  | None => mret ()
  | Some q => a ← get v p; b ← get v q; assert_ok (a <=? b)
  end.

(** [head] is [head.pRight]; [pTail] is the place it is assigned through. *)
Fixpoint merge_loop (fuel : nat) (head : ptr) (pTail : place) (pA pB : loc) : St heap ptr :=
  match fuel with
  | O => stuck
  | S fuel =>
    _ ← assert_sorted pA;
    _ ← assert_sorted pB;
    a ← get v pA;
    b ← get v pB;
    match a <=? b with
    | true =>
      '(head, pTail) ← (match a <? b with
        | true => head ← assign pTail (Some pA) head; mret (head, Right pA)
        | false => mret (head, pTail)
        end);
      next ← get pRight pA;
      match next with
      | None => assign pTail (Some pB) head
      | Some pA => merge_loop fuel head pTail pA pB
      end
    | false =>
      head ← assign pTail (Some pB) head;
      next ← get pRight pB;
      match next with
      | None => assign (Right pB) (Some pA) head
      | Some pB' => merge_loop fuel head (Right pB) pA pB'
      end
    end
  end.

Definition rowSetEntryMerge (pA pB : loc) : St heap ptr :=
  fuel ← bound; merge_loop (fuel + fuel) None Local pA pB.

(** The loop over the buckets that are in use, to the first free one. *)
Fixpoint place_in (aBucket : list ptr) (pIn : ptr) : St heap (list ptr) :=
  match aBucket with
  | [] => stuck
  | None :: aBucket => mret (pIn :: aBucket)
  | Some b :: aBucket =>
    pIn ← the pIn;
    pIn ← rowSetEntryMerge b pIn;
    aBucket ← place_in aBucket pIn;
    mret (None :: aBucket)
  end.

Fixpoint fill_buckets (fuel : nat) (aBucket : list ptr) (pIn : ptr) : St heap (list ptr) :=
  match fuel with
  | O => stuck
  | S fuel =>
    match pIn with
    | None => mret aBucket
    | Some x =>
      pNext ← get pRight x;
      _ ← put (set_right None) x;
      aBucket ← place_in aBucket (Some x);
      fill_buckets fuel aBucket pNext
    end
  end.

Fixpoint merge_buckets (pIn : ptr) (aBucket : list ptr) : St heap ptr :=
  match aBucket with
  | [] => mret pIn
  | None :: aBucket => merge_buckets pIn aBucket
  | Some b :: aBucket =>
    pIn ← (match pIn with Some p => rowSetEntryMerge p b | None => mret (Some b) end);
    merge_buckets pIn aBucket
  end.

Definition rowSetEntrySort (pIn : ptr) : St heap ptr :=
  fuel ← bound;
  aBucket ← fill_buckets fuel (replicate 40 None) pIn;
  match aBucket with
  | [] => stuck
  | b :: aBucket => merge_buckets b aBucket
  end.

(** ** Trees *)

(** The first and the last entry of the list. *)
Fixpoint tree_to_list (fuel : nat) (pIn : loc) : St heap (loc * loc) :=
  match fuel with
  | O => stuck
  | S fuel =>
    l ← get pLeft pIn;
    ppFirst ← (match l with
      | Some l =>
        '(ppFirst, p) ← tree_to_list fuel l;
        _ ← put (set_right (Some pIn)) p;
        mret ppFirst
      | None => mret pIn
      end);
    r ← get pRight pIn;
    ppLast ← (match r with
      | Some r =>
        '(first, ppLast) ← tree_to_list fuel r;
        _ ← put (set_right (Some first)) pIn;
        mret ppLast
      | None => mret pIn
      end);
    q ← get pRight ppLast;
    _ ← assert_ok (bool_decide (q = None));
    mret (ppFirst, ppLast)
  end.
Definition rowSetTreeToList (pIn : loc) : St heap (loc * loc) := fuel ← levels; tree_to_list fuel pIn.

(** The root of the tree, and the entries that are left in the list. *)
Fixpoint rowSetNDeepTree (ppList : ptr) (iDepth : nat) : St heap (ptr * ptr) :=
  match ppList with
  | None => mret (None, None)
  | Some x =>
    match iDepth with
    | S (S _ as deeper) =>
      '(l, ppList) ← rowSetNDeepTree ppList deeper;
      match ppList with
      | None => mret (l, None)
      | Some p =>
        _ ← put (set_left l) p;
        rest ← get pRight p;
        '(r, rest) ← rowSetNDeepTree rest deeper;
        _ ← put (set_right r) p;
        mret (Some p, rest)
      end
    | _ =>
      rest ← get pRight x;
      _ ← put (set_right None) x;
      _ ← put (set_left None) x;
      mret (Some x, rest)
    end
  end.

Fixpoint tree_loop (fuel : nat) (iDepth : nat) (p : loc) (pList : ptr) : St heap loc :=
  match fuel with
  | O => stuck
  | S fuel =>
    match pList with
    | None => mret p
    | Some root =>
      rest ← get pRight root;
      _ ← put (set_left (Some p)) root;
      '(r, rest) ← rowSetNDeepTree rest iDepth;
      _ ← put (set_right r) root;
      tree_loop fuel (S iDepth) root rest
    end
  end.

Definition rowSetListToTree (p : loc) : St heap loc :=
  fuel ← bound;
  pList ← get pRight p;
  _ ← put (set_right None) p;
  _ ← put (set_left None) p;
  tree_loop fuel 1 p pList.

(** ** Lists and trees in memory *)


Notation node := (loc * Z)%type.
Implicit Types (h : heap) (x y : loc) (p q r local : ptr) (pl : place) (a b : Z) (e : RowSetEntry) (ls ks : list loc) (L M : list node).
Definition locs (L : list node) : list loc := L.*1.
Definition values (L : list node) : list Z := L.*2.

(** The entries of [L] linked from [p] to [q]. *)
Fixpoint lseg (h : heap) (p : ptr) (L : list node) (q : ptr) : Prop :=
  match L with
  | [] => p = q
  | (x, a) :: L => p = Some x /\ exists next lft, h !! x = Some (Entry (Some a) (Some next) lft) /\ lseg h next L q
  end.
Notation lst h p L := (lseg h p L None).

Inductive tree := Leaf | Node (l : tree) (n : node) (r : tree).
Fixpoint flat (t : tree) : list node := match t with Leaf => [] | Node l n r => flat l ++ n :: flat r end.
Fixpoint shape (h : heap) (p : ptr) (t : tree) : Prop :=
  match t with
  | Leaf => p = None
  | Node l (x, a) r => p = Some x /\ exists (pl pr : ptr), h !! x = Some (Entry (Some a) (Some pr) (Some pl)) /\ shape h pl l /\ shape h pr r
  end.

Definition apart (ls ks : list loc) : Prop := forall x, x ∈ ls -> x ∉ ks.

Lemma lseg_changes ks h h' L : forall p q, changes ks h h' -> apart (locs L) ks -> lseg h p L q -> lseg h' p L q.
Proof.
  induction L as [|[x a] L IH]; intros p q Hc Ha; cbn [lseg]; [done|]. intros (-> & next & lft & Hx & HL).
  split; [done|]. exists next, lft. rewrite (proj2 Hc) by (apply Ha; cbn; apply list_elem_of_here).
  split; [done|]. apply IH; [done| |done]. intros y Hy. apply Ha. cbn. by apply list_elem_of_further.
Qed.

Lemma shape_changes ks h h' t : forall p, changes ks h h' -> apart (locs (flat t)) ks -> shape h p t -> shape h' p t.
Proof.
  induction t as [|l IHl [x a] r IHr]; intros p Hc Ha; cbn [shape]; [done|]. intros (-> & pl & pr & Hx & Hl & Hr).
  cbn [flat] in Ha. unfold locs in Ha. rewrite fmap_app, fmap_cons in Ha.
  split; [done|]. exists pl, pr. rewrite (proj2 Hc) by (apply Ha, elem_of_app; right; apply list_elem_of_here).
  split; [done|]. split; [apply IHl|apply IHr]; try done; intros y Hy; apply Ha, elem_of_app; [by left|].
  right. by apply list_elem_of_further.
Qed.

Lemma lseg_app h L : forall p M q, lseg h p (L ++ M) q <-> exists r, lseg h p L r /\ lseg h r M q.
Proof.
  induction L as [|[x a] L IH]; intros p M q; cbn [lseg app]; [naive_solver|]. split.
  - intros (-> & next & lft & Hx & (r & HL & HM)%IH). eauto 10.
  - intros (r & (-> & next & lft & Hx & HL) & HM). split; [done|]. exists next, lft. split; [done|]. apply IH. eauto.
Qed.

Lemma lseg_dom h L : forall p q x, lseg h p L q -> x ∈ locs L -> is_Some (h !! x).
Proof.
  induction L as [|[y a] L IH]; intros p q x; cbn; [by intros _ ?%elem_of_nil|].
  intros (_ & next & lft & Hy & HL) [->|Hx]%elem_of_cons; [by eexists|by eapply IH].
Qed.

Lemma shape_dom h t : forall p x, shape h p t -> x ∈ locs (flat t) -> is_Some (h !! x).
Proof.
  induction t as [|l IHl [y a] r IHr]; intros p x; cbn [shape flat]; [by intros _ ?%elem_of_nil|].
  intros (_ & pl & pr & Hy & Hl & Hr). unfold locs. rewrite fmap_app, elem_of_app, fmap_cons, elem_of_cons. cbn.
  intros [Hx|[->|Hx]]; [by eapply IHl|by eexists|by eapply IHr].
Qed.

(** ** Steps *)

Lemma ok_bound h (Q : nat -> heap -> Prop) : Q (S (size h)) h -> ok bound h Q.
Proof. intros HQ. by apply ok_bind, ok_look, ok_ret. Qed.

(** ** Merging *)

Fixpoint merged (A : list node) : list node -> list node :=
  match A with
  | [] => fun B => B
  | a :: A' => fix go B :=
    match B with
    | [] => a :: A'
    | b :: B' => if a.2 <=? b.2 then if a.2 <? b.2 then a :: merged A' B else merged A' B else b :: go B'
    end
  end.

Notation sorted L := (StronglySorted Z.lt (values L)).

(** [L] is [M] without some duplicates. *)
Definition reduces (L M : list node) : Prop := L ⊆+ M /\ values M ⊆ values L.

Lemma reduces_refl L : reduces L L.
Proof. split; done. Qed.
Lemma reduces_trans L M N : reduces L M -> reduces M N -> reduces L N.
Proof. intros [H1 H2] [H3 H4]. split; [by etrans|]. intros a Ha. auto. Qed.
Lemma values_app L M : values (L ++ M) = values L ++ values M.
Proof. apply fmap_app. Qed.
Lemma locs_app L M : locs (L ++ M) = locs L ++ locs M.
Proof. apply fmap_app. Qed.
Lemma reduces_app L L' M M' : reduces L L' -> reduces M M' -> reduces (L ++ M) (L' ++ M').
Proof.
  intros [H1 H2] [H3 H4]. split; [by apply submseteq_app|]. rewrite !values_app.
  intros a. rewrite !elem_of_app. intros [Ha|Ha]; auto.
Qed.
Lemma values_submseteq L M a : L ⊆+ M -> a ∈ values L -> a ∈ values M.
Proof. intros H [n [-> Hn]]%list_elem_of_fmap. apply list_elem_of_fmap. exists n. split; [done|]. by eapply elem_of_submseteq. Qed.
Lemma locs_submseteq L M : L ⊆+ M -> locs L ⊆+ locs M.
Proof. apply fmap_submseteq. Qed.
Lemma reduces_perm L M M' : M ≡ₚ M' -> reduces L M -> reduces L M'.
Proof.
  intros Hp [H1 H2]. split; [by rewrite <- Hp|]. intros a Ha. apply H2.
  apply (values_submseteq M'); [by rewrite Hp|done].
Qed.
Lemma reduces_values L M a : reduces L M -> a ∈ values L <-> a ∈ values M.
Proof. intros [H1 H2]. split; [by apply values_submseteq|apply H2]. Qed.
Lemma reduces_nodup L M : reduces L M -> NoDup (locs M) -> NoDup (locs L).
Proof.
  intros [[K HK]%submseteq_Permutation _] Hnd. unfold locs in *. rewrite HK, fmap_app in Hnd. by apply NoDup_app in Hnd as [? _].
Qed.

Lemma merged_nil_r A : merged A [] = A.
Proof. by destruct A. Qed.

Lemma merged_reduces A B : reduces (merged A B) (A ++ B).
Proof.
  revert B; induction A as [|a A IHA]; intros B; [apply reduces_refl|].
  induction B as [|b B IHB]; [rewrite app_nil_r; apply reduces_refl|]. cbn [merged].
  destruct (Z.leb_spec a.2 b.2); [destruct (Z.ltb_spec a.2 b.2)|].
  - cbn [app]. apply (reduces_app [a] [a]); [apply reduces_refl|apply IHA].
  - destruct (IHA (b :: B)) as [H1 H2]. split; [cbn [app]; by apply submseteq_cons|].
    cbn [app]. intros c [->|Hc]%elem_of_cons; [|by apply H2]. apply H2. rewrite values_app. apply elem_of_app. right.
    replace a.2 with b.2 by lia. apply list_elem_of_here.
  - apply (reduces_perm _ (b :: (a :: A) ++ B)); [by rewrite Permutation_middle|].
    apply (reduces_app [b] [b]); [apply reduces_refl|exact IHB].
Qed.

Lemma sorted_cons (n : node) (L : list node) : sorted (n :: L) <-> sorted L /\ forall a, a ∈ values L -> n.2 < a.
Proof.
  cbn. split.
  - intros H. apply StronglySorted_inv in H as [H1 H2]. split; [done|]. by rewrite Forall_forall in H2.
  - intros [H1 H2]. constructor; [done|]. by rewrite Forall_forall.
Qed.

Lemma merged_sorted (A B : list node) : sorted A -> sorted B -> sorted (merged A B).
Proof.
  revert B; induction A as [|a A IHA]; intros B HA HB; [done|].
  induction B as [|b B IHB]; [done|]. cbn [merged].
  pose proof (proj1 (sorted_cons _ _) HA) as [HA' Ha]. pose proof (proj1 (sorted_cons _ _) HB) as [HB' Hb].
  destruct (Z.leb_spec a.2 b.2); [destruct (Z.ltb_spec a.2 b.2)|]; [|by apply IHA|]; apply sorted_cons.
  - split; [by apply IHA|]. intros c. rewrite (reduces_values _ _ _ (merged_reduces A (b :: B))), values_app, elem_of_app.
    intros [Hc|Hc]; [by apply Ha|]. cbn in Hc. apply elem_of_cons in Hc as [->|Hc]; [done|]. specialize (Hb _ Hc). lia.
  - split; [by apply IHB|]. intros c Hc. apply (reduces_values _ _ _ (merged_reduces (a :: A) B)) in Hc.
    rewrite values_app, elem_of_app in Hc. destruct Hc as [Hc|Hc]; [|by apply Hb].
    cbn in Hc. apply elem_of_cons in Hc as [->|Hc]; [done|]. specialize (Ha _ Hc). lia.
Qed.

(** Assigning through a place; [in_place] is the entry it changes. *)
Definition in_place (pl : place) : list loc := match pl with Local => [] | Right x => [x] end.
Definition free_place h (pl : place) (ls : list loc) : Prop :=
  match pl with Local => True | Right x => is_Some (h !! x) /\ x ∉ ls end.
Definition assigned h h' (pl : place) (local r q : ptr) : Prop :=
  match pl with Local => r = q /\ h' = h | Right x => r = local /\ exists e, h !! x = Some e /\ h' = <[x := set_right q e]> h end.

Lemma ok_assign pl q local h ls (Q : ptr -> heap -> Prop) : free_place h pl ls ->
  (forall r h', assigned h h' pl local r q -> Q r h') -> ok (assign pl q local) h Q.
Proof.
  destruct pl as [|x]; cbn [free_place assign]; intros Hf HQ; [by apply ok_ret, HQ|].
  destruct Hf as [[e Hx] _]. apply ok_bind. eapply ok_put_field; [done|]. apply ok_ret, HQ. split; [done|]. eauto.
Qed.

Lemma assigned_changes h h' pl local r q : assigned h h' pl local r q -> changes (in_place pl) h h'.
Proof. destruct pl as [|x]; [by intros [_ ->]|]. intros (_ & e & Hx & ->). by eapply changes_insert. Qed.

(** After a run, the place leads to the entries of [L]. *)
Definition linked h h' (pl : place) (local r : ptr) (L : list node) : Prop :=
  match pl with
  | Local => lst h' r L
  | Right x => r = local /\ exists e q, h !! x = Some e /\ h' !! x = Some (set_right q e) /\ lst h' q L
  end.

Lemma linked_end h h' pl local r q L ls : free_place h pl ls -> apart (locs L) (in_place pl) ->
  assigned h h' pl local r q -> lst h q L -> linked h h' pl local r L.
Proof.
  intros Hf Ha Has HL. pose proof (assigned_changes _ _ _ _ _ _ Has) as Hc.
  assert (lst h' q L) by (by eapply lseg_changes). destruct pl as [|x]; cbn in *; [by destruct Has as [-> _]|].
  destruct Has as (-> & e & Hx & ->). split; [done|]. exists e, q. by rewrite lookup_insert_eq.
Qed.

Lemma linked_cons h h1 h2 pl local r1 r x (a : Z) e L ks : assigned h h1 pl local r1 (Some x) ->
  h1 !! x = Some e -> v e = Some a -> apart (in_place pl) ks -> changes ks h1 h2 ->
  linked h1 h2 (Right x) r1 r L -> linked h h2 pl local r ((x, a) :: L).
Proof.
  intros Has Hx Ha Hap Hc (-> & e' & q & Hx' & Hx2 & HL). rewrite Hx in Hx'. injection Hx' as <-.
  assert (Hlst : lst h2 (Some x) ((x, a) :: L)).
  { split; [done|]. exists q, (pLeft e). split; [|done]. rewrite Hx2. unfold set_right. by rewrite Ha. }
  destruct pl as [|t]; cbn in Has; [destruct Has as [-> _]; exact Hlst|].
  destruct Has as (-> & et & Ht & ->). split; [done|]. exists et, (Some x). split; [done|]. split; [|exact Hlst].
  rewrite (proj2 Hc) by (apply Hap, list_elem_of_here). by rewrite lookup_insert_eq.
Qed.

Lemma ok_assert_sorted h x a (A : list node) (Q : unit -> heap -> Prop) : lst h (Some x) ((x, a) :: A) -> sorted ((x, a) :: A) -> Q () h ->
  ok (assert_sorted x) h Q.
Proof.
  intros (_ & next & lft & Hx & HA) [_ Hs]%sorted_cons HQ. unfold assert_sorted.
  apply ok_bind. eapply ok_get_field; [done|reflexivity|]. destruct A as [|[y b] A].
  - cbn in HA. by subst.
  - destruct HA as (-> & next' & lft' & Hy & _). do 2 (apply ok_bind; eapply ok_get_field; [done|reflexivity|]).
    apply ok_assert; [|done]. apply Z.leb_le. specialize (Hs b ltac:(apply list_elem_of_here)). cbn in Hs. lia.
Qed.

Lemma apart_sub ls ls' ks ks' : apart ls ks -> ls' ⊆ ls -> ks' ⊆ ks -> apart ls' ks'.
Proof. intros Ha H1 H2 x Hx Hk. by apply (Ha x); [apply H1|apply H2]. Qed.
Lemma apart_sym ls ks : apart ls ks -> apart ks ls.
Proof. intros Ha x Hx Hk. by apply (Ha x). Qed.
Lemma free_apart h pl ls : free_place h pl ls -> apart (in_place pl) ls.
Proof. destruct pl as [|x]; [by intros _ x ?%elem_of_nil|]. intros [_ Hx] y ->%list_elem_of_singleton. done. Qed.
Lemma free_sub h pl ls ls' : free_place h pl ls -> ls' ⊆ ls -> free_place h pl ls'.
Proof. destruct pl as [|x]; [done|]. intros [? Hx] Hs. split; [done|]. intros ?. by apply Hx, Hs. Qed.

(** The turn that takes the entry [x] off one of the lists: it is assigned, and what follows
    merges the rest through its [pRight]. *)
Lemma merge_take h pl (head : ptr) x a (L M N : list node) (R : ptr -> heap -> Prop) :
  lst h (Some x) ((x, a) :: L) -> locs N ≡ₚ x :: locs M -> NoDup (locs N) -> free_place h pl (locs N) ->
  (forall r1 h1, (forall y, y ∈ locs N -> h1 !! y = h !! y) -> free_place h1 (Right x) (locs M) ->
     (forall r h2 K, linked h1 h2 (Right x) r1 r K -> changes (x :: locs M) h1 h2 ->
        linked h h2 pl head r ((x, a) :: K) /\ changes (in_place pl ++ locs N) h h2) -> R r1 h1) ->
  ok (assign pl (Some x) head) h R.
Proof.
  intros (_ & next & lft & Hx & _) HN Hnd Hf HR. eapply ok_assign; [done|]. intros r1 h1 Has.
  pose proof (assigned_changes _ _ _ _ _ _ Has) as Hc1. pose proof (free_apart _ _ _ Hf) as Hap.
  assert (Hsame : forall y, y ∈ locs N -> h1 !! y = h !! y) by (intros y Hy; apply Hc1; intros ?; by apply (Hap y)).
  assert (HxN : x ∈ locs N) by (rewrite HN; apply list_elem_of_here).
  assert (Hx1 : h1 !! x = Some (Entry (Some a) (Some next) lft)) by by rewrite Hsame.
  apply HR; [done| |].
  - split; [by eexists|]. rewrite HN in Hnd. by apply NoDup_cons in Hnd as [? _].
  - intros r h2 K Hl Hc2. split.
    + eapply (linked_cons _ _ _ _ _ _ _ _ _ _ _ (x :: locs M)); try done. intros y Hy. rewrite <- HN. by apply Hap.
    + apply changes_trans with h1; (eapply changes_mono; [|done]); intros y Hy; apply elem_of_app; [by left|right].
      by rewrite HN.
Qed.

Lemma lseg_same h h' L : forall p q, (forall x, x ∈ locs L -> h' !! x = h !! x) -> lseg h p L q -> lseg h' p L q.
Proof.
  induction L as [|[x a] L IH]; intros p q Hs; cbn [lseg]; [done|]. intros (-> & next & lft & Hx & HL).
  split; [done|]. exists next, lft. rewrite Hs by apply list_elem_of_here. split; [done|].
  apply IH; [|done]. intros y Hy. apply Hs. by apply list_elem_of_further.
Qed.

Lemma lst_null h L : lst h None L -> L = [].
Proof. destruct L as [|[x a] L]; [done|by intros [? _]]. Qed.

(** What the loop does on the lists [A] and [B]. *)
Definition merges (run : St heap ptr) h (pl : place) (head : ptr) (A B : list node) : Prop :=
  ok run h (fun r h' => linked h h' pl head r (merged A B) /\ changes (in_place pl ++ locs (A ++ B)) h h').
Definition mergeable h pl (p q : ptr) (A B : list node) : Prop :=
  lst h p A /\ lst h q B /\ sorted A /\ sorted B /\ NoDup (locs (A ++ B)) /\ free_place h pl (locs (A ++ B)).
Definition loop_merges (fuel : nat) : Prop := forall (A B : list node) (head : ptr) pl x y h, (length A + length B <= fuel)%nat ->
  mergeable h pl (Some x) (Some y) A B -> merges (merge_loop fuel head pl x y) h pl head A B.

Lemma assign_merges h pl (head q : ptr) (A B L : list node) : lst h q L -> merged A B = L -> free_place h pl (locs (A ++ B)) ->
  locs L ⊆ locs (A ++ B) -> merges (assign pl q head) h pl head A B.
Proof.
  intros HL HM Hf Hsub. unfold merges. eapply ok_assign; [done|]. intros r h' Has. rewrite HM. split.
  - eapply linked_end; [done| |done|done]. apply apart_sym. eapply apart_sub; [by eapply free_apart|done|done].
  - eapply changes_mono; [|by eapply assigned_changes]. intros z Hz. apply elem_of_app. by left.
Qed.

(** The ends of the turns: one of the lists is what is left of it. *)
Lemma merge_rest_l fuel (A B : list node) (head nA : ptr) pl y h : loop_merges fuel -> (length A + length B <= fuel)%nat ->
  mergeable h pl nA (Some y) A B ->
  merges (match nA with None => assign pl (Some y) head | Some pA => merge_loop fuel head pl pA y end) h pl head A B.
Proof.
  intros IH Hfuel Hm. destruct nA as [x|]; [by apply IH|]. destruct Hm as (HA & HB & _ & _ & _ & Hf).
  apply lst_null in HA. subst A. by eapply assign_merges.
Qed.
Lemma merge_rest_r fuel (A B : list node) (head nB : ptr) pl x h : loop_merges fuel -> (length A + length B <= fuel)%nat ->
  mergeable h pl (Some x) nB A B ->
  merges (match nB with None => assign pl (Some x) head | Some pB => merge_loop fuel head pl x pB end) h pl head A B.
Proof.
  intros IH Hfuel Hm. destruct nB as [y|]; [by apply IH|]. destruct Hm as (HA & HB & _ & _ & _ & Hf).
  apply lst_null in HB. subst B. eapply assign_merges; [done|apply merged_nil_r|done|by rewrite app_nil_r].
Qed.

Lemma merge_loop_spec fuel : loop_merges fuel.
Proof.
  induction fuel as [|fuel IH]; intros A B head pl x y h Hfuel (HA & HB & HsA & HsB & Hnd & Hf).
  { destruct A, B; cbn in Hfuel; try lia; cbn in HA; done. }
  destruct A as [|[x' a] A]; [done|]. destruct B as [|[y' b] B]; [done|].
  pose proof HA as (E & nA & lA & Hx & HA'). injection E as <-.
  pose proof HB as (E & nB & lB & Hy & HB'). injection E as <-.
  pose proof (proj1 (sorted_cons _ _) HsA) as [HsA' _]. pose proof (proj1 (sorted_cons _ _) HsB) as [HsB' _].
  unfold merges. cbn [merge_loop]. apply ok_bind. eapply ok_assert_sorted; [exact HA|exact HsA|].
  apply ok_bind. eapply ok_assert_sorted; [exact HB|exact HsB|].
  do 2 (apply ok_bind; eapply ok_get_field; [done|reflexivity|]). cbn [merged fst snd].
  assert (HinA : forall z, z ∈ locs ((x, a) :: A) -> z ∈ locs (((x, a) :: A) ++ (y, b) :: B)) by (intros z; rewrite locs_app, elem_of_app; tauto).
  assert (HinB : forall z, z ∈ locs ((y, b) :: B) -> z ∈ locs (((x, a) :: A) ++ (y, b) :: B)) by (intros z; rewrite locs_app, elem_of_app; tauto).
  assert (HndA : NoDup (locs (A ++ (y, b) :: B))) by by apply NoDup_cons in Hnd as [_ ?].
  destruct (a <=? b) eqn:Hle; [destruct (a <? b) eqn:Hlt|].
  - apply ok_bind, ok_bind. apply (merge_take h pl head x a A (A ++ (y, b) :: B) (((x, a) :: A) ++ (y, b) :: B)); try done.
    intros r1 h1 Hsame Hf1 Hdone. apply ok_ret. apply ok_bind. eapply ok_get_field; [rewrite Hsame by apply HinA, list_elem_of_here; done|reflexivity|].
    eapply ok_mono; [apply (merge_rest_l fuel A ((y, b) :: B) r1 nA (Right x)); [done|cbn in *; lia|]|intros r h2 [Hl Hc]; by apply Hdone].
    split_and!; try done; (eapply lseg_same; [|first [exact HA'|exact HB]]); intros z Hz; apply Hsame; [|by apply HinB].
    by apply HinA, list_elem_of_further.
  - apply ok_bind, ok_ret, ok_bind. eapply ok_get_field; [done|reflexivity|].
    assert (Hsub : locs (A ++ (y, b) :: B) ⊆ locs (((x, a) :: A) ++ (y, b) :: B)) by (intros z; apply list_elem_of_further).
    eapply ok_mono; [apply (merge_rest_l fuel A ((y, b) :: B) head nA pl); [done|cbn in *; lia|]|].
    + split_and!; try done. by eapply free_sub.
    + intros r h2 [Hl Hc]. split; [done|]. eapply changes_mono; [|exact Hc]. intros z. rewrite !elem_of_app.
      intros [Hz|Hz]; [by left|right; by apply Hsub].
  - assert (Hp : locs (((x, a) :: A) ++ (y, b) :: B) ≡ₚ y :: locs (((x, a) :: A) ++ B))
      by (rewrite !locs_app; symmetry; apply (Permutation_middle (x :: locs A) (locs B) y)).
    apply ok_bind. apply (merge_take h pl head y b B (((x, a) :: A) ++ B) (((x, a) :: A) ++ (y, b) :: B)); try done.
    intros r1 h1 Hsame Hf1 Hdone. apply ok_bind. eapply ok_get_field; [rewrite Hsame by apply HinB, list_elem_of_here; exact Hy|reflexivity|].
    eapply ok_mono; [apply (merge_rest_r fuel ((x, a) :: A) B r1 nB (Right y)); [done|cbn in *; lia|]|intros r h2 [Hl Hc]; by apply Hdone].
    rewrite Hp in Hnd. apply NoDup_cons in Hnd as [_ Hnd].
    split_and!; try done; (eapply lseg_same; [|first [exact HA|exact HB']]); intros z Hz; apply Hsame; [by apply HinA|].
    by apply HinB, list_elem_of_further.
Qed.

(** A sorted list in memory. *)
Definition slist h p L : Prop := lst h p L /\ sorted L.

Lemma slist_changes ks h h' p L : changes ks h h' -> apart (locs L) ks -> slist h p L -> slist h' p L.
Proof. intros Hc Ha [H ?]. split; [by eapply lseg_changes|done]. Qed.

Lemma lst_some h x L : lst h (Some x) L -> exists a L', L = (x, a) :: L'.
Proof. destruct L as [|[y a] L]; [done|]. intros [E _]. injection E as <-. eauto. Qed.
Lemma lst_bound h p L : lst h p L -> NoDup (locs L) -> (length L <= size h)%nat.
Proof. intros HL Hnd. rewrite <- (length_fmap fst L). apply locs_bound; [done|]. intros x Hx. by eapply lseg_dom. Qed.

Lemma reduces_nil L : reduces [] L -> L = [].
Proof. intros [_ H]. destruct L as [|[x a] L]; [done|]. specialize (H a ltac:(apply list_elem_of_here)). by apply elem_of_nil in H. Qed.

Lemma merge_spec h x y (A B : list node) (Q : ptr -> heap -> Prop) : slist h (Some x) A -> slist h (Some y) B -> NoDup (locs (A ++ B)) ->
  (forall z M h', slist h' (Some z) M -> reduces M (A ++ B) -> changes (locs (A ++ B)) h h' -> Q (Some z) h') ->
  ok (rowSetEntryMerge x y) h Q.
Proof.
  intros [HA HsA] [HB HsB] Hnd HQ. apply ok_bind, ok_bound. pose proof Hnd as Hnd'. rewrite locs_app in Hnd'.
  apply NoDup_app in Hnd' as (HndA & _ & HndB). pose proof (lst_bound _ _ _ HA HndA). pose proof (lst_bound _ _ _ HB HndB).
  eapply ok_mono; [apply (merge_loop_spec _ A B); [lia|by split_and!]|]. intros r h' [Hl Hc]. cbn in Hl.
  destruct (lst_some _ _ _ HA) as (a & A' & ->). destruct r as [z|].
  - apply (HQ z (merged ((x, a) :: A') B)); [|apply merged_reduces|done]. split; [done|by apply merged_sorted].
  - apply lst_null in Hl. pose proof (merged_reduces ((x, a) :: A') B) as Hr. rewrite Hl in Hr. by apply reduces_nil in Hr.
Qed.

(** ** Sorting *)

(** The buckets hold sorted lists; [filled] reads the buckets in use as a binary number. *)
Definition buckets h (bs : list ptr) (Ls : list (list node)) : Prop := Forall2 (slist h) bs Ls.
Definition all (Ls : list (list node)) : list node := foldr app [] Ls.
Fixpoint filled (bs : list ptr) : Z :=
  match bs with [] => 0 | b :: bs => (if b then 1 else 0) + 2 * filled bs end.

Lemma buckets_changes ks h h' bs Ls : changes ks h h' -> apart (locs (all Ls)) ks -> buckets h bs Ls -> buckets h' bs Ls.
Proof.
  intros Hc Ha H. revert Ha. induction H as [|b L bs Ls Hb HLs IH]; intros Ha; [constructor|].
  cbn [all foldr] in Ha. rewrite locs_app in Ha. constructor.
  - eapply slist_changes; [done| |done]. intros x Hx. apply Ha, elem_of_app. by left.
  - apply IH. intros x Hx. apply Ha, elem_of_app. by right.
Qed.

Lemma filled_bounds bs : 0 <= filled bs < 2 ^ Z.of_nat (length bs).
Proof.
  induction bs as [|b bs IH]; cbn [filled length]; [lia|]. rewrite Nat2Z.inj_succ, Z.pow_succ_r by lia. destruct b; lia.
Qed.

Lemma apart_nodup (K L : list node) : NoDup (locs (K ++ L)) -> apart (locs K) (locs L).
Proof. rewrite locs_app. intros (_ & Hd & _)%NoDup_app x Hx. by apply Hd. Qed.

Lemma place_in_spec bs : forall Ls h x M (Q : list ptr -> heap -> Prop), buckets h bs Ls -> slist h (Some x) M ->
  NoDup (locs (all Ls ++ M)) -> filled bs + 1 < 2 ^ Z.of_nat (length bs) ->
  (forall bs' Ls' h', buckets h' bs' Ls' -> filled bs' = filled bs + 1 -> length bs' = length bs ->
     reduces (all Ls') (all Ls ++ M) -> changes (locs (all Ls ++ M)) h h' -> Q bs' h') ->
  ok (place_in bs (Some x)) h Q.
Proof.
  induction bs as [|b bs IH]; intros Ls h x M Q Hbs HM Hnd Hroom HQ; [cbn in Hroom; lia|].
  inversion Hbs as [|? L ? Ls' Hb Hrest E1 E2]; subst. cbn [all foldr] in Hnd, HQ.
  cbn [length filled] in Hroom, HQ. rewrite Nat2Z.inj_succ, Z.pow_succ_r in Hroom by lia.
  assert (Hp : (L ++ all Ls') ++ M ≡ₚ all Ls' ++ (L ++ M)) by (rewrite app_assoc; by rewrite (Permutation_app_comm L)).
  fold (all Ls') in *. assert (HndLM : NoDup (locs (all Ls' ++ (L ++ M)))) by (unfold locs in *; by rewrite <- Hp).
  pose proof HndLM as Hd. rewrite locs_app in Hd. apply NoDup_app in Hd as (_ & _ & HLM).
  destruct b as [b|]; cbn [place_in].
  - apply ok_bind, ok_the with x; [done|]. apply ok_bind.
    eapply merge_spec; [done|done|done|]. intros z K h1 HK HrK Hc1.
    assert (HrK' : reduces (all Ls' ++ K) (all Ls' ++ (L ++ M))) by (apply reduces_app; [apply reduces_refl|done]).
    apply ok_bind. eapply (IH Ls' h1 z K).
    + eapply buckets_changes; [done| |done]. by apply apart_nodup.
    + done.
    + by eapply reduces_nodup.
    + lia.
    + intros bs' Ls2 h2 Hb2 Hf2 Hlen Hr2 Hc2. apply ok_ret. apply (HQ (None :: bs') ([] :: Ls2)).
      * constructor; [|done]. split; [done|constructor].
      * cbn [filled]. lia.
      * cbn [length]. by f_equal.
      * cbn [all foldr app]. fold (all Ls2). eapply reduces_perm; [by symmetry|]. by eapply reduces_trans.
      * apply changes_trans with h1; (eapply changes_mono; [|done]); intros y Hy; unfold locs in *; rewrite Hp.
        -- rewrite fmap_app. apply elem_of_app. by right.
        -- eapply elem_of_submseteq; [exact Hy|]. apply fmap_submseteq. apply HrK'.
  - destruct Hb as [HL _]. apply lst_null in HL. subst L. apply ok_ret, (HQ (Some x :: bs) (M :: Ls')).
    + by constructor.
    + cbn [filled]. lia.
    + done.
    + cbn [all foldr app]. fold (all Ls'). eapply reduces_perm; [apply Permutation_app_comm|]. apply reduces_refl.
    + apply changes_refl.
Qed.

Lemma fill_buckets_spec fuel : forall bs Ls h p L (Q : list ptr -> heap -> Prop), (length L < fuel)%nat ->
  buckets h bs Ls -> lst h p L -> NoDup (locs (all Ls ++ L)) -> filled bs + Z.of_nat (length L) < 2 ^ Z.of_nat (length bs) ->
  (forall bs' Ls' h', buckets h' bs' Ls' -> length bs' = length bs ->
     reduces (all Ls') (all Ls ++ L) -> changes (locs (all Ls ++ L)) h h' -> Q bs' h') ->
  ok (fill_buckets fuel bs p) h Q.
Proof.
  induction fuel as [|fuel IH]; intros bs Ls h p L Q Hfuel Hbs HL Hnd Hroom HQ; [lia|]. cbn [fill_buckets].
  destruct L as [|[x a] L]; cbn in HL.
  { subst p. apply ok_ret, (HQ bs Ls); [done|done| |apply changes_refl]. rewrite app_nil_r. apply reduces_refl. }
  destruct HL as (-> & next & lft & Hx & HL). cbn [length] in *.
  apply ok_bind. eapply ok_get_field; [done|reflexivity|]. apply ok_bind. eapply ok_put_field; [done|].
  set (h1 := <[x := _]> h). assert (Hc1 : changes [x] h h1) by by eapply changes_insert.
  assert (Hsplit : all Ls ++ (x, a) :: L = (all Ls ++ [(x, a)]) ++ L) by by rewrite <- app_assoc.
  pose proof Hnd as Hnd1. rewrite Hsplit in Hnd1. pose proof (apart_nodup _ _ Hnd1) as Ha1.
  pose proof (apart_nodup _ _ Hnd) as Ha2.
  assert (HnL : NoDup (locs ((x, a) :: L))) by (rewrite locs_app in Hnd; by apply NoDup_app in Hnd as (_ & _ & ?)).
  assert (Hhere : x ∈ locs ((x, a) :: L)) by apply list_elem_of_here.
  assert (Ha : NoDup (locs (all Ls ++ [(x, a)]))) by (rewrite locs_app in Hnd1; by apply NoDup_app in Hnd1 as (? & _ & _)).
  apply ok_bind. eapply (place_in_spec bs Ls h1 x [(x, a)]).
  - eapply buckets_changes; [done| |done]. intros y Hy ->%list_elem_of_singleton. by apply (Ha2 x).
  - split; [|by repeat constructor]. split; [done|]. exists None, lft. unfold h1. rewrite lookup_insert_eq. done.
  - done.
  - lia.
  - intros bs' Ls' h2 Hb2 Hf2 Hlen Hr2 Hc2. eapply (IH bs' Ls' h2 next L).
    + lia.
    + done.
    + eapply lseg_changes; [done|by apply apart_sym|]. eapply lseg_changes; [done| |done].
      intros y Hy ->%list_elem_of_singleton. apply NoDup_cons in HnL as [? _]. done.
    + eapply reduces_nodup; [apply reduces_app; [done|apply reduces_refl]|done].
    + rewrite Hlen. lia.
    + assert (Hr : reduces (all Ls' ++ L) (all Ls ++ (x, a) :: L)).
      { rewrite Hsplit. apply reduces_app; [done|apply reduces_refl]. }
      intros bs3 Ls3 h3 Hb3 Hlen3 Hr3 Hc3. apply (HQ bs3 Ls3); [done|congruence|by eapply reduces_trans|].
      apply changes_trans with h1; [|apply changes_trans with h2]; (eapply changes_mono; [|done]); intros y Hy; unfold locs in *.
      * apply list_elem_of_singleton in Hy as ->. rewrite fmap_app. apply elem_of_app. by right.
      * rewrite Hsplit, fmap_app. apply elem_of_app. by left.
      * eapply elem_of_submseteq; [exact Hy|]. apply fmap_submseteq, Hr.
Qed.

Lemma merge_buckets_spec bs : forall Ls h p M (Q : ptr -> heap -> Prop), buckets h bs Ls -> slist h p M -> NoDup (locs (M ++ all Ls)) ->
  (forall r K h', slist h' r K -> reduces K (M ++ all Ls) -> changes (locs (M ++ all Ls)) h h' -> Q r h') ->
  ok (merge_buckets p bs) h Q.
Proof.
  induction bs as [|b bs IH]; intros Ls h p M Q Hbs HM Hnd HQ; inversion Hbs as [|? L ? Ls' Hb Hrest E1 E2]; subst; cbn [merge_buckets].
  { apply ok_ret, (HQ p M); [done| |apply changes_refl]. rewrite app_nil_r. apply reduces_refl. }
  cbn [all foldr] in *. fold (all Ls') in *. destruct b as [b|].
  - rewrite app_assoc in Hnd, HQ. pose proof (apart_nodup _ _ Hnd) as Ha.
    assert (HML : NoDup (locs (M ++ L))) by (rewrite locs_app in Hnd; by apply NoDup_app in Hnd as (? & _ & _)).
    apply ok_bind. assert (Hnext : forall z K h1, slist h1 (Some z) K -> reduces K (M ++ L) -> changes (locs (M ++ L)) h h1 ->
      ok (merge_buckets (Some z) bs) h1 Q).
    { intros z K h1 HK HrK Hc1. assert (Hr : reduces (K ++ all Ls') ((M ++ L) ++ all Ls')) by (apply reduces_app; [done|apply reduces_refl]).
      eapply (IH Ls' h1 (Some z) K).
      - eapply buckets_changes; [done|by apply apart_sym|done].
      - done.
      - by eapply reduces_nodup.
      - intros r K2 h2 HK2 Hr2 Hc2. apply (HQ r K2); [done|by eapply reduces_trans|].
        apply changes_trans with h1; (eapply changes_mono; [|done]); intros y Hy; unfold locs in *.
        + rewrite fmap_app. apply elem_of_app. by left.
        + eapply elem_of_submseteq; [exact Hy|]. apply fmap_submseteq, Hr. }
    destruct p as [p|].
    + eapply merge_spec; [done|done|done|]. intros z K h1. apply Hnext.
    + destruct HM as [HM _]. apply lst_null in HM. subst M. apply ok_ret. apply (Hnext b L); [done|apply reduces_refl|apply changes_refl].
  - destruct Hb as [HL _]. apply lst_null in HL. subst L. by apply (IH Ls' h p M).
Qed.

(** Sorting keeps each value once. *)
Lemma sort_spec h p L (Q : ptr -> heap -> Prop) : lst h p L -> NoDup (locs L) -> Z.of_nat (length L) < 2 ^ 40 ->
  (forall r K h', slist h' r K -> reduces K L -> changes (locs L) h h' -> Q r h') ->
  ok (rowSetEntrySort p) h Q.
Proof.
  intros HL Hnd Hlen HQ. apply ok_bind, ok_bound. apply ok_bind.
  assert (Hempty : all (replicate 40 []) = []) by done.
  eapply (fill_buckets_spec _ _ (replicate 40 []) h p L).
  - pose proof (lst_bound _ _ _ HL Hnd). lia.
  - apply Forall2_replicate. split; [done|constructor].
  - done.
  - by rewrite Hempty.
  - exact Hlen.
  - rewrite Hempty. cbn [app]. intros bs Ls h1 Hb Hl Hr Hc. destruct Hb as [|b L0 bs Ls Hb0 Hrest]; [done|].
    cbn [all foldr] in Hr. fold (all Ls) in Hr. pose proof (reduces_nodup _ _ Hr Hnd) as Hnd1.
    eapply merge_buckets_spec; [done|done|done|]. intros r K h2 HK HrK Hc2. apply (HQ r K); [done|by eapply reduces_trans|].
    apply changes_trans with h1; [done|]. eapply changes_mono; [|done]. intros y Hy. unfold locs in *.
    eapply elem_of_submseteq; [exact Hy|]. apply fmap_submseteq, Hr.
Qed.

(** ** Trees *)

Fixpoint height (t : tree) : nat := match t with Leaf => O | Node l _ r => S (Nat.max (height l) (height r)) end.

Lemma lst_last h L l a : forall p, lst h p L -> last L = Some (l, a) -> exists lft, h !! l = Some (Entry (Some a) (Some None) lft).
Proof.
  induction L as [|[x b] L IH]; intros p; [done|]. intros (-> & next & lft & Hx & HL). destruct L as [|n L].
  - intros [= -> ->]. cbn in HL. subst. eauto.
  - intros Hl. by apply (IH next).
Qed.

(** Linking what follows the last entry. *)
Lemma lseg_relink h L l a e q : forall p, lst h p L -> last L = Some (l, a) -> NoDup (locs L) -> h !! l = Some e ->
  lseg (<[l := set_right q e]> h) p L q.
Proof.
  induction L as [|[x b] L IH]; intros p; [done|]. intros (-> & next & lft & Hx & HL) Hlast Hnd Hl. split; [done|].
  cbn in Hnd. apply NoDup_cons in Hnd as [Hx' Hnd]. destruct L as [|n L].
  - injection Hlast as -> ->. rewrite Hx in Hl. injection Hl as <-. exists q, lft. by rewrite lookup_insert_eq.
  - change (last ((x, b) :: n :: L)) with (last (n :: L)) in Hlast. exists next, lft. rewrite lookup_insert_ne.
    + split; [done|]. by apply IH.
    + intros ->. apply Hx', list_elem_of_fmap. exists (x, a). split; [done|]. by apply last_Some_elem_of.
Qed.

Lemma locs_node (l : tree) x a (r : tree) : locs (flat (Node l (x, a) r)) = locs (flat l) ++ x :: locs (flat r).
Proof. cbn [flat]. by rewrite locs_app. Qed.

Lemma node_nodup (l : tree) x a (r : tree) : NoDup (locs (flat (Node l (x, a) r))) ->
  NoDup (locs (flat l)) /\ NoDup (locs (flat r)) /\ x ∉ locs (flat l) /\ x ∉ locs (flat r) /\
  apart (locs (flat l)) (locs (flat r)).
Proof.
  rewrite locs_node. intros (Hl & Hd & [Hx Hr]%NoDup_cons)%NoDup_app. split_and!; try done.
  - intros Hin. by apply (Hd x); [|apply list_elem_of_here].
  - intros y Hy Hin. by apply (Hd y); [|apply list_elem_of_further].
Qed.

Lemma apart_single x ls : x ∉ ls -> apart ls [x].
Proof. intros Hx y Hy ->%list_elem_of_singleton. done. Qed.

Definition trees_to_lists (fuel : nat) : Prop := forall (t : tree) h x (Q : loc * loc -> heap -> Prop),
  shape h (Some x) t -> NoDup (locs (flat t)) -> (height t <= fuel)%nat ->
  (forall (f l : loc) a h', lst h' (Some f) (flat t) -> last (flat t) = Some (l, a) -> changes (locs (flat t)) h h' -> Q (f, l) h') ->
  ok (tree_to_list fuel x) h Q.

(** The second half of a turn: the left subtree is a list from [f] to the root [x]. *)
Lemma right_to_list (fuel : nat) (tl tr : tree) h h1 x a (f : loc) (pl pr : ptr) (Q : loc * loc -> heap -> Prop) : trees_to_lists fuel ->
  (height tr <= fuel)%nat -> NoDup (locs (flat (Node tl (x, a) tr))) ->
  h1 !! x = Some (Entry (Some a) (Some pr) (Some pl)) -> lseg h1 (Some f) (flat tl) (Some x) -> shape h1 pr tr ->
  changes (locs (flat (Node tl (x, a) tr))) h h1 ->
  (forall (f l : loc) b h', lst h' (Some f) (flat (Node tl (x, a) tr)) -> last (flat (Node tl (x, a) tr)) = Some (l, b) ->
     changes (locs (flat (Node tl (x, a) tr))) h h' -> Q (f, l) h') ->
  ok (r ← get pRight x;
      ppLast ← (match r with
        | Some r => '(first, ppLast) ← tree_to_list fuel r; _ ← put (set_right (Some first)) x; mret ppLast
        | None => mret x
        end);
      q ← get pRight ppLast; _ ← assert_ok (bool_decide (q = None)); mret (f, ppLast)) h1 Q.
Proof.
  intros IH Hfuel Hnd Hx1 Hl1 Hr1 Hc1 HQ. destruct (node_nodup _ _ _ _ Hnd) as (Hndl & Hndr & Hxl & Hxr & Hlr).
  apply ok_bind. eapply ok_get_field; [done|reflexivity|]. apply ok_bind. destruct pr as [pr|].
  - apply ok_bind. eapply (IH tr); [done|done|done|]. intros f2 l b h2 Hlst Hlast Hc2.
    assert (Hx2 : h2 !! x = Some (Entry (Some a) (Some (Some pr)) (Some pl))) by (rewrite (proj2 Hc2); done).
    apply ok_bind. eapply ok_put_field; [done|]. apply ok_ret. set (h3 := <[x := _]> h2).
    assert (Hc3 : changes [x] h2 h3) by by eapply changes_insert.
    assert (Hlst3 : lst h3 (Some f) (flat (Node tl (x, a) tr))).
    { cbn [flat]. apply lseg_app. exists (Some x). split.
      - eapply lseg_changes; [done|by apply apart_single|]. eapply lseg_changes; [done|exact Hlr|done].
      - split; [done|]. exists (Some f2), (Some pl). unfold h3. rewrite lookup_insert_eq. split; [done|].
        eapply lseg_changes; [done|by apply apart_single|done]. }
    assert (Hlast3 : last (flat (Node tl (x, a) tr)) = Some (l, b)).
    { cbn [flat]. rewrite last_app, last_cons, Hlast. done. }
    destruct (lst_last _ _ _ _ _ Hlst3 Hlast3) as [lft Hq].
    apply ok_bind. eapply ok_get_field; [done|reflexivity|]. apply ok_bind, ok_assert; [done|]. apply ok_ret, (HQ f l b); [done|done|].
    apply changes_trans with h1; [done|apply changes_trans with h2]; (eapply changes_mono; [|done]); intros y Hy; rewrite locs_node, elem_of_app, elem_of_cons.
    + right. by right.
    + right. left. by apply list_elem_of_singleton.
  - destruct tr as [|? [? ?] ?]; [|by destruct Hr1]. apply ok_ret, ok_bind. eapply ok_get_field; [done|reflexivity|].
    apply ok_bind, ok_assert; [done|]. apply ok_ret, (HQ f x a); [|cbn [flat]; by rewrite last_snoc|done].
    cbn [flat]. apply lseg_app. exists (Some x). split; [done|]. split; [done|]. by exists None, (Some pl).
Qed.

Lemma tree_to_list_spec fuel : trees_to_lists fuel.
Proof.
  induction fuel as [|fuel IH]; intros t h x Q Ht Hnd Hfuel HQ; (destruct t as [|tl [x' a] tr]; [done|]); [cbn in Hfuel; lia|].
  destruct Ht as (E & pl & pr & Hx & Hl & Hr). injection E as <-. cbn [height] in Hfuel.
  destruct (node_nodup _ _ _ _ Hnd) as (Hndl & Hndr & Hxl & Hxr & Hlr). cbn [tree_to_list].
  apply ok_bind. eapply ok_get_field; [done|reflexivity|]. apply ok_bind.
  destruct pl as [pl|].
  - apply ok_bind. eapply (IH tl); [done|done|lia|]. intros f l b h1 Hlst Hlast Hc1.
    destruct (lst_last _ _ _ _ _ Hlst Hlast) as [lft Hl1]. apply ok_bind. eapply ok_put_field; [done|]. apply ok_ret.
    set (h2 := <[l := _]> h1). assert (Hc2 : changes [l] h1 h2) by by eapply changes_insert.
    assert (Hin : l ∈ locs (flat tl)) by (apply list_elem_of_fmap; exists (l, b); split; [done|by apply last_Some_elem_of]).
    eapply (right_to_list fuel tl tr h); [done|lia|done| | | | |exact HQ].
    + rewrite (proj2 Hc2), (proj2 Hc1); [done|done|]. intros ->%list_elem_of_singleton. done.
    + by eapply lseg_relink.
    + eapply shape_changes; [done| |eapply shape_changes; [done|by apply apart_sym|done]]. intros y Hy ->%list_elem_of_singleton.
      by apply (Hlr l).
    + apply changes_trans with h1; (eapply changes_mono; [|done]); intros y Hy; rewrite locs_node, elem_of_app; left; [done|].
      by apply list_elem_of_singleton in Hy as ->.
  - destruct tl as [|? [? ?] ?]; [|by destruct Hl]. apply ok_ret. by eapply (right_to_list fuel Leaf tr h h x a x); [done|lia|..].
Qed.

(** A tree of height at most [d] that was taken from a list of which [K] is left. *)
Definition taken (d : nat) (t : tree) (L K : list node) : Prop :=
  L = flat t ++ K /\ (height t <= d)%nat /\ (K = [] \/ length (flat t) = 2 ^ d - 1)%nat.

Lemma n_deep_spec d : forall h p L (Q : ptr * ptr -> heap -> Prop), (1 <= d)%nat -> lst h p L -> NoDup (locs L) ->
  (forall q rest t K h', shape h' q t -> lst h' rest K -> taken d t L K -> changes (locs (flat t)) h h' -> Q (q, rest) h') ->
  ok (rowSetNDeepTree p d) h Q.
Proof.
  induction d as [|d IH]; intros h p L Q Hd HL Hnd HQ; [lia|]. destruct L as [|[x a] L].
  { cbn in HL. subst p. cbn. apply (HQ None None Leaf []); try done. split; [done|]. split; [cbn; lia|by left]. }
  pose proof HL as (-> & next & lft & Hx & HL'). destruct d as [|d]; cbn [rowSetNDeepTree].
  - apply ok_bind. eapply ok_get_field; [done|reflexivity|]. apply ok_bind. eapply ok_put_field; [done|]. apply ok_bind.
    eapply ok_put_field; [by rewrite lookup_insert_eq|]. apply ok_ret. rewrite insert_insert_eq.
    set (h1 := <[x := _]> h). assert (Hc : changes [x] h h1) by by eapply changes_insert.
    apply (HQ (Some x) next (Node Leaf (x, a) Leaf) L).
    + split; [done|]. exists None, None. unfold h1. by rewrite lookup_insert_eq.
    + eapply lseg_changes; [done| |done]. apply apart_single. by apply NoDup_cons in Hnd as [? _].
    + split; [done|]. split; [cbn; lia|by right].
    + done.
  - apply ok_bind. eapply (IH h (Some x) ((x, a) :: L)); [lia|done|done|]. intros l rest t K h1 Ht HK (HLK & Hht & Hfull) Hc1.
    rewrite HLK in Hnd. pose proof (apart_nodup _ _ Hnd) as Ha1.
    destruct K as [|[y b] K].
    { cbn in HK. subst rest. apply ok_ret, (HQ l None t []); try done. split; [done|]. split; [lia|by left]. }
    pose proof HK as (-> & next2 & lft2 & Hy & HK'). apply ok_bind. eapply ok_put_field; [done|].
    apply ok_bind. eapply ok_get_field; [by rewrite lookup_insert_eq|reflexivity|].
    set (h2 := <[y := _]> h1). assert (Hc2 : changes [y] h1 h2) by by eapply changes_insert.
    rewrite locs_app in Hnd. apply NoDup_app in Hnd as (Hndt & _ & HndK). cbn in HndK. apply NoDup_cons in HndK as [HyK HndK].
    assert (Hyt : y ∉ locs (flat t)) by (intros ?; apply (Ha1 y); [done|apply list_elem_of_here]).
    apply ok_bind. eapply (IH h2 next2 K); [lia| |done|].
    { eapply lseg_changes; [done|by apply apart_single|done]. }
    intros r rest t2 K2 h3 Ht2 HK2 (HKK & Hht2 & Hfull2) Hc3.
    assert (Hy3 : h3 !! y = Some (Entry (Some b) (Some next2) (Some l))).
    { rewrite (proj2 Hc3); [unfold h2; by rewrite lookup_insert_eq|]. rewrite HKK, locs_app in HyK. intros ?. by apply HyK, elem_of_app; left. }
    apply ok_bind. eapply ok_put_field; [done|]. apply ok_ret. set (h4 := <[y := _]> h3). assert (Hc4 : changes [y] h3 h4) by by eapply changes_insert.
    rewrite HKK, locs_app in HyK. assert (Hyt2 : y ∉ locs (flat t2)) by (intros ?; apply HyK, elem_of_app; by left).
    assert (HyK2 : y ∉ locs K2) by (intros ?; apply HyK, elem_of_app; by right).
    assert (Ht3 : apart (locs (flat t)) (locs (flat t2))).
    { intros z Hz Hz2. apply (Ha1 z Hz). cbn. apply list_elem_of_further. rewrite HKK, locs_app. apply elem_of_app. by left. }
    apply (HQ (Some y) rest (Node t (y, b) t2) K2).
    + split; [done|]. exists l, r. unfold h4. rewrite lookup_insert_eq. split; [done|]. split.
      * eapply shape_changes; [done|by apply apart_single|]. eapply shape_changes; [done|done|].
        eapply shape_changes; [done|by apply apart_single|done].
      * eapply shape_changes; [done|by apply apart_single|done].
    + eapply lseg_changes; [done|by apply apart_single|done].
    + split; [cbn [flat]; rewrite HLK, HKK, <- app_assoc; done|]. split; [cbn [height]; lia|].
      destruct Hfull2 as [->|Hfull2]; [by left|right]. destruct Hfull as [?|Hfull]; [done|]. cbn [flat]. rewrite length_app. cbn [length].
      rewrite Hfull, Hfull2. rewrite (Nat.pow_succ_r' 2 (S d)). pose proof (Nat.pow_nonzero 2 (S d)). lia.
    + assert (Hin : forall ls, (ls = locs (flat t) \/ ls = [y] \/ ls = locs (flat t2)) -> ls ⊆ locs (flat (Node t (y, b) t2))).
      { intros ls Hls z Hz. rewrite locs_node, elem_of_app, elem_of_cons. destruct Hls as [->|[->| ->]]; [by left|right|right; by right].
        left. by apply list_elem_of_singleton in Hz. }
      apply changes_trans with h1; [|apply changes_trans with h2; [|apply changes_trans with h3]];
        (eapply changes_mono; [|done]); apply Hin; auto.
Qed.

(** A tree with few levels: one of height [d] has at least [2 ^ (d - 1)] entries. *)
Definition balanced (t : tree) : Prop := (2 ^ pred (height t) <= length (flat t))%nat.

Lemma tree_loop_spec fuel : forall d (p : loc) (t : tree) (pList : ptr) (K : list node) h (Q : loc -> heap -> Prop), (length K < fuel)%nat -> (1 <= d)%nat ->
  shape h (Some p) t -> lst h pList K -> NoDup (locs (flat t ++ K)) -> (height t <= d)%nat -> (2 ^ pred d <= length (flat t))%nat ->
  (K = [] \/ length (flat t) = 2 ^ d - 1)%nat ->
  (forall (r : loc) (t' : tree) h', shape h' (Some r) t' -> flat t' = flat t ++ K -> balanced t' -> changes (locs (flat t ++ K)) h h' -> Q r h') ->
  ok (tree_loop fuel d p pList) h Q.
Proof.
  induction fuel as [|fuel IH]; intros d p t pList K h Q Hfuel Hd Ht HK Hnd Hht Hlow Hfull HQ; [lia|].
  destruct K as [|[x a] K]; cbn [tree_loop].
  { cbn in HK. subst pList. apply ok_ret, (HQ p t); [done|by rewrite app_nil_r| |apply changes_refl].
    unfold balanced. etrans; [|exact Hlow]. apply Nat.pow_le_mono_r; lia. }
  pose proof HK as (-> & next & lft & Hx & HK'). destruct Hfull as [?|Hfull]; [done|].
  pose proof (apart_nodup _ _ Hnd) as Ha. pose proof Hnd as Hnd'. rewrite locs_app in Hnd'. apply NoDup_app in Hnd' as (_ & _ & HndK).
  cbn in HndK. apply NoDup_cons in HndK as [HxK HndK].
  assert (Hxt : x ∉ locs (flat t)) by (intros ?; apply (Ha x); [done|apply list_elem_of_here]).
  apply ok_bind. eapply ok_get_field; [done|reflexivity|]. apply ok_bind. eapply ok_put_field; [done|].
  set (h1 := <[x := _]> h). assert (Hc1 : changes [x] h h1) by by eapply changes_insert.
  apply ok_bind. eapply (n_deep_spec d h1 next K); [done| |done|].
  { eapply lseg_changes; [done|by apply apart_single|done]. }
  intros r rest t2 K2 h2 Ht2 HK2 (HKK & Hht2 & Hfull2) Hc2. rewrite HKK, locs_app in HxK.
  assert (Hxt2 : x ∉ locs (flat t2)) by (intros ?; apply HxK, elem_of_app; by left).
  assert (HxK2 : x ∉ locs K2) by (intros ?; apply HxK, elem_of_app; by right).
  assert (Hx2 : h2 !! x = Some (Entry (Some a) (Some next) (Some (Some p)))) by (rewrite (proj2 Hc2) by done; unfold h1; by rewrite lookup_insert_eq).
  apply ok_bind. eapply ok_put_field; [done|]. set (h3 := <[x := _]> h2). assert (Hc3 : changes [x] h2 h3) by by eapply changes_insert.
  assert (Htt : apart (locs (flat t)) (locs (flat t2))).
  { intros z Hz Hz2. apply (Ha z Hz). cbn. apply list_elem_of_further. rewrite HKK, locs_app. apply elem_of_app. by left. }
  assert (Heq : flat t ++ (x, a) :: K = flat (Node t (x, a) t2) ++ K2) by (cbn [flat]; by rewrite <- app_assoc, HKK).
  assert (Hlen : (length (flat (Node t (x, a) t2)) = length (flat t) + S (length (flat t2)))%nat) by (cbn [flat]; by rewrite length_app).
  pose proof (Nat.pow_nonzero 2 d) as H2. cbn [length] in Hfuel. rewrite HKK, length_app in Hfuel.
  eapply (IH (S d) x (Node t (x, a) t2) rest K2 h3).
  - lia.
  - lia.
  - split; [done|]. exists (Some p), r. unfold h3. rewrite lookup_insert_eq. split; [done|]. split.
    + eapply shape_changes; [done|by apply apart_single|]. eapply shape_changes; [done|done|].
      eapply shape_changes; [done|by apply apart_single|done].
    + eapply shape_changes; [done|by apply apart_single|done].
  - eapply lseg_changes; [done|by apply apart_single|done].
  - by rewrite <- Heq.
  - cbn [height]. lia.
  - rewrite Hlen. cbn [pred]. lia.
  - destruct Hfull2 as [->|Hfull2]; [by left|right]. rewrite Hlen, Nat.pow_succ_r'. lia.
  - rewrite <- Heq. intros r' t' h' Ht' Hflat Hbal Hc. apply (HQ r' t'); [done|done|done|].
    assert (Hin : forall ls, (ls = [x] \/ ls = locs (flat t2)) -> ls ⊆ locs (flat t ++ (x, a) :: K)).
    { intros ls Hls z Hz. rewrite Heq, locs_app, locs_node, !elem_of_app, elem_of_cons. destruct Hls as [->| ->]; left; right; [left|by right].
      by apply list_elem_of_singleton in Hz. }
    apply changes_trans with h1; [|apply changes_trans with h2; [|apply changes_trans with h3; [|done]]];
      (eapply changes_mono; [|done]); apply Hin; auto.
Qed.

Lemma list_to_tree_spec h x L (Q : loc -> heap -> Prop) : lst h (Some x) L -> NoDup (locs L) ->
  (forall (r : loc) (t : tree) h', shape h' (Some r) t -> flat t = L -> balanced t -> changes (locs L) h h' -> Q r h') ->
  ok (rowSetListToTree x) h Q.
Proof.
  intros HL Hnd HQ. apply ok_bind, ok_bound. pose proof (lst_bound _ _ _ HL Hnd) as Hb.
  destruct (lst_some _ _ _ HL) as (a & K & ->). destruct HL as (_ & next & lft & Hx & HK). cbn in Hb.
  apply ok_bind. eapply ok_get_field; [done|reflexivity|]. apply ok_bind. eapply ok_put_field; [done|]. apply ok_bind.
  eapply ok_put_field; [by rewrite lookup_insert_eq|]. rewrite insert_insert_eq.
  set (h1 := <[x := _]> h). assert (Hc : changes [x] h h1) by by eapply changes_insert.
  apply (tree_loop_spec _ 1 x (Node Leaf (x, a) Leaf) next K h1).
  - lia.
  - lia.
  - split; [done|]. exists None, None. unfold h1. by rewrite lookup_insert_eq.
  - eapply lseg_changes; [done| |done]. apply apart_single. by apply NoDup_cons in Hnd as [? _].
  - done.
  - cbn. lia.
  - cbn. lia.
  - by right.
  - intros r t h' Ht Hflat Hbal Hc'. apply (HQ r t); [done|done|done|]. apply changes_trans with h1; [|done].
    eapply changes_mono; [|done]. intros z ->%list_elem_of_singleton. apply list_elem_of_here.
Qed.

Lemma ok_levels h (Q : nat -> heap -> Prop) : Q (S (S (Nat.log2 (size h)))) h -> ok levels h Q.
Proof. intros HQ. by apply ok_bind, ok_look, ok_ret. Qed.

Lemma height_levels h p (t : tree) : shape h p t -> NoDup (locs (flat t)) -> balanced t -> (height t <= S (Nat.log2 (size h)))%nat.
Proof.
  intros Ht Hnd Hb. assert (length (flat t) <= size h)%nat.
  { rewrite <- (length_fmap fst (flat t)). apply locs_bound; [exact Hnd|]. intros y Hy. by eapply shape_dom. }
  assert (Hle : (2 ^ pred (height t) <= size h)%nat) by (etrans; [exact Hb|done]).
  apply Nat.log2_le_mono in Hle. rewrite Nat.log2_pow2 in Hle by lia. lia.
Qed.

Lemma tree_list_spec (t : tree) h x (Q : loc * loc -> heap -> Prop) : shape h (Some x) t -> NoDup (locs (flat t)) -> balanced t ->
  (forall (f l : loc) h', lst h' (Some f) (flat t) -> changes (locs (flat t)) h h' -> Q (f, l) h') -> ok (rowSetTreeToList x) h Q.
Proof.
  intros Ht Hnd Hb HQ. apply ok_bind, ok_levels. eapply (tree_to_list_spec _ t); [done|done| |eauto].
  pose proof (height_levels _ _ _ Ht Hnd Hb). lia.
Qed.
