(* ===== verification/RowSet.v ===== *)
(** * RowSet: SQLite's sets of row numbers

    sqlite3.c, rowset.c part: row numbers are inserted in batches, and then either tested for
    membership or taken out in order.  A pointer takes [pointer_size] bytes; [malloc] says which
    allocations succeed and [sqlite3DbMallocSize] how large they are. *)

From stdpp Require Import sorting.
From S2P Require Export RowEntries.

Section rowset.
Variable pointer_size : Z.
Variable malloc : nat -> bool.
Variable sqlite3DbMallocSize : nat -> Z.

(** ** State *)

Definition sizeof_RowSetEntry : Z := 8 + 2 * pointer_size.
Definition sizeof_RowSet : Z := 6 * pointer_size + 2 + 2 + 4.
Definition ROUND8 (x : Z) : Z := Z.land (x + 7) (Z.lnot 7).
Definition ROWSET_ALLOCATION_SIZE : Z := 1024.
Definition ROWSET_ENTRY_PER_CHUNK : Z := (ROWSET_ALLOCATION_SIZE - 8) / sizeof_RowSetEntry.

(** [self] is the allocation of the [RowSet] itself, with the entries after it; a chunk is named
    by the number of its allocation. *)
Record RowSet := mkRowSet {
  self : nat;
  pChunk : list nat;
  pEntry : ptr;
  pLast : ptr;
  pFresh : loc;
  pForest : ptr;
  nFresh : Z;
  rsFlags : Z;
  iBatch : Z
}.

Definition ROWSET_SORTED : Z := 0x01.
Definition ROWSET_NEXT : Z := 0x02.
Definition flag (p : RowSet) (f : Z) : bool := negb (Z.land (rsFlags p) f =? 0).

Definition set_chunks (c : list nat) (p : RowSet) : RowSet :=
  mkRowSet (self p) c (pEntry p) (pLast p) (pFresh p) (pForest p) (nFresh p) (rsFlags p) (iBatch p).
Definition set_list (first last : ptr) (p : RowSet) : RowSet :=
  mkRowSet (self p) (pChunk p) first last (pFresh p) (pForest p) (nFresh p) (rsFlags p) (iBatch p).
Definition set_fresh (x : loc) (n : Z) (p : RowSet) : RowSet :=
  mkRowSet (self p) (pChunk p) (pEntry p) (pLast p) x (pForest p) n (rsFlags p) (iBatch p).
Definition set_forest (q : ptr) (p : RowSet) : RowSet :=
  mkRowSet (self p) (pChunk p) (pEntry p) (pLast p) (pFresh p) q (nFresh p) (rsFlags p) (iBatch p).
Definition set_flags (f : Z) (p : RowSet) : RowSet :=
  mkRowSet (self p) (pChunk p) (pEntry p) (pLast p) (pFresh p) (pForest p) (nFresh p) (u16 f) (iBatch p).
Definition set_batch (b : Z) (p : RowSet) : RowSet :=
  mkRowSet (self p) (pChunk p) (pEntry p) (pLast p) (pFresh p) (pForest p) (nFresh p) (rsFlags p) b.

(** The entries, the allocations that were not freed, and the number of allocations so far. *)
Record world := mkWorld { mem : heap; live : gset nat; made : nat }.

Definition on_mem {A} : St heap A -> St world A := on_part mem (fun h w => mkWorld h (live w) (made w)).

(** [n] entries that were never written. *)
Definition blanks (c : nat) (n : Z) : heap :=
  list_to_map ((fun i => ((c, i), Entry None None None)) <$> seq 0 (Z.to_nat n)).

(** An allocation, with the number of entries in it. *)
Definition allocate (entries : nat -> Z) : St world (option nat) :=
  w ← look;
  let c := made w in
  match malloc c with
  | true => _ ← change (fun w => mkWorld (blanks c (entries c) ∪ mem w) ({[c]} ∪ live w) (S c)); mret (Some c)
  | false => _ ← change (fun w => mkWorld (mem w) (live w) (S c)); mret None
  end.
Definition free (c : nat) : St world unit :=
  w ← look;
  _ ← assert_ok (bool_decide (c ∈ live w));
  change (fun w => mkWorld (filter (fun e => e.1.1 <> c) (mem w)) (live w ∖ {[c]}) (made w)).

(** ** Creating and destroying *)

Definition spare_entries (c : nat) : Z := (sqlite3DbMallocSize c - ROUND8 sizeof_RowSet) / sizeof_RowSetEntry.

Definition sqlite3RowSetInit : St world (option RowSet) :=
  p ← allocate spare_entries;
  match p with
  | None => mret None
  | Some c => mret (Some (mkRowSet c [] None None (c, O) None (u16 (spare_entries c)) ROWSET_SORTED 0))
  end.

Fixpoint free_chunks (pChunk : list nat) : St world unit :=
  match pChunk with
  | [] => mret ()
  | c :: pNextChunk => _ ← free c; free_chunks pNextChunk
  end.

Definition sqlite3RowSetClear (p : RowSet) : St world RowSet :=
  _ ← free_chunks (pChunk p);
  mret (mkRowSet (self p) [] None None (pFresh p) None 0 ROWSET_SORTED (iBatch p)).

Definition sqlite3RowSetDelete (p : RowSet) : St world unit :=
  p ← sqlite3RowSetClear p;
  free (self p).

(** ** Inserting *)

Definition rowSetEntryAlloc (p : RowSet) : St world (ptr * RowSet) :=
  refilled ← (match nFresh p =? 0 with
    | true =>
      pNew ← allocate (fun _ => ROWSET_ENTRY_PER_CHUNK);
      mret (match pNew with
        | None => None
        | Some c => Some (set_fresh (c, O) (u16 ROWSET_ENTRY_PER_CHUNK) (set_chunks (c :: pChunk p) p))
        end)
    | false => mret (Some p)
    end);
  match refilled with
  | None => mret (None, p)
  | Some p =>
    let '(c, i) := pFresh p in
    mret (Some (c, i), set_fresh (c, S i) (u16 (nFresh p - 1)) p)
  end.

Definition sqlite3RowSetInsert (p : RowSet) (rowid : Z) : St world RowSet :=
  _ ← assert_ok (negb (flag p ROWSET_NEXT));
  '(entry, p) ← rowSetEntryAlloc p;
  match entry with
  | None => mret p
  | Some x =>
    _ ← on_mem (put (set_v rowid) x);
    _ ← on_mem (put (set_right None) x);
    match pLast p with
    | Some l =>
      last ← on_mem (get v l);
      let p := if rowid <=? last then set_flags (Z.land (rsFlags p) (Z.lnot ROWSET_SORTED)) p else p in
      _ ← on_mem (put (set_right (Some x)) l);
      mret (set_list (pEntry p) (Some x) p)
    | None => mret (set_list (Some x) (Some x) p)
    end
  end.

(** ** Taking out the smallest *)

Definition sqlite3RowSetNext (p : RowSet) : St world (option Z * RowSet) :=
  _ ← assert_ok (bool_decide (pForest p = None));
  p ← (match flag p ROWSET_NEXT with
    | false =>
      p ← (match flag p ROWSET_SORTED with
        | false => first ← on_mem (rowSetEntrySort (pEntry p)); mret (set_list first (pLast p) p)
        | true => mret p
        end);
      mret (set_flags (Z.lor (rsFlags p) (Z.lor ROWSET_SORTED ROWSET_NEXT)) p)
    | true => mret p
    end);
  match pEntry p with
  | Some x =>
    rowid ← on_mem (get v x);
    next ← on_mem (get pRight x);
    let p := set_list next (pLast p) p in
    p ← (match next with None => sqlite3RowSetClear p | Some _ => mret p end);
    mret (Some rowid, p)
  | None => mret (None, p)
  end.

(** ** Testing *)

(** The loop over the trees: [ppPrevTree] and [pTree] where it ends, and the list that was not
    turned into a tree. *)
Fixpoint forest_loop (fuel : nat) (ppPrevTree : place) (pTree : ptr) (p : loc) : St heap (place * ptr * loc) :=
  match fuel with
  | O => stuck
  | S fuel =>
    match pTree with
    | None => mret (ppPrevTree, None, p)
    | Some t =>
      l ← get pLeft t;
      match l with
      | None =>
        root ← rowSetListToTree p;
        _ ← put (set_left (Some root)) t;
        mret (Right t, Some t, p)
      | Some l =>
        '(pAux, _) ← rowSetTreeToList l;
        _ ← put (set_left None) t;
        p ← rowSetEntryMerge pAux p;
        p ← the p;
        next ← get pRight t;
        forest_loop fuel (Right t) next p
      end
    end
  end.

Fixpoint search_tree (fuel : nat) (p : ptr) (iRowid : Z) : St heap bool :=
  match fuel with
  | O => stuck
  | S fuel =>
    match p with
    | None => mret false
    | Some x =>
      a ← get v x;
      match a <? iRowid with
      | true => r ← get pRight x; search_tree fuel r iRowid
      | false =>
        match iRowid <? a with
        | true => l ← get pLeft x; search_tree fuel l iRowid
        | false => mret true
        end
      end
    end
  end.

Fixpoint search_forest (fuel : nat) (pTree : ptr) (iRowid : Z) : St heap bool :=
  match fuel with
  | O => stuck
  | S fuel =>
    match pTree with
    | None => mret false
    | Some t =>
      p ← get pLeft t;
      steps ← levels;
      found ← search_tree steps p iRowid;
      match found with
      | true => mret true
      | false => next ← get pRight t; search_forest fuel next iRowid
      end
    end
  end.

(** Moving the list of entries, from [x] on, to the forest. *)
Definition new_batch (p : RowSet) (x : loc) : St world RowSet :=
  first ← (match flag p ROWSET_SORTED with
    | false => r ← on_mem (rowSetEntrySort (Some x)); the r
    | true => mret x
    end);
  fuel ← on_mem bound;
  '(ppPrevTree, pTree, first) ← on_mem (forest_loop fuel Local (pForest p) first);
  p ← (match pTree with
    | Some _ => mret p
    | None =>
      '(pTree, p) ← rowSetEntryAlloc p;
      forest ← on_mem (assign ppPrevTree pTree (pForest p));
      let p := set_forest forest p in
      match pTree with
      | None => mret p
      | Some t =>
        _ ← on_mem (put (set_v 0) t);
        _ ← on_mem (put (set_right None) t);
        root ← on_mem (rowSetListToTree first);
        _ ← on_mem (put (set_left (Some root)) t);
        mret p
      end
    end);
  mret (set_flags (Z.lor (rsFlags p) ROWSET_SORTED) (set_list None None p)).

Definition sqlite3RowSetTest (p : RowSet) (batch : Z) (iRowid : Z) : St world (bool * RowSet) :=
  _ ← assert_ok (negb (flag p ROWSET_NEXT));
  p ← (match negb (batch =? iBatch p) with
    | true =>
      p ← (match pEntry p with Some x => new_batch p x | None => mret p end);
      mret (set_batch batch p)
    | false => mret p
    end);
  fuel ← on_mem bound;
  found ← on_mem (search_forest fuel (pForest p) iRowid);
  mret (found, p).
End rowset.

(** ** The forest in memory *)

Notation grove := (list (loc * tree)).
Definition heads (F : grove) : list loc := F.*1.
Definition fnodes (F : grove) : list node := foldr (fun xt L => flat xt.2 ++ L) [] F.

(** The trees of [F], linked from [p] to [q] by entries of their own. *)
Fixpoint fseg (h : heap) (p : ptr) (F : grove) (q : ptr) : Prop :=
  match F with
  | [] => p = q
  | (x, t) :: F => p = Some x /\ exists (a : Z) (next l : ptr), h !! x = Some (Entry (Some a) (Some next) (Some l)) /\
      shape h l t /\ fseg h next F q
  end.

Definition good_tree (t : tree) : Prop := StronglySorted Z.lt (values (flat t)) /\ (t <> Leaf -> balanced t).
Definition good (F : grove) : Prop := Forall (fun xt => good_tree xt.2) F.

Implicit Types (h : heap) (F : grove) (L K : list node) (x y : loc) (t : tree) (q : ptr).

Lemma shape_same h h' t : forall q, (forall x, x ∈ locs (flat t) -> h' !! x = h !! x) -> shape h q t -> shape h' q t.
Proof.
  induction t as [|l IHl [x a] r IHr]; intros q Hs; cbn [shape]; [done|]. rewrite locs_node in Hs.
  intros (-> & pl & pr & Hx & Hl & Hr). split; [done|]. exists pl, pr. rewrite Hs by (apply elem_of_app; right; apply list_elem_of_here).
  split; [done|]. split; [apply IHl|apply IHr]; try done; intros y Hy; apply Hs, elem_of_app; [by left|right].
  by apply list_elem_of_further.
Qed.

Lemma fseg_same h h' F : forall p q, (forall x, x ∈ heads F ++ locs (fnodes F) -> h' !! x = h !! x) -> fseg h p F q -> fseg h' p F q.
Proof.
  induction F as [|[x t] F IH]; intros p q Hs; cbn [fseg]; [done|]. intros (-> & a & next & l & Hx & Ht & HF).
  cbn [fnodes foldr heads fmap list_fmap snd fst] in Hs. fold (fnodes F) in Hs. rewrite locs_app in Hs.
  split; [done|]. exists a, next, l. rewrite Hs by apply list_elem_of_here. split; [done|].
  split; [eapply shape_same; [|done]|apply IH; [|done]]; intros y Hy; apply Hs; cbn [app]; apply list_elem_of_further;
    rewrite !elem_of_app in *; naive_solver.
Qed.

Lemma fseg_changes ks h h' F p q : changes ks h h' -> apart (heads F ++ locs (fnodes F)) ks -> fseg h p F q -> fseg h' p F q.
Proof. intros Hc Ha. apply fseg_same. intros x Hx. by apply Hc, Ha. Qed.

Lemma fseg_app h F : forall p G q, fseg h p (F ++ G) q <-> exists r, fseg h p F r /\ fseg h r G q.
Proof.
  induction F as [|[x t] F IH]; intros p G q; cbn [fseg app]; [naive_solver|]. split.
  - intros (-> & a & next & l & Hx & Ht & (r & HF & HG)%IH). eauto 10.
  - intros (r & (-> & a & next & l & Hx & Ht & HF) & HG). split; [done|]. exists a, next, l. split_and!; [done|done|]. apply IH. eauto.
Qed.

Lemma heads_app F G : heads (F ++ G) = heads F ++ heads G.
Proof. apply fmap_app. Qed.
Lemma fnodes_app F G : fnodes (F ++ G) = fnodes F ++ fnodes G.
Proof. induction F as [|xt F IH]; [done|]. cbn [app fnodes foldr]. fold (fnodes (F ++ G)) (fnodes F). by rewrite IH, app_assoc. Qed.

Lemma fseg_dom h F : forall p q x, fseg h p F q -> x ∈ heads F -> is_Some (h !! x).
Proof.
  induction F as [|[y t] F IH]; intros p q x; cbn; [by intros _ ?%elem_of_nil|].
  intros (_ & a & next & l & Hy & _ & HF) [->|Hx]%elem_of_cons; [by eexists|by eapply IH].
Qed.

(** ** Searching *)

Lemma search_tree_spec fuel : forall t h q a (Q : bool -> heap -> Prop), shape h q t -> StronglySorted Z.lt (values (flat t)) -> (height t < fuel)%nat ->
  (forall b : bool, (b = true <-> a ∈ values (flat t)) -> Q b h) -> ok (search_tree fuel q a) h Q.
Proof.
  induction fuel as [|fuel IH]; intros t h q a Q Ht Hs Hfuel HQ; [lia|]. destruct t as [|l [x b] r]; cbn [search_tree].
  { cbn in Ht. subst q. apply ok_ret, HQ. cbn. split; [done|]. by intros ?%elem_of_nil. }
  destruct Ht as (-> & pl & pr & Hx & Hl & Hr). cbn [height] in Hfuel. apply ok_bind. eapply ok_get_field; [done|reflexivity|].
  cbn [flat] in *. unfold values in *. rewrite fmap_app, fmap_cons in *. cbn in Hs.
  assert (Hall : forall c, (c ∈ (flat l).*2 -> c < b) /\ (c ∈ (flat r).*2 -> b < c)).
  { apply StronglySorted_app in Hs as (Hlt & _ & Hsr). apply StronglySorted_inv in Hsr as [_ Hr']. rewrite Forall_forall in Hr'.
    intros c. split; [|apply Hr']. intros Hc. apply Hlt; [done|]. apply list_elem_of_here. }
  pose proof Hs as Hs'. apply StronglySorted_app in Hs' as (_ & Hsl & Hsr). apply StronglySorted_inv in Hsr as [Hsr _].
  assert (Hin : forall b' : bool, a <> b -> (b' = true <-> (a < b /\ a ∈ (flat l).*2) \/ (b < a /\ a ∈ (flat r).*2)) ->
    (b' = true <-> a ∈ (flat l).*2 ++ b :: (flat r).*2)).
  { intros b' Hne ->. rewrite elem_of_app, elem_of_cons. destruct (Hall a). naive_solver lia. }
  destruct (Z.ltb_spec b a); [|destruct (Z.ltb_spec a b)].
  - apply ok_bind. eapply ok_get_field; [done|reflexivity|]. eapply (IH r); [done|done|lia|]. intros b' Hb'. apply HQ, Hin; [lia|]. rewrite Hb'.
    split; [by right|]. intros [[? _]|[_ ?]]; [lia|done].
  - apply ok_bind. eapply ok_get_field; [done|reflexivity|]. eapply (IH l); [done|done|lia|]. intros b' Hb'. apply HQ, Hin; [lia|]. rewrite Hb'.
    split; [by left|]. intros [[_ ?]|[? _]]; [done|lia].
  - assert (b = a) as -> by lia. apply ok_ret, HQ. split; [|done]. intros _. apply elem_of_app. right. apply list_elem_of_here.
Qed.

Lemma search_forest_spec fuel : forall F h q a (Q : bool -> heap -> Prop), fseg h q F None -> good F -> NoDup (locs (fnodes F)) -> (length F < fuel)%nat ->
  (forall b : bool, (b = true <-> a ∈ values (fnodes F)) -> Q b h) -> ok (search_forest fuel q a) h Q.
Proof.
  induction fuel as [|fuel IH]; intros F h q a Q HF Hg Hnd Hfuel HQ; [lia|]. destruct F as [|[x t] F]; cbn [search_forest].
  { cbn in HF. subst q. apply ok_ret, HQ. split; [done|]. by intros ?%elem_of_nil. }
  destruct HF as (-> & b & next & l & Hx & Ht & HF). apply Forall_cons in Hg as [[Hs Hb] Hg].
  cbn [fnodes foldr snd] in Hnd, HQ. fold (fnodes F) in Hnd, HQ. rewrite locs_app in Hnd. apply NoDup_app in Hnd as (Hndt & _ & Hnd).
  rewrite values_app in HQ. apply ok_bind. eapply ok_get_field; [done|reflexivity|]. apply ok_bind, ok_levels, ok_bind.
  eapply search_tree_spec; [done|done| |].
  { destruct t as [|tl n tr]; [cbn; lia|]. pose proof (height_levels _ _ _ Ht Hndt (Hb ltac:(done))). lia. }
  intros [|] Hfound.
  - apply ok_ret, HQ. split; [|done]. intros _. apply elem_of_app. left. by apply Hfound.
  - apply ok_bind. eapply ok_get_field; [done|reflexivity|]. eapply (IH F); [done|done|done|cbn in Hfuel; lia|].
    intros b' Hb'. apply HQ. rewrite elem_of_app, Hb'. split; [by right|]. intros [Hin|?]; [by apply Hfound in Hin|done].
Qed.

(** ** Moving the list to the forest *)

(** All the entries in use. *)
Definition used (L : list node) F : list loc := locs L ++ heads F ++ locs (fnodes F).

Lemma good_leaf : good_tree Leaf.
Proof. split; [constructor|done]. Qed.

(** A tree of the forest is taken apart and merged with the list. *)
Lemma absorb_spec {A} x (b : Z) (next : ptr) (l y : loc) t L h (K : ptr -> loc -> St heap A) (Q : A -> heap -> Prop) :
  h !! x = Some (Entry (Some b) (Some next) (Some (Some l))) -> shape h (Some l) t -> good_tree t -> slist h (Some y) L ->
  NoDup (x :: locs (flat t ++ L)) ->
  (forall z M h', h' !! x = Some (Entry (Some b) (Some next) (Some None)) -> slist h' (Some z) M -> reduces M (flat t ++ L) ->
     changes (x :: locs (flat t ++ L)) h h' -> ok (K next z) h' Q) ->
  ok ('(pAux, _) ← rowSetTreeToList l; _ ← put (set_left None) x; p ← rowSetEntryMerge pAux y; p ← the p; next ← get pRight x; K next p) h Q.
Proof.
  intros Hx Ht [Hst Hbt] [HL HsL] [Hxn Hnd]%NoDup_cons HQ. specialize (Hbt ltac:(by intros ->)).
  rewrite locs_app, elem_of_app in Hxn. pose proof Hnd as Hnd'. rewrite locs_app in Hnd'. apply NoDup_app in Hnd' as (Hndt & Hd & _).
  apply ok_bind. eapply tree_list_spec; [done|done|done|]. intros pAux l' h1 HAux Hc1.
  assert (Hx1 : h1 !! x = h !! x) by (apply Hc1; tauto).
  apply ok_bind. eapply ok_put_field; [by rewrite Hx1|]. set (h2 := <[x := _]> h1).
  assert (Hc2 : changes [x] h1 h2) by (eapply changes_insert; by rewrite Hx1).
  apply ok_bind. eapply (merge_spec _ _ _ (flat t) L); [|split; [|done]|done|].
  - split; [|done]. eapply lseg_changes; [done|apply apart_single; tauto|done].
  - eapply lseg_changes; [done|apply apart_single; tauto|]. eapply lseg_changes; [done|by apply apart_sym|done].
  - intros z M h3 HM HrM Hc3. apply ok_bind, ok_the with z; [done|].
    assert (Hx3 : h3 !! x = Some (Entry (Some b) (Some next) (Some None))).
    { rewrite (proj2 Hc3); [unfold h2; by rewrite lookup_insert_eq|]. rewrite locs_app, elem_of_app. tauto. }
    apply ok_bind. eapply ok_get_field; [done|reflexivity|]. apply (HQ z M); [done|done|done|].
    apply changes_trans with h1; [|apply changes_trans with h2]; (eapply changes_mono; [|done]); intros z' Hz';
      rewrite elem_of_cons; [right; rewrite locs_app, elem_of_app; by left|left; by apply list_elem_of_singleton|by right].
Qed.

Lemma used_cons L x t F : used L ((x, t) :: F) ≡ₚ x :: locs (flat t ++ L) ++ heads F ++ locs (fnodes F).
Proof.
  unfold used. cbn [heads fmap list_fmap fst fnodes foldr snd app]. fold (fnodes F) (heads F). rewrite !locs_app.
  rewrite <- Permutation_middle. apply perm_skip. rewrite (Permutation_app_comm (locs (flat t)) (locs L)), <- app_assoc. f_equiv.
  rewrite !app_assoc. f_equiv. apply Permutation_app_comm.
Qed.

Lemma reduces_used L M t F : reduces M (flat t ++ L) -> used M F ⊆ locs (flat t ++ L) ++ heads F ++ locs (fnodes F).
Proof.
  intros Hr z. unfold used. rewrite !elem_of_app. intros [Hz|Hz]; [left|by right].
  eapply elem_of_submseteq; [exact Hz|]. apply fmap_submseteq, Hr.
Qed.

(** What the loop does with a list [L] and the trees [F] at [p], where [pl] is the place of [p]. *)
Definition grows_forest (run : St heap (place * ptr * loc)) h pl p L F : Prop := forall Q : place * ptr * loc -> heap -> Prop,
  (forall pl' x y' F' h', fseg h' p F' None -> good F' -> heads F' = heads F -> reduces (fnodes F') (L ++ fnodes F) ->
     changes (used L F) h h' -> Q (pl', Some x, y') h') ->
  (forall y' L' F' h', fseg h' p F' None -> heads F' = heads F -> fnodes F' = [] -> good F' -> slist h' (Some y') L' ->
     reduces L' (L ++ fnodes F) -> changes (used L F) h h' -> Q (default pl (Right <$> last (heads F)), None, y') h') ->
  ok run h Q.

(** The first tree without entries takes the list. *)
Lemma fill_leaf h pl x (b : Z) (next : ptr) y L F : h !! x = Some (Entry (Some b) (Some next) (Some None)) -> fseg h next F None -> good F ->
  slist h (Some y) L -> NoDup (used L ((x, Leaf) :: F)) ->
  grows_forest (root ← rowSetListToTree y; _ ← put (set_left (Some root)) x; mret (Right x, Some x, y)) h pl (Some x) L ((x, Leaf) :: F).
Proof.
  intros Hx HF Hg [HL HsL] Hnd Q Hfound _. pose proof Hnd as Hnd'. rewrite used_cons in Hnd'. cbn [flat app] in Hnd'.
  apply NoDup_cons in Hnd' as [Hxn Hnd']. rewrite elem_of_app in Hxn. apply NoDup_app in Hnd' as (HndL & Hd & _).
  apply ok_bind. eapply list_to_tree_spec; [done|done|]. intros root t h1 Htree Hflat Hbal Hc1. apply ok_bind.
  assert (Hx1 : h1 !! x = h !! x) by (apply Hc1; tauto).
  eapply ok_put_field; [by rewrite Hx1|]. apply ok_ret. set (h2 := <[x := _]> h1).
  assert (Hc2 : changes [x] h1 h2) by (eapply changes_insert; by rewrite Hx1).
  apply (Hfound (Right x) x y ((x, t) :: F)).
  - split; [done|]. exists b, next, (Some root). unfold h2. rewrite lookup_insert_eq. split; [done|]. split.
    + eapply shape_changes; [done| |done]. apply apart_single. rewrite Hflat. tauto.
    + eapply fseg_changes; [exact Hc2|apply apart_single; tauto|]. eapply fseg_changes; [done| |done]. by apply apart_sym.
  - apply Forall_cons. split; [|done]. cbn [snd]. split; [by rewrite Hflat|done].
  - done.
  - cbn [fnodes foldr snd flat app]. fold (fnodes F). rewrite Hflat. apply reduces_refl.
  - apply changes_trans with h1; (eapply changes_mono; [|done]); intros z Hz; rewrite used_cons, elem_of_cons, elem_of_app; cbn [flat app].
    + tauto.
    + apply list_elem_of_singleton in Hz. tauto.
Qed.

Lemma forest_loop_spec fuel : forall F h pl p y L, (length F < fuel)%nat -> fseg h p F None -> good F -> slist h (Some y) L ->
  NoDup (used L F) -> grows_forest (forest_loop fuel pl p y) h pl p L F.
Proof.
  induction fuel as [|fuel IH]; intros F h pl p y L Hfuel HF Hg HL Hnd; [lia|].
  destruct F as [|[x t] F]; cbn [forest_loop].
  { cbn in HF. subst p. intros Q _ Hend. apply ok_ret, (Hend y L []); try done. rewrite app_nil_r. apply reduces_refl. }
  destruct HF as (-> & b & next & l & Hx & Ht & HF). pose proof Hg as Hg'. apply Forall_cons in Hg' as [Hgt HgF]. cbn [snd] in Hgt.
  destruct l as [l|].
  2: { destruct t as [|? [? ?] ?]; [|by destruct Ht]. intros Q Hfound Hend. apply ok_bind. eapply ok_get_field; [done|reflexivity|]. by eapply fill_leaf. }
  intros Q Hfound Hend. apply ok_bind. eapply ok_get_field; [done|reflexivity|].
  pose proof Hnd as Hnd'. rewrite used_cons in Hnd'. rewrite app_comm_cons in Hnd'. apply NoDup_app in Hnd' as (Hnd1 & Hd & Hnd2).
  eapply (absorb_spec x b next l y t L h (forest_loop fuel (Right x))); [done|done|done|done|done|]. intros z M h1 Hx1 HM HrM Hc1.
  assert (Hxn : x ∉ locs (flat t ++ L) ++ heads F ++ locs (fnodes F)).
  { rewrite used_cons in Hnd. by apply NoDup_cons in Hnd as [? _]. }
  assert (Hr : reduces (M ++ fnodes F) (L ++ fnodes ((x, t) :: F))).
  { cbn [fnodes foldr snd]. fold (fnodes F). rewrite app_assoc. apply reduces_app; [|apply reduces_refl].
    eapply reduces_perm; [apply Permutation_app_comm|done]. }
  assert (Hchanges : forall h2, changes (used M F) h1 h2 -> h2 !! x = h1 !! x /\ changes (used L ((x, t) :: F)) h h2).
  { intros h2 Hc2. split; [apply Hc2; by intros ?%(reduces_used L M t F HrM)|].
    apply changes_trans with h1; (eapply changes_mono; [|done]); intros z' Hz'; rewrite used_cons.
    - rewrite app_comm_cons, elem_of_app. by left.
    - apply list_elem_of_further. by apply (reduces_used L M t F HrM). }
  apply (IH F h1 (Right x) next z M); [cbn in Hfuel; lia| |done|done| | |].
  - eapply fseg_changes; [done| |done]. by apply apart_sym.
  - unfold used. apply NoDup_app. split_and!; [|intros z' Hz' Hz2|done].
    + eapply reduces_nodup; [done|]. by apply NoDup_cons in Hnd1 as [_ ?].
    + apply (Hd z'); [|done]. apply list_elem_of_further. eapply elem_of_submseteq; [exact Hz'|]. apply fmap_submseteq, HrM.
  - intros pl' x' y' F' h2 HF2 Hg2 Hh2 Hr2 Hc2. destruct (Hchanges h2 Hc2) as [Hx2 Hc]. apply (Hfound pl' x' y' ((x, Leaf) :: F')).
    + split; [done|]. exists b, next, None. by rewrite Hx2.
    + apply Forall_cons. split; [apply good_leaf|done].
    + change (x :: heads F' = x :: heads F). by rewrite Hh2.
    + by eapply reduces_trans.
    + done.
  - intros y' L' F' h2 HF2 Hh2 Hn2 Hg2 HL2 Hr2 Hc2. destruct (Hchanges h2 Hc2) as [Hx2 Hc].
    replace (default (Right x) (Right <$> last (heads F))) with (default pl (Right <$> last (heads ((x, t) :: F))))
      by (change (heads ((x, t) :: F)) with (x :: heads F); rewrite last_cons; by destruct (last (heads F))).
    apply (Hend y' L' ((x, Leaf) :: F')).
    + split; [done|]. exists b, next, None. by rewrite Hx2.
    + change (x :: heads F' = x :: heads F). by rewrite Hh2.
    + done.
    + apply Forall_cons. split; [apply good_leaf|done].
    + done.
    + by eapply reduces_trans.
    + done.
Qed.

(** ** Allocations *)

(** Of the live allocations, [cs] are those of the set; [bm] and [bl] are the entries and
    allocations of others. *)
Record owns (bm : heap) (bl : gset nat) (w : world) (cs : list nat) : Prop := {
  owns_mem : forall x, x.1 ∉ cs -> mem w !! x = bm !! x;
  owns_base : forall x, is_Some (bm !! x) -> x.1 ∈ bl;
  owns_live : live w = list_to_set cs ∪ bl;
  owns_disjoint : forall c, c ∈ cs -> c ∉ bl;
  owns_nodup : NoDup cs;
  owns_made : forall c, c ∈ live w -> (c < made w)%nat
}.

(** The entries at [ls] are in use, and the [n] from [fresh] on are not. *)
Record pool (bm : heap) (bl : gset nat) (w : world) (cs : list nat) (fresh : loc) (n : Z) (ls : list loc) : Prop := {
  pool_owns : owns bm bl w cs;
  pool_used : forall x, x ∈ ls -> x.1 ∈ cs;
  pool_count : is_uint 16 n;
  pool_chunk : 0 < n -> fresh.1 ∈ cs;
  pool_fresh : forall i, (fresh.2 <= i < fresh.2 + Z.to_nat n)%nat -> is_Some (mem w !! (fresh.1, i)) /\ (fresh.1, i) ∉ ls
}.

Definition with_mem (h : heap) (w : world) : world := mkWorld h (live w) (made w).

Lemma ok_on_mem {A} (m : St heap A) w (Q : A -> world -> Prop) : ok m (mem w) (fun r h => Q r (with_mem h w)) -> ok (on_mem m) w Q.
Proof. apply ok_on_part. Qed.

Lemma blanks_lookup c n x : blanks c n !! x = if bool_decide (x.1 = c /\ (x.2 < Z.to_nat n)%nat) then Some (Entry None None None) else None.
Proof.
  unfold blanks. case_bool_decide as Hx.
  - destruct x as [c' i]. cbn in Hx. destruct Hx as [-> Hi]. apply elem_of_list_to_map_1.
    + rewrite <- list_fmap_compose. apply (NoDup_fmap_2_strong _ _); [|apply NoDup_seq]. intros i1 i2 _ _ E. by injection E.
    + apply list_elem_of_fmap. exists i. split; [done|]. apply elem_of_seq. lia.
  - apply not_elem_of_list_to_map_1. intros Hin. apply Hx. apply list_elem_of_fmap in Hin as ([y e] & -> & Hy).
    apply list_elem_of_fmap in Hy as (i & E & Hi). injection E as -> _. cbn. apply elem_of_seq in Hi. split; [done|lia].
Qed.

Lemma owns_changes bm bl w cs ls h : owns bm bl w cs -> changes ls (mem w) h -> (forall x, x ∈ ls -> x.1 ∈ cs) -> owns bm bl (with_mem h w) cs.
Proof.
  intros [H1 H2 H3 H4 H5 H6] [_ Hc] Hls. constructor; try done. intros x Hx. cbn. rewrite Hc; [by apply H1|].
  intros Hin. by apply Hx, Hls.
Qed.

Lemma pool_changes bm bl w cs fresh n ls h : pool bm bl w cs fresh n ls -> changes ls (mem w) h -> pool bm bl (with_mem h w) cs fresh n ls.
Proof.
  intros [H1 H2 H3 H4 H5] Hc. constructor; try done; [by eapply owns_changes|].
  intros i Hi. destruct (H5 i Hi) as [Hs Hn]. split; [|done]. cbn. by rewrite (proj2 Hc).
Qed.

Lemma pool_sub bm bl w cs fresh n ls ls' : pool bm bl w cs fresh n ls -> ls' ⊆ ls -> pool bm bl w cs fresh n ls'.
Proof.
  intros [H1 H2 H3 H4 H5] Hs. constructor; try done; [by intros x Hx; apply H2, Hs|].
  intros i Hi. destruct (H5 i Hi) as [? Hn]. split; [done|]. intros ?. by apply Hn, Hs.
Qed.

Section proofs.
Context (P : Z) (HP : P = 4 \/ P = 8) (malloc : nat -> bool) (msize : nat -> Z).
(** An allocation is at least as large as the structure it is for. *)
Context (Hsize : forall c, sizeof_RowSet P <= msize c).
Local Notation allocate := (allocate malloc).
Local Notation rowSetEntryAlloc := (rowSetEntryAlloc P malloc).
Local Notation sqlite3RowSetInit := (sqlite3RowSetInit P malloc msize).
Local Notation sqlite3RowSetInsert := (sqlite3RowSetInsert P malloc).
Local Notation sqlite3RowSetTest := (sqlite3RowSetTest P malloc).
Local Notation new_batch := (new_batch P malloc).

(** An allocation gives a chunk of its own, with entries that nobody uses. *)
Lemma allocate_spec bm bl w cs entries (Q : option nat -> world -> Prop) : owns bm bl w cs ->
  (malloc (made w) = true -> forall w', let c := made w in made w' = S c -> owns bm bl w' (c :: cs) -> c ∉ cs ->
     (forall x, x.1 <> c -> mem w' !! x = mem w !! x) ->
     (forall i, (i < Z.to_nat (entries c))%nat -> is_Some (mem w' !! (c, i))) -> Q (Some c) w') ->
  (malloc (made w) = false -> forall w', made w' = S (made w) -> mem w' = mem w -> live w' = live w -> owns bm bl w' cs -> Q None w') ->
  ok (allocate entries) w Q.
Proof.
  intros [H1 H2 H3 H4 H5 H6] Hyes Hno. apply ok_bind, ok_look. cbv beta zeta. destruct (malloc (made w)) eqn:Em.
  - assert (Hlive : forall c, c ∈ live w <-> c ∈ cs \/ c ∈ bl) by (intros c; rewrite H3, elem_of_union, elem_of_list_to_set; done).
    assert (Hcs : made w ∉ cs) by (intros Hin; specialize (H6 (made w)); rewrite Hlive in H6; specialize (H6 (or_introl Hin)); lia).
    assert (Hbl : made w ∉ bl) by (intros Hin; specialize (H6 (made w)); rewrite Hlive in H6; specialize (H6 (or_intror Hin)); lia).
    assert (Hother : forall x, x.1 <> made w -> (blanks (made w) (entries (made w)) ∪ mem w) !! x = mem w !! x).
    { intros x Hx. apply lookup_union_r. rewrite blanks_lookup, bool_decide_false; [done|]. by intros [? _]. }
    apply ok_bind, ok_change, ok_ret, Hyes; [done|done| |done|done|].
    + constructor; cbn.
      * intros x Hx. apply not_elem_of_cons in Hx as [Hx ?]. rewrite Hother by done. by apply H1.
      * done.
      * by rewrite H3, (assoc_L (∪)).
      * intros c [->|?]%elem_of_cons; [done|by apply H4].
      * by apply NoDup_cons.
      * intros c. rewrite elem_of_union, elem_of_singleton. intros [->|Hc%H6]; lia.
    + intros i Hi. cbn. eexists. apply lookup_union_Some_l. by rewrite blanks_lookup, bool_decide_true.
  - apply ok_bind, ok_change, ok_ret, Hno; [done|done|done|done|]. constructor; try done. cbn. intros c Hc. specialize (H6 c Hc). lia.
Qed.

Lemma filter_chunk h (c : nat) x : filter (fun e => e.1.1 <> c) h !! x = if decide (x.1 = c) then None else h !! x.
Proof.
  rewrite map_lookup_filter. destruct (h !! x); cbn; [|by destruct (decide _)].
  destruct (decide (x.1 = c)); [by rewrite option_guard_False by tauto|by rewrite option_guard_True].
Qed.

Lemma free_spec bm bl w c cs (Q : unit -> world -> Prop) : owns bm bl w (c :: cs) ->
  (forall w', owns bm bl w' cs -> (forall x, x.1 <> c -> mem w' !! x = mem w !! x) -> Q () w') -> ok (free c) w Q.
Proof.
  intros [H1 H2 H3 H4 H5 H6] HQ. apply ok_bind, ok_look. apply NoDup_cons in H5 as [Hc H5].
  assert (Hcbl : c ∉ bl) by (apply H4, list_elem_of_here).
  apply ok_bind, ok_assert; [apply bool_decide_eq_true; rewrite H3, elem_of_union, elem_of_list_to_set; left; apply list_elem_of_here|].
  apply ok_change, HQ.
  - constructor; cbn.
    + intros x Hx. rewrite filter_chunk. destruct (decide (x.1 = c)) as [E|Hne].
      * symmetry. apply eq_None_not_Some. intros Hin%H2. by rewrite E in Hin.
      * apply H1. by apply not_elem_of_cons.
    + done.
    + rewrite H3. cbn [list_to_set]. apply set_eq. intros a. rewrite elem_of_difference, !elem_of_union, elem_of_singleton, elem_of_list_to_set.
      split; [tauto|]. intros Ha. split; [tauto|]. intros ->. tauto.
    + intros a Ha. by apply H4, list_elem_of_further.
    + done.
    + intros a [Ha _]%elem_of_difference. by apply H6.
  - intros x Hx. cbn. by rewrite filter_chunk, decide_False.
Qed.

Lemma free_chunks_spec bm bl cs : forall w ks (Q : unit -> world -> Prop), owns bm bl w (cs ++ ks) ->
  (forall w', owns bm bl w' ks -> Q () w') -> ok (free_chunks cs) w Q.
Proof.
  induction cs as [|c cs IH]; intros w ks Q Hw HQ; cbn [free_chunks]; [by apply ok_ret, HQ|].
  apply ok_bind. eapply free_spec; [exact Hw|]. intros w' Hw' _. by eapply IH.
Qed.

Lemma owns_perm bm bl w cs cs' : cs ≡ₚ cs' -> owns bm bl w cs -> owns bm bl w cs'.
Proof.
  intros Hp [H1 H2 H3 H4 H5 H6]. constructor; try done.
  - intros x. rewrite <- Hp. apply H1.
  - rewrite H3. f_equal. by apply list_to_set_perm_L.
  - intros c. rewrite <- Hp. apply H4.
  - by rewrite <- Hp.
Qed.

Definition owned (p : RowSet) : list nat := self p :: pChunk p.
Definition same (p p' : RowSet) : Prop := pEntry p' = pEntry p /\ pLast p' = pLast p /\ pForest p' = pForest p /\
  rsFlags p' = rsFlags p /\ iBatch p' = iBatch p.
(** An allocation between two moments failed. *)
Definition failed (w w' : world) : Prop := exists k, (made w <= k < made w')%nat /\ malloc k = false.

Lemma per_chunk : 0 < ROWSET_ENTRY_PER_CHUNK P < 2 ^ 16.
Proof. destruct HP as [-> | ->]; vm_compute; done. Qed.

Lemma take_fresh bm bl w cs c i n ls : pool bm bl w cs (c, i) n ls -> n <> 0 ->
  pool bm bl w cs (c, S i) (u16 (n - 1)) ((c, i) :: ls) /\ is_Some (mem w !! (c, i)) /\ (c, i) ∉ ls.
Proof.
  intros [H1 H2 H3 H4 H5] Hn. assert (Hpos : 0 < n) by (unfold is_uint in H3; lia). unfold is_uint in H3.
  assert (Hu : u16 (n - 1) = n - 1) by (apply wrap_small; unfold is_uint; lia). rewrite Hu.
  destruct (H5 i) as [Hs Hi]; [cbn; lia|]. split; [|done]. constructor; [done| |unfold is_uint; lia|by intros _; apply H4|].
  - intros x [->|Hx]%elem_of_cons; [cbn; by apply H4|by apply H2].
  - cbn. intros j Hj. destruct (H5 j) as [Hsj Hnj]; [cbn; lia|]. split; [done|]. rewrite not_elem_of_cons. split; [|done].
    intros E. injection E as ->. lia.
Qed.

Lemma entry_alloc_spec bm bl w p ls (Q : ptr * RowSet -> world -> Prop) :
  pool bm bl w (owned p) (pFresh p) (nFresh p) ls ->
  (forall x p' w', pool bm bl w' (owned p') (pFresh p') (nFresh p') (x :: ls) -> same p p' ->
     (forall y, y ∈ ls -> mem w' !! y = mem w !! y) -> is_Some (mem w' !! x) -> x ∉ ls -> Q (Some x, p') w') ->
  (forall w', failed w w' -> mem w' = mem w -> pool bm bl w' (owned p) (pFresh p) (nFresh p) ls -> Q (None, p) w') ->
  ok (rowSetEntryAlloc p) w Q.
Proof.
  intros Hp Hyes Hno. unfold RowSet.rowSetEntryAlloc.
  assert (Htake : forall p' w', same p p' -> nFresh p' <> 0 -> pool bm bl w' (owned p') (pFresh p') (nFresh p') ls ->
    (forall y, y ∈ ls -> mem w' !! y = mem w !! y) ->
    ok (let '(c, i) := pFresh p' in mret (Some (c, i), set_fresh (c, S i) (u16 (nFresh p' - 1)) p')) w' Q).
  { intros p' w' Hs Hn Hp' Hm. destruct (pFresh p') as [c i] eqn:Ef.
    destruct (take_fresh _ _ _ _ _ _ _ _ Hp' Hn) as (Hp2 & Hi & Hls). apply ok_ret, Hyes; [exact Hp2|exact Hs|exact Hm|exact Hi|exact Hls]. }
  destruct (Z.eqb_spec (nFresh p) 0) as [E0|Hne].
  - apply ok_bind, ok_bind. destruct Hp as [H1 H2 H3 H4 H5]. eapply allocate_spec; [exact H1| |].
    + intros Hm w' c Hmade Hown Hc Hsame Hnew. apply ok_ret. pose proof per_chunk as HE.
      assert (Hu : u16 (ROWSET_ENTRY_PER_CHUNK P) = ROWSET_ENTRY_PER_CHUNK P) by (apply wrap_small; unfold is_uint; lia).
      apply Htake.
      * done.
      * cbn. lia.
      * cbn. rewrite Hu. assert (Hcs : forall x, x ∈ ls -> x.1 <> c).
        { intros x Hx E. apply Hc. rewrite <- E. by apply H2. }
        constructor.
        -- eapply owns_perm; [|exact Hown]. apply Permutation_swap.
        -- intros x Hx%H2. unfold owned in *. cbn in *. rewrite !elem_of_cons in *. tauto.
        -- unfold is_uint. lia.
        -- intros _. unfold owned. cbn. rewrite !elem_of_cons. tauto.
        -- cbn. intros i Hi. split; [apply Hnew; lia|]. intros Hin. by apply (Hcs _ Hin).
      * intros y Hy. apply Hsame. intros E. apply Hc. rewrite <- E. by apply H2.
    + intros Hm w' Hmade Hmem Hlive Hown. apply ok_ret, ok_ret, Hno; [exists (made w); split; [lia|done]|done|].
      constructor; try done. intros i Hi. rewrite Hmem. by apply H5.
  - apply ok_bind, ok_ret. by apply Htake.
Qed.

(** ** The operations *)

(** The entries inserted since the last batch are [L], in order; [F] are the trees. *)
Record rep (bm : heap) (bl : gset nat) (w : world) (p : RowSet) (L : list node) F : Prop := {
  rep_pool : pool bm bl w (owned p) (pFresh p) (nFresh p) (used L F);
  rep_list : lst (mem w) (pEntry p) L;
  rep_last : pLast p = fst <$> last L;
  rep_forest : fseg (mem w) (pForest p) F None;
  rep_good : good F;
  rep_nodup : NoDup (used L F);
  rep_flags : rsFlags p = 0 \/ rsFlags p = 1 /\ sorted L
}.

Lemma spare_nonneg c : 0 <= spare_entries P msize c.
Proof.
  specialize (Hsize c). unfold spare_entries. apply Z.div_pos; [|unfold sizeof_RowSetEntry; lia].
  assert (E : ROUND8 (sizeof_RowSet P) = sizeof_RowSet P) by (destruct HP as [-> | ->]; done). lia.
Qed.

Lemma init_spec w (Q : option RowSet -> world -> Prop) : owns (mem w) (live w) w [] ->
  (forall p w', rep (mem w) (live w) w' p [] [] -> iBatch p = 0 -> Q (Some p) w') ->
  (forall w', failed w w' -> mem w' = mem w -> live w' = live w -> Q None w') -> ok sqlite3RowSetInit w Q.
Proof.
  intros Hw Hyes Hno. apply ok_bind. eapply allocate_spec; [exact Hw| |].
  - intros Hm w' c Hmade Hown Hc Hsame Hnew. apply ok_ret, Hyes; [|done].
    pose proof (wrap_bounds 16 (spare_entries P msize c) ltac:(lia)) as Hb. fold (u16 (spare_entries P msize c)) in Hb.
    constructor; [|done|done|done|constructor|constructor|right; split; [done|constructor]].
    constructor; cbn; [done|by intros x ?%elem_of_nil|done|intros _; apply list_elem_of_here|].
    intros i Hi. split; [apply Hnew|by apply not_elem_of_nil]. unfold u16, wrap in Hi. pose proof (spare_nonneg c) as H0.
    pose proof (Z.mod_le (spare_entries P msize c) (2 ^ 16) H0 ltac:(lia)). lia.
  - intros Hm w' Hmade Hmem Hlive _. apply ok_ret, Hno; [exists (made w); split; [lia|done]|done|done].
Qed.

Lemma delete_spec bm bl w p (Q : unit -> world -> Prop) : owns bm bl w (owned p) ->
  (forall w', mem w' = bm -> live w' = bl -> Q () w') -> ok (sqlite3RowSetDelete p) w Q.
Proof.
  intros Hown HQ. apply ok_bind, ok_bind.
  apply (free_chunks_spec bm bl (pChunk p) w [self p]).
  { eapply owns_perm; [|exact Hown]. unfold owned. by rewrite Permutation_app_comm. }
  intros w1 H1. apply ok_ret. cbn [self]. eapply free_spec; [exact H1|]. intros w2 [A1 _ A3 _ _ _] _. apply HQ.
  - apply map_eq. intros x. apply A1, not_elem_of_nil.
  - rewrite A3. cbn. set_solver.
Qed.

Lemma used_app L K F : used (L ++ K) F ≡ₚ locs K ++ used L F.
Proof. unfold used. rewrite locs_app, (Permutation_app_comm (locs L)), <- app_assoc. done. Qed.

Lemma rep_no_next bm bl w p L F : rep bm bl w p L F -> flag p ROWSET_NEXT = false.
Proof. intros Hr. unfold flag. destruct (rep_flags _ _ _ _ _ _ Hr) as [->|[-> _]]; done. Qed.

Lemma clear_sorted f : f = 0 \/ f = 1 -> u16 (Z.land f (Z.lnot ROWSET_SORTED)) = 0.
Proof. intros [-> | ->]; done. Qed.

(** Linking an entry that was allocated to the end of the list. *)
Lemma link_spec bm bl w p L F x a (Q : RowSet -> world -> Prop) :
  pool bm bl w (owned p) (pFresh p) (nFresh p) (x :: used L F) -> lst (mem w) (pEntry p) L -> pLast p = fst <$> last L ->
  fseg (mem w) (pForest p) F None -> good F -> NoDup (x :: used L F) -> rsFlags p = 0 \/ rsFlags p = 1 /\ sorted L ->
  (exists lft, mem w !! x = Some (Entry (Some a) (Some None) lft)) ->
  (forall p' w', rep bm bl w' p' (L ++ [(x, a)]) F -> iBatch p' = iBatch p -> Q p' w') ->
  ok (match pLast p with
    | Some l =>
      last ← on_mem (get v l);
      let p := if a <=? last then set_flags (Z.land (rsFlags p) (Z.lnot ROWSET_SORTED)) p else p in
      _ ← on_mem (put (set_right (Some x)) l);
      mret (set_list (pEntry p) (Some x) p)
    | None => mret (set_list (Some x) (Some x) p)
    end) w Q.
Proof.
  intros Hp HL Hlast HF Hg Hnd Hfl [lft Hx] HQ.
  assert (Hperm : used (L ++ [(x, a)]) F ≡ₚ x :: used L F) by apply used_app.
  assert (Hnd' : NoDup (used (L ++ [(x, a)]) F)) by by rewrite Hperm.
  assert (Hxs : x ∉ used L F) by by apply NoDup_cons in Hnd as [? _].
  assert (Hp' : pool bm bl w (owned p) (pFresh p) (nFresh p) (used (L ++ [(x, a)]) F)).
  { eapply pool_sub; [exact Hp|]. intros z. by rewrite Hperm. }
  destruct (last L) as [[l b]|] eqn:El.
  - rewrite Hlast. cbn. destruct (lst_last _ _ _ _ _ HL El) as [lft2 Hl].
    assert (HlL : l ∈ locs L) by (apply list_elem_of_fmap; exists (l, b); split; [done|by apply last_Some_elem_of]).
    apply ok_bind, ok_on_mem. eapply ok_get_field; [done|reflexivity|]. cbv zeta. apply ok_bind, ok_on_mem.
    change (mem (with_mem (mem w) w)) with (mem w). eapply ok_put_field; [done|].
    set (h1 := <[l := _]> (mem w)). assert (Hc1 : changes [l] (mem w) h1) by by eapply changes_insert.
    assert (Hrep : forall f, f = 0 \/ f = 1 /\ sorted (L ++ [(x, a)]) ->
      rep bm bl (with_mem h1 w) (mkRowSet (self p) (pChunk p) (pEntry p) (Some x) (pFresh p) (pForest p) (nFresh p) f (iBatch p)) (L ++ [(x, a)]) F).
    { intros f Hf. constructor; cbn; [|apply lseg_app; exists (Some x); split| | |done|done|done].
      - eapply pool_changes; [exact Hp'|]. eapply changes_mono; [|exact Hc1]. intros z ->%list_elem_of_singleton.
        rewrite Hperm. apply list_elem_of_further. unfold used. apply elem_of_app. by left.
      - unfold h1. eapply lseg_relink; [done|done| |done]. unfold used in Hnd. apply NoDup_cons in Hnd as [_ Hnd]. by apply NoDup_app in Hnd as [? _].
      - split; [done|]. exists None, lft. split; [|done]. rewrite (proj2 Hc1); [done|]. rewrite list_elem_of_singleton. intros ->.
        apply Hxs. unfold used. apply elem_of_app. by left.
      - by rewrite last_snoc.
      - eapply fseg_changes; [done| |done]. intros z Hz ->%list_elem_of_singleton. apply NoDup_cons in Hnd as [_ Hnd].
        unfold used in Hnd. apply NoDup_app in Hnd as (_ & Hd & _). by apply (Hd l). }
    apply ok_ret, HQ; [|by destruct (a <=? b)].
    destruct (Z.leb_spec a b) as [Hab|Hab]; cbn; apply Hrep.
    + left. apply clear_sorted. tauto.
    + destruct Hfl as [?|[? Hs]]; [by left|right]. split; [done|]. unfold values. rewrite fmap_app. apply StronglySorted_app.
      split_and!; [|done|by repeat constructor]. intros c d Hc ->%list_elem_of_singleton. destruct L as [|n L _] using rev_ind; [done|].
      rewrite last_snoc in El. injection El as ->. rewrite fmap_app in Hc. apply elem_of_app in Hc as [Hc|Hc%list_elem_of_singleton]; [|cbn in *; subst; lia].
      unfold values in Hs. rewrite fmap_app in Hs. apply StronglySorted_app in Hs as (Hlt & _ & _). cbn.
      specialize (Hlt c b Hc ltac:(apply list_elem_of_here)). lia.
  - rewrite Hlast. cbn. apply last_None in El. subst L. cbn [app] in *. apply ok_ret, HQ; [|done].
    constructor; cbn; [done| |done|done|done|done|].
    + split; [done|]. by exists None, lft.
    + destruct Hfl as [?|[? _]]; [by left|right]. split; [done|]. by repeat constructor.
Qed.

Lemma insert_spec bm bl w p L F a (Q : RowSet -> world -> Prop) : rep bm bl w p L F ->
  (forall x p' w', rep bm bl w' p' (L ++ [(x, a)]) F -> iBatch p' = iBatch p -> Q p' w') ->
  (forall w', failed w w' -> rep bm bl w' p L F -> Q p w') -> ok (sqlite3RowSetInsert p a) w Q.
Proof.
  intros Hr Hyes Hno. apply ok_bind, ok_assert; [by rewrite (rep_no_next _ _ _ _ _ _ Hr)|].
  destruct Hr as [Hp HL Hlast HF Hg Hnd Hfl]. apply ok_bind. eapply entry_alloc_spec; [exact Hp| |].
  - intros x p' w' Hp' (E1 & E2 & E3 & E4 & E5) Hsame [e Hx] Hxs.
    assert (Hnd' : NoDup (x :: used L F)) by by apply NoDup_cons.
    do 2 (apply ok_bind, ok_on_mem; eapply ok_put_field; [first [exact Hx|cbn; by rewrite lookup_insert_eq]|]). cbn [mem with_mem]. rewrite insert_insert_eq.
    set (h1 := <[x := _]> (mem w')). assert (Hc1 : changes [x] (mem w') h1) by by eapply changes_insert.
    assert (Hsame1 : forall z, z ∈ used L F -> h1 !! z = mem w !! z).
    { intros z Hz. rewrite (proj2 Hc1); [by apply Hsame|]. rewrite list_elem_of_singleton. by intros ->. }
    change (with_mem h1 (with_mem (<[x:=set_v a e]> (mem w')) w')) with (with_mem h1 w').
    apply (link_spec bm bl (with_mem h1 w') p' L F x a).
    + eapply pool_changes; [exact Hp'|]. eapply changes_mono; [|exact Hc1]. intros z ->%list_elem_of_singleton. apply list_elem_of_here.
    + cbn. rewrite E1. eapply lseg_same; [|exact HL]. intros z Hz. apply Hsame1. unfold used. apply elem_of_app. by left.
    + by rewrite E2.
    + cbn. rewrite E3. eapply fseg_same; [|exact HF]. intros z Hz. apply Hsame1. unfold used. apply elem_of_app. by right.
    + done.
    + done.
    + by rewrite E4.
    + cbn. exists (pLeft e). unfold h1. by rewrite lookup_insert_eq.
    + intros p2 w2 Hr2 Hb2. apply (Hyes x); [done|congruence].
  - intros w' Hf Hm Hp'. apply ok_ret, Hno; [done|]. constructor; try done; by rewrite Hm.
Qed.

Lemma fseg_relink h F l e q : forall p, fseg h p F None -> last (heads F) = Some l -> h !! l = Some e -> NoDup (heads F ++ locs (fnodes F)) ->
  fseg (<[l := set_right q e]> h) p F q.
Proof.
  induction F as [|[x t] F IH]; intros p; [done|]. intros (-> & a & next & lft & Hx & Ht & HF) Hlast Hl Hnd.
  cbn [heads fmap list_fmap fst fnodes foldr snd app] in Hlast, Hnd. fold (heads F) (fnodes F) in Hlast, Hnd.
  apply NoDup_cons in Hnd as [Hx' Hnd]. rewrite locs_app in *. rewrite !elem_of_app in Hx'.
  assert (Hc : changes [l] h (<[l := set_right q e]> h)) by by eapply changes_insert.
  rewrite (Permutation_app_comm (locs (flat t))), app_assoc in Hnd. apply NoDup_app in Hnd as (HndF & Hdt & Hndt).
  assert (Hlt : l ∉ locs (flat t)).
  { intros Hin. destruct (last (heads F)) as [l'|] eqn:El; rewrite last_cons, El in Hlast; injection Hlast as ->; [|tauto].
    apply (Hdt l); [|done]. apply elem_of_app. left. by apply last_Some_elem_of. }
  split; [done|]. destruct F as [|yt F].
  - injection Hlast as <-. rewrite Hx in Hl. injection Hl as <-. exists a, q, lft. rewrite lookup_insert_eq. split; [done|].
    split; [|done]. eapply shape_changes; [done| |done]. by apply apart_single.
  - change (last (x :: heads (yt :: F))) with (last (heads (yt :: F))) in Hlast. exists a, next, lft. rewrite lookup_insert_ne.
    + split; [done|]. split; [eapply shape_changes; [done| |done]; by apply apart_single|]. by apply IH.
    + intros ->. apply Hx'. left. by apply last_Some_elem_of.
Qed.

(** Assigning the new tree to the end of the forest. *)
Lemma hang_spec (p : ptr) F h x (Q : ptr -> heap -> Prop) : fseg h p F None -> NoDup (heads F ++ locs (fnodes F)) -> x ∉ heads F ++ locs (fnodes F) ->
  (forall r h', fseg h' r F (Some x) -> changes (heads F) h h' -> Q r h') ->
  ok (assign (default Local (Right <$> last (heads F))) (Some x) p) h Q.
Proof.
  intros HF Hnd Hx HQ. destruct (last (heads F)) as [l|] eqn:El; cbn [fmap option_fmap option_map default from_option assign].
  - destruct (fseg_dom _ _ _ _ l HF) as [e He]; [by apply last_Some_elem_of|]. apply ok_bind. eapply ok_put_field; [done|].
    apply ok_ret, HQ; [by apply fseg_relink|]. eapply changes_mono; [|by eapply changes_insert]. intros z ->%list_elem_of_singleton.
    by apply last_Some_elem_of.
  - apply last_None in El. unfold heads in El. apply fmap_nil_inv in El. subst F. apply ok_ret, HQ; [done|apply changes_refl].
Qed.

Lemma plant_spec w (p : RowSet) F x y (L : list node) (Q : RowSet -> world -> Prop) : fseg (mem w) (pForest p) F None -> slist (mem w) (Some y) L ->
  fnodes F = [] -> NoDup (x :: used L F) -> is_Some (mem w !! x) ->
  (forall (r : ptr) t h', fseg h' r (F ++ [(x, t)]) None -> flat t = L -> balanced t -> changes (x :: used L F) (mem w) h' ->
     Q (set_forest r p) (with_mem h' w)) ->
  ok (forest ← on_mem (assign (default Local (Right <$> last (heads F))) (Some x) (pForest p));
      let p := set_forest forest p in
      _ ← on_mem (put (set_v 0) x);
      _ ← on_mem (put (set_right None) x);
      root ← on_mem (rowSetListToTree y);
      _ ← on_mem (put (set_left (Some root)) x);
      mret p) w Q.
Proof.
  intros HF [HL HsL] Hfn Hnd [e Hx] HQ. unfold used in *. rewrite Hfn in *. cbn [locs fmap list_fmap] in *. rewrite app_nil_r in *.
  apply NoDup_cons in Hnd as [Hx' Hnd]. apply NoDup_app in Hnd as (HndL & Hd & HndF). rewrite elem_of_app in Hx'.
  apply ok_bind, ok_on_mem. eapply hang_spec; [exact HF|rewrite Hfn; cbn; by rewrite app_nil_r|rewrite Hfn; cbn; rewrite app_nil_r; tauto|].
  intros r h1 HF1 Hc1. cbv zeta. assert (Hx1 : h1 !! x = Some e) by (rewrite (proj2 Hc1); tauto).
  do 2 (apply ok_bind, ok_on_mem; eapply ok_put_field; [first [exact Hx1|cbn; by rewrite lookup_insert_eq]|]). cbn [mem with_mem]. rewrite insert_insert_eq.
  set (h2 := <[x := _]> h1). assert (Hc2 : changes [x] h1 h2) by by eapply changes_insert.
  assert (HLx : apart (locs L) [x]) by (apply apart_single; tauto).
  apply ok_bind, ok_on_mem. cbn [mem with_mem]. eapply list_to_tree_spec; [|exact HndL|].
  { eapply lseg_changes; [done|done|]. eapply lseg_changes; [done| |done]. exact Hd. }
  intros root t h3 Ht Hflat Hbal Hc3. assert (Hx3 : h3 !! x = Some (Entry (Some 0) (Some None) (pLeft e))).
  { rewrite (proj2 Hc3) by tauto. unfold h2. by rewrite lookup_insert_eq. }
  apply ok_bind, ok_on_mem. cbn [mem with_mem]. eapply ok_put_field; [done|]. set (h4 := <[x := _]> h3).
  assert (Hc4 : changes [x] h3 h4) by by eapply changes_insert. apply ok_ret, (HQ r t h4); [|done|done|].
  - apply fseg_app. exists (Some x). split.
    + eapply fseg_changes; [exact Hc4| |eapply fseg_changes; [exact Hc3| |eapply fseg_changes; [exact Hc2| |done]]];
        rewrite Hfn; cbn; rewrite app_nil_r; [apply apart_single; tauto| |apply apart_single; tauto]. intros z Hz HzL. by apply (Hd z).
    + split; [done|]. exists 0, None, (Some root). unfold h4. rewrite lookup_insert_eq. split; [done|]. split; [|done].
      eapply shape_changes; [done| |done]. by rewrite Hflat.
  - assert (Hin : forall ls, ls = heads F \/ ls = [x] \/ ls = locs L -> ls ⊆ x :: locs L ++ heads F).
    { intros ls Hls z Hz. rewrite elem_of_cons, elem_of_app. destruct Hls as [->|[->| ->]]; [tauto| |tauto].
      apply list_elem_of_singleton in Hz. tauto. }
    apply changes_trans with h1; [|apply changes_trans with h2; [|apply changes_trans with h3]]; (eapply changes_mono; [|done]); apply Hin; auto.
Qed.

Lemma used_reduces L K F G : heads G = heads F -> reduces (K ++ fnodes G) (L ++ fnodes F) -> used K G ⊆+ used L F.
Proof.
  intros Hh [Hr _]. unfold used. rewrite Hh, !(Permutation_app_comm (heads F)), !app_assoc, <- !locs_app.
  apply submseteq_app; [|done]. by apply fmap_submseteq.
Qed.

Lemma submseteq_subseteq (ls ks : list loc) : ls ⊆+ ks -> ls ⊆ ks.
Proof. intros H x Hx. by eapply elem_of_submseteq. Qed.

Lemma submseteq_nodup (ls ks : list loc) : ls ⊆+ ks -> NoDup ks -> NoDup ls.
Proof. intros [K HK]%submseteq_Permutation Hnd. rewrite HK in Hnd. by apply NoDup_app in Hnd as [? _]. Qed.

Lemma set_sorted f : f = 0 \/ f = 1 -> u16 (Z.lor f ROWSET_SORTED) = 1.
Proof. intros [-> | ->]; done. Qed.

(** The list, sorted if it has to be. *)
Lemma sorted_list_spec bm bl w p L F x (Q : loc -> world -> Prop) : rep bm bl w p L F -> pEntry p = Some x -> Z.of_nat (length L) < 2 ^ 40 ->
  (forall y K h, slist h (Some y) K -> reduces K L -> changes (locs L) (mem w) h -> Q y (with_mem h w)) ->
  ok (match flag p ROWSET_SORTED with
      | false => r ← on_mem (rowSetEntrySort (Some x)); the r
      | true => mret x
      end) w Q.
Proof.
  intros [Hp HL Hlast HF Hg Hnd Hfl] Hx Hlen HQ. rewrite Hx in HL. destruct (flag p ROWSET_SORTED) eqn:Ef.
  - apply ok_ret. replace w with (with_mem (mem w) w) by by destruct w. apply (HQ x L); [|apply reduces_refl|apply changes_refl].
    split; [done|]. destruct Hfl as [E|[_ ?]]; [|done]. unfold flag in Ef. by rewrite E in Ef.
  - apply ok_bind, ok_on_mem. eapply sort_spec; [exact HL| |done|].
    { unfold used in Hnd. by apply NoDup_app in Hnd as [? _]. }
    intros r K h HK Hr Hc. destruct r as [y|]; [by apply ok_the with y; [|apply (HQ y K)]|].
    destruct HK as [HK _]. apply lst_null in HK. subst K. apply reduces_nil in Hr. by subst L.
Qed.

(** The last assignments of a new batch. *)
Definition finish (p : RowSet) : RowSet := set_flags (Z.lor (rsFlags p) ROWSET_SORTED) (set_list None None p).

Lemma finish_rep bm bl w p G ls : pool bm bl w (owned p) (pFresh p) (nFresh p) ls -> used [] G ⊆ ls -> fseg (mem w) (pForest p) G None ->
  good G -> NoDup (used [] G) -> rsFlags p = 0 \/ rsFlags p = 1 -> rep bm bl w (finish p) [] G.
Proof.
  intros Hp Hsub HG Hg Hnd Hfl. constructor; cbn; [|done|done|done|done|done|right; split; [by apply set_sorted|constructor]].
  change (owned _) with (owned p). by eapply pool_sub.
Qed.

Lemma used_snoc K G x t : fnodes G = [] -> flat t = K -> used [] (G ++ [(x, t)]) ≡ₚ x :: used K G.
Proof.
  intros Hfn <-. unfold used. rewrite heads_app, fnodes_app, Hfn. cbn. rewrite !app_nil_r, <- app_assoc. cbn.
  by rewrite <- Permutation_middle, (Permutation_app_comm (heads G)).
Qed.

(** All trees are empty: the list becomes a new one, or is lost when there is no memory. *)
Lemma new_tree_spec bm bl w p y K G (Q : RowSet -> world -> Prop) : pool bm bl w (owned p) (pFresh p) (nFresh p) (used K G) ->
  NoDup (used K G) -> fseg (mem w) (pForest p) G None -> good G -> fnodes G = [] -> slist (mem w) (Some y) K ->
  rsFlags p = 0 \/ rsFlags p = 1 ->
  (forall p' w' G', rep bm bl w' (finish p') [] G' -> fnodes G' = K \/ failed w w' /\ fnodes G' = [] -> Q p' w') ->
  ok ('(pTree, p) ← rowSetEntryAlloc p;
      forest ← on_mem (assign (default Local (Right <$> last (heads G))) pTree (pForest p));
      let p := set_forest forest p in
      match pTree with
      | None => mret p
      | Some t =>
        _ ← on_mem (put (set_v 0) t);
        _ ← on_mem (put (set_right None) t);
        root ← on_mem (rowSetListToTree y);
        _ ← on_mem (put (set_left (Some root)) t);
        mret p
      end) w Q.
Proof.
  intros Hp Hnd HG Hg Hfn HK Hfl HQ. assert (HndG : NoDup (used [] G)) by (unfold used in *; by apply NoDup_app in Hnd as (_ & _ & ?)).
  assert (HsubG : used [] G ⊆ used K G) by (unfold used; intros z Hz; apply elem_of_app; by right).
  apply ok_bind. eapply entry_alloc_spec; [exact Hp| |].
  - intros x' p3 w3 Hp3 (E1 & E2 & E3 & E4 & E5) Hsame Hx' Hxu.
    assert (Hnd3 : NoDup (x' :: used K G)) by by apply NoDup_cons.
    apply (plant_spec w3 p3 G x' y K); [| |done|done|done|].
    + rewrite E3. eapply fseg_same; [|exact HG]. intros z Hz. apply Hsame, HsubG. exact Hz.
    + destruct HK as [HK Hs']. split; [|done]. eapply lseg_same; [|exact HK]. intros z Hz. apply Hsame. apply elem_of_app. by left.
    + intros r t h4 HG4 Hflat Hbal Hc4. pose proof (used_snoc K G x' t Hfn Hflat) as Hp4. apply HQ with (G ++ [(x', t)]).
      * apply finish_rep with (x' :: used K G); [by apply (pool_changes bm bl w3)|intros z; by rewrite Hp4|done| |by rewrite Hp4|by cbn; rewrite E4].
        apply Forall_app. split; [done|]. apply Forall_cons. split; [|constructor]. split; cbn; [|done]. rewrite Hflat. apply HK.
      * left. rewrite fnodes_app, Hfn. cbn. by rewrite app_nil_r.
  - intros w3 Hf Hm Hp3. apply ok_bind, ok_on_mem. destruct (last (heads G)) as [l|] eqn:El; cbn [fmap option_fmap option_map default from_option assign].
    + destruct (fseg_dom _ _ _ _ l HG) as [e He]; [by apply last_Some_elem_of|]. apply ok_bind. eapply ok_put_field; [by rewrite Hm|].
      apply ok_ret, ok_ret, HQ with G; [|by right]. apply finish_rep with (used K G); [|done| |done|done|done].
      * apply (pool_changes bm bl w3); [exact Hp3|]. eapply changes_mono; [|eapply changes_insert; by rewrite Hm].
        intros z ->%list_elem_of_singleton. apply HsubG. unfold used. cbn. apply elem_of_app. left. by apply last_Some_elem_of.
      * cbn. rewrite Hm. by apply (fseg_relink _ _ _ _ None).
    + apply last_None in El. unfold heads in El. apply fmap_nil_inv in El. subst G. cbn in HG.
      apply ok_ret, ok_ret, HQ with []; [|by right]. eapply finish_rep; [|by intros z ?%elem_of_nil|done|done|done|done].
      eapply pool_changes; [exact Hp3|apply changes_refl].
Qed.

Lemma new_batch_spec bm bl w p L F x (Q : RowSet -> world -> Prop) : rep bm bl w p L F -> pEntry p = Some x -> Z.of_nat (length L) < 2 ^ 40 ->
  (forall p' w' G, rep bm bl w' p' [] G -> reduces (fnodes G) (L ++ fnodes F) \/ failed w w' /\ fnodes G = [] -> Q p' w') ->
  ok (new_batch p x) w Q.
Proof.
  intros Hrep Hx Hlen HQ. apply ok_bind. eapply sorted_list_spec; [done|done|done|]. intros y K h1 HK HrK Hc1.
  destruct Hrep as [Hp HL Hlast HF Hg Hnd Hfl]. pose proof Hnd as Hnd0. unfold used in Hnd0. apply NoDup_app in Hnd0 as (HndL & HdL & HndF).
  assert (HrKF : reduces (K ++ fnodes F) (L ++ fnodes F)) by (apply reduces_app; [done|apply reduces_refl]).
  assert (HsubK : used K F ⊆+ used L F) by by apply used_reduces.
  assert (HF1 : fseg h1 (pForest p) F None).
  { eapply fseg_changes; [done| |done]. intros z Hz HzL. by apply (HdL z). }
  assert (Hpool : forall h, changes (used K F) h1 h -> pool bm bl (with_mem h w) (owned p) (pFresh p) (nFresh p) (used L F)).
  { intros h Hc. apply pool_changes; [done|]. apply changes_trans with h1; (eapply changes_mono; [|done]); [|by apply submseteq_subseteq].
    intros z Hz. unfold used. apply elem_of_app. by left. }
  assert (Hfl' : rsFlags p = 0 \/ rsFlags p = 1) by tauto.
  apply ok_bind, ok_on_mem, ok_bound, ok_bind, ok_on_mem. cbn [mem with_mem].
  apply (forest_loop_spec _ F h1 Local (pForest p) y K); [|done|done|done|by eapply submseteq_nodup| |].
  - pose proof (locs_bound h1 (heads F)) as Hb. unfold heads in Hb. rewrite length_fmap in Hb. apply Nat.lt_succ_r, Hb.
    + by apply NoDup_app in HndF as [? _].
    + intros z Hz. by eapply fseg_dom.
  - intros pl x' y' G h2 HG Hg2 Hh2 Hr2 Hc2. assert (HrL : reduces (fnodes G) (L ++ fnodes F)) by by eapply reduces_trans.
    assert (Hsub : used [] G ⊆+ used L F) by by apply used_reduces.
    apply ok_bind, ok_ret, ok_ret, HQ with G; [|by left].
    apply finish_rep with (used L F); [by apply Hpool|by apply submseteq_subseteq|done|done|by eapply submseteq_nodup|done].
  - intros y' K' G h2 HG Hh2 Hfn Hg2 HK' Hr2 Hc2. rewrite <- Hh2. assert (HrL : reduces K' (L ++ fnodes F)) by by eapply reduces_trans.
    assert (Hsub : used K' G ⊆+ used L F) by (apply used_reduces; [done|]; rewrite Hfn, app_nil_r; exact HrL).
    apply ok_bind. apply (new_tree_spec bm bl (with_mem h2 w) p y' K' G); try done.
    + eapply pool_sub; [by apply Hpool|by apply submseteq_subseteq].
    + by eapply submseteq_nodup.
    + intros p' w' G' Hr' Hcase. apply ok_ret, HQ with G'; [done|]. destruct Hcase as [->|[Hf ->]]; [by left|right; split; [exact Hf|done]].
Qed.

(** *** Tests *)

(** The set of the values in the forest, and the values inserted since the last batch, in order. *)
Definition represents bm bl w p (pending : list Z) (seen : gset Z) : Prop :=
  exists L F, rep bm bl w p L F /\ values L = pending /\ forall a, a ∈ values (fnodes F) <-> a ∈ seen.

Lemma search_spec bm bl w p L F (s : gset Z) a (Q : bool * RowSet -> world -> Prop) : rep bm bl w p L F ->
  (forall c, c ∈ values (fnodes F) <-> c ∈ s) -> Q (bool_decide (a ∈ s), p) w ->
  ok (fuel ← on_mem bound; found ← on_mem (search_forest fuel (pForest p) a); mret (found, p)) w Q.
Proof.
  intros [Hp HL Hlast HF Hg Hnd Hfl] Hs HQ. unfold used in Hnd. apply NoDup_app in Hnd as (_ & _ & (Hndh & _ & Hndf)%NoDup_app).
  assert (Hw : forall w0, with_mem (mem w0) w0 = w0) by by intros [].
  apply ok_bind, ok_on_mem, ok_bound. rewrite Hw. apply ok_bind, ok_on_mem. eapply search_forest_spec; [done|done|done| |].
  - pose proof (locs_bound (mem w) (heads F)) as Hb. unfold heads in Hb. rewrite length_fmap in Hb. apply Nat.lt_succ_r, Hb; [done|].
    intros z Hz. by eapply fseg_dom.
  - intros found Hf. rewrite Hw. apply ok_ret. rewrite Hs in Hf. replace found with (bool_decide (a ∈ s)); [done|].
    destruct found; [by apply bool_decide_eq_true, Hf|]. apply bool_decide_eq_false. intros Ha%Hf. done.
Qed.

Lemma rep_batch bm bl w p L F b : rep bm bl w p L F -> rep bm bl w (set_batch b p) L F.
Proof. intros [? ? ? ? ? ? ?]. by constructor. Qed.

Lemma tests_spec bm bl w p pending seen b a (Q : bool * RowSet -> world -> Prop) : represents bm bl w p pending seen ->
  Z.of_nat (length pending) < 2 ^ 40 ->
  (forall p' w' s, iBatch p' = b -> represents bm bl w' p' (if b =? iBatch p then pending else []) s ->
     s = (if b =? iBatch p then seen else list_to_set pending ∪ seen) \/ failed w w' /\ s = ∅ ->
     Q (bool_decide (a ∈ s), p') w') ->
  ok (sqlite3RowSetTest p b a) w Q.
Proof.
  intros (L & F & Hr & HvL & HvF) Hlen HQ. apply ok_bind, ok_assert; [by rewrite (rep_no_next _ _ _ _ _ _ Hr)|].
  rewrite <- HvL in Hlen. unfold values in Hlen. rewrite length_fmap in Hlen.
  destruct (Z.eqb_spec b (iBatch p)) as [E|Hne]; cbn [negb].
  - apply ok_bind, ok_ret. eapply search_spec; [done|done|]. apply HQ; [done| |by left]. by exists L, F.
  - apply ok_bind, ok_bind. destruct (pEntry p) as [x|] eqn:Ex.
    + eapply new_batch_spec; [done|done|done|]. intros p' w' G Hr' Hcase. apply ok_ret.
      apply (search_spec bm bl w' (set_batch b p') [] G (list_to_set (values (fnodes G)))); [by apply rep_batch| |].
      { intros c. by rewrite elem_of_list_to_set. }
      apply HQ; [done| |].
      * exists [], G. split; [by apply rep_batch|]. split; [done|]. intros c. by rewrite elem_of_list_to_set.
      * destruct Hcase as [Hred|[Hf ->]]; [left|by right]. apply set_eq. intros c.
        rewrite elem_of_list_to_set, (reduces_values _ _ _ Hred), values_app, elem_of_app, elem_of_union, elem_of_list_to_set.
        by rewrite HvL, HvF.
    + pose proof (rep_list _ _ _ _ _ _ Hr) as HL. rewrite Ex in HL. apply lst_null in HL. subst L. cbn in HvL. subst pending.
      apply ok_ret, ok_ret. eapply (search_spec bm bl w (set_batch b p) [] F); [by apply rep_batch|exact HvF|].
      apply HQ; [done| |].
      * exists [], F. split; [by apply rep_batch|done].
      * left. cbn. set_solver.
Qed.

(** *** Taking out the values *)

(** Only the list is left: [K], sorted. *)
Record drains bm bl w (p : RowSet) (K : list node) : Prop := {
  drains_owns : owns bm bl w (owned p);
  drains_list : slist (mem w) (pEntry p) K;
  drains_forest : pForest p = None;
  drains_flags : rsFlags p = 1 \/ rsFlags p = 3
}.
Lemma next_drains bm bl w p K (Q : option Z * RowSet -> world -> Prop) : drains bm bl w p K ->
  (forall p' w', drains bm bl w' p' (tail K) -> (tail K = [] -> K <> [] -> pChunk p' = []) -> (K = [] -> pChunk p' = pChunk p) ->
     self p' = self p -> Q (snd <$> head K, p') w') ->
  ok (sqlite3RowSetNext p) w Q.
Proof.
  intros [Hown [HK HsK] HF Hfl] HQ. apply ok_bind, ok_assert; [by apply bool_decide_eq_true|]. apply ok_bind.
  assert (Hrest : forall f, f = 1 \/ f = 3 -> let p := mkRowSet (self p) (pChunk p) (pEntry p) (pLast p) (pFresh p) (pForest p) (nFresh p) f (iBatch p) in
    ok (match pEntry p with
      | Some x =>
        rowid ← on_mem (get v x);
        next ← on_mem (get pRight x);
        let p := set_list next (pLast p) p in
        p ← (match next with None => sqlite3RowSetClear p | Some _ => mret p end);
        mret (Some rowid, p)
      | None => mret (None, p)
      end) w Q).
  { intros f Hf p1. cbn [pEntry p1]. assert (Hw : with_mem (mem w) w = w) by by destruct w.
    destruct K as [|[x a] K].
    - cbn in HK. rewrite HK. apply ok_ret, (HQ p1 w); [|done|done|done]. by constructor.
    - destruct HK as (-> & next & lft & Hx & HK). apply sorted_cons in HsK as [HsK _].
      do 2 (apply ok_bind, ok_on_mem; eapply ok_get_field; [exact Hx|reflexivity|]; rewrite Hw). cbv zeta. apply ok_bind.
      destruct next as [next|].
      + apply ok_ret, ok_ret, HQ; [by constructor| |done|done]. intros E. cbn in E. by rewrite E in HK.
      + assert (K = []) as -> by (destruct K as [|[? ?] ?]; [done|by destruct HK]).
        apply ok_bind. cbn [set_list pChunk p1]. apply (free_chunks_spec bm bl (pChunk p) w [self p]).
        { eapply owns_perm; [|exact Hown]. unfold owned. by rewrite Permutation_app_comm. }
        intros w' Hw'. apply ok_ret, ok_ret, HQ; [|done|done|done]. constructor; [done|by split; [|constructor]|done|by left]. }
  destruct Hfl as [E|E]; unfold flag; rewrite E.
  - change (negb (Z.land 1 ROWSET_NEXT =? 0)) with false. change (negb (Z.land 1 ROWSET_SORTED =? 0)) with true. cbn [negb].
    apply ok_bind, ok_ret, ok_ret. unfold set_flags. rewrite E. change (u16 _) with 3. apply Hrest. by right.
  - change (negb (Z.land 3 ROWSET_NEXT =? 0)) with true. apply ok_ret. specialize (Hrest 3 (or_intror eq_refl)). cbv zeta in Hrest.
    destruct p as [? ? ? ? ? ? ? f ?]. cbn in E. subst f. exact Hrest.
Qed.

(** The first call sorts the list. *)
Lemma next_first bm bl w p L : rep bm bl w p L [] -> Z.of_nat (length L) < 2 ^ 40 ->
  exists p' w' K, drains bm bl w' p' K /\ reduces K L /\ sqlite3RowSetNext p w = sqlite3RowSetNext p' w' /\ self p' = self p.
Proof.
  intros [Hp HL Hlast HF Hg Hnd Hfl] Hlen. cbn in HF. destruct Hfl as [E|[E Hs]].
  2: { exists p, w, L. split; [|split; [apply reduces_refl|done]]. constructor; [apply Hp|done|done|by left]. }
  assert (Hsort : ok (rowSetEntrySort (pEntry p)) (mem w) (fun r h => exists K, slist h r K /\ reduces K L /\ changes (locs L) (mem w) h)).
  { eapply sort_spec; [done| |done|eauto]. unfold used in Hnd. by apply NoDup_app in Hnd as [? _]. }
  apply ok_result in Hsort as (r & h & Hrun & K & HK & Hr & Hc).
  exists (set_flags 3 (set_list r (pLast p) p)), (with_mem h w), K. split; [|split; [done|split; [|done]]].
  - constructor; [|done|done|by right]. change (owned _) with (owned p). eapply owns_changes; [apply Hp|done|].
    intros x Hx. apply (pool_used _ _ _ _ _ _ _ Hp). unfold used. apply elem_of_app. by left.
  - unfold sqlite3RowSetNext, mbind, St_bind, assert_ok. cbn [set_flags set_list pForest]. rewrite bool_decide_true by done.
    unfold flag. rewrite E. change (negb (Z.land 0 ROWSET_NEXT =? 0)) with false. change (negb (Z.land 0 ROWSET_SORTED =? 0)) with false.
    change (negb (Z.land (rsFlags _) ROWSET_NEXT =? 0)) with true. cbn [mret St_ret]. unfold on_mem, on_part at 1. rewrite Hrun. cbn.
    by rewrite E.
Qed.

Lemma insert_represents bm bl w p pending seen a (Q : RowSet -> world -> Prop) : represents bm bl w p pending seen ->
  (forall p' w', represents bm bl w' p' (pending ++ [a]) seen -> iBatch p' = iBatch p -> Q p' w') ->
  (forall w', failed w w' -> represents bm bl w' p pending seen -> Q p w') -> ok (sqlite3RowSetInsert p a) w Q.
Proof.
  intros (L & F & Hr & HvL & HvF) Hyes Hno. eapply insert_spec; [exact Hr| |].
  - intros x p' w' Hr' Hb. apply Hyes; [|done]. exists (L ++ [(x, a)]), F. split; [done|]. rewrite values_app, HvL. done.
  - intros w' Hf Hr'. apply Hno; [done|]. by exists L, F.
Qed.

Fixpoint insert_all (rows : list Z) (p : RowSet) : St world RowSet :=
  match rows with [] => mret p | a :: rows => p ← sqlite3RowSetInsert p a; insert_all rows p end.
Fixpoint take_out (n : nat) (p : RowSet) : St world (list (option Z) * RowSet) :=
  match n with
  | O => mret ([], p)
  | S n => '(r, p) ← sqlite3RowSetNext p; '(rs, p) ← take_out n p; mret (r :: rs, p)
  end.

Lemma insert_all_spec bm bl rows : (forall k, malloc k = true) -> forall w p L, rep bm bl w p L [] ->
  ok (insert_all rows p) w (fun p' w' => exists L', rep bm bl w' p' L' [] /\ values L' = values L ++ rows).
Proof.
  intros Hm. induction rows as [|a rows IH]; intros w p L Hr; cbn [insert_all].
  - apply ok_ret. exists L. by rewrite app_nil_r.
  - apply ok_bind. eapply insert_spec; [done| |].
    + intros x p' w' Hr' _. eapply ok_mono; [by apply IH|]. intros p2 w2 (L' & Hr2 & HL'). exists L'. split; [done|].
      by rewrite HL', values_app, <- app_assoc.
    + intros w' (k & _ & Hk). by rewrite Hm in Hk.
Qed.

Lemma drain_all bm bl n : forall w p K, drains bm bl w p K ->
  ok (take_out n p) w (fun r w' => r.1 = (Some <$> take n (values K)) ++ replicate (n - length K) None /\ drains bm bl w' r.2 (drop n K) /\
    ((length K <= n)%nat -> K <> [] -> pChunk r.2 = []) /\ (K = [] -> pChunk r.2 = pChunk p)).
Proof.
  induction n as [|n IH]; intros w p K HK; cbn [take_out].
  - apply ok_ret. cbn. split; [by rewrite take_0|]. split; [done|]. split; [|done]. destruct K; cbn; [done|lia].
  - apply ok_bind. eapply next_drains; [done|]. intros p1 w1 HK1 Hlast Hnil _. apply ok_bind.
    eapply ok_mono; [by apply IH|]. intros [rs p2] w2 (Hrs & HK2 & Hc & Hc'). cbn in Hrs, HK2, Hc, Hc'. apply ok_ret. cbn [fst snd].
    destruct K as [|[x a] K]; cbn in *.
    + rewrite take_nil in Hrs. rewrite Hrs. cbn. rewrite Nat.sub_0_r. split; [done|]. rewrite drop_nil in HK2. split; [done|].
      split; [done|]. intros _. rewrite Hc' by done. by apply Hnil.
    + split; [by rewrite Hrs|]. split; [done|]. split; [|done]. intros Hn _. destruct K; [by rewrite Hc', Hlast|]. apply Hc; [lia|done].
Qed.

(** Before a set is created: entries only in live allocations, and the counter is ahead of them. *)
Definition sound (w : world) : Prop := owns (mem w) (live w) w [].

(** C21: row numbers in batches.  A set that is created is empty.  Inserting adds a number to those of
    the current batch, or does nothing when there is no memory.  A test with another batch number
    sees all numbers inserted before it, one with the same batch number those it saw before, and
    the answer is whether the number is among them; when there is no memory for the new batch the set
    is emptied.  Lists and trees are never broken, every assertion holds, a search takes no more steps than
    a balanced tree of all entries has levels, and destroying the set frees everything it
    allocated. *)
Theorem rowset_batches bm bl w p pending seen :
  (sound w -> ok sqlite3RowSetInit w (fun r w' =>
     (exists p, r = Some p /\ represents (mem w) (live w) w' p [] ∅ /\ iBatch p = 0) \/
     r = None /\ failed w w' /\ mem w' = mem w /\ live w' = live w)) /\
  (represents bm bl w p pending seen ->
     (forall a, ok (sqlite3RowSetInsert p a) w (fun p' w' =>
        represents bm bl w' p' (pending ++ [a]) seen /\ iBatch p' = iBatch p \/ represents bm bl w' p pending seen /\ p' = p /\ failed w w')) /\
     (forall b a, Z.of_nat (length pending) < 2 ^ 40 -> ok (sqlite3RowSetTest p b a) w (fun r w' => exists s,
        r.1 = bool_decide (a ∈ s) /\ iBatch r.2 = b /\ represents bm bl w' r.2 (if b =? iBatch p then pending else []) s /\
        (s = (if b =? iBatch p then seen else list_to_set pending ∪ seen) \/ failed w w' /\ s = ∅))) /\
     ok (sqlite3RowSetDelete p) w (fun _ w' => mem w' = bm /\ live w' = bl)).
Proof.
  split; [intros Hw|intros Hr; split; [|split]].
  - eapply init_spec; [done| |]; [intros p0 w' Hr Hb; left|intros w' Hf Hm Hl; by right].
    exists p0. split; [done|]. split; [|done]. exists [], []. split; [done|]. split; [done|]. intros a. cbn. set_solver.
  - intros a. eapply insert_represents; [exact Hr| |]; [intros p' w' Hr' Hb; by left|intros w' Hf Hr'; by right].
  - intros b a Hlen. eapply tests_spec; [exact Hr|done|]. intros p' w' s Hb Hr' Hs. by exists s.
  - destruct Hr as (L & F & Hr & _). eapply delete_spec; [apply Hr|]. by intros w' -> ->.
Qed.

(** C22: row numbers in order.  Whatever numbers are inserted into a new set, taking out the smallest
    again and again gives each of them once, in increasing order, and then nothing; with the last one
    the set has freed all memory but its own, and destroying it at any time frees everything. *)
Theorem rowset_sorted_output w rows : (forall k, malloc k = true) -> sound w -> Z.of_nat (length rows) < 2 ^ 40 ->
  exists p0 w0 p1 w1 out, sqlite3RowSetInit w = Some (Some p0, w0) /\ insert_all rows p0 w0 = Some (p1, w1) /\
    StronglySorted Z.lt out /\ (forall a, a ∈ out <-> a ∈ rows) /\
    forall n, (0 < n)%nat -> exists p2 w2,
      take_out n p1 w1 = Some ((Some <$> take n out) ++ replicate (n - length out) None, p2, w2) /\
      (out <> [] -> (length out <= n)%nat -> live w2 = {[self p2]} ∪ live w) /\
      exists w3, sqlite3RowSetDelete p2 w2 = Some ((), w3) /\ mem w3 = mem w /\ live w3 = live w.
Proof.
  intros Hm Hw Hlen.
  assert (Hi : ok sqlite3RowSetInit w (fun r w' => exists p, r = Some p /\ rep (mem w) (live w) w' p [] [])).
  { eapply init_spec; [done|by eauto|]. intros w' (k & _ & Hk). by rewrite Hm in Hk. }
  apply ok_result in Hi as (r0 & w0 & Hinit & p0 & -> & Hr0).
  pose proof (insert_all_spec _ _ rows Hm w0 p0 [] Hr0) as Hins. apply ok_result in Hins as (p1 & w1 & Hins & L & Hr1 & HL).
  cbn [values fmap list_fmap app] in HL.
  assert (HlenL : Z.of_nat (length L) < 2 ^ 40) by (rewrite <- HL in Hlen; unfold values in Hlen; by rewrite length_fmap in Hlen).
  destruct (next_first _ _ _ _ _ Hr1 HlenL) as (p1' & w1' & K & HK & Hred & Hnext & Hself).
  assert (Hlocs : length K = length (values K)) by (unfold values; by rewrite length_fmap).
  exists p0, w0, p1, w1, (values K). split; [done|]. split; [done|]. split; [apply HK|]. split.
  { intros a. by rewrite (reduces_values _ _ _ Hred), HL. }
  intros [|n] Hn; [lia|]. pose proof (drain_all _ _ (S n) w1' p1' K HK) as Hdrain.
  apply ok_result in Hdrain as ([rs p2] & w2 & Hrun & Hrs & HK2 & Hc & _). cbn in Hrs, HK2, Hc.
  exists p2, w2. rewrite <- Hlocs. split.
  { cbn [take_out] in *. unfold mbind, St_bind in *. rewrite Hnext, Hrun. by rewrite Hrs. }
  destruct HK2 as [Hown _ _ _]. split.
  - intros Hne Hle. pose proof (owns_live _ _ _ _ Hown) as Hl. rewrite Hl. unfold owned. rewrite Hc; [cbn; set_solver|done|].
    intros ->. done.
  - assert (Hdel : ok (sqlite3RowSetDelete p2) w2 (fun _ w' => mem w' = mem w /\ live w' = live w)).
    { eapply delete_spec; [exact Hown|]. by intros w' -> ->. }
    apply ok_result in Hdel as ([] & w3 & Hd & Hm3 & Hl3). by exists w3.
Qed.

End proofs.

Definition no_world : world := mkWorld ∅ ∅ 0.
Lemma no_world_sound : sound no_world.
Proof. constructor; cbn; try done; [by intros x [? Hx]|constructor]. Qed.

(** 5 is inserted in the first batch and seen by the tests of another. *)
Lemma rowset_batches_witness :
  exists p1 w1 p2 w2 p3 w3, sqlite3RowSetInit 8 (fun _ => true) (fun _ => 100) no_world = Some (Some p1, w1) /\
    sqlite3RowSetInsert 8 (fun _ => true) p1 5 w1 = Some (p2, w2) /\
    sqlite3RowSetTest 8 (fun _ => true) p2 1 5 w2 = Some ((true, p3), w3) /\
    exists p4 w4, sqlite3RowSetTest 8 (fun _ => true) p3 1 6 w3 = Some ((false, p4), w4).
Proof.
  assert (Hno : forall w w', ~ failed (fun _ => true) w w') by by intros w w' (k & _ & Hk).
  assert (Hsize : forall c : nat, sizeof_RowSet 8 <= (fun _ => 100) c) by (intros _; vm_compute; discriminate).
  pose proof (rowset_batches 8 (or_intror eq_refl) (fun _ => true) (fun _ => 100) Hsize ∅ ∅) as Hall.
  destruct (Hall no_world (mkRowSet 0 [] None None (0%nat, 0%nat) None 0 1 0) [] ∅) as [Hinit _].
  apply ok_result in Hinit as (r & w1 & E1 & [(p1 & -> & Hr1 & Hb1)|(_ & Hf & _)]); [|by apply Hno in Hf|exact no_world_sound].
  change (mem no_world) with (∅ : heap) in Hr1. change (live no_world) with (∅ : gset nat) in Hr1.
  destruct (Hall w1 p1 [] ∅) as [_ [Hins _]]; [exact Hr1|]. specialize (Hins 5).
  apply ok_result in Hins as (p2 & w2 & E2 & [[Hr2 Hb2]|(_ & _ & Hf)]); [|by apply Hno in Hf]. cbn [app] in Hr2. rewrite Hb1 in Hb2.
  destruct (Hall w2 p2 [5] ∅) as [_ [_ [Htest _]]]; [exact Hr2|]. specialize (Htest 1 5 ltac:(cbn; lia)).
  apply ok_result in Htest as ([r3 p3] & w3 & E3 & s & Hr & Hb3 & Hr3 & [Hs|[Hf _]]); [|by apply Hno in Hf].
  rewrite Hb2 in Hs, Hr3. cbn in Hs, Hr, Hb3, Hr3. subst s r3.
  destruct (Hall w3 p3 [] ({[5]} ∪ ∅ ∪ ∅)) as [_ [_ [Htest _]]]; [exact Hr3|]. specialize (Htest 1 6 ltac:(cbn; lia)).
  apply ok_result in Htest as ([r4 p4] & w4 & E4 & s & Hr & _ & _ & [Hs|[Hf _]]); [|by apply Hno in Hf].
  rewrite Hb3 in Hs. cbn in Hs, Hr. subst s r4. exists p1, w1, p2, w2, p3, w3. split_and!; [exact E1|exact E2|exact E3|]. by exists p4, w4.
Defined.

(** Five rows, two of them the same, from a set that has room for one entry of its own. *)
Lemma rowset_sorted_output_witness : exists p0 w0 p1 w1 p2 w2,
  sqlite3RowSetInit 8 (fun _ => true) (fun _ => 100) no_world = Some (Some p0, w0) /\
  insert_all 8 (fun _ => true) [30; 10; 20; 10; 40] p0 w0 = Some (p1, w1) /\
  exists out, StronglySorted Z.lt out /\ (forall a, a ∈ out <-> a ∈ [30; 10; 20; 10; 40]) /\
    take_out 5 p1 w1 = Some ((Some <$> take 5 out) ++ replicate (5 - length out) None, p2, w2).
Proof.
  assert (Hsize : forall c : nat, sizeof_RowSet 8 <= (fun _ => 100) c) by (intros _; vm_compute; discriminate).
  destruct (rowset_sorted_output 8 (or_intror eq_refl) (fun _ => true) (fun _ => 100) Hsize no_world [30; 10; 20; 10; 40])
    as (p0 & w0 & p1 & w1 & out & E0 & E1 & Hs & Hin & Hout); [done|exact no_world_sound|cbn; lia|].
  destruct (Hout 5%nat ltac:(lia)) as (p2 & w2 & E2 & _). exists p0, w0, p1, w1, p2, w2. split; [exact E0|]. split; [exact E1|].
  exists out. split; [exact Hs|]. split; [exact Hin|exact E2].
Defined.
