(* ===== verification/HashOps.v ===== *)
(** * HashOps: SQLite's hash tables

    sqlite3.c, hash.c part: elements on one doubly linked list, with the elements of each bucket
    next to each other on it; a table with few elements has no buckets.  A key is the address of
    a string that is not copied: [text] is the string at an address, which stays what it is while
    the table refers to it.  A pointer takes [pointer_size] bytes; [malloc] says which
    allocations succeed and [sqlite3MallocSize] how large they are. *)

From S2P Require Export State.

(** ** Strings *)

(** The table of lower-case letters, in ASCII. *)
Definition sqlite3UpperToLower : list Z := [
    0;  1;  2;  3;  4;  5;  6;  7;  8;  9; 10; 11; 12; 13; 14; 15; 16; 17;
   18; 19; 20; 21; 22; 23; 24; 25; 26; 27; 28; 29; 30; 31; 32; 33; 34; 35;
   36; 37; 38; 39; 40; 41; 42; 43; 44; 45; 46; 47; 48; 49; 50; 51; 52; 53;
   54; 55; 56; 57; 58; 59; 60; 61; 62; 63; 64; 97; 98; 99;100;101;102;103;
  104;105;106;107;108;109;110;111;112;113;114;115;116;117;118;119;120;121;
  122; 91; 92; 93; 94; 95; 96; 97; 98; 99;100;101;102;103;104;105;106;107;
  108;109;110;111;112;113;114;115;116;117;118;119;120;121;122;123;124;125;
  126;127;128;129;130;131;132;133;134;135;136;137;138;139;140;141;142;143;
  144;145;146;147;148;149;150;151;152;153;154;155;156;157;158;159;160;161;
  162;163;164;165;166;167;168;169;170;171;172;173;174;175;176;177;178;179;
  180;181;182;183;184;185;186;187;188;189;190;191;192;193;194;195;196;197;
  198;199;200;201;202;203;204;205;206;207;208;209;210;211;212;213;214;215;
  216;217;218;219;220;221;222;223;224;225;226;227;228;229;230;231;232;233;
  234;235;236;237;238;239;240;241;242;243;244;245;246;247;248;249;250;251;
  252;253;254;255].
Definition UpperToLower (c : Z) : Z := sqlite3UpperToLower !!! Z.to_nat c.

(** A string is the list of its bytes before the terminating zero. *)
Definition is_string (z : list Z) : Prop := Forall (fun c => 0 < c < 256) z.

Fixpoint sqlite3StrICmp (a b : list Z) : Z :=
  match a, b with
  | [], [] => 0
  | [], x :: _ => UpperToLower 0 - UpperToLower x
  | c :: _, [] => UpperToLower c - UpperToLower 0
  | c :: a, x :: b =>
    if c =? x then sqlite3StrICmp a b
    else let c := UpperToLower c - UpperToLower x in
      if c =? 0 then sqlite3StrICmp a b else c
  end.

Fixpoint hash_loop (h : Z) (z : list Z) : Z :=
  match z with
  | [] => h
  | c :: z => hash_loop (u32 (u32 (h + UpperToLower c) * 0x9e3779b1)) z
  end.
Definition strHash (z : list Z) : Z := hash_loop 0 z.

(** ** State *)

(** Elements and arrays of buckets are named by the number of their allocation.  A field that was
    never written is [None]; a null pointer is [Some None]. *)
Notation ptr := (option nat).
Record HashElem := mkElem { next : option ptr; prev : option ptr; data : option Z; pKey : option Z }.
Record _ht := mkHt { bucket_count : Z; chain : ptr }.
Record Hash := mkHash { htsize : Z; count : Z; first : ptr; ht : ptr }.
Notation heap := (gmap nat HashElem).

Definition set_next (q : ptr) (e : HashElem) : HashElem := mkElem (Some q) (prev e) (data e) (pKey e).
Definition set_prev (q : ptr) (e : HashElem) : HashElem := mkElem (next e) (Some q) (data e) (pKey e).
Definition set_data (d : Z) (e : HashElem) : HashElem := mkElem (next e) (prev e) (Some d) (pKey e).
Definition set_key (k : Z) (e : HashElem) : HashElem := mkElem (next e) (prev e) (data e) (Some k).

Definition set_first (q : ptr) (H : Hash) : Hash := mkHash (htsize H) (count H) q (ht H).
Definition set_count (n : Z) (H : Hash) : Hash := mkHash (htsize H) (u32 n) (first H) (ht H).
Definition set_ht (n : Z) (t : ptr) (H : Hash) : Hash := mkHash (u32 n) (count H) (first H) t.

(** The [Hash], the elements and the arrays that were not freed, and the number of allocations so
    far. *)
Record world := mkWorld { pH : Hash; elems : heap; arrays : gmap nat (list _ht); made : nat }.

Definition on_elems {A} : St heap A -> St world A :=
  on_part elems (fun h w => mkWorld (pH w) h (arrays w) (made w)).
Definition hash {A} (field : Hash -> A) : St world A := w ← look; mret (field (pH w)).
Definition set_hash (f : Hash -> Hash) : St world unit :=
  change (fun w => mkWorld (f (pH w)) (elems w) (arrays w) (made w)).
Definition bound : St world nat := w ← look; mret (S (size (elems w))).

Definition free_elem (x : nat) : St world unit :=
  w ← look;
  _ ← the (elems w !! x);
  change (fun w => mkWorld (pH w) (delete x (elems w)) (arrays w) (made w)).
Definition free_array (t : ptr) : St world unit :=
  match t with
  | None => mret ()
  | Some t =>
    w ← look;
    _ ← the (arrays w !! t);
    change (fun w => mkWorld (pH w) (elems w) (delete t (arrays w)) (made w))
  end.

(** A bucket: the array and the index in it. *)
Notation entry := (nat * Z)%type.
Definition get_entry (e : entry) : St world _ht :=
  w ← look; l ← the (arrays w !! e.1); _ ← assert_ok (0 <=? e.2); the (l !! Z.to_nat e.2).
Definition put_entry (e : entry) (b : _ht) : St world unit :=
  _ ← get_entry e;
  change (fun w => mkWorld (pH w) (elems w) (alter <[Z.to_nat e.2 := b]> e.1 (arrays w)) (made w)).

(** ** Creating and clearing *)

Definition sqlite3HashInit : St world unit := set_hash (fun _ => mkHash 0 0 None None).

Fixpoint free_elems (fuel : nat) (elem : ptr) : St world unit :=
  match fuel with
  | O => stuck
  | S fuel =>
    match elem with
    | None => mret ()
    | Some x =>
      next_elem ← on_elems (get_field next x);
      _ ← free_elem x;
      free_elems fuel next_elem
    end
  end.

Definition sqlite3HashClear : St world unit :=
  elem ← hash first;
  _ ← set_hash (set_first None);
  t ← hash ht;
  _ ← free_array t;
  _ ← set_hash (set_ht 0 None);
  fuel ← bound;
  _ ← free_elems fuel elem;
  set_hash (set_count 0).

Section table.
Variable pointer_size : Z.
Variable malloc : nat -> bool.
Variable sqlite3MallocSize : nat -> Z -> Z.
Variable text : Z -> list Z.

Definition SQLITE_MALLOC_SOFT_LIMIT : Z := 1024.
Definition sizeof_ht : Z := 2 * pointer_size.
Definition size_t (z : Z) : Z := wrap (8 * pointer_size) z.

(** ** Linking an element into the table *)

(** [pNew] becomes the element before [pHead], or the first one. *)
Definition link_element (pHead : ptr) (pNew : nat) : St world unit :=
  match pHead with
  | Some s =>
    _ ← on_elems (put_field (set_next (Some s)) pNew);
    before ← on_elems (get_field prev s);
    _ ← on_elems (put_field (set_prev before) pNew);
    _ ← (match before with
      | Some y => on_elems (put_field (set_next (Some pNew)) y)
      | None => set_hash (set_first (Some pNew))
      end);
    on_elems (put_field (set_prev (Some pNew)) s)
  | None =>
    f ← hash first;
    _ ← on_elems (put_field (set_next f) pNew);
    _ ← (match f with Some s => on_elems (put_field (set_prev (Some pNew)) s) | None => mret () end);
    _ ← on_elems (put_field (set_prev None) pNew);
    set_hash (set_first (Some pNew))
  end.

Definition insertElement (pEntry : option entry) (pNew : nat) : St world unit :=
  pHead ← (match pEntry with
    | Some e =>
      b ← get_entry e;
      _ ← put_entry e (mkHt (u32 (bucket_count b + 1)) (Some pNew));
      mret (if bucket_count b =? 0 then None else chain b)
    | None => mret None
    end);
  link_element pHead pNew.

Fixpoint insert_elements (fuel : nat) (new_ht : nat) (new_size : Z) (elem : ptr) : St world unit :=
  match fuel with
  | O => stuck
  | S fuel =>
    match elem with
    | None => mret ()
    | Some x =>
      k ← on_elems (get_field pKey x);
      let h := strHash (text k) mod new_size in
      next_elem ← on_elems (get_field next x);
      _ ← insertElement (Some (new_ht, h)) x;
      insert_elements fuel new_ht new_size next_elem
    end
  end.

(** The array, if there is memory, with its [n] buckets empty. *)
Definition new_array (bytes : Z) : St world (option (nat * Z)) :=
  w ← look;
  let c := made w in
  let n := size_t (sqlite3MallocSize c bytes) / sizeof_ht in
  match malloc c with
  | true =>
    _ ← change (fun w => mkWorld (pH w) (elems w) (<[c := replicate (Z.to_nat n) (mkHt 0 None)]> (arrays w)) (S c));
    mret (Some (c, n))
  | false => _ ← change (fun w => mkWorld (pH w) (elems w) (arrays w) (S c)); mret None
  end.

Definition rehash (new_size : Z) : St world bool :=
  let new_size :=
    if SQLITE_MALLOC_SOFT_LIMIT <? size_t (new_size * sizeof_ht) then u32 (SQLITE_MALLOC_SOFT_LIMIT / sizeof_ht)
    else new_size in
  n ← hash htsize;
  match new_size =? n with
  | true => mret false
  | false =>
    new_ht ← new_array (size_t (new_size * sizeof_ht));
    match new_ht with
    | None => mret false
    | Some (new_ht, n) =>
      t ← hash ht;
      _ ← free_array t;
      let new_size := u32 n in
      _ ← set_hash (set_ht new_size (Some new_ht));
      elem ← hash first;
      _ ← set_hash (set_first None);
      fuel ← bound;
      _ ← assert_ok (bool_decide (elem = None) || negb (new_size =? 0));
      _ ← insert_elements fuel new_ht new_size elem;
      mret true
    end
  end.

(** ** Finding *)

Fixpoint find_loop (count : nat) (elem : ptr) (key : Z) : St world ptr :=
  match count with
  | O => mret None
  | S count =>
    x ← the elem;
    k ← on_elems (get_field pKey x);
    match sqlite3StrICmp (text k) (text key) =? 0 with
    | true => mret (Some x)
    | false => elem ← on_elems (get_field next x); find_loop count elem key
    end
  end.

(** The element, or [None] for the static null element, and the bucket of the key. *)
Definition findElementWithHash (key : Z) : St world (ptr * Z) :=
  t ← hash ht;
  '(h, elem, n) ← (match t with
    | Some t =>
      size ← hash htsize;
      _ ← assert_ok (negb (size =? 0));
      let h := strHash (text key) mod size in
      pEntry ← get_entry (t, h);
      mret (h, chain pEntry, bucket_count pEntry)
    | None => elem ← hash first; n ← hash count; mret (0, elem, n)
    end);
  elem ← find_loop (Z.to_nat n) elem key;
  mret (elem, h).

Definition data_of (elem : ptr) : St world Z :=
  match elem with Some x => on_elems (get_field data x) | None => mret 0 end.

Definition sqlite3HashFind (key : Z) : St world Z :=
  '(elem, _) ← findElementWithHash key;
  data_of elem.

(** ** Removing *)

Definition removeElementGivenHash (elem : nat) (h : Z) : St world unit :=
  before ← on_elems (get_field prev elem);
  after ← on_elems (get_field next elem);
  _ ← (match before with
    | Some y => on_elems (put_field (set_next after) y)
    | None => set_hash (set_first after)
    end);
  _ ← (match after with Some z => on_elems (put_field (set_prev before) z) | None => mret () end);
  t ← hash ht;
  _ ← (match t with
    | Some t =>
      pEntry ← get_entry (t, h);
      let chain' := if bool_decide (chain pEntry = Some elem) then after else chain pEntry in
      _ ← assert_ok (0 <? bucket_count pEntry);
      put_entry (t, h) (mkHt (u32 (bucket_count pEntry - 1)) chain')
    | None => mret ()
    end);
  _ ← free_elem elem;
  n ← hash count;
  _ ← set_hash (set_count (n - 1));
  n ← hash count;
  match n =? 0 with
  | true =>
    f ← hash first;
    _ ← assert_ok (bool_decide (f = None));
    sqlite3HashClear
  | false => mret ()
  end.

(** ** Inserting *)

Definition new_element : St world ptr :=
  w ← look;
  let c := made w in
  match malloc c with
  | true => _ ← change (fun w => mkWorld (pH w) (<[c := mkElem None None None None]> (elems w)) (arrays w) (S c)); mret (Some c)
  | false => _ ← change (fun w => mkWorld (pH w) (elems w) (arrays w) (S c)); mret None
  end.

(** The bucket of the key, which is [h] unless a table that is full gets more buckets. *)
Definition grow_table (key h : Z) : St world Z :=
  n ← hash count;
  size ← hash htsize;
  match (10 <=? n) && (u32 (2 * size) <? n) with
  | true =>
    resized ← rehash (u32 (n * 2));
    match resized with
    | true =>
      size ← hash htsize;
      _ ← assert_ok (0 <? size);
      mret (strHash (text key) mod size)
    | false => mret h
    end
  | false => mret h
  end.

(** A new element. *)
Definition add_element (key d h : Z) : St world Z :=
  new_elem ← new_element;
  match new_elem with
  | None => mret d
  | Some x =>
    _ ← on_elems (put_field (set_key key) x);
    _ ← on_elems (put_field (set_data d) x);
    n ← hash count;
    _ ← set_hash (set_count (n + 1));
    h ← grow_table key h;
    t ← hash ht;
    _ ← insertElement (match t with Some t => Some (t, h) | None => None end) x;
    mret 0
  end.

Definition sqlite3HashInsert (key : Z) (d : Z) : St world Z :=
  '(elem, h) ← findElementWithHash key;
  old_data ← data_of elem;
  match elem, negb (old_data =? 0) with
  | Some x, true =>
    _ ← (match d =? 0 with
      | true => removeElementGivenHash x h
      | false =>
        _ ← on_elems (put_field (set_data d) x);
        on_elems (put_field (set_key key) x)
      end);
    mret old_data
  | _, _ =>
    match d =? 0 with
    | true => mret 0
    | false => add_element key d h
    end
  end.

(** ** All elements *)

(** The data of the elements, in the order of a loop from [sqliteHashFirst] by [sqliteHashNext]. *)
Fixpoint hash_loop_data (fuel : nat) (p : ptr) : St world (list Z) :=
  match fuel with
  | O => stuck
  | S fuel =>
    match p with
    | None => mret []
    | Some x =>
      d ← on_elems (get_field data x);
      p ← on_elems (get_field next x);
      l ← hash_loop_data fuel p;
      mret (d :: l)
    end
  end.
Definition sqliteHashData : St world (list Z) :=
  p ← hash first; fuel ← bound; hash_loop_data fuel p.
End table.

(** ** The list in memory *)

(** An element with its key and its data. *)
Notation node := (nat * (Z * Z))%type.
Implicit Types (h : heap) (x y s : nat) (p q pr : ptr) (E P S G : list node) (k d : Z).
Definition locs (E : list node) : list nat := E.*1.

(** The elements of [E] linked from [p] to [q], the first one back to [pr]. *)
Fixpoint dseg (h : heap) (p pr : ptr) (E : list node) (q : ptr) : Prop :=
  match E with
  | [] => p = q
  | (x, (k, d)) :: E => p = Some x /\ exists nx : ptr, h !! x = Some (mkElem (Some nx) (Some pr) (Some d) (Some k)) /\ dseg h nx (Some x) E q
  end.

(** The last element, or what is before the first. *)
Fixpoint end_of (pr : ptr) (E : list node) : ptr :=
  match E with [] => pr | (x, _) :: E => end_of (Some x) E end.

Lemma chain_locs_app P S : locs (P ++ S) = locs P ++ locs S.
Proof. apply fmap_app. Qed.

Lemma end_of_snoc pr P x kd : end_of pr (P ++ [(x, kd)]) = Some x.
Proof. revert pr; induction P as [|[y kd'] P IH]; intros pr; [done|]. apply IH. Qed.

(** The list before a position ends with the element before it. *)
Lemma end_of_cases P : P = [] /\ end_of None P = None \/ exists P' y kd, P = P' ++ [(y, kd)] /\ end_of None P = Some y.
Proof.
  destruct P as [|[y kd] P' _] using rev_ind; [by left|right]. exists P', y, kd. by rewrite end_of_snoc.
Qed.

Lemma dseg_app h P : forall p pr S q, dseg h p pr (P ++ S) q <-> exists m, dseg h p pr P m /\ dseg h m (end_of pr P) S q.
Proof.
  induction P as [|[x [k d]] P IH]; intros p pr S q; cbn [dseg app end_of]; [naive_solver|]. split.
  - intros (-> & nx & Hx & (m & HP & HS)%IH). eauto 10.
  - intros (m & (-> & nx & Hx & HP) & HS). split; [done|]. exists nx. split; [done|]. apply IH. eauto.
Qed.

Lemma dseg_same h h' E : forall p pr q, (forall x, x ∈ locs E -> h' !! x = h !! x) -> dseg h p pr E q -> dseg h' p pr E q.
Proof.
  induction E as [|[x [k d]] E IH]; intros p pr q Hs; cbn [dseg]; [done|]. intros (-> & nx & Hx & HE). cbn in Hs.
  split; [done|]. exists nx. rewrite Hs by apply list_elem_of_here. split; [done|]. apply IH; [|done].
  intros y Hy. apply Hs. by apply list_elem_of_further.
Qed.

Lemma dseg_insert h x e p pr E q : x ∉ locs E -> dseg h p pr E q -> dseg (<[x := e]> h) p pr E q.
Proof. intros Hx. apply dseg_same. intros y Hy. apply lookup_insert_ne. by intros ->. Qed.

Lemma dseg_lookup h p pr P x k d S q : dseg h p pr (P ++ (x, (k, d)) :: S) q ->
  exists nx : ptr, h !! x = Some (mkElem (Some nx) (Some (end_of pr P)) (Some d) (Some k)) /\ dseg h p pr P (Some x) /\ dseg h nx (Some x) S q.
Proof. intros (m & HP & (-> & nx & Hx & HS))%dseg_app. eauto. Qed.

Lemma dseg_set_next h p pr P y kd q q' e : dseg h p pr (P ++ [(y, kd)]) q -> y ∉ locs P -> h !! y = Some e ->
  dseg (<[y := set_next q' e]> h) p pr (P ++ [(y, kd)]) q'.
Proof.
  destruct kd as [k d]. intros (nx & Hy & HP & _)%dseg_lookup HyP Hy'. rewrite Hy in Hy'. injection Hy' as <-. apply dseg_app. exists (Some y).
  split; [by apply dseg_insert|]. split; [done|]. exists q'. by rewrite lookup_insert_eq.
Qed.

Lemma dseg_set_prev h p pr pr' s kd S q e : dseg h p pr ((s, kd) :: S) q -> s ∉ locs S -> h !! s = Some e ->
  dseg (<[s := set_prev pr' e]> h) p pr' ((s, kd) :: S) q.
Proof.
  destruct kd as [k d]. intros (-> & nx & Hs & HS) HsS Hs'. rewrite Hs in Hs'. injection Hs' as <-. split; [done|]. exists nx.
  rewrite lookup_insert_eq. split; [done|]. by apply dseg_insert.
Qed.

Lemma dseg_dom h p pr E q x : dseg h p pr E q -> x ∈ locs E -> is_Some (h !! x).
Proof.
  revert p pr; induction E as [|[y [k d]] E IH]; intros p pr; cbn; [by intros _ ?%elem_of_nil|].
  intros (_ & nx & Hy & HE) [->|Hx]%elem_of_cons; [by eexists|by eapply IH].
Qed.

(** ** Linking *)

Lemma ok_on_elems {A} (m : St heap A) w (Q : A -> world -> Prop) :
  ok m (elems w) (fun r h => Q r (mkWorld (pH w) h (arrays w) (made w))) -> ok (on_elems m) w Q.
Proof. apply (ok_on_part elems (fun h w => mkWorld (pH w) h (arrays w) (made w)) m). Qed.

Ltac step := apply ok_bind.
Ltac norm := cbn [elems pH arrays made htsize count first ht].
Ltac on_field := apply ok_on_elems; norm.

(** [E] is the list of the table. *)
Notation listed h f E := (dseg h f None E None).

Lemma nodup_middle P x (kd : Z * Z) S : NoDup (locs (P ++ (x, kd) :: S)) ->
  NoDup (locs (P ++ S)) /\ x ∉ locs (P ++ S) /\ (forall y, y ∈ locs P -> y ∉ locs S).
Proof.
  intros Hnd. assert (Hperm : locs (P ++ (x, kd) :: S) ≡ₚ x :: locs (P ++ S)).
  { rewrite !chain_locs_app. cbn. by rewrite Permutation_middle. }
  rewrite Hperm in Hnd. apply NoDup_cons in Hnd as [Hx Hnd]. split_and!; [done..|]. intros y Hy HyS.
  rewrite chain_locs_app in Hnd. apply NoDup_app in Hnd as (_ & Hd & _). by apply (Hd y).
Qed.

(** [pHead] is the element at the position between [P] and [S], or the position is the first. *)
Definition position (pHead : ptr) P S : Prop :=
  pHead = None /\ P = [] \/ exists s kd S', pHead = Some s /\ S = (s, kd) :: S'.

Lemma listed_middle h f q P x k d S : dseg h f None P (Some x) ->
  h !! x = Some (mkElem (Some q) (Some (end_of None P)) (Some d) (Some k)) -> dseg h q (Some x) S None -> listed h f (P ++ (x, (k, d)) :: S).
Proof. intros HP Hx HS. apply dseg_app. exists (Some x). split; [done|]. split; [done|]. by exists q. Qed.

(** The first element of the list. *)
Lemma link_first_spec hs c f t h T n S x k d a b (Q : unit -> world -> Prop) :
  listed h f S -> NoDup (locs S) -> x ∉ locs S -> h !! x = Some (mkElem a b (Some d) (Some k)) ->
  (forall f' h', listed h' f' ((x, (k, d)) :: S) -> changes (x :: locs S) h h' -> Q () (mkWorld (mkHash hs c f' t) h' T n)) ->
  ok (link_element None x) (mkWorld (mkHash hs c f t) h T n) Q.
Proof.
  intros HS HndS Hx Hhx HQ. unfold link_element. set (ls := x :: locs S) in *. assert (Hxl : x ∈ ls) by apply list_elem_of_here.
  apply ok_bind, ok_bind, ok_look, ok_ret. cbn [pH first]. step. on_field. eapply ok_put_field; [done|]. step.
  set (h1 := <[x := _]> h). assert (Hx1 : h1 !! x = Some (mkElem (Some f) b (Some d) (Some k))) by by unfold h1; rewrite lookup_insert_eq.
  assert (Hc1 : changes ls h h1) by by eapply changes_insert_in, changes_refl.
  assert (HS1 : listed h1 f S) by by apply dseg_insert.
  eapply (ok_mono _ _ (fun _ w => exists h2, w = mkWorld (mkHash hs c f t) h2 T n /\ dseg h2 f (Some x) S None /\ h2 !! x = h1 !! x /\ changes ls h h2)).
  - destruct S as [|[s [k' d']] S]; [cbn in HS1; subst f; apply ok_ret; by exists h1|].
    pose proof HS1 as (-> & nx & Hs1 & _). cbn in HndS, Hx, ls. on_field. eapply ok_put_field; [done|].
    eexists. split_and!; [done| | |].
    + eapply dseg_set_prev; [done| |done]. by apply NoDup_cons in HndS as [? _].
    + apply lookup_insert_ne. intros ->. apply Hx, list_elem_of_here.
    + eapply changes_insert_in; [|done|done]. apply list_elem_of_further, list_elem_of_here.
  - intros _ w (h2 & -> & HS2 & Hx2 & Hc2). rewrite Hx1 in Hx2. step. on_field. eapply ok_put_field; [done|]. apply ok_change; norm. apply HQ.
    + apply (listed_middle _ _ f []); [done|by rewrite lookup_insert_eq|by apply dseg_insert].
    + by eapply changes_insert_in.
Qed.

(** An element before [s]. *)
Lemma link_before_spec hs c f t h T n P s kd S' x k d a b (Q : unit -> world -> Prop) :
  listed h f (P ++ (s, kd) :: S') -> NoDup (locs (P ++ (s, kd) :: S')) -> x ∉ locs (P ++ (s, kd) :: S') -> h !! x = Some (mkElem a b (Some d) (Some k)) ->
  (forall f' h', listed h' f' (P ++ (x, (k, d)) :: (s, kd) :: S') -> changes (x :: locs (P ++ (s, kd) :: S')) h h' -> Q () (mkWorld (mkHash hs c f' t) h' T n)) ->
  ok (link_element (Some s) x) (mkWorld (mkHash hs c f t) h T n) Q.
Proof.
  intros HE Hnd Hx Hhx HQ. unfold link_element. rewrite chain_locs_app, elem_of_app in Hx. rewrite chain_locs_app in Hnd, HQ.
  apply NoDup_app in Hnd as (HndP & Hd & HndS). set (ls := x :: locs P ++ locs ((s, kd) :: S')) in *. assert (Hxl : x ∈ ls) by apply list_elem_of_here.
  cbn in HndS, Hx, Hd, ls. apply NoDup_cons in HndS as [HsS HndS]. pose proof HE as HE'. apply dseg_app in HE' as (m & HP & HS).
  assert (m = Some s) as -> by (by destruct kd, HS as [-> _]).
  pose proof (dseg_dom _ _ _ _ _ s HS ltac:(apply list_elem_of_here)) as [es Hs].
  assert (Hsx : s <> x) by (intros ->; apply Hx; right; apply list_elem_of_here).
  assert (HsP : s ∉ locs P) by (intros ?; apply (Hd s); [done|apply list_elem_of_here]).
  assert (Hprev : prev es = Some (end_of None P)) by (destruct kd as [k' d'], HS as (_ & nx & Hs' & _); rewrite Hs in Hs'; by injection Hs' as ->).
  step. on_field. eapply ok_put_field; [done|]. step. on_field. eapply ok_get_field; [by rewrite lookup_insert_ne|done|].
  step. on_field. eapply ok_put_field; [by rewrite lookup_insert_eq|]. rewrite insert_insert_eq. norm. step.
  set (h1 := <[x := _]> h). assert (Hc1 : changes ls h h1) by by eapply changes_insert_in, changes_refl.
  assert (HP1 : dseg h1 f None P (Some s)) by (apply dseg_insert; [tauto|done]).
  assert (HS1 : dseg h1 (Some s) (end_of None P) ((s, kd) :: S') None) by (apply dseg_insert; [tauto|done]).
  eapply (ok_mono _ _ (fun _ w => exists f2 h2, w = mkWorld (mkHash hs c f2 t) h2 T n /\ dseg h2 f2 None P (Some x) /\
    dseg h2 (Some s) (end_of None P) ((s, kd) :: S') None /\ h2 !! x = h1 !! x /\ h2 !! s = h1 !! s /\ changes ls h h2)).
  - destruct (end_of_cases P) as [[-> ->]|(P' & y & kd' & HPy & Hend)]; [|rewrite Hend in HS1 |- *].
    + apply ok_change. exists (Some x), h1. done.
    + assert (HyP : y ∈ locs P) by (rewrite HPy, chain_locs_app; apply elem_of_app; right; apply list_elem_of_here).
      pose proof (dseg_dom _ _ _ _ _ y HP1 HyP) as [ey Hy].
      on_field. eapply ok_put_field; [done|]. do 2 eexists. split_and!; [done| | | | |].
      * rewrite HPy in HP1, HndP |- *. eapply dseg_set_next; [done| |done].
         rewrite chain_locs_app in HndP. apply NoDup_app in HndP as (_ & Hd' & _). intros Hin. apply (Hd' y Hin), list_elem_of_here.
      * apply dseg_insert; [|done]. by apply Hd.
      * apply lookup_insert_ne. intros ->. tauto.
      * apply lookup_insert_ne. intros ->. tauto.
      * eapply changes_insert_in; [|done|done]. apply list_elem_of_further, elem_of_app. by left.
  - intros _ w (f2 & h2 & -> & HP2 & HS2 & Hx2 & Hs2 & Hc2). on_field.
    eapply ok_put_field; [rewrite Hs2; unfold h1; rewrite lookup_insert_ne; done|]. norm. apply HQ.
    + apply (listed_middle _ _ (Some s)).
      * by apply dseg_insert.
      * rewrite lookup_insert_ne by done. rewrite Hx2. unfold h1. by rewrite lookup_insert_eq.
      * eapply dseg_set_prev; [done|done|]. rewrite Hs2. unfold h1. by rewrite lookup_insert_ne.
    + eapply changes_insert_in; [|rewrite Hs2; unfold h1; by rewrite lookup_insert_ne|done].
      apply list_elem_of_further, elem_of_app. right. apply list_elem_of_here.
Qed.

Lemma link_element_spec hs c f t h T n P S x k d a b pHead (Q : unit -> world -> Prop) :
  listed h f (P ++ S) -> NoDup (locs (P ++ S)) -> x ∉ locs (P ++ S) -> h !! x = Some (mkElem a b (Some d) (Some k)) -> position pHead P S ->
  (forall f' h', listed h' f' (P ++ (x, (k, d)) :: S) -> changes (x :: locs (P ++ S)) h h' -> Q () (mkWorld (mkHash hs c f' t) h' T n)) ->
  ok (link_element pHead x) (mkWorld (mkHash hs c f t) h T n) Q.
Proof. intros HE Hnd Hx Hhx [[-> ->]|(s & kd & S' & -> & ->)]; [by eapply link_first_spec|by eapply link_before_spec]. Qed.
