(* ===== verification/HashTable.v ===== *)
(** * HashTable: the hash tables as maps

    The buckets point into the list of the elements, and the operations of HashOps are those of a
    map from names to keys and data, whatever is allocated or fails to be. *)

From S2P Require Export HashOps.

Implicit Types (h : heap) (x y s : nat) (p q pr : ptr) (E P S G : list node) (k d : Z).

(** ** Strings that differ in case *)

Definition lower (z : list Z) : list Z := UpperToLower <$> z.

Lemma UpperToLower_zero : UpperToLower 0 = 0.
Proof. done. Qed.

Lemma UpperToLower_pos c : 0 < c < 256 -> 0 < UpperToLower c.
Proof.
  intros Hc. assert (Hall : forallb (fun c => 0 <? UpperToLower c) (seqZ 1 255) = true) by by vm_compute.
  rewrite forallb_forall in Hall. apply Z.ltb_lt, Hall, list_elem_of_In, elem_of_seqZ. lia.
Qed.

Lemma strICmp_zero a : forall b, is_string a -> is_string b -> sqlite3StrICmp a b = 0 <-> lower a = lower b.
Proof.
  induction a as [|c a IH]; intros [|x b] Ha Hb; cbn [sqlite3StrICmp]; [done| | |].
  - apply Forall_cons in Hb as [Hx%UpperToLower_pos _]. rewrite UpperToLower_zero. split; [lia|done].
  - apply Forall_cons in Ha as [Hc%UpperToLower_pos _]. rewrite UpperToLower_zero. split; [lia|done].
  - apply Forall_cons in Ha as [_ Ha]. apply Forall_cons in Hb as [_ Hb]. unfold lower. rewrite !fmap_cons.
    destruct (Z.eqb_spec c x) as [->|]; [|destruct (Z.eqb_spec (UpperToLower c - UpperToLower x) 0) as [Heq|Hne]].
    + rewrite IH by done. unfold lower. split; [by intros ->|by intros [= ?]].
    + replace (UpperToLower c) with (UpperToLower x) by lia. rewrite IH by done. unfold lower. split; [by intros ->|by intros [= ?]].
    + split; [lia|]. intros [= ? _]. lia.
Qed.

Lemma hash_loop_lower z : forall i : Z, hash_loop i z = foldl (fun i c => u32 (u32 (i + c) * 0x9e3779b1)) i (lower z).
Proof. induction z as [|c z IH]; intros i; [done|]. apply IH. Qed.

Lemma strHash_lower a b : lower a = lower b -> strHash a = strHash b.
Proof. intros H. unfold strHash. by rewrite !hash_loop_lower, H. Qed.

(** ** Buckets *)

Section buckets.
Variable text : Z -> list Z.

Definition name (k : Z) : list Z := lower (text k).
(** The bucket, of [n], of a key. *)
Definition slot (n : nat) (k : Z) : nat := Z.to_nat (strHash (text k) mod Z.of_nat n).
Definition in_slot (n i : nat) (e : node) : Prop := slot n e.2.1 = i.
Notation inside n i G := (Forall (in_slot n i) G).
Notation outside n i G := (Forall (fun e => ~ in_slot n i e) G).

Definition head_of (G : list node) : ptr := fst <$> head G.

(** The elements of bucket [i] of [n] are next to each other in [E], and [b] counts them and
    points to the first. *)
Definition bucket_ok (n : nat) (E : list node) (i : nat) (b : _ht) : Prop :=
  exists P G S, E = P ++ G ++ S /\ inside n i G /\ outside n i P /\ outside n i S /\
    bucket_count b = Z.of_nat (length G) /\ (G <> [] -> chain b = head_of G).

Definition buckets (E : list node) (l : list _ht) : Prop :=
  forall i b, l !! i = Some b -> bucket_ok (length l) E i b.

Lemma slot_lt n k : (0 < n)%nat -> (slot n k < n)%nat.
Proof. intros Hn. unfold slot. pose proof (Z.mod_pos_bound (strHash (text k)) (Z.of_nat n)). lia. Qed.

(** Inserting into another bucket: not between two elements of this one. *)
Lemma bucket_insert_other n i b P x kd S : bucket_ok n (P ++ S) i b -> slot n kd.1 <> i ->
  (P = [] \/ exists e S', S = e :: S' /\ ~ in_slot n i e) -> bucket_ok n (P ++ (x, kd) :: S) i b.
Proof.
  intros (U & G & V & HE & HG & HU & HV & Hb & Hch) Hx Hpos.
  assert (Hx' : ~ in_slot n i (x, kd)) by done.
  destruct Hpos as [->|(e & S' & -> & He)].
  - exists ((x, kd) :: U), G, V. cbn in HE. subst S. split_and!; try done. by constructor.
  - apply app_eq_app in HE as (l & [(-> & HV')|(-> & HS)]).
    + apply app_eq_app in HV' as (l' & [(-> & HV')|(-> & HV')]).
      * destruct l' as [|e' l'].
        { cbn in HV'. subst V. rewrite app_nil_r in *. exists U, l, ((x, kd) :: e :: S'). rewrite <- !app_assoc. split_and!; try done. by constructor. }
        exfalso. injection HV' as <- _. apply He. apply Forall_app in HG as [_ HG]. by apply Forall_cons in HG as [? _].
      * exists U, G, (l' ++ (x, kd) :: e :: S'). rewrite <- !app_assoc. split_and!; try done.
        subst V. apply Forall_app in HV as [? ?]. apply Forall_app. split; [done|by constructor].
    + exists (P ++ (x, kd) :: l), G, V. split; [by rewrite <- app_assoc; cbn; rewrite <- HS|]. split_and!; try done.
      apply Forall_app in HU as [HP Hl]. apply Forall_app. split; [done|by constructor].
Qed.

(** Inserting into this bucket: before its first element, or anywhere if it has none. *)
Lemma bucket_insert_same n i P G S x kd : inside n i G -> outside n i P -> outside n i S -> slot n kd.1 = i ->
  bucket_ok n (P ++ (x, kd) :: G ++ S) i (mkHt (Z.of_nat (length G) + 1) (Some x)).
Proof.
  intros HG HP HS Hx. exists P, ((x, kd) :: G), S. split_and!; try done; [by constructor|]. cbn [bucket_count length]. lia.
Qed.

Lemma buckets_insert E l x kd b : buckets E l -> l !! slot (length l) kd.1 = Some b -> Z.of_nat (length E) < 2 ^ 31 ->
  exists P S, E = P ++ S /\ position (if bucket_count b =? 0 then None else chain b) P S /\
    buckets (P ++ (x, kd) :: S) (<[slot (length l) kd.1 := mkHt (u32 (bucket_count b + 1)) (Some x)]> l).
Proof.
  intros Hl Hb Hlen. set (i := slot (length l) kd.1) in *. destruct (Hl i b Hb) as (P & G & S & -> & HG & HP & HS & Hn & Hch).
  rewrite !length_app in Hlen. rewrite u32_small, Hn by width_lia.
  assert (Hother : forall P' S' : list node, P ++ G ++ S = P' ++ S' -> (P' = [] \/ exists e S'', S' = e :: S'' /\ in_slot (length l) i e) ->
    bucket_ok (length l) (P' ++ (x, kd) :: S') i (mkHt (Z.of_nat (length G) + 1) (Some x)) ->
    buckets (P' ++ (x, kd) :: S') (<[i := mkHt (Z.of_nat (length G) + 1) (Some x)]> l)).
  { intros P' S' HE Hpos Hi j b' Hj. rewrite length_insert. destruct (decide (j = i)) as [->|Hji].
    - rewrite list_lookup_insert_eq in Hj by (by eapply lookup_lt_Some). by injection Hj as <-.
    - rewrite list_lookup_insert_ne in Hj by done. apply bucket_insert_other; [rewrite <- HE; by apply Hl|by intros <-|].
      destruct Hpos as [->|(e & S'' & -> & He)]; [by left|right]. exists e, S''. split; [done|]. unfold in_slot in *. congruence. }
  destruct G as [|[s kd'] G].
  - exists [], (P ++ S). split; [done|]. split; [by left|]. apply Hother; [done|by left|].
    apply (bucket_insert_same _ _ [] [] (P ++ S)); [done|done| |done]. by apply Forall_app.
  - exists P, (((s, kd') :: G) ++ S). split; [done|]. split.
    + right. exists s, kd', (G ++ S). cbn [length]. rewrite (proj2 (Z.eqb_neq _ _)) by lia. by rewrite Hch.
    + apply Hother; [done| |by apply bucket_insert_same]. right. apply Forall_cons in HG as [Hs _]. by eexists _, _.
Qed.

(** The arrays of a table: none, or one with its buckets. *)
Definition indexed (hs : Z) (t : ptr) (T : gmap nat (list _ht)) (E : list node) : Prop :=
  match t with
  | None => hs = 0 /\ T = ∅
  | Some t => exists l, T = {[t := l]} /\ hs = Z.of_nat (length l) /\ 0 < hs < 2 ^ 31 /\ buckets E l
  end.
End buckets.

Section correct.
Variable pointer_size : Z.
Variable malloc : nat -> bool.
Variable sqlite3MallocSize : nat -> Z -> Z.
Variable text : Z -> list Z.
Hypothesis Hptr : pointer_size = 4 \/ pointer_size = 8.
Hypothesis Htext : forall k, is_string (text k).
Hypothesis Hsize : forall c bytes, 0 <= bytes <= 1024 -> bytes <= sqlite3MallocSize c bytes < 2 ^ 31.

Lemma get_entry_spec H h (t : nat) l n (i : Z) b (Q : _ht -> world -> Prop) : 0 <= i -> l !! Z.to_nat i = Some b ->
  Q b (mkWorld H h {[t := l]} n) -> ok (get_entry (t, i)) (mkWorld H h {[t := l]} n) Q.
Proof.
  intros Hi Hb HQ. step. apply ok_look. step. apply ok_the with l; [norm; cbn [fst]; by rewrite lookup_singleton_eq|].
  step. apply ok_assert; [cbn [snd]; lia|]. by apply ok_the with b.
Qed.

Lemma put_entry_spec H h (t : nat) l n (i : Z) b b' (Q : unit -> world -> Prop) : 0 <= i -> l !! Z.to_nat i = Some b ->
  Q () (mkWorld H h {[t := <[Z.to_nat i := b']> l]} n) -> ok (put_entry (t, i) b') (mkWorld H h {[t := l]} n) Q.
Proof.
  intros Hi Hb HQ. step. eapply get_entry_spec; [done|done|]. apply ok_change. norm. cbn [fst snd].
  by rewrite <- insert_empty, alter_insert_eq, insert_empty.
Qed.

Definition bucket_of (t : ptr) (hs k : Z) : option entry :=
  match t with Some t => Some (t, strHash (text k) mod hs) | None => None end.

Lemma insert_element_spec hs c f t h T n E x k d a b (Q : unit -> world -> Prop) :
  listed h f E -> NoDup (locs E) -> x ∉ locs E -> h !! x = Some (mkElem a b (Some d) (Some k)) ->
  indexed text hs t T E -> Z.of_nat (length E) < 2 ^ 31 ->
  (forall f' h' T' E', E' ≡ₚ (x, (k, d)) :: E -> listed h' f' E' -> changes (x :: locs E) h h' -> indexed text hs t T' E' ->
    Q () (mkWorld (mkHash hs c f' t) h' T' n)) ->
  ok (insertElement (bucket_of t hs k) x) (mkWorld (mkHash hs c f t) h T n) Q.
Proof.
  intros HE Hnd Hx Hhx Hix Hlen HQ. unfold insertElement. destruct t as [t|]; cbn [bucket_of].
  - destruct Hix as (l & -> & Hhs & Hpos & Hl). assert (Hslot : (slot text (length l) k < length l)%nat) by (apply slot_lt; lia).
    destruct (lookup_lt_is_Some_2 l _ Hslot) as [e He]. destruct (buckets_insert _ _ _ x (k, d) e Hl He Hlen) as (P & S & -> & Hpd & Hl').
    pose proof (Z.mod_pos_bound (strHash (text k)) hs ltac:(lia)) as Hmod.
    assert (Hi : Z.to_nat (strHash (text k) mod hs) = slot text (length l) k) by (by rewrite Hhs).
    step. step. eapply get_entry_spec; [lia|by rewrite Hi|]. step. eapply put_entry_spec; [lia|by rewrite Hi|]. apply ok_ret.
    eapply link_element_spec; [done|done|done|done|done|]. intros f' h' Hl2 Hc. eapply HQ; [|done|done|].
    + by rewrite Permutation_middle.
    + rewrite Hi. eexists. split_and!; [done|by rewrite length_insert|lia|lia|done].
  - step. apply ok_ret. eapply (link_element_spec _ _ _ _ _ _ _ []); [done|done|done|done|by left|].
    intros f' h' Hl2 Hc. by eapply HQ.
Qed.

Lemma insert_elements_spec fuel : forall hs c f t h T n p pr F R (Q : unit -> world -> Prop),
  listed h f F -> dseg h p pr R None -> NoDup (locs (F ++ R)) -> indexed text hs (Some t) T F -> Z.of_nat (length (F ++ R)) < 2 ^ 31 -> (length R < fuel)%nat ->
  (forall f' h' T' E', E' ≡ₚ F ++ R -> listed h' f' E' -> changes (locs (F ++ R)) h h' -> indexed text hs (Some t) T' E' ->
    Q () (mkWorld (mkHash hs c f' (Some t)) h' T' n)) ->
  ok (insert_elements text fuel t hs p) (mkWorld (mkHash hs c f (Some t)) h T n) Q.
Proof.
  induction fuel as [|fuel IH]; intros hs c f t h T n p pr F R Q HF HR Hnd Hix Hlen Hfuel HQ; [lia|]. cbn [insert_elements].
  destruct R as [|[x [k d]] R]; [cbn in HR; subst p; apply ok_ret; rewrite app_nil_r in *; by eapply HQ|].
  destruct HR as (-> & nx & Hx & HR). destruct (nodup_middle _ _ _ _ Hnd) as (Hnd' & HxFR & Hd).
  rewrite chain_locs_app, elem_of_app in HxFR. rewrite chain_locs_app in Hnd'. apply NoDup_app in Hnd' as (HndF & _ & _).
  step. on_field. eapply ok_get_field; [done|done|]. step. on_field. eapply ok_get_field; [done|done|]. step.
  rewrite length_app in Hlen. cbn [length] in Hlen, Hfuel.
  eapply (insert_element_spec hs c f (Some t) h T n F x k d); [done|done|tauto|done|done|lia|].
  intros f' h' T' E' Hp HE' Hc Hix'. assert (Hperm : E' ++ R ≡ₚ F ++ (x, (k, d)) :: R) by (rewrite Hp; cbn; by rewrite Permutation_middle).
  assert (Hnd2 : NoDup (locs (E' ++ R))) by (unfold locs in *; by rewrite Hperm).
  eapply (IH _ _ _ _ _ _ _ _ (Some x)); [done| |done|done| |lia|].
  - eapply dseg_same; [|done]. intros y Hy. apply Hc. intros [->|HyF]%elem_of_cons; [tauto|]. by apply (Hd y HyF).
  - rewrite (Permutation_length Hperm), length_app. cbn [length]. lia.
  - intros f2 h2 T2 E2 Hp2 HE2 Hc2 Hix2. apply (HQ f2 h2 T2 E2); [by rewrite Hp2, Hperm|done| |done].
    eapply changes_trans.
    + eapply changes_mono; [|done]. rewrite chain_locs_app. cbn. intros y [->|Hy]%elem_of_cons; apply elem_of_app; [right; apply list_elem_of_here|by left].
    + eapply changes_mono; [|done]. intros y Hy. unfold locs in *. by rewrite <- Hperm.
Qed.

(** The bytes asked for the new buckets. *)
Definition buckets_for (new_size : Z) : Z :=
  if SQLITE_MALLOC_SOFT_LIMIT <? size_t pointer_size (new_size * sizeof_ht pointer_size) then u32 (SQLITE_MALLOC_SOFT_LIMIT / sizeof_ht pointer_size)
  else new_size.

Lemma buckets_bytes N : 20 <= N < 2 ^ 28 -> 160 <= size_t pointer_size (buckets_for N * sizeof_ht pointer_size) <= 1024.
Proof.
  intros HN. unfold buckets_for, size_t, sizeof_ht, SQLITE_MALLOC_SOFT_LIMIT. destruct Hptr as [-> | ->].
  - rewrite (wrap_small _ (N * _)) by (unfold is_uint; change (8 * 4) with 32; lia). case_if; rewrite ?wrap_small; try (unfold is_uint; change (8 * 4) with 32; lia).
    + by vm_compute.
    + by vm_compute.
  - rewrite (wrap_small _ (N * _)) by (unfold is_uint; change (8 * 8) with 64; lia). case_if; rewrite ?wrap_small; try (unfold is_uint; change (8 * 8) with 64; lia).
    + by vm_compute.
    + by vm_compute.
Qed.

Lemma buckets_size c bytes : 160 <= bytes <= 1024 -> 0 < size_t pointer_size (sqlite3MallocSize c bytes) / sizeof_ht pointer_size < 2 ^ 31.
Proof.
  intros Hb. pose proof (Hsize c bytes ltac:(lia)) as Hs. unfold size_t, sizeof_ht. rewrite wrap_small.
  - destruct Hptr as [-> | ->]; Z.to_euclidean_division_equations; lia.
  - unfold is_uint. destruct Hptr as [-> | ->]; [change (8 * 4) with 32|change (8 * 8) with 64]; lia.
Qed.

Lemma buckets_empty n : buckets text [] (replicate n (mkHt 0 None)).
Proof. intros i b Hb. apply lookup_replicate in Hb as [-> _]. exists [], [], []. by split_and!. Qed.

Lemma free_array_spec H h t T hs E n (Q : unit -> world -> Prop) : indexed text hs t T E ->
  Q () (mkWorld H h ∅ n) -> ok (free_array t) (mkWorld H h T n) Q.
Proof.
  intros Hix HQ. destruct t as [t|]; cbn [free_array]; [|destruct Hix as [_ ->]; by apply ok_ret].
  destruct Hix as (l & -> & _). step. apply ok_look. step. apply ok_the with l; [norm; by rewrite lookup_singleton_eq|].
  apply ok_change. norm. by rewrite delete_singleton_eq.
Qed.

(** What resizing leaves: the same elements, in some order. *)
Record resized (h : heap) (hs : Z) (t : ptr) (n : nat) E (r : bool) (h' : heap) (hs' : Z) (t' : ptr) (n' : nat) E' : Prop := {
  rs_elements : E' ≡ₚ E;
  rs_changes : changes (locs E) h h';
  rs_made : (n <= n')%nat;
  rs_array : forall a, t' = Some a -> (a < n')%nat;
  rs_kept : r = false -> hs' = hs /\ t' = t;
  rs_new : r = true -> 0 < hs' /\ is_Some t'
}.

Lemma rehash_spec hs c f t h T n E N (Q : bool -> world -> Prop) :
  listed h f E -> NoDup (locs E) -> indexed text hs t T E -> (forall a, t = Some a -> (a < n)%nat) ->
  Z.of_nat (length E) < 2 ^ 31 -> 20 <= N < 2 ^ 28 ->
  (forall r f' h' hs' t' T' n' E', resized h hs t n E r h' hs' t' n' E' -> listed h' f' E' -> indexed text hs' t' T' E' ->
    Q r (mkWorld (mkHash hs' c f' t') h' T' n')) ->
  ok (rehash pointer_size malloc sqlite3MallocSize text N) (mkWorld (mkHash hs c f t) h T n) Q.
Proof.
  intros HE Hnd Hix Ht Hlen HN HQ. unfold rehash. cbv zeta. fold (buckets_for N). pose proof (buckets_bytes N HN) as Hb.
  assert (Hkept : forall n', (n <= n')%nat -> Q false (mkWorld (mkHash hs c f t) h T n')).
  { intros n' Hn. eapply HQ; [|done|done]. split; try done. intros a Ha. specialize (Ht a Ha). lia. }
  step. apply ok_bind, ok_look, ok_ret. norm. destruct (buckets_for N =? hs); [by apply ok_ret, Hkept|]. step. step. apply ok_look. norm.
  destruct (malloc n); [|step; apply ok_change, ok_ret, ok_ret, Hkept; lia]. step. apply ok_change, ok_ret. norm.
  set (B := size_t _ (buckets_for N * _)) in *. pose proof (buckets_size n B Hb) as Hm. set (m := _ / _) in *.
  step. apply ok_bind, ok_look, ok_ret. norm. step.
  apply (ok_mono _ _ (fun _ w => w = mkWorld (mkHash hs c f t) h {[n := replicate (Z.to_nat m) (mkHt 0 None)]} (S n))).
  { destruct t as [a|]; cbn [free_array].
    - destruct Hix as (l & -> & _). pose proof (Ht a eq_refl). step. apply ok_look. step. apply ok_the with l.
      + norm. by rewrite lookup_insert_ne, lookup_singleton_eq by lia.
      + apply ok_change. norm. rewrite delete_insert_ne, delete_singleton_eq by lia. done.
    - destruct Hix as [_ ->]. by apply ok_ret. }
  intros _ w ->. rewrite (u32_small m) by width_lia. step. apply ok_change. norm. unfold set_ht. norm. rewrite (u32_small m) by width_lia.
  step. apply ok_bind, ok_look, ok_ret. norm. step. apply ok_change. norm. unfold set_first. norm. step. apply ok_bind, ok_look, ok_ret. norm.
  step. apply ok_assert; [rewrite (proj2 (Z.eqb_neq m 0)) by lia; apply orb_true_r|]. step.
  eapply (insert_elements_spec _ _ _ None _ _ _ _ _ None []); [done|done|done| |done| |].
  - eexists. split_and!; [done|rewrite length_replicate; lia|lia|lia|apply buckets_empty].
  - pose proof (locs_bound h (locs E) Hnd (fun x => dseg_dom _ _ _ _ _ x HE)) as Hbd. unfold locs in Hbd. rewrite length_fmap in Hbd. lia.
  - intros f' h' T' E' Hp HE' Hc Hix'. apply ok_ret. eapply HQ; [|done|done]. split; try done; [lia|by intros a [= <-]; lia|].
    intros _. split; [lia|by eexists].
Qed.

(** ** Finding *)

(** The first element with the name of [key]. *)
Fixpoint first_named (key : Z) E : option node :=
  match E with
  | [] => None
  | e :: E => if bool_decide (name text e.2.1 = name text key) then Some e else first_named key E
  end.

Lemma first_named_app key P S : first_named key (P ++ S) = match first_named key P with Some e => Some e | None => first_named key S end.
Proof. induction P as [|e P IH]; [done|]. cbn [app first_named]. by case_bool_decide. Qed.

Lemma first_named_none key E : Forall (fun e => name text e.2.1 <> name text key) E -> first_named key E = None.
Proof. induction 1 as [|e E He _ IH]; [done|]. cbn [first_named]. by rewrite bool_decide_eq_false_2. Qed.

Lemma first_named_outside n key E : Forall (fun e => ~ in_slot text n (slot text n key) e) E -> first_named key E = None.
Proof.
  intros H. apply first_named_none. eapply Forall_impl; [exact H|]. intros e He Hk. apply He. unfold in_slot, slot.
  by rewrite (strHash_lower _ _ Hk).
Qed.

Lemma find_loop_spec G : forall H h T n p pr S q key (Q : ptr -> world -> Prop), dseg h p pr (G ++ S) q ->
  Q (fst <$> first_named key G) (mkWorld H h T n) -> ok (find_loop text (length G) p key) (mkWorld H h T n) Q.
Proof.
  induction G as [|[x [k d]] G IH]; intros H h T n p pr S q key Q HG HQ; cbn [length find_loop]; [by apply ok_ret|].
  destruct HG as (-> & nx & Hx & HG). step. apply ok_the with x; [done|]. step. on_field. eapply ok_get_field; [done|done|].
  cbn [first_named snd fst] in HQ. pose proof (strICmp_zero (text k) (text key) (Htext k) (Htext key)) as Hcmp. fold (name text k) (name text key) in Hcmp.
  destruct (Z.eqb_spec (sqlite3StrICmp (text k) (text key)) 0) as [Heq|Hne].
  - apply ok_ret. rewrite bool_decide_eq_true_2 in HQ by tauto. done.
  - rewrite bool_decide_eq_false_2 in HQ by tauto. step. on_field. eapply ok_get_field; [done|done|]. by eapply IH.
Qed.

(** Where the search by hash ends is where a search of the whole list ends. *)
Lemma find_spec hs c f t h T n E key (Q : ptr * Z -> world -> Prop) : listed h f E -> indexed text hs t T E -> c = Z.of_nat (length E) ->
  (forall i, (forall a, t = Some a -> bucket_of t hs key = Some (a, i)) -> Q (fst <$> first_named key E, i) (mkWorld (mkHash hs c f t) h T n)) ->
  ok (findElementWithHash text key) (mkWorld (mkHash hs c f t) h T n) Q.
Proof.
  intros HE Hix -> HQ. unfold findElementWithHash. step. apply ok_bind, ok_look, ok_ret. norm. step. destruct t as [t|].
  - destruct Hix as (l & -> & Hhs & Hpos & Hl). step. apply ok_bind, ok_look, ok_ret. norm. step. apply ok_assert; [lia|]. cbv zeta.
    assert (Hslot : (slot text (length l) key < length l)%nat) by (apply slot_lt; lia).
    destruct (lookup_lt_is_Some_2 l _ Hslot) as [b Hb]. pose proof (Z.mod_pos_bound (strHash (text key)) hs ltac:(lia)) as Hmod.
    step. eapply get_entry_spec; [lia|by rewrite Hhs|]. apply ok_ret. step.
    destruct (Hl _ _ Hb) as (P & G & S & -> & HG & HP & HS & Hn & Hch). rewrite Hn, Nat2Z.id.
    apply dseg_app in HE as (m & HP' & HGS). apply (ok_mono _ _ (fun r w => r = fst <$> first_named key (P ++ G ++ S) /\ w = mkWorld (mkHash hs (Z.of_nat (length (P ++ G ++ S))) f (Some t)) h {[t := l]} n)).
    + rewrite !first_named_app, (first_named_outside (length l) key P), (first_named_outside (length l) key S) by done.
      destruct G as [|[s kd] G]; [by apply ok_ret|]. rewrite Hch by done. assert (m = Some s) as -> by (by destruct kd, HGS as [-> _]).
      eapply find_loop_spec; [done|]. split; [|done]. by destruct (first_named key ((s, kd) :: G)).
    + intros r w [-> ->]. apply ok_ret, HQ. by intros a [= <-].
  - step. apply ok_bind, ok_look, ok_ret. norm. step. apply ok_bind, ok_look, ok_ret, ok_ret. norm. step. rewrite Nat2Z.id.
    eapply (find_loop_spec E _ _ _ _ _ _ []); [by rewrite app_nil_r|]. by apply ok_ret, HQ.
Qed.

(** ** Removing *)

Lemma dseg_delete h x p pr E q : x ∉ locs E -> dseg h p pr E q -> dseg (delete x h) p pr E q.
Proof. intros Hx. apply dseg_same. intros y Hy. apply lookup_delete_ne. by intros ->. Qed.

(** The writes that take [x] off the list, before [rest]. *)
Lemma unlink_spec {B} (rest : St world B) hs c f t h T n P x kd S nx (Q : B -> world -> Prop) :
  dseg h f None P (Some x) -> dseg h nx (Some x) S None -> NoDup (locs (P ++ (x, kd) :: S)) ->
  (forall f' h', listed h' f' (P ++ S) -> changes (locs (P ++ S)) h h' -> ok rest (mkWorld (mkHash hs c f' t) h' T n) Q) ->
  ok (_ ← (match end_of None P with Some y => on_elems (put_field (set_next nx) y) | None => set_hash (set_first nx) end);
      _ ← (match nx with Some z => on_elems (put_field (set_prev (end_of None P)) z) | None => mret () end); rest) (mkWorld (mkHash hs c f t) h T n) Q.
Proof.
  intros HP HS Hnd HQ. destruct (nodup_middle _ _ _ _ Hnd) as (Hnd' & Hx & Hd). rewrite chain_locs_app in Hnd'. apply NoDup_app in Hnd' as (HndP & _ & HndS).
  step. apply (ok_mono _ _ (fun _ w => exists f1 h1, w = mkWorld (mkHash hs c f1 t) h1 T n /\ dseg h1 f1 None P nx /\ dseg h1 nx (Some x) S None /\
    changes (locs (P ++ S)) h h1)).
  - destruct (end_of_cases P) as [[-> ->]|(P' & y & kd' & -> & ->)].
    + apply ok_change. exists nx, h. split_and!; [done|done|done|apply changes_refl].
    + assert (Hy : y ∈ locs (P' ++ [(y, kd')])) by (rewrite chain_locs_app; apply elem_of_app; right; apply list_elem_of_here).
      pose proof (dseg_dom _ _ _ _ _ y HP Hy) as [e He]. on_field. eapply ok_put_field; [done|]. do 2 eexists. split_and!; [done| | |].
      * eapply dseg_set_next; [done| |done]. rewrite chain_locs_app in HndP. apply NoDup_app in HndP as (_ & Hd' & _).
        intros Hin. apply (Hd' y Hin), list_elem_of_here.
      * apply dseg_insert; [by apply Hd|done].
      * eapply changes_insert_in; [|done|apply changes_refl]. rewrite chain_locs_app. apply elem_of_app. by left.
  - intros _ w (f1 & h1 & -> & HP1 & HS1 & Hc1). step. destruct S as [|[z [k' d']] S].
    + cbn in HS1. subst nx. apply ok_ret, HQ; [by rewrite app_nil_r|done].
    + pose proof HS1 as (-> & nx & Hz & _). on_field. eapply ok_put_field; [done|]. norm. cbn in HndS. apply NoDup_cons in HndS as [Hz' HndS].
      apply HQ.
      * apply dseg_app. exists (Some z). split; [|by eapply dseg_set_prev]. apply dseg_insert; [|done]. intros HzP. apply (Hd z HzP), list_elem_of_here.
      * eapply changes_insert_in; [|done|done]. rewrite chain_locs_app. apply elem_of_app. right. apply list_elem_of_here.
Qed.

(** An element of bucket [i] is between the others of the bucket. *)
Lemma split_inside (i n : nat) U G V P e S : U ++ G ++ V = P ++ e :: S -> in_slot text n i e ->
  Forall (fun e => ~ in_slot text n i e) U -> Forall (fun e => ~ in_slot text n i e) V ->
  exists G1 G2, G = G1 ++ e :: G2 /\ P = U ++ G1 /\ S = G2 ++ V.
Proof.
  intros HE He HU HV. apply app_eq_app in HE as (l & [(-> & HE)|(-> & HE)]).
  - destruct l as [|e' l]; cbn in HE.
    + rewrite app_nil_r in *. destruct G as [|g G]; cbn in HE.
      * subst V. apply Forall_cons in HV as [HV _]. done.
      * injection HE as <- ->. exists [], G. by rewrite app_nil_r.
    + injection HE as <- _. apply Forall_app in HU as [_ HU]. apply Forall_cons in HU as [HU _]. done.
  - apply app_eq_app in HE as (l' & [(-> & HE)|(-> & HE)]).
    + destruct l' as [|e' l']; cbn in HE; [|injection HE as <- ->; by exists l, l'].
      subst V. apply Forall_cons in HV as [HV _]. done.
    + subst V. apply Forall_app in HV as [_ HV]. apply Forall_cons in HV as [HV _]. done.
Qed.

Lemma bucket_remove_other (n i : nat) b P e S : bucket_ok text n (P ++ e :: S) i b -> ~ in_slot text n i e -> bucket_ok text n (P ++ S) i b.
Proof.
  intros (U & G & V & HE & HG & HU & HV & Hb & Hch) He. symmetry in HE. apply app_eq_app in HE as (l & [(-> & HE)|(-> & HE)]).
  - destruct l as [|e' l]; cbn in HE.
    + rewrite app_nil_r in *. destruct G as [|g G]; cbn in HE.
      * subst V. exists P, [], S. apply Forall_cons in HV as [_ HV]. by split_and!.
      * injection HE as <- _. apply Forall_cons in HG as [HG _]. done.
    + injection HE as <- ->. apply Forall_app in HU as [HP HU]. apply Forall_cons in HU as [_ HU].
      exists (P ++ l), G, V. rewrite <- app_assoc. split_and!; try done. by apply Forall_app.
  - apply app_eq_app in HE as (l' & [(-> & HE)|(-> & HE)]).
    + destruct l' as [|e' l']; cbn in HE.
      * subst V. rewrite app_nil_r in *. exists U, l, S. apply Forall_cons in HV as [_ HV]. rewrite <- app_assoc. by split_and!.
      * injection HE as <- _. apply Forall_app in HG as [_ HG]. apply Forall_cons in HG as [HG _]. done.
    + subst V. apply Forall_app in HV as [HV HV']. apply Forall_cons in HV' as [_ HV'].
      exists U, G, (l' ++ S). rewrite <- !app_assoc. split_and!; try done. by apply Forall_app.
Qed.

Lemma head_of_app P S : P <> [] -> head_of (P ++ S) = head_of P.
Proof. by destruct P. Qed.

Lemma buckets_remove P x kd S l b (nx : ptr) : buckets text (P ++ (x, kd) :: S) l -> NoDup (locs (P ++ (x, kd) :: S)) ->
  l !! slot text (length l) kd.1 = Some b -> (S <> [] -> nx = head_of S) -> Z.of_nat (length (P ++ (x, kd) :: S)) < 2 ^ 31 ->
  0 < bucket_count b /\ buckets text (P ++ S) (<[slot text (length l) kd.1 :=
    mkHt (u32 (bucket_count b - 1)) (if bool_decide (chain b = Some x) then nx else chain b)]> l).
Proof.
  intros Hl Hnd Hb Hnx Hlen. set (i := slot text (length l) kd.1) in *. destruct (Hl i b Hb) as (U & G & V & HE & HG & HU & HV & Hn & Hch).
  symmetry in HE. apply (split_inside i (length l)) in HE as (G1 & G2 & -> & -> & ->); [|done|done|done].
  rewrite !length_app in Hlen. rewrite length_app in Hn. cbn [length] in Hn, Hlen. rewrite length_app in Hlen. split; [lia|].
  intros j b' Hj. rewrite length_insert. destruct (decide (j = i)) as [->|Hji].
  - rewrite list_lookup_insert_eq in Hj by (by eapply lookup_lt_Some). injection Hj as <-.
    apply Forall_app in HG as [HG1 HG2]. apply Forall_cons in HG2 as [_ HG2].
    exists U, (G1 ++ G2), V. rewrite <- !app_assoc. split_and!; [done|by apply Forall_app|done|done| |].
    + cbn [bucket_count]. rewrite u32_small by width_lia. rewrite length_app. lia.
    + intros HGne. cbn [chain]. rewrite Hch by (by destruct G1). destruct G1 as [|[s kd'] G1].
      * cbn [app head_of head]. rewrite bool_decide_eq_true_2 by done. cbn [app] in HGne. rewrite Hnx by (by destruct G2). by apply head_of_app.
      * rewrite bool_decide_eq_false_2; [done|]. cbn. intros [= ->].
        destruct (nodup_middle _ _ _ _ Hnd) as (_ & Hx & _). apply Hx. rewrite !chain_locs_app. apply elem_of_app. left. apply elem_of_app. right. apply list_elem_of_here.
  - rewrite list_lookup_insert_ne in Hj by done. eapply bucket_remove_other; [by apply Hl|]. unfold in_slot. cbn [snd]. by intros <-.
Qed.

(** ** Clearing *)

Lemma free_elems_spec fuel : forall H h T n p pr R (Q : unit -> world -> Prop), dseg h p pr R None -> NoDup (locs R) ->
  (forall x, is_Some (h !! x) -> x ∈ locs R) -> (length R < fuel)%nat -> Q () (mkWorld H ∅ T n) -> ok (free_elems fuel p) (mkWorld H h T n) Q.
Proof.
  induction fuel as [|fuel IH]; intros H h T n p pr R Q HR Hnd Hdom Hfuel HQ; [lia|]. cbn [free_elems]. destruct R as [|[x [k d]] R].
  - cbn in HR. subst p. apply ok_ret. replace h with (∅ : heap); [done|]. symmetry. apply map_empty. intros x.
    apply eq_None_not_Some. by intros ?%Hdom%elem_of_nil.
  - destruct HR as (-> & nx & Hx & HR). cbn in Hnd, Hfuel. apply NoDup_cons in Hnd as [HxR Hnd]. step. on_field. eapply ok_get_field; [done|done|].
    step. step. apply ok_look. step. eapply ok_the; [done|]. apply ok_change. norm.
    eapply IH; [by apply dseg_delete|done| |lia|done]. intros y. destruct (decide (y = x)) as [->|Hne].
    + rewrite lookup_delete_eq. by intros [? [=]].
    + rewrite lookup_delete_ne by done. intros [?|?]%Hdom%elem_of_cons; done.
Qed.

Lemma clear_spec hs c f t h T n E (Q : unit -> world -> Prop) : listed h f E -> NoDup (locs E) ->
  (forall x, is_Some (h !! x) -> x ∈ locs E) -> indexed text hs t T E ->
  Q () (mkWorld (mkHash 0 0 None None) ∅ ∅ n) -> ok sqlite3HashClear (mkWorld (mkHash hs c f t) h T n) Q.
Proof.
  intros HE Hnd Hdom Hix HQ. unfold sqlite3HashClear. step. apply ok_bind, ok_look, ok_ret. norm. step. apply ok_change. norm.
  step. apply ok_bind, ok_look, ok_ret. norm. unfold set_first. norm. step. eapply free_array_spec; [done|]. step. apply ok_change. norm. unfold set_ht. norm.
  step. apply ok_bind, ok_look, ok_ret. norm. step. eapply free_elems_spec; [done|done|done| |].
  - pose proof (locs_bound h (locs E) Hnd (fun x => dseg_dom _ _ _ _ _ x HE)) as Hbd. unfold locs in Hbd. rewrite length_fmap in Hbd. lia.
  - by apply ok_change.
Qed.

(** ** The table as a map *)

(** From the name of a key to the key and its data. *)
Notation contents_type := (gmap (list Z) (Z * Z)).
Definition contents E : contents_type := list_to_map ((fun e => (name text e.2.1, e.2)) <$> E).
Notation names E := ((fun e => name text e.2.1) <$> E).

(** The table has the elements [E]. *)
Record holds E (w : world) : Prop := {
  h_list : listed (elems w) (first (pH w)) E;
  h_once : NoDup (locs E);
  h_all : forall x, is_Some (elems w !! x) -> x ∈ locs E;
  h_index : indexed text (htsize (pH w)) (ht (pH w)) (arrays w) E;
  h_count : count (pH w) = Z.of_nat (length E);
  h_made : forall x, x ∈ locs E -> (x < made w)%nat;
  h_array : forall a, ht (pH w) = Some a -> (a < made w)%nat;
  h_names : NoDup (names E);
  h_data : Forall (fun e => e.2.2 <> 0) E;
  h_empty : E = [] -> ht (pH w) = None
}.

Definition table (m : contents_type) (w : world) : Prop := exists E, holds E w /\ m = contents E.

Lemma contents_lookup E key : contents E !! name text key = snd <$> first_named key E.
Proof.
  induction E as [|[x [k d]] E IH]; [by apply lookup_empty|]. unfold contents. rewrite fmap_cons. cbn [list_to_map foldr first_named fst snd].
  case_bool_decide as Hk; cbn [uncurry].
  - rewrite Hk. by rewrite lookup_insert_eq.
  - rewrite lookup_insert_ne by done. exact IH.
Qed.

Lemma contents_cons x kd E : contents ((x, kd) :: E) = <[name text kd.1 := kd]> (contents E).
Proof. done. Qed.

Lemma names_keys E : ((fun e : node => (name text e.2.1, e.2)) <$> E).*1 = names E.
Proof. rewrite <- list_fmap_compose. done. Qed.

Lemma contents_perm E E' : E ≡ₚ E' -> NoDup (names E) -> contents E = contents E'.
Proof. intros Hp Hnd. apply list_to_map_proper; [by rewrite names_keys|by rewrite Hp]. Qed.

Lemma contents_none E (z : list Z) : z ∉ names E -> contents E !! z = None.
Proof. intros Hz. apply not_elem_of_list_to_map. by rewrite names_keys. Qed.

Lemma contents_size E : NoDup (names E) -> size (contents E) = length E.
Proof. intros Hnd. unfold contents. rewrite map_size_list_to_map by (by rewrite names_keys). apply length_fmap. Qed.

Lemma first_named_split E key e : first_named key E = Some e -> exists P S, E = P ++ e :: S /\ name text e.2.1 = name text key.
Proof.
  induction E as [|e' E IH]; cbn [first_named]; [done|]. case_bool_decide as Hk.
  - intros [= ->]. by exists [], E.
  - intros (P & S & -> & He)%IH. by exists (e' :: P), S.
Qed.

Lemma first_named_names E key : first_named key E = None -> name text key ∉ names E.
Proof.
  induction E as [|e E IH]; cbn [first_named]; [by intros _ ?%elem_of_nil|]. case_bool_decide as Hk; [done|]. intros Hn.
  rewrite fmap_cons, elem_of_cons. intros [?|?]; [by apply Hk|by apply IH].
Qed.

Lemma empty_table_spec w (Q : unit -> world -> Prop) : elems w = ∅ -> arrays w = ∅ -> (forall w', holds [] w' -> Q () w') -> ok sqlite3HashInit w Q.
Proof.
  intros Hh HT HQ. apply ok_change, HQ. split; norm; rewrite ?Hh, ?HT; try done; try (by constructor).
  - intros x. rewrite lookup_empty. by intros [? [=]].
  - by intros x ?%elem_of_nil.
Qed.

Lemma hash_clear_spec E w (Q : unit -> world -> Prop) : holds E w -> (forall w', holds [] w' -> Q () w') -> ok sqlite3HashClear w Q.
Proof.
  intros [] HQ. destruct w as [[hs c f t] h T n]. norm. eapply clear_spec; [done|done|done|done|]. apply HQ. split; norm; try done; try (by constructor).
  - intros x. rewrite lookup_empty. by intros [? [=]].
  - by intros x ?%elem_of_nil.
Qed.

(** ** Replacing the data of an element *)

(** The key and the data of [x] are replaced. *)
Definition replaced (x : nat) (key d : Z) (e : node) : node := if bool_decide (e.1 = x) then (x, (key, d)) else e.

Lemma replaced_other x key d E : x ∉ locs E -> replaced x key d <$> E = E.
Proof.
  intros Hx. rewrite <- (list_fmap_id E) at 2. apply list_fmap_ext. intros i e He. unfold replaced. rewrite bool_decide_eq_false_2; [done|].
  intros <-. apply Hx. apply list_elem_of_fmap. exists e. split; [done|]. by eapply list_elem_of_lookup_2.
Qed.

Lemma replaced_middle x key d kd P S : NoDup (locs (P ++ (x, kd) :: S)) -> replaced x key d <$> (P ++ (x, kd) :: S) = P ++ (x, (key, d)) :: S.
Proof.
  intros Hnd. destruct (nodup_middle _ _ _ _ Hnd) as (_ & Hx & _). rewrite chain_locs_app, elem_of_app in Hx.
  rewrite fmap_app, fmap_cons, !replaced_other by tauto. unfold replaced. cbn [fst]. by rewrite bool_decide_eq_true_2.
Qed.

Lemma buckets_replaced x key d E l : (forall e, e ∈ E -> e.1 = x -> name text e.2.1 = name text key) -> buckets text E l -> buckets text (replaced x key d <$> E) l.
Proof.
  intros Hx Hl i b Hb. destruct (Hl i b Hb) as (P & G & S & -> & HG & HP & HS & Hn & Hch).
  assert (Hslot : forall e, e ∈ P ++ G ++ S -> in_slot text (length l) i (replaced x key d e) <-> in_slot text (length l) i e).
  { intros e He. unfold replaced. case_bool_decide as Hex; [|done]. unfold in_slot, slot. cbn [snd fst]. by rewrite (strHash_lower _ _ (Hx e He Hex)). }
  rewrite Forall_forall in HG, HP, HS. exists (replaced x key d <$> P), (replaced x key d <$> G), (replaced x key d <$> S).
  rewrite !fmap_app, !Forall_fmap, !Forall_forall. split_and!; [done| | | |by rewrite length_fmap|].
  - intros e He. apply Hslot; [rewrite !elem_of_app; tauto|by apply HG].
  - intros e He. unfold compose. rewrite Hslot; [by apply HP|rewrite !elem_of_app; tauto].
  - intros e He. unfold compose. rewrite Hslot; [by apply HS|rewrite !elem_of_app; tauto].
  - intros HGne. rewrite Hch by (by destruct G). destruct G as [|[y kd] G]; [done|]. cbn. unfold replaced. by case_bool_decide as Hy; [cbn in Hy; subst y|].
Qed.

(** ** Operations *)

Lemma find_elem E w key (Q : ptr * Z -> world -> Prop) : holds E w ->
  (forall i, (forall a, ht (pH w) = Some a -> bucket_of (ht (pH w)) (htsize (pH w)) key = Some (a, i)) -> Q (fst <$> first_named key E, i) w) ->
  ok (findElementWithHash text key) w Q.
Proof. intros [] HQ. destruct w as [[hs c f t] h T n]. eapply find_spec; [done|done|done|exact HQ]. Qed.

Lemma holds_lookup P x k d S w : holds (P ++ (x, (k, d)) :: S) w ->
  exists nx : ptr, elems w !! x = Some (mkElem (Some nx) (Some (end_of None P)) (Some d) (Some k)) /\
    dseg (elems w) (first (pH w)) None P (Some x) /\ dseg (elems w) nx (Some x) S None.
Proof. intros []. by apply dseg_lookup. Qed.

Lemma data_spec E w key (Q : Z -> world -> Prop) : holds E w ->
  Q (match first_named key E with Some e => e.2.2 | None => 0 end) w -> ok (data_of (fst <$> first_named key E)) w Q.
Proof.
  intros HE HQ. destruct (first_named key E) as [[x [k d]]|] eqn:Hf; [|by apply ok_ret].
  destruct (first_named_split _ _ _ Hf) as (P & S & -> & _). destruct (holds_lookup _ _ _ _ _ _ HE) as (nx & Hx & _).
  apply ok_on_elems. eapply ok_get_field; [done|done|]. by destruct w.
Qed.

Lemma hash_find_spec E w key (Q : Z -> world -> Prop) : holds E w ->
  Q (match contents E !! name text key with Some kd => kd.2 | None => 0 end) w -> ok (sqlite3HashFind text key) w Q.
Proof.
  intros HE HQ. step. eapply find_elem; [done|]. intros i _. eapply data_spec; [done|].
  rewrite contents_lookup in HQ. by destruct (first_named key E).
Qed.

Lemma dseg_head h nx pr S q : dseg h nx pr S q -> S <> [] -> nx = head_of S.
Proof. destruct S as [|[x [k d]] S]; [done|]. by intros [-> _]. Qed.

Lemma remove_spec P x k d S w i (Q : unit -> world -> Prop) : holds (P ++ (x, (k, d)) :: S) w -> Z.of_nat (length (P ++ (x, (k, d)) :: S)) < 2 ^ 31 ->
  (forall a, ht (pH w) = Some a -> bucket_of (ht (pH w)) (htsize (pH w)) k = Some (a, i)) ->
  (forall w', holds (P ++ S) w' -> Q () w') -> ok (removeElementGivenHash x i) w Q.
Proof.
  intros HE Hlen Hi HQ. destruct (holds_lookup _ _ _ _ _ _ HE) as (nx & Hx & HP & HS). destruct HE as [HE Hnd Hall Hix Hc Hmade Harr Hnm Hd He].
  destruct w as [[hs c f t] h T n]. norm. cbn [pH htsize count first ht elems arrays made] in *.
  destruct (nodup_middle _ _ _ _ Hnd) as (Hnd' & HxPS & _). unfold removeElementGivenHash.
  step. on_field. eapply ok_get_field; [done|done|]. step. on_field. eapply ok_get_field; [done|done|]. norm.
  eapply unlink_spec; [done|done|done|]. intros f' h' HPS Hch. step. apply ok_bind, ok_look, ok_ret. norm. step.
  apply (ok_mono _ _ (fun _ w => exists T', w = mkWorld (mkHash hs c f' t) h' T' n /\ indexed text hs t T' (P ++ S))).
  - destruct t as [t|]; [|apply ok_ret; exists T; by destruct Hix].
    destruct Hix as (l & -> & Hhs & Hpos & Hl). injection (Hi t eq_refl) as <-.
    assert (Hslot : (slot text (length l) k < length l)%nat) by (apply slot_lt; lia).
    destruct (lookup_lt_is_Some_2 l _ Hslot) as [b Hb]. pose proof (Z.mod_pos_bound (strHash (text k)) hs ltac:(lia)) as Hmod.
    assert (Hto : Z.to_nat (strHash (text k) mod hs) = slot text (length l) k) by (by rewrite Hhs).
    destruct (buckets_remove P x (k, d) S l b nx Hl Hnd Hb (dseg_head _ _ _ _ _ HS) Hlen) as (Hbc & Hl').
    step. eapply get_entry_spec; [lia|by rewrite Hto|]. cbv zeta. step. apply ok_assert; [lia|]. eapply put_entry_spec; [lia|by rewrite Hto|].
    eexists. split; [done|]. eexists. split; [done|]. rewrite Hto, length_insert. split_and!; [done|lia|lia|done].
  - intros _ w (T' & -> & Hix'). step. step. apply ok_look. norm. step. destruct (proj2 (changes_some _ _ _ x Hch) ltac:(by eexists)) as [e' He'].
    eapply ok_the; [done|]. apply ok_change. norm. step. apply ok_bind, ok_look, ok_ret. norm. step. apply ok_change. norm. unfold set_count. norm.
    step. apply ok_bind, ok_look, ok_ret. norm.
    assert (Hlen' : length (P ++ (x, (k, d)) :: S) = Datatypes.S (length (P ++ S))) by (rewrite !length_app; cbn [length]; lia).
    rewrite u32_small by (unfold is_uint; lia).
    assert (Hall' : forall y, is_Some (delete x h' !! y) -> y ∈ locs (P ++ S)).
    { intros y. destruct (decide (y = x)) as [->|Hne]; [rewrite lookup_delete_eq; by intros [? [=]]|]. rewrite lookup_delete_ne by done.
      intros Hy. apply (changes_some _ _ _ _ Hch) in Hy. apply Hall in Hy. rewrite chain_locs_app in Hy |- *. cbn in Hy. rewrite elem_of_app, elem_of_cons in Hy. rewrite elem_of_app. tauto. }
    assert (HPS' : listed (delete x h') f' (P ++ S)) by by apply dseg_delete.
    destruct (Z.eqb_spec (c - 1) 0) as [Hz|Hnz].
    + destruct (P ++ S) as [|] eqn:HPSe; [|cbn [length] in Hlen'; lia]. cbn in HPS'. subst f'.
      step. apply ok_bind, ok_look, ok_ret. norm. step. apply ok_assert; [done|]. eapply (clear_spec _ _ _ _ _ _ _ []); [done|done|done|done|].
      apply HQ. split; norm; try done; try (by constructor); [intros y; rewrite lookup_empty; by intros [? [=]]|by intros y ?%elem_of_nil].
    + apply ok_ret, HQ. split; norm; try done.
      * lia.
      * intros y Hy. apply Hmade. rewrite chain_locs_app in Hy |- *. cbn. rewrite elem_of_app in Hy. rewrite elem_of_app, elem_of_cons. tauto.
      * rewrite fmap_app, fmap_cons, <- Permutation_middle in Hnm. rewrite fmap_app. by apply NoDup_cons in Hnm as [_ ?].
      * apply Forall_app in Hd as [? Hd]. apply Forall_cons in Hd as [_ ?]. by apply Forall_app.
      * intros HPSe. rewrite HPSe in Hlen'. cbn in Hlen'. lia.
Qed.

Lemma replace_spec P x k d S w key d' (Q : unit -> world -> Prop) : holds (P ++ (x, (k, d)) :: S) w -> name text k = name text key -> d' <> 0 ->
  (forall w', holds (P ++ (x, (key, d')) :: S) w' -> Q () w') ->
  ok (_ ← on_elems (put_field (set_data d') x); on_elems (put_field (set_key key) x)) w Q.
Proof.
  intros HE Hk Hd' HQ. destruct (holds_lookup _ _ _ _ _ _ HE) as (nx & Hx & HP & HS). destruct HE as [HE Hnd Hall Hix Hc Hmade Harr Hnm Hd He].
  destruct (nodup_middle _ _ _ _ Hnd) as (_ & HxPS & _). rewrite chain_locs_app, elem_of_app in HxPS.
  assert (Hlocs : locs (P ++ (x, (key, d')) :: S) = locs (P ++ (x, (k, d)) :: S)) by (rewrite !chain_locs_app; done).
  step. on_field. eapply ok_put_field; [done|]. on_field. eapply ok_put_field; [by rewrite lookup_insert_eq|]. rewrite insert_insert_eq. norm.
  apply HQ. split; norm; try rewrite Hlocs; try done.
  - apply (listed_middle _ _ nx); [apply dseg_insert; tauto|by rewrite lookup_insert_eq|apply dseg_insert; tauto].
  - intros y [z Hy]. apply Hall. destruct (decide (y = x)) as [->|Hne]; [by eexists|]. rewrite lookup_insert_ne in Hy by done. by eexists.
  - unfold indexed in *. destruct (ht (pH w)); [|done]. destruct Hix as (l & HT & Hhs & Hpos & Hl). exists l. split_and!; [done|done|lia|lia|].
    rewrite <- (replaced_middle x key d' (k, d) P S Hnd). apply buckets_replaced; [|done]. intros [y kd] Hin Hy. cbn in Hy. subst y.
    destruct (elem_of_app P ((x, (k, d)) :: S) (x, kd)) as [Hin' _]. destruct (Hin' Hin) as [HinP|[[= ->]|HinS]%elem_of_cons]; [|done|];
      exfalso; apply HxPS; [left|right]; apply list_elem_of_fmap; by exists (x, kd).
  - rewrite Hc, !length_app. done.
  - rewrite fmap_app, fmap_cons in Hnm |- *. cbn [snd fst] in *. by rewrite <- Hk.
  - apply Forall_app in Hd as [? Hd]. apply Forall_cons in Hd as [_ ?]. apply Forall_app. split; [done|]. by constructor.
  - by destruct P.
Qed.

(** The last step of adding: the element is linked, in a table whose [count] includes it. *)
Lemma add_linked hs c f t h T n E x key d a b (Q : Z -> world -> Prop) :
  listed h f E -> NoDup (locs E) -> (forall y, is_Some (h !! y) -> y ∈ x :: locs E) -> (forall y, y ∈ x :: locs E -> (y < n)%nat) ->
  (forall z, t = Some z -> (z < n)%nat) -> indexed text hs t T E -> NoDup (names E) -> Forall (fun e => e.2.2 <> 0) E ->
  x ∉ locs E -> h !! x = Some (mkElem a b (Some d) (Some key)) -> name text key ∉ names E -> d <> 0 -> Z.of_nat (length E) < 2 ^ 27 ->
  c = Z.of_nat (length E) + 1 ->
  (forall w' E', E' ≡ₚ (x, (key, d)) :: E -> holds E' w' -> Q 0 w') ->
  ok (_ ← insertElement (bucket_of t hs key) x; mret 0) (mkWorld (mkHash hs c f t) h T n) Q.
Proof.
  intros HE Hnd Hall Hmade Harr Hix Hnm Hda Hx Hhx Hkey Hd Hlen Hc HQ. step. eapply insert_element_spec; [done|done|done|done|done|lia|].
  intros f' h' T' E' Hp HE' Hch Hix'. apply ok_ret. apply (HQ _ E'); [done|].
  assert (Hlocs : locs E' ≡ₚ x :: locs E) by (unfold locs; by rewrite Hp).
  split; norm; try done.
  - rewrite Hlocs. by constructor.
  - intros y Hy%(changes_some _ _ _ _ Hch). rewrite Hlocs. by apply Hall.
  - rewrite Hp. cbn [length]. lia.
  - intros y. rewrite Hlocs. apply Hmade.
  - rewrite Hp, fmap_cons. by constructor.
  - rewrite Hp. by constructor.
  - intros ->. by apply Permutation_nil_l in Hp.
Qed.

Lemma grow_spec hs c f t h T n E key i (Q : Z -> world -> Prop) :
  listed h f E -> NoDup (locs E) -> indexed text hs t T E -> (forall a, t = Some a -> (a < n)%nat) -> c < 2 ^ 27 -> Z.of_nat (length E) < 2 ^ 27 ->
  (forall a, t = Some a -> bucket_of t hs key = Some (a, i)) ->
  (forall i' f' h' hs' t' T' n' E', (match t' with Some a => Some (a, i') | None => None end) = bucket_of t' hs' key -> (n <= n')%nat ->
    (forall a, t' = Some a -> (a < n')%nat) -> E' ≡ₚ E -> changes (locs E) h h' -> listed h' f' E' -> indexed text hs' t' T' E' ->
    Q i' (mkWorld (mkHash hs' c f' t') h' T' n')) ->
  ok (grow_table pointer_size malloc sqlite3MallocSize text key i) (mkWorld (mkHash hs c f t) h T n) Q.
Proof.
  intros HE Hnd Hix Harr Hc Hlen Hi HQ. unfold grow_table. step. apply ok_bind, ok_look, ok_ret. norm. step. apply ok_bind, ok_look, ok_ret. norm.
  assert (Hsame : forall t', t' = t -> (match t' with Some a => Some (a, i) | None => None end) = bucket_of t' hs key).
  { intros t' ->. destruct t as [a|]; [|done]. by rewrite (Hi a). }
  destruct ((10 <=? c) && _) eqn:Hgrow.
  - apply andb_true_iff in Hgrow as [Hgrow _]. apply Z.leb_le in Hgrow. step. rewrite (u32_small (c * 2)) by (unfold is_uint; lia).
    eapply rehash_spec; [done|done|done|done|lia|lia|].
    intros r f' h' hs' t' T' n' E' [Hp Hch Hn Ha' Hkept Hnew] HE' Hix'. destruct r.
    + destruct (Hnew eq_refl) as (Hpos & a & ->). step. apply ok_bind, ok_look, ok_ret. norm. step. apply ok_assert; [lia|]. apply ok_ret. by apply (HQ _ f' h' hs' (Some a) T' n' E').
    + destruct (Hkept eq_refl) as [-> ->]. apply ok_ret, (HQ _ f' h' hs t T' n' E'); try done. by apply Hsame.
  - apply ok_ret, (HQ _ f h hs t T n E); try done. by apply Hsame.
Qed.

Lemma add_spec E w key d i (Q : Z -> world -> Prop) : holds E w -> first_named key E = None -> d <> 0 -> Z.of_nat (length E) < 2 ^ 27 - 1 ->
  (forall a, ht (pH w) = Some a -> bucket_of (ht (pH w)) (htsize (pH w)) key = Some (a, i)) ->
  (forall w' E', E' ≡ₚ (made w, (key, d)) :: E -> holds E' w' -> Q 0 w') ->
  (forall w', holds E w' -> malloc (made w) = false -> Q d w') ->
  ok (add_element pointer_size malloc sqlite3MallocSize text key d i) w Q.
Proof.
  intros [HE Hnd Hall Hix Hc Hmade Harr Hnm Hda He] Hf Hd Hlen Hi HQ HQf. destruct w as [[hs c f t] h T n].
  cbn [pH htsize count first ht elems arrays made] in *. unfold add_element. step. step. apply ok_look. norm.
  destruct (malloc n) eqn:Hm.
  2:{ step. apply ok_change, ok_ret, ok_ret. norm. apply HQf; [|done]. split; norm; try done; intros y Hy; [specialize (Hmade y Hy)|specialize (Harr y Hy)]; lia. }
  assert (Hx : n ∉ locs E) by (intros Hin%Hmade; lia).
  step. apply ok_change, ok_ret. norm. step. on_field. eapply ok_put_field; [by rewrite lookup_insert_eq|]. rewrite insert_insert_eq.
  step. norm. on_field. eapply ok_put_field; [by rewrite lookup_insert_eq|]. rewrite insert_insert_eq. norm. unfold set_data, set_key. cbn [next prev data pKey].
  set (h1 := <[n := _]> h). assert (Hx1 : h1 !! n = Some (mkElem None None (Some d) (Some key))) by by unfold h1; rewrite lookup_insert_eq.
  step. apply ok_bind, ok_look, ok_ret. norm. step. apply ok_change. norm. unfold set_count. norm. rewrite (u32_small (c + 1)) by (unfold is_uint; lia).
  assert (Hall1 : forall y, is_Some (h1 !! y) -> y ∈ n :: locs E).
  { intros y. rewrite elem_of_cons. destruct (decide (y = n)) as [->|Hne]; [by left|]. unfold h1. rewrite lookup_insert_ne by done. right. by apply Hall. }
  pose proof (first_named_names _ _ Hf) as Hkey. step.
  eapply (grow_spec _ _ _ _ _ _ _ E); [by apply dseg_insert|done|done| |lia|lia|done|].
  { intros a Ha. specialize (Harr a Ha). lia. }
  intros i' f' h' hs' t' T' n' E' Hb Hn Ha' Hp Hch HE' Hix'.
  step. apply ok_bind, ok_look, ok_ret. norm. rewrite Hb. assert (Hlocs : locs E' ≡ₚ locs E) by (unfold locs; by rewrite Hp).
  eapply (add_linked _ _ _ _ _ _ _ E' n key d None None); [done|by rewrite Hlocs| | |done|done|by rewrite Hp|by rewrite Hp|by rewrite Hlocs| |by rewrite Hp|done|rewrite Hp; lia|rewrite Hp; lia|].
  - intros y Hy%(changes_some _ _ _ _ Hch). rewrite Hlocs. by apply Hall1.
  - intros y. rewrite Hlocs. intros [->|Hy]%elem_of_cons; [lia|]. specialize (Hmade y Hy). lia.
  - by rewrite (proj2 Hch) by done.
  - intros w' E2 Hp2. apply HQ. by rewrite Hp2, Hp.
Qed.

(** What inserting promises: the former data, or zero, or the new data if memory was short. *)
Definition inserts (key d : Z) (m : contents_type) (r : Z) (m' : contents_type) : Prop :=
  match m !! name text key with
  | Some kd => r = kd.2 /\ m' = if d =? 0 then delete (name text key) m else <[name text key := (key, d)]> m
  | None =>
    if d =? 0 then r = 0 /\ m' = m
    else r = 0 /\ m' = <[name text key := (key, d)]> m \/ r = d /\ m' = m /\ exists c, malloc c = false
  end.

Lemma holds_names P x kd S w : holds (P ++ (x, kd) :: S) w ->
  contents (P ++ (x, kd) :: S) = <[name text kd.1 := kd]> (contents (P ++ S)) /\ contents (P ++ S) !! name text kd.1 = None.
Proof.
  intros [_ _ _ _ _ _ _ Hnm _ _]. split.
  - rewrite <- contents_cons with (x := x). apply contents_perm; [by rewrite Permutation_middle|done].
  - apply contents_none. rewrite fmap_app, fmap_cons, <- Permutation_middle in Hnm. rewrite fmap_app. by apply NoDup_cons in Hnm as [? _].
Qed.

Lemma hash_insert_spec E w key d (Q : Z -> world -> Prop) : holds E w -> Z.of_nat (length E) < 2 ^ 27 - 1 ->
  (forall r w' E', holds E' w' -> inserts key d (contents E) r (contents E') -> (length E' <= Datatypes.S (length E))%nat -> Q r w') ->
  ok (sqlite3HashInsert pointer_size malloc sqlite3MallocSize text key d) w Q.
Proof.
  intros HE Hlen HQ. step. eapply find_elem; [done|]. intros i Hi. step. eapply data_spec; [done|].
  unfold inserts in HQ. rewrite contents_lookup in HQ. destruct (first_named key E) as [[x [k d0]]|] eqn:Hf; cbn [fmap option_fmap option_map snd fst] in *.
  - destruct (first_named_split _ _ _ Hf) as (P & S & -> & Hk). cbn [snd fst] in Hk.
    assert (Hd0 : d0 <> 0) by (destruct HE as [_ _ _ _ _ _ _ _ Hd _]; apply Forall_app in Hd as [_ Hd]; by apply Forall_cons in Hd as [? _]).
    destruct (holds_names _ _ _ _ _ HE) as [Hcon Hnone]. cbn [fst] in Hcon, Hnone. rewrite Hk in Hcon, Hnone. rewrite Hcon in HQ.
    rewrite (proj2 (Z.eqb_neq d0 0)) by done. cbn [negb]. step. destruct (Z.eqb_spec d 0) as [->|Hd].
    + eapply remove_spec; [done|lia| |].
      { intros a Ha. rewrite <- (Hi a Ha), Ha. cbn [bucket_of]. by rewrite (strHash_lower _ _ Hk). }
      intros w' HE'. apply ok_ret. eapply HQ; [done| |rewrite !length_app; cbn [length]; lia]. split; [done|]. by rewrite delete_insert_id.
    + eapply replace_spec; [done|done|done|]. intros w' HE'. apply ok_ret. eapply HQ; [done| |rewrite !length_app; cbn [length]; lia].
      split; [done|]. destruct (holds_names _ _ _ _ _ HE') as [-> _]. cbn [fst]. by rewrite insert_insert_eq.
  - destruct (Z.eqb_spec d 0) as [->|Hd]; [apply ok_ret; eapply HQ; [done|done|lia]|].
    eapply add_spec; [done|done|done|done|done| |].
    + intros w' E' Hp HE'. eapply HQ; [done| |by rewrite Hp]. left. split; [done|].
      rewrite (contents_perm E' _ Hp) by (by destruct HE'). done.
    + intros w' HE' Hm. eapply HQ; [done| |lia]. right. eauto.
Qed.

(** ** All elements *)

Lemma data_loop_spec E : forall fuel p pr w (Q : list Z -> world -> Prop), dseg (elems w) p pr E None -> (length E < fuel)%nat ->
  Q ((fun e => e.2.2) <$> E) w -> ok (hash_loop_data fuel p) w Q.
Proof.
  induction E as [|[x [k d]] E IH]; intros [|fuel] p pr w Q HE Hfuel HQ; cbn [length] in Hfuel; try lia; cbn [hash_loop_data].
  - cbn in HE. subst p. by apply ok_ret.
  - destruct HE as (-> & nx & Hx & HE). step. apply ok_on_elems. eapply ok_get_field; [done|done|]. replace (mkWorld _ _ _ _) with w by (by destruct w).
    step. apply ok_on_elems. eapply ok_get_field; [done|done|]. replace (mkWorld _ _ _ _) with w by (by destruct w). step.
    eapply IH; [done|lia|]. by apply ok_ret.
Qed.

Lemma contents_data E : NoDup (names E) -> (fun e => e.2.2) <$> E ≡ₚ (fun a => a.2.2) <$> map_to_list (contents E).
Proof.
  intros Hnd. unfold contents. rewrite map_to_list_to_map by (by rewrite names_keys). by rewrite <- list_fmap_compose.
Qed.

Lemma values_data_spec E w (Q : list Z -> world -> Prop) : holds E w ->
  (forall r, r ≡ₚ (fun a => a.2.2) <$> map_to_list (contents E) -> Q r w) -> ok sqliteHashData w Q.
Proof.
  intros [HE Hnd _ _ _ _ _ Hnm _ _] HQ. step. apply ok_bind, ok_look, ok_ret. step. apply ok_bind, ok_look, ok_ret. eapply data_loop_spec; [done| |].
  - pose proof (locs_bound (elems w) (locs E) Hnd (fun x => dseg_dom _ _ _ _ _ x HE)) as Hbd. unfold locs in Hbd. rewrite length_fmap in Hbd. lia.
  - by apply HQ, contents_data.
Qed.

(** ** Histories of operations *)

Inductive op := Insert (key d : Z) | Find (key : Z) | All | Clear.

Definition run_op (o : op) : St world (list Z) :=
  match o with
  | Insert key d => r ← sqlite3HashInsert pointer_size malloc sqlite3MallocSize text key d; mret [r]
  | Find key => r ← sqlite3HashFind text key; mret [r]
  | All => sqliteHashData
  | Clear => _ ← sqlite3HashClear; mret []
  end.

Fixpoint run_ops (l : list op) : St world (list (list Z)) :=
  match l with [] => mret [] | o :: l => r ← run_op o; rs ← run_ops l; mret (r :: rs) end.

Definition promised (o : op) (m : contents_type) (r : list Z) (m' : contents_type) : Prop :=
  match o with
  | Insert key d => exists old, r = [old] /\ inserts key d m old m'
  | Find key => m' = m /\ r = [match m !! name text key with Some kd => kd.2 | None => 0 end]
  | All => m' = m /\ r ≡ₚ (fun a => a.2.2) <$> map_to_list m
  | Clear => m' = ∅ /\ r = []
  end.

Inductive promised_all : list op -> contents_type -> list (list Z) -> contents_type -> Prop :=
| promised_nil m : promised_all [] m [] m
| promised_cons o l m m1 m2 r rs : promised o m r m1 -> promised_all l m1 rs m2 -> promised_all (o :: l) m (r :: rs) m2.

Lemma run_op_spec o E w (Q : list Z -> world -> Prop) : holds E w -> Z.of_nat (length E) < 2 ^ 27 - 1 ->
  (forall r w' E', holds E' w' -> promised o (contents E) r (contents E') -> (length E' <= Datatypes.S (length E))%nat -> Q r w') -> ok (run_op o) w Q.
Proof.
  intros HE Hlen HQ. destruct o as [key d|key| |]; cbn [run_op].
  - step. eapply hash_insert_spec; [done|done|]. intros r w' E' HE' Hi Hl. apply ok_ret. eapply HQ; [done| |done]. by exists r.
  - step. eapply hash_find_spec; [done|]. apply ok_ret. eapply HQ; [done|done|lia].
  - eapply values_data_spec; [done|]. intros r Hr. eapply HQ; [done|done|lia].
  - step. eapply hash_clear_spec; [done|]. intros w' HE'. apply ok_ret. eapply HQ; [done|done|cbn; lia].
Qed.

Lemma run_ops_spec l : forall E w (Q : list (list Z) -> world -> Prop), holds E w -> Z.of_nat (length E + length l) < 2 ^ 27 ->
  (forall rs w' E', holds E' w' -> promised_all l (contents E) rs (contents E') -> Q rs w') -> ok (run_ops l) w Q.
Proof.
  induction l as [|o l IH]; intros E w Q HE Hlen HQ; cbn [run_ops length] in *; [apply ok_ret; eapply HQ; [done|constructor]|].
  step. eapply run_op_spec; [done|lia|]. intros r w1 E1 HE1 Hp Hl. step. eapply IH; [done|lia|]. intros rs w2 E2 HE2 Hps.
  apply ok_ret. eapply HQ; [done|by econstructor].
Qed.

Lemma history_spec l w (Q : list (list Z) -> world -> Prop) : elems w = ∅ -> arrays w = ∅ -> Z.of_nat (length l) < 2 ^ 27 ->
  (forall rs w' E, holds E w' -> promised_all l ∅ rs (contents E) -> Q rs w') -> ok (_ ← sqlite3HashInit; run_ops l) w Q.
Proof.
  intros Hh HT Hlen HQ. step. eapply empty_table_spec; [done|done|]. intros w1 H1. eapply (run_ops_spec l []); [done|done|]. exact HQ.
Qed.

Lemma holds_memory E w : holds E w -> size (elems w) = size (contents E) /\ count (pH w) = Z.of_nat (size (contents E)) /\
  (size (arrays w) <= 1)%nat /\ (contents E = ∅ -> arrays w = ∅).
Proof.
  intros [HE Hnd Hall Hix Hc _ _ Hnm _ He]. rewrite contents_size by done. split_and!.
  - rewrite <- size_dom. rewrite <- (length_fmap fst E). fold (locs E). rewrite <- (size_list_to_set (C := gset nat)) by done. f_equal.
    apply set_eq. intros x. rewrite elem_of_dom, elem_of_list_to_set. split; [by apply Hall|by eapply dseg_dom].
  - done.
  - unfold indexed in Hix. destruct (ht (pH w)); [destruct Hix as (l & -> & _)|destruct Hix as [_ ->]]; [by rewrite map_size_singleton|by rewrite map_size_empty; lia].
  - intros Hcon. assert (E = []) as -> by (apply length_zero_iff_nil; by rewrite <- contents_size, Hcon, map_size_empty).
    rewrite He in Hix by done. by destruct Hix.
Qed.

(** C24: a hash table is a map from strings that differ in more than case to a key and its data.
    After sqlite3HashInit, every history of insertions, searches, loops over all elements and
    clearings runs to its end and gives the results that the map gives: inserting returns the data
    it replaces or removes, and the new data only if memory was short; a loop visits every data
    once.  At the end there are as many elements in memory, and counted, as in the map, at most one
    array of buckets, and none when the map is empty.  This covers resizing, the order of the
    elements in it, the memory that is freed and allocations that fail. *)
Theorem hash_table_refines_map l w : elems w = ∅ -> arrays w = ∅ -> Z.of_nat (length l) < 2 ^ 27 ->
  ok (_ ← sqlite3HashInit; run_ops l) w (fun rs w' => exists m, promised_all l ∅ rs m /\
    size (elems w') = size m /\ count (pH w') = Z.of_nat (size m) /\ (size (arrays w') <= 1)%nat /\ (m = ∅ -> arrays w' = ∅)).
Proof.
  intros Hh HT Hlen. apply history_spec; [done|done|done|]. intros rs w' E HE Hp. exists (contents E). split; [done|].
  by apply holds_memory.
Qed.

(** Theorem: after any such history, the search that goes by the hash of the key to a bucket ends at the
    same element as the search of the whole list that a table without buckets makes, for every
    key. *)
Theorem find_by_hash_is_scan l w : elems w = ∅ -> arrays w = ∅ -> Z.of_nat (length l) < 2 ^ 27 ->
  ok (_ ← sqlite3HashInit; run_ops l) w (fun _ w' => forall key, exists elem i,
    findElementWithHash text key w' = Some ((elem, i), w') /\
    find_loop text (Z.to_nat (count (pH w'))) (first (pH w')) key w' = Some (elem, w')).
Proof.
  intros Hh HT Hlen. apply history_spec; [done|done|done|]. intros _ w' E HE _ key.
  destruct (ok_result (findElementWithHash text key) w' (fun r w => r.1 = fst <$> first_named key E /\ w = w')) as ([elem i] & w1 & Hf & Hr & ->).
  { eapply find_elem; [done|]. by intros i _. }
  destruct (ok_result (find_loop text (Z.to_nat (count (pH w'))) (first (pH w')) key) w' (fun r w => r = fst <$> first_named key E /\ w = w')) as (elem' & w1 & Hl & -> & ->).
  { destruct HE as [HE _ _ _ -> _ _ _ _ _]. rewrite Nat2Z.id. destruct w' as [H h T n]. eapply (find_loop_spec E _ _ _ _ _ _ []); [by rewrite app_nil_r|done]. }
  cbn [fst] in Hr. subst elem. by exists (fst <$> first_named key E), i.
Qed.
End correct.

(** ** Examples *)

Definition example_text (k : Z) : list Z := [64 + k mod 64].
Definition example_world : world := mkWorld (mkHash 7 7 None None) ∅ ∅ 3.
(** Twelve keys, two of them equal but for case, more than fit without buckets. *)
Definition example_ops : list op :=
  (fun k => Insert k (100 + k)) <$> [1; 2; 3; 4; 5; 6; 7; 8; 9; 10; 11; 12] ++ [33]%Z.

Lemma example_text_string k : is_string (example_text k).
Proof. constructor; [|constructor]. pose proof (Z.mod_pos_bound k 64). lia. Qed.

Lemma example_sizes (c : nat) bytes : 0 <= bytes <= 1024 -> bytes <= bytes < 2 ^ 31.
Proof. lia. Qed.

Example hash_example :
  fst <$> (_ ← sqlite3HashInit; run_ops 8 (fun _ => true) (fun _ bytes => bytes) example_text
    (example_ops ++ [Find 1; Find 2; Find 20; Insert 2 0; Find 2; All])) example_world =
  Some ([[0]; [0]; [0]; [0]; [0]; [0]; [0]; [0]; [0]; [0]; [0]; [0]; [101]] ++
    [[133]; [102]; [0]; [102]; [0]; [112; 111; 110; 133; 103; 104; 105; 106; 107; 108; 109]]).
Proof. by vm_compute. Qed.

(** The sixth allocation fails. *)
Lemma hash_table_refines_map_witness :
  ok (_ ← sqlite3HashInit; run_ops 8 (fun c => negb (Nat.eqb c 8)) (fun _ bytes => bytes) example_text (example_ops ++ [Find 1; Insert 2 0; All])) example_world
    (fun rs w' => exists m, promised_all (fun c => negb (Nat.eqb c 8)) example_text (example_ops ++ [Find 1; Insert 2 0; All]) ∅ rs m /\
      size (elems w') = size m /\ count (pH w') = Z.of_nat (size m) /\ (size (arrays w') <= 1)%nat /\ (m = ∅ -> arrays w' = ∅)).
Proof.
  apply hash_table_refines_map; [by right|exact example_text_string|exact example_sizes|reflexivity|reflexivity|reflexivity].
Defined.

Lemma find_by_hash_is_scan_witness :
  ok (_ ← sqlite3HashInit; run_ops 8 (fun _ => true) (fun _ bytes => bytes) example_text example_ops) example_world (fun _ w' =>
    forall key, exists elem i, findElementWithHash example_text key w' = Some ((elem, i), w') /\
      find_loop example_text (Z.to_nat (count (pH w'))) (first (pH w')) key w' = Some (elem, w')).
Proof.
  apply find_by_hash_is_scan; [by right|exact example_text_string|exact example_sizes|reflexivity|reflexivity|reflexivity].
Defined.
