(* ===== verification/IntText.v ===== *)
(** * IntText: integers as text in SQLite

    sqlite3.c, util.c part: a 64-bit integer is written as decimal text, and text in one of the
    three encodings is read as an integer, with a result code that says how well it fits.  A
    pointer that moves towards the end of the text is the list of the characters it will meet; a
    character is an unsigned byte. *)

From S2P Require Export Prelude.

(** ** Characters *)

Definition sqlite3CtypeMap : list Z := [
  0; 0; 0; 0; 0; 0; 0; 0;
  0; 0x01; 0x01; 0x01; 0x01; 0x01; 0; 0;
  0; 0; 0; 0; 0; 0; 0; 0;
  0; 0; 0; 0; 0; 0; 0; 0;
  0x01; 0; 0x80; 0; 0x40; 0; 0; 0x80;
  0; 0; 0; 0; 0; 0; 0; 0;
  0x0c; 0x0c; 0x0c; 0x0c; 0x0c; 0x0c; 0x0c; 0x0c;
  0x0c; 0x0c; 0; 0; 0; 0; 0; 0;
  0; 0x0a; 0x0a; 0x0a; 0x0a; 0x0a; 0x0a; 0x02;
  0x02; 0x02; 0x02; 0x02; 0x02; 0x02; 0x02; 0x02;
  0x02; 0x02; 0x02; 0x02; 0x02; 0x02; 0x02; 0x02;
  0x02; 0x02; 0x02; 0x80; 0; 0; 0; 0x40;
  0x80; 0x2a; 0x2a; 0x2a; 0x2a; 0x2a; 0x2a; 0x22;
  0x22; 0x22; 0x22; 0x22; 0x22; 0x22; 0x22; 0x22;
  0x22; 0x22; 0x22; 0x22; 0x22; 0x22; 0x22; 0x22;
  0x22; 0x22; 0x22; 0; 0; 0; 0; 0] ++ replicate 128 0x40.
Definition ctype (mask c : Z) : bool := negb (Z.land (sqlite3CtypeMap !!! Z.to_nat (u8 c)) mask =? 0).
Definition sqlite3Isspace (c : Z) : bool := ctype 0x01 c.
Definition sqlite3Isdigit (c : Z) : bool := ctype 0x04 c.
Definition sqlite3Isxdigit (c : Z) : bool := ctype 0x08 c.
Definition sqlite3HexToInt (h : Z) : Z := Z.land (h + 9 * Z.land 1 (Z.shiftr h 6)) 0xf.

Definition LARGEST_INT64 : Z := Z.lor 0xffffffff (Z.shiftl 0x7fffffff 32).
Definition SMALLEST_INT64 : Z := -1 - LARGEST_INT64.

(** ** Writing *)

(** The loop that fills [zTemp] from [zTemp[i]] down: the last index and the text from it on.
    [None] is an index out of bounds. *)
Fixpoint text_loop (fuel : nat) (i x : Z) (zTemp : list Z) : option (Z * list Z) :=
  match fuel with
  | O => None
  | S fuel =>
    if i <? 0 then None
    else
      let zTemp := (x mod 10 + 48) :: zTemp in
      let x := x / 10 in
      if x =? 0 then Some (i, zTemp) else text_loop fuel (i - 1) x zTemp
  end.

(** The text, with its terminating zero, and its length without it. *)
Definition sqlite3Int64ToText (v : Z) : option (list Z * Z) :=
  let x := if v <? 0 then if v =? SMALLEST_INT64 then Z.shiftl 1 63 else u64 (- v) else v in
  '(i, zTemp) ← text_loop 22 20 x [0];
  if v <? 0 then
    let i := i - 1 in
    if i <? 0 then None else Some (45 :: zTemp, 22 - 1 - i)
  else Some (zTemp, 22 - 1 - i).

(** ** Reading 64 bits *)

Fixpoint skip (p : Z -> bool) (zNum : list Z) : list Z :=
  match zNum with
  | c :: rest => if p c then skip p rest else zNum
  | [] => []
  end.

(** The digits up to 2^63 but for the last, and the rest of the text at the same place. *)
Definition pow63 : list Z := [57; 50; 50; 51; 51; 55; 50; 48; 51; 54; 56; 53; 52; 55; 55; 53; 56; 48].
Fixpoint compare_loop (zNum pow63 : list Z) : Z * list Z :=
  match zNum, pow63 with
  | x :: zNum, p :: pow63 => let c := (x - p) * 10 in if c =? 0 then compare_loop zNum pow63 else (c, zNum)
  | _, _ => (0, zNum)
  end.
Definition compare2pow63 (zNum : list Z) : option Z :=
  let '(c, zNum) := compare_loop zNum pow63 in
  if c =? 0 then x ← head zNum; Some (x - 56) else Some c.

Definition SQLITE_UTF8 : Z := 1.
Definition SQLITE_UTF16LE : Z := 2.
Definition SQLITE_UTF16BE : Z := 3.

(** The first high-order byte that is not zero, from [zNum[i]] on. *)
Fixpoint high_loop (fuel : nat) (zNum : list Z) (i length : Z) : Z :=
  match fuel with
  | O => i
  | S fuel => if (i <? length) && (zNum !!! Z.to_nat i =? 0) then high_loop fuel zNum (i + 2) length else i
  end.

(** Every other byte. *)
Fixpoint alternate (zNum : list Z) : list Z :=
  match zNum with c :: _ :: zNum => c :: alternate zNum | _ => zNum end.

(** The characters before [zEnd], and [nonNum]. *)
Definition characters (zNum : list Z) (enc : Z) : list Z * bool :=
  if enc =? SQLITE_UTF8 then (zNum, false)
  else
    let n := Z.land (Z.of_nat (length zNum)) (Z.lnot 1) in
    let i := high_loop (length zNum) zNum (3 - enc) n in
    let zEnd := Z.lxor i 1 in
    (alternate (drop (Z.to_nat (Z.land enc 1)) (take (Z.to_nat zEnd) zNum)), i <? n).

(** The value of the digits, how many there are, and what follows them. *)
Fixpoint digit_loop (u : Z) (i : Z) (zNum : list Z) : Z * Z * list Z :=
  match zNum with
  | c :: rest => if (48 <=? c) && (c <=? 57) then digit_loop (u64 (u * 10 + c - 48)) (i + 1) rest else (u, i, zNum)
  | [] => (u, i, [])
  end.

Definition sign (zNum : list Z) : bool * list Z :=
  match zNum with
  | c :: rest => if c =? 45 then (true, rest) else if c =? 43 then (false, rest) else (false, zNum)
  | [] => (false, [])
  end.

(** The result code and [*pNum]; [None] is an assertion that fails. *)
Definition sqlite3Atoi64 (z : list Z) (enc : Z) : option (Z * Z) :=
  let '(zNum, nonNum) := characters z enc in
  let zNum := skip sqlite3Isspace zNum in
  let '(neg, zNum) := sign zNum in
  let zStart := zNum in
  let zNum := skip (fun c => c =? 48) zNum in
  let '(u, i, rest) := digit_loop 0 0 zNum in
  let pNum := if LARGEST_INT64 <? u then if neg then SMALLEST_INT64 else LARGEST_INT64 else if neg then - u else u in
  let rc :=
    if (i =? 0) && (length zStart =? length zNum)%nat then -1
    else if nonNum then 1
    else if forallb sqlite3Isspace rest then 0 else 1 in
  if i <? 19 then guard (u <= LARGEST_INT64);; Some (rc, pNum)
  else
    c ← (if 19 <? i then Some 1 else compare2pow63 zNum);
    if c <? 0 then guard (u <= LARGEST_INT64);; Some (rc, pNum)
    else
      let pNum := if neg then SMALLEST_INT64 else LARGEST_INT64 in
      if 0 <? c then Some (2, pNum)
      else guard (u - 1 = LARGEST_INT64);; Some (if neg then rc else 3, pNum).

(** ** Reading literals *)

(** [z[i]] of a string, which ends with a zero. *)
Definition at_ (z : list Z) (i : nat) : Z := default 0 (z !! i).
Definition is_hex (c : Z) : bool := (c =? 120) || (c =? 88).

(** The hexadecimal digits: the value in [w] bits, their number and the rest. *)
Fixpoint hex_loop (w : Z) (fuel : nat) (u : Z) (i : Z) (z : list Z) : Z * Z * list Z :=
  match fuel, z with
  | S fuel, c :: rest => if sqlite3Isxdigit c then hex_loop w fuel (wrap w (u * 16 + sqlite3HexToInt c)) (i + 1) rest else (u, i, z)
  | _, _ => (u, i, z)
  end.

Definition strspn (z accept : list Z) : Z := Z.of_nat (length z - length (skip (fun c => existsb (Z.eqb c) accept) z)).

Definition sqlite3DecOrHexToI64 (z : list Z) : option (Z * Z) :=
  if (at_ z 0 =? 48) && is_hex (at_ z 1) then
    let digits := skip (fun c => c =? 48) (drop 2 z) in
    let '(u, n, rest) := hex_loop 64 (length digits) 0 0 digits in
    Some (if 16 <? n then 2 else if negb (at_ rest 0 =? 0) then 1 else 0, i64 u)
  else
    let n := Z.land 0x3fffffff (strspn z [43; 45; 32; 10; 9; 48; 49; 50; 51; 52; 53; 54; 55; 56; 57]) in
    let n := if negb (at_ z (Z.to_nat n) =? 0) then n + 1 else n in
    sqlite3Atoi64 (take (Z.to_nat n) z) SQLITE_UTF8.

Fixpoint int_loop (fuel : nat) (v i : Z) (zNum : list Z) : Z * Z :=
  match fuel, zNum with
  | S fuel, d :: rest => let c := d - 48 in if (0 <=? c) && (c <=? 9) then int_loop fuel (v * 10 + c) (i + 1) rest else (v, i)
  | _, _ => (v, i)
  end.

(** The value, or [None] when zero is returned. *)
Definition sqlite3GetInt32 (zNum : list Z) : option Z :=
  let decimal (neg : bool) (zNum : list Z) :=
    if negb (sqlite3Isdigit (at_ zNum 0)) then None
    else
      let '(v, i) := int_loop 11 0 0 (skip (fun c => c =? 48) zNum) in
      if 10 <? i then None
      else if 2147483647 <? v - c_bool neg then None
      else Some (i32 (if neg then - v else v)) in
  if at_ zNum 0 =? 45 then decimal true (drop 1 zNum)
  else if at_ zNum 0 =? 43 then decimal false (drop 1 zNum)
  else if (at_ zNum 0 =? 48) && is_hex (at_ zNum 1) && sqlite3Isxdigit (at_ zNum 2) then
    let '(u, _, rest) := hex_loop 32 8 0 0 (skip (fun c => c =? 48) (drop 2 zNum)) in
    if (Z.land u 0x80000000 =? 0) && negb (sqlite3Isxdigit (at_ rest 0)) then Some (i32 u) else None
  else decimal false zNum.

Definition sqlite3Atoi (z : list Z) : Z := default 0 (sqlite3GetInt32 z).

Lemma LARGEST_value : LARGEST_INT64 = 9223372036854775807.
Proof. done. Qed.
Lemma SMALLEST_value : SMALLEST_INT64 = -9223372036854775808.
Proof. done. Qed.

(** ** Decimal digits *)

Definition is_digit (c : Z) : Prop := 48 <= c <= 57.
Notation digits l := (Forall is_digit l).
Definition value (l : list Z) : Z := foldl (fun n c => n * 10 + (c - 48)) 0 l.
Notation len l := (Z.of_nat (length l)).

Lemma value_from l : forall n, foldl (fun n c => n * 10 + (c - 48)) n l = n * 10 ^ len l + value l.
Proof.
  unfold value. induction l as [|c l IH]; intros n; cbn [foldl length]; [lia|].
  rewrite IH, (IH (0 * 10 + _)), Nat2Z.inj_succ, Z.pow_succ_r by lia. lia.
Qed.

Lemma value_app l m : value (l ++ m) = value l * 10 ^ len m + value m.
Proof. unfold value at 1. rewrite foldl_app. apply value_from. Qed.

Lemma value_cons c l : value (c :: l) = (c - 48) * 10 ^ len l + value l.
Proof. unfold value at 1. cbn [foldl]. rewrite value_from. lia. Qed.

Lemma value_bounds l : digits l -> 0 <= value l < 10 ^ len l.
Proof.
  induction 1 as [|c l Hc Hl IH]; [done|]. unfold is_digit in Hc. rewrite value_cons. cbn [length]. rewrite Nat2Z.inj_succ, Z.pow_succ_r by lia. nia.
Qed.

(** With no leading zero, the number of digits bounds the value from below. *)
Lemma value_lower c l : digits (c :: l) -> c <> 48 -> 10 ^ len l <= value (c :: l).
Proof.
  intros Hd Hc. apply Forall_cons in Hd as [Hd Hl]. unfold is_digit in Hd. rewrite value_cons. pose proof (value_bounds _ Hl). nia.
Qed.

Lemma value_zeros l m : Forall (eq 48) l -> value (l ++ m) = value m.
Proof. intros Hl. rewrite value_app. assert (value l = 0) as -> by (induction Hl as [|? l <- _ IH]; [done|]; rewrite value_cons, IH; lia). lia. Qed.

Lemma skip_app p l r : Forall (fun c => p c = true) l -> skip p (l ++ r) = skip p r.
Proof. induction 1 as [|c l Hc _ IH]; [done|]. cbn [app skip]. by rewrite Hc. Qed.

Lemma skip_stop p r : (forall c, head r = Some c -> p c = false) -> skip p r = r.
Proof. destruct r as [|c r]; [done|]. intros Hc. cbn [skip]. by rewrite (Hc c). Qed.

Lemma skip_split p l : exists a, l = a ++ skip p l /\ Forall (fun c => p c = true) a /\ (forall c, head (skip p l) = Some c -> p c = false).
Proof.
  induction l as [|c l (a & IH & Ha & Hh)]; [by exists []|]. cbn [skip]. destruct (p c) eqn:Hc.
  - exists (c :: a). split; [cbn; by rewrite <- IH|]. split; [by constructor|done].
  - exists []. split_and!; [done|done|]. by intros ? [= <-].
Qed.

(** ** Writing *)

Lemma text_loop_spec fuel : forall i x z, 0 <= x -> 0 <= i -> x < 10 ^ (i + 1) -> x < 10 ^ Z.of_nat fuel -> (0 < fuel)%nat ->
  exists ds, text_loop fuel i x z = Some (i + 1 - len ds, ds ++ z) /\ digits ds /\ value ds = x /\
    1 <= len ds <= i + 1 /\ (len ds = 1 \/ 10 ^ (len ds - 1) <= x).
Proof.
  induction fuel as [|fuel IH]; intros i x z Hx Hi Hxi Hfuel Hf; [lia|]. cbn [text_loop].
  rewrite (proj2 (Z.ltb_ge i 0)) by lia. cbv zeta. assert (Hd : is_digit (x mod 10 + 48)) by (unfold is_digit; pose proof (Z.mod_pos_bound x 10); lia).
  destruct (Z.eqb_spec (x / 10) 0) as [Hz|Hnz].
  - exists [x mod 10 + 48]. cbn [length]. split_and!; try (done || lia).
    + f_equal. f_equal. lia.
    + by constructor.
    + unfold value. cbn [foldl]. pose proof (Z.div_mod x 10). lia.
  - assert (0 < x / 10) by (pose proof (Z.div_pos x 10); lia).
    rewrite Nat2Z.inj_succ, Z.pow_succ_r in Hfuel by lia.
    assert (Hi1 : 1 <= i).
    { destruct (decide (i = 0)) as [->|]; [|lia]. change (10 ^ (0 + 1)) with 10 in Hxi. rewrite Z.div_small in Hnz by lia. done. }
    destruct (IH (i - 1) (x / 10) ((x mod 10 + 48) :: z)) as (ds & Hl & Hds & Hv & Hlen & Hlow); [lia|lia| | | |].
    + apply Z.div_lt_upper_bound; [lia|]. rewrite <- Z.pow_succ_r by lia. by replace (Z.succ (i - 1 + 1)) with (i + 1) by lia.
    + apply Z.div_lt_upper_bound; lia.
    + destruct fuel; [cbn in Hfuel; rewrite Z.div_small in Hnz by lia; done|lia].
    + exists (ds ++ [x mod 10 + 48]). rewrite length_app. cbn [length]. split_and!; try lia.
      * rewrite Hl, <- app_assoc. f_equal. f_equal. lia.
      * apply Forall_app. split; [done|by constructor].
      * rewrite value_app, Hv. unfold value. cbn. pose proof (Z.div_mod x 10). lia.
      * right. replace (Z.of_nat (length ds + 1) - 1) with (len ds) by lia. pose proof (Z.div_mod x 10). pose proof (Z.mod_pos_bound x 10).
        destruct Hlow as [Hlow|Hlow]; [rewrite Hlow; lia|].
        replace (len ds) with (Z.succ (len ds - 1)) by lia. rewrite Z.pow_succ_r by lia. lia.
Qed.

(** The text of an integer: a sign and digits without leading zeros. *)
Lemma int_text v : is_sint 64 v -> exists ds, sqlite3Int64ToText v = Some ((if v <? 0 then [45] else []) ++ ds ++ [0], len ds + c_bool (v <? 0)) /\
  digits ds /\ value ds = Z.abs v /\ 1 <= len ds <= 19 /\ (len ds = 1 \/ 10 ^ (len ds - 1) <= Z.abs v).
Proof.
  intros Hv. unfold sqlite3Int64ToText. cbv zeta. set (x := if v <? 0 then _ else v).
  assert (Hx : x = Z.abs v).
  { unfold x. destruct (Z.ltb_spec v 0) as [Hneg|]; [|lia]. destruct (Z.eqb_spec v SMALLEST_INT64) as [->|Hne]; [done|].
    rewrite SMALLEST_value in Hne. width_lia. }
  rewrite Hx. clear x Hx. assert (Hb : 0 <= Z.abs v <= 9223372036854775808) by (unfold_width; lia).
  destruct (text_loop_spec 22 20 (Z.abs v) [0]) as (ds & -> & Hds & Hval & Hlen & Hlow); [lia|lia|change (10 ^ (20 + 1)) with 1000000000000000000000; lia|
    change (10 ^ Z.of_nat 22) with 10000000000000000000000; lia|lia|].
  assert (Hl19 : len ds <= 19).
  { destruct Hlow as [->|Hlow]; [lia|]. destruct (decide (len ds - 1 < 19)); [lia|]. assert (10 ^ 19 <= 10 ^ (len ds - 1)) by (apply Z.pow_le_mono_r; lia). lia. }
  exists ds. split; [|split_and!; first [done|lia]]. cbn [mbind option_bind]. destruct (v <? 0); cbn [c_bool app].
  - rewrite (proj2 (Z.ltb_ge _ 0)) by lia. f_equal. f_equal. lia.
  - f_equal. f_equal. lia.
Qed.

(** ** Reading *)

Lemma digit_test c : (48 <=? c) && (c <=? 57) = true <-> is_digit c.
Proof. unfold is_digit. rewrite andb_true_iff, !Z.leb_le. done. Qed.

Lemma digit_loop_spec ds rest : digits ds -> (forall c, head rest = Some c -> ~ is_digit c) -> forall u i, is_uint 64 u ->
  digit_loop u i (ds ++ rest) = (u64 (u * 10 ^ len ds + value ds), i + len ds, rest).
Proof.
  intros Hds Hrest. induction Hds as [|c ds Hc Hds IH]; intros u i Hu; cbn [app digit_loop length].
  - change (10 ^ Z.of_nat 0) with 1. change (value []) with 0. rewrite Z.mul_1_r, Z.add_0_r, Z.add_0_r. unfold u64. rewrite wrap_small by done.
    destruct rest as [|c rest]; cbn [digit_loop]; [done|]. specialize (Hrest c eq_refl). rewrite <- digit_test in Hrest.
    apply not_true_is_false in Hrest. by rewrite Hrest.
  - rewrite (proj2 (digit_test c)) by done. rewrite IH by (apply wrap_bounds; lia). rewrite value_cons, Nat2Z.inj_succ, Z.pow_succ_r by lia.
    f_equal. f_equal; [|lia]. unfold u64, wrap. rewrite <- Zplus_mod_idemp_l, Zmult_mod_idemp_l, Zplus_mod_idemp_l. f_equal. lia.
Qed.

Lemma compare_loop_spec ps : forall ds r c r', digits ps -> digits ds -> length ds = length ps -> compare_loop (ds ++ r) ps = (c, r') ->
  (c = 0 -> value ds = value ps /\ r' = r) /\ (c < 0 -> value ds < value ps) /\ (0 < c -> value ps < value ds).
Proof.
  induction ps as [|p ps IH]; intros [|x ds] r c r' Hps Hds Hlen Hc; cbn [length] in Hlen; try done.
  - cbn [app] in Hc. destruct r; cbn in Hc; injection Hc as <- <-; (split_and!; [done|lia|lia]).
  - apply Forall_cons in Hps as [Hp Hps]. apply Forall_cons in Hds as [Hx Hds]. cbn [app compare_loop] in Hc. cbv zeta in Hc.
    rewrite !value_cons. injection Hlen as Hlen. rewrite Hlen. unfold is_digit in *.
    pose proof (value_bounds _ Hds) as Hb. pose proof (value_bounds _ Hps) as Hb'. rewrite Hlen in Hb.
    destruct (Z.eqb_spec ((x - p) * 10) 0) as [Hz|Hnz].
    + assert (x = p) as -> by lia. destruct (IH ds r c r' Hps Hds Hlen Hc) as (H0 & Hlt & Hgt). split_and!; intros H; [|specialize (Hlt H); lia|specialize (Hgt H); lia].
      destruct (H0 H) as [-> ->]. done.
    + injection Hc as <- _. split_and!; [lia|nia|nia].
Qed.

Lemma compare_spec ds r : digits ds -> len ds = 19 -> exists c, compare2pow63 (ds ++ r) = Some c /\
  (c < 0 <-> value ds < 2 ^ 63) /\ (c = 0 <-> value ds = 2 ^ 63).
Proof.
  intros Hds Hlen. destruct ds as [|x ds _] using rev_ind; [done|]. rewrite length_app in Hlen. cbn [length] in Hlen.
  apply Forall_app in Hds as [Hds Hx]. apply Forall_cons in Hx as [Hx _]. unfold is_digit in Hx. rewrite <- app_assoc. unfold compare2pow63.
  destruct (compare_loop (ds ++ [x] ++ r) pow63) as [c r'] eqn:Hc.
  assert (Hp : digits pow63) by (unfold pow63, is_digit; repeat constructor; lia).
  destruct (compare_loop_spec pow63 ds ([x] ++ r) c r' Hp Hds) as (H0 & Hlt & Hgt); [cbn; lia|done|].
  rewrite value_app. change (len [x]) with 1. change (value [x]) with (0 * 10 + (x - 48)). change (2 ^ 63) with 9223372036854775808.
  change (value pow63) with 922337203685477580 in *. destruct (Z.eqb_spec c 0) as [->|Hne].
  - destruct (H0 eq_refl) as [-> ->]. cbn. eexists. split; [done|]. lia.
  - eexists. split; [done|]. destruct (decide (c < 0)) as [Hn|]; [specialize (Hlt Hn)|specialize (Hgt ltac:(lia))]; lia.
Qed.

(** The parts of a text: spaces, a sign, digits and the rest. *)
Definition space (c : Z) : Prop := sqlite3Isspace c = true.
Record parts (spaces sg ds rest : list Z) : Prop := {
  pt_spaces : Forall space spaces;
  pt_sign : sg = [] \/ sg = [45] \/ sg = [43];
  pt_digits : digits ds;
  pt_rest : forall c, head rest = Some c -> ~ is_digit c /\ (ds = [] -> sg = [] -> ~ space c /\ c <> 45 /\ c <> 43)
}.

Lemma digits_split l : exists ds rest, l = ds ++ rest /\ digits ds /\ (forall c, head rest = Some c -> ~ is_digit c).
Proof.
  destruct (skip_split (fun c => (48 <=? c) && (c <=? 57)) l) as (ds & Hl & Hds & Hr). exists ds, (skip (fun c => (48 <=? c) && (c <=? 57)) l).
  split_and!; [done| |].
  - eapply Forall_impl; [exact Hds|]. intros c. apply digit_test.
  - intros c Hc. apply Hr in Hc. rewrite <- digit_test. by rewrite Hc.
Qed.

Lemma text_parts l : exists spaces sg ds rest, l = spaces ++ sg ++ ds ++ rest /\ parts spaces sg ds rest.
Proof.
  destruct (skip_split sqlite3Isspace l) as (spaces & Hl & Hsp & Hh). rewrite Hl. clear Hl. set (m := skip sqlite3Isspace l) in *.
  assert (Hcase : (exists c m', m = c :: m' /\ (c = 45 \/ c = 43)) \/ (forall c, head m = Some c -> c <> 45 /\ c <> 43)).
  { destruct m as [|c m']; [by right|]. destruct (decide (c = 45 \/ c = 43)) as [Hc|Hc]; [left; eauto|right]. intros c' [= <-]. tauto. }
  destruct Hcase as [(c & m' & -> & Hc)|Hns].
  - destruct (digits_split m') as (ds & rest & -> & Hds & Hr). exists spaces, [c], ds, rest. split; [done|].
    split; [done|by destruct Hc as [-> | ->]; auto|done|]. intros c' Hc'. split; [by apply Hr|done].
  - destruct (digits_split m) as (ds & rest & Hm & Hds & Hr). exists spaces, [], ds, rest. rewrite Hm. split; [done|]. split; [done|by left|done|].
    intros c Hc. split; [by apply Hr|]. intros -> _. cbn in Hm. rewrite Hm in Hh, Hns. split; [|by apply Hns].
    unfold space. by rewrite (Hh c Hc).
Qed.

(** What reading promises for these parts: the result code and the number. *)
Definition reading (nonNum : bool) (sg ds rest : list Z) : Z * Z :=
  let n := if bool_decide (sg = [45]) then - value ds else value ds in
  match ds with
  | [] => (-1, 0)
  | _ :: _ =>
    if n =? 2 ^ 63 then (3, LARGEST_INT64)
    else if LARGEST_INT64 <? n then (2, LARGEST_INT64)
    else if n <? SMALLEST_INT64 then (2, SMALLEST_INT64)
    else (if nonNum then 1 else if forallb sqlite3Isspace rest then 0 else 1, n)
  end.

Lemma digit_not_space c : is_digit c -> sqlite3Isspace c = false.
Proof.
  intros Hc. assert (Hall : forallb (fun c => negb (sqlite3Isspace c)) (seqZ 48 10) = true) by by vm_compute.
  rewrite forallb_forall in Hall. apply negb_true_iff, Hall, list_elem_of_In, elem_of_seqZ. unfold is_digit in Hc. lia.
Qed.

Lemma sign_spec spaces sg ds rest : parts spaces sg ds rest ->
  sign (skip sqlite3Isspace (spaces ++ sg ++ ds ++ rest)) = (bool_decide (sg = [45]), ds ++ rest).
Proof.
  intros [Hsp Hsg Hds Hr]. rewrite skip_app by done. destruct Hsg as [->|[->| ->]]; [|done|done]. cbn [app].
  assert (Hh : forall c, head (ds ++ rest) = Some c -> sqlite3Isspace c = false /\ c <> 45 /\ c <> 43).
  { destruct ds as [|d ds]; cbn [app head].
    - intros c Hc. destruct (Hr c Hc) as [_ Hn]. destruct (Hn eq_refl eq_refl) as [Hs ?]. split; [|done]. by apply not_true_is_false.
    - intros c [= <-]. apply Forall_cons in Hds as [Hd _]. split; [by apply digit_not_space|]. unfold is_digit in Hd. lia. }
  rewrite skip_stop by (intros c Hc; by apply Hh). destruct (ds ++ rest) as [|c l]; [done|]. destruct (Hh c eq_refl) as (_ & H1 & H2).
  cbn [sign]. rewrite !(proj2 (Z.eqb_neq _ _)) by done. done.
Qed.

Lemma zeros_spec ds rest : digits ds -> (forall c, head rest = Some c -> ~ is_digit c) -> exists zeros ds', ds = zeros ++ ds' /\ Forall (eq 48) zeros /\
  skip (fun c => c =? 48) (ds ++ rest) = ds' ++ rest /\ digits ds' /\ value ds' = value ds /\ (ds' = [] \/ 10 ^ (len ds' - 1) <= value ds).
Proof.
  intros Hds Hr. destruct (skip_split (fun c => c =? 48) ds) as (zeros & Hz & Hzs & Hh). remember (skip (fun c => c =? 48) ds) as ds' eqn:Heq. clear Heq.
  assert (Hzs' : Forall (eq 48) zeros) by (eapply Forall_impl; [exact Hzs|]; intros c Hc; cbn in Hc; lia).
  assert (Hds' : digits ds') by (rewrite Hz in Hds; by apply Forall_app in Hds as [_ ?]).
  assert (Hv : value ds' = value ds) by (transitivity (value (zeros ++ ds')); [by rewrite value_zeros|by rewrite <- Hz]).
  exists zeros, ds'. split_and!; [done|done| |done|done|].
  - rewrite Hz, <- app_assoc, skip_app by done. apply skip_stop. intros c Hc. destruct ds' as [|d ds']; cbn [app head] in Hc; [|by apply Hh].
    specialize (Hr c Hc). unfold is_digit in Hr. lia.
  - destruct ds' as [|d ds'']; [by left|right]. rewrite <- Hv. cbn [length]. replace (Z.of_nat (S (length ds'')) - 1) with (len ds'') by lia.
    apply value_lower; [done|]. specialize (Hh d eq_refl). cbn in Hh. lia.
Qed.

(** The number and its result code, from a value below 2^64 or, with more digits, any. *)
Lemma atoi64_spec z enc spaces sg ds rest nonNum : characters z enc = (spaces ++ sg ++ ds ++ rest, nonNum) -> parts spaces sg ds rest ->
  sqlite3Atoi64 z enc = Some (reading nonNum sg ds rest).
Proof.
  intros Hz Hp. unfold sqlite3Atoi64. rewrite Hz, (sign_spec _ _ _ _ Hp). destruct Hp as [_ _ Hds Hr]. set (neg := bool_decide _).
  destruct (zeros_spec ds rest Hds (fun c Hc => proj1 (Hr c Hc))) as (zeros & ds' & Hzds & Hzs & -> & Hds' & Hv & Hlow).
  rewrite digit_loop_spec by (done || (intros c Hc; by apply Hr)). rewrite Z.mul_0_l, !Z.add_0_l, Hv. unfold reading. fold neg. cbv zeta.
  pose proof (value_bounds _ Hds') as Hb. rewrite Hv in Hb.
  assert (Htest : (len ds' =? 0) && (length (ds ++ rest) =? length (ds' ++ rest))%nat = bool_decide (ds = [])).
  { apply eq_true_iff_eq. rewrite andb_true_iff, Z.eqb_eq, Nat.eqb_eq, bool_decide_eq_true, Hzds, !length_app. split.
    - intros [H1 H2]. apply length_zero_iff_nil. rewrite length_app. lia.
    - intros H. apply (f_equal length) in H. rewrite length_app in H. cbn [length] in H. lia. }
  rewrite Htest. set (rc := if nonNum then 1 else if forallb sqlite3Isspace rest then 0 else 1).
  destruct ds as [|d0 ds0] eqn:Hdse.
  { destruct ds' as [|d ds']; [|by destruct zeros]. case_guard as Hg; [by destruct neg|]. contradict Hg. by vm_compute. }
  rewrite <- Hdse in *. rewrite (bool_decide_eq_false_2 (ds = [])) by (by rewrite Hdse). clear Hdse d0 ds0 Htest.
  change LARGEST_INT64 with (9223372036854775808 - 1). change SMALLEST_INT64 with (-1 - (9223372036854775808 - 1)). change (2 ^ 63) with 9223372036854775808.
  assert (Hfits : value ds < 9223372036854775808 ->
    (guard (u64 (value ds) <= 9223372036854775808 - 1);; Some (rc, if 9223372036854775808 - 1 <? u64 (value ds) then if neg then -1 - (9223372036854775808 - 1) else 9223372036854775808 - 1
      else if neg then - u64 (value ds) else u64 (value ds))) =
    Some (let n := if neg then - value ds else value ds in if n =? 9223372036854775808 then (3, 9223372036854775808 - 1)
      else if 9223372036854775808 - 1 <? n then (2, 9223372036854775808 - 1) else if n <? -1 - (9223372036854775808 - 1) then (2, -1 - (9223372036854775808 - 1)) else (rc, n))).
  { intros Hsm. unfold u64. rewrite wrap_small by (unfold is_uint; lia). rewrite (proj2 (Z.ltb_ge _ (value ds))) by lia. case_guard; [|lia].
    cbn [mbind option_bind]. cbv zeta. destruct neg; repeat case_if; first [done|lia]. }
  destruct (Z.ltb_spec (len ds') 19) as [Hlt|Hge].
  - apply Hfits. apply Z.lt_le_trans with (10 ^ len ds'); [lia|]. apply Z.le_trans with (10 ^ 18); [apply Z.pow_le_mono_r; lia|lia].
  - destruct (Z.ltb_spec 19 (len ds')) as [Hgt|Hle].
    + cbn [mbind option_bind]. cbn [Z.ltb Z.compare]. destruct Hlow as [->|Hlow]; [done|].
      assert (10 ^ 19 <= 10 ^ (len ds' - 1)) by (apply Z.pow_le_mono_r; lia). f_equal.
      destruct neg; repeat case_if; first [done|lia].
    + destruct (compare_spec ds' rest Hds' ltac:(lia)) as (c & -> & Hneg & Hzero). rewrite Hv in Hneg, Hzero. change (2 ^ 63) with 9223372036854775808 in *.
      cbn [mbind option_bind]. destruct (Z.ltb_spec c 0) as [Hc|Hc]; [apply Hfits; tauto|].
      destruct (Z.ltb_spec 0 c) as [Hc'|Hc'].
      * assert (9223372036854775808 < value ds) by lia. f_equal.
        destruct neg; repeat case_if; first [done|lia].
      * assert (Hvd : value ds = 9223372036854775808) by (apply Hzero; lia). clear Hfits. rewrite Hvd. case_guard as Hg; [by destruct neg|]. by destruct Hg.
Qed.

(** ** Encodings *)

(** Text of ASCII characters in an encoding. *)
Definition low_high (t : list Z) : list Z := flat_map (fun c => [c; 0]) t.
Definition high_low (t : list Z) : list Z := flat_map (fun c => [0; c]) t.
Definition encode (enc : Z) (t : list Z) : list Z :=
  if enc =? SQLITE_UTF8 then t else if enc =? SQLITE_UTF16LE then low_high t else high_low t.

Lemma land_even m : 0 <= m -> Z.land (2 * m) (Z.lnot 1) = 2 * m.
Proof.
  intros Hm. rewrite <- Z.ldiff_land. apply Z.bits_inj'. intros i Hi. rewrite Z.ldiff_spec. destruct (decide (i = 0)) as [->|].
  - by rewrite Z.testbit_even_0.
  - replace (Z.testbit 1 i) with false; [by rewrite andb_true_r|]. symmetry. apply (Z.bits_above_log2 1 i); cbn; lia.
Qed.

Lemma lxor_even m : Z.lxor (2 * m) 1 = 2 * m + 1.
Proof.
  apply Z.bits_inj'. intros i Hi. rewrite Z.lxor_spec. destruct (decide (i = 0)) as [->|].
  - by rewrite Z.testbit_odd_0, Z.testbit_even_0.
  - replace (Z.testbit 1 i) with false by (symmetry; apply (Z.bits_above_log2 1 i); cbn; lia). rewrite xorb_false_r.
    replace i with (Z.succ (i - 1)) by lia. by rewrite Z.testbit_odd_succ, Z.testbit_even_succ by lia.
Qed.
Lemma lxor_odd m : Z.lxor (2 * m + 1) 1 = 2 * m.
Proof. by rewrite <- lxor_even, Z.lxor_assoc, Z.lxor_nilpotent, Z.lxor_0_r. Qed.

Lemma length_low_high t : len (low_high t) = 2 * len t.
Proof. induction t as [|c t IH]; [done|]. cbn [low_high flat_map app length] in *. unfold low_high in IH. lia. Qed.
Lemma length_high_low t : len (high_low t) = 2 * len t.
Proof. induction t as [|c t IH]; [done|]. cbn [high_low flat_map app length] in *. unfold high_low in IH. lia. Qed.

Lemma high_loop_low_high t : forall fuel pre, (length t <= fuel)%nat ->
  high_loop fuel (pre ++ low_high t) (len pre + 1) (len pre + 2 * len t) = len pre + 2 * len t + 1.
Proof.
  induction t as [|c t IH]; intros fuel pre Hf; cbn [length] in Hf |- *.
  - destruct fuel; cbn [high_loop]; [lia|]. rewrite (proj2 (Z.ltb_ge _ _)) by lia. cbn [andb]. lia.
  - destruct fuel as [|fuel]; [lia|]. cbn [high_loop]. rewrite (proj2 (Z.ltb_lt _ _)) by lia.
    assert (Hz : (pre ++ low_high (c :: t)) !!! Z.to_nat (len pre + 1) = 0).
    { rewrite lookup_total_app_r by lia. replace (Z.to_nat (len pre + 1) - length pre)%nat with 1%nat by lia. done. }
    rewrite Hz. cbn [andb Z.eqb]. specialize (IH fuel (pre ++ [c; 0]) ltac:(lia)). rewrite <- app_assoc, length_app in IH. cbn [length app] in IH.
    change (low_high (c :: t)) with (c :: 0 :: low_high t). replace (len pre + 1 + 2) with (Z.of_nat (length pre + 2) + 1) by lia.
    replace (len pre + 2 * Z.of_nat (S (length t))) with (Z.of_nat (length pre + 2) + 2 * len t) by lia. exact IH.
Qed.

Lemma high_loop_high_low t : forall fuel pre, (length t <= fuel)%nat ->
  high_loop fuel (pre ++ high_low t) (len pre) (len pre + 2 * len t) = len pre + 2 * len t.
Proof.
  induction t as [|c t IH]; intros fuel pre Hf; cbn [length] in Hf |- *.
  - destruct fuel; cbn [high_loop]; [lia|]. rewrite (proj2 (Z.ltb_ge _ _)) by lia. cbn [andb]. lia.
  - destruct fuel as [|fuel]; [lia|]. cbn [high_loop]. rewrite (proj2 (Z.ltb_lt _ _)) by lia.
    assert (Hz : (pre ++ high_low (c :: t)) !!! Z.to_nat (len pre) = 0).
    { rewrite lookup_total_app_r by lia. replace (Z.to_nat (len pre) - length pre)%nat with 0%nat by lia. done. }
    rewrite Hz. cbn [andb Z.eqb]. specialize (IH fuel (pre ++ [0; c]) ltac:(lia)). rewrite <- app_assoc, length_app in IH. cbn [length app] in IH.
    change (high_low (c :: t)) with (0 :: c :: high_low t). replace (len pre + 2) with (Z.of_nat (length pre + 2)) by lia.
    replace (len pre + 2 * Z.of_nat (S (length t))) with (Z.of_nat (length pre + 2) + 2 * len t) by lia. exact IH.
Qed.

Lemma alternate_low_high t : alternate (low_high t) = t.
Proof. induction t as [|c t IH]; [done|]. cbn. f_equal. exact IH. Qed.
Lemma alternate_high_low t : alternate (drop 1 (high_low t)) = t.
Proof.
  induction t as [|c t IH]; [done|]. change (high_low (c :: t)) with (0 :: c :: high_low t). cbn [drop].
  destruct t as [|c' t]; [done|]. change (high_low (c' :: t)) with (0 :: c' :: high_low t) in *. cbn [drop alternate] in *. f_equal. exact IH.
Qed.

Lemma characters_encode enc t : enc = SQLITE_UTF8 \/ enc = SQLITE_UTF16LE \/ enc = SQLITE_UTF16BE -> characters (encode enc t) enc = (t, false).
Proof.
  unfold characters, encode. intros [->|[->| ->]]; [done| |]; cbn [Z.eqb Pos.eqb SQLITE_UTF8 SQLITE_UTF16LE SQLITE_UTF16BE]; cbv zeta.
  - change (2 =? 2) with true. cbn match. rewrite length_low_high, land_even by lia.
    pose proof (high_loop_low_high t (length (low_high t)) []) as Hh. change (Z.of_nat (length [])) with 0 in Hh. rewrite !Z.add_0_l in Hh. cbn [app] in Hh.
    pose proof (length_low_high t) as Hl. change (3 - SQLITE_UTF16LE) with 1. rewrite Hh, lxor_odd, take_ge by lia.
    change (Z.to_nat (Z.land SQLITE_UTF16LE 1)) with 0%nat. rewrite drop_0, alternate_low_high. f_equal. lia.
  - change (3 =? 2) with false. cbn match. rewrite length_high_low, land_even by lia.
    pose proof (high_loop_high_low t (length (high_low t)) []) as Hh. change (Z.of_nat (length [])) with 0 in Hh. rewrite !Z.add_0_l in Hh. cbn [app] in Hh.
    pose proof (length_high_low t) as Hl. change (3 - SQLITE_UTF16BE) with 0. rewrite Hh, lxor_even, take_ge by lia.
    change (Z.to_nat (Z.land SQLITE_UTF16BE 1)) with 1%nat. rewrite alternate_high_low. f_equal. lia.
Qed.

(** ** Literals *)

Lemma int_loop_spec ds : digits ds -> forall fuel v i, (length ds <= fuel)%nat -> int_loop fuel v i ds = (v * 10 ^ len ds + value ds, i + len ds).
Proof.
  induction 1 as [|c ds Hc Hds IH]; intros fuel v i Hf.
  - change (len []) with 0. change (value []) with 0. rewrite Z.pow_0_r, Z.mul_1_r, !Z.add_0_r. by destruct fuel.
  - cbn [length] in Hf |- *. destruct fuel as [|fuel]; [lia|]. cbn [int_loop]. unfold is_digit in Hc.
    rewrite !(proj2 (Z.leb_le _ _)) by lia. cbn [andb]. rewrite IH by lia. rewrite value_cons, Nat2Z.inj_succ, Z.pow_succ_r by lia. f_equal; lia.
Qed.

Lemma int_loop_long ds : digits ds -> forall fuel v i, (fuel <= length ds)%nat -> (int_loop fuel v i ds).2 = i + Z.of_nat fuel.
Proof.
  induction 1 as [|c ds Hc Hds IH]; intros [|fuel] v i Hf; cbn [length int_loop snd] in *; try lia.
  unfold is_digit in Hc. rewrite !(proj2 (Z.leb_le _ _)) by lia. cbn [andb]. rewrite IH by lia. lia.
Qed.

Lemma digit_is_digit c : is_digit c -> sqlite3Isdigit c = true.
Proof.
  intros Hc. assert (Hall : forallb sqlite3Isdigit (seqZ 48 10) = true) by by vm_compute.
  rewrite forallb_forall in Hall. apply Hall, list_elem_of_In, elem_of_seqZ. unfold is_digit in Hc. lia.
Qed.

(** The decimal digits of a number that may fit 32 bits. *)
Lemma decimal_spec (neg : bool) ds : digits ds -> ds <> [] ->
  (if negb (sqlite3Isdigit (at_ ds 0)) then None
   else let '(v, i) := int_loop 11 0 0 (skip (fun c => c =? 48) ds) in
     if 10 <? i then None else if 2147483647 <? v - c_bool neg then None else Some (i32 (if neg then - v else v))) =
  (let n := if neg then - value ds else value ds in if (- 2 ^ 31 <=? n) && (n <? 2 ^ 31) then Some n else None).
Proof.
  intros Hds Hne. assert (Hd : is_digit (at_ ds 0)) by (destruct ds; [done|]; by apply Forall_cons in Hds as [? _]).
  rewrite digit_is_digit by done. cbn [negb]. destruct (zeros_spec ds [] Hds ltac:(done)) as (zeros & ds' & _ & _ & Hs & Hds' & Hv & Hlow).
  rewrite !app_nil_r in Hs. rewrite Hs. change (2 ^ 31) with 2147483648. cbv zeta. pose proof (value_bounds _ Hds') as Hb. rewrite Hv in Hb.
  destruct (le_lt_dec (length ds') 10) as [Hl|Hl].
  - rewrite int_loop_spec by (done || lia). rewrite Z.mul_0_l, !Z.add_0_l, Hv. rewrite (proj2 (Z.ltb_ge 10 _)) by lia.
    destruct neg; cbn [c_bool]; repeat case_if; rewrite ?andb_true_iff, ?andb_false_iff, ?Z.leb_le, ?Z.ltb_lt, ?Z.leb_gt, ?Z.ltb_ge in *; try lia; try done;
      f_equal; apply i32_small; unfold_width; lia.
  - destruct (int_loop 11 0 0 ds') as [v i] eqn:Hi. pose proof (int_loop_long ds' Hds' 11 0 0 ltac:(lia)) as Hi'. rewrite Hi in Hi'. cbn in Hi'. subst i.
    cbn [Z.ltb Z.compare Pos.compare Pos.compare_cont]. destruct Hlow as [->|Hlow]; [cbn in Hl; lia|].
    assert (10 ^ 10 <= 10 ^ (len ds' - 1)) by (apply Z.pow_le_mono_r; lia). symmetry.
    destruct neg; repeat case_if; try done; lia.
Qed.

Lemma at_digit ds i : digits ds -> at_ ds i = 0 \/ is_digit (at_ ds i).
Proof. intros Hds. unfold at_. destruct (ds !! i) as [c|] eqn:Hi; [right|by left]. by eapply Forall_lookup_1 in Hds. Qed.

Lemma not_hex c : c = 0 \/ is_digit c -> is_hex c = false.
Proof. unfold is_digit, is_hex. intros [->|Hc]; [done|]. by rewrite !(proj2 (Z.eqb_neq _ _)) by lia. Qed.

Lemma get_int32_text (neg : bool) ds : digits ds -> ds <> [] ->
  sqlite3GetInt32 ((if neg then [45] else []) ++ ds) = (let n := if neg then - value ds else value ds in if (- 2 ^ 31 <=? n) && (n <? 2 ^ 31) then Some n else None).
Proof.
  intros Hds Hne. unfold sqlite3GetInt32. cbv zeta. destruct neg; cbn [app].
  - change (at_ (45 :: ds) 0 =? 45) with true. cbn match. exact (decimal_spec true ds Hds Hne).
  - assert (Hd : is_digit (at_ ds 0)) by (destruct ds; [done|]; by apply Forall_cons in Hds as [? _]). unfold is_digit in Hd.
    rewrite (proj2 (Z.eqb_neq _ 45)), (proj2 (Z.eqb_neq _ 43)) by lia. rewrite not_hex by by apply at_digit. rewrite andb_false_r. cbn [andb].
    exact (decimal_spec false ds Hds Hne).
Qed.

Lemma strspn_all z accept : Forall (fun c => c ∈ accept) z -> strspn z accept = len z.
Proof.
  intros Hz. unfold strspn. rewrite <- (app_nil_r z) at 2. rewrite skip_app; [cbn; lia|]. eapply Forall_impl; [exact Hz|]. intros c Hc. cbn.
  apply existsb_exists. exists c. by rewrite <- list_elem_of_In, Z.eqb_refl.
Qed.

Lemma dec_or_hex_text (neg : bool) ds : digits ds -> ds <> [] -> (length ds <= 19)%nat ->
  sqlite3DecOrHexToI64 ((if neg then [45] else []) ++ ds) = sqlite3Atoi64 ((if neg then [45] else []) ++ ds) SQLITE_UTF8.
Proof.
  intros Hds Hne Hlen. set (t := _ ++ ds). assert (Hlt : (length t <= 20)%nat) by (unfold t; rewrite length_app; destruct neg; cbn; lia).
  unfold sqlite3DecOrHexToI64. cbv zeta.
  assert (Hhex : (at_ t 0 =? 48) && is_hex (at_ t 1) = false).
  { unfold t. destruct neg; [done|]. cbn [app]. rewrite (not_hex (at_ ds 1)) by by apply at_digit. apply andb_false_r. }
  rewrite Hhex, strspn_all.
  - assert (Hn : Z.land 0x3fffffff (len t) = len t).
    { rewrite Z.land_comm. change 0x3fffffff with (Z.ones 30). rewrite Z.land_ones by lia. apply Z.mod_small. lia. }
    rewrite Hn. assert (at_ t (Z.to_nat (len t)) = 0) as -> by (unfold at_; by rewrite lookup_ge_None_2 by lia). cbn [negb Z.eqb].
    by rewrite take_ge by lia.
  - assert (Hin : forall c, c = 45 \/ is_digit c -> c ∈ [43; 45; 32; 10; 9; 48; 49; 50; 51; 52; 53; 54; 55; 56; 57]).
    { unfold is_digit. intros c Hc. apply list_elem_of_In. cbn. lia. }
    unfold t. apply Forall_app. split; [destruct neg; repeat constructor; apply Hin; by left|]. eapply Forall_impl; [exact Hds|]. intros c Hc. apply Hin. by right.
Qed.

(** ** Properties *)

(** C35: reading text as a 64-bit integer, in each of the three encodings.  Every text of characters
    is spaces, a sign, digits and a rest, each part as long as it can be; the number is that of
    the digits, clamped to 64 bits, and the result code tells no digits (-1), a number that fits
    with nothing but spaces after it (0) or with other text or wide characters after it (1), a
    number that does not fit (2), and 2^63 (3). *)
Theorem atoi64_result z enc : exists spaces sg ds rest nonNum,
  characters z enc = (spaces ++ sg ++ ds ++ rest, nonNum) /\ parts spaces sg ds rest /\ sqlite3Atoi64 z enc = Some (reading nonNum sg ds rest).
Proof.
  destruct (characters z enc) as [l nonNum] eqn:Hz. destruct (text_parts l) as (spaces & sg & ds & rest & -> & Hp).
  exists spaces, sg, ds, rest, nonNum. split_and!; [done|done|]. by eapply atoi64_spec.
Qed.

(** C34: a 64-bit integer is written in at most 20 characters and a terminating zero, and the text
    reads back: in each encoding as the 64-bit integer, as a literal, and as a 32-bit integer
    exactly when it is one. *)
Theorem int_text_roundtrip v : is_sint 64 v -> exists t, sqlite3Int64ToText v = Some (t ++ [0], Z.of_nat (length t)) /\ (length t <= 20)%nat /\
  (forall enc, enc = SQLITE_UTF8 \/ enc = SQLITE_UTF16LE \/ enc = SQLITE_UTF16BE -> sqlite3Atoi64 (encode enc t) enc = Some (0, v)) /\
  sqlite3DecOrHexToI64 t = Some (0, v) /\ sqlite3GetInt32 t = (if (- 2 ^ 31 <=? v) && (v <? 2 ^ 31) then Some v else None).
Proof.
  intros Hv. destruct (int_text v Hv) as (ds & Ht & Hds & Hval & Hlen & _). set (sg := if v <? 0 then [45] else []) in *.
  assert (Hne : ds <> []) by (intros ->; cbn in Hlen; lia).
  assert (Hn : (if v <? 0 then - value ds else value ds) = v) by (rewrite Hval; destruct (Z.ltb_spec v 0); lia).
  assert (Hatoi : forall enc, enc = SQLITE_UTF8 \/ enc = SQLITE_UTF16LE \/ enc = SQLITE_UTF16BE -> sqlite3Atoi64 (encode enc (sg ++ ds)) enc = Some (0, v)).
  { intros enc Henc. pose proof (characters_encode enc (sg ++ ds) Henc) as Hc. rewrite (atoi64_spec _ _ [] sg ds [] false).
    - unfold reading. destruct ds as [|d ds]; [done|]. replace (bool_decide (sg = [45])) with (v <? 0) by (unfold sg; by destruct (v <? 0)). cbv zeta. rewrite Hn.
      rewrite LARGEST_value, SMALLEST_value. unfold_width. change (2 ^ 63) with 9223372036854775808.
      rewrite (proj2 (Z.eqb_neq _ _)), !(proj2 (Z.ltb_ge _ _)) by lia. done.
    - by rewrite Hc, app_nil_r.
    - split; [done|unfold sg; destruct (v <? 0); auto|done|done]. }
  exists (sg ++ ds). assert (Hlt : (length (sg ++ ds) <= 20)%nat) by (rewrite length_app; unfold sg; destruct (v <? 0); cbn; lia).
  split_and!; [|done|done| |].
  - rewrite Ht, app_assoc. f_equal. f_equal. rewrite length_app. unfold sg. destruct (v <? 0); cbn; lia.
  - unfold sg. rewrite dec_or_hex_text by (done || lia). fold sg. apply (Hatoi SQLITE_UTF8). by left.
  - unfold sg. rewrite get_int32_text by done. cbv zeta. by rewrite Hn.
Qed.

Lemma int_text_roundtrip_witness : is_sint 64 (-9223372036854775808) /\ exists t,
  sqlite3Int64ToText (-9223372036854775808) = Some (t ++ [0], Z.of_nat (length t)) /\ (length t <= 20)%nat /\
  (forall enc, enc = SQLITE_UTF8 \/ enc = SQLITE_UTF16LE \/ enc = SQLITE_UTF16BE -> sqlite3Atoi64 (encode enc t) enc = Some (0, -9223372036854775808)) /\
  sqlite3DecOrHexToI64 t = Some (0, -9223372036854775808) /\
  sqlite3GetInt32 t = (if (- 2 ^ 31 <=? -9223372036854775808) && (-9223372036854775808 <? 2 ^ 31) then Some (-9223372036854775808) else None).
Proof. split; [by unfold_width|]. apply int_text_roundtrip. by unfold_width. Defined.

(** ** Examples *)

(** " -12 " and "9223372036854775808x". *)
Example atoi64_examples : sqlite3Atoi64 [32; 45; 49; 50; 32] SQLITE_UTF8 = Some (0, -12) /\
  sqlite3Atoi64 [57; 50; 50; 51; 51; 55; 50; 48; 51; 54; 56; 53; 52; 55; 55; 53; 56; 48; 56; 120] SQLITE_UTF8 = Some (3, LARGEST_INT64).
Proof. by vm_compute. Qed.
