(* ===== verification/Arithmetic.v ===== *)
(** * Arithmetic: 64-bit integers in SQLite's expressions and sums

    sqlite3.c, util.c, vdbe.c and func.c parts: addition, subtraction and multiplication that
    report overflow, the opcodes that compute with two registers, and the SUM function.  [gcc]
    chooses between the two ways the checked operations can be compiled.  A register holds null,
    an integer or a double (texts are converted before they get here).  [None] is undefined
    behaviour: a signed integer that overflows. *)

From S2P Require Export Doubles IntText.

(** The result of signed arithmetic in 64 bits. *)
Definition signed (z : Z) : option Z := if (SMALLEST_INT64 <=? z) && (z <=? LARGEST_INT64) then Some z else None.

(** ** Checked operations *)

(** The return value and [*pA] after the call. *)
Notation checked := (option (bool * Z)).

(** The built-in functions of the compiler store the result wrapped to the type, and return
    whether that is not the result. *)
Definition builtin_overflow (z : Z) : checked := Some (negb (i64 z =? z), i64 z).

Definition add_portable (iA iB : Z) : checked :=
  overflow ← (if 0 <=? iB then
      if 0 <? iA then d ← signed (LARGEST_INT64 - iA); Some (d <? iB) else Some false
    else if iA <? 0 then
      s ← signed (iA + LARGEST_INT64); d ← signed (- s); e ← signed (iB + 1); Some (e <? d)
    else Some false);
  match overflow with true => Some (true, iA) | false => r ← signed (iA + iB); Some (false, r) end.

Definition sqlite3AddInt64 (gcc : bool) (pA iB : Z) : checked :=
  if gcc then builtin_overflow (pA + iB) else add_portable pA iB.

Definition sqlite3SubInt64 (gcc : bool) (pA iB : Z) : checked :=
  if gcc then builtin_overflow (pA - iB)
  else if iB =? SMALLEST_INT64 then
    if 0 <=? pA then Some (true, pA) else r ← signed (pA - iB); Some (false, r)
  else n ← signed (- iB); sqlite3AddInt64 false pA n.

Definition mul_portable (iA iB : Z) : checked :=
  overflow ← (if 0 <? iB then Some ((Z.quot LARGEST_INT64 iB <? iA) || (iA <? Z.quot SMALLEST_INT64 iB))
    else if iB <? 0 then
      if 0 <? iA then Some (iB <? Z.quot SMALLEST_INT64 iA)
      else if iA <? 0 then
        if iB =? SMALLEST_INT64 then Some true
        else if iA =? SMALLEST_INT64 then Some true
        else a ← signed (- iA); b ← signed (- iB); Some (Z.quot LARGEST_INT64 b <? a)
      else Some false
    else Some false);
  match overflow with true => Some (true, iA) | false => r ← signed (iA * iB); Some (false, r) end.

Definition sqlite3MulInt64 (gcc : bool) (pA iB : Z) : checked :=
  if gcc then builtin_overflow (pA * iB) else mul_portable pA iB.

Definition sqlite3AbsInt32 (x : Z) : Z :=
  if 0 <=? x then x else if x =? i32 0x80000000 then 0x7fffffff else - x.

(** ** Doubles *)

Definition sqlite3IsOverflow (r : double) : bool := match r with S754_nan | S754_infinity _ => true | _ => false end.

Definition sqlite3RealToI64 (r : double) : Z :=
  if SFltb r (of_int (-9223372036854774784)) then SMALLEST_INT64
  else if SFltb (of_int 9223372036854774784) r then LARGEST_INT64
  else truncated r.

(** ** The opcodes *)

Inductive mem := Null | Int (i : Z) | Real (r : double).

Definition sqlite3VdbeIntValue (pMem : mem) : Z :=
  match pMem with Int i => i | Real r => sqlite3RealToI64 r | Null => 0 end.
Definition sqlite3VdbeRealValue (pMem : mem) : double :=
  match pMem with Real r => r | Int i => of_int i | Null => of_int 0 end.

Inductive opcode := OP_Add | OP_Subtract | OP_Multiply | OP_Divide | OP_Remainder.

Inductive int_result := Int_result (i : Z) | Is_null | Fp_math.

Definition int_math (gcc : bool) (op : opcode) (iA iB : Z) : option int_result :=
  let checked r := '(overflow, iB) ← r; Some (if overflow : bool then Fp_math else Int_result iB) in
  match op with
  | OP_Add => checked (sqlite3AddInt64 gcc iB iA)
  | OP_Subtract => checked (sqlite3SubInt64 gcc iB iA)
  | OP_Multiply => checked (sqlite3MulInt64 gcc iB iA)
  | OP_Divide =>
    if iA =? 0 then Some Is_null
    else if (iA =? -1) && (iB =? SMALLEST_INT64) then Some Fp_math
    else iB ← signed (Z.quot iB iA); Some (Int_result iB)
  | OP_Remainder =>
    if iA =? 0 then Some Is_null
    else let iA := if iA =? -1 then 1 else iA in Some (Int_result (Z.rem iB iA))
  end.

Definition fp_math (op : opcode) (pIn1 pIn2 : mem) : mem :=
  let rA := sqlite3VdbeRealValue pIn1 in
  let rB := sqlite3VdbeRealValue pIn2 in
  let result rB := if is_nan rB then Null else Real rB in
  match op with
  | OP_Add => result (fadd rB rA)
  | OP_Subtract => result (fsub rB rA)
  | OP_Multiply => result (fmul rB rA)
  | OP_Divide => if SFeqb rA (of_int 0) then Null else result (fdiv rB rA)
  | OP_Remainder =>
    let iA := sqlite3VdbeIntValue pIn1 in
    let iB := sqlite3VdbeIntValue pIn2 in
    if iA =? 0 then Null else let iA := if iA =? -1 then 1 else iA in result (of_int (Z.rem iB iA))
  end.

(** The register [P3] after the opcode. *)
Definition arithmetic (gcc : bool) (op : opcode) (pIn1 pIn2 : mem) : option mem :=
  match pIn1, pIn2 with
  | Int iA, Int iB =>
    r ← int_math gcc op iA iB;
    Some (match r with Int_result i => Int i | Is_null => Null | Fp_math => fp_math op pIn1 pIn2 end)
  | Null, _ | _, Null => Some Null
  | _, _ => Some (fp_math op pIn1 pIn2)
  end.

Inductive bit_op := OP_BitAnd | OP_BitOr | OP_ShiftLeft | OP_ShiftRight.

(** A shift by a positive number of bits. *)
Definition shift_by (to_left : bool) (iA iB : Z) : Z :=
  if 64 <=? iB then if (0 <=? iA) || to_left then 0 else -1
  else
    let uA := u64 iA in
    let uA :=
      if to_left then u64 (Z.shiftl uA iB)
      else
        let uA := Z.shiftr uA iB in
        if iA <? 0 then Z.lor uA (u64 (Z.shiftl (Z.lor (Z.shiftl 0xffffffff 32) 0xffffffff) (64 - iB))) else uA in
    i64 uA.

Definition shift (to_left : bool) (iA iB : Z) : Z :=
  if iB =? 0 then iA
  else
    let '(to_left, iB) := if iB <? 0 then (negb to_left, if -64 <? iB then - iB else 64) else (to_left, iB) in
    shift_by to_left iA iB.

Definition bits (op : bit_op) (pIn1 pIn2 : mem) : mem :=
  match pIn1, pIn2 with
  | Null, _ | _, Null => Null
  | _, _ =>
    let iA := sqlite3VdbeIntValue pIn2 in
    let iB := sqlite3VdbeIntValue pIn1 in
    Int (match op with
      | OP_BitAnd => Z.land iA iB
      | OP_BitOr => Z.lor iA iB
      | OP_ShiftLeft => shift true iA iB
      | OP_ShiftRight => shift false iA iB
      end)
  end.

Definition OP_AddImm (i p2 : Z) : Z := i64 (u64 (u64 i + u64 p2)).

Definition OP_OffsetLimit (gcc : bool) (limit offset : Z) : option Z :=
  if limit <=? 0 then Some (-1)
  else '(overflow, x) ← sqlite3AddInt64 gcc limit (if 0 <? offset then offset else 0); Some (if overflow : bool then -1 else x).

(** ** Sums *)

Record SumCtx := mkSum { rSum : double; rErr : double; iSum : Z; cnt : Z; approx : bool; ovrfl : bool }.
(** The context that [sqlite3_aggregate_context] clears. *)
Definition no_sum : SumCtx := mkSum (of_int 0) (of_int 0) 0 0 false false.

Definition set_real (s e : double) (p : SumCtx) : SumCtx := mkSum s e (iSum p) (cnt p) (approx p) (ovrfl p).
Definition set_int (i : Z) (p : SumCtx) : SumCtx := mkSum (rSum p) (rErr p) i (cnt p) (approx p) (ovrfl p).
Definition set_cnt (n : Z) (p : SumCtx) : SumCtx := mkSum (rSum p) (rErr p) (iSum p) n (approx p) (ovrfl p).
Definition set_flags (a o : bool) (p : SumCtx) : SumCtx := mkSum (rSum p) (rErr p) (iSum p) (cnt p) a o.

Definition kahanBabuskaNeumaierStep (r : double) (pSum : SumCtx) : SumCtx :=
  let s := rSum pSum in
  let t := fadd s r in
  let e := if SFltb (SFabs r) (SFabs s) then fadd (rErr pSum) (fadd (fsub s t) r) else fadd (rErr pSum) (fadd (fsub r t) s) in
  set_real t e pSum.

Definition big (iVal : Z) : bool := (iVal <=? -4503599627370496) || (4503599627370496 <=? iVal).

Definition kahanBabuskaNeumaierStepInt64 (iVal : Z) (pSum : SumCtx) : SumCtx :=
  if big iVal then
    let iSm := Z.rem iVal 16384 in
    let iBig := iVal - iSm in
    kahanBabuskaNeumaierStep (of_int iSm) (kahanBabuskaNeumaierStep (of_int iBig) pSum)
  else kahanBabuskaNeumaierStep (of_int iVal) pSum.

Definition kahanBabuskaNeumaierInit (iVal : Z) (p : SumCtx) : SumCtx :=
  if big iVal then let iSm := Z.rem iVal 16384 in set_real (of_int (iVal - iSm)) (of_int iSm) p
  else set_real (of_int iVal) (of_int 0) p.

Definition sumStep (gcc : bool) (v : mem) (p : SumCtx) : option SumCtx :=
  match v with
  | Null => Some p
  | _ =>
    let p := set_cnt (cnt p + 1) p in
    match approx p, v with
    | false, Int i =>
      '(overflow, x) ← sqlite3AddInt64 gcc (iSum p) i;
      Some (if overflow : bool
        then kahanBabuskaNeumaierStepInt64 i (set_flags true true (kahanBabuskaNeumaierInit (iSum p) p))
        else set_int x p)
    | false, _ => Some (kahanBabuskaNeumaierStep (sqlite3VdbeRealValue v) (set_flags true (ovrfl p) (kahanBabuskaNeumaierInit (iSum p) p)))
    | true, Int i => Some (kahanBabuskaNeumaierStepInt64 i p)
    | true, _ => Some (kahanBabuskaNeumaierStep (sqlite3VdbeRealValue v) (set_flags (approx p) false p))
    end
  end.

(** For a value that leaves the window of a window function. *)
Definition sumInverse (v : mem) (p : SumCtx) : option SumCtx :=
  match v with
  | Null => Some p
  | _ =>
    let p := set_cnt (cnt p - 1) p in
    match approx p, v with
    | false, _ => i ← signed (iSum p - sqlite3VdbeIntValue v); Some (set_int i p)
    | true, Int iVal =>
      Some (if negb (iVal =? SMALLEST_INT64) then kahanBabuskaNeumaierStepInt64 (- iVal) p
        else kahanBabuskaNeumaierStepInt64 1 (kahanBabuskaNeumaierStepInt64 LARGEST_INT64 p))
    | true, _ => Some (kahanBabuskaNeumaierStep (SFopp (sqlite3VdbeRealValue v)) p)
    end
  end.

Inductive sum_result := No_result | Sum_int (i : Z) | Sum_double (r : double) | Integer_overflow.

Definition sumFinalize (p : SumCtx) : sum_result :=
  if 0 <? cnt p then
    if approx p then
      if ovrfl p then Integer_overflow
      else if negb (sqlite3IsOverflow (rErr p)) then Sum_double (fadd (rSum p) (rErr p))
      else Sum_double (rSum p)
    else Sum_int (iSum p)
  else No_result.

(** The sum as a double, for the two functions that follow. *)
Definition real_sum (p : SumCtx) : double :=
  if approx p then if negb (sqlite3IsOverflow (rErr p)) then fadd (rSum p) (rErr p) else rSum p else of_int (iSum p).
Definition avgFinalize (p : SumCtx) : sum_result :=
  if 0 <? cnt p then Sum_double (fdiv (real_sum p) (of_int (cnt p))) else No_result.
(** No context is no row. *)
Definition totalFinalize (p : option SumCtx) : sum_result :=
  Sum_double (match p with Some p => real_sum p | None => of_int 0 end).

(** [SELECT sum(v)] over the values [l]. *)
Fixpoint sum_from (gcc : bool) (l : list mem) (p : SumCtx) : option SumCtx :=
  match l with [] => Some p | v :: l => p ← sumStep gcc v p; sum_from gcc l p end.
Definition sum (gcc : bool) (l : list mem) : option sum_result := p ← sum_from gcc l no_sum; Some (sumFinalize p).

(** ** The checked operations *)

Lemma i64_small z : is_sint 64 z -> i64 z = z.
Proof. intros. width_lia. Qed.

Notation int64 z := (is_sint 64 z).
Lemma signed_spec z : signed z = if decide (int64 z) then Some z else None.
Proof.
  unfold signed. rewrite LARGEST_value, SMALLEST_value. unfold is_sint. change (2 ^ (64 - 1)) with 9223372036854775808.
  case_decide; destruct (Z.leb_spec (-9223372036854775808) z), (Z.leb_spec z 9223372036854775807); first [done|lia].
Qed.

Lemma signed_some z : int64 z -> signed z = Some z.
Proof. intros H. rewrite signed_spec. by rewrite decide_True. Qed.

(** What a checked operation promises for the exact result [z], with [*pA] as it was. *)
Definition exact (pA z : Z) : bool * Z := if decide (int64 z) then (false, z) else (true, pA).

Ltac int64_lia := unfold is_sint in *; change (2 ^ (64 - 1)) with 9223372036854775808 in *; lia.

Lemma add_portable_spec a b : int64 a -> int64 b -> add_portable a b = Some (exact a (a + b)).
Proof.
  intros Ha Hb. unfold add_portable, exact. rewrite LARGEST_value.
  destruct (Z.leb_spec 0 b); [destruct (Z.ltb_spec 0 a)|destruct (Z.ltb_spec a 0)]; cbn [mbind option_bind].
  - rewrite (signed_some (9223372036854775807 - a)) by int64_lia. cbn [mbind option_bind].
    destruct (Z.ltb_spec (9223372036854775807 - a) b); [by rewrite decide_False by int64_lia|].
    rewrite signed_some by int64_lia. by rewrite decide_True by int64_lia.
  - rewrite signed_some by int64_lia. by rewrite decide_True by int64_lia.
  - rewrite (signed_some (a + 9223372036854775807)) by int64_lia. cbn [mbind option_bind].
    rewrite (signed_some (- (a + 9223372036854775807))) by int64_lia. cbn [mbind option_bind]. rewrite (signed_some (b + 1)) by int64_lia. cbn [mbind option_bind].
    destruct (Z.ltb_spec (b + 1) (- (a + 9223372036854775807))); [by rewrite decide_False by int64_lia|].
    rewrite signed_some by int64_lia. by rewrite decide_True by int64_lia.
  - rewrite signed_some by int64_lia. by rewrite decide_True by int64_lia.
Qed.

Lemma sub_portable_spec a b : int64 a -> int64 b -> sqlite3SubInt64 false a b = Some (exact a (a - b)).
Proof.
  intros Ha Hb. unfold sqlite3SubInt64. rewrite SMALLEST_value. destruct (Z.eqb_spec b (-9223372036854775808)) as [->|Hne].
  - unfold exact. destruct (Z.leb_spec 0 a); [by rewrite decide_False by int64_lia|]. rewrite signed_some by int64_lia. by rewrite decide_True by int64_lia.
  - rewrite signed_some by int64_lia. cbn [mbind option_bind sqlite3AddInt64]. rewrite add_portable_spec by int64_lia. by rewrite Z.add_opp_r.
Qed.

Lemma quot_lt n b a : 0 <= n -> 0 < b -> Z.quot n b < a <-> n < a * b.
Proof. intros Hn Hb. rewrite Z.quot_div_nonneg by lia. pose proof (Z.div_mod n b). pose proof (Z.mod_pos_bound n b). nia. Qed.

Lemma lt_quot n b a : n <= 0 -> 0 < b -> a < Z.quot n b <-> a * b < n.
Proof. intros Hn Hb. pose proof (quot_lt (- n) b (- a) ltac:(lia) Hb) as H. rewrite Z.quot_opp_l in H by lia. nia. Qed.

Lemma mul_portable_spec a b : int64 a -> int64 b -> mul_portable a b = Some (exact a (a * b)).
Proof.
  intros Ha Hb. unfold mul_portable, exact. rewrite LARGEST_value, SMALLEST_value. unfold is_sint in *. change (2 ^ (64 - 1)) with 9223372036854775808 in *.
  assert (Hend : forall c, (c = true <-> ~ - 9223372036854775808 <= a * b < 9223372036854775808) ->
    (match c with true => Some (true, a) | false => r ← signed (a * b); Some (false, r) end) =
    Some (if decide (- 9223372036854775808 <= a * b < 9223372036854775808) then (false, a * b) else (true, a))).
  { intros [] Hc; case_decide as Hd.
    - by destruct (proj1 Hc eq_refl).
    - done.
    - by rewrite signed_some by (unfold is_sint; exact Hd).
    - by apply Hc in Hd. }
  destruct (Z.ltb_spec 0 b); [|destruct (Z.ltb_spec b 0)]; cbn [mbind option_bind].
  - apply Hend. rewrite orb_true_iff, !Z.ltb_lt, quot_lt, lt_quot by lia. lia.
  - destruct (Z.ltb_spec 0 a); [|destruct (Z.ltb_spec a 0)]; cbn [mbind option_bind].
    + apply Hend. rewrite Z.ltb_lt, lt_quot by lia. nia.
    + destruct (Z.eqb_spec b (-9223372036854775808)) as [->|]; [apply (Hend true); split; [nia|done]|].
      destruct (Z.eqb_spec a (-9223372036854775808)) as [->|]; [apply (Hend true); split; [nia|done]|].
      rewrite (signed_some (- a)), (signed_some (- b)) by int64_lia. cbn [mbind option_bind]. apply Hend. rewrite Z.ltb_lt, quot_lt by lia. nia.
    + apply (Hend false). split; [done|nia].
  - apply (Hend false). split; [done|nia].
Qed.

Lemma builtin_spec pA z : exists w, builtin_overflow z = Some ((exact pA z).1, w) /\ (int64 z -> w = z) /\ (~ int64 z -> w = i64 z).
Proof.
  exists (i64 z). unfold builtin_overflow, exact. split_and!; [|apply i64_small|done]. case_decide as Hz; cbn [fst].
  - by rewrite i64_small, Z.eqb_refl.
  - rewrite (proj2 (Z.eqb_neq _ _)); [done|]. intros H. apply Hz. rewrite <- H. unfold i64, swrap, is_sint.
    pose proof (Z.mod_pos_bound (z + 2 ^ (64 - 1)) (2 ^ 64)). change (2 ^ 64) with (2 * 2 ^ (64 - 1)) in *. lia.
Qed.

(** Both ways of compiling, for the three operations. *)
Definition checked_ops (a b : Z) : list ((bool -> Z -> Z -> checked) * Z) :=
  [(sqlite3AddInt64, a + b); (sqlite3SubInt64, a - b); (sqlite3MulInt64, a * b)].

Lemma checked_spec (gcc : bool) a b op z : int64 a -> int64 b -> (op, z) ∈ checked_ops a b ->
  op gcc a b = Some (if decide (int64 z) then (false, z) else (true, if gcc then i64 z else a)).
Proof.
  intros Ha Hb Hin. unfold checked_ops in Hin. rewrite !elem_of_cons, elem_of_nil in Hin. destruct gcc.
  - destruct (builtin_spec a z) as (w & Hz & Hw & Hw'). unfold exact in Hz.
    transitivity (builtin_overflow z); [destruct Hin as [Heq|[Heq|[Heq|[]]]]; by injection Heq as -> ->|]. rewrite Hz. case_decide; [by rewrite Hw|by rewrite Hw'].
  - destruct Hin as [Heq|[Heq|[Heq|[]]]]; injection Heq as -> ->; [by apply add_portable_spec|by apply sub_portable_spec|by apply mul_portable_spec].
Qed.

(** C36: the checked addition, subtraction and multiplication of 64-bit integers report overflow
    exactly when the result does not fit, and store the result when it does, in both ways they
    can be compiled; the portable way computes nothing that overflows and leaves [*pA] as it was
    when it reports overflow, the built-in functions store the result wrapped to 64 bits. *)
Theorem checked_operations a b : int64 a -> int64 b -> forall op z, (op, z) ∈ checked_ops a b ->
  op false a b = Some (if decide (int64 z) then (false, z) else (true, a)) /\
  op true a b = Some (if decide (int64 z) then (false, z) else (true, i64 z)).
Proof. intros Ha Hb op z Hin. split; [by apply (checked_spec false)|by apply (checked_spec true)]. Qed.

Lemma checked_operations_witness : int64 (2 ^ 63 - 1) /\ int64 1 /\ (sqlite3AddInt64, 2 ^ 63 - 1 + 1) ∈ checked_ops (2 ^ 63 - 1) 1 /\
  sqlite3AddInt64 false (2 ^ 63 - 1) 1 = Some (if decide (int64 (2 ^ 63 - 1 + 1)) then (false, 2 ^ 63 - 1 + 1) else (true, 2 ^ 63 - 1)) /\
  sqlite3AddInt64 true (2 ^ 63 - 1) 1 = Some (if decide (int64 (2 ^ 63 - 1 + 1)) then (false, 2 ^ 63 - 1 + 1) else (true, i64 (2 ^ 63 - 1 + 1))).
Proof.
  split; [by unfold is_sint|]. split; [by unfold is_sint|]. split; [apply list_elem_of_here|].
  apply (checked_operations (2 ^ 63 - 1) 1); [by unfold is_sint|by unfold is_sint|apply list_elem_of_here].
Defined.

(** ** Shifts *)

Lemma i64_u64 z : i64 (u64 z) = i64 z.
Proof. unfold i64, swrap, u64, wrap. by rewrite Zplus_mod_idemp_l. Qed.

Lemma i64_add_multiple z k : i64 (z + k * 2 ^ 64) = i64 z.
Proof. rewrite <- i64_u64. unfold u64, wrap. rewrite Z_mod_plus_full. apply i64_u64. Qed.

Lemma i64_multiple k : i64 (k * 2 ^ 64) = 0.
Proof. by rewrite <- (Z.add_0_l (k * 2 ^ 64)), i64_add_multiple. Qed.

Lemma shiftr_int64 a n : int64 a -> 0 <= n -> int64 (Z.shiftr a n).
Proof.
  intros Ha Hn. rewrite Z.shiftr_div_pow2 by done. pose proof (Z.pow_pos_nonneg 2 n ltac:(lia) Hn). unfold is_sint in *. change (2 ^ (64 - 1)) with 9223372036854775808 in *.
  split; [apply Z.div_le_lower_bound; nia|apply Z.div_lt_upper_bound; nia].
Qed.

Lemma shiftl_large a n : 64 <= n -> i64 (Z.shiftl a n) = 0.
Proof.
  intros Hn. rewrite Z.shiftl_mul_pow2 by lia. replace n with (n - 64 + 64) by lia. rewrite Z.pow_add_r, Z.mul_assoc by lia. apply i64_multiple.
Qed.

Lemma shiftr_large a n : int64 a -> 64 <= n -> Z.shiftr a n = if 0 <=? a then 0 else -1.
Proof.
  intros Ha Hn. rewrite Z.shiftr_div_pow2 by lia. assert (2 ^ 64 <= 2 ^ n) by (apply Z.pow_le_mono_r; lia).
  unfold is_sint in Ha. change (2 ^ (64 - 1)) with 9223372036854775808 in Ha. change (2 ^ 64) with 18446744073709551616 in *.
  destruct (Z.leb_spec 0 a); [apply Z.div_small; lia|]. symmetry. apply Z.div_unique with (a + 2 ^ n); lia.
Qed.

(** A right shift of a negative number, made of an unsigned shift and sign bits. *)
Lemma sign_extended a n : int64 a -> a < 0 -> 0 < n < 64 ->
  i64 (Z.lor (Z.shiftr (u64 a) n) (u64 (Z.shiftl (Z.lor (Z.shiftl 0xffffffff 32) 0xffffffff) (64 - n)))) = Z.shiftr a n.
Proof.
  intros Ha Hneg Hn. assert (Hu : u64 a = a + 1 * 2 ^ 64).
  { unfold u64, wrap. rewrite <- (Z_mod_plus_full a 1). apply Z.mod_small. unfold is_sint in Ha. change (2 ^ (64 - 1)) with 9223372036854775808 in Ha. change (2 ^ 64) with 18446744073709551616. lia. }
  assert (Hsplit : 2 ^ 64 = 2 ^ n * 2 ^ (64 - n)) by (rewrite <- Z.pow_add_r by lia; f_equal; lia).
  pose proof (Z.pow_pos_nonneg 2 n ltac:(lia) ltac:(lia)) as Hp. pose proof (Z.pow_pos_nonneg 2 (64 - n) ltac:(lia) ltac:(lia)) as Hp'.
  assert (Hr : Z.shiftr (u64 a) n = Z.shiftr a n + 2 ^ (64 - n)).
  { rewrite Hu, !Z.shiftr_div_pow2 by lia. rewrite Z.mul_1_l, Hsplit, (Z.mul_comm (2 ^ n)). apply Z_div_plus_full; lia. }
  assert (Hm : u64 (Z.shiftl (Z.lor (Z.shiftl 0xffffffff 32) 0xffffffff) (64 - n)) = Z.shiftl (2 ^ n - 1) (64 - n)).
  { change (Z.lor (Z.shiftl 0xffffffff 32) 0xffffffff) with (2 ^ 64 - 1). rewrite !Z.shiftl_mul_pow2 by lia. unfold u64, wrap.
    symmetry. apply Z.mod_unique with (2 ^ (64 - n) - 1); nia. }
  assert (Hb : - 2 ^ (64 - n) <= Z.shiftr a n < 0).
  { rewrite Z.shiftr_div_pow2 by lia. unfold is_sint in Ha. split; [apply Z.div_le_lower_bound; [lia|]|apply Z.div_lt_upper_bound; lia].
    replace (2 ^ n * - 2 ^ (64 - n)) with (- 2 ^ 64) by lia. change (2 ^ (64 - 1)) with 9223372036854775808 in Ha. change (2 ^ 64) with 18446744073709551616. lia. }
  rewrite Hm, Z.lor_comm, lor_shiftl_add by (unfold is_uint; lia). rewrite Hr.
  replace ((2 ^ n - 1) * 2 ^ (64 - n) + (Z.shiftr a n + 2 ^ (64 - n))) with (Z.shiftr a n + 1 * 2 ^ 64) by (rewrite Hsplit; lia).
  rewrite i64_add_multiple. apply i64_small, shiftr_int64; [done|lia].
Qed.

Lemma shift_by_spec (l : bool) a n : int64 a -> 0 < n -> shift_by l a n = i64 (if l then Z.shiftl a n else Z.shiftr a n).
Proof.
  intros Ha Hn. unfold shift_by. cbv zeta. destruct (Z.leb_spec 64 n) as [Hbig|Hsmall].
  - destruct l; [by rewrite orb_true_r, shiftl_large|]. rewrite orb_false_r, shiftr_large by done. by destruct (0 <=? a).
  - destruct l.
    + rewrite i64_u64, <- (i64_u64 (Z.shiftl a n)). rewrite !Z.shiftl_mul_pow2 by lia. rewrite <- i64_u64. unfold u64, wrap. by rewrite Zmult_mod_idemp_l.
    + rewrite (i64_small (Z.shiftr a n)) by (apply shiftr_int64; [done|lia]). destruct (Z.ltb_spec a 0); [by apply sign_extended|].
      unfold u64. rewrite wrap_small by (unfold is_uint; unfold is_sint in Ha; change (2 ^ (64 - 1)) with 9223372036854775808 in Ha; change (2 ^ 64) with 18446744073709551616; lia).
      apply i64_small, shiftr_int64; [done|lia].
Qed.

(** Both shifts are the unbounded shift, wrapped to 64 bits. *)
Lemma shift_spec (l : bool) a b : int64 a -> shift l a b = i64 (if l then Z.shiftl a b else Z.shiftr a b).
Proof.
  intros Ha. unfold shift. destruct (Z.eqb_spec b 0) as [->|Hne]; [rewrite Z.shiftl_0_r, Z.shiftr_0_r; destruct l; by rewrite i64_small|].
  destruct (Z.ltb_spec b 0); [|apply shift_by_spec; [done|lia]]. destruct (Z.ltb_spec (-64) b).
  - rewrite shift_by_spec by (done || lia). destruct l; cbn [negb]; [by rewrite Z.shiftr_opp_r|by rewrite Z.shiftl_opp_r].
  - rewrite shift_by_spec by (done || lia). destruct l; cbn [negb].
    + rewrite <- (Z.shiftr_opp_r a b). f_equal. by rewrite !shiftr_large by (done || lia).
    + rewrite <- (Z.shiftl_opp_r a b). by rewrite !shiftl_large by lia.
Qed.

(** ** The opcodes *)

(** C37: the opcodes that compute with two integers give the exact result whenever it fits 64 bits,
    and the result on doubles otherwise; dividing by zero gives null, dividing truncates, and the
    remainder is exact even for the one division that does not fit; the bit operations are those
    of unbounded integers, and both shifts by any number of bits, negative or beyond 64, are the
    unbounded shift wrapped to 64 bits; a limit with its offset is their sum, or -1 for no limit. *)
Theorem integer_opcodes gcc a b : int64 a -> int64 b ->
  let fits z (otherwise : mem) := if decide (int64 z) then Int z else otherwise in
  arithmetic gcc OP_Add (Int a) (Int b) = Some (fits (b + a) (fp_math OP_Add (Int a) (Int b))) /\
  arithmetic gcc OP_Subtract (Int a) (Int b) = Some (fits (b - a) (fp_math OP_Subtract (Int a) (Int b))) /\
  arithmetic gcc OP_Multiply (Int a) (Int b) = Some (fits (b * a) (fp_math OP_Multiply (Int a) (Int b))) /\
  arithmetic gcc OP_Divide (Int a) (Int b) = Some (if a =? 0 then Null else fits (Z.quot b a) (fp_math OP_Divide (Int a) (Int b))) /\
  arithmetic gcc OP_Remainder (Int a) (Int b) = Some (if a =? 0 then Null else Int (Z.rem b a)) /\
  bits OP_BitAnd (Int a) (Int b) = Int (Z.land b a) /\ bits OP_BitOr (Int a) (Int b) = Int (Z.lor b a) /\
  bits OP_ShiftLeft (Int a) (Int b) = Int (i64 (Z.shiftl b a)) /\ bits OP_ShiftRight (Int a) (Int b) = Int (i64 (Z.shiftr b a)) /\
  OP_OffsetLimit gcc a b = Some (if (0 <? a) && (a + Z.max b 0 <? 2 ^ 63) then a + Z.max b 0 else -1).
Proof.
  intros Ha Hb. cbv zeta. unfold arithmetic, int_math. cbv zeta. unfold bits. cbn [sqlite3VdbeIntValue].
  rewrite (checked_spec gcc b a sqlite3AddInt64 (b + a)) by (done || (unfold checked_ops; set_solver)).
  rewrite (checked_spec gcc b a sqlite3SubInt64 (b - a)) by (done || (unfold checked_ops; set_solver)).
  rewrite (checked_spec gcc b a sqlite3MulInt64 (b * a)) by (done || (unfold checked_ops; set_solver)).
  rewrite !(shift_spec _ b a) by done. split_and!; try (by case_decide); try done.
  - destruct (Z.eqb_spec a 0) as [->|Hz]; [done|]. rewrite SMALLEST_value. destruct (decide (a = -1 /\ b = -9223372036854775808)) as [[-> ->]|Hne]; [done|].
    assert (Hfit : int64 (Z.quot b a)).
    { unfold is_sint in *. change (2 ^ (64 - 1)) with 9223372036854775808 in *. pose proof (Z.quot_rem' b a). pose proof (Z.rem_bound_abs b a Hz). nia. }
    replace ((a =? -1) && (b =? -9223372036854775808)) with false by (symmetry; apply andb_false_iff; rewrite !Z.eqb_neq; lia).
    rewrite signed_some by done. by rewrite decide_True.
  - destruct (Z.eqb_spec a 0) as [->|Hz]; [done|]. destruct (Z.eqb_spec a (-1)) as [->|]; [|done]. change (Z.rem b (-1)) with (Z.rem b (- (1))). by rewrite Z.rem_opp_r, !Z.rem_1_r.
  - unfold OP_OffsetLimit. destruct (Z.leb_spec a 0); [by rewrite (proj2 (Z.ltb_ge 0 a))|]. rewrite (proj2 (Z.ltb_lt 0 a)) by done.
    assert (Hm : (if 0 <? b then b else 0) = Z.max b 0) by (destruct (Z.ltb_spec 0 b); lia). rewrite Hm.
    assert (Hb' : int64 (Z.max b 0)) by int64_lia.
    rewrite (checked_spec gcc a (Z.max b 0) sqlite3AddInt64 (a + Z.max b 0)) by (done || (unfold checked_ops; set_solver)). cbn [andb].
    change (2 ^ 63) with 9223372036854775808. case_decide as Hd; destruct (Z.ltb_spec (a + Z.max b 0) 9223372036854775808); try done; int64_lia.
Qed.

Lemma integer_opcodes_witness : int64 (-1) /\ int64 (- 2 ^ 63) /\
  let a := -1 in let b := - 2 ^ 63 in let fits z (otherwise : mem) := if decide (int64 z) then Int z else otherwise in
  arithmetic false OP_Add (Int a) (Int b) = Some (fits (b + a) (fp_math OP_Add (Int a) (Int b))) /\
  arithmetic false OP_Subtract (Int a) (Int b) = Some (fits (b - a) (fp_math OP_Subtract (Int a) (Int b))) /\
  arithmetic false OP_Multiply (Int a) (Int b) = Some (fits (b * a) (fp_math OP_Multiply (Int a) (Int b))) /\
  arithmetic false OP_Divide (Int a) (Int b) = Some (if a =? 0 then Null else fits (Z.quot b a) (fp_math OP_Divide (Int a) (Int b))) /\
  arithmetic false OP_Remainder (Int a) (Int b) = Some (if a =? 0 then Null else Int (Z.rem b a)) /\
  bits OP_BitAnd (Int a) (Int b) = Int (Z.land b a) /\ bits OP_BitOr (Int a) (Int b) = Int (Z.lor b a) /\
  bits OP_ShiftLeft (Int a) (Int b) = Int (i64 (Z.shiftl b a)) /\ bits OP_ShiftRight (Int a) (Int b) = Int (i64 (Z.shiftr b a)) /\
  OP_OffsetLimit false a b = Some (if (0 <? a) && (a + Z.max b 0 <? 2 ^ 63) then a + Z.max b 0 else -1).
Proof.
  split; [by unfold is_sint|]. split; [by unfold is_sint|]. apply (integer_opcodes false (-1) (- 2 ^ 63)); by unfold is_sint.
Defined.

(** ** Sums *)

Definition in_range (v : mem) : Prop := match v with Int i => int64 i | _ => True end.
Definition is_null (v : mem) : bool := match v with Null => true | _ => false end.
Definition is_real (v : mem) : bool := match v with Real _ => true | _ => false end.
Definition ints (l : list mem) : list Z := omap (fun v => match v with Int i => Some i | _ => None end) l.
Definition values (l : list mem) : list mem := List.filter (fun v => negb (is_null v)) l.
Definition total (xs : list Z) : Z := foldr Z.add 0 xs.

(** Every partial sum from [s] on fits 64 bits. *)
Fixpoint prefixes_fit (s : Z) (xs : list Z) : bool :=
  match xs with [] => true | x :: xs => bool_decide (int64 (s + x)) && prefixes_fit (s + x) xs end.

(** The fields that a step on the doubles leaves as they are. *)
Notation same_counts p' p := (iSum p' = iSum p /\ cnt p' = cnt p /\ approx p' = approx p /\ ovrfl p' = ovrfl p).

Lemma kahan_same r p : same_counts (kahanBabuskaNeumaierStep r p) p.
Proof. done. Qed.
Lemma kahan_int_same i p : same_counts (kahanBabuskaNeumaierStepInt64 i p) p.
Proof. unfold kahanBabuskaNeumaierStepInt64. by destruct (big i). Qed.
Lemma kahan_init_same i p : same_counts (kahanBabuskaNeumaierInit i p) p.
Proof. unfold kahanBabuskaNeumaierInit. by destruct (big i). Qed.

(** Once the sum is approximate, only a double among the values takes back the overflow. *)
Lemma sum_from_approx gcc l : forall p, approx p = true -> exists p', sum_from gcc l p = Some p' /\ cnt p' = cnt p + Z.of_nat (length (values l)) /\
  approx p' = true /\ ovrfl p' = ovrfl p && negb (existsb is_real l).
Proof.
  induction l as [|v l IH]; intros p Hp; cbn [sum_from].
  - exists p. rewrite andb_true_r. cbn. split_and!; [done|lia|done|done].
  - assert (Hstep : exists p1, sumStep gcc v p = Some p1 /\ cnt p1 = cnt p + Z.of_nat (length (values [v])) /\ approx p1 = true /\ ovrfl p1 = ovrfl p && negb (is_real v)).
    { unfold sumStep. destruct v as [|i|r]; cbn [approx set_cnt]; rewrite ?Hp; eexists; (split; [done|]); cbn; rewrite ?andb_true_r, ?andb_false_r.
      - split_and!; [lia|done|done].
      - destruct (kahan_int_same i (set_cnt (cnt p + 1) p)) as (_ & -> & -> & ->). by split_and!.
      - by split_and!. }
    destruct Hstep as (p1 & -> & Hc & Ha & Ho). cbn [mbind option_bind]. destruct (IH p1 Ha) as (p' & -> & Hc' & Ha' & Ho').
    exists p'. split_and!; [done| |done|].
    + rewrite Hc', Hc. unfold values. destruct v; cbn [List.filter is_null negb length]; lia.
    + rewrite Ho', Ho. cbn [existsb]. by rewrite negb_orb, andb_assoc.
Qed.

Lemma sum_from_spec gcc l : forall p, approx p = false -> ovrfl p = false -> int64 (iSum p) -> Forall in_range l ->
  exists p', sum_from gcc l p = Some p' /\ cnt p' = cnt p + Z.of_nat (length (values l)) /\
    if existsb is_real l then approx p' = true /\ ovrfl p' = false
    else if prefixes_fit (iSum p) (ints l) then approx p' = false /\ iSum p' = iSum p + total (ints l)
    else approx p' = true /\ ovrfl p' = true.
Proof.
  induction l as [|v l IH]; intros p Ha Ho Hi Hl; cbn [sum_from]; [exists p; cbn; split_and!; [done|lia|done|lia]|].
  apply Forall_cons in Hl as [Hv Hl]. unfold sumStep. destruct v as [|i|r]; cbn [approx set_cnt iSum]; rewrite ?Ha; cbn [mbind option_bind].
  - exact (IH p Ha Ho Hi Hl).
  - cbn in Hv. rewrite (checked_spec gcc (iSum p) i sqlite3AddInt64 (iSum p + i)) by (done || (unfold checked_ops; set_solver)).
    cbn [existsb is_real orb ints omap list_omap prefixes_fit total foldr]. destruct (decide (int64 (iSum p + i))) as [Hfit|Hfit]; cbn [mbind option_bind].
    + rewrite (bool_decide_eq_true_2 _ Hfit). cbn [andb]. destruct (IH (set_int (iSum p + i) (set_cnt (cnt p + 1) p)) Ha Ho Hfit Hl) as (p' & -> & Hc & H).
      exists p'. cbn in Hc, H. split_and!; [done|unfold values in *; cbn [List.filter is_null negb length]; lia|]. fold (ints l) (total (ints l)) in *. destruct (existsb is_real l); [done|].
      destruct (prefixes_fit (iSum p + i) (ints l)); [|done]. destruct H as [-> ->]. split; [done|lia].
    + rewrite (bool_decide_eq_false_2 _ Hfit). cbn [andb]. set (p1 := kahanBabuskaNeumaierStepInt64 i _).
      assert (Hp1 : cnt p1 = cnt p + 1 /\ approx p1 = true /\ ovrfl p1 = true).
      { unfold p1. destruct (kahan_int_same i (set_flags true true (kahanBabuskaNeumaierInit (iSum p) (set_cnt (cnt p + 1) p)))) as (_ & -> & -> & ->).
        cbn. by destruct (kahan_init_same (iSum p) (set_cnt (cnt p + 1) p)) as (_ & -> & _). }
      destruct Hp1 as (Hc1 & Ha1 & Ho1). destruct (sum_from_approx gcc l p1 Ha1) as (p' & -> & Hc & Ha' & Ho'). exists p'.
      split_and!; [done|rewrite Hc, Hc1; unfold values; cbn [List.filter is_null negb length]; lia|]. rewrite Ho1 in Ho'. by destruct (existsb is_real l).
  - set (p1 := kahanBabuskaNeumaierStep _ _). assert (Hp1 : cnt p1 = cnt p + 1 /\ approx p1 = true /\ ovrfl p1 = false).
    { unfold p1. cbn. destruct (kahan_init_same (iSum p) (set_cnt (cnt p + 1) p)) as (_ & -> & _). by split_and!. }
    destruct Hp1 as (Hc1 & Ha1 & Ho1). destruct (sum_from_approx gcc l p1 Ha1) as (p' & -> & Hc & Ha' & Ho'). exists p'.
    rewrite Ho1 in Ho'. cbn [existsb is_real orb]. split_and!; [done|rewrite Hc, Hc1; unfold values; cbn [List.filter is_null negb length]; lia|done|done].
Qed.

(** Theorem: SUM over a column.  With no value but nulls there is no result; with a double among the
    values the result is a double; with integers only it is their exact sum when every partial sum
    fits 64 bits, and the error "integer overflow" when one does not, however the integers after
    it may bring the sum back. *)
Theorem sum_result_kinds gcc l : Forall in_range l -> exists r, sum gcc l = Some r /\
  if bool_decide (values l = []) then r = No_result
  else if existsb is_real l then exists d, r = Sum_double d
  else if prefixes_fit 0 (ints l) then r = Sum_int (total (ints l))
  else r = Integer_overflow.
Proof.
  intros Hl. destruct (sum_from_spec gcc l no_sum eq_refl eq_refl ltac:(by unfold is_sint) Hl) as (p & Hp & Hc & H).
  exists (sumFinalize p). unfold sum. rewrite Hp. split; [done|]. unfold sumFinalize. cbn [cnt no_sum] in Hc. rewrite Hc.
  case_bool_decide as Hv; [by rewrite Hv|].
  assert (Hpos : 0 <? 0 + Z.of_nat (length (values l)) = true) by (apply Z.ltb_lt; destruct (values l); [done|]; cbn [length]; lia). rewrite Hpos.
  destruct (existsb is_real l).
  - destruct H as [-> ->]. destruct (negb _); eauto.
  - cbn [iSum no_sum] in H. destruct (prefixes_fit 0 (ints l)); [by destruct H as [-> ->]|]. by destruct H as [-> ->].
Qed.

(** Theorem: AVG and TOTAL over a column are made of the sum that SUM gives, as a double: TOTAL is 0.0
    without a value, where AVG has no result, and neither reports an overflow. *)
Theorem avg_total_of_sum gcc l : Forall in_range l -> exists p d, sum_from gcc l no_sum = Some p /\
  totalFinalize (Some p) = Sum_double d /\
  avgFinalize p = (if bool_decide (values l = []) then No_result else Sum_double (fdiv d (of_int (Z.of_nat (length (values l)))))) /\
  match sumFinalize p with
  | No_result => values l = [] /\ d = of_int 0
  | Sum_int i => i = total (ints l) /\ d = of_int i
  | Sum_double r => d = r
  | Integer_overflow => prefixes_fit 0 (ints l) = false
  end.
Proof.
  intros Hl. destruct (sum_from_spec gcc l no_sum eq_refl eq_refl ltac:(by unfold is_sint) Hl) as (p & Hp & Hc & H). cbn [cnt iSum no_sum] in *.
  rewrite Z.add_0_l in Hc. exists p, (real_sum p). split; [done|]. split; [done|]. unfold avgFinalize, sumFinalize. rewrite Hc.
  case_bool_decide as Hv; [rewrite Hv; cbn [length Z.of_nat Z.ltb]; split; [done|split; [done|]]|].
  - assert (Hnone : existsb is_real l = false /\ ints l = []).
    { clear - Hv. induction l as [|v l IH]; [done|]. destruct v; [by apply IH|done|done]. }
    destruct Hnone as [Hr Hi]. rewrite Hr, Hi in H. cbn in H. destruct H as [Ha Hs]. unfold real_sum. by rewrite Ha, Hs.
  - assert (Hpos : 0 <? Z.of_nat (length (values l)) = true) by (apply Z.ltb_lt; destruct (values l); [done|]; cbn [length]; lia). rewrite Hpos. split; [done|].
    unfold real_sum. destruct (existsb is_real l); [destruct H as [-> ->]; by destruct (sqlite3IsOverflow (rErr p))|].
    destruct (prefixes_fit 0 (ints l)); destruct H as [-> H]; [by rewrite H|by rewrite H].
Qed.

Definition example_values : list mem := [Int (2 ^ 63 - 1); Null; Int 1; Int (-5)].
Lemma example_in_range : Forall in_range example_values.
Proof. unfold example_values. rewrite !Forall_cons. split_and!; try done; unfold in_range, is_sint; lia. Qed.

Lemma sum_result_kinds_witness : Forall in_range example_values /\ exists r, sum false example_values = Some r /\
  if bool_decide (values example_values = []) then r = No_result
  else if existsb is_real example_values then exists d, r = Sum_double d
  else if prefixes_fit 0 (ints example_values) then r = Sum_int (total (ints example_values))
  else r = Integer_overflow.
Proof. split; [exact example_in_range|]. apply sum_result_kinds. exact example_in_range. Defined.

Lemma avg_total_of_sum_witness : Forall in_range example_values /\ exists p d, sum_from false example_values no_sum = Some p /\
  totalFinalize (Some p) = Sum_double d /\
  avgFinalize p = (if bool_decide (values example_values = []) then No_result else Sum_double (fdiv d (of_int (Z.of_nat (length (values example_values)))))) /\
  match sumFinalize p with
  | No_result => values example_values = [] /\ d = of_int 0
  | Sum_int i => i = total (ints example_values) /\ d = of_int i
  | Sum_double r => d = r
  | Integer_overflow => prefixes_fit 0 (ints example_values) = false
  end.
Proof. split; [exact example_in_range|]. apply avg_total_of_sum. exact example_in_range. Defined.

Example sum_examples : sum true example_values = Some Integer_overflow /\ sum true [Int 3; Null; Int (-5)] = Some (Sum_int (-2)) /\ sum true [Null] = Some No_result.
Proof. by vm_compute. Qed.

(** Theorem (finding): the integer sum of a window function is not checked when a value leaves the
    window.  Three values are summed exactly; when the first one, which is negative, leaves, the
    sum of the other two does not fit, and the subtraction overflows, where SUM over the two is
    the error "integer overflow". *)
Theorem sum_inverse_overflows : let n := 9000000000000000000 in
  sum false [Int (- n); Int n; Int n] = Some (Sum_int n) /\
  (p ← sum_from false [Int (- n); Int n; Int n] no_sum; sumInverse (Int (- n)) p) = None /\
  sum false [Int n; Int n] = Some Integer_overflow.
Proof. by vm_compute. Qed.
